(* ===== verification/_CoqProject ===== *)
-Q . S2P
Prelude.v
Mem.v
Dyadic.v
MemInv.v
MemSpec.v
MemInit.v
MemProps.v
PageAlloc.v
Mmu.v
Pte.v
MmuTree.v
MmuSpec.v
MmuKernel.v
MmuDestroy.v
MmuProps.v
Objects.v
ObjInv.v
ObjProps.v
ObjMem.v
Sched.v
SchedInv.v
SchedOps.v
SchedSteps.v
SchedProps.v
Ipc.v
IpcInv.v
IpcProps.v
Syscall.v
SyscallProps.v
Elf.v
ElfParse.v
ElfMem.v
ElfProps.v
Fdt.v
FdtSafe.v
FdtTree.v
FdtProps.v
Heap.v
HeapInv.v
HeapSteps.v
HeapPages.v
HeapOps.v
HeapProps.v
User.v
Servers.v
UserSys.v
UserNames.v
UserMem.v
RamfsSpec.v
RamfsInv.v
RamfsCalls.v
RamfsOps.v
RamfsTable.v
RamfsProps.v
RamfsRuns.v
Sync.v
SyncProps.v
SyncHart.v
Console.v
ConsoleProps.v
UartProps.v
HeapBeside.v
KernelMem.v
KernelMemInv.v
KernelMemOps.v
KernelBoot.v
KernelMemProps.v
SmpBoot.v
SmpProps.v
TrapAsm.v
TrapAsmProps.v
