(* ===== verification/Prelude.v ===== *)
(** * Ignium microkernel: a verification library

    Ignium (src/kernel, src/user) is a RISC-V microkernel written in Rust.  This
    library models its core as executable definitions and proves what makes each
    part correct.  The kernel is built with [panic = "abort"] and
    [overflow-checks = true], so a failed assertion, index or addition is an
    outcome of its own, [Panic], and the theorems that a call returns exclude it.

    ** The program and its model

    - Physical pages (src/kernel/src/mem.rs): Mem.v.  [BuddyAllocator] with its free
      lists threaded through the free pages, [buddy_init], [buddy_alloc],
      [buddy_free] and the public functions.  Dyadic.v, MemInv.v, MemSpec.v,
      MemInit.v hold the arithmetic of buddies, the invariant, the abstract
      specification and the initialisation; MemProps.v the properties.
      PageAlloc.v is the interface (a class) its clients are verified against.
    - Address spaces (src/kernel/src/mmu.rs): Mmu.v, on the same memory.  Pte.v and
      MmuTree.v hold the bit-level facts and the tree of tables; MmuSpec.v,
      MmuKernel.v, MmuDestroy.v the specification of every operation as its effect on
      the walk of every address; MmuProps.v the properties.
    - Processes, capabilities, shared pages, page capabilities, services and devices
      (process.rs, shm.rs, pages.rs, services.rs, device.rs): Objects.v, on top of
      Mmu.v.  ObjInv.v is a logic of relations kept by runs; ObjProps.v and ObjMem.v
      the properties.
    - The scheduler (sched.rs): Sched.v, with SchedInv.v (the invariant),
      SchedOps.v (every operation keeps it), SchedSteps.v (the transition system of
      all calls on all harts) and SchedProps.v (the properties).

    - Message passing and the killing of a process (ipc.rs and kill_process of
      sched.rs): Ipc.v, over the objects, the scheduler and the pending queues
      together; IpcInv.v holds the invariant and the specification of every branch,
      IpcProps.v the transition system of the harts and the properties.
    - System calls and traps (syscall.rs, trap_handler and the timer of
      arch/riscv64.rs): Syscall.v, over the same state; SyscallProps.v.
    - The ELF loader (elf.rs): Elf.v; ElfParse.v shows that the parser decides a
      reference description of the acceptable files, ElfMem.v holds the byte view of
      memory and the state of an address space while pages are added to it, ElfProps.v
      the image [load] builds.

    - The kernel heap (heap.rs): Heap.v, on the memory of the page allocator: the slab
      classes with their chains in memory, the page-sized objects and the sweep of empty
      pages.  HeapInv.v, HeapSteps.v, HeapPages.v and HeapOps.v hold the invariant and
      every operation's effect on it, HeapProps.v the properties.
    - The device tree and the boot parameters (fdt.rs, board.rs, cpu.rs, and the public
      [init] of mem.rs): Fdt.v on the bytes of the blob; FdtSafe.v and FdtTree.v (a
      reference encoder of trees), FdtProps.v.
    - Locks (sync.rs): Sync.v, machines whose steps are single atomic accesses of any
      thread; SyncProps.v, and SyncHart.v for the discipline of a single hart.
    - User programs (src/user/src/lib.rs and src/user/src/bin): User.v holds programs as trees of
      system calls, loads and stores, with the wrappers of lib.rs; Servers.v the memory,
      file and console servers and the clients.  UserSys.v is the machine they run on:
      system calls are the functions of Objects.v, memory goes through the caller's page
      table, and a process that waits lets its server take a turn.  RamfsSpec.v is the
      abstract file store; RamfsInv.v, RamfsCalls.v, RamfsOps.v, RamfsTable.v and
      UserMem.v relate it to the three processes and their pages; RamfsProps.v,
      UserNames.v and RamfsRuns.v hold the properties and whole runs of the clients.
      The devices of the machine are a class, [World]; UartProps.v puts a serial port
      behind it and runs [hello] with the console server.
    - The console (uart.rs), the log (logger.rs) and the stack scan of the panic handler
      (panic.rs): Console.v, over a device that is a parameter; ConsoleProps.v holds the
      interface of a serial port and the properties.

    - The kernel's own memory (mmu::init, the stacks of sched.rs, the order of kernel_main in
      main.rs): KernelMem.v, where the heap, the kernel's page table and the page allocator
      share one memory.  HeapBeside.v shows that the pages the heap does not use obey the
      interface of PageAlloc.v, so that the page tables are verified beside the heap;
      KernelMemInv.v and KernelMemOps.v hold the invariant and the calls, KernelBoot.v the
      boot, KernelMemProps.v every sequence of calls after it.
    - The start of the harts (entry.S, wake_secondaries and secondary_main of main.rs):
      SmpBoot.v, a machine whose steps any hart may take, with a firmware that starts harts
      when it likes; SmpProps.v.

    - The trap entry and return and the two switches (arch/riscv64.S) and the control
      registers (arch/riscv64.rs): TrapAsm.v, the instructions of the file on a machine with
      registers, control registers and memory; TrapAsmProps.v.

    Outside Sync.v and SmpBoot.v, code that runs under a spin lock is one step.  [hartid()]
    is an argument of the functions that call it; TrapAsmProps.v shows what it reads in and
    outside a trap.  The addresses the linker script defines are the records [Mmu.Layout],
    [Sched.Image], [KernelMem.Linker] and [SmpBoot.SmpEnv].

    ** What is shown

    Allocator: handing out and taking back blocks refine an abstract allocator;
    initialisation terminates with the invariant.  Page tables: mapping and unmapping
    act on exactly one page, address spaces are isolated, the kernel view of a new
    space is exact and grants nothing to user mode, destruction frees exactly what the
    space owns.  Objects: a page capability has one holder, the process table is
    consistent, each operation does what its contract says on every branch.
    Scheduler: every interleaving of calls keeps the invariant and never panics;
    scheduling order, switching, ticks, wake-ups and priority donation are exact.
    Messages: under every interleaving of the harts a blocked thread of a process is
    registered exactly once, messages arrive unchanged and in order, and the death of a
    process releases its peers.  Traps: every trap returns with the kernel consistent or
    halts in exactly the documented cases; a system call changes what the table says and
    only the registers it may; the timer does not drift.  Loader: parsing is total and
    exact, and a loaded program finds its segments and its stack as the ABI wants them.
    Heap: allocation and release refine an abstract heap, and [alloc] does what its contract
    says.  Device tree: parsing an encoded tree gives back its parameters, and no blob makes
    the parser read outside it.  Locks: mutual exclusion under every interleaving, and on a
    single hart no waiter is lost.  File server: with the memory server behind it, it
    refines an abstract store of named files, request by request.  Console: the driver
    programs the port as documented and counts every byte it does not send, and the console
    server answers each request as its protocol says.  Kernel memory: the boot order
    establishes the invariant of the shared memory, and whatever sequence of heap, stack and
    page calls follows, what is owned stays apart, mapped and unchanged, and the guard page of
    every stack cannot be touched.  Harts: under every interleaving one hart boots, the
    others run on the published page table and on stacks of their own, and none waits for
    ever once it is released.  Assembly: a trap and its return give back every register, the
    program counter, the privilege and the interrupt enable, and the switches what a call
    preserves.
    Some theorems show on concrete executions where the code departs from its
    comments.

    ** Fuel

    Loops over lists recurse on the list.  The walk of a free list is bounded by the
    page count plus one, which a chain without repetition cannot exceed; a walk of slab
    pages by the page count of the area, the slots of a slab by PAGE_SIZE plus one, the
    structure block of a device tree by its size in words plus one, the reservation block
    by its size in entries plus one.  Running out is the outcome [Timeout], which the
    theorems exclude.  A service loop is cut after [n] turns, the console server's poll of
    the transmitter after [fuel] reads; the driver's own poll is bounded by the code.
    Twenty digits are enough for a [usize].

    ** Not modelled

    Firmware calls (sbi.rs) are single instructions; the panic handler's dump prints and
    halts.  The TLB and inter-processor interrupts themselves are left out: a translation is
    a walk of the tables in memory.  Of kernel_main the self tests, benchmarks and messages
    between its steps, the idle loop and the in-kernel tests (tests.rs) are left out, as are
    the build scripts.  The scheduler's model stops where a switch reaches the assembly: it
    says what is resumed, and TrapAsm.v what resuming does to the registers.
    Sync.v represents the scheduler by its two flags per thread, blocked and woken; memory
    accesses are sequentially consistent. *)

From Stdlib Require Import ZifyN ZifyNat.
From stdpp Require Import base gmap numbers list.

#[global] Open Scope N_scope.
#[global] Set Default Goal Selector "!".

(** ** Tactics shared by the whole development *)

(** [dlia]: [lia] with division and modulo by literals. *)
Ltac dlia := zify; Z.to_euclidean_division_equations; lia.

(** Case analysis on the discriminee of a [match] or an [if] of the goal or of
    a hypothesis, keeping the equation. *)
Ltac case_match_in H :=
  match type of H with
  | context [match ?x with _ => _ end] => destruct x eqn:?
  end.

Ltac case_goal :=
  match goal with
  | |- context [match ?x with _ => _ end] => destruct x eqn:?
  end.

(** Turn the boolean tests on [N] and [nat] of the context into propositions. *)
Ltac bool_to_prop :=
  repeat match goal with
  | H : (_ <? _) = true |- _ => apply N.ltb_lt in H
  | H : (_ <? _) = false |- _ => apply N.ltb_ge in H
  | H : (_ <=? _) = true |- _ => apply N.leb_le in H
  | H : (_ <=? _) = false |- _ => apply N.leb_gt in H
  | H : (_ =? _) = true |- _ => apply N.eqb_eq in H
  | H : (_ =? _) = false |- _ => apply N.eqb_neq in H
  | H : (_ <? _)%nat = true |- _ => apply Nat.ltb_lt in H
  | H : (_ <? _)%nat = false |- _ => apply Nat.ltb_ge in H
  | H : (_ <=? _)%nat = true |- _ => apply Nat.leb_le in H
  | H : (_ <=? _)%nat = false |- _ => apply Nat.leb_gt in H
  | H : (_ =? _)%nat = true |- _ => apply Nat.eqb_eq in H
  | H : (_ =? _)%nat = false |- _ => apply Nat.eqb_neq in H
  | H : _ || _ = true |- _ => apply orb_true_iff in H
  | H : _ || _ = false |- _ => apply orb_false_iff in H; destruct H
  | H : _ && _ = true |- _ => apply andb_true_iff in H; destruct H
  | H : _ && _ = false |- _ => apply andb_false_iff in H
  | H : negb _ = true |- _ => apply negb_true_iff in H
  | H : negb _ = false |- _ => apply negb_false_iff in H
  end.

(** Hints of the page and page-table components. *)
Create HintDb pages.

(** ** Outcomes

    The kernel is built with [panic = "abort"] and [overflow-checks = true]: a
    failed [assert!], [expect], index or checked arithmetic operation halts the
    machine, which is [Panic].  [Timeout] is the outcome of a loop the model
    bounds by fuel and whose bound is exhausted; theorems that a loop returns
    exclude it. *)
Inductive outcome (A : Type) : Type :=
| Ret (a : A)
| Panic
| Timeout.
Arguments Ret {A} _.
Arguments Panic {A}.
Arguments Timeout {A}.

(** Rust's [Result<T, E>]. *)
Inductive result (A E : Type) : Type :=
| Ok (a : A)
| Err (e : E).
Arguments Ok {A E} _.
Arguments Err {A E} _.

#[global] Instance result_eq_dec A E `{EqDecision A, EqDecision E} :
  EqDecision (result A E).
Proof. solve_decision. Defined.

(** Code that runs on a component state [S], returns a value, and may halt. *)
Definition M (S A : Type) : Type := S → outcome (A * S).

#[global] Instance M_ret S : MRet (M S) := λ A a s, Ret (a, s).
#[global] Instance M_bind S : MBind (M S) := λ A B f m s,
  match m s with
  | Ret (a, s') => f a s'
  | Panic => Panic
  | Timeout => Timeout
  end.

Definition panic {S A} : M S A := λ _, Panic.
Definition timeout {S A} : M S A := λ _, Timeout.
Definition get {S} : M S S := λ s, Ret (s, s).
Definition put {S} (s : S) : M S () := λ _, Ret (tt, s).
Definition gets {S A} (f : S → A) : M S A := λ s, Ret (f s, s).
Definition modify {S} (f : S → S) : M S () := λ s, Ret (tt, f s).
(** [assert!(b)]. *)
Definition assert_ {S} (b : bool) : M S () := if b then mret tt else panic.
(** [o.expect(..)], [o.unwrap()] and slice indexing. *)
Definition expect {S A} (o : option A) : M S A :=
  match o with Some a => mret a | None => panic end.

(** Run code of a component on its field of a larger state. *)
Definition lift {S T A} (proj : T → S) (inj : S → T → T) (m : M S A) : M T A :=
  λ t, match m (proj t) with
       | Ret (a, s) => Ret (a, inj s t)
       | Panic => Panic
       | Timeout => Timeout
       end.

(** [for x in l { f x }]. *)
Fixpoint for_each {S A} (f : A → M S ()) (l : list A) : M S () :=
  match l with
  | [] => mret tt
  | x :: l => f x;; for_each f l
  end.

(** The [?] operator on a fallible call, and [Option::ok_or]. *)
Definition try_ {S A B E} (m : M S (result A E)) (k : A → M S (result B E)) : M S (result B E) :=
  r ← m;
  match r with
  | Ok a => k a
  | Err e => mret (Err e)
  end.
Notation "x ←? y ; z" := (try_ y (λ x : _, z))
  (at level 20, y at level 100, z at level 200).
Notation "y ;;? z" := (try_ y (λ _ : _, z))
  (at level 100, z at level 200, right associativity).

Definition ok_or {S A E} (m : M S (option A)) (e : E) : M S (result A E) :=
  r ← m; mret (match r with Some a => Ok a | None => Err e end).
(** [r.expect(..)] on a [Result]. *)
Definition expect_ok {S A E} (m : M S (result A E)) : M S A :=
  r ← m;
  match r with
  | Ok a => mret a
  | Err _ => panic
  end.

Section monad_lemmas.
Context {S : Type}.
Implicit Types s : S.

Lemma bind_ret_inv {A B} (m : M S A) (f : A → M S B) s r :
  (m ≫= f) s = Ret r → ∃ a s', m s = Ret (a, s') ∧ f a s' = Ret r.
Proof.
  unfold mbind, M_bind. destruct (m s) as [[a s']| |] eqn:E; [|done..]. eauto.
Qed.

Lemma bind_ret {A B} (m : M S A) (f : A → M S B) s a s' :
  m s = Ret (a, s') → (m ≫= f) s = f a s'.
Proof. unfold mbind, M_bind. by intros ->. Qed.

Lemma try_ok {A B E} (m : M S (result A E)) (k : A → M S (result B E)) s a s' :
  m s = Ret (Ok a, s') → try_ m k s = k a s'.
Proof. intros H. unfold try_. by rewrite (bind_ret _ _ _ _ _ H). Qed.

Lemma try_err {A B E} (m : M S (result A E)) (k : A → M S (result B E)) s e s' :
  m s = Ret (Err e, s') → try_ m k s = Ret (Err e, s').
Proof. intros H. unfold try_. by rewrite (bind_ret _ _ _ _ _ H). Qed.

Lemma expect_ok_ok {A E} (m : M S (result A E)) s a s' :
  m s = Ret (Ok a, s') → expect_ok m s = Ret (a, s').
Proof. intros H. unfold expect_ok. by rewrite (bind_ret _ _ _ _ _ H). Qed.

Lemma ok_or_some {A E} (m : M S (option A)) (e : E) s a s' :
  m s = Ret (Some a, s') → ok_or m e s = Ret (Ok a, s').
Proof. intros H. unfold ok_or. by rewrite (bind_ret _ _ _ _ _ H). Qed.

Lemma ok_or_none {A E} (m : M S (option A)) (e : E) s s' :
  m s = Ret (None, s') → ok_or m e s = Ret (Err e, s').
Proof. intros H. unfold ok_or. by rewrite (bind_ret _ _ _ _ _ H). Qed.

Lemma bind_mret_l {A B} (a : A) (f : A → M S B) s : (mret a ≫= f) s = f a s.
Proof. done. Qed.

Lemma bind_get {B} (f : S → M S B) s : (get ≫= f) s = f s s.
Proof. done. Qed.

Lemma bind_gets {A B} (g : S → A) (f : A → M S B) s : (gets g ≫= f) s = f (g s) s.
Proof. done. Qed.

Lemma bind_modify {B} (g : S → S) (f : () → M S B) s :
  (modify g ≫= f) s = f tt (g s).
Proof. done. Qed.

Lemma bind_put {B} s' (f : () → M S B) s : (put s' ≫= f) s = f tt s'.
Proof. done. Qed.

Lemma bind_expect_some {A B} (o : option A) a (f : A → M S B) s :
  o = Some a → (expect o ≫= f) s = f a s.
Proof. by intros ->. Qed.

Lemma bind_assert {B} (b : bool) (f : () → M S B) s :
  b = true → (assert_ b ≫= f) s = f tt s.
Proof. by intros ->. Qed.

(** A loop whose body keeps [P] and returns keeps [P] and returns. *)
Lemma for_each_inv {A} (P : S → Prop) (f : A → M S ()) (l : list A) s :
  (∀ x s, x ∈ l → P s → ∃ s', f x s = Ret (tt, s') ∧ P s') →
  P s → ∃ s', for_each f l s = Ret (tt, s') ∧ P s'.
Proof.
  revert s. induction l as [|x l IH]; intros s Hf Hs; simpl; [by eauto|].
  destruct (Hf x s) as (s1 & E1 & Hs1); [set_solver|done|].
  erewrite bind_ret by done. apply IH; [|done]. intros y s2 Hy. apply Hf. set_solver.
Qed.
End monad_lemmas.

(** [inv_ret H]: decompose [H : (x ← m; k) s = Ret r] into the run of [m] and
    the run of the continuation. *)
Ltac inv_ret H :=
  let a := fresh "a" in let s := fresh "s" in let E := fresh "E" in
  apply bind_ret_inv in H as (a & s & E & H).

(** Run the leading primitive of a monadic goal. *)
Ltac step_M :=
  first [ rewrite bind_mret_l | rewrite bind_get | rewrite bind_gets
        | rewrite bind_modify | rewrite bind_put ].

(** ** Machine integers

    [usize] and [u64] values are [N]; an operation that can leave the range is
    written with its check. *)
Definition USIZE_MAX : N := 0xFFFFFFFFFFFFFFFF.
Definition USIZE_MOD : N := 0x10000000000000000.
Definition usize_ok (x : N) : bool := x <=? USIZE_MAX.

(** [a.checked_add(b)], [a.checked_mul(b)], [a.saturating_add(b)],
    [a.wrapping_add(b)], [a.wrapping_sub(b)]. *)
Definition checked_add (a b : N) : option N :=
  if usize_ok (a + b) then Some (a + b) else None.
Definition checked_mul (a b : N) : option N :=
  if usize_ok (a * b) then Some (a * b) else None.
Definition saturating_add (a b : N) : N := N.min (a + b) USIZE_MAX.
Definition wrapping_add (a b : N) : N := (a + b) mod USIZE_MOD.
Definition wrapping_sub (a b : N) : N := (a + (USIZE_MOD - b mod USIZE_MOD)) mod USIZE_MOD.
(** [a.div_ceil(b)]. *)
Definition div_ceil (a b : N) : N := (a + (b - 1)) / b.
(** [a.is_multiple_of(b)]. *)
Definition is_multiple_of (a b : N) : bool := a mod b =? 0.

(** Plain [a + b], [a - b] and [a * b] under overflow checks. *)
Definition add_ {S} (a b : N) : M S N := expect (checked_add a b).
Definition mul_ {S} (a b : N) : M S N := expect (checked_mul a b).
Definition sub_ {S} (a b : N) : M S N := if b <=? a then mret (a - b) else panic.

(** [o.is_none_or(|e| e > lim)]. *)
Definition none_or_gt (o : option N) (lim : N) : bool :=
  match o with Some e => lim <? e | None => true end.

Lemma checked_add_Some a b c :
  checked_add a b = Some c ↔ c = a + b ∧ a + b ≤ USIZE_MAX.
Proof.
  unfold checked_add, usize_ok. case_match; bool_to_prop; naive_solver lia.
Qed.

Lemma none_or_gt_false o lim : none_or_gt o lim = false ↔ ∃ e, o = Some e ∧ e ≤ lim.
Proof. unfold none_or_gt. destruct o; [rewrite N.ltb_ge|]; naive_solver. Qed.

Lemma checked_add_None a b : checked_add a b = None ↔ USIZE_MAX < a + b.
Proof.
  unfold checked_add, usize_ok. case_match; bool_to_prop; split; intros; simplify_eq; auto; lia.
Qed.

Lemma is_multiple_of_spec a b : is_multiple_of a b = true ↔ a mod b = 0.
Proof. apply N.eqb_eq. Qed.

(** ** Vectors indexed by machine integers

    The bound is tested before the index becomes a [nat], so that evaluation
    never builds a huge unary number. *)
Definition vlen {A} (l : list A) : N := N.of_nat (length l).
Definition vget {A} (l : list A) (i : N) : option A :=
  if i <? vlen l then l !! N.to_nat i else None.
Definition vset {A} (l : list A) (i : N) (x : A) : list A :=
  if i <? vlen l then <[N.to_nat i := x]> l else l.

(** The indices [a .. a + n - 1]. *)
Fixpoint nrange (a : N) (n : nat) : list N :=
  match n with
  | O => []
  | S n => a :: nrange (a + 1) n
  end.

Section vec_lemmas.
Context {A : Type}.
Implicit Types (l : list A) (i j : N) (x : A).

Lemma vget_lookup l i : vget l i = l !! N.to_nat i.
Proof.
  unfold vget, vlen. case_match; bool_to_prop; [done|].
  symmetry. apply lookup_ge_None. lia.
Qed.

Lemma vget_Some_lt l i x : vget l i = Some x → i < vlen l.
Proof. rewrite vget_lookup. intros H%lookup_lt_Some. unfold vlen. lia. Qed.

Lemma vget_lt_Some l i : i < vlen l → ∃ x, vget l i = Some x.
Proof.
  intros H. rewrite vget_lookup. apply lookup_lt_is_Some. unfold vlen in *. lia.
Qed.

Lemma vlen_vset l i x : vlen (vset l i x) = vlen l.
Proof. unfold vset, vlen. case_match; [by rewrite length_insert|done]. Qed.

Lemma vget_vset_eq l i x : i < vlen l → vget (vset l i x) i = Some x.
Proof.
  intros H. rewrite vget_lookup. unfold vset. case_match; bool_to_prop; [|lia].
  apply list_lookup_insert_eq. unfold vlen in *; lia.
Qed.

Lemma vget_vset_ne l i j x : i ≠ j → vget (vset l i x) j = vget l j.
Proof.
  intros H. rewrite !vget_lookup. unfold vset. case_match; bool_to_prop; [|done].
  apply list_lookup_insert_ne. lia.
Qed.

Lemma vget_vset l i j x :
  vget (vset l i x) j = if decide (i = j ∧ i < vlen l) then Some x else vget l j.
Proof.
  case_decide as H; [destruct H as [<- H]; by apply vget_vset_eq|].
  destruct (decide (i = j)) as [<-|]; [|by apply vget_vset_ne].
  unfold vset. case_match; bool_to_prop; [naive_solver|done].
Qed.
End vec_lemmas.

Lemma vset_vset {A} (l : list A) i x y : vset (vset l i x) i y = vset l i y.
Proof.
  unfold vset. unfold vlen.
  destruct (i <? N.of_nat (length l)) eqn:E; [|by rewrite E].
  rewrite length_insert, E. by rewrite list_insert_insert_eq.
Qed.

Lemma vset_id {A} (l : list A) i x : vget l i = Some x → vset l i x = l.
Proof.
  intros H. pose proof (vget_Some_lt _ _ _ H). rewrite vget_lookup in H.
  unfold vset. case_match; [|done]. by apply list_insert_id.
Qed.

Lemma elem_of_nrange i a n : i ∈ nrange a n ↔ a ≤ i < a + N.of_nat n.
Proof.
  revert a; induction n as [|n IH]; intros a; simpl.
  - rewrite elem_of_nil. lia.
  - rewrite elem_of_cons, IH. lia.
Qed.

Lemma NoDup_nrange a n : NoDup (nrange a n).
Proof.
  revert a; induction n as [|n IH]; intros a; simpl; constructor; [|done].
  rewrite elem_of_nrange. lia.
Qed.

Lemma length_nrange a n : length (nrange a n) = n.
Proof. revert a; induction n; intros; simpl; auto. Qed.
