(* ===== verification/Mem.v ===== *)
(** * Physical memory: the buddy allocator of kernel/src/mem.rs

    Data and operations of the allocator, written on the pair of the allocator
    record and the RAM it threads its free lists through.  A free block's first
    word holds the index of the next free block of its order, so the model keeps
    the RAM words: what the allocator reads back is what is in memory, not a
    separate list.  [debug_assert!]s are compiled out of the release kernel and
    have no counterpart here. *)

From Stdlib Require Import ZifyN ZifyNat.
From stdpp Require Import base gmap numbers list.
From S2P Require Import Prelude.

Definition PAGE_SIZE : N := 4096.
Definition MAX_ORDER : nat := 12.
Definition FREE_NONE : N := USIZE_MAX.
Definition MAX_PAGES : N := 32768.

(** Per-page metadata; [order] is a [u8]. *)
Record PageMeta := mkMeta { m_order : nat; m_used : bool }.

#[global] Instance PageMeta_eq_dec : EqDecision PageMeta.
Proof. solve_decision. Defined.

Record BuddyAllocator := mkBuddy {
  b_base : N;
  b_real_count : N;
  b_page_count : N;
  b_meta : gmap N PageMeta;
  b_free_lists : list N
}.

(** The allocator singleton together with the RAM (64-bit words by address). *)
Record PMem := mkPMem { buddy : BuddyAllocator; ram : gmap N N }.

Definition meta0 : PageMeta := mkMeta 0 false.
Definition allocator0 : BuddyAllocator :=
  mkBuddy 0 0 0 ∅ (replicate (S MAX_ORDER) FREE_NONE).

(** A RAM word read or written at an 8-byte aligned address. *)
Definition read_word (a : N) (r : gmap N N) : N := default 0 (r !! a).
Definition write_word (a v : N) (r : gmap N N) : gmap N N := <[a := v]> r.

Definition set_ram (r : gmap N N) (s : PMem) : PMem := mkPMem (buddy s) r.
Definition set_buddy (b : BuddyAllocator) (s : PMem) : PMem := mkPMem b (ram s).
Definition with_meta (mt : gmap N PageMeta) (b : BuddyAllocator) : BuddyAllocator :=
  mkBuddy (b_base b) (b_real_count b) (b_page_count b) mt (b_free_lists b).
Definition with_free_lists (f : list N) (b : BuddyAllocator) : BuddyAllocator :=
  mkBuddy (b_base b) (b_real_count b) (b_page_count b) (b_meta b) f.

(** [1usize << order]. *)
Definition bsize (o : nat) : N := 2 ^ N.of_nat o.

(** [BuddyAllocator::meta], read and write. *)
Definition meta_at (b : BuddyAllocator) (i : N) : PageMeta := default meta0 (b_meta b !! i).
Definition set_meta (i : N) (m : PageMeta) (s : PMem) : PMem :=
  set_buddy (with_meta (<[i := m]> (b_meta (buddy s))) (buddy s)) s.

Definition block_addr (b : BuddyAllocator) (idx : N) : N := b_base b + idx * PAGE_SIZE.
Definition block_index (b : BuddyAllocator) (addr : N) : N := (addr - b_base b) / PAGE_SIZE.

Definition set_free_list (o : nat) (h : N) (s : PMem) : PMem :=
  set_buddy (with_free_lists (<[o := h]> (b_free_lists (buddy s))) (buddy s)) s.

(** [BuddyAllocator::push]. *)
Definition push (idx : N) (order : nat) : M PMem () :=
  s ← get;
  next ← expect (b_free_lists (buddy s) !! order);
  modify (λ s, set_ram (write_word (block_addr (buddy s) idx) next (ram s)) s);;
  modify (set_free_list order idx);;
  modify (set_meta idx (mkMeta order false)).

(** [BuddyAllocator::pop]. *)
Definition pop (order : nat) : M PMem (option N) :=
  s ← get;
  head ← expect (b_free_lists (buddy s) !! order);
  if head =? FREE_NONE then mret None
  else
    assert_ (head <? b_page_count (buddy s));;
    let next := read_word (block_addr (buddy s) head) (ram s) in
    modify (set_free_list order next);;
    mret (Some head).

(** The loop of [BuddyAllocator::unlink]: [prev] is the node before [cur]. *)
Fixpoint unlink_from (fuel : nat) (target : N) (order : nat) (prev cur : N) : M PMem () :=
  match fuel with
  | O => timeout
  | S fuel =>
      if cur =? FREE_NONE then mret tt
      else
        s ← get;
        assert_ (cur <? b_page_count (buddy s));;
        let next := read_word (block_addr (buddy s) cur) (ram s) in
        if cur =? target then
          if prev =? FREE_NONE then modify (set_free_list order next)
          else modify (λ s, set_ram (write_word (block_addr (buddy s) prev) next (ram s)) s)
        else unlink_from fuel target order cur next
  end.

(** [BuddyAllocator::unlink]; a chain without a cycle has at most [page_count]
    nodes. *)
Definition unlink (target : N) (order : nat) : M PMem () :=
  s ← get;
  head ← expect (b_free_lists (buddy s) !! order);
  unlink_from (S (N.to_nat (b_page_count (buddy s)))) target order FREE_NONE head.

(** The scan of the reserved ranges in [BuddyAllocator::carve]: the pair
    [(inside_any, overlap_any)] after the loop, which breaks on the first range
    that contains the block. *)
Fixpoint carve_scan (s e : N) (reserved : list (N * N)) (overlap_any : bool) : bool * bool :=
  match reserved with
  | [] => (false, overlap_any)
  | (rs, re) :: rest =>
      if (rs <=? s) && (e <=? re) then (true, overlap_any)
      else carve_scan s e rest (overlap_any || ((rs <? e) && (s <? re)))
  end.

(** [BuddyAllocator::carve]. *)
Fixpoint carve (order : nat) (idx : N) (reserved : list (N * N)) {struct order} : M PMem () :=
  let size := bsize order in
  let recurse : M PMem () :=
    match order with
    | O => panic (* [order - 1] underflows *)
    | S o =>
        carve o idx reserved;;
        carve o (idx + N.shiftr size 1) reserved
    end in
  st ← get;
  let s := idx in
  let e := idx + size in
  if b_real_count (buddy st) <=? s then mret tt
  else if b_real_count (buddy st) <? e then recurse
  else
    let '(inside_any, overlap_any) := carve_scan s e reserved false in
    if negb overlap_any then push idx order
    else if inside_any then modify (set_meta idx (mkMeta 255 true))
    else recurse.

(** The two fill loops of [BuddyAllocator::init] without reserved ranges. *)
Fixpoint fill_max (fuel : nat) (idx count : N) : M PMem N :=
  match fuel with
  | O => timeout
  | S fuel =>
      if idx + bsize MAX_ORDER <=? count then
        push idx MAX_ORDER;; fill_max fuel (idx + bsize MAX_ORDER) count
      else mret idx
  end.

Fixpoint fill_tail (fuel : nat) (idx count : N) : M PMem () :=
  match fuel with
  | O => timeout
  | S fuel =>
      if idx <? count then
        let order := Nat.min (N.to_nat (N.log2 (count - idx))) MAX_ORDER in
        push idx order;; fill_tail fuel (idx + bsize order) count
      else mret tt
  end.

(** The carving loop of [BuddyAllocator::init]. *)
Fixpoint carve_all (fuel : nat) (idx count : N) (reserved : list (N * N)) : M PMem () :=
  match fuel with
  | O => timeout
  | S fuel =>
      if idx <? count then
        carve MAX_ORDER idx reserved;;
        carve_all fuel (idx + bsize MAX_ORDER) count reserved
      else mret tt
  end.

(** [BuddyAllocator::init]. *)
Definition buddy_init (base count : N) (reserved : list (N * N)) : M PMem () :=
  let padded := div_ceil count (bsize MAX_ORDER) * bsize MAX_ORDER in
  modify (λ s, set_buddy (mkBuddy base count padded (b_meta (buddy s))
                                  (b_free_lists (buddy s))) s);;
  for_each (λ i, modify (set_meta i meta0)) (nrange 0 (N.to_nat padded));;
  for_each (λ i, modify (set_meta i (mkMeta MAX_ORDER true)))
           (nrange count (N.to_nat (padded - count)));;
  match reserved with
  | [] =>
      idx ← fill_max (S (N.to_nat count)) 0 count;
      fill_tail (S (N.to_nat count)) idx count
  | _ => carve_all (S (N.to_nat count)) 0 count reserved
  end.

(** The search loop of [BuddyAllocator::alloc]: [k] orders are left from [o]. *)
Fixpoint find_block (k o : nat) : M PMem (option (N * nat)) :=
  match k with
  | O => mret None
  | S k =>
      r ← pop o;
      match r with
      | Some idx => mret (Some (idx, o))
      | None => find_block k (S o)
      end
  end.

(** The split loop: [cur = order + d]. *)
Fixpoint split_block (d order : nat) (idx : N) : M PMem () :=
  match d with
  | O => mret tt
  | S d =>
      push (idx + bsize (order + d)) (order + d);;
      split_block d order idx
  end.

(** [BuddyAllocator::alloc]. *)
Definition buddy_alloc (order : nat) : M PMem (option N) :=
  if (MAX_ORDER <? order)%nat then mret None
  else
    found ← find_block (S MAX_ORDER - order) order;
    match found with
    | None => mret None
    | Some (idx, cur) =>
        split_block (cur - order) order idx;;
        modify (set_meta idx (mkMeta order true));;
        b ← gets buddy;
        mret (Some (block_addr b idx))
    end.

(** The merge loop of [BuddyAllocator::free]: [k = MAX_ORDER - order]. *)
Fixpoint merge (k order : nat) (idx : N) : M PMem (N * nat) :=
  match k with
  | O => mret (idx, order)
  | S k =>
      b ← gets buddy;
      let bud := N.lxor idx (bsize order) in
      if b_page_count b <? bud + bsize order then mret (idx, order)
      else
        let bm := meta_at b bud in
        if m_used bm || negb (m_order bm =? order)%nat then mret (idx, order)
        else
          unlink bud order;;
          merge k (S order) (N.min idx bud)
  end.

(** [BuddyAllocator::free]. *)
Definition buddy_free (addr : N) : M PMem (result () ()) :=
  b ← gets buddy;
  let end_ := b_base b + b_real_count b * PAGE_SIZE in
  if (addr <? b_base b) || (end_ <=? addr) || negb (is_multiple_of addr PAGE_SIZE) then
    mret (Err tt)
  else
    let idx := block_index b addr in
    let order := m_order (meta_at b idx) in
    if (MAX_ORDER <? order)%nat || negb (m_used (meta_at b idx)) then mret (Err tt)
    else if negb (is_multiple_of idx (bsize order)) then mret (Err tt)
    else
      r ← merge (MAX_ORDER - order) order idx;
      push r.1 r.2;;
      mret (Ok tt).

(** ** The public interface of mem.rs *)

(** [zero_page]. *)
Definition zero_page (addr : N) : M PMem () :=
  for_each (λ i, modify (λ s, set_ram (write_word (addr + i * 8) 0 (ram s)) s)) (nrange 0 512).

Definition alloc_pages (order : nat) : M PMem (option N) := buddy_alloc order.

Definition alloc_pages_zeroed (order : nat) : M PMem (option N) :=
  r ← alloc_pages order;
  match r with
  | None => mret None
  | Some block =>
      for_each (λ i, zero_page (block + i * PAGE_SIZE)) (nrange 0 (N.to_nat (bsize order)));;
      mret (Some block)
  end.

Definition free_pages (addr : N) : M PMem (result () ()) := buddy_free addr.

Definition page_count (s : PMem) : N := b_real_count (buddy s).

Definition page_in_range (paddr : N) (s : PMem) : bool :=
  let b := buddy s in
  (b_base b <=? paddr) && (paddr <? b_base b + b_real_count b * PAGE_SIZE).

Definition mem_base (s : PMem) : N := b_base (buddy s).

(** One list of [free_page_count]: the number of nodes of a chain. *)
Fixpoint chain_length (fuel : nat) (s : PMem) (cur : N) : option N :=
  match fuel with
  | O => None
  | S fuel =>
      if cur =? FREE_NONE then Some 0
      else n ← chain_length fuel s (read_word (block_addr (buddy s) cur) (ram s)); Some (1 + n)
  end.

(** One turn of the loop of [free_page_count] over the orders. *)
Definition count_order (s : PMem) (o : nat) (acc : option N) : option N :=
  n ← acc;
  head ← b_free_lists (buddy s) !! o;
  c ← chain_length (S (N.to_nat (b_page_count (buddy s)))) s head;
  Some (n + c * bsize o).

(** [free_page_count]: [None] when a chain does not end. *)
Definition free_page_count (s : PMem) : option N :=
  foldr (count_order s) (Some 0) (seq 0 (S MAX_ORDER)).
