(* ===== verification/Dyadic.v ===== *)
(** * Dyadic blocks

    Arithmetic of power-of-two sized, naturally aligned blocks: the buddy
    [idx ^ (1 << order)], the union of two buddies, and the fact that two
    aligned blocks are nested or disjoint.  Used by the buddy allocator. *)

From Stdlib Require Import ZifyN ZifyNat.
From stdpp Require Import base numbers.
From S2P Require Import Prelude Mem.

(** [aligned i o]: index [i] is a multiple of [1 << o]. *)
Definition aligned (i : N) (o : nat) : Prop := i mod bsize o = 0.

(** [in_block h o i]: page [i] lies in the block of order [o] headed by [h]. *)
Definition in_block (h : N) (o : nat) (i : N) : Prop := h ≤ i < h + bsize o.

#[global] Instance in_block_dec h o i : Decision (in_block h o i).
Proof. unfold in_block. apply _. Defined.

Lemma bsize_pos o : 0 < bsize o.
Proof. unfold bsize. pose proof (N.pow_nonzero 2 (N.of_nat o)). lia. Qed.

Lemma bsize_S o : bsize (S o) = 2 * bsize o.
Proof. unfold bsize. by rewrite Nat2N.inj_succ, N.pow_succ_r'. Qed.

Lemma bsize_add o d : bsize (o + d) = bsize o * bsize d.
Proof. unfold bsize. by rewrite Nat2N.inj_add, N.pow_add_r. Qed.

Lemma bsize_mono o p : (o ≤ p)%nat → bsize o ≤ bsize p.
Proof.
  intros H. replace p with (o + (p - o))%nat by lia. rewrite bsize_add.
  pose proof (bsize_pos (p - o)). nia.
Qed.

Lemma aligned_mul i o : aligned i o ↔ ∃ k, i = k * bsize o.
Proof.
  unfold aligned. pose proof (bsize_pos o) as H. split.
  - intros E. exists (i / bsize o). rewrite (N.div_mod i (bsize o)) at 1 by lia. lia.
  - intros [k ->]. apply N.Div0.mod_mul.
Qed.

Lemma aligned_le i o p : (p ≤ o)%nat → aligned i o → aligned i p.
Proof.
  rewrite !aligned_mul. intros H [k ->]. replace o with (p + (o - p))%nat by lia.
  rewrite bsize_add. exists (k * bsize (o - p)). lia.
Qed.

Lemma aligned_0 i : aligned i 0.
Proof. apply aligned_mul. exists i. unfold bsize. simpl. lia. Qed.

Lemma aligned_add i j o : aligned i o → aligned j o → aligned (i + j) o.
Proof.
  rewrite !aligned_mul. intros [k ->] [l ->]. exists (k + l). lia.
Qed.

Lemma aligned_bsize o p : (o ≤ p)%nat → aligned (bsize p) o.
Proof.
  intros H. apply (aligned_le _ p); [done|]. apply aligned_mul. exists 1. lia.
Qed.

#[global] Instance aligned_dec i o : Decision (aligned i o).
Proof. unfold aligned. apply _. Defined.

Create HintDb dyadic.
#[export] Hint Resolve bsize_pos aligned_0 aligned_add aligned_bsize : dyadic.

Lemma mul_lt_cancel j k q : 0 < q → j * q < k * q → j < k.
Proof. intros H1 H2. by apply N.mul_lt_mono_pos_r in H2. Qed.

(** The head of a block inside another block of smaller or equal order is that
    block's head. *)
Lemma aligned_head b o h p :
  aligned b o → aligned h p → (p ≤ o)%nat → in_block h p b → h = b.
Proof.
  intros Hb Hh Hle Hin. apply (aligned_le _ o p Hle) in Hb.
  apply aligned_mul in Hb as [k ->], Hh as [j ->].
  pose proof (bsize_pos p) as Hp. unfold in_block in Hin.
  assert (k < j + 1) by (apply (mul_lt_cancel _ _ (bsize p)); lia).
  assert (j < k + 1) by (apply (mul_lt_cancel _ _ (bsize p)); lia).
  f_equal. lia.
Qed.

(** Two aligned blocks are nested or disjoint. *)
Lemma block_nested h p b o i :
  aligned b o → aligned h p → (o ≤ p)%nat → in_block h p i → in_block b o i →
  h ≤ b ∧ b + bsize o ≤ h + bsize p.
Proof.
  intros Hb Hh Hle Hi1 Hi2. apply (aligned_le _ p o Hle) in Hh.
  apply aligned_mul in Hb as [k ->], Hh as [j ->].
  assert (∃ q, bsize p = q * bsize o) as [q Hq].
  { exists (bsize (p - o)). rewrite (N.mul_comm (bsize (p - o))), <-bsize_add. f_equal. lia. }
  pose proof (bsize_pos o) as Hp. unfold in_block in *. rewrite Hq in *.
  assert (j < k + 1) by (apply (mul_lt_cancel _ _ (bsize o)); lia).
  assert (k < j + q) by (apply (mul_lt_cancel _ _ (bsize o)); lia).
  split; nia.
Qed.

(** ** The buddy of a block *)

Definition buddy_of (i : N) (o : nat) : N := N.lxor i (bsize o).

Lemma lxor_1 k : N.lxor k 1 = if N.even k then k + 1 else k - 1.
Proof. by destruct k as [|[p|p|]]. Qed.

Lemma bsize_shiftl o : bsize o = N.shiftl 1 (N.of_nat o).
Proof. by rewrite N.shiftl_1_l. Qed.

Lemma buddy_of_mul k o : buddy_of (k * bsize o) o = N.lxor k 1 * bsize o.
Proof.
  unfold buddy_of. rewrite bsize_shiftl at 2.
  unfold bsize. rewrite <-!N.shiftl_mul_pow2, <-N.shiftl_lxor. done.
Qed.

(** The lower of the two buddies heads the merged block, which is the union of
    the two. *)
Lemma buddy_of_cases i o :
  aligned i o →
  (buddy_of i o = i + bsize o ∧ aligned i (S o)) ∨
  (i = buddy_of i o + bsize o ∧ aligned (buddy_of i o) (S o)).
Proof.
  intros Ha. assert (Hm := Ha). apply aligned_mul in Hm as [k ->].
  rewrite buddy_of_mul, lxor_1. rewrite !aligned_mul, !bsize_S.
  destruct (N.even k) eqn:E.
  - left. apply N.even_spec in E as [m ->]. split; [lia|]. exists m. lia.
  - right. rewrite <-N.negb_odd in E. apply negb_false_iff, N.odd_spec in E as [m ->].
    split; [nia|]. exists m. lia.
Qed.

Lemma buddy_of_aligned i o : aligned i o → aligned (buddy_of i o) o.
Proof.
  intros Ha. pose proof Ha as [k ->]%aligned_mul. rewrite buddy_of_mul.
  apply aligned_mul. eauto.
Qed.

Lemma buddy_of_ne i o : aligned i o → buddy_of i o ≠ i.
Proof.
  intros Ha. pose proof (bsize_pos o). destruct (buddy_of_cases i o Ha) as [[? _]|[? _]]; lia.
Qed.

Lemma min_buddy_aligned i o : aligned i o → aligned (N.min i (buddy_of i o)) (S o).
Proof.
  intros Ha. pose proof (bsize_pos o). destruct (buddy_of_cases i o Ha) as [[-> ?]|[E ?]].
  - by rewrite N.min_l by lia.
  - by rewrite N.min_r by lia.
Qed.

Lemma in_block_merge i o j :
  aligned i o →
  in_block (N.min i (buddy_of i o)) (S o) j ↔ in_block i o j ∨ in_block (buddy_of i o) o j.
Proof.
  intros Ha. unfold in_block. rewrite bsize_S.
  destruct (buddy_of_cases i o Ha) as [[-> _]|[E _]]; lia.
Qed.

Lemma buddy_disjoint i o j :
  aligned i o → in_block i o j → in_block (buddy_of i o) o j → False.
Proof.
  intros Ha. unfold in_block. destruct (buddy_of_cases i o Ha) as [[-> _]|[E _]]; lia.
Qed.

(** A larger aligned block that contains a block's buddy contains the block. *)
Lemma block_contains_buddy h p i o :
  aligned i o → aligned h p → (o < p)%nat → in_block h p (buddy_of i o) → in_block h p i.
Proof.
  intros Ha Hh Hlt Hin.
  pose proof (min_buddy_aligned i o Ha) as Hm.
  assert (in_block (N.min i (buddy_of i o)) (S o) (buddy_of i o)) as Hb.
  { apply in_block_merge; [done|]. right. unfold in_block. pose proof (bsize_pos o). lia. }
  assert (in_block (N.min i (buddy_of i o)) (S o) i) as Hi.
  { apply in_block_merge; [done|]. left. unfold in_block. pose proof (bsize_pos o). lia. }
  destruct (block_nested h p _ (S o) _ Hm Hh Hlt Hin Hb).
  unfold in_block in *. lia.
Qed.
