(* ===== verification/MemInv.v ===== *)
(** * Invariant of the buddy allocator

    The blocks of the managed area are described by a map [bl] from a block's
    first page to its order and kind.  [wf hole s bl fl] says that the blocks tile
    the managed pages outside [hole], that the metadata of every block head is
    accurate, and that the free list of every order, as it is threaded through
    RAM, holds exactly the free blocks of that order.  Between operations the
    hole is empty; inside [alloc] and [free] it is the block in transit. *)

From Stdlib Require Import ZifyN ZifyNat.
From stdpp Require Import base gmap numbers functions list.
From S2P Require Import Prelude Mem Dyadic.

Inductive kind := Free | Used | Reserved.

#[global] Instance kind_eq_dec : EqDecision kind.
Proof. solve_decision. Defined.

Abbreviation blocks := (gmap N (nat * kind)).

Definition meta_of (o : nat) (k : kind) : PageMeta :=
  match k with
  | Free => mkMeta o false
  | Used => mkMeta o true
  | Reserved => mkMeta 255 true
  end.

(** ** Tilings *)

Record tiling (real : N) (hole : N → Prop) (bl : blocks) : Prop := mkTiling {
  t_block i o k : bl !! i = Some (o, k) →
    (o ≤ MAX_ORDER)%nat ∧ aligned i o ∧ i + bsize o ≤ real;
  t_disj i o k j p q x : bl !! i = Some (o, k) → bl !! j = Some (p, q) →
    in_block i o x → in_block j p x → i = j;
  t_cover x : x < real → hole x ∨ ∃ i o k, bl !! i = Some (o, k) ∧ in_block i o x;
  t_hole i o k x : bl !! i = Some (o, k) → in_block i o x → ¬ hole x
}.

Lemma in_block_head i o : in_block i o i.
Proof. unfold in_block. pose proof (bsize_pos o). lia. Qed.
#[export] Hint Resolve in_block_head : dyadic.

Section tilings.
Context (real : N).
Implicit Types (hole : N → Prop) (bl : blocks) (k : kind).

Lemma tiling_ext hole hole' bl :
  (∀ x, hole x ↔ hole' x) → tiling real hole bl → tiling real hole' bl.
Proof.
  intros Hh [Hb Hd Hc Ho]. split; [done|done| |].
  - intros x Hx. rewrite <-Hh. auto.
  - intros i o k x Hi Hx. rewrite <-Hh. eauto.
Qed.

Lemma tiling_hole_fresh hole bl i o :
  tiling real hole bl → (∀ x, in_block i o x → hole x) → bl !! i = None.
Proof.
  intros T Hh. destruct (bl !! i) as [[p k]|] eqn:E; [|done].
  destruct (t_hole _ _ _ T _ _ _ i E); auto with dyadic.
Qed.

Lemma tiling_insert hole bl i o k :
  tiling real hole bl → (o ≤ MAX_ORDER)%nat → aligned i o → i + bsize o ≤ real →
  (∀ x, in_block i o x → hole x) →
  tiling real (λ x, hole x ∧ ¬ in_block i o x) (<[i := (o, k)]> bl).
Proof.
  intros T Ho Ha Hb Hh. pose proof (tiling_hole_fresh _ _ _ _ T Hh) as Hi.
  split.
  - intros j p q [[-> [= -> ->]]|[? Hj]]%lookup_insert_Some; [done|].
    by apply (t_block _ _ _ T j p q).
  - intros j p q j' p' q' x [[<- [= <- <-]]|[? Hj]]%lookup_insert_Some
      [[<- [= <- <-]]|[? Hj']]%lookup_insert_Some Hx Hx'.
    + done.
    + destruct (t_hole _ _ _ T _ _ _ x Hj'); auto.
    + destruct (t_hole _ _ _ T _ _ _ x Hj); auto.
    + by apply (t_disj _ _ _ T j p q j' p' q' x).
  - intros x Hx. destruct (decide (in_block i o x)) as [Hin|Hin].
    { right. exists i, o, k. by rewrite lookup_insert_eq. }
    destruct (t_cover _ _ _ T x Hx) as [?|(j & p & q & Hj & Hjx)]; [by left|].
    right. exists j, p, q. rewrite lookup_insert_ne by congruence. done.
  - intros j p q x [[-> [= -> ->]]|[? Hj]]%lookup_insert_Some Hx [Hhx Hnx]; [done|].
    by apply (t_hole _ _ _ T j p q x).
Qed.

Lemma tiling_delete hole bl i o k :
  tiling real hole bl → bl !! i = Some (o, k) →
  tiling real (λ x, hole x ∨ in_block i o x) (delete i bl).
Proof.
  intros T Hi. split.
  - intros j p q [? Hj]%lookup_delete_Some. by apply (t_block _ _ _ T j p q).
  - intros j p q j' p' q' x [? Hj]%lookup_delete_Some [? Hj']%lookup_delete_Some.
    by apply (t_disj _ _ _ T j p q j' p' q' x).
  - intros x Hx. destruct (t_cover _ _ _ T x Hx) as [?|(j & p & q & Hj & Hjx)]; [by left; left|].
    destruct (decide (j = i)) as [->|]; [left; right; by simplify_eq|].
    right. exists j, p, q. by rewrite lookup_delete_ne.
  - intros j p q x [? Hj]%lookup_delete_Some Hx [Hh|Hix].
    + by apply (t_hole _ _ _ T j p q x).
    + by pose proof (t_disj _ _ _ T _ _ _ _ _ _ _ Hi Hj Hix Hx).
Qed.

(** The buddy test of [free]: a block head whose metadata says "free block of
    the order I am freeing" is such a block.  Stale metadata of interior pages
    cannot be met, because the buddy position is always a block head. *)
Lemma tiling_buddy bl i o h p k :
  tiling real (in_block i o) bl → aligned i o →
  bl !! h = Some (p, k) → in_block h p (buddy_of i o) →
  h = buddy_of i o ∧ (p ≤ o)%nat.
Proof.
  intros T Ha Hh Hin. destruct (t_block _ _ _ T _ _ _ Hh) as (Hp & Hah & _).
  destruct (decide (p ≤ o)%nat) as [Hle|Hgt].
  - split; [|done]. eapply aligned_head; eauto using buddy_of_aligned.
  - destruct (t_hole _ _ _ T _ _ _ i Hh); [|auto with dyadic].
    apply (block_contains_buddy _ _ _ o); auto. lia.
Qed.
End tilings.

(** ** Free lists threaded through RAM *)

Lemma read_write_eq a v r : read_word a (write_word a v r) = v.
Proof. unfold read_word, write_word. by rewrite lookup_insert_eq. Qed.

Lemma read_write_ne a b v r : a ≠ b → read_word b (write_word a v r) = read_word b r.
Proof. intros H. unfold read_word, write_word. by rewrite lookup_insert_ne. Qed.

Fixpoint chain (base : N) (r : gmap N N) (cur : N) (l : list N) : Prop :=
  match l with
  | [] => cur = FREE_NONE
  | i :: l => cur = i ∧ chain base r (read_word (base + i * PAGE_SIZE) r) l
  end.

Lemma chain_ext base r r' cur l :
  (∀ i, i ∈ l → r' !! (base + i * PAGE_SIZE) = r !! (base + i * PAGE_SIZE)) →
  chain base r cur l → chain base r' cur l.
Proof.
  revert cur. induction l as [|i l IH]; intros cur Hr; simpl; [done|].
  intros [-> Hc]. split; [done|]. unfold read_word. rewrite Hr by set_solver.
  apply IH; [|done]. intros j Hj. apply Hr. set_solver.
Qed.

Lemma page_addr_inj base i j : base + i * PAGE_SIZE = base + j * PAGE_SIZE → i = j.
Proof. unfold PAGE_SIZE. lia. Qed.

Lemma chain_write base r cur l i v :
  i ∉ l → chain base r cur l → chain base (write_word (base + i * PAGE_SIZE) v r) cur l.
Proof.
  intros Hi. apply chain_ext. intros j Hj. apply lookup_insert_ne.
  intros ->%page_addr_inj. done.
Qed.

(** Splitting a chain at one of its nodes. *)
Lemma chain_app base r cur l1 i l2 :
  chain base r cur (l1 ++ i :: l2) →
  chain base r (read_word (base + i * PAGE_SIZE) r) l2.
Proof.
  revert cur. induction l1 as [|j l1 IH]; intros cur; simpl; [by intros [_ ?]|].
  intros [_ H]. eauto.
Qed.

(** ** The allocator invariant *)

Record wf (hole : N → Prop) (s : PMem) (bl : blocks) (fl : nat → list N) : Prop := mkWf {
  w_tiling : tiling (b_real_count (buddy s)) hole bl;
  w_count : b_real_count (buddy s) ≤ b_page_count (buddy s) ∧ b_page_count (buddy s) < FREE_NONE;
  w_lists : length (b_free_lists (buddy s)) = S MAX_ORDER;
  w_chain o : (o ≤ MAX_ORDER)%nat → ∃ head, b_free_lists (buddy s) !! o = Some head ∧
    chain (b_base (buddy s)) (ram s) head (fl o);
  w_fl o i : (o ≤ MAX_ORDER)%nat → i ∈ fl o ↔ bl !! i = Some (o, Free);
  w_nodup o : (o ≤ MAX_ORDER)%nat → NoDup (fl o);
  w_meta i o k : bl !! i = Some (o, k) → meta_at (buddy s) i = meta_of o k;
  w_pad i : b_real_count (buddy s) ≤ i < b_page_count (buddy s) →
    m_used (meta_at (buddy s) i) = true
}.

(** What an operation leaves alone: the geometry, and every RAM word except the
    first words of the pages in [P]. *)
Record frame (P : N → Prop) (s s' : PMem) : Prop := mkFrame {
  f_base : b_base (buddy s') = b_base (buddy s);
  f_real : b_real_count (buddy s') = b_real_count (buddy s);
  f_page : b_page_count (buddy s') = b_page_count (buddy s);
  f_ram a : (∀ i, P i → a ≠ b_base (buddy s) + i * PAGE_SIZE) → ram s' !! a = ram s !! a
}.

Lemma frame_refl P s : frame P s s.
Proof. by split. Qed.

Lemma frame_trans P s1 s2 s3 : frame P s1 s2 → frame P s2 s3 → frame P s1 s3.
Proof.
  intros [b1 r1 p1 m1] [b2 r2 p2 m2]. split; [congruence..|].
  intros a Ha. rewrite m2; [by apply m1|]. by rewrite b1.
Qed.

Lemma frame_mono (P Q : N → Prop) s s' : (∀ x, P x → Q x) → frame P s s' → frame Q s s'.
Proof. intros HPQ [b r p m]. split; [done..|]. intros a Ha. apply m. auto. Qed.

#[export] Hint Resolve frame_refl frame_trans : dyadic.

Lemma wf_ext hole hole' s bl fl :
  (∀ x, hole x ↔ hole' x) → wf hole s bl fl → wf hole' s bl fl.
Proof. intros Hh []. split; try done. by eapply tiling_ext. Qed.

Lemma wf_list_lookup hole s bl fl o :
  wf hole s bl fl → (o ≤ MAX_ORDER)%nat → ∃ head, b_free_lists (buddy s) !! o = Some head ∧
    chain (b_base (buddy s)) (ram s) head (fl o).
Proof. intros W. apply (w_chain _ _ _ _ W). Qed.

Lemma wf_fl_page hole s bl fl o i :
  wf hole s bl fl → (o ≤ MAX_ORDER)%nat → i ∈ fl o → i < b_page_count (buddy s).
Proof.
  intros W Ho Hi%(w_fl _ _ _ _ W); [|done].
  destruct (t_block _ _ _ (w_tiling _ _ _ _ W) _ _ _ Hi) as (_ & _ & H).
  pose proof (bsize_pos o). pose proof (w_count _ _ _ _ W). lia.
Qed.

Lemma meta_at_set b i m j :
  meta_at (with_meta (<[i := m]> (b_meta b)) b) j = if decide (i = j) then m else meta_at b j.
Proof.
  unfold meta_at; simpl. case_decide as E; [subst; by rewrite lookup_insert_eq|].
  by rewrite lookup_insert_ne.
Qed.

(** ** The primitive operations *)

Lemma push_eq s idx o head :
  b_free_lists (buddy s) !! o = Some head →
  push idx o s = Ret (tt, set_meta idx (mkMeta o false) (set_free_list o idx
    (set_ram (write_word (block_addr (buddy s) idx) head (ram s)) s))).
Proof. intros H. unfold push. step_M. by rewrite (bind_expect_some _ _ _ _ H). Qed.

(** Storing the metadata of a block that comes out of the hole. *)
Lemma meta_insert_wf hole s bl idx o k :
  tiling (b_real_count (buddy s)) hole bl →
  (∀ i p q, bl !! i = Some (p, q) → meta_at (buddy s) i = meta_of p q) →
  bl !! idx = None →
  ∀ i p q, <[idx := (o, k)]> bl !! i = Some (p, q) →
    meta_at (buddy (set_meta idx (meta_of o k) s)) i = meta_of p q.
Proof.
  intros T Hm Hf i p q Hi. unfold set_meta; simpl. rewrite meta_at_set.
  apply lookup_insert_Some in Hi as [[<- [= <- <-]]|[? Hi]].
  - by rewrite decide_True.
  - rewrite decide_False by done. auto.
Qed.

Lemma pad_set_meta s idx m :
  idx < b_real_count (buddy s) →
  (∀ i, b_real_count (buddy s) ≤ i < b_page_count (buddy s) → m_used (meta_at (buddy s) i) = true) →
  ∀ i, b_real_count (buddy s) ≤ i < b_page_count (buddy s) →
    m_used (meta_at (buddy (set_meta idx m s)) i) = true.
Proof.
  intros Hlt Hp i Hi. unfold set_meta; simpl. rewrite meta_at_set, decide_False by lia. auto.
Qed.

Section ops.
Context (hole : N → Prop) (s : PMem) (bl : blocks) (fl : nat → list N).
Hypothesis W : wf hole s bl fl.

Lemma hole_not_listed idx o :
  (∀ x, in_block idx o x → hole x) → ∀ p, (p ≤ MAX_ORDER)%nat → idx ∉ fl p.
Proof.
  intros Hh p Hp Hin%(w_fl _ _ _ _ W); [|done].
  pose proof (tiling_hole_fresh _ _ _ _ _ (w_tiling _ _ _ _ W) Hh). congruence.
Qed.

Lemma push_wf idx o :
  (o ≤ MAX_ORDER)%nat → aligned idx o → idx + bsize o ≤ b_real_count (buddy s) →
  (∀ x, in_block idx o x → hole x) →
  ∃ s', push idx o s = Ret (tt, s') ∧
    wf (λ x, hole x ∧ ¬ in_block idx o x) s' (<[idx := (o, Free)]> bl) (<[o := idx :: fl o]> fl) ∧
    frame (in_block idx o) s s'.
Proof.
  intros Ho Ha Hb Hh. destruct (w_chain _ _ _ _ W o Ho) as (head & Hl & Hc).
  pose proof (w_tiling _ _ _ _ W) as T.
  pose proof (tiling_hole_fresh _ _ _ _ _ T Hh) as Hf.
  pose proof (hole_not_listed _ _ Hh) as Hnl.
  pose proof (bsize_pos o) as Hpos.
  eexists. split; [by apply push_eq|]. split; [|split; try done].
  2:{ intros a Hne. simpl. apply lookup_insert_ne. intros E. symmetry in E.
      revert E. apply Hne. auto with dyadic. }
  split; simpl.
  - by apply tiling_insert.
  - apply W.
  - rewrite length_insert. apply W.
  - intros p Hp. destruct (decide (p = o)) as [->|Hpo].
    + exists idx. rewrite list_lookup_insert_eq by (rewrite (w_lists _ _ _ _ W); lia).
      split; [done|]. rewrite fn_lookup_insert. simpl. split; [done|].
      unfold block_addr. rewrite read_write_eq.
      by apply chain_write; [apply Hnl|].
    + destruct (w_chain _ _ _ _ W p Hp) as (h & Hlp & Hcp). exists h.
      rewrite list_lookup_insert_ne by done. split; [done|].
      rewrite fn_lookup_insert_ne by done. by apply chain_write; [apply Hnl|].
  - intros p i Hp. destruct (decide (p = o)) as [->|Hpo].
    + rewrite fn_lookup_insert, elem_of_cons, (w_fl _ _ _ _ W o i Hp), lookup_insert_Some.
      naive_solver.
    + rewrite fn_lookup_insert_ne by done. rewrite (w_fl _ _ _ _ W p i Hp), lookup_insert_Some.
      naive_solver.
  - intros p Hp. destruct (decide (p = o)) as [->|Hpo].
    + rewrite fn_lookup_insert. apply NoDup_cons_2; [by apply Hnl|]. by apply W.
    + rewrite fn_lookup_insert_ne by done. by apply W.
  - apply (meta_insert_wf hole s bl idx o Free T (w_meta _ _ _ _ W) Hf).
  - apply (pad_set_meta s idx); [lia|]. apply W.
Qed.

(** Marking a block that comes out of the hole as allocated or reserved. *)
Lemma mark_wf idx o k :
  k ≠ Free →
  (o ≤ MAX_ORDER)%nat → aligned idx o → idx + bsize o ≤ b_real_count (buddy s) →
  (∀ x, in_block idx o x → hole x) →
  wf (λ x, hole x ∧ ¬ in_block idx o x) (set_meta idx (meta_of o k) s) (<[idx := (o, k)]> bl) fl.
Proof.
  intros Hk Ho Ha Hb Hh. pose proof (w_tiling _ _ _ _ W) as T.
  pose proof (tiling_hole_fresh _ _ _ _ _ T Hh) as Hf. pose proof (bsize_pos o).
  split; simpl; try apply W.
  - by apply tiling_insert.
  - intros p i Hp. rewrite (w_fl _ _ _ _ W p i Hp), lookup_insert_Some. naive_solver.
  - apply (meta_insert_wf hole s bl idx o k T (w_meta _ _ _ _ W) Hf).
  - apply (pad_set_meta s idx); [lia|]. apply W.
Qed.

(** Taking a free block off its list puts its pages into the hole. *)
Lemma take_wf s' o i l :
  (o ≤ MAX_ORDER)%nat → i ∈ fl o →
  b_base (buddy s') = b_base (buddy s) →
  b_real_count (buddy s') = b_real_count (buddy s) →
  b_page_count (buddy s') = b_page_count (buddy s) →
  b_meta (buddy s') = b_meta (buddy s) →
  length (b_free_lists (buddy s')) = S MAX_ORDER →
  (∀ j, j ∈ l ↔ j ∈ fl o ∧ j ≠ i) → NoDup l →
  (∀ p, (p ≤ MAX_ORDER)%nat → ∃ head, b_free_lists (buddy s') !! p = Some head ∧
    chain (b_base (buddy s)) (ram s') head ((<[o := l]> fl) p)) →
  wf (λ x, hole x ∨ in_block i o x) s' (delete i bl) (<[o := l]> fl).
Proof.
  intros Ho Hi Eb Er Ep Em Hlen Hl Hnd Hc.
  pose proof (proj1 (w_fl _ _ _ _ W o i Ho) Hi) as Hbi.
  assert (∀ j, meta_at (buddy s') j = meta_at (buddy s) j) as Hmeta.
  { intros j. unfold meta_at. by rewrite Em. }
  split; rewrite ?Er, ?Ep, ?Eb; try done.
  - by apply (tiling_delete _ _ _ _ _ _ (w_tiling _ _ _ _ W) Hbi).
  - apply W.
  - intros p j Hp. destruct (decide (p = o)) as [->|Hpo].
    + rewrite fn_lookup_insert, Hl, (w_fl _ _ _ _ W o j Hp), lookup_delete_Some. naive_solver.
    + rewrite fn_lookup_insert_ne by done.
      rewrite (w_fl _ _ _ _ W p j Hp), lookup_delete_Some. naive_solver.
  - intros p Hp. destruct (decide (p = o)) as [->|Hpo].
    + by rewrite fn_lookup_insert.
    + rewrite fn_lookup_insert_ne by done. by apply W.
  - intros j p k [_ Hj]%lookup_delete_Some. rewrite Hmeta. by apply W.
  - intros j Hj. rewrite Hmeta. by apply W.
Qed.
End ops.

(** ** Taking blocks off the free lists *)

Lemma pop_nil hole s bl fl o :
  wf hole s bl fl → (o ≤ MAX_ORDER)%nat → fl o = [] → pop o s = Ret (None, s).
Proof.
  intros W Ho Hl. destruct (w_chain _ _ _ _ W o Ho) as (head & Hh & Hc).
  rewrite Hl in Hc; simpl in Hc; subst. unfold pop. step_M.
  by rewrite (bind_expect_some _ _ _ _ Hh).
Qed.

Lemma pop_wf hole s bl fl o i l :
  wf hole s bl fl → (o ≤ MAX_ORDER)%nat → fl o = i :: l →
  ∃ s', pop o s = Ret (Some i, s') ∧
    wf (λ x, hole x ∨ in_block i o x) s' (delete i bl) (<[o := l]> fl) ∧
    frame (λ _, False) s s'.
Proof.
  intros W Ho Hl. destruct (w_chain _ _ _ _ W o Ho) as (head & Hh & Hc).
  rewrite Hl in Hc; simpl in Hc. destruct Hc as [-> Hc].
  assert (i ∈ fl o) as Hi by (rewrite Hl; set_solver).
  pose proof (wf_fl_page _ _ _ _ _ _ W Ho Hi) as Hlt.
  pose proof (w_nodup _ _ _ _ W o Ho) as Hnd. rewrite Hl in Hnd.
  apply NoDup_cons in Hnd as [Hil Hnd].
  assert ((i =? FREE_NONE) = false) as HN.
  { apply N.eqb_neq. pose proof (w_count _ _ _ _ W). lia. }
  eexists. split.
  { unfold pop. step_M. rewrite (bind_expect_some _ _ _ _ Hh), HN.
    rewrite bind_assert by (by apply N.ltb_lt). reflexivity. }
  split; [|by split].
  apply (take_wf hole s bl fl W); simpl; try done.
  - rewrite length_insert. apply W.
  - rewrite Hl. intros j. split; [|set_solver]. intros Hj. split; [set_solver|]. by intros ->.
  - intros p Hp. destruct (decide (p = o)) as [->|Hpo].
    + rewrite fn_lookup_insert. eexists.
      rewrite list_lookup_insert_eq by (rewrite (w_lists _ _ _ _ W); lia). done.
    + rewrite fn_lookup_insert_ne, list_lookup_insert_ne by done. by apply W.
Qed.

(** The node before the target, given the node before the list. *)
Fixpoint last_node (prev : N) (m : list N) : N :=
  match m with
  | [] => prev
  | a :: m => last_node a m
  end.

Definition unlinked (s : PMem) (o : nat) (p t : N) : PMem :=
  let next := read_word (block_addr (buddy s) t) (ram s) in
  if p =? FREE_NONE then set_free_list o next s
  else set_ram (write_word (block_addr (buddy s) p) next (ram s)) s.

Lemma unlink_from_eq fuel t o prev cur m l2 s :
  chain (b_base (buddy s)) (ram s) cur (m ++ t :: l2) → t ∉ m →
  (∀ i, i ∈ m ++ [t] → i < b_page_count (buddy s)) →
  b_page_count (buddy s) < FREE_NONE → (length m < fuel)%nat →
  unlink_from fuel t o prev cur s = Ret (tt, unlinked s o (last_node prev m) t).
Proof.
  revert fuel prev cur. induction m as [|a m IH]; intros [|fuel] prev cur Hc Ht Hlt Hpc Hf;
    simpl in *; try lia.
  - destruct Hc as [-> _]. assert (t < b_page_count (buddy s)) by set_solver.
    rewrite (proj2 (N.eqb_neq t FREE_NONE)) by lia. step_M.
    rewrite bind_assert by (by apply N.ltb_lt). rewrite N.eqb_refl. unfold unlinked.
    by destruct (prev =? FREE_NONE).
  - destruct Hc as [-> Hc]. assert (a < b_page_count (buddy s)) by set_solver.
    rewrite (proj2 (N.eqb_neq a FREE_NONE)) by lia. step_M.
    rewrite bind_assert by (by apply N.ltb_lt).
    rewrite (proj2 (N.eqb_neq a t)) by set_solver.
    apply IH; try done; try lia; set_solver.
Qed.

Lemma chain_unlink base r cur l1 p t l2 :
  chain base r cur (l1 ++ p :: t :: l2) → NoDup (l1 ++ p :: t :: l2) →
  chain base (write_word (base + p * PAGE_SIZE) (read_word (base + t * PAGE_SIZE) r) r)
    cur (l1 ++ p :: l2).
Proof.
  revert cur. induction l1 as [|a l1 IH]; intros cur; simpl.
  - intros (-> & _ & Hc) Hnd. split; [done|]. rewrite read_write_eq. apply chain_write; [|done].
    apply NoDup_cons in Hnd. set_solver.
  - intros [-> Hc] [Ha Hnd]%NoDup_cons. split; [done|].
    rewrite read_write_ne; [by apply IH|].
    intros ->%page_addr_inj. set_solver.
Qed.

Lemma last_node_snoc prev l p : last_node prev (l ++ [p]) = p.
Proof. revert prev. induction l; intros; simpl; auto. Qed.

Lemma list_split_last {A} (l : list A) : l = [] ∨ ∃ l' x, l = l' ++ [x].
Proof. induction l using rev_ind; [by left|right; eauto]. Qed.

Lemma unlink_wf hole s bl fl o t :
  wf hole s bl fl → (o ≤ MAX_ORDER)%nat → bl !! t = Some (o, Free) →
  ∃ s' l, unlink t o s = Ret (tt, s') ∧
    wf (λ x, hole x ∨ in_block t o x) s' (delete t bl) (<[o := l]> fl) ∧
    frame (λ x, x ∈ fl o) s s'.
Proof.
  intros W Ho Ht%(w_fl _ _ _ _ W); [|done].
  destruct (w_chain _ _ _ _ W o Ho) as (head & Hh & Hc).
  pose proof (w_nodup _ _ _ _ W o Ho) as Hnd.
  pose proof (w_count _ _ _ _ W) as [_ Hpc].
  assert (∀ i, i ∈ fl o → i < b_page_count (buddy s)) as Hlt
    by (intros; by eapply wf_fl_page).
  apply list_elem_of_split in Ht as Hs. destruct Hs as (l1 & l2 & Hl).
  rewrite Hl in Hnd, Hc, Hlt. exists (unlinked s o (last_node FREE_NONE l1) t), (l1 ++ l2).
  assert (t ∉ l1) as Htl by (apply NoDup_app in Hnd as (_ & Hd & _); set_solver).
  split.
  { unfold unlink. step_M. rewrite (bind_expect_some _ _ _ _ Hh).
    eapply unlink_from_eq; [done|done|set_solver|done|].
    assert (length (l1 ++ t :: l2) ≤ N.to_nat (b_page_count (buddy s)))%nat; [|
      rewrite length_app in *; lia].
    rewrite <-(length_nrange 0 (N.to_nat (b_page_count (buddy s)))).
    apply submseteq_length, NoDup_submseteq; [done|].
    intros x Hx%Hlt. apply elem_of_nrange. lia. }
  assert (∀ j, j ∈ l1 ++ l2 ↔ j ∈ fl o ∧ j ≠ t) as Hmem.
  { rewrite Hl. intros j. apply NoDup_app in Hnd as (_ & Hd & Hn2).
    apply NoDup_cons in Hn2 as [Hn2 _]. set_solver. }
  assert (NoDup (l1 ++ l2)) as Hnd'.
  { apply NoDup_app in Hnd as (Hn1 & Hd & Hn2). apply NoDup_cons in Hn2 as [? Hn2].
    apply NoDup_app. set_solver. }
  unfold unlinked. destruct (list_split_last l1) as [->|(l1' & p & ->)]; simpl.
  - simpl in Hc. destruct Hc as [-> Hc]. split; [|by split].
    apply (take_wf hole s bl fl W); simpl; try done.
    + rewrite length_insert. apply W.
    + intros q Hq. destruct (decide (q = o)) as [->|Hqo].
      * rewrite fn_lookup_insert. eexists.
        rewrite list_lookup_insert_eq by (rewrite (w_lists _ _ _ _ W); lia). done.
      * rewrite fn_lookup_insert_ne, list_lookup_insert_ne by done. by apply W.
  - rewrite last_node_snoc. rewrite <-(assoc_L app) in *. simpl in *.
    assert (p < b_page_count (buddy s)) by (apply Hlt; set_solver).
    rewrite (proj2 (N.eqb_neq p FREE_NONE)) by lia.
    split; [|split; try done; simpl; intros a Ha; apply lookup_insert_ne; intros E; symmetry in E;
      revert E; apply Ha; rewrite Hl; set_solver].
    apply (take_wf hole s bl fl W); simpl; try done.
    + apply W.
    + intros q Hq. destruct (decide (q = o)) as [->|Hqo].
      * rewrite fn_lookup_insert. exists head. split; [done|]. by apply chain_unlink.
      * rewrite fn_lookup_insert_ne by done. destruct (w_chain _ _ _ _ W q Hq) as (h & Hhq & Hcq).
        exists h. split; [done|]. apply chain_write; [|done].
        intros Hp%(w_fl _ _ _ _ W); [|done].
        assert (p ∈ fl o) as Hp' by (rewrite Hl; set_solver).
        apply (w_fl _ _ _ _ W) in Hp'; [|done]. congruence.
Qed.
