(* ===== verification/MemSpec.v ===== *)
(** * Specification of the buddy allocator

    [alloc] and [free] of kernel/src/mem.rs against an abstract page allocator:
    a partial map of allocated blocks and a set of free pages.  Every run is
    shown to return (no panic, no endless loop) and to act on the abstract state
    as the contract of [alloc_pages] and [free_pages] says. *)

From Stdlib Require Import ZifyN ZifyNat.
From stdpp Require Import base gmap numbers functions list.
From S2P Require Import Prelude Mem Dyadic MemInv.

(** The blocks [bl] describe the allocator state [s]. *)
Definition Inv (s : PMem) (bl : blocks) : Prop :=
  b_base (buddy s) mod PAGE_SIZE = 0 ∧ ∃ fl, wf (λ _, False) s bl fl.

(** Page [x] is free. *)
Definition free_page (bl : blocks) (x : N) : Prop :=
  ∃ h o, bl !! h = Some (o, Free) ∧ in_block h o x.

(** Block [i] of order [o] is handed out. *)
Definition allocated (bl : blocks) (i : N) (o : nat) : Prop := bl !! i = Some (o, Used).

Lemma free_page_insert_free bl i o x :
  bl !! i = None →
  free_page (<[i := (o, Free)]> bl) x ↔ free_page bl x ∨ in_block i o x.
Proof.
  intros Hi. unfold free_page. setoid_rewrite lookup_insert_Some. split.
  - intros (h & p & [[-> [= ->]]|[? ?]] & ?); eauto.
  - intros [(h & p & ? & ?)|?]; [|by eauto 10].
    exists h, p. split; [right; split; congruence|done].
Qed.

Lemma free_page_insert_other bl i o k x :
  bl !! i = None → k ≠ Free → free_page (<[i := (o, k)]> bl) x ↔ free_page bl x.
Proof.
  intros Hi Hk. unfold free_page. setoid_rewrite lookup_insert_Some. split.
  - intros (h & p & [[-> [= -> ?]]|[? ?]] & ?); [done|eauto].
  - intros (h & p & ? & ?). exists h, p. split; [right; split; congruence|done].
Qed.

Lemma free_page_delete real hole bl i o x :
  tiling real hole bl → bl !! i = Some (o, Free) →
  free_page (delete i bl) x ↔ free_page bl x ∧ ¬ in_block i o x.
Proof.
  intros T Hi. unfold free_page. setoid_rewrite lookup_delete_Some. split.
  - intros (h & p & [Hne Hh] & Hx). split; [eauto|]. intros Hx'.
    by pose proof (t_disj _ _ _ T _ _ _ _ _ _ _ Hi Hh Hx' Hx).
  - intros [(h & p & Hh & Hx) Hn]. exists h, p. split; [|done]. split; [|done].
    intros ->. by simplify_eq.
Qed.

Lemma allocated_delete_free bl i o j p :
  bl !! i = Some (o, Free) → allocated (delete i bl) j p ↔ allocated bl j p.
Proof. intros Hi. unfold allocated. rewrite lookup_delete_Some. naive_solver. Qed.

Lemma allocated_insert_free bl i o j p :
  bl !! i = None → allocated (<[i := (o, Free)]> bl) j p ↔ allocated bl j p.
Proof. intros Hi. unfold allocated. rewrite lookup_insert_Some. naive_solver. Qed.

Lemma allocated_insert_used bl i o j p :
  bl !! i = None →
  allocated (<[i := (o, Used)]> bl) j p ↔ allocated bl j p ∨ (j = i ∧ p = o).
Proof. intros Hi. unfold allocated. rewrite lookup_insert_Some. naive_solver. Qed.

(** ** [alloc] *)

(** The search loop finds the first non-empty list from [o] on. *)
Lemma find_block_spec hole s bl fl k o :
  wf hole s bl fl → (o + k = S MAX_ORDER)%nat →
  (find_block k o s = Ret (None, s) ∧ ∀ p, (o ≤ p ≤ MAX_ORDER)%nat → fl p = []) ∨
  ∃ i p l s', (o ≤ p ≤ MAX_ORDER)%nat ∧ fl p = i :: l ∧
    find_block k o s = Ret (Some (i, p), s') ∧
    wf (λ x, hole x ∨ in_block i p x) s' (delete i bl) (<[p := l]> fl) ∧
    frame (λ _, False) s s'.
Proof.
  intros W. revert o. induction k as [|k IH]; intros o Hk.
  { left. split; [done|]. intros p ?. lia. }
  simpl. destruct (fl o) as [|i l] eqn:Hl.
  - rewrite (bind_ret _ _ _ _ _ (pop_nil _ _ _ _ o W ltac:(lia) Hl)).
    destruct (IH (S o)) as [[E Hn]|(i & p & l & s' & Hp & Hpl & E & H)]; [lia| |].
    + left. split; [done|]. intros p Hp. destruct (decide (p = o)) as [->|]; [done|].
      apply Hn. lia.
    + right. exists i, p, l, s'. split; [lia|]. done.
  - right. destruct (pop_wf _ _ _ _ o i l W ltac:(lia) Hl) as (s' & E & W' & F).
    exists i, o, l, s'. split; [lia|]. split; [done|].
    by rewrite (bind_ret _ _ _ _ _ E).
Qed.

(** The split loop returns all but the first [1 << order] pages of the block. *)
Lemma split_block_spec d order idx s bl fl :
  wf (in_block idx (order + d)) s bl fl → (order + d ≤ MAX_ORDER)%nat →
  aligned idx (order + d) → idx + bsize (order + d) ≤ b_real_count (buddy s) →
  ∃ s' bl' fl', split_block d order idx s = Ret (tt, s') ∧
    wf (in_block idx order) s' bl' fl' ∧
    frame (in_block idx (order + d)) s s' ∧
    (∀ x, free_page bl' x ↔
      free_page bl x ∨ (in_block idx (order + d) x ∧ ¬ in_block idx order x)) ∧
    (∀ j p, allocated bl' j p ↔ allocated bl j p).
Proof.
  revert s bl fl. induction d as [|d IH]; intros s bl fl W Ho Ha Hb.
  { rewrite Nat.add_0_r in *. exists s, bl, fl. split; [done|]. split; [done|].
    split; [auto with dyadic|]. naive_solver. }
  simpl. rewrite Nat.add_succ_r in *. set (c := (order + d)%nat) in *.
  assert (aligned idx c) as Hac by (apply (aligned_le _ (S c)); [lia|done]).
  assert (∀ x, in_block (idx + bsize c) c x → in_block idx (S c) x) as Hup.
  { intros x. unfold in_block. rewrite bsize_S. lia. }
  rewrite bsize_S in Hb.
  destruct (push_wf _ _ _ _ W (idx + bsize c) c) as (s1 & E1 & W1 & F1);
    [lia|auto with dyadic|lia|done|].
  assert (∀ x, in_block idx (S c) x ∧ ¬ in_block (idx + bsize c) c x ↔ in_block idx c x) as Hlow.
  { intros x. unfold in_block. rewrite bsize_S. lia. }
  apply (wf_ext _ (in_block idx c)) in W1; [|done].
  pose proof (tiling_hole_fresh _ _ _ _ _ (w_tiling _ _ _ _ W) Hup) as Hfresh.
  rewrite (bind_ret _ _ _ _ _ E1).
  destruct (IH _ _ _ W1) as (s2 & bl2 & fl2 & E2 & W2 & F2 & Hf2 & Ha2);
    [lia|done|rewrite (f_real _ _ _ F1); lia|].
  exists s2, bl2, fl2. split; [done|]. split; [done|]. split.
  { eapply frame_trans.
    - eapply frame_mono; [|exact F1]. done.
    - eapply frame_mono; [|exact F2]. intros x. unfold in_block. rewrite bsize_S. lia. }
  split.
  - intros x. rewrite Hf2, free_page_insert_free by done.
    assert (in_block idx order x → in_block idx c x).
    { unfold in_block. pose proof (bsize_mono order c ltac:(lia)). lia. }
    specialize (Hlow x). specialize (Hup x).
    destruct (decide (in_block idx c x)), (decide (in_block (idx + bsize c) c x)); tauto.
  - intros j p. rewrite Ha2. by apply allocated_insert_free.
Qed.

(** What [alloc] promises of the new state. *)
Record alloc_post (s s' : PMem) (bl bl' : blocks) (o : nat) (i : N) : Prop := mkAllocPost {
  ap_inv : Inv s' bl';
  ap_block : aligned i o ∧ i + bsize o ≤ b_real_count (buddy s);
  ap_was_free x : in_block i o x → free_page bl x;
  ap_free x : free_page bl' x ↔ free_page bl x ∧ ¬ in_block i o x;
  ap_alloc j p : allocated bl' j p ↔ allocated bl j p ∨ (j = i ∧ p = o);
  ap_frame : frame (free_page bl) s s'
}.

Lemma alloc_found_spec s bl fl o i c l :
  b_base (buddy s) mod PAGE_SIZE = 0 →
  wf (λ _, False) s bl fl → (o ≤ c ≤ MAX_ORDER)%nat → fl c = i :: l →
  ∀ s1, wf (λ x, False ∨ in_block i c x) s1 (delete i bl) (<[c := l]> fl) →
  frame (λ _, False) s s1 →
  ∃ s2 bl', split_block (c - o) o i s1 = Ret (tt, s2) ∧
    alloc_post s (set_meta i (mkMeta o true) s2) bl bl' o i.
Proof.
  intros Hbase W Hc Hl s1 W1 F1. pose proof (w_tiling _ _ _ _ W) as T.
  assert (bl !! i = Some (c, Free)) as Hi.
  { apply (w_fl _ _ _ _ W); [lia|]. rewrite Hl. set_solver. }
  destruct (t_block _ _ _ T _ _ _ Hi) as (_ & Hal & Hbnd).
  apply (wf_ext _ (in_block i (o + (c - o)))) in W1.
  2:{ intros x. replace (o + (c - o))%nat with c by lia. tauto. }
  destruct (split_block_spec (c - o) o i s1 _ _ W1) as (s2 & bl2 & fl2 & E2 & W2 & F2 & Hf2 & Ha2);
    replace (o + (c - o))%nat with c in * by lia; [lia|done|by rewrite (f_real _ _ _ F1)|].
  assert (aligned i o) as Hao by (apply (aligned_le _ c); [lia|done]).
  pose proof (bsize_mono o c ltac:(lia)) as Hmono.
  assert (i + bsize o ≤ b_real_count (buddy s2)) as Hb2.
  { rewrite (f_real _ _ _ F2), (f_real _ _ _ F1). lia. }
  pose proof (tiling_hole_fresh _ _ _ i o (w_tiling _ _ _ _ W2) (λ x H, H)) as Hfresh.
  pose proof (mark_wf _ _ _ _ W2 i o Used ltac:(done) ltac:(lia) Hao Hb2 (λ x H, H)) as W3.
  exists s2, (<[i := (o, Used)]> bl2). split; [done|].
  assert (∀ x, in_block i o x → in_block i c x) as Hsub by (unfold in_block; lia).
  assert (∀ x, in_block i c x → free_page bl x) as Hwas by (unfold free_page; eauto).
  split.
  - split; [simpl; by rewrite (f_base _ _ _ F2), (f_base _ _ _ F1)|].
    exists fl2. eapply wf_ext; [|exact W3]. tauto.
  - split; [done|lia].
  - auto.
  - intros x. rewrite free_page_insert_other by done. rewrite Hf2.
    rewrite (free_page_delete _ _ _ _ _ x T Hi).
    specialize (Hsub x). specialize (Hwas x).
    destruct (decide (in_block i c x)), (decide (in_block i o x)); tauto.
  - intros j p. rewrite allocated_insert_used by done. rewrite Ha2.
    by rewrite (allocated_delete_free _ _ _ _ _ Hi).
  - eapply frame_trans; [eapply frame_mono; [|exact F1]; done|].
    eapply frame_trans; [eapply frame_mono; [|exact F2]; exact Hwas|]. by split.
Qed.

Lemma buddy_alloc_cases s bl o :
  Inv s bl → (o ≤ MAX_ORDER)%nat →
  (buddy_alloc o s = Ret (None, s) ∧
    ∀ i p, bl !! i = Some (p, Free) → (p < o)%nat) ∨
  ∃ i s' bl', buddy_alloc o s = Ret (Some (b_base (buddy s) + i * PAGE_SIZE), s') ∧
    alloc_post s s' bl bl' o i.
Proof.
  intros [Hbase [fl W]] Ho. unfold buddy_alloc. rewrite (proj2 (Nat.ltb_ge _ _)) by lia.
  destruct (find_block_spec _ _ _ _ (S MAX_ORDER - o) o W) as
    [[E Hn]|(i & c & l & s1 & Hc & Hl & E & W1 & F1)]; [lia| |].
  - left. rewrite (bind_ret _ _ _ _ _ E). split; [done|]. intros i p Hi.
    destruct (t_block _ _ _ (w_tiling _ _ _ _ W) _ _ _ Hi) as (Hp & _ & _).
    apply (w_fl _ _ _ _ W) in Hi; [|done]. destruct (decide (p < o)%nat); [done|].
    rewrite Hn in Hi by lia. set_solver.
  - right. rewrite (bind_ret _ _ _ _ _ E).
    destruct (alloc_found_spec s bl fl o i c l Hbase W Hc Hl s1 W1 F1) as (s2 & bl' & E2 & P).
    exists i, (set_meta i (mkMeta o true) s2), bl'. rewrite (bind_ret _ _ _ _ _ E2).
    split; [|done]. repeat step_M. unfold block_addr, mret, M_ret.
    by rewrite (f_base _ _ _ (ap_frame _ _ _ _ _ _ P)).
Qed.

(** ** [free] *)

(** The buddy test of the merge loop succeeds exactly on a free block of the
    order being freed. *)
Lemma buddy_is_free s bl fl i o :
  wf (in_block i o) s bl fl → aligned i o →
  buddy_of i o + bsize o ≤ b_page_count (buddy s) →
  meta_at (buddy s) (buddy_of i o) = mkMeta o false →
  bl !! buddy_of i o = Some (o, Free).
Proof.
  intros W Ha Hb Hm. pose proof (w_tiling _ _ _ _ W) as T. pose proof (bsize_pos o).
  destruct (decide (buddy_of i o < b_real_count (buddy s))) as [Hlt|Hge].
  - destruct (t_cover _ _ _ T _ Hlt) as [Hin|(h & p & k & Hh & Hin)].
    { destruct (buddy_disjoint i o (buddy_of i o)); auto with dyadic. }
    destruct (tiling_buddy _ _ _ _ _ _ _ T Ha Hh Hin) as [-> _].
    rewrite (w_meta _ _ _ _ W _ _ _ Hh) in Hm. destruct k; simplify_eq/=; congruence.
  - pose proof (w_pad _ _ _ _ W (buddy_of i o) ltac:(lia)) as Hp. by rewrite Hm in Hp.
Qed.

Record merge_post (s s' : PMem) (bl bl' : blocks) (i i' : N) (o o' : nat) : Prop := mkMergePost {
  mp_order : (o' ≤ MAX_ORDER)%nat;
  mp_block : aligned i' o' ∧ i' + bsize o' ≤ b_real_count (buddy s);
  mp_pages x : in_block i' o' x ∨ free_page bl' x ↔ in_block i o x ∨ free_page bl x;
  mp_alloc j p : allocated bl' j p ↔ allocated bl j p;
  mp_sub x : free_page bl' x → free_page bl x;
  mp_max : o' = MAX_ORDER ∨ bl' !! buddy_of i' o' ≠ Some (o', Free);
  mp_frame : frame (free_page bl) s s'
}.

Lemma merge_stop s bl i o :
  (o ≤ MAX_ORDER)%nat → aligned i o → i + bsize o ≤ b_real_count (buddy s) →
  (o = MAX_ORDER ∨ bl !! buddy_of i o ≠ Some (o, Free)) →
  merge_post s s bl bl i i o o.
Proof. intros. split; auto with dyadic. Qed.

Lemma merge_spec k o i s bl fl :
  wf (in_block i o) s bl fl → (o + k = MAX_ORDER)%nat → aligned i o →
  i + bsize o ≤ b_real_count (buddy s) →
  ∃ i' o' s' bl' fl', merge k o i s = Ret ((i', o'), s') ∧
    wf (in_block i' o') s' bl' fl' ∧ merge_post s s' bl bl' i i' o o'.
Proof.
  revert o i s bl fl. induction k as [|k IH]; intros o i s bl fl W Hk Ha Hb.
  { exists i, o, s, bl, fl. split; [done|]. split; [done|]. apply merge_stop; auto; lia. }
  simpl. step_M. fold (buddy_of i o). set (b := buddy_of i o) in *.
  pose proof (w_tiling _ _ _ _ W) as T. pose proof (w_count _ _ _ _ W) as [Hc _].
  destruct (b_page_count (buddy s) <? b + bsize o) eqn:E1; bool_to_prop.
  { exists i, o, s, bl, fl. split; [done|]. split; [done|]. apply merge_stop; try done; [lia|].
    right. intros Hf. destruct (t_block _ _ _ T _ _ _ Hf) as (_ & _ & ?). lia. }
  destruct (m_used (meta_at (buddy s) b) || negb (m_order (meta_at (buddy s) b) =? o)%nat) eqn:E2.
  { exists i, o, s, bl, fl. split; [done|]. split; [done|]. apply merge_stop; try done; [lia|].
    right. intros Hf. assert (meta_at (buddy s) b = mkMeta o false) as Hm
      by apply (w_meta _ _ _ _ W b o Free Hf).
    rewrite Hm in E2. simpl in E2. by rewrite Nat.eqb_refl in E2. }
  assert (bl !! b = Some (o, Free)) as Hf.
  { apply (buddy_is_free s bl fl i o W Ha); [done|]. bool_to_prop.
    fold b. destruct (meta_at (buddy s) b); simpl in *; congruence. }
  destruct (t_block _ _ _ T _ _ _ Hf) as (_ & _ & Hbb).
  destruct (unlink_wf _ _ _ _ o b W ltac:(lia) Hf) as (s1 & l & Eu & W1 & F1).
  rewrite (bind_ret _ _ _ _ _ Eu).
  apply (wf_ext _ (in_block (N.min i b) (S o))) in W1.
  2:{ intros x. symmetry. apply (in_block_merge i o x Ha). }
  destruct (IH (S o) (N.min i b) s1 _ _ W1) as (i' & o' & s' & bl' & fl' & E & W' & P);
    [lia|by apply min_buddy_aligned| |].
  { rewrite (f_real _ _ _ F1), bsize_S.
    destruct (buddy_of_cases i o Ha) as [[? _]|[? _]]; subst b; lia. }
  exists i', o', s', bl', fl'. split; [done|]. split; [done|].
  destruct P as [P1 P2 P3 P4 P5 P6 P7]. rewrite (f_real _ _ _ F1) in P2.
  assert (∀ x, free_page (delete b bl) x → free_page bl x) as Hsub.
  { intros x. rewrite (free_page_delete _ _ _ _ _ x T Hf). tauto. }
  split; try done.
  - intros x. rewrite P3, (free_page_delete _ _ _ _ _ x T Hf).
    pose proof (in_block_merge i o x Ha) as Hm. fold b in Hm. rewrite Hm.
    assert (in_block b o x → free_page bl x) by (unfold free_page; eauto).
    destruct (decide (in_block b o x)); tauto.
  - intros j p. by rewrite P4, (allocated_delete_free _ _ _ _ _ Hf).
  - auto.
  - eapply frame_trans; [|eapply frame_mono; [exact Hsub|exact P7]].
    eapply frame_mono; [|exact F1]. intros x Hx. exists x, o. split; [|auto with dyadic].
    by apply (w_fl _ _ _ _ W); [lia|].
Qed.

(** What [free] promises of the new state. *)
Record free_post (s s' : PMem) (bl bl' : blocks) (o : nat) (i : N) : Prop := mkFreePost {
  fp_inv : Inv s' bl';
  fp_free x : free_page bl' x ↔ free_page bl x ∨ in_block i o x;
  fp_alloc j p : allocated bl' j p ↔ allocated bl j p ∧ j ≠ i;
  fp_frame : frame (λ x, free_page bl x ∨ in_block i o x) s s';
  fp_coalesced : ∃ h p, bl' !! h = Some (p, Free) ∧ in_block h p i ∧
    (p = MAX_ORDER ∨ bl' !! buddy_of h p ≠ Some (p, Free))
}.

(** Removing an allocated block from the description leaves a hole. *)
Lemma wf_remove_used s bl fl i o :
  wf (λ _, False) s bl fl → bl !! i = Some (o, Used) →
  wf (in_block i o) s (delete i bl) fl.
Proof.
  intros W Hi. split; try apply W.
  - eapply tiling_ext; [|by apply (tiling_delete _ _ _ _ _ _ (w_tiling _ _ _ _ W) Hi)]. tauto.
  - intros p j Hp. rewrite (w_fl _ _ _ _ W p j Hp), lookup_delete_Some.
    split; [intros Hj; split; [congruence|done]|by intros [_ ?]].
  - intros j p k [_ Hj]%lookup_delete_Some. by apply (w_meta _ _ _ _ W).
Qed.

Lemma free_page_delete_used bl i o x :
  bl !! i = Some (o, Used) → free_page (delete i bl) x ↔ free_page bl x.
Proof.
  intros Hi. unfold free_page. setoid_rewrite lookup_delete_Some. split.
  - intros (h & p & [_ ?] & ?). eauto.
  - intros (h & p & ? & ?). exists h, p. split; [split; congruence|done].
Qed.

Lemma free_merge_spec s bl fl i o :
  b_base (buddy s) mod PAGE_SIZE = 0 →
  wf (λ _, False) s bl fl → allocated bl i o →
  ∃ i' o' s1 s' bl', merge (MAX_ORDER - o) o i s = Ret ((i', o'), s1) ∧
    push i' o' s1 = Ret (tt, s') ∧ free_post s s' bl bl' o i.
Proof.
  intros Hbase W Hi. pose proof (w_tiling _ _ _ _ W) as T.
  destruct (t_block _ _ _ T _ _ _ Hi) as (Ho & Ha & Hb).
  pose proof (wf_remove_used _ _ _ _ _ W Hi) as W0.
  destruct (merge_spec (MAX_ORDER - o) o i s _ _ W0) as (i' & o' & s1 & bl1 & fl1 & E1 & W1 & P);
    [lia|done|done|]. destruct P as [P1 [P2 P2'] P3 P4 P5 P6 P7].
  rewrite <-(f_real _ _ _ P7) in P2'.
  destruct (push_wf _ _ _ _ W1 i' o' P1 P2 P2' (λ x H, H)) as (s2 & E2 & W2 & F2).
  pose proof (tiling_hole_fresh _ _ _ i' o' (w_tiling _ _ _ _ W1) (λ x H, H)) as Hfr.
  assert (∀ x, in_block i' o' x → free_page bl x ∨ in_block i o x) as Hin.
  { intros x Hx. rewrite <-(free_page_delete_used bl i o x Hi).
    destruct (proj1 (P3 x) (or_introl Hx)); tauto. }
  exists i', o', s1, s2, (<[i' := (o', Free)]> bl1). split; [done|]. split; [done|]. split.
  - split; [by rewrite (f_base _ _ _ F2), (f_base _ _ _ P7)|].
    eexists. eapply wf_ext; [|exact W2]. tauto.
  - intros x. rewrite free_page_insert_free by done.
    rewrite <-(free_page_delete_used bl i o x Hi). specialize (P3 x). tauto.
  - intros j p. rewrite allocated_insert_free, P4 by done. unfold allocated.
    rewrite lookup_delete_Some. naive_solver.
  - eapply frame_trans.
    + eapply frame_mono; [|exact P7]. intros x. rewrite (free_page_delete_used bl i o x Hi). tauto.
    + eapply frame_mono; [|exact F2]. exact Hin.
  - assert (in_block i' o' i ∨ free_page bl1 i) as [Hi'|(h & p & Hh & Hx)].
    { apply P3. left. auto with dyadic. }
    + exists i', o'. rewrite lookup_insert_eq. split; [done|]. split; [done|].
      destruct P6 as [?|P6]; [by left|right].
      rewrite lookup_insert_ne; [done|]. intros E. symmetry in E. by eapply buddy_of_ne.
    + exfalso. assert (free_page bl i) as (h' & p' & Hh' & Hx').
      { apply (free_page_delete_used bl i o i Hi), P5. by exists h, p. }
      assert (h' = i) as ->.
      { apply (t_disj _ _ _ T _ _ _ _ _ _ i Hh' Hi Hx'). auto with dyadic. }
      unfold allocated in Hi. congruence.
Qed.
