(* ===== verification/MemInit.v ===== *)
(** * Initialisation of the buddy allocator

    [BuddyAllocator::init] of kernel/src/mem.rs builds the invariant from the
    static allocator, with and without reserved ranges. *)

From Stdlib Require Import ZifyN ZifyNat.
From stdpp Require Import base gmap numbers functions list.
From S2P Require Import Prelude Mem Dyadic MemInv MemSpec.

(** Every block is free. *)
Definition all_free (bl : blocks) : Prop := ∀ i o k, bl !! i = Some (o, k) → k = Free.
(** No block is handed out. *)
Definition none_used (bl : blocks) : Prop := ∀ i o, bl !! i ≠ Some (o, Used).

Lemma all_free_insert bl i o : all_free bl → all_free (<[i := (o, Free)]> bl).
Proof. intros H j p k [[_ [= _ <-]]|[_ ?]]%lookup_insert_Some; [done|by eapply H]. Qed.

Lemma all_free_none_used bl : all_free bl → none_used bl.
Proof. intros H i o Hi. by apply H in Hi. Qed.

(** ** The metadata loops *)

Lemma for_each_set_meta m l s :
  ∃ s', for_each (λ i, modify (set_meta i m)) l s = Ret (tt, s') ∧
    ram s' = ram s ∧ b_base (buddy s') = b_base (buddy s) ∧
    b_real_count (buddy s') = b_real_count (buddy s) ∧
    b_page_count (buddy s') = b_page_count (buddy s) ∧
    b_free_lists (buddy s') = b_free_lists (buddy s) ∧
    ∀ i, meta_at (buddy s') i = if decide (i ∈ l) then m else meta_at (buddy s) i.
Proof.
  revert s. induction l as [|x l IH]; intros s.
  { exists s. repeat split; try done. }
  cbn [for_each]. rewrite bind_modify.
  destruct (IH (set_meta x m s)) as (s' & E & H1 & H2 & H3 & H4 & H5 & Hm).
  exists s'. repeat split; try done. intros i. rewrite Hm. unfold set_meta; simpl.
  rewrite meta_at_set. repeat case_decide; set_solver.
Qed.

(** ** Filling without reserved ranges *)

Definition above (idx count x : N) : Prop := idx ≤ x < count.

Lemma push_fill s bl fl idx o :
  wf (above idx (b_real_count (buddy s))) s bl fl → all_free bl → (o ≤ MAX_ORDER)%nat →
  aligned idx o → idx + bsize o ≤ b_real_count (buddy s) →
  ∃ s' bl' fl', push idx o s = Ret (tt, s') ∧
    wf (above (idx + bsize o) (b_real_count (buddy s'))) s' bl' fl' ∧ all_free bl' ∧
    frame (λ _, True) s s'.
Proof.
  intros W Hf Ho Ha Hb.
  destruct (push_wf _ _ _ _ W idx o Ho Ha Hb) as (s' & E & W' & F).
  { unfold in_block, above. lia. }
  exists s'. eexists. eexists. split; [done|]. split; [|split].
  - eapply wf_ext; [|exact W']. intros x. rewrite (f_real _ _ _ F).
    unfold above, in_block. lia.
  - by apply all_free_insert.
  - by eapply frame_mono; [|exact F].
Qed.

Lemma fill_max_spec fuel idx s bl fl :
  let count := b_real_count (buddy s) in
  wf (above idx count) s bl fl → all_free bl → aligned idx MAX_ORDER → idx ≤ count →
  (N.to_nat (count - idx) < fuel)%nat →
  ∃ idx' s' bl' fl', fill_max fuel idx count s = Ret (idx', s') ∧
    wf (above idx' count) s' bl' fl' ∧ all_free bl' ∧ aligned idx' MAX_ORDER ∧
    idx' ≤ count < idx' + bsize MAX_ORDER ∧ frame (λ _, True) s s'.
Proof.
  revert idx s bl fl. induction fuel as [|fuel IH]; intros idx s bl fl count W Hf Ha Hle Hfu; [lia|].
  cbn [fill_max]. destruct (idx + bsize MAX_ORDER <=? count) eqn:E; bool_to_prop.
  - destruct (push_fill s bl fl idx MAX_ORDER W Hf ltac:(lia) Ha E) as (s1 & bl1 & fl1 & E1 & W1 & Hf1 & F1).
    rewrite (bind_ret _ _ _ _ _ E1). pose proof (f_real _ _ _ F1) as Hr. fold count in Hr.
    pose proof (bsize_pos MAX_ORDER).
    destruct (IH (idx + bsize MAX_ORDER) s1 bl1 fl1 W1 Hf1) as (i' & s' & bl' & fl' & E' & W' & R);
      rewrite ?Hr in *; [auto with dyadic|done|lia|].
    exists i', s', bl', fl'. split; [done|]. split; [done|].
    destruct R as (? & ? & ? & F). split; [done|]. split; [done|]. split; [done|].
    by eapply frame_trans.
  - exists idx, s, bl, fl. split; [done|]. split; [done|]. split; [done|]. split; [done|].
    split; [lia|]. auto with dyadic.
Qed.

Lemma fill_tail_spec fuel idx a s bl fl :
  let count := b_real_count (buddy s) in
  wf (above idx count) s bl fl → all_free bl → (a ≤ MAX_ORDER)%nat → aligned idx a →
  idx ≤ count < idx + bsize a → (N.to_nat (count - idx) < fuel)%nat →
  ∃ s' bl' fl', fill_tail fuel idx count s = Ret (tt, s') ∧
    wf (λ _, False) s' bl' fl' ∧ all_free bl' ∧ frame (λ _, True) s s'.
Proof.
  revert idx a s bl fl. induction fuel as [|fuel IH]; intros idx a s bl fl count W Hf Hao Ha Hle Hfu; [lia|].
  cbn [fill_tail]. destruct (idx <? count) eqn:E; bool_to_prop.
  - set (r := count - idx). destruct (N.log2_spec r ltac:(lia)) as [Hl1 Hl2].
    set (o := N.to_nat (N.log2 r)).
    assert (bsize o = 2 ^ N.log2 r) as Hbo by (unfold bsize, o; by rewrite N2Nat.id).
    assert (bsize (S o) = 2 ^ N.succ (N.log2 r)) as HbS
      by (unfold bsize, o; by rewrite Nat2N.inj_succ, N2Nat.id).
    rewrite bsize_S in HbS.
    assert (o < a)%nat as Hoa.
    { destruct (decide (o < a)%nat); [done|]. pose proof (bsize_mono a o ltac:(lia)). lia. }
    rewrite Nat.min_l by lia.
    destruct (push_fill s bl fl idx o W Hf) as (s1 & bl1 & fl1 & E1 & W1 & Hf1 & F1);
      [lia|apply (aligned_le _ a); [lia|done]|fold count; lia|].
    rewrite (bind_ret _ _ _ _ _ E1). pose proof (f_real _ _ _ F1) as Hr. fold count in Hr.
    pose proof (bsize_pos o).
    destruct (IH (idx + bsize o) o s1 bl1 fl1 W1 Hf1) as (s' & bl' & fl' & E' & W' & ? & F);
      rewrite ?Hr in *; [lia| |lia|lia|].
    { apply aligned_add; [apply (aligned_le _ a); [lia|done]|auto with dyadic]. }
    exists s', bl', fl'. split; [done|]. split; [done|]. split; [done|].
    by eapply frame_trans.
  - exists s, bl, fl. split; [done|]. split; [|by auto with dyadic].
    eapply wf_ext; [|exact W]. unfold above. fold count. lia.
Qed.

(** ** Carving around reserved ranges *)

Definition range_overlap (s e : N) (r : N * N) : Prop := r.1 < e ∧ s < r.2.

(** Pairwise disjoint ranges. *)
Fixpoint disjoint_ranges (l : list (N * N)) : Prop :=
  match l with
  | [] => True
  | (a, b) :: l => Forall (λ r, b ≤ r.1 ∨ r.2 ≤ a) l ∧ disjoint_ranges l
  end.

(** A range that overlaps the block excludes that a later range contains it. *)
Lemma carve_scan_later s e a b l acc :
  s < e → range_overlap s e (a, b) → Forall (λ r, b ≤ r.1 ∨ r.2 ≤ a) l →
  (carve_scan s e l acc).1 = false.
Proof.
  intros Hse [Ho1 Ho2] Hl. simpl in *. revert acc.
  induction Hl as [|[c d] l Hcd Hl IH]; intros acc; simpl; [done|]. simpl in Hcd.
  destruct ((c <=? s) && (e <=? d)) eqn:E; [|apply IH]. bool_to_prop. lia.
Qed.

(** With disjoint ranges the scan never reports a block as both inside a range
    and overlapping one: the loop breaks before it records the overlap. *)
Lemma carve_scan_disjoint s e l :
  s < e → disjoint_ranges l → carve_scan s e l false ≠ (true, true).
Proof.
  intros Hse. induction l as [|[a b] l IH]; intros Hd; simpl in *; [done|].
  destruct Hd as [Hab Hd]. destruct ((a <=? s) && (e <=? b)) eqn:E1; [done|].
  destruct ((a <? e) && (s <? b)) eqn:E2; [|by apply IH].
  intros E. bool_to_prop. pose proof (carve_scan_later s e a b l true Hse) as Hl.
  rewrite E in Hl. discriminate Hl; [split; simpl; lia|done].
Qed.

(** State of the carving: what a block's pages become. *)
Record carve_post (hole : N → Prop) (dis : Prop) (s s' : PMem) (bl bl' : blocks)
    (fl' : nat → list N) (idx : N) (o : nat) : Prop := mkCarvePost {
  cp_wf : wf (λ x, hole x ∧ ¬ in_block idx o x) s' bl' fl';
  cp_used : none_used bl → none_used bl';
  cp_free : dis → all_free bl → all_free bl';
  cp_frame : frame (λ _, True) s s'
}.

(** A one-page block that overlaps a range lies inside it, so the recursion never
    goes below order 0. *)
Lemma carve_scan_unit s l : carve_scan s (s + 1) l false ≠ (false, true).
Proof.
  induction l as [|[a b] l IH]; simpl; [done|].
  destruct ((a <=? s) && (s + 1 <=? b)) eqn:E1; [done|].
  replace ((a <? s + 1) && (s <? b)) with false; [done|].
  symmetry. apply andb_false_iff. apply andb_false_iff in E1 as [?|?]; bool_to_prop;
    [left; apply N.ltb_ge|right; apply N.ltb_ge]; lia.
Qed.

Section carve.
Context (reserved : list (N * N)).

Definition carve_halves (o : nat) (idx : N) : M PMem () :=
  match o with
  | O => panic
  | S o => carve o idx reserved;; carve o (idx + N.shiftr (bsize (S o)) 1) reserved
  end.

Lemma carve_unfold o idx s :
  carve o idx reserved s =
  if b_real_count (buddy s) <=? idx then Ret (tt, s)
  else if b_real_count (buddy s) <? idx + bsize o then carve_halves o idx s
  else match carve_scan idx (idx + bsize o) reserved false with
       | (_, false) => push idx o s
       | (true, true) => Ret (tt, set_meta idx (mkMeta 255 true) s)
       | (false, true) => carve_halves o idx s
       end.
Proof.
  destruct o; cbn [carve]; rewrite bind_get;
    (destruct (_ <=? _); [done|]; destruct (_ <? _); [done|];
     destruct (carve_scan _ _ _ _) as [[] []]; done).
Qed.

(** A block inside the managed area that is not split. *)
Lemma carve_leaf o idx hole s bl fl b :
  wf hole s bl fl → (o ≤ MAX_ORDER)%nat → aligned idx o →
  (∀ x, in_block idx o x → x < b_real_count (buddy s) → hole x) →
  idx + bsize o ≤ b_real_count (buddy s) →
  (b = true → ¬ disjoint_ranges reserved) →
  ∃ s' bl' fl', (if b then Ret (tt, set_meta idx (mkMeta 255 true) s) else push idx o s) = Ret (tt, s') ∧
    carve_post hole (disjoint_ranges reserved) s s' bl bl' fl' idx o.
Proof.
  intros W Ho Ha Hin Hb Hdis.
  assert (∀ x, in_block idx o x → hole x) as Hin'.
  { intros x Hx. apply Hin; [done|]. unfold in_block in Hx. lia. }
  destruct b.
  - exists (set_meta idx (mkMeta 255 true) s), (<[idx := (o, Reserved)]> bl), fl.
    split; [done|]. split.
    + by apply (mark_wf hole s bl fl W idx o Reserved).
    + intros Hu i p [[_ ?]|[_ ?]]%lookup_insert_Some; [done|by eapply Hu].
    + intros Hd. by destruct Hdis.
    + by split.
  - destruct (push_wf _ _ _ _ W idx o Ho Ha Hb Hin') as (s' & E & W' & F).
    exists s', (<[idx := (o, Free)]> bl), (<[o := idx :: fl o]> fl). split; [done|]. split.
    + done.
    + intros Hu i p [[_ ?]|[_ ?]]%lookup_insert_Some; [done|by eapply Hu].
    + intros _. apply all_free_insert.
    + by eapply frame_mono; [|exact F].
Qed.

Definition carve_ok (o : nat) : Prop := ∀ idx hole s bl fl,
  wf hole s bl fl → (o ≤ MAX_ORDER)%nat → aligned idx o →
  (∀ x, in_block idx o x → x < b_real_count (buddy s) → hole x) →
  (∀ x, hole x → x < b_real_count (buddy s)) →
  ∃ s' bl' fl', carve o idx reserved s = Ret (tt, s') ∧
    carve_post hole (disjoint_ranges reserved) s s' bl bl' fl' idx o.

Lemma carve_halves_ok o idx hole s bl fl :
  carve_ok o → wf hole s bl fl → (S o ≤ MAX_ORDER)%nat → aligned idx (S o) →
  (∀ x, in_block idx (S o) x → x < b_real_count (buddy s) → hole x) →
  (∀ x, hole x → x < b_real_count (buddy s)) →
  ∃ s' bl' fl', carve_halves (S o) idx s = Ret (tt, s') ∧
    carve_post hole (disjoint_ranges reserved) s s' bl bl' fl' idx (S o).
Proof.
  intros IH W Ho Ha Hin Hh.
  assert (aligned idx o) as Hao by (apply (aligned_le _ (S o)); [lia|done]).
  assert (∀ x, in_block idx (S o) x ↔ in_block idx o x ∨ in_block (idx + bsize o) o x) as Hsp.
  { intros x. unfold in_block. rewrite bsize_S. lia. }
  destruct (IH idx hole s bl fl) as (s1 & bl1 & fl1 & E1 & [W1 U1 A1 F1]); [done|lia|done| |done|].
  { intros x Hx. apply Hin. rewrite Hsp. by left. }
  pose proof (f_real _ _ _ F1) as Hr.
  destruct (IH (idx + bsize o) _ s1 bl1 fl1 W1) as (s2 & bl2 & fl2 & E2 & [W2 U2 A2 F2]).
  - lia.
  - auto with dyadic.
  - rewrite Hr. intros x Hx Hlt. split; [apply Hin; [rewrite Hsp; by right|done]|].
    unfold in_block in *. lia.
  - rewrite Hr. intros x [Hx _]. auto.
  - exists s2, bl2, fl2. split.
    { cbn [carve_halves]. rewrite (bind_ret _ _ _ _ _ E1).
      rewrite N.shiftr_div_pow2, bsize_S. change (2 ^ 1) with 2.
      rewrite (N.mul_comm 2), N.div_mul by lia. done. }
    split; [|auto|auto|by eapply frame_trans].
    eapply wf_ext; [|exact W2]. intros x. rewrite Hsp. tauto.
Qed.

Lemma carve_spec o : carve_ok o.
Proof.
  induction o as [|o IH]; intros idx hole s bl fl W Ho Ha Hin Hh; rewrite carve_unfold.
  all: destruct (b_real_count (buddy s) <=? idx) eqn:E1; bool_to_prop.
  1, 3: exists s, bl, fl; split; [done|]; split; auto with dyadic;
    eapply wf_ext; [|exact W]; intros x; split; [|by intros [? _]];
    intros Hx; specialize (Hh x Hx); unfold in_block; split; [done|lia].
  all: destruct (b_real_count (buddy s) <? idx + bsize _) eqn:E2; bool_to_prop.
  - change (bsize 0) with 1 in E2. lia.
  - change (bsize 0) with 1. pose proof (carve_scan_unit idx reserved).
    pose proof (carve_scan_disjoint idx (idx + 1) reserved ltac:(lia)) as Hsd.
    destruct (carve_scan idx (idx + 1) reserved false) as [[] []]; try done.
    + apply (carve_leaf 0 idx hole s bl fl true); auto; intros _ Hd; by destruct (Hsd Hd).
    + apply (carve_leaf 0 idx hole s bl fl false); auto; done.
    + apply (carve_leaf 0 idx hole s bl fl false); auto; done.
  - by apply (carve_halves_ok o idx hole s bl fl).
  - pose proof (bsize_pos (S o)).
    pose proof (carve_scan_disjoint idx (idx + bsize (S o)) reserved ltac:(lia)) as Hsd.
    destruct (carve_scan idx (idx + bsize (S o)) reserved false) as [[] []].
    + apply (carve_leaf (S o) idx hole s bl fl true); auto; intros _ Hd; by destruct (Hsd Hd).
    + apply (carve_leaf (S o) idx hole s bl fl false); auto; done.
    + by apply (carve_halves_ok o idx hole s bl fl).
    + apply (carve_leaf (S o) idx hole s bl fl false); auto; done.
Qed.

Lemma carve_all_spec fuel idx s bl fl :
  let count := b_real_count (buddy s) in
  wf (above idx count) s bl fl → none_used bl → aligned idx MAX_ORDER →
  (N.to_nat (count - idx) < fuel)%nat →
  ∃ s' bl' fl', carve_all fuel idx count reserved s = Ret (tt, s') ∧
    wf (λ _, False) s' bl' fl' ∧ none_used bl' ∧
    (disjoint_ranges reserved → all_free bl → all_free bl') ∧ frame (λ _, True) s s'.
Proof.
  revert idx s bl fl. induction fuel as [|fuel IH]; intros idx s bl fl count W Hu Ha Hf; [lia|].
  cbn [carve_all]. destruct (idx <? count) eqn:E; bool_to_prop.
  - destruct (carve_spec MAX_ORDER idx _ s bl fl W) as (s1 & bl1 & fl1 & E1 & [W1 U1 A1 F1]);
      [lia|done|unfold above, in_block; fold count; lia|unfold above; fold count; lia|].
    rewrite (bind_ret _ _ _ _ _ E1). pose proof (f_real _ _ _ F1) as Hr. fold count in Hr.
    pose proof (bsize_pos MAX_ORDER).
    apply (wf_ext _ (above (idx + bsize MAX_ORDER) count)) in W1;
      [|intros x; unfold above, in_block; lia].
    rewrite <-Hr in W1.
    destruct (IH _ s1 bl1 fl1 W1) as (s2 & bl2 & fl2 & E2 & W2 & U2 & A2 & F2);
      rewrite ?Hr in *; [auto|auto with dyadic|lia|].
    exists s2, bl2, fl2. split; [done|]. split; [done|]. split; [done|].
    split; [auto|by eapply frame_trans].
  - exists s, bl, fl. split; [done|]. split; [|by auto with dyadic].
    eapply wf_ext; [|exact W]. unfold above. fold count. lia.
Qed.
End carve.

(** ** [init] *)

(** The state [init] starts from: the static allocator, with any RAM. *)
Definition fresh (s : PMem) : Prop := buddy s = allocator0.

Lemma padded_bounds count :
  let padded := div_ceil count (bsize MAX_ORDER) * bsize MAX_ORDER in
  count ≤ padded < count + bsize MAX_ORDER.
Proof.
  unfold div_ceil. change (bsize MAX_ORDER) with 4096. dlia.
Qed.

(** The state after the metadata loops: every managed page is still in the hole. *)
Lemma init_metas s base count :
  fresh s → count ≤ MAX_PAGES →
  let padded := div_ceil count (bsize MAX_ORDER) * bsize MAX_ORDER in
  ∃ s', (modify (λ s, set_buddy (mkBuddy base count padded (b_meta (buddy s))
                                   (b_free_lists (buddy s))) s);;
         for_each (λ i, modify (set_meta i meta0)) (nrange 0 (N.to_nat padded));;
         for_each (λ i, modify (set_meta i (mkMeta MAX_ORDER true)))
           (nrange count (N.to_nat (padded - count)))) s = Ret (tt, s') ∧
    wf (above 0 count) s' ∅ (λ _, []) ∧ b_real_count (buddy s') = count ∧
    b_base (buddy s') = base ∧ ram s' = ram s.
Proof.
  intros Hfr Hc padded. pose proof (padded_bounds count) as [Hp1 Hp2]. fold padded in Hp1, Hp2.
  rewrite bind_modify. set (s1 := set_buddy _ s).
  destruct (for_each_set_meta meta0 (nrange 0 (N.to_nat padded)) s1)
    as (s2 & E2 & R2 & B2 & C2 & P2 & L2 & M2).
  rewrite (bind_ret _ _ _ _ _ E2).
  destruct (for_each_set_meta (mkMeta MAX_ORDER true) (nrange count (N.to_nat (padded - count))) s2)
    as (s3 & E3 & R3 & B3 & C3 & P3 & L3 & M3).
  exists s3. split; [done|]. rewrite C3, C2, B3, B2, R3, R2. split; [|done].
  assert (b_free_lists (buddy s3) = replicate (S MAX_ORDER) FREE_NONE) as HL.
  { rewrite L3, L2. simpl. by rewrite Hfr. }
  split; rewrite ?C3, ?C2, ?P3, ?P2; simpl.
  - split; [done|done| |done]. intros x Hx. left. unfold above. lia.
  - split; [lia|]. change (bsize MAX_ORDER) with 4096 in Hp2. unfold MAX_PAGES in Hc.
    unfold FREE_NONE, USIZE_MAX. lia.
  - rewrite HL. by rewrite length_replicate.
  - intros o Ho. exists FREE_NONE. rewrite HL. split; [|done].
    apply lookup_replicate_2. lia.
  - intros o i _. rewrite lookup_empty. split; [by intros ?%not_elem_of_nil|done].
  - intros o _. constructor.
  - done.
  - intros i Hi. rewrite M3. rewrite decide_True; [done|]. apply elem_of_nrange. lia.
Qed.

Lemma buddy_init_spec s base count reserved :
  fresh s → base mod PAGE_SIZE = 0 → count ≤ MAX_PAGES →
  ∃ s' bl, buddy_init base count reserved s = Ret (tt, s') ∧ Inv s' bl ∧
    none_used bl ∧ (disjoint_ranges reserved → all_free bl) ∧
    b_base (buddy s') = base ∧ b_real_count (buddy s') = count.
Proof.
  intros Hfr Hb Hc. destruct (init_metas s base count Hfr Hc) as (s1 & E1 & W1 & Hr & Hba & _).
  set (padded := div_ceil count (bsize MAX_ORDER) * bsize MAX_ORDER) in *.
  assert (buddy_init base count reserved s =
    match reserved with
    | [] => (idx ← fill_max (S (N.to_nat count)) 0 count; fill_tail (S (N.to_nat count)) idx count) s1
    | _ => carve_all (S (N.to_nat count)) 0 count reserved s1
    end) as ->.
  { unfold buddy_init. fold padded.
    apply bind_ret_inv in E1 as (? & ? & Ea & E1). apply bind_ret_inv in E1 as (? & ? & Eb & E1).
    rewrite (bind_ret _ _ _ _ _ Ea), (bind_ret _ _ _ _ _ Eb), (bind_ret _ _ _ _ _ E1).
    by destruct reserved. }
  assert (all_free ∅) as Hemp by (by intros ? ? ?).
  rewrite <-Hr in *. destruct reserved as [|r rest].
  - destruct (fill_max_spec (S (N.to_nat (b_real_count (buddy s1)))) 0 s1 _ _ W1 Hemp)
      as (idx & s2 & bl2 & fl2 & E2 & W2 & A2 & Hal & Hle & F2);
      [by apply aligned_mul; exists 0|lia|lia|].
    rewrite (bind_ret _ _ _ _ _ E2). pose proof (f_real _ _ _ F2) as Hr2. rewrite <-Hr2 in *.
    destruct (fill_tail_spec (S (N.to_nat (b_real_count (buddy s2)))) idx MAX_ORDER s2 bl2 fl2 W2 A2)
      as (s3 & bl3 & fl3 & E3 & W3 & A3 & F3); [lia|done|done|lia|].
    exists s3, bl3. split; [done|].
    assert (b_base (buddy s3) = base) as Hb3 by (rewrite (f_base _ _ _ F3), (f_base _ _ _ F2); done).
    split; [split; [by rewrite Hb3|eauto]|]. split; [by apply all_free_none_used|].
    split; [done|]. split; [done|]. by rewrite (f_real _ _ _ F3).
  - destruct (carve_all_spec (r :: rest) (S (N.to_nat (b_real_count (buddy s1)))) 0 s1 _ _ W1)
      as (s2 & bl2 & fl2 & E2 & W2 & U2 & A2 & F2);
      [by apply all_free_none_used|by apply aligned_mul; exists 0|lia|].
    exists s2, bl2. split; [done|].
    assert (b_base (buddy s2) = base) as Hb2 by (by rewrite (f_base _ _ _ F2)).
    split; [split; [by rewrite Hb2|eauto]|]. split; [done|]. split; [auto|]. split; [done|].
    by rewrite (f_real _ _ _ F2).
Qed.
