(* ===== verification/MemProps.v ===== *)
(** * Properties of the physical page allocator

    The contract of the public functions of kernel/src/mem.rs, on every branch,
    and two places where the code does not keep what its comments promise. *)

From Stdlib Require Import ZifyN ZifyNat.
From stdpp Require Import base gmap numbers functions list.
From S2P Require Import Prelude Mem Dyadic MemInv MemSpec MemInit.

(** ** Shared lemmas *)

(** The allocator after [init] on [count] pages from [base], without reserved
    ranges, as a closed state. *)
Definition booted (base count : N) (s : PMem) : Prop :=
  buddy_init base count [] (mkPMem allocator0 ∅) = Ret (tt, s).

Lemma booted_inv base count :
  base mod PAGE_SIZE = 0 → count ≤ MAX_PAGES →
  ∃ s bl, booted base count s ∧ Inv s bl ∧ all_free bl ∧
    b_base (buddy s) = base ∧ b_real_count (buddy s) = count.
Proof.
  intros Hb Hc. destruct (buddy_init_spec (mkPMem allocator0 ∅) base count [] eq_refl Hb Hc)
    as (s & bl & E & I & _ & A & B & R).
  exists s, bl. split; [done|]. split; [done|]. split; [by apply A|done].
Qed.

(** The blocks say nothing about memory outside the free pages' first words:
    whoever owns other memory may write it. *)
Lemma Inv_ram s bl r :
  Inv s bl →
  (∀ i, free_page bl i →
    r !! (b_base (buddy s) + i * PAGE_SIZE) = ram s !! (b_base (buddy s) + i * PAGE_SIZE)) →
  Inv (set_ram r s) bl.
Proof.
  intros [Hb [fl W]] Hr. split; [done|]. exists fl. split; try apply W.
  intros o Ho. destruct (w_chain _ _ _ _ W o Ho) as (h & Hh & Hc). exists h. split; [done|].
  simpl. eapply chain_ext; [|exact Hc]. intros i Hi. apply Hr. exists i, o.
  split; [by apply (w_fl _ _ _ _ W)|auto with dyadic].
Qed.

(** Addresses of managed pages and their index. *)
Lemma addr_index b i :
  (b_base b + i * PAGE_SIZE - b_base b) / PAGE_SIZE = i.
Proof. unfold PAGE_SIZE. rewrite N.add_comm, N.add_sub. apply N.div_mul. lia. Qed.

Lemma page_aligned base i : base mod PAGE_SIZE = 0 → is_multiple_of (base + i * PAGE_SIZE) PAGE_SIZE = true.
Proof. intros H. apply is_multiple_of_spec. unfold PAGE_SIZE in *. by rewrite N.Div0.mod_add. Qed.

(** [free]'s address checks pass on a managed page. *)
Lemma free_addr_ok s i :
  b_base (buddy s) mod PAGE_SIZE = 0 → i < b_real_count (buddy s) →
  let b := buddy s in let addr := b_base b + i * PAGE_SIZE in
  (addr <? b_base b) || (b_base b + b_real_count b * PAGE_SIZE <=? addr)
    || negb (is_multiple_of addr PAGE_SIZE) = false.
Proof.
  intros Hb Hi b addr. unfold addr, b. rewrite page_aligned by done.
  rewrite (proj2 (N.ltb_ge _ _)), (proj2 (N.leb_gt _ _)); [done| |].
  - unfold PAGE_SIZE. lia.
  - lia.
Qed.

Lemma buddy_free_used s bl i o :
  Inv s bl → allocated bl i o →
  ∃ s' bl', buddy_free (b_base (buddy s) + i * PAGE_SIZE) s = Ret (Ok tt, s') ∧
    free_post s s' bl bl' o i.
Proof.
  intros [Hb [fl W]] Hi. pose proof (w_tiling _ _ _ _ W) as T.
  destruct (t_block _ _ _ T _ _ _ Hi) as (Ho & Ha & Hle). pose proof (bsize_pos o).
  destruct (free_merge_spec s bl fl i o Hb W Hi) as (i' & o' & s1 & s2 & bl' & E1 & E2 & P).
  exists s2, bl'. split; [|done]. unfold buddy_free. step_M.
  rewrite free_addr_ok by (done || lia). unfold block_index. rewrite addr_index.
  pose proof (w_meta _ _ _ _ W _ _ _ Hi) as Hm. rewrite Hm. simpl.
  rewrite (proj2 (Nat.ltb_ge _ _)) by (simpl; lia). simpl.
  rewrite (proj2 (is_multiple_of_spec i (bsize o)) Ha). simpl.
  rewrite (bind_ret _ _ _ _ _ E1). simpl. by rewrite (bind_ret _ _ _ _ _ E2).
Qed.

Lemma buddy_free_rejected s bl i o k :
  Inv s bl → bl !! i = Some (o, k) → k ≠ Used →
  buddy_free (b_base (buddy s) + i * PAGE_SIZE) s = Ret (Err tt, s).
Proof.
  intros [Hb [fl W]] Hi Hk. pose proof (w_tiling _ _ _ _ W) as T.
  destruct (t_block _ _ _ T _ _ _ Hi) as (Ho & Ha & Hle). pose proof (bsize_pos o).
  unfold buddy_free. step_M. rewrite free_addr_ok by (done || lia).
  unfold block_index. rewrite addr_index. rewrite (w_meta _ _ _ _ W _ _ _ Hi).
  destruct k; simpl; [by rewrite orb_true_r|done|done].
Qed.

(** ** Counting free pages *)

(** The pages of a list of blocks of order [o]. *)
Definition pages_of (o : nat) (l : list N) : list N :=
  l ≫= λ i, nrange i (N.to_nat (bsize o)).

Lemma elem_of_pages_of o l x : x ∈ pages_of o l ↔ ∃ i, i ∈ l ∧ in_block i o x.
Proof.
  unfold pages_of. rewrite list_elem_of_bind. setoid_rewrite elem_of_nrange.
  unfold in_block. setoid_rewrite N2Nat.id. naive_solver.
Qed.

Lemma length_pages_of o l : N.of_nat (length (pages_of o l)) = vlen l * bsize o.
Proof.
  unfold vlen. induction l as [|i l IH]; [done|].
  change (pages_of o (i :: l)) with (nrange i (N.to_nat (bsize o)) ++ pages_of o l).
  cbn [length]. rewrite length_app, length_nrange, Nat2N.inj_add, Nat2N.inj_succ, IH, N2Nat.id. lia.
Qed.

(** Blocks that do not share pages have disjoint page lists. *)
Lemma NoDup_pages_of real hole bl o l :
  tiling real hole bl → NoDup l → (∀ i, i ∈ l → bl !! i = Some (o, Free)) →
  NoDup (pages_of o l).
Proof.
  intros T. induction l as [|i l IH]; intros Hnd Hl; [constructor|].
  apply NoDup_cons in Hnd as [Hi Hnd].
  change (pages_of o (i :: l)) with (nrange i (N.to_nat (bsize o)) ++ pages_of o l).
  apply NoDup_app.
  split; [apply NoDup_nrange|]. split; [|apply IH; set_solver].
  intros x Hx1%elem_of_nrange Hx2. apply elem_of_pages_of in Hx2 as (j & Hj & Hx2).
  rewrite N2Nat.id in Hx1. apply Hi. replace i with j; [done|].
  apply (t_disj _ _ _ T j o Free i o Free x); [apply Hl; set_solver..|done|done].
Qed.

Lemma chain_length_chain s l cur fuel :
  chain (b_base (buddy s)) (ram s) cur l → (length l < fuel)%nat →
  (∀ i, i ∈ l → i ≠ FREE_NONE) →
  chain_length fuel s cur = Some (vlen l).
Proof.
  revert cur fuel. induction l as [|i l IH]; intros cur fuel Hc Hf Hn.
  - destruct fuel; [simpl in Hf; lia|]. by simpl in *; subst.
  - destruct fuel as [|fuel]; [simpl in Hf; lia|]. destruct Hc as [-> Hc]. simpl.
    rewrite (proj2 (N.eqb_neq _ _)) by (apply Hn; set_solver).
    unfold block_addr. rewrite (IH _ fuel Hc); [|simpl in Hf; lia|set_solver].
    unfold vlen. simpl. f_equal. lia.
Qed.

Section counting.
Context (s : PMem) (bl : blocks) (fl : nat → list N).
Hypothesis W : wf (λ _, False) s bl fl.

(** The nodes of one list fit in the managed area. *)
Lemma fl_short o : (o ≤ MAX_ORDER)%nat → (length (fl o) ≤ N.to_nat (b_page_count (buddy s)))%nat.
Proof.
  intros Ho. rewrite <-(length_nrange 0 (N.to_nat (b_page_count (buddy s)))).
  apply submseteq_length, NoDup_submseteq; [by apply W|].
  intros i Hi. apply elem_of_nrange. pose proof (wf_fl_page _ _ _ _ o i W Ho Hi). lia.
Qed.

Lemma list_chain_length o : (o ≤ MAX_ORDER)%nat → ∃ head,
  b_free_lists (buddy s) !! o = Some head ∧
  chain_length (S (N.to_nat (b_page_count (buddy s)))) s head = Some (vlen (fl o)).
Proof.
  intros Ho. destruct (w_chain _ _ _ _ W o Ho) as (h & Hh & Hc). exists h. split; [done|].
  apply chain_length_chain; [done|pose proof (fl_short o Ho); lia|].
  intros i Hi. pose proof (wf_fl_page _ _ _ _ o i W Ho Hi). pose proof (w_count _ _ _ _ W). lia.
Qed.

(** The free pages of the orders in [os]. *)
Definition order_pages (os : list nat) : list N := os ≫= λ o, pages_of o (fl o).

Lemma count_fold os :
  (∀ o, o ∈ os → (o ≤ MAX_ORDER)%nat) →
  foldr (count_order s) (Some 0) os = Some (vlen (order_pages os)).
Proof.
  induction os as [|o os IH]; intros Hos; [done|]. cbn [foldr]. rewrite IH by set_solver.
  destruct (list_chain_length o) as (h & Hh & Hc); [set_solver|].
  unfold count_order. cbn [mbind option_bind]. rewrite Hh. cbn [mbind option_bind].
  rewrite Hc. cbn [mbind option_bind].
  change (order_pages (o :: os)) with (pages_of o (fl o) ++ order_pages os).
  f_equal. unfold vlen at 3. rewrite length_app, Nat2N.inj_add, length_pages_of.
  unfold vlen. lia.
Qed.

Lemma elem_of_order_pages os x : x ∈ order_pages os ↔
  ∃ o i, o ∈ os ∧ i ∈ fl o ∧ in_block i o x.
Proof.
  unfold order_pages. rewrite list_elem_of_bind. setoid_rewrite elem_of_pages_of. naive_solver.
Qed.

Lemma NoDup_order_pages os :
  NoDup os → (∀ o, o ∈ os → (o ≤ MAX_ORDER)%nat) → NoDup (order_pages os).
Proof.
  pose proof (w_tiling _ _ _ _ W) as T.
  induction os as [|o os IH]; intros Hnd Hos; [constructor|].
  apply NoDup_cons in Hnd as [Ho Hnd].
  change (order_pages (o :: os)) with (pages_of o (fl o) ++ order_pages os).
  apply NoDup_app.
  assert (∀ p i, p ∈ o :: os → i ∈ fl p → bl !! i = Some (p, Free)) as Hfl.
  { intros p i Hp. apply (w_fl _ _ _ _ W). auto. }
  split; [|split].
  - apply (NoDup_pages_of _ _ bl _ _ T); [apply W; apply Hos; set_solver|].
    intros i. apply Hfl. set_solver.
  - intros x (i & Hi & Hx)%elem_of_pages_of Hx'. apply elem_of_order_pages in Hx' as (p & j & Hp & Hj & Hxj).
    apply Hfl in Hi; [|set_solver]. apply Hfl in Hj; [|set_solver].
    pose proof (t_disj _ _ _ T _ _ _ _ _ _ _ Hi Hj Hx Hxj). subst. simplify_eq. done.
  - apply IH; set_solver.
Qed.
End counting.

Lemma free_page_count_pages s bl :
  Inv s bl → ∃ l, NoDup l ∧ (∀ x, x ∈ l ↔ free_page bl x) ∧ free_page_count s = Some (vlen l).
Proof.
  intros [Hb [fl W]]. exists (order_pages fl (seq 0 (S MAX_ORDER))).
  assert (∀ o, o ∈ seq 0 (S MAX_ORDER) ↔ (o ≤ MAX_ORDER)%nat) as Hos.
  { intros o. rewrite elem_of_seq. lia. }
  split; [|split].
  - apply (NoDup_order_pages s bl fl W); [apply NoDup_seq|]. intros o. apply Hos.
  - intros x. rewrite elem_of_order_pages. split.
    + intros (o & i & Ho & Hi & Hx). exists i, o. split; [|done].
      apply (w_fl _ _ _ _ W); [by apply Hos|done].
    + intros (h & o & Hh & Hx). destruct (t_block _ _ _ (w_tiling _ _ _ _ W) _ _ _ Hh) as (Ho & _).
      exists o, h. split; [by apply Hos|]. split; [by apply (w_fl _ _ _ _ W)|done].
  - apply (count_fold s bl fl W). intros o. apply Hos.
Qed.

(** ** Zeroing *)

(** [s'] is [s] with zeros in the words at the addresses in [P]. *)
Definition zeroed (P : N → Prop) (s s' : PMem) : Prop :=
  buddy s' = buddy s ∧
  ∀ a, (P a ∧ ram s' !! a = Some 0) ∨ (¬ P a ∧ ram s' !! a = ram s !! a).

Lemma zeroed_words base l s :
  ∃ s', for_each (λ i, modify (λ s, set_ram (write_word (base + i * 8) 0 (ram s)) s)) l s = Ret (tt, s') ∧
    zeroed (λ a, ∃ i, i ∈ l ∧ a = base + i * 8) s s'.
Proof.
  revert s. induction l as [|x l IH]; intros s.
  { exists s. split; [done|]. split; [done|]. intros a. right. split; [|done].
    by intros (i & ?%not_elem_of_nil & _). }
  cbn [for_each]. rewrite bind_modify.
  destruct (IH (set_ram (write_word (base + x * 8) 0 (ram s)) s)) as (s' & E & Hb & Hz).
  exists s'. split; [done|]. split; [done|]. intros a.
  destruct (Hz a) as [[(i & Hi & ->) Ha]|[Hn Ha]].
  - left. split; [exists i; split; [by right|done]|done].
  - destruct (decide (a = base + x * 8)) as [->|Hne].
    + left. split; [exists x; split; [by left|done]|]. rewrite Ha. simpl.
      unfold write_word. by rewrite lookup_insert_eq.
    + right. split; [|rewrite Ha; simpl; unfold write_word; by rewrite lookup_insert_ne].
      intros (i & [->|Hi]%elem_of_cons & ?); [done|]. apply Hn. eauto.
Qed.

Lemma zeroed_trans P Q s1 s2 s3 :
  zeroed P s1 s2 → zeroed Q s2 s3 → zeroed (λ a, P a ∨ Q a) s1 s3.
Proof.
  intros [B1 Z1] [B2 Z2]. split; [congruence|]. intros a.
  destruct (Z2 a) as [[? ?]|[? E2]]; [by left; auto|].
  destruct (Z1 a) as [[? ?]|[? E1]]; [left|right]; rewrite E2; naive_solver.
Qed.

Lemma zeroed_ext P Q s s' : (∀ a, P a ↔ Q a) → zeroed P s s' → zeroed Q s s'.
Proof. intros H [B Z]. split; [done|]. intros a. rewrite <-H. apply Z. Qed.

Lemma zero_page_zeroed addr s :
  ∃ s', zero_page addr s = Ret (tt, s') ∧
    zeroed (λ a, ∃ w, w < 512 ∧ a = addr + w * 8) s s'.
Proof.
  destruct (zeroed_words addr (nrange 0 512) s) as (s' & E & Z). exists s'. split; [done|].
  eapply zeroed_ext; [|exact Z]. intros a. setoid_rewrite elem_of_nrange.
  change (0 + N.of_nat 512) with 512. split.
  - intros (i & [_ ?] & ->). by exists i.
  - intros (i & ? & ->). exists i. split; [lia|done].
Qed.

Lemma zero_pages_zeroed addr l s :
  ∃ s', for_each (λ i, zero_page (addr + i * PAGE_SIZE)) l s = Ret (tt, s') ∧
    zeroed (λ a, ∃ i w, i ∈ l ∧ w < 512 ∧ a = addr + i * PAGE_SIZE + w * 8) s s'.
Proof.
  revert s. induction l as [|x l IH]; intros s.
  { exists s. split; [done|]. split; [done|]. intros a. right. split; [|done].
    by intros (i & w & ?%not_elem_of_nil & _). }
  cbn [for_each]. destruct (zero_page_zeroed (addr + x * PAGE_SIZE) s) as (s1 & E1 & Z1).
  rewrite (bind_ret _ _ _ _ _ E1). destruct (IH s1) as (s2 & E2 & Z2).
  exists s2. split; [done|]. eapply zeroed_ext; [|exact (zeroed_trans _ _ _ _ _ Z1 Z2)].
  intros a. setoid_rewrite elem_of_cons. split.
  - intros [(w & ? & ->)|(i & w & ? & ? & ->)]; [exists x, w|exists i, w]; auto.
  - intros (i & w & [->|?] & ? & ->); [left; by exists w|right; by exists i, w].
Qed.

(** The words of block [i] of order [o]. *)
Definition block_word (base i : N) (o : nat) (a : N) : Prop :=
  ∃ w, w < bsize o * 512 ∧ a = base + i * PAGE_SIZE + w * 8.

Lemma zero_block s bl i o :
  Inv s bl → allocated bl i o →
  ∃ s', for_each (λ k, zero_page (b_base (buddy s) + i * PAGE_SIZE + k * PAGE_SIZE))
          (nrange 0 (N.to_nat (bsize o))) s = Ret (tt, s') ∧
    Inv s' bl ∧ zeroed (block_word (b_base (buddy s)) i o) s s'.
Proof.
  intros I Hi. set (base := b_base (buddy s)).
  destruct (zero_pages_zeroed (base + i * PAGE_SIZE) (nrange 0 (N.to_nat (bsize o))) s)
    as (s' & E & Z). exists s'. split; [done|].
  eapply zeroed_ext in Z.
  - split; [|exact Z]. destruct Z as [B Z].
    replace s' with (set_ram (ram s') s); [|destruct s', s; simpl in *; by simplify_eq].
    apply Inv_ram; [done|]. intros j (h & p & Hh & Hj). fold base.
    destruct (Z (base + j * PAGE_SIZE)) as [[(w & Hw & Ea) _]|[_ ?]]; [|done].
    exfalso. destruct I as [_ [fl W]].
    assert (h = i) as ->; [|unfold allocated in Hi; congruence].
    apply (t_disj _ _ _ (w_tiling _ _ _ _ W) _ _ _ _ _ _ j Hh Hi Hj).
    unfold in_block, PAGE_SIZE in *. dlia.
  - intros a. unfold block_word. setoid_rewrite elem_of_nrange. rewrite N2Nat.id, N.add_0_l. split.
    + intros (k & w & Hk & Hw & ->). exists (k * 512 + w). unfold PAGE_SIZE. split; [nia|lia].
    + intros (w & Hw & ->). exists (w / 512), (w mod 512). unfold PAGE_SIZE. split; [|split]; dlia.
Qed.

(** ** The contract of the public functions *)

(** C1: [alloc_pages] of a representable order either reports that every free
    block is smaller than the request and changes nothing, or hands out an aligned
    run of [2^order] pages that were all free: the free pages lose exactly that
    run, the allocated blocks gain exactly that block, the invariant of the
    allocator holds again, and no memory word outside the free pages is written. *)
Theorem alloc_pages_correct (s : PMem) (bl : blocks) (o : nat) :
  Inv s bl → (o ≤ MAX_ORDER)%nat →
  (alloc_pages o s = Ret (None, s) ∧ ∀ i p, bl !! i = Some (p, Free) → (p < o)%nat) ∨
  ∃ i s' bl', alloc_pages o s = Ret (Some (b_base (buddy s) + i * PAGE_SIZE), s') ∧
    alloc_post s s' bl bl' o i.
Proof. apply buddy_alloc_cases. Qed.

Lemma alloc_pages_correct_witness :
  ∃ s bl, booted 0x81000000 8 s ∧
    ((alloc_pages 1 s = Ret (None, s) ∧ ∀ i p, bl !! i = Some (p, Free) → (p < 1)%nat) ∨
     ∃ i s' bl', alloc_pages 1 s = Ret (Some (b_base (buddy s) + i * PAGE_SIZE), s') ∧
       alloc_post s s' bl bl' 1 i).
Proof.
  destruct (booted_inv 0x81000000 8 eq_refl ltac:(done)) as (s & bl & B & I & _).
  exists s, bl. split; [exact B|]. apply (alloc_pages_correct s bl 1 I). unfold MAX_ORDER. lia.
Defined.

(** C2: [free_pages] of the address of an allocated block succeeds: its pages
    become free and no other page changes, no other block is released, only free
    pages are written, and the freed pages end up in a free block that is either
    of the largest order or whose buddy is not a free block of the same order (the
    merge loop coalesces as far as it can). *)
Theorem free_pages_correct (s : PMem) (bl : blocks) (i : N) (o : nat) :
  Inv s bl → allocated bl i o →
  ∃ s' bl', free_pages (b_base (buddy s) + i * PAGE_SIZE) s = Ret (Ok tt, s') ∧
    free_post s s' bl bl' o i.
Proof. apply buddy_free_used. Qed.

Lemma free_pages_correct_witness :
  ∃ s bl i, allocated bl i 1 ∧ ∃ s' bl',
    free_pages (b_base (buddy s) + i * PAGE_SIZE) s = Ret (Ok tt, s') ∧ free_post s s' bl bl' 1 i.
Proof.
  destruct (booted_inv 0x81000000 8 eq_refl ltac:(done)) as (s & bl & B & I & _).
  destruct (buddy_alloc_cases s bl 1 I ltac:(unfold MAX_ORDER; lia)) as [[E _]|(i & s' & bl' & E & P)].
  - exfalso. assert (match buddy_init 0x81000000 8 [] (mkPMem allocator0 ∅) with
      | Ret (_, s) => match buddy_alloc 1 s with Ret (Some _, _) => True | _ => False end
      | _ => False end) as H by (vm_compute; exact Logic.I).
    rewrite B, E in H. exact H.
  - assert (allocated bl' i 1) as A by (apply (ap_alloc _ _ _ _ _ _ P); right; split; reflexivity).
    exists s', bl', i. split; [exact A|].
    apply (free_pages_correct s' bl' i 1 (ap_inv _ _ _ _ _ _ P) A).
Defined.

(** [free_pages] answers [Err] and changes nothing on an address outside the
    managed area, on an address that is not page aligned, and on the first page of
    a block that is free or reserved. *)
Theorem free_pages_rejects (s : PMem) (bl : blocks) (addr : N) :
  Inv s bl →
  addr < b_base (buddy s) ∨ b_base (buddy s) + b_real_count (buddy s) * PAGE_SIZE ≤ addr ∨
    addr mod PAGE_SIZE ≠ 0 ∨
    (∃ i o k, addr = b_base (buddy s) + i * PAGE_SIZE ∧ bl !! i = Some (o, k) ∧ k ≠ Used) →
  free_pages addr s = Ret (Err tt, s).
Proof.
  intros I [H|[H|[H|(i & o & k & -> & Hi & Hk)]]].
  4: by eapply buddy_free_rejected.
  all: unfold free_pages, buddy_free; step_M.
  - by rewrite (proj2 (N.ltb_lt _ _) H).
  - by rewrite (proj2 (N.leb_le _ _) H), orb_true_r.
  - unfold is_multiple_of. by rewrite (proj2 (N.eqb_neq _ _) H), orb_true_r.
Qed.

Lemma free_pages_rejects_witness :
  ∃ s bl, Inv s bl ∧ free_pages 0x81000001 s = Ret (Err tt, s).
Proof.
  destruct (booted_inv 0x81000000 8 eq_refl ltac:(done)) as (s & bl & B & I & _).
  exists s, bl. split; [exact I|]. apply (free_pages_rejects s bl _ I). right; right; left. done.
Defined.

(** What is allocated and then freed is as before: after a successful
    [alloc_pages] and the matching [free_pages], the free pages and the allocated
    blocks are the original ones. *)
Theorem alloc_free_roundtrip (s s1 : PMem) (bl : blocks) (o : nat) (addr : N) :
  Inv s bl → (o ≤ MAX_ORDER)%nat → alloc_pages o s = Ret (Some addr, s1) →
  ∃ s2 bl2, free_pages addr s1 = Ret (Ok tt, s2) ∧ Inv s2 bl2 ∧
    (∀ x, free_page bl2 x ↔ free_page bl x) ∧ (∀ j p, allocated bl2 j p ↔ allocated bl j p).
Proof.
  intros I Ho E. destruct (buddy_alloc_cases s bl o I Ho) as [[E' _]|(i & s' & bl' & E' & P)];
    unfold alloc_pages in E; rewrite E in E'; simplify_eq.
  destruct P as [I' Hb Hw Hf Ha F].
  assert (allocated bl' i o) as Hi by (apply Ha; by right).
  destruct (buddy_free_used s' bl' i o I' Hi) as (s2 & bl2 & E2 & [I2 Hf2 Ha2 _ _]).
  rewrite (f_base _ _ _ F) in E2. exists s2, bl2. split; [done|]. split; [done|]. split.
  - intros x. rewrite Hf2, Hf. specialize (Hw x). destruct (decide (in_block i o x)); tauto.
  - intros j p. rewrite Ha2, Ha. split; [naive_solver|]. intros Hj. split; [by left|].
    intros ->. destruct I as [_ [fl W]]. destruct (Hw i (in_block_head i o)) as (h & q & Hh & Hx).
    pose proof (t_disj _ _ _ (w_tiling _ _ _ _ W) _ _ _ _ _ _ i Hh Hj Hx (in_block_head i p)).
    subst. unfold allocated in Hj. by simplify_eq.
Qed.

Lemma alloc_free_roundtrip_witness :
  ∃ s addr s1 s2, booted 0x81000000 8 s ∧ alloc_pages 2 s = Ret (Some addr, s1) ∧
    free_pages addr s1 = Ret (Ok tt, s2).
Proof.
  destruct (booted_inv 0x81000000 8 eq_refl ltac:(done)) as (s & bl & B & I & _).
  assert (∃ addr s1, alloc_pages 2 s = Ret (Some addr, s1)) as (addr & s1 & E).
  { assert (match buddy_init 0x81000000 8 [] (mkPMem allocator0 ∅) with
      | Ret (_, s) => match alloc_pages 2 s with Ret (Some _, _) => True | _ => False end
      | _ => False end) as H by (vm_compute; exact Logic.I).
    rewrite B in H. destruct (alloc_pages 2 s) as [[[a|] s1]| |]; try contradiction. by eauto. }
  destruct (alloc_free_roundtrip s s1 bl 2 addr I ltac:(unfold MAX_ORDER; lia) E) as (s2 & bl2 & E2 & _).
  exists s, addr, s1, s2. split; [exact B|]. split; [exact E|exact E2].
Defined.

(** [alloc_pages_zeroed] hands out the block [alloc_pages] would hand out, in
    the same allocator state, with every word of every page of the block zero and
    every word outside it as [alloc_pages] left it. *)
Theorem alloc_pages_zeroed_correct (s s1 : PMem) (bl : blocks) (o : nat) (addr : N) :
  Inv s bl → (o ≤ MAX_ORDER)%nat → alloc_pages o s = Ret (Some addr, s1) →
  ∃ i s2 bl', alloc_pages_zeroed o s = Ret (Some addr, s2) ∧
    addr = b_base (buddy s) + i * PAGE_SIZE ∧ buddy s2 = buddy s1 ∧
    Inv s2 bl' ∧ allocated bl' i o ∧
    (∀ w, w < bsize o * 512 → read_word (addr + w * 8) (ram s2) = 0) ∧
    (∀ a, ¬ block_word (b_base (buddy s)) i o a → ram s2 !! a = ram s1 !! a).
Proof.
  intros I Ho E. destruct (buddy_alloc_cases s bl o I Ho) as [[E' _]|(i & s' & bl' & E' & P)];
    unfold alloc_pages in E; rewrite E in E'; simplify_eq.
  destruct P as [I' Hb Hw Hf Ha F]. assert (allocated bl' i o) as Hi by (apply Ha; by right).
  destruct (zero_block s' bl' i o I' Hi) as (s2 & E2 & I2 & B & Z).
  rewrite (f_base _ _ _ F) in *. exists i, s2, bl'.
  split.
  { unfold alloc_pages_zeroed, alloc_pages. rewrite (bind_ret _ _ _ _ _ E).
    by rewrite (bind_ret _ _ _ _ _ E2). }
  split; [done|]. split; [done|]. split; [done|]. split; [done|]. split.
  - intros w Hw'. unfold read_word. destruct (Z (b_base (buddy s) + i * PAGE_SIZE + w * 8))
      as [[_ ->]|[[] _]]; [done|]. by exists w.
  - intros a Hn. by destruct (Z a) as [[? _]|[_ ?]].
Qed.

Lemma alloc_pages_zeroed_correct_witness :
  ∃ s addr s2, booted 0x81000000 8 s ∧ alloc_pages_zeroed 0 s = Ret (Some addr, s2) ∧
    read_word (addr + 511 * 8) (ram s2) = 0.
Proof.
  destruct (booted_inv 0x81000000 8 eq_refl ltac:(done)) as (s & bl & B & I & _).
  assert (∃ addr s1, alloc_pages 0 s = Ret (Some addr, s1)) as (addr & s1 & E).
  { assert (match buddy_init 0x81000000 8 [] (mkPMem allocator0 ∅) with
      | Ret (_, s) => match alloc_pages 0 s with Ret (Some _, _) => True | _ => False end
      | _ => False end) as H by (vm_compute; exact Logic.I).
    rewrite B in H. destruct (alloc_pages 0 s) as [[[a|] s1]| |]; try contradiction. by eauto. }
  destruct (alloc_pages_zeroed_correct s s1 bl 0 addr I ltac:(unfold MAX_ORDER; lia) E)
    as (i & s2 & bl' & E2 & _ & _ & _ & _ & Z & _).
  exists s, addr, s2. split; [exact B|]. split; [exact E2|]. apply Z. vm_compute. done.
Defined.

(** [free_page_count] returns (its walks of the free lists end) and is the
    number of free pages. *)
Theorem free_page_count_correct (s : PMem) (bl : blocks) :
  Inv s bl → ∃ l, NoDup l ∧ (∀ x, x ∈ l ↔ free_page bl x) ∧ free_page_count s = Some (vlen l).
Proof. apply free_page_count_pages. Qed.

Lemma free_page_count_correct_witness :
  ∃ s bl l, booted 0x81000000 8 s ∧ (∀ x, x ∈ l ↔ free_page bl x) ∧ free_page_count s = Some (vlen l).
Proof.
  destruct (booted_inv 0x81000000 8 eq_refl ltac:(done)) as (s & bl & B & I & _).
  destruct (free_page_count_correct s bl I) as (l & _ & Hl & E). exists s, bl, l. split; [exact B|]. split; [exact Hl|exact E].
Defined.

(** ** Initialisation *)

Lemma all_free_pages s bl x :
  Inv s bl → all_free bl → x < b_real_count (buddy s) → free_page bl x.
Proof.
  intros [_ [fl W]] A Hx. destruct (t_cover _ _ _ (w_tiling _ _ _ _ W) x Hx) as [[]|(i & o & k & Hi & Hin)].
  pose proof (A _ _ _ Hi) as ->. by exists i, o.
Qed.

(** C37: From the static allocator, [init] returns (its fill and carve loops end
    and never recurse below order 0) with the invariant established, with no block
    handed out, and on the base and the page count it was given; without reserved
    ranges every managed page is free. *)
Theorem init_establishes (s : PMem) (base count : N) (reserved : list (N * N)) :
  fresh s → base mod PAGE_SIZE = 0 → count ≤ MAX_PAGES →
  ∃ s' bl, buddy_init base count reserved s = Ret (tt, s') ∧ Inv s' bl ∧ none_used bl ∧
    b_base (buddy s') = base ∧ page_count s' = count ∧
    (reserved = [] → ∀ x, free_page bl x ↔ x < count).
Proof.
  intros Hf Hb Hc. destruct (buddy_init_spec s base count reserved Hf Hb Hc)
    as (s' & bl & E & I & Hn & Ha & Eb & Er).
  exists s', bl. split; [done|]. split; [done|]. split; [done|]. split; [done|]. split; [done|].
  intros -> x. split; [|intros Hx; apply (all_free_pages s'); [done|by apply Ha|lia]].
  intros (h & o & Hh & Hx). destruct I as [_ [fl W]].
  destruct (t_block _ _ _ (w_tiling _ _ _ _ W) _ _ _ Hh) as (_ & _ & Hle).
  unfold in_block in Hx. lia.
Qed.

Lemma init_establishes_witness :
  ∃ s' bl, buddy_init 0x81000000 5000 [] (mkPMem allocator0 ∅) = Ret (tt, s') ∧ Inv s' bl ∧
    free_page bl 4999.
Proof.
  destruct (init_establishes (mkPMem allocator0 ∅) 0x81000000 5000 [] eq_refl eq_refl
    ltac:(vm_compute; discriminate)) as (s' & bl & E & I & _ & _ & _ & F).
  exists s', bl. split; [exact E|]. split; [exact I|]. apply F; [reflexivity|lia].
Defined.

(** The carving of [init] does not reserve: when the reserved ranges are
    pairwise disjoint (as firmware gives them), a page inside a reserved range is
    a free page after [init], because the scan of a block breaks on the containing
    range before it records the overlap.  The comment on [init] says reserved
    blocks are left out of the free lists. *)
Theorem reserved_pages_are_free (s : PMem) (base count : N) (reserved : list (N * N)) (x a b : N) :
  fresh s → base mod PAGE_SIZE = 0 → count ≤ MAX_PAGES → disjoint_ranges reserved →
  (a, b) ∈ reserved → a ≤ x < b → b ≤ count →
  ∃ s' bl, buddy_init base count reserved s = Ret (tt, s') ∧ Inv s' bl ∧ free_page bl x.
Proof.
  intros Hf Hb Hc Hd Hr Hx Hbc. destruct (buddy_init_spec s base count reserved Hf Hb Hc)
    as (s' & bl & E & I & _ & Ha & _ & Er).
  exists s', bl. split; [done|]. split; [done|]. apply (all_free_pages s'); [done|auto|lia].
Qed.

Lemma reserved_pages_are_free_witness :
  ∃ s' bl, buddy_init 0x81000000 64 [(0, 8); (16, 20)] (mkPMem allocator0 ∅) = Ret (tt, s') ∧
    Inv s' bl ∧ free_page bl 17.
Proof.
  apply (reserved_pages_are_free _ _ _ _ 17 16 20);
    [reflexivity|reflexivity|vm_compute; discriminate| |set_solver|lia|lia].
  simpl. repeat split; try constructor; simpl; [|constructor]. lia.
Defined.

(** ** Freeing twice *)

(** A client's sequence of calls; the answers are kept in order. *)
Inductive mem_call := CAlloc (order : nat) | CFree (addr : N).
Inductive mem_answer := AAddr (a : option N) | ARes (r : result () ()).

Fixpoint run_calls (cs : list mem_call) : M PMem (list mem_answer) :=
  match cs with
  | [] => mret []
  | CAlloc o :: cs => r ← alloc_pages o; rs ← run_calls cs; mret (AAddr r :: rs)
  | CFree a :: cs => r ← free_pages a; rs ← run_calls cs; mret (ARes r :: rs)
  end.

(** The answers of a run on a machine with [count] pages from [base]. *)
Definition boot_run (base count : N) (cs : list mem_call) : option (list mem_answer) :=
  match (buddy_init base count [];; run_calls cs) (mkPMem allocator0 ∅) with
  | Ret (rs, _) => Some rs
  | _ => None
  end.

(** A double free is accepted: merging leaves the metadata of the absorbed
    right buddy saying "used", so the second [free_pages] of the same address
    answers [Ok] and the page is put on a free list while it also lies inside a
    free block; the next two allocations overlap.  The comment on [free] says a
    double free is rejected. *)
Theorem double_free_accepted :
  boot_run 0x81000000 2
    [CAlloc 0; CAlloc 0; CFree 0x81000000; CFree 0x81001000; CFree 0x81001000; CAlloc 1; CAlloc 0] =
  Some [AAddr (Some 0x81000000); AAddr (Some 0x81001000); ARes (Ok tt); ARes (Ok tt);
        ARes (Ok tt); AAddr (Some 0x81000000); AAddr (Some 0x81001000)].
Proof. vm_compute. reflexivity. Qed.

(** An interior page of a live allocation can be freed: the same stale
    metadata lets [free_pages] of the second page of a two-page block answer [Ok],
    and the page is handed out again while the block is still in use.  The contract
    of [alloc_pages] says an interior page is rejected. *)
Theorem interior_free_accepted :
  boot_run 0x81000000 2
    [CAlloc 0; CAlloc 0; CFree 0x81000000; CFree 0x81001000; CAlloc 1; CFree 0x81001000; CAlloc 0] =
  Some [AAddr (Some 0x81000000); AAddr (Some 0x81001000); ARes (Ok tt); ARes (Ok tt);
        AAddr (Some 0x81000000); ARes (Ok tt); AAddr (Some 0x81001000)].
Proof. vm_compute. reflexivity. Qed.
