(* ===== verification/PageAlloc.v ===== *)
(** * The interface of the page allocator

    What the clients of kernel/src/mem.rs (page tables, processes, shared pages)
    rely on for single pages: an abstract state with a set of live pages, and the
    laws of [alloc_pages(0)], [free_pages] and of writing one's own pages.  The
    buddy allocator discharges it; the clients' theorems are proved against the
    class. *)

From Stdlib Require Import ZifyN ZifyNat.
From stdpp Require Import base gmap numbers functions list.
From S2P Require Import Prelude Mem Dyadic MemInv MemSpec MemProps.

(** The words of page [a] are the same in both states. *)
Definition keeps (s s' : PMem) (a : N) : Prop :=
  ∀ w, w < 512 → read_word (a + w * 8) (ram s') = read_word (a + w * 8) (ram s).

(** The managed area is the same. *)
Definition same_area (s s' : PMem) : Prop :=
  b_base (buddy s') = b_base (buddy s) ∧ b_real_count (buddy s') = b_real_count (buddy s).

Class PageAllocator (G : Type) := {
  pinv : PMem → G → Prop;
  live : G → N → Prop;
  live_page s g a : pinv s g → live g a → a mod PAGE_SIZE = 0 ∧ page_in_range a s = true;
  alloc_law s g : pinv s g →
    alloc_pages 0 s = Ret (None, s) ∨
    ∃ a s' g', alloc_pages 0 s = Ret (Some a, s') ∧ pinv s' g' ∧ ¬ live g a ∧
      (∀ x, live g' x ↔ live g x ∨ x = a) ∧ same_area s s' ∧ (∀ x, live g x → keeps s s' x);
  free_law s g a : pinv s g → live g a →
    ∃ s' g', free_pages a s = Ret (Ok tt, s') ∧ pinv s' g' ∧
      (∀ x, live g' x ↔ live g x ∧ x ≠ a) ∧ same_area s s' ∧ (∀ x, live g' x → keeps s s' x);
  write_law s g a w v : pinv s g → live g a → w < 512 →
    pinv (set_ram (write_word (a + w * 8) v (ram s)) s) g
}.

Lemma keeps_refl s a : keeps s s a.
Proof. done. Qed.

Lemma keeps_trans s1 s2 s3 a : keeps s1 s2 a → keeps s2 s3 a → keeps s1 s3 a.
Proof. intros H1 H2 w Hw. by rewrite H2, H1. Qed.

Lemma same_area_refl s : same_area s s.
Proof. done. Qed.

Lemma same_area_trans s1 s2 s3 : same_area s1 s2 → same_area s2 s3 → same_area s1 s3.
Proof. unfold same_area. intuition congruence. Qed.

Lemma same_area_in_range s s' a : same_area s s' → page_in_range a s' = page_in_range a s.
Proof. intros [H1 H2]. unfold page_in_range. by rewrite H1, H2. Qed.

#[export] Hint Resolve keeps_refl keeps_trans same_area_refl same_area_trans : pages.

(** Two words of page-aligned pages are the same word only in the same page. *)
Lemma page_word_inj a b i j :
  a mod PAGE_SIZE = 0 → b mod PAGE_SIZE = 0 → i < 512 → j < 512 →
  a + i * 8 = b + j * 8 → a = b ∧ i = j.
Proof. unfold PAGE_SIZE. intros. dlia. Qed.

Lemma keeps_write s a b w v :
  a mod PAGE_SIZE = 0 → b mod PAGE_SIZE = 0 → a ≠ b → w < 512 →
  keeps s (set_ram (write_word (a + w * 8) v (ram s)) s) b.
Proof.
  intros Ha Hb Hne Hw j Hj. simpl. apply read_write_ne. intros E.
  by destruct (page_word_inj a b w j Ha Hb Hw Hj E).
Qed.

(** ** Zeroing a live page *)
Section zero.
Context `{PageAllocator G}.

(** A loop that stores [F w] in word [w] of a live page, for each [w] of [l]. *)
Lemma write_words_live (F : N → N) g a l s :
  pinv s g → live g a → (∀ w, w ∈ l → w < 512) →
  ∃ s', for_each (λ i, modify (λ s, set_ram (write_word (a + i * 8) (F i) (ram s)) s)) l s = Ret (tt, s') ∧
    pinv s' g ∧ same_area s s' ∧
    (∀ w, w ∈ l → read_word (a + w * 8) (ram s') = F w) ∧
    (∀ w, w ∉ l → read_word (a + w * 8) (ram s') = read_word (a + w * 8) (ram s)) ∧
    (∀ x, live g x → x ≠ a → keeps s s' x).
Proof.
  revert s. induction l as [|i l IH]; intros s I Hl Hw.
  { exists s. repeat split; auto with pages. by intros w ?%not_elem_of_nil. }
  cbn [for_each]. rewrite bind_modify.
  set (s1 := set_ram (write_word (a + i * 8) (F i) (ram s)) s).
  assert (pinv s1 g) as I1 by (apply write_law; [done|done|apply Hw; by left]).
  destruct (IH s1 I1 Hl) as (s' & E & I' & A & Z & K & O); [intros w Hx; apply Hw; by right|].
  exists s'. split; [done|]. split; [done|]. split; [done|]. split; [|split].
  - intros w Hx. destruct (decide (w ∈ l)) as [Hin|Hnin]; [auto|].
    apply elem_of_cons in Hx as [->|]; [|done]. rewrite (K _ Hnin). apply read_write_eq.
  - intros w Hx. apply not_elem_of_cons in Hx as [Hne Hx]. rewrite (K _ Hx).
    apply read_write_ne. lia.
  - intros x Hx Hne. apply (keeps_trans _ s1); [|auto].
    apply keeps_write; [by apply (live_page s g)|by apply (live_page s g)|done|].
    apply Hw; by left.
Qed.

Lemma zero_page_live g a s :
  pinv s g → live g a →
  ∃ s', zero_page a s = Ret (tt, s') ∧ pinv s' g ∧ same_area s s' ∧
    (∀ w, w < 512 → read_word (a + w * 8) (ram s') = 0) ∧
    (∀ x, live g x → x ≠ a → keeps s s' x).
Proof.
  intros I Hl. destruct (write_words_live (λ _, 0) g a (nrange 0 512) s I Hl) as (s' & E & I' & A & Z & _ & O).
  { intros w Hw%elem_of_nrange. lia. }
  exists s'. split; [done|]. split; [done|]. split; [done|]. split; [|done].
  intros w Hw. apply Z, elem_of_nrange. lia.
Qed.

(** Allocate a page and zero it: [alloc_pages_zeroed(0)] and the pair of calls
    [alloc_pages(0)], [zero_page]. *)
Record fresh_page (s s' : PMem) (g g' : G) (a : N) : Prop := mkFreshPage {
  fpg_inv : pinv s' g';
  fpg_new : ¬ live g a;
  fpg_live x : live g' x ↔ live g x ∨ x = a;
  fpg_area : same_area s s';
  fpg_zero w : w < 512 → read_word (a + w * 8) (ram s') = 0;
  fpg_keeps x : live g x → keeps s s' x
}.

Lemma alloc_zero_law s g : pinv s g →
  alloc_pages 0 s = Ret (None, s) ∨
  ∃ a s1 s' g', alloc_pages 0 s = Ret (Some a, s1) ∧ zero_page a s1 = Ret (tt, s') ∧
    fresh_page s s' g g' a.
Proof.
  intros I. destruct (alloc_law s g I) as [E|(a & s1 & g' & E & I1 & Hn & Hl & A & K)]; [by left|].
  right. destruct (zero_page_live g' a s1 I1) as (s' & E' & I' & A' & Z & K').
  { apply Hl. by right. }
  exists a, s1, s', g'. split; [done|]. split; [done|]. split; try done.
  - by eapply same_area_trans.
  - intros x Hx. apply (keeps_trans _ s1); [auto|]. apply K'; [apply Hl; by left|].
    by intros ->.
Qed.

Lemma alloc_zeroed_law s g : pinv s g →
  alloc_pages_zeroed 0 s = Ret (None, s) ∨
  ∃ a s' g', alloc_pages_zeroed 0 s = Ret (Some a, s') ∧ fresh_page s s' g g' a.
Proof.
  intros I. unfold alloc_pages_zeroed.
  destruct (alloc_zero_law s g I) as [E|(a & s1 & s' & g' & E & E' & F)].
  - left. by rewrite (bind_ret _ _ _ _ _ E).
  - right. exists a, s', g'. split; [|done]. rewrite (bind_ret _ _ _ _ _ E).
    change (nrange 0 (N.to_nat (bsize 0))) with [0]. cbn [for_each].
    rewrite N.mul_0_l, N.add_0_r. unfold mbind at 1, M_bind at 1.
    by rewrite (bind_ret _ _ _ _ _ E').
Qed.
End zero.

(** ** The buddy allocator is a page allocator *)

Definition buddy_live (g : N * blocks) (a : N) : Prop :=
  ∃ i, a = g.1 + i * PAGE_SIZE ∧ allocated g.2 i 0.

Definition buddy_pinv (s : PMem) (g : N * blocks) : Prop :=
  Inv s g.2 ∧ b_base (buddy s) = g.1.

Lemma allocated_not_free s bl i o x :
  Inv s bl → allocated bl i o → in_block i o x → ¬ free_page bl x.
Proof.
  intros [_ [fl W]] Hi Hx (h & p & Hh & Hx').
  pose proof (t_disj _ _ _ (w_tiling _ _ _ _ W) _ _ _ _ _ _ x Hh Hi Hx' Hx). subst.
  unfold allocated in Hi. by simplify_eq.
Qed.

(** Words of a page that is not one of the framed pages are kept. *)
Lemma frame_keeps P s s' i :
  b_base (buddy s) mod PAGE_SIZE = 0 → frame P s s' → ¬ P i →
  keeps s s' (b_base (buddy s) + i * PAGE_SIZE).
Proof.
  intros Hb F Hi w Hw. unfold read_word. rewrite (f_ram _ _ _ F); [done|].
  intros j Hj E. apply Hi. replace i with j; [done|]. unfold PAGE_SIZE in *. lia.
Qed.

Lemma buddy_write s bl i w v :
  Inv s bl → allocated bl i 0 → w < 512 →
  Inv (set_ram (write_word (b_base (buddy s) + i * PAGE_SIZE + w * 8) v (ram s)) s) bl.
Proof.
  intros I Hi Hw. apply Inv_ram; [done|]. intros j Hj. apply lookup_insert_ne. intros E.
  assert (j = i) as -> by (unfold PAGE_SIZE in *; lia).
  by apply (allocated_not_free s bl i 0 i I Hi (in_block_head i 0)).
Qed.

#[export] Program Instance buddy_page_allocator : PageAllocator (N * blocks) := {|
  pinv := buddy_pinv;
  live := buddy_live
|}.
Next Obligation.
  intros s [base bl] a [[Hb [fl W]] E] (i & -> & Hi). simpl in *. subst.
  destruct (t_block _ _ _ (w_tiling _ _ _ _ W) _ _ _ Hi) as (_ & _ & Hle).
  change (bsize 0) with 1 in Hle. split.
  - apply is_multiple_of_spec, page_aligned. done.
  - unfold page_in_range. apply andb_true_iff.
    rewrite N.leb_le, N.ltb_lt. unfold PAGE_SIZE. lia.
Qed.
Next Obligation.
  intros s [base bl] [I E]. simpl in *. subst.
  destruct (buddy_alloc_cases s bl 0 I ltac:(unfold MAX_ORDER; lia)) as [[E _]|(i & s' & bl' & E & P)];
    [by left|right]. destruct P as [I' Hb Hw Hf Ha F].
  exists (b_base (buddy s) + i * PAGE_SIZE), s', (b_base (buddy s), bl').
  split; [done|]. split; [split; [done|apply F]|]. split; [|split; [|split]].
  - intros (j & Ej & Hj). apply page_addr_inj in Ej as <-.
    apply (allocated_not_free s bl i 0 i I Hj); auto with dyadic.
  - intros x. unfold buddy_live; simpl. setoid_rewrite Ha. naive_solver.
  - split; apply F.
  - intros x (j & -> & Hj). apply (frame_keeps (free_page bl)); [apply I|done|].
    apply (allocated_not_free s bl j 0 j I Hj). auto with dyadic.
Qed.
Next Obligation.
  intros s [base bl] a [I E] (i & -> & Hi). simpl in *. subst.
  destruct (buddy_free_used s bl i 0 I Hi) as (s' & bl' & E & [I' Hf Ha F _]).
  exists s', (b_base (buddy s), bl'). split; [done|]. split; [split; [done|apply F]|].
  assert (∀ x, buddy_live (b_base (buddy s), bl') x ↔
    buddy_live (b_base (buddy s), bl) x ∧ x ≠ b_base (buddy s) + i * PAGE_SIZE) as Hl.
  { intros x. unfold buddy_live; simpl. setoid_rewrite Ha. split.
    - intros (j & -> & Hj & Hne). split; [eauto|]. by intros ?%page_addr_inj.
    - intros [(j & -> & Hj) Hne]. exists j. split; [done|]. split; [done|]. congruence. }
  split; [done|]. split; [split; apply F|].
  intros x (j & -> & [Hj Hne]%Ha). simpl in *. apply (frame_keeps _ _ _ _ ltac:(apply I) F).
  intros [Hfr|Hin]; [by apply (allocated_not_free s bl j 0 j I Hj); auto with dyadic|].
  unfold in_block in Hin. change (bsize 0) with 1 in Hin. lia.
Qed.
Next Obligation.
  intros s [base bl] a w v [I E] (i & -> & Hi) Hw. simpl in *. subst.
  split; [by apply buddy_write|done].
Qed.
