(* ===== verification/Mmu.v ===== *)
(** * Sv39 page tables: kernel/src/mmu.rs

    The tables live in the RAM of [Mem.PMem]; an entry is the 64-bit word the code
    reads and writes.  The TLB is not modelled: the [sfence.vma] that follows an
    update has no effect on the tables. *)

From Stdlib Require Import ZifyN ZifyNat.
From stdpp Require Import base gmap numbers functions list.
From S2P Require Import Prelude Mem.

Definition PTE_V : N := N.shiftl 1 0.
Definition PTE_R : N := N.shiftl 1 1.
Definition PTE_W : N := N.shiftl 1 2.
Definition PTE_X : N := N.shiftl 1 3.
Definition PTE_U : N := N.shiftl 1 4.
Definition PTE_A : N := N.shiftl 1 6.
Definition PTE_D : N := N.shiftl 1 7.
Definition PTE_PPN_SHIFT : N := 10.
Definition PTE_PPN_MASK : N := N.shiftl 1 44 - 1.
Definition PTE_RWX : N := N.lor (N.lor PTE_R PTE_W) PTE_X.

Definition SUPER_PAGE : N := 2 * 1024 * 1024.
Definition USER_VA_LIMIT : N := N.shiftl 1 38.

Definition PTE_LEAF_RW : N := N.lor (N.lor (N.lor (N.lor PTE_V PTE_R) PTE_W) PTE_A) PTE_D.
Definition PTE_LEAF_RX : N := N.lor (N.lor (N.lor (N.lor PTE_V PTE_R) PTE_X) PTE_A) PTE_D.
Definition PTE_LEAF_R : N := N.lor (N.lor (N.lor PTE_V PTE_R) PTE_A) PTE_D.

(** [ppn] and [pte]. *)
Definition ppn (paddr : N) : N := N.land (N.shiftr paddr 12) PTE_PPN_MASK.
Definition pte (paddr flags : N) : N := N.lor (N.shiftl (ppn paddr) PTE_PPN_SHIFT) flags.

(** [(((entry >> PTE_PPN_SHIFT) & PTE_PPN_MASK) << 12)]. *)
Definition pte_addr (entry : N) : N :=
  N.shiftl (N.land (N.shiftr entry PTE_PPN_SHIFT) PTE_PPN_MASK) 12.
(** [entry & PTE_V != 0] and [entry & (PTE_R | PTE_W | PTE_X) != 0]. *)
Definition pte_valid (entry : N) : bool := negb (N.land entry PTE_V =? 0).
Definition pte_leaf (entry : N) : bool := negb (N.land entry PTE_RWX =? 0).
Definition pte_user (entry : N) : bool := negb (N.land entry PTE_U =? 0).

(** [(vaddr >> 30) & 0x1FF], [(vaddr >> 21) & 0x1FF], [(vaddr >> 12) & 0x1FF]. *)
Definition ix2 (va : N) : N := N.land (N.shiftr va 30) 0x1FF.
Definition ix1 (va : N) : N := N.land (N.shiftr va 21) 0x1FF.
Definition ix0 (va : N) : N := N.land (N.shiftr va 12) 0x1FF.

(** [pte_read] and [pte_write]. *)
Definition pte_at (s : PMem) (table idx : N) : N := read_word (table + idx * 8) (ram s).
Definition pte_read (table idx : N) : M PMem N := gets (λ s, pte_at s table idx).
Definition pte_write (table idx value : N) : M PMem () :=
  modify (λ s, set_ram (write_word (table + idx * 8) value (ram s)) s).

(** [ensure_table]. *)
Definition ensure_table (parent idx : N) : M PMem (result N ()) :=
  entry ← pte_read parent idx;
  if pte_valid entry then
    if pte_leaf entry then mret (Err tt) else mret (Ok (pte_addr entry))
  else
    page ←? ok_or (alloc_pages 0) tt;
    zero_page page;;
    pte_write parent idx (pte page PTE_V);;
    mret (Ok page).

(** [ensure_table_user]. *)
Definition ensure_table_user (parent idx : N) : M PMem (result N ()) :=
  entry ← pte_read parent idx;
  if pte_valid entry then
    if pte_leaf entry then mret (Err tt) else mret (Ok (pte_addr entry))
  else
    page ←? ok_or (alloc_pages_zeroed 0) tt;
    pte_write parent idx (pte page PTE_V);;
    mret (Ok page).

(** [map_4k]. *)
Definition map_4k (root vaddr paddr flags : N) : M PMem (result () ()) :=
  l1_t ←? ensure_table root (ix2 vaddr);
  l0_t ←? ensure_table l1_t (ix1 vaddr);
  pte_write l0_t (ix0 vaddr) (pte paddr flags);;
  mret (Ok tt).

(** [map_user_page]. *)
Definition map_user_page (root vaddr paddr flags : N) : M PMem (result () ()) :=
  if USER_VA_LIMIT <=? vaddr then mret (Err tt)
  else if negb (is_multiple_of paddr 4096) then mret (Err tt)
  else
    in_range ← gets (page_in_range paddr);
    if negb in_range then mret (Err tt)
    else
      l1_t ←? ensure_table_user root (ix2 vaddr);
      l0_t ←? ensure_table_user l1_t (ix1 vaddr);
      entry ← pte_read l0_t (ix0 vaddr);
      if pte_valid entry then mret (Err tt)
      else
        pte_write l0_t (ix0 vaddr) (pte paddr (N.lor flags PTE_U));;
        mret (Ok tt).

(** [map_device_page]. *)
Definition map_device_page (root vaddr paddr flags : N) : M PMem (result () ()) :=
  if (USER_VA_LIMIT <=? vaddr) || negb (is_multiple_of paddr 4096) then mret (Err tt)
  else
    l1_t ←? ensure_table_user root (ix2 vaddr);
    l0_t ←? ensure_table_user l1_t (ix1 vaddr);
    entry ← pte_read l0_t (ix0 vaddr);
    if pte_valid entry then mret (Err tt)
    else
      pte_write l0_t (ix0 vaddr) (pte paddr (N.lor flags PTE_U));;
      mret (Ok tt).

(** [map_super]. *)
Definition map_super (root vaddr paddr flags : N) : M PMem (result () ()) :=
  l1_t ←? ensure_table root (ix2 vaddr);
  pte_write l1_t (ix1 vaddr) (pte paddr flags);;
  mret (Ok tt).

(** [leaf_pte] and [is_mapped]: pure reads of the tables. *)
Definition leaf_pte (root vaddr : N) (s : PMem) : N :=
  let e2 := pte_at s root (ix2 vaddr) in
  if negb (pte_valid e2) then 0
  else if pte_leaf e2 then e2
  else
    let e1 := pte_at s (pte_addr e2) (ix1 vaddr) in
    if negb (pte_valid e1) then 0
    else if pte_leaf e1 then e1
    else
      let e0 := pte_at s (pte_addr e1) (ix0 vaddr) in
      if negb (pte_valid e0) then 0 else e0.

Definition is_mapped (root vaddr : N) (s : PMem) : bool := pte_valid (leaf_pte root vaddr s).

(** [unmap_4k]. *)
Definition unmap_4k (root vaddr : N) : M PMem (result () ()) :=
  leaf ← gets (leaf_pte root vaddr);
  if leaf =? 0 then mret (Ok tt)
  else
    l1_t ←? ensure_table root (ix2 vaddr);
    l0_t ←? ensure_table l1_t (ix1 vaddr);
    pte_write l0_t (ix0 vaddr) 0;;
    mret (Ok tt).

(** [split_superpage]. *)
Definition split_superpage (root vaddr : N) : M PMem (result () ()) :=
  l1_t ←? ensure_table root (ix2 vaddr);
  entry ← pte_read l1_t (ix1 vaddr);
  if negb (pte_valid entry) then mret (Err tt)
  else if negb (pte_leaf entry) then mret (Ok tt)
  else
    sub ←? ok_or (alloc_pages 0) tt;
    zero_page sub;;
    let flags := N.ldiff entry (N.shiftl PTE_PPN_MASK PTE_PPN_SHIFT) in
    let base_pa := pte_addr entry in
    for_each (λ i, pte_write sub i (pte (base_pa + i * 4096) flags)) (nrange 0 512);;
    pte_write l1_t (ix1 vaddr) (pte sub PTE_V);;
    mret (Ok tt).

(** [unmap_kernel_4k], [map_kernel_4k], [remap_kernel_4k]. *)
Definition unmap_kernel_4k (root vaddr : N) : M PMem (result () ()) :=
  split_superpage root vaddr;;? unmap_4k root vaddr.

Definition map_kernel_4k (root vaddr paddr flags : N) : M PMem (result () ()) :=
  split_superpage root vaddr;;? map_4k root vaddr paddr flags.

Definition remap_kernel_4k (root vaddr : N) : M PMem (result () ()) :=
  map_kernel_4k root vaddr vaddr PTE_LEAF_RW;;? mret (Ok tt).

(** The loop of [map_region_4k]; [fuel] is the number of pages left. *)
Fixpoint map_pages_4k (fuel : nat) (root vaddr end_ flags : N) : M PMem () :=
  if vaddr <? end_ then
    match fuel with
    | O => timeout
    | S fuel =>
        expect_ok (map_4k root vaddr vaddr flags);;
        map_pages_4k fuel root (vaddr + 4096) end_ flags
    end
  else mret tt.

(** [map_region_4k]. *)
Definition map_region_4k (root start end_ flags : N) : M PMem () :=
  assert_ (is_multiple_of start 4096);;
  assert_ (is_multiple_of end_ 4096);;
  map_pages_4k (N.to_nat (div_ceil (end_ - start) 4096)) root start end_ flags.

(** The superpage loops of [map_kernel_region]. *)
Fixpoint map_supers (fuel : nat) (root vaddr end_ flags : N) : M PMem () :=
  if vaddr <? end_ then
    match fuel with
    | O => timeout
    | S fuel =>
        expect_ok (map_super root vaddr vaddr flags);;
        map_supers fuel root (vaddr + SUPER_PAGE) end_ flags
    end
  else mret tt.

Definition map_super_range (root start end_ flags : N) : M PMem () :=
  map_supers (N.to_nat (div_ceil (end_ - start) SUPER_PAGE)) root start end_ flags.

(** [arch::TRAP_STRIDE], [arch::TRAP_GUARD]. *)
Definition TRAP_STRIDE : N := 32 * 1024.
Definition TRAP_GUARD : N := 16 * 1024.

(** The slots [base, base + stride, ..] below [top], and the pages of the guard of
    a slot: the index sets of the two loops of [unmap_guard_pages]. *)
Definition guard_slots (base top : N) : list N :=
  (λ k, base + k * TRAP_STRIDE) <$> nrange 0 (N.to_nat (div_ceil (top - base) TRAP_STRIDE)).
Definition guard_pages (slot : N) : list N :=
  (λ k, slot + k * 4096) <$> nrange 0 (N.to_nat (div_ceil TRAP_GUARD 4096)).

(** [unmap_guard_pages]. *)
Definition unmap_guard_pages (root base top : N) : M PMem () :=
  for_each (λ slot,
    for_each (λ page, expect_ok (unmap_4k root page)) (guard_pages slot)) (guard_slots base top).

(** The linker symbols and board addresses [map_kernel_region] reads. *)
Record Layout := mkLayout {
  ly_ram_start : N; ly_ram_end : N;
  ly_kernel_start : N; ly_text_start : N; ly_rodata_start : N; ly_data_start : N;
  ly_kernel_end : N;
  ly_stack_guard : N;
  ly_trap_base : N; ly_trap_top : N; ly_idle_base : N; ly_idle_top : N;
  ly_uart_base : N
}.

(** [usize::next_multiple_of]. *)
Definition next_multiple_of (a b : N) : N := div_ceil a b * b.

(** [map_kernel_region]. *)
Definition map_kernel_region (ly : Layout) (root : N) : M PMem () :=
  assert_ (is_multiple_of (ly_ram_start ly) SUPER_PAGE);;
  assert_ (is_multiple_of (ly_ram_end ly) SUPER_PAGE);;
  map_super_range root (ly_ram_start ly) (ly_kernel_start ly) PTE_LEAF_R;;
  map_region_4k root (ly_kernel_start ly) (ly_text_start ly) PTE_LEAF_RW;;
  map_region_4k root (ly_text_start ly) (ly_rodata_start ly) PTE_LEAF_RX;;
  map_region_4k root (ly_rodata_start ly) (ly_data_start ly) PTE_LEAF_R;;
  map_region_4k root (ly_data_start ly) (ly_kernel_end ly) PTE_LEAF_RW;;
  (let kernel_super_end := next_multiple_of (ly_kernel_end ly) SUPER_PAGE in
   (if ly_kernel_end ly <? kernel_super_end
    then map_region_4k root (ly_kernel_end ly) kernel_super_end PTE_LEAF_RW
    else mret tt);;
   map_super_range root kernel_super_end (ly_ram_end ly) PTE_LEAF_RW);;
  expect_ok (unmap_4k root (ly_stack_guard ly));;
  unmap_guard_pages root (ly_trap_base ly) (ly_trap_top ly);;
  unmap_guard_pages root (ly_idle_base ly) (ly_idle_top ly);;
  expect_ok (map_4k root (ly_uart_base ly) (ly_uart_base ly) PTE_LEAF_RW).

(** [create_user_root]. *)
Definition create_user_root (ly : Layout) : M PMem (result N ()) :=
  root ←? ok_or (alloc_pages 0) tt;
  zero_page root;;
  map_kernel_region ly root;;
  mret (Ok root).

(** The three loops of [destroy_root]. *)
Definition destroy_leaf (l0_t l0 : N) : M PMem () :=
  e0 ← pte_read l0_t l0;
  if negb (pte_valid e0) then mret tt
  else if pte_user e0 then
    in_range ← gets (page_in_range (pte_addr e0));
    if in_range : bool then expect_ok (free_pages (pte_addr e0)) else mret tt
  else mret tt.

Definition destroy_l1_entry (l1_t l1 : N) : M PMem () :=
  e1 ← pte_read l1_t l1;
  if negb (pte_valid e1) then mret tt
  else if pte_leaf e1 then mret tt
  else
    for_each (destroy_leaf (pte_addr e1)) (nrange 0 512);;
    expect_ok (free_pages (pte_addr e1)).

Definition destroy_l2_entry (root l2 : N) : M PMem () :=
  e2 ← pte_read root l2;
  if negb (pte_valid e2) then mret tt
  else if pte_leaf e2 then mret tt
  else
    for_each (destroy_l1_entry (pte_addr e2)) (nrange 0 512);;
    expect_ok (free_pages (pte_addr e2)).

(** [destroy_root]. *)
Definition destroy_root (root : N) : M PMem () :=
  for_each (destroy_l2_entry root) (nrange 0 512);;
  expect_ok (free_pages root).
