(* ===== verification/Pte.v ===== *)
(** * Page-table entries and table indices

    The bit-level facts about the entries of kernel/src/mmu.rs: an entry holds the
    page number above its ten flag bits, the two do not interfere, and three nine
    bit indices determine a page of the 39-bit address space. *)

From Stdlib Require Import ZifyN ZifyNat.
From stdpp Require Import base gmap numbers functions list.
From S2P Require Import Prelude Mem Mmu.

(** Physical addresses an entry can hold. *)
Definition PHYS_LIMIT : N := 2 ^ 56.

Lemma testbit_above a n m : a < 2 ^ n → n ≤ m → N.testbit a m = false.
Proof.
  intros Ha Hm. destruct (decide (a = 0)) as [->|]; [apply N.bits_0|].
  apply N.bits_above_log2. apply N.log2_lt_pow2; [lia|].
  eapply N.lt_le_trans; [exact Ha|]. apply N.pow_le_mono_r; lia.
Qed.

Lemma ppn_div p : p < PHYS_LIMIT → ppn p = p / 4096.
Proof.
  intros Hp. unfold ppn. change PTE_PPN_MASK with (N.ones 44).
  rewrite N.land_ones, N.shiftr_div_pow2. apply N.mod_small.
  unfold PHYS_LIMIT in Hp. change (2 ^ 12) with 4096. dlia.
Qed.

(** An entry as a number: page number times 1024 plus the flags. *)
Lemma pte_value p f : p < PHYS_LIMIT → f < 1024 → pte p f = p / 4096 * 1024 + f.
Proof.
  intros Hp Hf. unfold pte. rewrite ppn_div by done. unfold PTE_PPN_SHIFT.
  rewrite N.shiftl_mul_pow2. change (2 ^ 10) with 1024.
  rewrite <-N.lxor_lor, <-N.add_nocarry_lxor; [done| |];
    apply N.bits_inj; intros n; rewrite N.land_spec, N.bits_0; change 1024 with (2 ^ 10) in *;
    (destruct (decide (n < 10)) as [Hn|Hn];
     [rewrite N.mul_pow2_bits_low by done; done
     |rewrite (testbit_above f 10) by (done || lia); apply andb_false_r]).
Qed.

(** The flag tests see the flags only. *)
Lemma pte_flags p f m : p < PHYS_LIMIT → f < 1024 → m < 1024 → N.land (pte p f) m = N.land f m.
Proof.
  intros Hp Hf Hm. rewrite pte_value by done. apply N.bits_inj. intros n. rewrite !N.land_spec.
  destruct (decide (n < 10)) as [Hn|Hn].
  - f_equal. rewrite <-(N.mod_pow2_bits_low _ 10) by done. change (2 ^ 10) with 1024.
    rewrite N.add_comm, N.Div0.mod_add, N.mod_small by done. done.
  - rewrite (testbit_above m 10) by (done || lia). by rewrite !andb_false_r.
Qed.

(** Round trip of the address through an entry. *)
Lemma pte_addr_pte p f :
  p < PHYS_LIMIT → p mod 4096 = 0 → f < 1024 → pte_addr (pte p f) = p.
Proof.
  intros Hp Ha Hf. unfold pte_addr. rewrite pte_value by done.
  rewrite N.shiftr_div_pow2, N.shiftl_mul_pow2. unfold PTE_PPN_SHIFT.
  change PTE_PPN_MASK with (N.ones 44). rewrite N.land_ones.
  change (2 ^ 10) with 1024. change (2 ^ 12) with 4096. change (2 ^ 44) with 17592186044416.
  unfold PHYS_LIMIT in Hp. rewrite N.div_add_l by lia. rewrite (N.div_small f) by done.
  rewrite N.add_0_r, N.mod_small by dlia. dlia.
Qed.

Lemma pte_valid_pte p f : p < PHYS_LIMIT → f < 1024 → pte_valid (pte p f) = pte_valid f.
Proof. intros. unfold pte_valid. by rewrite pte_flags. Qed.

Lemma pte_leaf_pte p f : p < PHYS_LIMIT → f < 1024 → pte_leaf (pte p f) = pte_leaf f.
Proof. intros. unfold pte_leaf. by rewrite pte_flags. Qed.

Lemma pte_user_pte p f : p < PHYS_LIMIT → f < 1024 → pte_user (pte p f) = pte_user f.
Proof. intros. unfold pte_user. by rewrite pte_flags. Qed.

Lemma lor_small a b n : a < 2 ^ n → b < 2 ^ n → N.lor a b < 2 ^ n.
Proof.
  intros Ha Hb. destruct (decide (N.lor a b = 0)) as [->|]; [lia|].
  apply N.log2_lt_pow2; [lia|]. rewrite N.log2_lor.
  apply N.max_lub_lt; (destruct (decide (a = 0)) as [->|]; destruct (decide (b = 0)) as [->|];
    try (by exfalso); simpl; try (apply N.log2_lt_pow2; lia)).
  all: destruct n; [simpl in *; lia|lia].
Qed.

Lemma pte_valid_lor a b : pte_valid (N.lor a b) = pte_valid a || pte_valid b.
Proof.
  unfold pte_valid. rewrite N.land_lor_distr_l, <-negb_andb. f_equal.
  apply Bool.eq_true_iff_eq. rewrite andb_true_iff, !N.eqb_eq. apply N.lor_eq_0_iff.
Qed.

Lemma pte_user_lor a b : pte_user (N.lor a b) = pte_user a || pte_user b.
Proof.
  unfold pte_user. rewrite N.land_lor_distr_l, <-negb_andb. f_equal.
  apply Bool.eq_true_iff_eq. rewrite andb_true_iff, !N.eqb_eq. apply N.lor_eq_0_iff.
Qed.

Lemma pte_valid_0 : pte_valid 0 = false.
Proof. done. Qed.

(** ** Indices *)

Lemma ix2_val va : ix2 va = va / 2 ^ 30 mod 512.
Proof. unfold ix2. change 0x1FF with (N.ones 9). by rewrite N.land_ones, N.shiftr_div_pow2. Qed.
Lemma ix1_val va : ix1 va = va / 2 ^ 21 mod 512.
Proof. unfold ix1. change 0x1FF with (N.ones 9). by rewrite N.land_ones, N.shiftr_div_pow2. Qed.
Lemma ix0_val va : ix0 va = va / 2 ^ 12 mod 512.
Proof. unfold ix0. change 0x1FF with (N.ones 9). by rewrite N.land_ones, N.shiftr_div_pow2. Qed.

Lemma ix2_lt va : ix2 va < 512.
Proof. rewrite ix2_val. dlia. Qed.
Lemma ix1_lt va : ix1 va < 512.
Proof. rewrite ix1_val. dlia. Qed.
Lemma ix0_lt va : ix0 va < 512.
Proof. rewrite ix0_val. dlia. Qed.
#[export] Hint Resolve ix2_lt ix1_lt ix0_lt : pages.

(** Two addresses select the same page-table slot. *)
Definition same_slot (va vb : N) : Prop := ix2 va = ix2 vb ∧ ix1 va = ix1 vb ∧ ix0 va = ix0 vb.
(** ... the same slot of the middle level. *)
Definition same_super (va vb : N) : Prop := ix2 va = ix2 vb ∧ ix1 va = ix1 vb.

#[global] Instance same_slot_dec va vb : Decision (same_slot va vb).
Proof. unfold same_slot. apply _. Defined.
#[global] Instance same_super_dec va vb : Decision (same_super va vb).
Proof. unfold same_super. apply _. Defined.

#[global] Typeclasses Opaque same_slot same_super.

(** In the 39-bit space the indices determine the page. *)
Lemma same_slot_page va vb :
  va < 2 ^ 39 → vb < 2 ^ 39 → same_slot va vb ↔ va / 4096 = vb / 4096.
Proof.
  unfold same_slot. rewrite !ix2_val, !ix1_val, !ix0_val.
  change (2 ^ 39) with 549755813888. change (2 ^ 30) with 1073741824.
  change (2 ^ 21) with 2097152. change (2 ^ 12) with 4096. intros. split; [|intros; dlia].
  intros (? & ? & ?). dlia.
Qed.

Lemma same_super_page va vb :
  va < 2 ^ 39 → vb < 2 ^ 39 → same_super va vb ↔ va / SUPER_PAGE = vb / SUPER_PAGE.
Proof.
  unfold same_super. rewrite !ix2_val, !ix1_val. unfold SUPER_PAGE.
  change (2 * 1024 * 1024) with 2097152.
  change (2 ^ 39) with 549755813888. change (2 ^ 30) with 1073741824.
  change (2 ^ 21) with 2097152. intros. split; [|intros; dlia].
  intros (? & ?). dlia.
Qed.
