(* ===== verification/MmuTree.v ===== *)
(** * The page-table tree

    The tables reachable from a root form a tree of live pages without sharing;
    that is what makes an update of one slot invisible at every other address. *)

From Stdlib Require Import ZifyN ZifyNat.
From stdpp Require Import base gmap numbers functions list.
From S2P Require Import Prelude Mem MemInv PageAlloc Mmu Pte.

(** The table an entry points to. *)
Definition entry_table (e : N) : option N :=
  if pte_valid e && negb (pte_leaf e) then Some (pte_addr e) else None.

(** Positions of tables below a root. *)
Inductive path := PRoot | PL1 (i2 : N) | PL0 (i2 i1 : N).

#[global] Instance path_eq_dec : EqDecision path.
Proof. solve_decision. Defined.

Definition path_ok (p : path) : Prop :=
  match p with
  | PRoot => True
  | PL1 i2 => i2 < 512
  | PL0 i2 i1 => i2 < 512 ∧ i1 < 512
  end.

Definition tbl (s : PMem) (root : N) (p : path) : option N :=
  match p with
  | PRoot => Some root
  | PL1 i2 => entry_table (pte_at s root i2)
  | PL0 i2 i1 => t ← entry_table (pte_at s root i2); entry_table (pte_at s t i1)
  end.

(** The walk of an address: the level it ends at and the valid entry there. *)
Definition walk_of (level : N) (e : N) : option (N * N) :=
  if pte_valid e then Some (level, e) else None.

Definition walk (root va : N) (s : PMem) : option (N * N) :=
  match tbl s root (PL1 (ix2 va)) with
  | None => walk_of 2 (pte_at s root (ix2 va))
  | Some t1 =>
      match entry_table (pte_at s t1 (ix1 va)) with
      | None => walk_of 1 (pte_at s t1 (ix1 va))
      | Some t0 => walk_of 0 (pte_at s t0 (ix0 va))
      end
  end.

Lemma walk_tbl s root va :
  walk root va s =
  match tbl s root (PL1 (ix2 va)) with
  | None => walk_of 2 (pte_at s root (ix2 va))
  | Some t1 =>
      match entry_table (pte_at s t1 (ix1 va)) with
      | None => walk_of 1 (pte_at s t1 (ix1 va))
      | Some t0 => walk_of 0 (pte_at s t0 (ix0 va))
      end
  end.
Proof. done. Qed.

(** [leaf_pte] is the entry of the walk, and 0 where the walk ends nowhere. *)
Lemma leaf_pte_walk s root va : leaf_pte root va s = from_option snd 0 (walk root va s).
Proof.
  unfold leaf_pte, walk, tbl, entry_table, walk_of.
  destruct (pte_valid (pte_at s root _)) eqn:E2; simpl; [|done].
  destruct (pte_leaf (pte_at s root _)) eqn:L2; simpl; [done|].
  destruct (pte_valid (pte_at s (pte_addr _) (ix1 va))) eqn:E1; simpl; [|done].
  destruct (pte_leaf (pte_at s (pte_addr _) (ix1 va))) eqn:L1; simpl; [done|].
  by destruct (pte_valid (pte_at s (pte_addr _) (ix0 va))) eqn:E0.
Qed.

Lemma walk_valid s root va l e : walk root va s = Some (l, e) → pte_valid e = true.
Proof. unfold walk, walk_of. intros H. repeat case_match; by simplify_eq. Qed.

Lemma is_mapped_walk s root va : is_mapped root va s = true ↔ is_Some (walk root va s).
Proof.
  unfold is_mapped. rewrite leaf_pte_walk. destruct (walk root va s) as [[l e]|] eqn:E; simpl.
  - apply walk_valid in E. by rewrite E, is_Some_alt.
  - split; [done|by intros []].
Qed.

Section tree.
Context `{PageAllocator G}.

Record pt_wf (g : G) (s : PMem) (root : N) : Prop := mkPtWf {
  pt_pinv : pinv s g;
  pt_live p a : path_ok p → tbl s root p = Some a → live g a;
  pt_inj p q a : path_ok p → path_ok q → tbl s root p = Some a → tbl s root q = Some a → p = q;
  pt_phys : b_base (buddy s) + b_real_count (buddy s) * PAGE_SIZE ≤ PHYS_LIMIT
}.

Lemma live_phys g s a :
  pinv s g → live g a → b_base (buddy s) + b_real_count (buddy s) * PAGE_SIZE ≤ PHYS_LIMIT →
  a mod 4096 = 0 ∧ a < PHYS_LIMIT.
Proof.
  intros I Hl Hp. destruct (live_page s g a I Hl) as [Ha Hr]. split; [done|].
  unfold page_in_range in Hr. bool_to_prop. lia.
Qed.

Lemma pt_table_aligned g s root p a :
  pt_wf g s root → path_ok p → tbl s root p = Some a → a mod PAGE_SIZE = 0.
Proof.
  intros W Hp Ht. apply (live_page s g); [apply W|]. by apply (pt_live _ _ _ W p).
Qed.

(** ** Changes that leave the tables alone *)

Lemma tbl_ext g s s' root :
  pt_wf g s root →
  (∀ p a, path_ok p → tbl s root p = Some a → keeps s s' a) →
  ∀ p, path_ok p → tbl s' root p = tbl s root p.
Proof.
  intros W K [|i2|i2 i1] Hp; simpl in *; [done|..].
  - unfold pte_at. by rewrite (K PRoot root I eq_refl i2).
  - destruct Hp as [H2 H1]. pose proof (K PRoot root I eq_refl i2 H2) as K2.
    unfold pte_at in *. rewrite K2. destruct (entry_table _) as [t|] eqn:E; simpl; [|done].
    by rewrite (K (PL1 i2) t H2 E i1 H1).
Qed.

Lemma walk_ext g s s' root va :
  pt_wf g s root →
  (∀ p a, path_ok p → tbl s root p = Some a → keeps s s' a) →
  walk root va s' = walk root va s.
Proof.
  intros W K. pose proof (tbl_ext g s s' root W K) as T. rewrite !walk_tbl.
  rewrite (T (PL1 (ix2 va))) by (simpl; auto with pages).
  destruct (tbl s root (PL1 (ix2 va))) as [t1|] eqn:E1.
  - pose proof (K (PL1 (ix2 va)) t1 (ix2_lt va) E1 _ (ix1_lt va)) as K1.
    unfold pte_at in *. rewrite K1. destruct (entry_table (read_word _ _)) as [t0|] eqn:E0; [|done].
    f_equal. apply (K (PL0 (ix2 va) (ix1 va)) t0); [simpl; auto with pages| |auto with pages].
    simpl. unfold tbl in E1. by rewrite E1.
  - f_equal. apply (K PRoot root I eq_refl). auto with pages.
Qed.

(** The invariant of one space survives what happens to other pages. *)
Lemma pt_wf_ext g g' s s' root :
  pt_wf g s root → pinv s' g' → (∀ x, live g x → live g' x) → same_area s s' →
  (∀ p a, path_ok p → tbl s root p = Some a → keeps s s' a) →
  pt_wf g' s' root.
Proof.
  intros W I' L A K. pose proof (tbl_ext g s s' root W K) as T. split; [done|..].
  - intros p a Hp. rewrite T by done. intros. apply L. by apply (pt_live _ _ _ W p).
  - intros p q a Hp Hq. rewrite !T by done. apply (pt_inj _ _ _ W); done.
  - destruct A as [-> ->]. apply W.
Qed.

(** ** Writing one slot of a table *)

Lemma pte_at_write s t i v a j :
  t mod PAGE_SIZE = 0 → a mod PAGE_SIZE = 0 → i < 512 → j < 512 →
  pte_at (set_ram (write_word (t + i * 8) v (ram s)) s) a j =
    if decide (a = t ∧ j = i) then v else pte_at s a j.
Proof.
  intros Ht Ha Hi Hj. unfold pte_at; simpl. case_decide as E.
  - destruct E as [-> ->]. apply read_write_eq.
  - apply read_write_ne. intros E'. apply E.
    destruct (page_word_inj t a i j Ht Ha Hi Hj E') as [-> ->]. done.
Qed.

(** What an operation on the tables of [root] leaves alone: the pages that were
    live and are not tables of [root]. *)
Record pt_step (g g' : G) (s s' : PMem) (root : N) : Prop := mkPtStep {
  ps_wf : pt_wf g' s' root;
  ps_live x : live g x → live g' x;
  ps_area : same_area s s';
  ps_new p a : path_ok p → tbl s' root p = Some a →
    (∃ q, path_ok q ∧ tbl s root q = Some a) ∨ ¬ live g a;
  ps_keeps x : live g x → (∀ q, path_ok q → tbl s root q ≠ Some x) → keeps s s' x
}.

Lemma pt_step_refl g s root : pt_wf g s root → pt_step g g s s root.
Proof. intros W. split; auto with pages. intros p a Hp Ht. left. eauto. Qed.

Lemma pt_step_trans g1 g2 g3 s1 s2 s3 root :
  pt_step g1 g2 s1 s2 root → pt_step g2 g3 s2 s3 root → pt_step g1 g3 s1 s3 root.
Proof.
  intros [W1 L1 A1 N1 K1] [W2 L2 A2 N2 K2]. split; [done|by auto|by eapply same_area_trans|..].
  - intros p a Hp Ht. destruct (N2 p a Hp Ht) as [(q & Hq & Ht')|Hn]; [eauto|].
    right. intros Hl. auto.
  - intros x Hx Hq. apply (keeps_trans _ s2); [auto|]. apply K2; [auto|].
    intros q Hqo Ht. destruct (N1 q x Hqo Ht) as [(r & Hr & Ht')|Hn]; [|done].
    by apply (Hq r).
Qed.

Section slot_write.
Context (g : G) (s : PMem) (root : N) (W : pt_wf g s root).
Context (p : path) (t i v : N) (Hp : path_ok p) (Ht : tbl s root p = Some t) (Hi : i < 512).
Let s' := set_ram (write_word (t + i * 8) v (ram s)) s.

Lemma slot_pinv : pinv s' g.
Proof. apply write_law; [apply W| |done]. by apply (pt_live _ _ _ W p). Qed.

(** Entries of the tables after the write. *)
Lemma slot_entry q a j :
  path_ok q → tbl s root q = Some a → j < 512 →
  pte_at s' a j = if decide (q = p ∧ j = i) then v else pte_at s a j.
Proof.
  intros Hq Ha Hj. unfold s'. rewrite pte_at_write;
    [|exact (pt_table_aligned g s root p t W Hp Ht)|exact (pt_table_aligned g s root q a W Hq Ha)|done|done].
  destruct (decide (a = t ∧ j = i)) as [[E1 E2]|Hn], (decide (q = p ∧ j = i)) as [[E3 E4]|Hn'];
    try done.
  - destruct Hn'. split; [|done]. subst a. by apply (pt_inj _ _ _ W q p t).
  - destruct Hn. split; [congruence|done].
Qed.

Lemma slot_keeps x :
  live g x → (∀ q, path_ok q → tbl s root q ≠ Some x) → keeps s s' x.
Proof.
  intros Hx Hq. apply keeps_write; [exact (pt_table_aligned g s root p t W Hp Ht)|by apply (live_page s g); [apply W|]| |done].
  intros <-. by apply (Hq p).
Qed.
End slot_write.
(** *** A slot of a last-level table *)
Section l0_write.
Context (g : G) (s : PMem) (root : N) (W : pt_wf g s root).
Context (i2 i1 t i v : N) (H2 : i2 < 512) (H1 : i1 < 512) (Hi : i < 512).
Context (Ht : tbl s root (PL0 i2 i1) = Some t).
Let s' := set_ram (write_word (t + i * 8) v (ram s)) s.

Lemma l0_entry q a j :
  path_ok q → tbl s root q = Some a → j < 512 →
  pte_at s' a j = if decide (q = PL0 i2 i1 ∧ j = i) then v else pte_at s a j.
Proof. by apply slot_entry with (g := g). Qed.

Lemma l0_write_tbl q : path_ok q → tbl s' root q = tbl s root q.
Proof.
  intros Hq. destruct q as [|j|j k]; simpl in *; [done|..].
  - by rewrite (l0_entry PRoot root j).
  - destruct Hq as [Hj Hk]. rewrite (l0_entry PRoot root j) by done. simpl.
    destruct (entry_table (pte_at s root j)) as [t1|] eqn:E; simpl; [|done].
    by rewrite (l0_entry (PL1 j) t1 k).
Qed.

Lemma l0_write_walk va :
  walk root va s' =
  if decide (ix2 va = i2 ∧ ix1 va = i1 ∧ ix0 va = i) then walk_of 0 v else walk root va s.
Proof.
  rewrite !walk_tbl, (l0_write_tbl (PL1 (ix2 va))) by (simpl; auto with pages).
  destruct (tbl s root (PL1 (ix2 va))) as [t1|] eqn:E1.
  - rewrite (l0_entry (PL1 (ix2 va)) t1) by (simpl; auto with pages).
    rewrite decide_False by naive_solver.
    destruct (entry_table (pte_at s t1 (ix1 va))) as [t0|] eqn:E0.
    + rewrite (l0_entry (PL0 (ix2 va) (ix1 va)) t0);
        [|simpl; auto with pages|simpl in *; by rewrite E1|auto with pages].
      repeat case_decide; naive_solver.
    + rewrite decide_False; [done|]. intros (<- & <- & _). simpl in *. rewrite E1 in Ht.
      simpl in Ht. congruence.
  - rewrite decide_False.
    + rewrite (l0_entry PRoot root) by (simpl; auto with pages). done.
    + intros (<- & _). simpl in *. by rewrite E1 in Ht.
Qed.

Lemma l0_write_step : pt_step g g s s' root.
Proof.
  split; [split|..]; try (by auto with pages).
  - by apply (slot_pinv g s root W (PL0 i2 i1)).
  - intros p a Hp. rewrite l0_write_tbl by done. by apply W.
  - intros p q a Hp Hq. rewrite !l0_write_tbl by done. by apply W.
  - apply W.
  - intros p a Hp. rewrite l0_write_tbl by done. eauto.
  - intros x. by apply (slot_keeps g s root W (PL0 i2 i1)).
Qed.
End l0_write.

(** *** A slot of a middle-level table *)
Section l1_write.
Context (g : G) (s : PMem) (root : N) (W : pt_wf g s root).
Context (i2 t i v : N) (H2 : i2 < 512) (Hi : i < 512) (Ht : tbl s root (PL1 i2) = Some t).
Let s' := set_ram (write_word (t + i * 8) v (ram s)) s.

Lemma l1_entry q a j :
  path_ok q → tbl s root q = Some a → j < 512 →
  pte_at s' a j = if decide (q = PL1 i2 ∧ j = i) then v else pte_at s a j.
Proof. by apply slot_entry with (g := g). Qed.

Lemma l1_write_tbl q : path_ok q → q ≠ PL0 i2 i → tbl s' root q = tbl s root q.
Proof.
  intros Hq Hne. destruct q as [|j|j k]; simpl in *; [done|..].
  - by rewrite (l1_entry PRoot root j).
  - destruct Hq as [Hj Hk]. rewrite (l1_entry PRoot root j) by done. simpl.
    destruct (entry_table (pte_at s root j)) as [t1|] eqn:E; simpl; [|done].
    rewrite (l1_entry (PL1 j) t1 k) by done. case_decide; naive_solver.
Qed.

Lemma l1_write_tbl_new : tbl s' root (PL0 i2 i) = entry_table v.
Proof.
  simpl in *. rewrite (l1_entry PRoot root i2) by done. simpl. rewrite Ht. simpl.
  rewrite (l1_entry (PL1 i2) t i) by done. by rewrite decide_True.
Qed.

Lemma l1_write_walk va :
  walk root va s' =
  if decide (ix2 va = i2 ∧ ix1 va = i) then
    match entry_table v with
    | None => walk_of 1 v
    | Some t0 => walk_of 0 (pte_at s' t0 (ix0 va))
    end
  else walk root va s.
Proof.
  rewrite !walk_tbl, (l1_write_tbl (PL1 (ix2 va))) by (simpl; auto with pages).
  destruct (tbl s root (PL1 (ix2 va))) as [t1|] eqn:E1.
  - rewrite (l1_entry (PL1 (ix2 va)) t1) by (simpl; auto with pages).
    destruct (decide (ix2 va = i2 ∧ ix1 va = i)) as [[E2 E3]|Hn].
    { rewrite decide_True by naive_solver. done. }
    rewrite decide_False by naive_solver.
    destruct (entry_table (pte_at s t1 (ix1 va))) as [t0|] eqn:E0; [|done].
    rewrite (l1_entry (PL0 (ix2 va) (ix1 va)) t0);
      [done|simpl; auto with pages|simpl in *; by rewrite E1|auto with pages].
  - rewrite decide_False.
    + rewrite (l1_entry PRoot root) by (simpl; auto with pages). done.
    + intros (<- & _). by rewrite E1 in Ht.
Qed.

(** A leaf or an empty entry takes the place of whatever was there. *)
Lemma l1_write_step : entry_table v = None → pt_step g g s s' root.
Proof.
  intros Hv. assert (∀ q a, path_ok q → tbl s' root q = Some a → tbl s root q = Some a) as Hsub.
  { intros q a Hq. destruct (decide (q = PL0 i2 i)) as [->|]; [by rewrite l1_write_tbl_new, Hv|].
    by rewrite l1_write_tbl. }
  split; [split|..]; try (by auto with pages).
  - by apply (slot_pinv g s root W (PL1 i2)).
  - intros p a Hp Ha%Hsub; [|done]. by apply (pt_live _ _ _ W p).
  - intros p q a Hp Hq Ha%Hsub Hb%Hsub; [|done..]. by apply (pt_inj _ _ _ W p q a).
  - apply W.
  - intros p a Hp Ha%Hsub; [|done]. eauto.
  - intros x. by apply (slot_keeps g s root W (PL1 i2)).
Qed.

(** A pointer to a page that was not a table becomes a table. *)
Lemma l1_link_step n :
  entry_table v = Some n → live g n → (∀ q, path_ok q → tbl s root q ≠ Some n) →
  pt_wf g s' root ∧ (∀ q a, path_ok q → tbl s' root q = Some a → tbl s root q = Some a ∨ a = n).
Proof.
  intros Hv Hn Hq.
  assert (∀ q a, path_ok q → tbl s' root q = Some a →
    (tbl s root q = Some a ∧ q ≠ PL0 i2 i) ∨ (a = n ∧ q = PL0 i2 i)) as Hsub.
  { intros q a Hqo. destruct (decide (q = PL0 i2 i)) as [->|]; [rewrite l1_write_tbl_new, Hv; naive_solver|].
    rewrite l1_write_tbl by done. naive_solver. }
  split; [split|naive_solver].
  - by apply (slot_pinv g s root W (PL1 i2)).
  - intros p a Hp [[Ha _]|[-> _]]%Hsub; [by apply (pt_live _ _ _ W p)|done|done].
  - intros p q a Hp Hqo [[Ha ?]|[Ea ->]]%Hsub [[Hb ?]|[Eb ->]]%Hsub; subst; try done.
    + by apply (pt_inj _ _ _ W p q a).
    + by destruct (Hq p).
    + by destruct (Hq q).
  - apply W.
Qed.
End l1_write.

(** *** Linking a zeroed page below the root *)
Section root_link.
Context (g : G) (s : PMem) (root : N) (W : pt_wf g s root).
Context (i v n : N) (Hi : i < 512) (Hinv : pte_valid (pte_at s root i) = false).
Context (Hv : entry_table v = Some n) (Hn : live g n).
Context (Hq : ∀ q, path_ok q → tbl s root q ≠ Some n).
Context (Hz : ∀ j, j < 512 → pte_at s n j = 0).
Let s' := set_ram (write_word (root + i * 8) v (ram s)) s.

Lemma root_entry q a j :
  path_ok q → tbl s root q = Some a → j < 512 →
  pte_at s' a j = if decide (q = PRoot ∧ j = i) then v else pte_at s a j.
Proof. apply slot_entry with (g := g); done. Qed.

Lemma root_link_zero j : j < 512 → pte_at s' n j = 0.
Proof.
  intros Hj. unfold s'. rewrite pte_at_write.
  - rewrite decide_False; [auto|]. intros [-> _]. by apply (Hq PRoot I).
  - exact (pt_table_aligned g s root PRoot root W I eq_refl).
  - apply (live_page s g); [apply W|done].
  - done.
  - done.
Qed.

Lemma root_link_old : tbl s root (PL1 i) = None.
Proof. simpl. unfold entry_table. by rewrite Hinv. Qed.

Lemma root_link_tbl q : path_ok q →
  tbl s' root q = if decide (q = PL1 i) then Some n else tbl s root q.
Proof.
  intros Hqo. destruct q as [|j|j k]; simpl in *; [done|..].
  - rewrite (root_entry PRoot root j) by done. repeat case_decide; naive_solver.
  - destruct Hqo as [Hj Hk]. rewrite (root_entry PRoot root j) by done.
    pose proof root_link_old as Ho. simpl in Ho.
    destruct (decide (j = i)) as [->|].
    + rewrite decide_True, Hv, Ho by done. simpl. by rewrite root_link_zero.
    + rewrite decide_False by naive_solver.
      destruct (entry_table (pte_at s root j)) as [t1|] eqn:E; simpl; [|done].
      by rewrite (root_entry (PL1 j) t1 k).
Qed.

Lemma root_link_walk va : walk root va s' = walk root va s.
Proof.
  rewrite !walk_tbl, root_link_tbl by (simpl; auto with pages).
  destruct (decide (PL1 (ix2 va) = PL1 i)) as [[= E]|Hne].
  - rewrite root_link_zero by auto with pages. simpl. rewrite E.
    unfold entry_table, walk_of. by rewrite Hinv.
  - destruct (tbl s root (PL1 (ix2 va))) as [t1|] eqn:E1.
    + rewrite (root_entry (PL1 (ix2 va)) t1) by (simpl; auto with pages). simpl.
      destruct (entry_table (pte_at s t1 (ix1 va))) as [t0|] eqn:E0; [|done].
      rewrite (root_entry (PL0 (ix2 va) (ix1 va)) t0);
        [done|simpl; auto with pages|simpl in *; by rewrite E1|auto with pages].
    + rewrite (root_entry PRoot root) by (simpl; auto with pages).
      rewrite decide_False by naive_solver. done.
Qed.

Lemma root_link_wf : pt_wf g s' root.
Proof.
  split.
  - apply (slot_pinv g s root W PRoot); done.
  - intros p a Hp. rewrite root_link_tbl by done. case_decide; [naive_solver|].
    by apply (pt_live _ _ _ W p).
  - intros p q a Hp Hqo. rewrite !root_link_tbl by done. repeat case_decide; subst; try done.
    + intros [= <-] Ha. by destruct (Hq q).
    + intros Ha [= <-]. by destruct (Hq p).
    + by apply W.
  - apply W.
Qed.
End root_link.

(** *** Linking a zeroed page below a middle-level table *)
Lemma l1_link_walk g s root i2 t i v n va :
  pt_wf g s root → i2 < 512 → i < 512 → tbl s root (PL1 i2) = Some t →
  pte_valid (pte_at s t i) = false → entry_table v = Some n → live g n →
  (∀ q, path_ok q → tbl s root q ≠ Some n) → (∀ j, j < 512 → pte_at s n j = 0) →
  walk root va (set_ram (write_word (t + i * 8) v (ram s)) s) = walk root va s.
Proof.
  intros W H2 Hi Ht Hinv Hv Hn Hq Hz. rewrite (l1_write_walk g s root W i2 t i v H2 Hi Ht), Hv.
  case_decide as E; [|done]. destruct E as [E2 E1]. rewrite pte_at_write.
  - rewrite decide_False, Hz by (auto with pages; intros [-> _]; by apply (Hq (PL1 i2))).
    rewrite walk_tbl, E2, Ht, E1. unfold entry_table, walk_of. by rewrite Hinv.
  - exact (pt_table_aligned g s root (PL1 i2) t W H2 Ht).
  - apply (live_page s g); [apply W|done].
  - done.
  - auto with pages.
Qed.
End tree.
