(* ===== verification/MmuSpec.v ===== *)
(** * Specification of the page-table operations

    Every operation of kernel/src/mmu.rs on a well-formed tree, as its effect on
    the [walk] of every address: which addresses change, to what, and that nothing else
    does. *)

From Stdlib Require Import ZifyN ZifyNat.
From stdpp Require Import base gmap numbers functions list.
From S2P Require Import Prelude Mem MemInv PageAlloc Mmu Pte MmuTree.

(** The two [ensure_table]s differ only in which call zeroes the new page. *)
Lemma ensure_table_user_eq parent idx s : ensure_table_user parent idx s = ensure_table parent idx s.
Proof.
  unfold ensure_table_user, ensure_table, try_, ok_or, alloc_pages_zeroed, mbind, M_bind.
  destruct (pte_read parent idx s) as [[e s1]| |]; [|done..].
  destruct (pte_valid e); [done|]. destruct (alloc_pages 0 s1) as [[[a|] s2]| |]; try done.
  change (nrange 0 (N.to_nat (bsize 0))) with [0]. cbn [for_each].
  rewrite N.mul_0_l, N.add_0_r. unfold mbind, M_bind, mret, M_ret.
  destruct (zero_page a s2) as [[[] s3]| |]; reflexivity.
Qed.

Definition child (p : path) (i : N) : path :=
  match p with PRoot => PL1 i | PL1 i2 => PL0 i2 i | PL0 _ _ => PRoot end.

Definition inner (p : path) : Prop := match p with PL0 _ _ => False | _ => True end.

Lemma entry_table_pointer `{PageAllocator G} g s a :
  pinv s g → live g a → b_base (buddy s) + b_real_count (buddy s) * PAGE_SIZE ≤ PHYS_LIMIT →
  entry_table (pte a PTE_V) = Some a.
Proof.
  intros I Hl Hp. destruct (live_phys g s a I Hl Hp) as [Ha Hlt]. unfold entry_table.
  rewrite pte_valid_pte, pte_leaf_pte, pte_addr_pte by done. done.
Qed.

Section spec.
Context `{PageAllocator G}.

(** A step that keeps all tables and all translations. *)
Record pt_grow (g g' : G) (s s' : PMem) (root : N) : Prop := mkPtGrow {
  pg_step : pt_step g g' s s' root;
  pg_tbl q a : path_ok q → tbl s root q = Some a → tbl s' root q = Some a;
  pg_walk va : walk root va s' = walk root va s
}.

Lemma pt_grow_refl g s root : pt_wf g s root → pt_grow g g s s root.
Proof. intros W. split; [by apply pt_step_refl|done|done]. Qed.

Lemma pt_grow_trans g1 g2 g3 s1 s2 s3 root :
  pt_grow g1 g2 s1 s2 root → pt_grow g2 g3 s2 s3 root → pt_grow g1 g3 s1 s3 root.
Proof.
  intros [P1 T1 L1] [P2 T2 L2]. split; [by eapply pt_step_trans|by auto|].
  intros va. by rewrite L2.
Qed.

(** A new page beside the tree, whatever it holds. *)
Lemma new_page_grow g g' s s' root a :
  pt_wf g s root → pinv s' g' → ¬ live g a → (∀ x, live g' x ↔ live g x ∨ x = a) → same_area s s' →
  (∀ x, live g x → keeps s s' x) →
  pt_grow g g' s s' root ∧ (∀ q, path_ok q → tbl s' root q ≠ Some a).
Proof.
  intros W I' Hn Hl A K.
  assert (∀ p x, path_ok p → tbl s root p = Some x → keeps s s' x) as K'.
  { intros p x Hp Hx. apply K. by apply (pt_live _ _ _ W p). }
  pose proof (tbl_ext g s s' root W K') as T.
  split; [split; [split|..]|]; try done.
  - eapply pt_wf_ext; try done. intros x Hx. apply Hl. by left.
  - intros x Hx. apply Hl. by left.
  - intros p x Hp. rewrite T by done. eauto.
  - intros x Hx _. auto.
  - intros q x Hq. by rewrite T.
  - intros va. by eapply walk_ext.
  - intros q Hq. rewrite T by done. intros Hx. apply Hn. by apply (pt_live _ _ _ W q).
Qed.

(** A fresh page beside the tree. *)
Lemma fresh_page_grow g g' s s' root a :
  pt_wf g s root → fresh_page s s' g g' a →
  pt_grow g g' s s' root ∧ (∀ q, path_ok q → tbl s' root q ≠ Some a).
Proof. intros W [I' Hn Hl A Z K]. by apply new_page_grow. Qed.

(** Linking the fresh page. *)
Lemma link_grow g s root p t i n :
  pt_wf g s root → path_ok p → inner p → tbl s root p = Some t → i < 512 →
  pte_valid (pte_at s t i) = false → live g n →
  (∀ q, path_ok q → tbl s root q ≠ Some n) → (∀ j, j < 512 → pte_at s n j = 0) →
  let s' := set_ram (write_word (t + i * 8) (pte n PTE_V) (ram s)) s in
  pt_wf g s' root ∧ tbl s' root (child p i) = Some n ∧
  (∀ q a, path_ok q → tbl s root q = Some a → tbl s' root q = Some a) ∧
  (∀ q a, path_ok q → tbl s' root q = Some a → tbl s root q = Some a ∨ a = n) ∧
  ∀ va, walk root va s' = walk root va s.
Proof.
  intros W Hp Hin Ht Hi Hinv Hn Hq Hz s'.
  pose proof (entry_table_pointer g s n (pt_pinv _ _ _ W) Hn (pt_phys _ _ _ W)) as Hv.
  destruct p as [|i2|]; simpl in Hp, Hin; [| |done].
  - injection Ht as <-. simpl child. unfold s'.
    pose proof (root_link_tbl g s root W i (pte n PTE_V) n Hi Hinv Hv Hn Hq Hz) as T.
    split; [|split; [|split; [|split]]].
    + by apply (root_link_wf g s root W i (pte n PTE_V) n).
    + rewrite T by done. by rewrite decide_True.
    + intros q a Hqo Ha. rewrite T by done. case_decide as E; [|done]. subst q.
      by rewrite (root_link_old s root i Hinv) in Ha.
    + intros q a Hqo. rewrite T by done. case_decide; naive_solver.
    + intros va. by apply (root_link_walk g s root W i (pte n PTE_V) n).
  - simpl child. unfold s'.
    destruct (l1_link_step g s root W i2 t i (pte n PTE_V) Hp Hi Ht n Hv Hn Hq) as [W' Hsub].
    split; [done|]. split; [|split; [|split]].
    + by rewrite (l1_write_tbl_new g s root W i2 t i (pte n PTE_V) Hp Hi Ht).
    + intros q a Hqo Ha. rewrite (l1_write_tbl g s root W i2 t i (pte n PTE_V) Hp Hi Ht q Hqo); [done|].
      intros ->. simpl in Ha, Ht. rewrite Ht in Ha. simpl in Ha.
      unfold entry_table in Ha. by rewrite Hinv in Ha.
    + done.
    + intros va. by apply (l1_link_walk g s root i2 t i (pte n PTE_V) n).
Qed.

(** Why [ensure_table] fails: a leaf is in the way, or no page is left. *)
Definition ensure_fails (s : PMem) (t i : N) : Prop :=
  (pte_valid (pte_at s t i) = true ∧ pte_leaf (pte_at s t i) = true) ∨
  (pte_valid (pte_at s t i) = false ∧ alloc_pages 0 s = Ret (None, s)).

Lemma ensure_table_spec g s root p t i :
  pt_wf g s root → path_ok p → inner p → tbl s root p = Some t → i < 512 →
  (ensure_table t i s = Ret (Err tt, s) ∧ ensure_fails s t i) ∨
  ∃ sub s' g', ensure_table t i s = Ret (Ok sub, s') ∧
    tbl s' root (child p i) = Some sub ∧ pt_grow g g' s s' root.
Proof.
  intros W Hp Hin Ht Hi. unfold ensure_table, ensure_fails, pte_read. rewrite bind_gets.
  destruct (pte_valid (pte_at s t i)) eqn:V.
  { destruct (pte_leaf (pte_at s t i)) eqn:L; [by left; auto|right].
    exists (pte_addr (pte_at s t i)), s, g. split; [done|]. split; [|by apply pt_grow_refl].
    assert (entry_table (pte_at s t i) = Some (pte_addr (pte_at s t i))) as E
      by (unfold entry_table; by rewrite V, L).
    destruct p; simpl in *; [by simplify_eq|by rewrite Ht; simpl|done]. }
  destruct (alloc_zero_law s g (pt_pinv _ _ _ W)) as [E|(n & s1 & s2 & g' & E1 & E2 & F)].
  { left. split; [|by right]. by rewrite (try_err _ _ _ _ _ (ok_or_none _ _ _ _ E)). }
  right. destruct (fresh_page_grow g g' s s2 root n W F) as [Gr Hnt].
  pose proof (pg_step _ _ _ _ _ Gr) as P2.
  assert (pte_valid (pte_at s2 t i) = false) as V2.
  { unfold pte_at. rewrite (fpg_keeps _ _ _ _ _ F t); [done| |done]. by apply (pt_live _ _ _ W p). }
  destruct (link_grow g' s2 root p t i n) as (W3 & T3 & S3 & N3 & L3); try done.
  { apply P2. } { by apply Gr. } { apply (fpg_live _ _ _ _ _ F). by right. }
  { intros j Hj. by apply (fpg_zero _ _ _ _ _ F). }
  exists n, (set_ram (write_word (t + i * 8) (pte n PTE_V) (ram s2)) s2), g'.
  split; [|split; [done|]].
  { rewrite (try_ok _ _ _ _ _ (ok_or_some _ _ _ _ _ E1)), (bind_ret _ _ _ _ _ E2). done. }
  split; [split|..].
  - done.
  - apply P2.
  - apply P2.
  - intros q a Hq Ha. destruct (N3 q a Hq Ha) as [Ha'| ->]; [by eapply (ps_new _ _ _ _ _ P2)|].
    right. apply (fpg_new _ _ _ _ _ F).
  - intros x Hx Hq. apply (keeps_trans _ s2); [by apply P2|].
    assert (live g t) as Hlt by (by apply (pt_live _ _ _ W p)).
    apply keeps_write; [apply (live_page s g t (pt_pinv _ _ _ W) Hlt)
      |apply (live_page s g x (pt_pinv _ _ _ W) Hx)| |done].
    intros <-. by apply (Hq p).
  - intros q a Hq Ha. apply S3; [done|]. by apply Gr.
  - intros va. rewrite L3. apply Gr.
Qed.

(** The two levels of tables above the slot of [va]. *)
Lemma walk_tables_spec {A} g s root va (k : N → M PMem (result A ())) :
  pt_wf g s root →
  (∃ s' g', (l1_t ←? ensure_table root (ix2 va); l0_t ←? ensure_table l1_t (ix1 va); k l0_t) s =
      Ret (Err tt, s') ∧ pt_grow g g' s s' root) ∨
  ∃ t s' g', (l1_t ←? ensure_table root (ix2 va); l0_t ←? ensure_table l1_t (ix1 va); k l0_t) s =
      k t s' ∧ tbl s' root (PL0 (ix2 va) (ix1 va)) = Some t ∧ pt_grow g g' s s' root.
Proof.
  intros W. destruct (ensure_table_spec g s root PRoot root (ix2 va) W I I eq_refl (ix2_lt va))
    as [[E _]|(t1 & s1 & g1 & E1 & T1 & G1)].
  { left. exists s, g. rewrite (try_err _ _ _ _ _ E). split; [done|by apply pt_grow_refl]. }
  rewrite (try_ok _ _ _ _ _ E1). pose proof (ps_wf _ _ _ _ _ (pg_step _ _ _ _ _ G1)) as W1.
  destruct (ensure_table_spec g1 s1 root (PL1 (ix2 va)) t1 (ix1 va) W1 (ix2_lt va) I T1 (ix1_lt va))
    as [[E _]|(t0 & s0 & g0 & E0 & T0 & G0)].
  { left. exists s1, g1. by rewrite (try_err _ _ _ _ _ E). }
  right. exists t0, s0, g0. rewrite (try_ok _ _ _ _ _ E0). split; [done|]. split; [done|].
  by eapply pt_grow_trans.
Qed.

(** The effect of an operation on the tree of [root]: it is a step, and the walk
    of every address changes as [upd] says. *)
Definition pt_effect (g g' : G) (s s' : PMem) (root : N) (upd : N → option (N * N) → option (N * N)) : Prop :=
  pt_step g g' s s' root ∧ ∀ va, walk root va s' = upd va (walk root va s).

(** A failed operation may have built tables, and nothing else. *)
Lemma grow_effect g g' s s' root : pt_grow g g' s s' root → pt_effect g g' s s' root (λ _ e, e).
Proof. intros [P _ L]. by split. Qed.

(** Writing the slot of [va] after the tables above it exist. *)
Lemma slot_effect g g' s s' root va t v :
  pt_grow g g' s s' root → tbl s' root (PL0 (ix2 va) (ix1 va)) = Some t →
  pt_effect g g' s (set_ram (write_word (t + ix0 va * 8) v (ram s')) s') root
    (λ vb e, if decide (same_slot vb va) then walk_of 0 v else e).
Proof.
  intros [P _ L] T. pose proof (ps_wf _ _ _ _ _ P) as W'. split.
  - eapply pt_step_trans; [exact P|].
    apply (l0_write_step g' s' root W' (ix2 va) (ix1 va)); auto with pages.
  - intros vb. rewrite (l0_write_walk g' s' root W' (ix2 va) (ix1 va)) by auto with pages.
    rewrite L. unfold same_slot. done.
Qed.

(** [map_4k]. *)
Lemma map_4k_spec g s root va pa f :
  pt_wf g s root →
  (∃ s' g', map_4k root va pa f s = Ret (Err tt, s') ∧ pt_grow g g' s s' root) ∨
  ∃ s' g', map_4k root va pa f s = Ret (Ok tt, s') ∧
    pt_effect g g' s s' root (λ vb e, if decide (same_slot vb va) then walk_of 0 (pte pa f) else e).
Proof.
  intros W. unfold map_4k.
  destruct (walk_tables_spec g s root va
    (λ l0_t, pte_write l0_t (ix0 va) (pte pa f);; mret (Ok tt)) W)
    as [?|(t & s1 & g1 & E & T & Gr)]; [by left|right].
  rewrite E. unfold pte_write. rewrite bind_modify. eexists _, g1. split; [done|].
  by apply slot_effect.
Qed.

(** The tables part of [map_user_page] and [map_device_page]. *)
Lemma map_slot_spec g s root va pa f :
  pt_wf g s root →
  let run := l1_t ←? ensure_table_user root (ix2 va);
    l0_t ←? ensure_table_user l1_t (ix1 va);
    entry ← pte_read l0_t (ix0 va);
    if pte_valid entry then mret (Err tt)
    else pte_write l0_t (ix0 va) (pte pa (N.lor f PTE_U));; mret (Ok tt) in
  (∃ s' g', run s = Ret (Err tt, s') ∧ pt_grow g g' s s' root) ∨
  ∃ s' g', run s = Ret (Ok tt, s') ∧ walk root va s = None ∧
    pt_effect g g' s s' root
      (λ vb e, if decide (same_slot vb va) then walk_of 0 (pte pa (N.lor f PTE_U)) else e).
Proof.
  intros W run.
  destruct (walk_tables_spec g s root va (λ l0_t, entry ← pte_read l0_t (ix0 va);
    if pte_valid entry then mret (Err tt)
    else pte_write l0_t (ix0 va) (pte pa (N.lor f PTE_U));; mret (Ok tt)) W)
    as [(s' & g' & E & Gr)|(t & s1 & g1 & E & T & Gr)];
  assert (run s = (l1_t ←? ensure_table root (ix2 va); l0_t ←? ensure_table l1_t (ix1 va);
    entry ← pte_read l0_t (ix0 va);
    if pte_valid entry then mret (Err tt)
    else pte_write l0_t (ix0 va) (pte pa (N.lor f PTE_U));; mret (Ok tt)) s) as Er
    by (unfold run, try_, mbind, M_bind; rewrite ensure_table_user_eq;
        destruct (ensure_table root (ix2 va) s) as [[[l1|[]] s0]| |]; try done;
        rewrite ensure_table_user_eq; done); rewrite Er, E.
  { left. eauto. }
  unfold pte_read. rewrite bind_gets. destruct (pte_valid (pte_at s1 t (ix0 va))) eqn:V.
  { left. eauto. }
  right. unfold pte_write. rewrite bind_modify. eexists _, g1. split; [done|].
  split; [|by apply slot_effect]. rewrite <-(pg_walk _ _ _ _ _ Gr), walk_tbl.
  cbn [tbl] in T. destruct (tbl s1 root (PL1 (ix2 va))) as [t1|] eqn:E1; simpl in E1, T;
    rewrite E1 in T; [|done]. simpl in T. rewrite T. unfold walk_of. by rewrite V.
Qed.

Lemma walk_same_slot root va vb s : same_slot va vb → walk root va s = walk root vb s.
Proof. intros (E2 & E1 & E0). unfold walk. simpl. by rewrite E2, E1, E0. Qed.

(** [map_user_page]: the checks, then the slot. *)
Lemma map_user_page_spec g s root va pa f :
  pt_wf g s root →
  (∃ s' g', map_user_page root va pa f s = Ret (Err tt, s') ∧ pt_grow g g' s s' root) ∨
  ∃ s' g', map_user_page root va pa f s = Ret (Ok tt, s') ∧
    va < USER_VA_LIMIT ∧ pa mod 4096 = 0 ∧ page_in_range pa s = true ∧ walk root va s = None ∧
    pt_effect g g' s s' root
      (λ vb e, if decide (same_slot vb va) then walk_of 0 (pte pa (N.lor f PTE_U)) else e).
Proof.
  intros W. pose proof (pt_grow_refl g s root W) as R. unfold map_user_page.
  destruct (USER_VA_LIMIT <=? va) eqn:E1; [left; exists s, g; by split|].
  destruct (is_multiple_of pa 4096) eqn:E2; cbn [negb orb]; [|left; exists s, g; by split].
  rewrite bind_gets. destruct (page_in_range pa s) eqn:E3; cbn [negb]; [|left; exists s, g; by split].
  bool_to_prop. destruct (map_slot_spec g s root va pa f W) as [?|(s' & g' & E & L & P)]; [by left|].
  right. exists s', g'. split; [done|]. split; [done|].
  split; [by apply is_multiple_of_spec|]. done.
Qed.

Lemma map_device_page_spec g s root va pa f :
  pt_wf g s root →
  (∃ s' g', map_device_page root va pa f s = Ret (Err tt, s') ∧ pt_grow g g' s s' root) ∨
  ∃ s' g', map_device_page root va pa f s = Ret (Ok tt, s') ∧
    va < USER_VA_LIMIT ∧ pa mod 4096 = 0 ∧ walk root va s = None ∧
    pt_effect g g' s s' root
      (λ vb e, if decide (same_slot vb va) then walk_of 0 (pte pa (N.lor f PTE_U)) else e).
Proof.
  intros W. pose proof (pt_grow_refl g s root W) as R. unfold map_device_page.
  destruct (USER_VA_LIMIT <=? va) eqn:E1; [left; exists s, g; by split|].
  destruct (is_multiple_of pa 4096) eqn:E2; cbn [negb orb]; [|left; exists s, g; by split].
  bool_to_prop. destruct (map_slot_spec g s root va pa f W) as [?|(s' & g' & E & L & P)]; [by left|].
  right. exists s', g'. split; [done|]. split; [done|].
  split; [by apply is_multiple_of_spec|]. done.
Qed.

(** Existing tables are found without allocation. *)
Lemma ensure_table_found s t i e :
  pte_at s t i = e → pte_valid e = true → pte_leaf e = false →
  ensure_table t i s = Ret (Ok (pte_addr e), s).
Proof.
  intros E V L. unfold ensure_table, pte_read. rewrite bind_gets, E, V, L. done.
Qed.

Lemma ensure_table_leaf s t i e :
  pte_at s t i = e → pte_valid e = true → pte_leaf e = true →
  ensure_table t i s = Ret (Err tt, s).
Proof.
  intros E V L. unfold ensure_table, pte_read. rewrite bind_gets, E, V, L. done.
Qed.

(** [unmap_4k]: no table is built; the slot is cleared unless a superpage is in
    the way. *)
Lemma unmap_4k_spec g s root va :
  pt_wf g s root →
  (unmap_4k root va s = Ret (Err tt, s) ∧ is_Some (walk root va s) ∧
    tbl s root (PL0 (ix2 va) (ix1 va)) = None) ∨
  ∃ s', unmap_4k root va s = Ret (Ok tt, s') ∧
    pt_effect g g s s' root (λ vb e, if decide (same_slot vb va) then None else e).
Proof.
  intros W. unfold unmap_4k. rewrite bind_gets, leaf_pte_walk.
  destruct (walk root va s) as [[lv e]|] eqn:E.
  2:{ right. exists s. split; [done|]. split; [by apply pt_step_refl|]. intros vb.
    case_decide as Hs; [|done]. by rewrite (walk_same_slot _ _ _ _ Hs). }
  assert ((from_option snd 0 (Some (lv, e)) =? 0) = false) as ->.
  { apply N.eqb_neq. intros He. apply walk_valid in E. cbn in He. by subst. }
  rewrite walk_tbl in E. cbn [tbl] in E |- *. unfold entry_table, walk_of in *.
  destruct (pte_valid (pte_at s root (ix2 va))) eqn:V2; cbn [andb negb mbind option_bind] in *;
    [|done].
  destruct (pte_leaf (pte_at s root (ix2 va))) eqn:L2; cbn [andb negb mbind option_bind] in *.
  { left. by rewrite (try_err _ _ _ _ _ (ensure_table_leaf _ _ _ _ eq_refl V2 L2)). }
  rewrite (try_ok _ _ _ _ _ (ensure_table_found _ _ _ _ eq_refl V2 L2)).
  set (t1 := pte_addr (pte_at s root (ix2 va))) in *.
  destruct (pte_valid (pte_at s t1 (ix1 va))) eqn:V1; cbn [andb negb mbind option_bind] in *;
    [|done].
  destruct (pte_leaf (pte_at s t1 (ix1 va))) eqn:L1; cbn [andb negb mbind option_bind] in *.
  { left. by rewrite (try_err _ _ _ _ _ (ensure_table_leaf _ _ _ _ eq_refl V1 L1)). }
  rewrite (try_ok _ _ _ _ _ (ensure_table_found _ _ _ _ eq_refl V1 L1)).
  right. unfold pte_write. rewrite bind_modify. eexists. split; [done|].
  apply (slot_effect g g s s root va _ 0); [by apply pt_grow_refl|].
  cbn [tbl]. unfold entry_table. rewrite V2, L2. cbn [andb negb mbind option_bind]. fold t1. by rewrite V1, L1.
Qed.

(** [map_super] with a leaf entry. *)
Lemma map_super_spec g s root va pa f :
  pt_wf g s root → pa < PHYS_LIMIT → f < 1024 → pte_leaf f = true →
  (∃ s' g', map_super root va pa f s = Ret (Err tt, s') ∧ pt_grow g g' s s' root) ∨
  ∃ s' g', map_super root va pa f s = Ret (Ok tt, s') ∧
    pt_effect g g' s s' root (λ vb e, if decide (same_super vb va) then walk_of 1 (pte pa f) else e).
Proof.
  intros W Hpa Hf Hl. unfold map_super.
  assert (entry_table (pte pa f) = None) as Hv.
  { unfold entry_table. by rewrite pte_leaf_pte, Hl, andb_false_r. }
  destruct (ensure_table_spec g s root PRoot root (ix2 va) W I I eq_refl (ix2_lt va))
    as [[E _]|(t1 & s1 & g1 & E1 & T1 & [P1 _ L1])].
  { left. exists s, g. rewrite (try_err _ _ _ _ _ E). split; [done|by apply pt_grow_refl]. }
  right. rewrite (try_ok _ _ _ _ _ E1). unfold pte_write. rewrite bind_modify.
  eexists _, g1. split; [done|]. pose proof (ps_wf _ _ _ _ _ P1) as W1. split.
  - eapply pt_step_trans; [exact P1|]. apply (l1_write_step g1 s1 root W1 (ix2 va)); auto with pages.
  - intros vb. rewrite (l1_write_walk g1 s1 root W1 (ix2 va)) by auto with pages.
    rewrite Hv, L1. unfold same_super. done.
Qed.
End spec.
