(* ===== verification/MmuKernel.v ===== *)
(** * Kernel mappings

    Splitting superpages, guard pages, and the kernel region that
    [map_kernel_region] of kernel/src/mmu.rs puts into every root table. *)

From Stdlib Require Import ZifyN ZifyNat.
From stdpp Require Import base gmap numbers functions list.
From S2P Require Import Prelude Mem MemInv PageAlloc Mmu Pte MmuTree MmuSpec.

(** What the hardware makes of the end of a walk: the physical address and the
    permission bits. *)
Definition resolve (va : N) (w : option (N * N)) : option (N * N) :=
  '(l, e) ← w;
  if pte_leaf e then Some (pte_addr e + va mod 2 ^ (12 + 9 * l), N.land e 0x3FF) else None.

Definition translate (root va : N) (s : PMem) : option (N * N) := resolve va (walk root va s).

(** ** Splitting a superpage *)

Lemma entry_flags e :
  e < 2 ^ 54 → N.ldiff e (N.shiftl PTE_PPN_MASK PTE_PPN_SHIFT) = e mod 1024.
Proof.
  intros He. apply N.bits_inj. intros n. rewrite N.ldiff_spec. change 1024 with (2 ^ 10).
  change (N.shiftl PTE_PPN_MASK PTE_PPN_SHIFT) with (N.shiftl (N.ones 44) 10).
  destruct (decide (n < 10)) as [Hn|Hn].
  - rewrite N.mod_pow2_bits_low, N.shiftl_spec_low by done. by rewrite andb_true_r.
  - rewrite N.mod_pow2_bits_high by lia. rewrite N.shiftl_spec_high' by lia.
    destruct (decide (n < 54)) as [Hn2|Hn2].
    + rewrite N.ones_spec_low by lia. by rewrite andb_false_r.
    + rewrite (testbit_above e 54) by (done || lia). done.
Qed.

Lemma land_mod_1024 e m : m < 1024 → N.land (e mod 1024) m = N.land e m.
Proof.
  intros Hm. change 1024 with (2 ^ 10) in *. apply N.bits_inj. intros n. rewrite !N.land_spec.
  destruct (decide (n < 10)) as [Hn|Hn].
  - by rewrite N.mod_pow2_bits_low.
  - rewrite (testbit_above m 10) by (done || lia). by rewrite !andb_false_r.
Qed.

Lemma pte_addr_aligned e : pte_addr e mod 4096 = 0.
Proof.
  unfold pte_addr. rewrite N.shiftl_mul_pow2. change (2 ^ 12) with 4096. apply N.Div0.mod_mul.
Qed.

(** The entry of page [i] of a split superpage resolves as the superpage did. *)
Lemma split_entry_resolve e va :
  e < 2 ^ 54 → pte_valid e = true → pte_leaf e = true → pte_addr e + SUPER_PAGE ≤ PHYS_LIMIT →
  let e0 := pte (pte_addr e + ix0 va * 4096) (e mod 1024) in
  resolve va (walk_of 0 e0) = resolve va (walk_of 1 e).
Proof.
  intros He V L Hp e0. pose proof (ix0_lt va) as Hi. pose proof (pte_addr_aligned e) as Ha.
  assert (pte_addr e + ix0 va * 4096 < PHYS_LIMIT) as Hlt by (unfold SUPER_PAGE in Hp; lia).
  assert (e mod 1024 < 1024) as Hf by dlia.
  unfold resolve, walk_of, e0. rewrite pte_valid_pte by done.
  assert (pte_valid (e mod 1024) = true) as -> by (unfold pte_valid; by rewrite land_mod_1024).
  rewrite V. cbn [mbind option_bind]. rewrite pte_leaf_pte by done.
  assert (pte_leaf (e mod 1024) = true) as -> by (unfold pte_leaf; by rewrite land_mod_1024).
  rewrite L. f_equal. f_equal.
  - rewrite pte_addr_pte; [|done|dlia|done].
    change (12 + 9 * 0) with 12. change (12 + 9 * 1) with 21. rewrite ix0_val.
    change (2 ^ 12) with 4096. change (2 ^ 21) with 2097152. clear. dlia.
  - rewrite pte_flags by done. by rewrite land_mod_1024.
Qed.

Section kernel.
Context `{PageAllocator G}.

(** The middle-level entry over [va], if it is a superpage, is one the kernel
    built: the address and the flags fit. *)
Definition super_ok (s : PMem) (root va : N) : Prop :=
  ∀ e, walk root va s = Some (1, e) → e < 2 ^ 54 ∧ pte_addr e + SUPER_PAGE ≤ PHYS_LIMIT.

Lemma walk_l1_leaf s root va t1 :
  tbl s root (PL1 (ix2 va)) = Some t1 → pte_valid (pte_at s t1 (ix1 va)) = true →
  pte_leaf (pte_at s t1 (ix1 va)) = true → walk root va s = Some (1, pte_at s t1 (ix1 va)).
Proof.
  intros T V L. rewrite walk_tbl, T. unfold entry_table, walk_of. by rewrite V, L.
Qed.

(** Filling the new last-level table. *)
Lemma split_table_spec g s root t1 i2 i1 e :
  pt_wf g s root → i2 < 512 → i1 < 512 → tbl s root (PL1 i2) = Some t1 → pte_at s t1 i1 = e →
  pte_leaf e = true → alloc_pages 0 s = Ret (None, s) ∨
  ∃ sub sa sz sf g', alloc_pages 0 s = Ret (Some sub, sa) ∧ zero_page sub sa = Ret (tt, sz) ∧
    for_each (λ i, pte_write sub i (pte (pte_addr e + i * 4096)
      (N.ldiff e (N.shiftl PTE_PPN_MASK PTE_PPN_SHIFT)))) (nrange 0 512) sz = Ret (tt, sf) ∧
    let s' := set_ram (write_word (t1 + i1 * 8) (pte sub PTE_V) (ram sf)) sf in
    pt_step g g' s s' root ∧ tbl s' root (PL0 i2 i1) = Some sub ∧
    ∀ va, walk root va s' =
      if decide (ix2 va = i2 ∧ ix1 va = i1) then
        walk_of 0 (pte (pte_addr e + ix0 va * 4096)
          (N.ldiff e (N.shiftl PTE_PPN_MASK PTE_PPN_SHIFT)))
      else walk root va s.
Proof.
  intros W H2 H1 T1 E1 L. set (F := λ i, pte (pte_addr e + i * 4096) (N.ldiff e (N.shiftl PTE_PPN_MASK PTE_PPN_SHIFT))).
  destruct (alloc_zero_law s g (pt_pinv _ _ _ W)) as [E|(n & sa & sz & g' & Ea & Ez & Fr)]; [by left|right].
  assert (live g' n) as Hn by (apply (fpg_live _ _ _ _ _ Fr); by right).
  destruct (write_words_live F g' n (nrange 0 512) sz (fpg_inv _ _ _ _ _ Fr) Hn)
    as (sf & Ef & If & Af & Zf & _ & Kf).
  { intros w Hw%elem_of_nrange. lia. }
  exists n, sa, sz, sf, g'. split; [done|]. split; [done|]. split; [exact Ef|].
  assert (∀ x, live g x → keeps s sf x) as K.
  { intros x Hx. apply (keeps_trans _ sz); [by apply (fpg_keeps _ _ _ _ _ Fr)|].
    apply Kf; [apply (fpg_live _ _ _ _ _ Fr); by left|].
    intros ->. by apply (fpg_new _ _ _ _ _ Fr). }
  assert (∀ p a, path_ok p → tbl s root p = Some a → keeps s sf a) as Kt.
  { intros p a Hp Ha. apply K. by apply (pt_live _ _ _ W p). }
  assert (same_area s sf) as A by (eapply same_area_trans; [apply Fr|done]).
  pose proof (tbl_ext g s sf root W Kt) as Tf.
  assert (pt_wf g' sf root) as Wf.
  { eapply pt_wf_ext; try done. intros x Hx. apply (fpg_live _ _ _ _ _ Fr). by left. }
  assert (∀ q, path_ok q → tbl sf root q ≠ Some n) as Hq.
  { intros q Hqo. rewrite Tf by done. intros Hx. apply (fpg_new _ _ _ _ _ Fr).
    by apply (pt_live _ _ _ W q). }
  assert (tbl sf root (PL1 i2) = Some t1) as T1f by (by rewrite Tf).
  pose proof (entry_table_pointer g' sf n If Hn (pt_phys _ _ _ Wf)) as Hv.
  destruct (l1_link_step g' sf root Wf i2 t1 i1 (pte n PTE_V) H2 H1 T1f n Hv Hn Hq) as [W' Hsub].
  split; [split|split].
  - done.
  - intros x Hx. apply (fpg_live _ _ _ _ _ Fr). by left.
  - done.
  - intros p a Hp Ha. destruct (Hsub p a Hp Ha) as [Ha'| ->].
    + left. exists p. rewrite <-Tf by done. done.
    + right. apply (fpg_new _ _ _ _ _ Fr).
  - intros x Hx Hxq. apply (keeps_trans _ sf); [auto|].
    apply (slot_keeps g' sf root Wf (PL1 i2) t1 i1); [done|done|done|apply (fpg_live _ _ _ _ _ Fr); by left|].
    intros q Hqo. rewrite Tf by done. auto.
  - by rewrite (l1_write_tbl_new g' sf root Wf i2 t1 i1).
  - intros va. rewrite (l1_write_walk g' sf root Wf i2 t1 i1), Hv by done.
    case_decide; [|by apply (walk_ext g)]. f_equal.
    rewrite pte_at_write; [|exact (pt_table_aligned g' sf root (PL1 i2) t1 Wf H2 T1f)
      |by apply (live_page sf g')|done|auto with pages].
    rewrite decide_False by (intros [-> _]; by apply (Hq (PL1 i2))).
    unfold pte_at. rewrite Zf; [done|]. apply elem_of_nrange. pose proof (ix0_lt va). lia.
Qed.

Lemma split_superpage_spec g s root va :
  pt_wf g s root → super_ok s root va →
  (∃ s' g', split_superpage root va s = Ret (Err tt, s') ∧ pt_grow g g' s s' root) ∨
  ∃ s' g', split_superpage root va s = Ret (Ok tt, s') ∧ pt_step g g' s s' root ∧
    is_Some (tbl s' root (PL0 (ix2 va) (ix1 va))) ∧
    (∀ vb, translate root vb s' = translate root vb s) ∧
    (∀ vb, ¬ same_super vb va → walk root vb s' = walk root vb s).
Proof.
  intros W Hs. unfold split_superpage.
  destruct (ensure_table_spec g s root PRoot root (ix2 va) W I I eq_refl (ix2_lt va))
    as [[E _]|(t1 & s1 & g1 & E1 & T1 & G1)].
  { left. exists s, g. rewrite (try_err _ _ _ _ _ E). split; [done|by apply pt_grow_refl]. }
  rewrite (try_ok _ _ _ _ _ E1). unfold pte_read. rewrite bind_gets. simpl child in T1.
  pose proof (pg_step _ _ _ _ _ G1) as P1. pose proof (ps_wf _ _ _ _ _ P1) as W1.
  destruct (pte_valid (pte_at s1 t1 (ix1 va))) eqn:V; cbn [negb]; [|left; by eauto].
  destruct (pte_leaf (pte_at s1 t1 (ix1 va))) eqn:L; cbn [negb].
  2:{ right. exists s1, g1. split; [done|]. split; [done|]. split; [|split].
    - cbn [tbl] in *. rewrite T1. simpl. unfold entry_table. by rewrite V, L.
    - intros vb. unfold translate. by rewrite (pg_walk _ _ _ _ _ G1).
    - intros vb _. apply G1. }
  destruct (Hs (pte_at s1 t1 (ix1 va))) as [He Hp].
  { rewrite <-(pg_walk _ _ _ _ _ G1). by apply walk_l1_leaf. }
  destruct (split_table_spec g1 s1 root t1 (ix2 va) (ix1 va) _ W1 (ix2_lt va) (ix1_lt va) T1 eq_refl L)
    as [E|(sub & sa & sz & sf & g2 & Ea & Ez & Ef & P2 & T2 & Wk)].
  { left. exists s1, g1. by rewrite (try_err _ _ _ _ _ (ok_or_none _ _ _ _ E)). }
  right. eexists _, g2. rewrite (try_ok _ _ _ _ _ (ok_or_some _ _ _ _ _ Ea)), (bind_ret _ _ _ _ _ Ez).
  rewrite (bind_ret _ _ _ _ _ Ef). unfold pte_write at 1. rewrite bind_modify.
  split; [done|]. split; [by eapply pt_step_trans|]. split; [by rewrite T2|]. split.
  - intros vb. unfold translate. rewrite Wk, <-(pg_walk _ _ _ _ _ G1). case_decide as Hc; [|done].
    destruct Hc as [Hc2 Hc1]. rewrite entry_flags by done. rewrite split_entry_resolve by done.
    rewrite <-Hc2 in T1. rewrite <-Hc1 in V, L |- *.
    rewrite (walk_l1_leaf _ _ _ _ T1 V L). unfold walk_of. by rewrite V.
  - intros vb Hn. rewrite Wk, decide_False; [apply G1|]. done.
Qed.

(** ** The kernel region *)

(** A run that halts the machine or changes the walk of every 39-bit address as
    [upd] says. *)
Definition maps (g : G) (s : PMem) (root : N) (m : M PMem ())
    (upd : N → option (N * N) → option (N * N)) : Prop :=
  m s = Panic ∨ ∃ s' g', m s = Ret (tt, s') ∧ pt_step g g' s s' root ∧
    ∀ va, va < 2 ^ 39 → walk root va s' = upd va (walk root va s).

Lemma maps_ret g s root : pt_wf g s root → maps g s root (mret tt) (λ _ w, w).
Proof. intros W. right. exists s, g. split; [done|]. split; [by apply pt_step_refl|done]. Qed.

Lemma maps_ext g s root m u u' :
  (∀ va w, va < 2 ^ 39 → u va w = u' va w) → maps g s root m u → maps g s root m u'.
Proof.
  intros Hu [E|(s' & g' & E & P & Wk)]; [by left|right]. exists s', g'. split; [done|].
  split; [done|]. intros va Hva. rewrite <-Hu by done. auto.
Qed.

Lemma maps_seq g s root m k u1 u2 :
  maps g s root m u1 → (∀ g' s', pt_wf g' s' root → maps g' s' root k u2) →
  maps g s root (m;; k) (λ va w, u2 va (u1 va w)).
Proof.
  intros [E|(s1 & g1 & E & P1 & W1)] Hk.
  { left. unfold mbind, M_bind. by rewrite E. }
  unfold maps. rewrite (bind_ret _ _ _ _ _ E).
  destruct (Hk g1 s1 (ps_wf _ _ _ _ _ P1)) as [E2|(s2 & g2 & E2 & P2 & W2)]; [by left|right].
  exists s2, g2. split; [done|]. split; [by eapply pt_step_trans|].
  intros va Hva. by rewrite W2, W1.
Qed.

Lemma maps_assert g s root b : pt_wf g s root → maps g s root (assert_ b) (λ _ w, w).
Proof. intros W. destruct b; [by apply maps_ret|by left]. Qed.

(** One iteration: [expect] of an operation with an effect. *)
Lemma maps_expect g s root (m : M PMem (result () ())) (u : N → option (N * N) → option (N * N)) :
  (∃ s', m s = Ret (Err tt, s')) ∨ (∃ s' g', m s = Ret (Ok tt, s') ∧ pt_effect g g' s s' root u) →
  maps g s root (expect_ok m) u.
Proof.
  intros [(s' & E)|(s' & g' & E & P & Wk)].
  - left. unfold expect_ok. by rewrite (bind_ret _ _ _ _ _ E).
  - right. exists s', g'. by rewrite (expect_ok_ok _ _ _ _ E).
Qed.

Lemma maps_map_4k g s root va pa f :
  pt_wf g s root → va < 2 ^ 39 →
  maps g s root (expect_ok (map_4k root va pa f))
    (λ vb w, if decide (vb / 4096 = va / 4096) then walk_of 0 (pte pa f) else w).
Proof.
  intros W Hva. eapply maps_ext; [|apply maps_expect].
  2:{ destruct (map_4k_spec g s root va pa f W) as [(s' & g' & E & _)|(s' & g' & E & P)]; eauto. }
  intros vb w Hvb. cbv beta. by rewrite (decide_ext _ _ _ _ (same_slot_page vb va Hvb Hva)).
Qed.

Lemma maps_map_super g s root va f :
  pt_wf g s root → va < 2 ^ 39 → f < 1024 → pte_leaf f = true →
  maps g s root (expect_ok (map_super root va va f))
    (λ vb w, if decide (vb / SUPER_PAGE = va / SUPER_PAGE) then walk_of 1 (pte va f) else w).
Proof.
  intros W Hva Hf Hl. eapply maps_ext; [|apply maps_expect].
  2:{ destruct (map_super_spec g s root va va f W) as [(s' & g' & E & _)|(s' & g' & E & P)];
        [|done|done|by eauto|by eauto].
      unfold PHYS_LIMIT. etrans; [exact Hva|done]. }
  intros vb w Hvb. cbv beta. by rewrite (decide_ext _ _ _ _ (same_super_page vb va Hvb Hva)).
Qed.

Lemma maps_unmap g s root va :
  pt_wf g s root → va < 2 ^ 39 →
  maps g s root (expect_ok (unmap_4k root va))
    (λ vb w, if decide (vb / 4096 = va / 4096) then None else w).
Proof.
  intros W Hva. eapply maps_ext; [|apply maps_expect].
  2:{ destruct (unmap_4k_spec g s root va W) as [(E & _)|(s' & E & P)]; eauto. }
  intros vb w Hvb. cbv beta. by rewrite (decide_ext _ _ _ _ (same_slot_page vb va Hvb Hva)).
Qed.

(** The loops. *)
Definition region_upd (start end_ f va : N) (w : option (N * N)) : option (N * N) :=
  if decide (start ≤ va < end_) then walk_of 0 (pte (va / 4096 * 4096) f) else w.

Lemma maps_pages_4k fuel g s root va end_ f :
  pt_wf g s root → va mod 4096 = 0 → end_ mod 4096 = 0 → end_ ≤ 2 ^ 39 →
  (N.to_nat ((end_ - va) / 4096) ≤ fuel)%nat →
  maps g s root (map_pages_4k fuel root va end_ f) (region_upd va end_ f).
Proof.
  revert g s va. induction fuel as [|fuel IH]; intros g s va W Ha He Hlt Hf.
  all: cbn [map_pages_4k]; destruct (va <? end_) eqn:E; bool_to_prop.
  1: exfalso; clear - Ha He Hf E; dlia.
  - eapply maps_ext; [|by apply maps_ret]. intros vb w _. unfold region_upd.
    rewrite decide_False by lia. done.
  - eapply maps_ext; [|eapply maps_seq; [apply maps_map_4k; [done|lia]|]].
    2:{ intros g' s' W'. apply IH; [done|clear - Ha; dlia|done|done|clear - Ha He E Hf; dlia]. }
    intros vb w Hvb. cbv beta. unfold region_upd.
    destruct (decide (va + 4096 ≤ vb < end_)) as [H1|H1].
    + by rewrite decide_True by lia.
    + destruct (decide (vb / 4096 = va / 4096)) as [H2|H2].
      * rewrite decide_True by (clear - Ha He E H2; dlia). repeat f_equal. clear - Ha H2; dlia.
      * rewrite decide_False; [done|]. intros H3. apply H2. clear - Ha H1 H3. dlia.
  - eapply maps_ext; [|by apply maps_ret]. intros vb w _. unfold region_upd.
    rewrite decide_False by lia. done.
Qed.

Lemma maps_region g s root start end_ f :
  pt_wf g s root → end_ ≤ 2 ^ 39 → maps g s root (map_region_4k root start end_ f) (region_upd start end_ f).
Proof.
  intros W Hlt. unfold map_region_4k.
  destruct (is_multiple_of start 4096) eqn:E1; [|by left].
  destruct (is_multiple_of end_ 4096) eqn:E2; [|by left].
  apply is_multiple_of_spec in E1, E2. unfold assert_, maps. rewrite !bind_mret_l.
  apply maps_pages_4k; try done. unfold div_ceil. clear - E1 E2. dlia.
Qed.

Definition supers_upd (start end_ f va : N) (w : option (N * N)) : option (N * N) :=
  if decide (start ≤ va < end_) then walk_of 1 (pte (va / SUPER_PAGE * SUPER_PAGE) f) else w.

Lemma maps_supers fuel g s root va end_ f :
  pt_wf g s root → va mod SUPER_PAGE = 0 → end_ mod SUPER_PAGE = 0 → end_ ≤ 2 ^ 39 →
  f < 1024 → pte_leaf f = true → (N.to_nat ((end_ - va) / SUPER_PAGE) ≤ fuel)%nat →
  maps g s root (map_supers fuel root va end_ f) (supers_upd va end_ f).
Proof.
  intros W Ha He Hlt Hf Hl. revert g s va W Ha.
  induction fuel as [|fuel IH]; intros g s va W Ha Hfu.
  all: cbn [map_supers]; destruct (va <? end_) eqn:E; bool_to_prop.
  1: exfalso; clear - Ha He Hfu E; unfold SUPER_PAGE in *; dlia.
  - eapply maps_ext; [|by apply maps_ret]. intros vb w _. unfold supers_upd.
    rewrite decide_False by lia. done.
  - eapply maps_ext; [|eapply maps_seq; [apply maps_map_super; [done|lia|done|done]|]].
    2:{ intros g' s' W'. apply IH; [done|clear - Ha; unfold SUPER_PAGE in *; dlia
         |clear - Ha He E Hfu; unfold SUPER_PAGE in *; dlia]. }
    intros vb w Hvb. cbv beta. unfold supers_upd.
    destruct (decide (va + SUPER_PAGE ≤ vb < end_)) as [H1|H1].
    + by rewrite decide_True by lia.
    + destruct (decide (vb / SUPER_PAGE = va / SUPER_PAGE)) as [H2|H2].
      * rewrite decide_True by (clear - Ha He E H2; unfold SUPER_PAGE in *; dlia).
        repeat f_equal. clear - Ha H2; unfold SUPER_PAGE in *; dlia.
      * rewrite decide_False; [done|]. intros H3. apply H2.
        clear - Ha H1 H3. unfold SUPER_PAGE in *. dlia.
  - eapply maps_ext; [|by apply maps_ret]. intros vb w _. unfold supers_upd.
    rewrite decide_False by lia. done.
Qed.

Lemma maps_super_range g s root start end_ f :
  pt_wf g s root → start mod SUPER_PAGE = 0 → end_ mod SUPER_PAGE = 0 → end_ ≤ 2 ^ 39 →
  f < 1024 → pte_leaf f = true →
  maps g s root (map_super_range root start end_ f) (supers_upd start end_ f).
Proof.
  intros. apply maps_supers; try done. unfold div_ceil, SUPER_PAGE in *. clear - H1 H2. dlia.
Qed.

(** Unmapping a list of pages. *)
Definition unmap_upd (l : list N) (va : N) (w : option (N * N)) : option (N * N) :=
  if decide (va / 4096 ∈ (λ p, p / 4096) <$> l) then None else w.

Lemma unmap_upd_app l1 l2 va w : unmap_upd (l1 ++ l2) va w = unmap_upd l2 va (unmap_upd l1 va w).
Proof.
  unfold unmap_upd. rewrite fmap_app. repeat case_decide; set_solver.
Qed.

Lemma maps_unmap_list g s root l :
  pt_wf g s root → Forall (λ p, p < 2 ^ 39) l →
  maps g s root (for_each (λ p, expect_ok (unmap_4k root p)) l) (unmap_upd l).
Proof.
  intros W Hl. revert g s W. induction Hl as [|p l Hp Hl IH]; intros g s W; cbn [for_each].
  - eapply maps_ext; [|by apply maps_ret]. intros vb w _. unfold unmap_upd.
    rewrite decide_False; [done|]. simpl. set_solver.
  - eapply maps_ext; [|eapply maps_seq; [by apply maps_unmap|exact IH]].
    intros vb w _. cbv beta. change (p :: l) with ([p] ++ l). rewrite unmap_upd_app. f_equal.
    unfold unmap_upd. simpl fmap. repeat case_decide; set_solver.
Qed.

Lemma maps_unmap_lists g s root (f : N → list N) l :
  pt_wf g s root → Forall (λ p, p < 2 ^ 39) (l ≫= f) →
  maps g s root (for_each (λ i, for_each (λ p, expect_ok (unmap_4k root p)) (f i)) l)
    (unmap_upd (l ≫= f)).
Proof.
  revert g s. induction l as [|i l IH]; intros g s W Hl; cbn [for_each].
  - eapply maps_ext; [|by apply maps_ret]. intros vb w _. unfold unmap_upd.
    rewrite decide_False; [done|]. simpl. set_solver.
  - change ((i :: l) ≫= f) with (f i ++ (l ≫= f)) in *. apply Forall_app in Hl as [H1 H2].
    eapply maps_ext; [|eapply maps_seq; [by apply maps_unmap_list|intros; by apply IH]].
    intros vb w _. cbv beta. by rewrite unmap_upd_app.
Qed.
End kernel.

(** The pages [unmap_guard_pages] removes. *)
Definition guards (base top : N) : list N := guard_slots base top ≫= guard_pages.

Lemma guards_lt base top lim :
  base mod TRAP_STRIDE = 0 → top mod TRAP_STRIDE = 0 → top ≤ lim → Forall (λ p, p < lim) (guards base top).
Proof.
  intros Hb Ht Hl. apply Forall_forall. intros p Hp. unfold guards in Hp.
  apply list_elem_of_bind in Hp as (slot & Hp & (k & -> & Hk)%list_elem_of_fmap).
  unfold guard_pages in Hp. apply list_elem_of_fmap in Hp as (j & -> & Hj).
  apply elem_of_nrange in Hk, Hj. rewrite N2Nat.id in *.
  change (div_ceil TRAP_GUARD 4096) with 4 in Hj.
  unfold div_ceil, TRAP_STRIDE in *. clear - Hb Ht Hl Hk Hj. dlia.
Qed.

(** The addresses of the layout are in the 39-bit space; the RAM bounds and the
    image start are superpage aligned and the stack arrays are aligned to their
    slots, as the linker script places them. *)
Record layout_ok (ly : Layout) : Prop := mkLayoutOk {
  lo_ram : ly_ram_end ly ≤ 2 ^ 39;
  lo_start : ly_kernel_start ly mod SUPER_PAGE = 0;
  lo_image : ly_kernel_start ly ≤ ly_text_start ly ≤ ly_rodata_start ly ∧
    ly_rodata_start ly ≤ ly_data_start ly ≤ ly_kernel_end ly;
  lo_end : next_multiple_of (ly_kernel_end ly) SUPER_PAGE ≤ ly_ram_end ly;
  lo_guard : ly_stack_guard ly < 2 ^ 39;
  lo_trap : ly_trap_base ly mod TRAP_STRIDE = 0 ∧ ly_trap_top ly mod TRAP_STRIDE = 0 ∧ ly_trap_top ly ≤ 2 ^ 39;
  lo_idle : ly_idle_base ly mod TRAP_STRIDE = 0 ∧ ly_idle_top ly mod TRAP_STRIDE = 0 ∧ ly_idle_top ly ≤ 2 ^ 39;
  lo_uart : ly_uart_base ly mod 4096 = 0 ∧ ly_uart_base ly < 2 ^ 39
}.

(** The kernel part of an address space, as a function of the address: what
    [map_kernel_region] is for. *)
Definition kernel_view (ly : Layout) (va : N) : option (N * N) :=
  let kse := next_multiple_of (ly_kernel_end ly) SUPER_PAGE in
  if decide (va / 4096 = ly_uart_base ly / 4096) then walk_of 0 (pte (ly_uart_base ly) PTE_LEAF_RW)
  else
    unmap_upd (guards (ly_idle_base ly) (ly_idle_top ly)) va (
    unmap_upd (guards (ly_trap_base ly) (ly_trap_top ly)) va (
    if decide (va / 4096 = ly_stack_guard ly / 4096) then None
    else
      supers_upd kse (ly_ram_end ly) PTE_LEAF_RW va (
      region_upd (ly_kernel_end ly) kse PTE_LEAF_RW va (
      region_upd (ly_data_start ly) (ly_kernel_end ly) PTE_LEAF_RW va (
      region_upd (ly_rodata_start ly) (ly_data_start ly) PTE_LEAF_R va (
      region_upd (ly_text_start ly) (ly_rodata_start ly) PTE_LEAF_RX va (
      region_upd (ly_kernel_start ly) (ly_text_start ly) PTE_LEAF_RW va (
      supers_upd (ly_ram_start ly) (ly_kernel_start ly) PTE_LEAF_R va None)))))))).

Section region.
Context `{PageAllocator G}.

Lemma kernel_super_end_spec e :
  e ≤ next_multiple_of e SUPER_PAGE ∧ next_multiple_of e SUPER_PAGE mod SUPER_PAGE = 0.
Proof. unfold next_multiple_of, div_ceil, SUPER_PAGE. split; dlia. Qed.

Lemma maps_kernel_tail g s root e ram_end :
  pt_wf g s root → next_multiple_of e SUPER_PAGE ≤ ram_end → ram_end ≤ 2 ^ 39 →
  ram_end mod SUPER_PAGE = 0 →
  maps g s root
    (let kse := next_multiple_of e SUPER_PAGE in
     (if e <? kse then map_region_4k root e kse PTE_LEAF_RW else mret tt);;
     map_super_range root kse ram_end PTE_LEAF_RW)
    (λ va w, supers_upd (next_multiple_of e SUPER_PAGE) ram_end PTE_LEAF_RW va
      (region_upd e (next_multiple_of e SUPER_PAGE) PTE_LEAF_RW va w)).
Proof.
  intros W Hk Hr Ha. destruct (kernel_super_end_spec e) as [H1 H2]. cbv zeta.
  apply maps_seq; [|intros; apply maps_super_range; done].
  destruct (e <? _) eqn:E; bool_to_prop.
  - apply maps_region; [done|lia].
  - eapply maps_ext; [|by apply maps_ret]. intros vb w _. unfold region_upd.
    rewrite decide_False by lia. done.
Qed.

Lemma maps_kernel_region g s root ly :
  pt_wf g s root → layout_ok ly → (∀ va, walk root va s = None) →
  map_kernel_region ly root s = Panic ∨
  ∃ s' g', map_kernel_region ly root s = Ret (tt, s') ∧ pt_step g g' s s' root ∧
    ∀ va, va < 2 ^ 39 → walk root va s' = kernel_view ly va.
Proof.
  intros W [L1 L2 L3 L4 L5 [L6 [L6' L6'']] [L7 [L7' L7'']] [_ L8]] Hw. unfold map_kernel_region.
  destruct (kernel_super_end_spec (ly_kernel_end ly)) as [K1 K2].
  destruct (is_multiple_of (ly_ram_start ly) SUPER_PAGE) eqn:A1; [|by left].
  destruct (is_multiple_of (ly_ram_end ly) SUPER_PAGE) eqn:A2; [|by left].
  apply is_multiple_of_spec in A1, A2. unfold assert_. rewrite !bind_mret_l.
  match goal with |- ?m s = Panic ∨ _ => set (run := m) end.
  assert (∃ u, maps g s root run u ∧ ∀ va, u va None = kernel_view ly va) as (u & Hm & Hu).
  { unfold run. clear run. destruct L3 as [[L31 L32] [L33 L34]].
    pose proof (N.le_trans _ _ _ K1 (N.le_trans _ _ _ L4 L1)) as B5.
    pose proof (N.le_trans _ _ _ L34 B5) as B4. pose proof (N.le_trans _ _ _ L33 B4) as B3.
    pose proof (N.le_trans _ _ _ L32 B3) as B2. pose proof (N.le_trans _ _ _ L31 B2) as B1.
    eexists. split.
    - eapply maps_seq; [apply maps_super_range; [exact W|exact A1|exact L2|exact B1|reflexivity|reflexivity]|].
      intros g1 s1 W1. eapply maps_seq; [apply maps_region; [exact W1|exact B2]|].
      intros g2 s2 W2. eapply maps_seq; [apply maps_region; [exact W2|exact B3]|].
      intros g3 s3 W3. eapply maps_seq; [apply maps_region; [exact W3|exact B4]|].
      intros g4 s4 W4. eapply maps_seq; [apply maps_region; [exact W4|exact B5]|].
      intros g5 s5 W5. eapply maps_seq; [apply maps_kernel_tail; [exact W5|exact L4|exact L1|exact A2]|].
      intros g6 s6 W6. eapply maps_seq; [apply maps_unmap; [exact W6|exact L5]|].
      intros g7 s7 W7. eapply maps_seq; [apply maps_unmap_lists; [exact W7|exact (guards_lt _ _ _ L6 L6' L6'')]|].
      intros g8 s8 W8. eapply maps_seq; [apply maps_unmap_lists; [exact W8|exact (guards_lt _ _ _ L7 L7' L7'')]|].
      intros g9 s9 W9. apply maps_map_4k; [exact W9|exact L8].
    - intros va. reflexivity. }
  destruct Hm as [E|(s' & g' & E & P & Wk)]; [by left|right]. exists s', g'.
  split; [done|]. split; [done|]. intros va Hva. rewrite Wk, Hw by done. apply Hu.
Qed.
End region.

(** ** What the kernel view grants *)

(** Kernel permissions: no user access, and never writable and executable. *)
Definition kernel_flags (f : N) : Prop :=
  f < 1024 ∧ pte_valid f = true ∧ pte_leaf f = true ∧ pte_user f = false ∧
  (N.land f PTE_W =? 0) || (N.land f PTE_X =? 0) = true.

Lemma kernel_flags_rw : kernel_flags PTE_LEAF_RW.
Proof. by vm_compute. Qed.
Lemma kernel_flags_rx : kernel_flags PTE_LEAF_RX.
Proof. by vm_compute. Qed.
Lemma kernel_flags_r : kernel_flags PTE_LEAF_R.
Proof. by vm_compute. Qed.
#[export] Hint Resolve kernel_flags_rw kernel_flags_rx kernel_flags_r : pages.

(** The walk ends nowhere, or resolves to the address itself with kernel
    permissions. *)
Definition kernel_entry (va : N) (w : option (N * N)) : Prop :=
  w = None ∨ ∃ f, kernel_flags f ∧ resolve va w = Some (va, f).

Lemma land_1023 f : f < 1024 → N.land f 0x3FF = f.
Proof.
  intros Hf. change 0x3FF with (N.ones 10). rewrite N.land_ones. by apply N.mod_small.
Qed.

Lemma identity_entry va l pa f :
  kernel_flags f → va < 2 ^ 39 → pa mod 4096 = 0 → pa + va mod 2 ^ (12 + 9 * l) = va →
  kernel_entry va (walk_of l (pte pa f)).
Proof.
  intros Hk Hva Ha Hid. right. exists f. split; [done|]. destruct Hk as (Hf & V & L & _).
  assert (pa < PHYS_LIMIT) as Hp.
  { unfold PHYS_LIMIT. apply (N.le_lt_trans _ va); [lia|]. eapply N.lt_trans; [exact Hva|done]. }
  unfold walk_of. rewrite pte_valid_pte, V by done. unfold resolve. cbn [mbind option_bind].
  rewrite pte_leaf_pte, L, pte_addr_pte, Hid, pte_flags, land_1023 by done. done.
Qed.

Lemma kernel_entry_region start end_ f va w :
  kernel_flags f → va < 2 ^ 39 → kernel_entry va w → kernel_entry va (region_upd start end_ f va w).
Proof.
  intros Hk Hva Hw. unfold region_upd. case_decide; [|done]. apply identity_entry; [done|done|..].
  - apply N.Div0.mod_mul.
  - change (2 ^ (12 + 9 * 0)) with 4096. clear. dlia.
Qed.

Lemma kernel_entry_supers start end_ f va w :
  kernel_flags f → va < 2 ^ 39 → kernel_entry va w → kernel_entry va (supers_upd start end_ f va w).
Proof.
  intros Hk Hva Hw. unfold supers_upd. case_decide; [|done]. apply identity_entry; [done|done|..].
  - unfold SUPER_PAGE. clear. dlia.
  - change (2 ^ (12 + 9 * 1)) with SUPER_PAGE. unfold SUPER_PAGE. clear. dlia.
Qed.

Lemma kernel_entry_unmap l va w : kernel_entry va w → kernel_entry va (unmap_upd l va w).
Proof. intros Hw. unfold unmap_upd. case_decide; [by left|done]. Qed.

Lemma kernel_view_safe ly va : layout_ok ly → va < 2 ^ 39 → kernel_entry va (kernel_view ly va).
Proof.
  intros L Hva. unfold kernel_view. case_decide as Hu.
  - destruct (lo_uart _ L) as [Ha Hlt]. apply identity_entry; auto with pages.
    change (2 ^ (12 + 9 * 0)) with 4096. clear - Hu Ha. dlia.
  - do 2 apply kernel_entry_unmap. case_decide; [by left|].
    apply kernel_entry_supers; auto with pages.
    do 5 (apply kernel_entry_region; [auto with pages|done|]).
    apply kernel_entry_supers; auto with pages. by left.
Qed.
