(* ===== verification/MmuDestroy.v ===== *)
(** * Destroying an address space

    [destroy_root] of kernel/src/mmu.rs walks a dying tree and gives its user pages
    and tables back.  The loops read tables while pages are being freed; the
    specification tracks the set of pages freed so far. *)

From Stdlib Require Import ZifyN ZifyNat.
From stdpp Require Import base gmap numbers functions list.
From S2P Require Import Prelude Mem MemInv PageAlloc Mmu Pte MmuTree.

Section frees.
Context `{PageAllocator G} (g0 : G) (s0 : PMem).

(** The pages in [F] have been freed since [s0], and the others are as they were. *)
Record freed (F : N → Prop) (g : G) (s : PMem) : Prop := mkFreed {
  fr_inv : pinv s g;
  fr_live x : live g x ↔ live g0 x ∧ ¬ F x;
  fr_area : same_area s0 s;
  fr_keeps x : live g x → keeps s0 s x
}.

(** [m] reads the pages in [R] and frees exactly the pages in [X]. *)
Definition frees (R X : N → Prop) (m : M PMem ()) : Prop :=
  ∀ F g s, freed F g s → (∀ x, R x → live g0 x ∧ ¬ F x) → (∀ x, X x → live g0 x ∧ ¬ F x) →
  ∃ g' s', m s = Ret (tt, s') ∧ freed (λ x, F x ∨ X x) g' s'.

Lemma freed_ext F F' g s : (∀ x, F x ↔ F' x) → freed F g s → freed F' g s.
Proof. intros HF [I L A K]. split; [done| |done|done]. intros x. by rewrite L, HF. Qed.

Lemma frees_ext R R' X X' m :
  (∀ x, R x → R' x ∨ X' x) → (∀ x, X x ↔ X' x) → frees R X m → frees R' X' m.
Proof.
  intros HR HX Hm F g s Hf HR' HX'. destruct (Hm F g s Hf) as (g' & s' & E & Hf').
  - intros x Hx. destruct (HR x Hx); auto.
  - intros x Hx. apply HX'. by apply HX.
  - exists g', s'. split; [done|]. eapply freed_ext; [|exact Hf']. intros x. simpl. by rewrite HX.
Qed.

Lemma frees_ret R : frees R (λ _, False) (mret tt).
Proof.
  intros F g s Hf _ _. exists g, s. split; [done|]. eapply freed_ext; [|exact Hf]. tauto.
Qed.

Lemma frees_seq R1 R2 X1 X2 m1 m2 :
  frees R1 X1 m1 → frees R2 X2 m2 → (∀ x, X1 x → ¬ R2 x) → (∀ x, X1 x → ¬ X2 x) →
  frees (λ x, R1 x ∨ R2 x) (λ x, X1 x ∨ X2 x) (m1;; m2).
Proof.
  intros H1 H2 HR HX F g s Hf HR' HX'.
  destruct (H1 F g s Hf) as (g1 & s1 & E1 & Hf1); [naive_solver..|].
  destruct (H2 _ g1 s1 Hf1) as (g2 & s2 & E2 & Hf2).
  - intros x Hx. destruct (HR' x (or_intror Hx)). split; [done|]. intros [?|Hx1]; [done|].
    by apply (HR x Hx1).
  - intros x Hx. destruct (HX' x (or_intror Hx)). split; [done|]. intros [?|Hx1]; [done|].
    by apply (HX x Hx1).
  - exists g2, s2. rewrite (bind_ret _ _ _ _ _ E1). split; [done|].
    eapply freed_ext; [|exact Hf2]. tauto.
Qed.

Lemma frees_for_each (R : N → Prop) (X : N → N → Prop) f l :
  NoDup l → (∀ i, i ∈ l → frees (λ x, R x) (X i) (f i)) →
  (∀ i x, i ∈ l → X i x → ¬ R x) →
  (∀ i j x, i ∈ l → j ∈ l → X i x → X j x → i = j) →
  frees R (λ x, ∃ i, i ∈ l ∧ X i x) (for_each f l).
Proof.
  induction l as [|i l IH]; intros Hnd Hf HR HX; cbn [for_each].
  { eapply frees_ext; [| |apply (frees_ret R)]; [by left|]. intros x. split; [done|].
    by intros (i & ?%not_elem_of_nil & _). }
  apply NoDup_cons in Hnd as [Hi Hnd].
  eapply frees_ext; [| |eapply frees_seq; [apply Hf; by left|apply IH; [done|..]|..]].
  - intros x [?|?]; by left.
  - intros x. setoid_rewrite elem_of_cons. naive_solver.
  - intros j Hj. apply Hf. by right.
  - intros j x Hj. apply HR. by right.
  - intros j k x Hj Hk. apply HX; by right.
  - intros x Hx. apply (HR i); [by left|done].
  - intros x Hx (j & Hj & Hx'). assert (i = j) as <- by (apply (HX i j x); [by left|by right|done|done]).
    done.
Qed.

Lemma frees_free_pages a : frees (λ _, False) (λ x, x = a) (expect_ok (free_pages a)).
Proof.
  intros F g s [I L A K] _ HX. destruct (HX a eq_refl) as [Ha HF].
  destruct (free_law s g a I) as (s' & g' & E & I' & L' & A' & K'); [by apply L|].
  exists g', s'. rewrite (expect_ok_ok _ _ _ _ E). split; [done|]. split; [done|..].
  - intros x. rewrite L', L. tauto.
  - by eapply same_area_trans.
  - intros x Hx. apply (keeps_trans _ s); [|by apply K']. apply K. by apply L'.
Qed.

(** Reading an entry of a page that is still live gives the original entry. *)
Lemma frees_read R X t i k :
  R t → i < 512 → frees R X (k (pte_at s0 t i)) → frees R X (e ← pte_read t i; k e).
Proof.
  intros Ht Hi Hk F g s Hf HR HX. unfold pte_read. rewrite bind_gets.
  assert (pte_at s t i = pte_at s0 t i) as ->; [|by eapply Hk].
  unfold pte_at. apply (fr_keeps _ _ _ Hf); [|done]. apply (fr_live _ _ _ Hf). auto.
Qed.
End frees.

Section destroy.
Context `{PageAllocator G} (g : G) (s : PMem) (root : N) (W : pt_wf g s root).

(** The page a last-level entry maps for the user, if the allocator manages it. *)
Definition user_page (s : PMem) (e : N) (x : N) : Prop :=
  pte_valid e = true ∧ pte_user e = true ∧ page_in_range (pte_addr e) s = true ∧ x = pte_addr e.

(** The user pages below a last-level table. *)
Definition leaf_pages (t x : N) : Prop := ∃ i, i < 512 ∧ user_page s (pte_at s t i) x.

(** The user pages of the space. *)
Definition owned (x : N) : Prop :=
  ∃ i2 i1 t, i2 < 512 ∧ i1 < 512 ∧ tbl s root (PL0 i2 i1) = Some t ∧ leaf_pages t x.

Definition table (x : N) : Prop := ∃ p, path_ok p ∧ tbl s root p = Some x.

(** User pages belong to this space alone: they are live, mapped once, and are
    not tables. *)
Record exclusive : Prop := mkExclusive {
  ex_live x : owned x → live g x;
  ex_table x : owned x → ¬ table x;
  ex_once i2 i1 t i j2 j1 u j x :
    i2 < 512 → i1 < 512 → i < 512 → j2 < 512 → j1 < 512 → j < 512 →
    tbl s root (PL0 i2 i1) = Some t → tbl s root (PL0 j2 j1) = Some u →
    user_page s (pte_at s t i) x → user_page s (pte_at s u j) x → i2 = j2 ∧ i1 = j1 ∧ i = j
}.

Context (X : exclusive).

Lemma destroy_leaf_frees t i :
  i < 512 → frees g s (λ x, x = t) (user_page s (pte_at s t i)) (destroy_leaf t i).
Proof.
  intros Hi. unfold destroy_leaf. apply frees_read; [done|done|]. unfold user_page.
  set (e := pte_at s t i). destruct (pte_valid e); cbn [negb].
  2:{ eapply frees_ext; [| |apply (frees_ret g s (λ x, x = t))]; naive_solver. }
  destruct (pte_user e).
  2:{ eapply frees_ext; [| |apply (frees_ret g s (λ x, x = t))]; naive_solver. }
  intros F g1 s1 Hf HR HX. rewrite bind_gets, (same_area_in_range s s1) by apply Hf.
  destruct (page_in_range (pte_addr e) s).
  - refine (frees_ext g s _ _ _ _ _ _ _ (frees_free_pages g s (pte_addr e)) F g1 s1 Hf HR HX); naive_solver.
  - refine (frees_ext g s _ _ _ _ _ _ _ (frees_ret g s (λ x, x = t)) F g1 s1 Hf HR HX); naive_solver.
Qed.

Lemma table_not_page i2 i1 t x : i2 < 512 → i1 < 512 →
  tbl s root (PL0 i2 i1) = Some t → leaf_pages t x → ¬ table x.
Proof. intros H2 H1 Ht Hx. apply (ex_table X). by exists i2, i1, t. Qed.

(** What goes with a middle-level entry: its table and the pages below. *)
Definition l1_pages (t1 i1 x : N) : Prop :=
  ∃ t, entry_table (pte_at s t1 i1) = Some t ∧ (leaf_pages t x ∨ x = t).

Lemma destroy_l1_frees i2 t1 i1 :
  i2 < 512 → i1 < 512 → tbl s root (PL1 i2) = Some t1 →
  frees g s (λ x, x = t1) (l1_pages t1 i1) (destroy_l1_entry t1 i1).
Proof.
  intros H2 H1 Ht1. unfold destroy_l1_entry. apply frees_read; [done|done|].
  unfold l1_pages, entry_table. set (e := pte_at s t1 i1).
  destruct (pte_valid e) eqn:V; cbn [negb andb];
    [|eapply frees_ext; [| |apply (frees_ret g s (λ x, x = t1))]; naive_solver].
  destruct (pte_leaf e) eqn:L; cbn [negb andb];
    [eapply frees_ext; [| |apply (frees_ret g s (λ x, x = t1))]; naive_solver|].
  assert (tbl s root (PL0 i2 i1) = Some (pte_addr e)) as Ht.
  { cbn [tbl] in *. rewrite Ht1. simpl. unfold entry_table. by fold e; rewrite V, L. }
  assert (live g (pte_addr e)) as Hl by (by apply (pt_live _ _ _ W (PL0 i2 i1))).
  eassert (frees g s (λ x, x = pte_addr e) _ (for_each (destroy_leaf (pte_addr e)) (nrange 0 512))) as Hloop.
  { apply (frees_for_each g s (λ x, x = pte_addr e) (λ i, user_page s (pte_at s (pte_addr e) i))).
    - apply NoDup_nrange.
    - intros i Hi%elem_of_nrange. apply destroy_leaf_frees. lia.
    - intros i x Hi%elem_of_nrange Hx ->. apply (table_not_page i2 i1 (pte_addr e) (pte_addr e)); try done.
      + exists i. split; [lia|done].
      + by exists (PL0 i2 i1).
    - intros i j x Hi%elem_of_nrange Hj%elem_of_nrange Hx Hy.
      apply (ex_once X i2 i1 (pte_addr e) i i2 i1 (pte_addr e) j x); try done; lia. }
  assert (∀ x, (∃ i, i ∈ nrange 0 512 ∧ user_page s (pte_at s (pte_addr e) i) x) ↔ leaf_pages (pte_addr e) x) as Hlp.
  { intros x. unfold leaf_pages. setoid_rewrite elem_of_nrange. split; intros (i & ? & ?); exists i; split; auto; lia. }
  eapply frees_ext; [| |eapply frees_seq; [exact Hloop|apply (frees_free_pages g s (pte_addr e))|..]].
  - intros x [->|[]]. right. exists (pte_addr e). auto.
  - intros x. cbv beta. rewrite Hlp. split.
    + intros [?| ->]; exists (pte_addr e); auto.
    + by intros (t & [= <-] & ?).
  - intros x _ [].
  - intros x Hx%Hlp ->. apply (table_not_page i2 i1 (pte_addr e) (pte_addr e)); try done.
    by exists (PL0 i2 i1).
Qed.

(** What goes with a root entry. *)
Definition l2_pages (i2 x : N) : Prop :=
  ∃ t1, tbl s root (PL1 i2) = Some t1 ∧ ((∃ i1, i1 < 512 ∧ l1_pages t1 i1 x) ∨ x = t1).

Lemma l1_pages_cases i2 t1 i1 x : i2 < 512 → i1 < 512 → tbl s root (PL1 i2) = Some t1 →
  l1_pages t1 i1 x → ∃ t, tbl s root (PL0 i2 i1) = Some t ∧
    (x = t ∨ ∃ i, i < 512 ∧ user_page s (pte_at s t i) x).
Proof.
  intros H2 H1 Ht1 (t & Et & Hx). exists t. split; [|destruct Hx; auto].
  cbn [tbl] in *. by rewrite Ht1.
Qed.

(** Pages of different subtrees are different. *)
Lemma l1_pages_inj i2 t1 i1 j2 u1 j1 x :
  i2 < 512 → i1 < 512 → j2 < 512 → j1 < 512 →
  tbl s root (PL1 i2) = Some t1 → tbl s root (PL1 j2) = Some u1 →
  l1_pages t1 i1 x → l1_pages u1 j1 x → i2 = j2 ∧ i1 = j1.
Proof.
  intros H2 H1 H2' H1' Ht Hu Hx Hy.
  destruct (l1_pages_cases i2 t1 i1 x H2 H1 Ht Hx) as (t & Tt & Cx).
  destruct (l1_pages_cases j2 u1 j1 x H2' H1' Hu Hy) as (u & Tu & Cy).
  destruct Cx as [->|(i & Hi & Ui)], Cy as [->|(j & Hj & Uj)].
  - by assert (PL0 i2 i1 = PL0 j2 j1) as [= -> ->] by (by apply (pt_inj _ _ _ W _ _ u)).
  - exfalso. apply (table_not_page j2 j1 u t H2' H1' Tu); [by exists j|by exists (PL0 i2 i1)].
  - exfalso. apply (table_not_page i2 i1 t u H2 H1 Tt); [by exists i|by exists (PL0 j2 j1)].
  - destruct (ex_once X i2 i1 t i j2 j1 u j x) as (-> & -> & _); done.
Qed.

Lemma l1_pages_not_l1 i2 t1 i1 j2 x :
  i2 < 512 → i1 < 512 → j2 < 512 → tbl s root (PL1 i2) = Some t1 →
  l1_pages t1 i1 x → tbl s root (PL1 j2) ≠ Some x.
Proof.
  intros H2 H1 H2' Ht Hx Hu. destruct (l1_pages_cases i2 t1 i1 x H2 H1 Ht Hx) as (t & Tt & Cx).
  destruct Cx as [->|(i & Hi & Ui)].
  - by assert (PL0 i2 i1 = PL1 j2) by (by apply (pt_inj _ _ _ W _ _ t)).
  - apply (table_not_page i2 i1 t x H2 H1 Tt); [by exists i|by exists (PL1 j2)].
Qed.

Lemma destroy_l2_frees i2 :
  i2 < 512 → frees g s (λ x, x = root) (l2_pages i2) (destroy_l2_entry root i2).
Proof.
  intros H2. unfold destroy_l2_entry. apply frees_read; [done|done|].
  unfold l2_pages. cbn [tbl]. unfold entry_table. set (e := pte_at s root i2).
  destruct (pte_valid e) eqn:V; cbn [negb andb];
    [|eapply frees_ext; [| |apply (frees_ret g s (λ x, x = root))]; naive_solver].
  destruct (pte_leaf e) eqn:L; cbn [negb andb];
    [eapply frees_ext; [| |apply (frees_ret g s (λ x, x = root))]; naive_solver|].
  assert (tbl s root (PL1 i2) = Some (pte_addr e)) as Ht.
  { cbn [tbl]. unfold entry_table. by fold e; rewrite V, L. }
  eassert (frees g s (λ x, x = pte_addr e) _ (for_each (destroy_l1_entry (pte_addr e)) (nrange 0 512))) as Hloop.
  { apply (frees_for_each g s (λ x, x = pte_addr e) (l1_pages (pte_addr e))).
    - apply NoDup_nrange.
    - intros i Hi%elem_of_nrange. apply (destroy_l1_frees i2); [done|lia|done].
    - intros i x Hi%elem_of_nrange Hx ->. by apply (l1_pages_not_l1 i2 (pte_addr e) i i2 (pte_addr e)); try lia.
    - intros i j x Hi%elem_of_nrange Hj%elem_of_nrange Hx Hy.
      by apply (l1_pages_inj i2 (pte_addr e) i i2 (pte_addr e) j x); try lia. }
  eapply frees_ext; [| |eapply frees_seq; [exact Hloop|apply (frees_free_pages g s (pte_addr e))|..]].
  - intros x [->|[]]. right. exists (pte_addr e). auto.
  - intros x. cbv beta. setoid_rewrite elem_of_nrange. split.
    + intros [(i & Hi & Hx)| ->]; exists (pte_addr e); [|by auto].
      split; [done|]. left. exists i. split; [lia|done].
    + intros (t1 & [= <-] & [(i & Hi & Hx)| ->]); [left|by right]. exists i. split; [lia|done].
  - intros x _ [].
  - intros x (i & Hi%elem_of_nrange & Hx) ->.
    by apply (l1_pages_not_l1 i2 (pte_addr e) i i2 (pte_addr e)); try lia.
Qed.

Lemma l2_pages_cases i2 x : i2 < 512 → l2_pages i2 x → owned x ∨ ∃ p, path_ok p ∧ p ≠ PRoot ∧ tbl s root p = Some x.
Proof.
  intros H2 (t1 & Ht1 & [(i1 & H1 & Hx)| ->]).
  - destruct (l1_pages_cases i2 t1 i1 x H2 H1 Ht1 Hx) as (t & Tt & [->|(i & Hi & Ui)]).
    + right. by exists (PL0 i2 i1).
    + left. exists i2, i1, t. split; [done|]. split; [done|]. split; [done|]. by exists i.
  - right. by exists (PL1 i2).
Qed.

Lemma l2_pages_not_root i2 : i2 < 512 → ¬ l2_pages i2 root.
Proof.
  intros H2 Hx. destruct (l2_pages_cases i2 root H2 Hx) as [Ho|(p & Hp & Hne & Ht)].
  - apply (ex_table X root Ho). by exists PRoot.
  - apply Hne. by apply (pt_inj _ _ _ W p PRoot root).
Qed.

Lemma l2_pages_inj i2 j2 x : i2 < 512 → j2 < 512 → l2_pages i2 x → l2_pages j2 x → i2 = j2.
Proof.
  intros H2 H2' (t1 & Ht1 & Cx) (u1 & Hu1 & Cy).
  destruct Cx as [(i1 & H1 & Hx)|Ex], Cy as [(j1 & H1' & Hy)|Ey].
  - by apply (l1_pages_inj i2 t1 i1 j2 u1 j1 x).
  - exfalso. apply (l1_pages_not_l1 i2 t1 i1 j2 x H2 H1 H2' Ht1 Hx). by rewrite Ey.
  - exfalso. apply (l1_pages_not_l1 j2 u1 j1 i2 x H2' H1' H2 Hu1 Hy). by rewrite Ex.
  - subst. by assert (PL1 i2 = PL1 j2) as [= ->] by (by apply (pt_inj _ _ _ W _ _ u1)).
Qed.

(** The pages [destroy_root] frees are the tables and the user pages. *)
Lemma all_pages x :
  (∃ i2, i2 ∈ nrange 0 512 ∧ l2_pages i2 x) ∨ x = root ↔ table x ∨ owned x.
Proof.
  setoid_rewrite elem_of_nrange. split.
  - intros [(i2 & Hi & Hx)| ->]; [|left; by exists PRoot].
    destruct (l2_pages_cases i2 x ltac:(lia) Hx) as [?|(p & Hp & _ & Ht)]; [by right|left; by exists p].
  - intros [([|i2|i2 i1] & Hp & Ht)|(i2 & i1 & t & H2 & H1 & Ht & i & Hi & Ui)].
    + right. by injection Ht.
    + left. exists i2. cbn [path_ok] in Hp. split; [lia|]. exists x. auto.
    + left. destruct Hp as [H2 H1]. exists i2. split; [lia|]. cbn [tbl] in Ht.
      destruct (entry_table (pte_at s root i2)) as [t1|] eqn:E; [|done]. exists t1.
      split; [done|]. left. exists i1. split; [done|]. exists x. auto.
    + left. exists i2. split; [lia|]. cbn [tbl] in Ht.
      destruct (entry_table (pte_at s root i2)) as [t1|] eqn:E; [|done]. exists t1.
      split; [done|]. left. exists i1. split; [done|]. exists t. split; [done|]. left. by exists i.
Qed.

Lemma destroy_root_spec :
  ∃ s' g', destroy_root root s = Ret (tt, s') ∧ pinv s' g' ∧ same_area s s' ∧
    (∀ x, live g' x ↔ live g x ∧ ¬ table x ∧ ¬ owned x) ∧ (∀ x, live g' x → keeps s s' x).
Proof.
  eassert (frees g s (λ x, x = root) _ (for_each (destroy_l2_entry root) (nrange 0 512))) as Hloop.
  { apply (frees_for_each g s (λ x, x = root) l2_pages).
    - apply NoDup_nrange.
    - intros i Hi%elem_of_nrange. apply destroy_l2_frees. lia.
    - intros i x Hi%elem_of_nrange Hx ->. by apply (l2_pages_not_root i); [lia|].
    - intros i j x Hi%elem_of_nrange Hj%elem_of_nrange Hx Hy. by apply (l2_pages_inj i j x); try lia. }
  pose proof (frees_seq g s _ _ _ _ _ _ Hloop (frees_free_pages g s root)) as Hall.
  destruct (Hall (λ _ _, id) (λ x '(ex_intro _ i (conj Hi Hx)) Er,
    l2_pages_not_root i ltac:(apply elem_of_nrange in Hi; lia) ltac:(by rewrite <-Er))
    (λ _, False) g s) as (g' & s' & E & [I' L' A' K']).
  - split; [apply W|tauto|done|done].
  - intros x [->|[]]. split; [by apply (pt_live _ _ _ W PRoot)|tauto].
  - intros x Hx%all_pages. split; [|tauto].
    destruct Hx as [(p & Hp & Ht)|Ho]; [by apply (pt_live _ _ _ W p)|by apply (ex_live X)].
  - exists s', g'. split; [done|]. split; [done|]. split; [done|]. split; [|done].
    intros x. rewrite L', all_pages. tauto.
Qed.
End destroy.
