(* ===== verification/MmuProps.v ===== *)
(** * Properties of address spaces

    The contract of the public functions of kernel/src/mmu.rs. *)

From Stdlib Require Import ZifyN ZifyNat.
From stdpp Require Import base gmap numbers functions list.
From S2P Require Import Prelude Mem MemInv MemSpec MemInit MemProps PageAlloc.
From S2P Require Import Mmu Pte MmuTree MmuSpec MmuKernel MmuDestroy.

Section shared.
Context `{PageAllocator G}.

(** A zeroed page is the root of an empty space. *)
Lemma fresh_root_wf g g' s s' root :
  fresh_page s s' g g' root → b_base (buddy s) + b_real_count (buddy s) * PAGE_SIZE ≤ PHYS_LIMIT →
  pt_wf g' s' root ∧ (∀ va, walk root va s' = None) ∧ ∀ p, path_ok p → p ≠ PRoot → tbl s' root p = None.
Proof.
  intros F Hp.
  assert (∀ j, j < 512 → pte_at s' root j = 0) as Hz by (intros j Hj; by apply (fpg_zero _ _ _ _ _ F)).
  assert (∀ p, path_ok p → p ≠ PRoot → tbl s' root p = None) as Ht.
  { intros [|j|j k] Hok Hne; [done|..]; cbn [path_ok] in Hok; cbn [tbl]; rewrite Hz by lia; done. }
  split; [split|split]; [apply F|..|done].
  - intros p a Hok Ha. destruct (decide (p = PRoot)) as [->|Hne]; [|by rewrite Ht in Ha].
    injection Ha as <-. apply (fpg_live _ _ _ _ _ F). by right.
  - intros p q a Hok Hok' Ha Hb. destruct (decide (p = PRoot)) as [->|Hne]; [|by rewrite Ht in Ha].
    destruct (decide (q = PRoot)) as [->|Hne']; [done|by rewrite Ht in Hb].
  - destruct (fpg_area _ _ _ _ _ F) as [-> ->]. done.
  - intros va. rewrite walk_tbl, Ht by (cbn; auto with pages). rewrite Hz by auto with pages. done.
Qed.

(** A step in the tables of one space is invisible in a space with other tables. *)
Lemma step_isolated g g' s s' r1 r2 :
  pt_step g g' s s' r1 → pt_wf g s r2 →
  (∀ p q a, path_ok p → path_ok q → tbl s r1 p = Some a → tbl s r2 q ≠ Some a) →
  pt_wf g' s' r2 ∧ (∀ va, walk r2 va s' = walk r2 va s) ∧
  (∀ p q a, path_ok p → path_ok q → tbl s' r1 p = Some a → tbl s' r2 q ≠ Some a).
Proof.
  intros [W1 L A N K] W2 D.
  assert (∀ p a, path_ok p → tbl s r2 p = Some a → keeps s s' a) as K2.
  { intros p a Hp Ha. apply K; [by apply (pt_live _ _ _ W2 p)|]. intros q Hq Hb. by apply (D q p a). }
  pose proof (tbl_ext g s s' r2 W2 K2) as T2. split; [|split].
  - by apply (pt_wf_ext g g' s s' r2 W2 (pt_pinv _ _ _ W1)).
  - intros va. by apply (walk_ext g).
  - intros p q a Hp Hq Ha. rewrite T2 by done. intros Hb.
    destruct (N p a Hp Ha) as [(r & Hr & Hc)|Hn]; [by apply (D r q a)|].
    apply Hn. by apply (pt_live _ _ _ W2 q).
Qed.
End shared.

(** A machine with 16 pages and an empty space, for the closed instances below. *)
Definition boot_root : outcome (option N * PMem) :=
  (buddy_init 0x81000000 16 [];; alloc_pages_zeroed 0) (mkPMem allocator0 ∅).

Definition is_ok {A E S} (o : outcome (result A E * S)) : bool :=
  match o with Ret (Ok _, _) => true | _ => false end.
Definition is_some {A S} (o : outcome (option A * S)) : bool :=
  match o with Ret (Some _, _) => true | _ => false end.

(** Evaluate a test of the result of a run. *)
Definition test_ret {A S} (o : outcome (A * S)) (k : A → S → bool) : bool :=
  match o with Ret (a, s) => k a s | _ => false end.

Lemma booted_root : ∃ s (g : N * blocks) root,
  boot_root = Ret (Some root, s) ∧ pt_wf g s root ∧ (∀ va, walk root va s = None) ∧
  (∀ p, path_ok p → p ≠ PRoot → tbl s root p = None) ∧ live g root.
Proof.
  destruct (booted_inv 0x81000000 16 eq_refl ltac:(done)) as (s & bl & B & I & A & Eb & Er).
  assert (boot_root = alloc_pages_zeroed 0 s) as -> by (exact (bind_ret _ _ _ _ _ B)). clear B.
  assert (pinv s (0x81000000, bl)) as Hp by (split; done).
  destruct (alloc_zeroed_law s (0x81000000, bl) Hp) as [E|(a & s' & g' & E & F)].
  - exfalso. destruct (all_free_pages s bl 0 I A ltac:(lia)) as (h & o & Hh & _).
    unfold alloc_pages_zeroed, alloc_pages in E.
    destruct (buddy_alloc_cases s bl 0 I ltac:(unfold MAX_ORDER; lia)) as [[_ Hn]|(i & s1 & bl1 & E1 & P)].
    { specialize (Hn _ _ Hh). lia. }
    rewrite (bind_ret _ _ _ _ _ E1) in E. inv_ret E. done.
  - destruct (fresh_root_wf _ _ _ _ _ F) as (W & Hw & Ht); [rewrite Eb, Er; done|].
    exists s', g', a. split; [done|]. split; [done|]. split; [done|]. split; [done|].
    apply (fpg_live _ _ _ _ _ F). by right.
Qed.

(** Two empty spaces. *)
Lemma booted_roots : ∃ s (g : N * blocks) r1 r2,
  pt_wf g s r1 ∧ pt_wf g s r2 ∧
  (∀ p q a, path_ok p → path_ok q → tbl s r1 p = Some a → tbl s r2 q ≠ Some a).
Proof.
  destruct booted_root as (s & g & r1 & E & W & Hw & Ht & Hl).
  assert (test_ret boot_root (λ _ s, is_some (alloc_pages_zeroed 0 s)) = true) as T
    by (vm_compute; reflexivity).
  rewrite E in T. simpl in T. clear E.
  destruct (alloc_zeroed_law s g (pt_pinv _ _ _ W)) as [E|(r2 & s' & g' & _ & F)];
    [by rewrite E in T|].
  destruct (fresh_root_wf _ _ _ _ _ F (pt_phys _ _ _ W)) as (W2 & _ & Ht2).
  destruct (fresh_page_grow g g' s s' r1 r2 W F) as [[P _ _] Hn].
  exists s', g', r1, r2. split; [apply P|]. split; [done|].
  intros p q a Hp Hq Ha Hb. destruct (decide (q = PRoot)) as [->|]; [|by rewrite Ht2 in Hb].
  injection Hb as <-. by apply (Hn p).
Qed.

(** ** Mapping and unmapping user pages *)

(** C4: [map_user_page] on a well-formed address space.  When it answers [Ok] the
    address was in the user half and unmapped, the physical page was page aligned
    and in the allocator's area, the walk of that page now ends in exactly the
    requested entry with the user bit set, and the walk of every other address is
    as before.  When it answers [Err] no walk changed.  In both cases the tables
    stay a tree of live pages and no live page other than a table of this space was
    written. *)
Theorem map_user_page_correct `{PageAllocator G} (g : G) (s : PMem) (root va pa f : N) :
  pt_wf g s root → f < 1024 → pte_valid f = true →
  (∃ s' g', map_user_page root va pa f s = Ret (Err tt, s') ∧ pt_step g g' s s' root ∧
    ∀ vb, walk root vb s' = walk root vb s) ∨
  ∃ s' g', map_user_page root va pa f s = Ret (Ok tt, s') ∧ pt_step g g' s s' root ∧
    va < USER_VA_LIMIT ∧ pa mod 4096 = 0 ∧ page_in_range pa s = true ∧ is_mapped root va s = false ∧
    leaf_pte root va s' = pte pa (N.lor f PTE_U) ∧ pte_addr (leaf_pte root va s') = pa ∧
    ∀ vb, ¬ same_slot vb va → walk root vb s' = walk root vb s.
Proof.
  intros W Hf Hv. destruct (map_user_page_spec g s root va pa f W) as [(s' & g' & E & [P _ L])|
    (s' & g' & E & Hva & Hpa & Hr & Hn & P & Wk)]; [left; by exists s', g'|right].
  exists s', g'. split; [done|]. split; [done|]. split; [done|]. split; [done|]. split; [done|].
  assert (pa < PHYS_LIMIT) as Hlt.
  { pose proof (pt_phys _ _ _ W). unfold page_in_range in Hr. bool_to_prop. lia. }
  assert (N.lor f PTE_U < 1024) as Hlf by (apply (lor_small f PTE_U 10); done).
  assert (leaf_pte root va s' = pte pa (N.lor f PTE_U)) as Hl.
  { rewrite leaf_pte_walk, Wk, decide_True by done. unfold walk_of.
    rewrite pte_valid_pte, pte_valid_lor, Hv by done. done. }
  split; [unfold is_mapped; by rewrite leaf_pte_walk, Hn|].
  split; [done|]. split; [rewrite Hl; by apply pte_addr_pte|].
  intros vb Hs. by rewrite Wk, decide_False.
Qed.

Lemma map_user_page_correct_witness :
  ∃ s (g : N * blocks) root, pt_wf g s root ∧
    ((∃ s' g', map_user_page root 0x10000 0x81001000 PTE_LEAF_RW s = Ret (Err tt, s') ∧
        pt_step g g' s s' root ∧ ∀ vb, walk root vb s' = walk root vb s) ∨
     ∃ s' g', map_user_page root 0x10000 0x81001000 PTE_LEAF_RW s = Ret (Ok tt, s') ∧
       pt_step g g' s s' root ∧
       0x10000 < USER_VA_LIMIT ∧ 0x81001000 mod 4096 = 0 ∧ page_in_range 0x81001000 s = true ∧
       is_mapped root 0x10000 s = false ∧
       leaf_pte root 0x10000 s' = pte 0x81001000 (N.lor PTE_LEAF_RW PTE_U) ∧
       pte_addr (leaf_pte root 0x10000 s') = 0x81001000 ∧
       ∀ vb, ¬ same_slot vb 0x10000 → walk root vb s' = walk root vb s).
Proof.
  destruct booted_root as (s & g & root & _ & W & _). exists s, g, root. split; [exact W|].
  apply (map_user_page_correct g s root 0x10000 0x81001000 PTE_LEAF_RW W);
    [vm_compute; reflexivity|vm_compute; reflexivity].
Defined.

(** [map_user_page] never replaces a mapping: on an address that is mapped in
    any way (a user page, a kernel page or a superpage), it answers [Err] and every
    walk of the space stays what it was. *)
Theorem map_user_page_no_overwrite `{PageAllocator G} (g : G) (s : PMem) (root va pa f : N) :
  pt_wf g s root → is_mapped root va s = true →
  ∃ s' g', map_user_page root va pa f s = Ret (Err tt, s') ∧ pt_step g g' s s' root ∧
    ∀ vb, walk root vb s' = walk root vb s.
Proof.
  intros W Hm. destruct (map_user_page_spec g s root va pa f W) as [(s' & g' & E & [P _ L])|
    (s' & g' & E & Hva & Hpa & Hr & Hn & _)]; [by exists s', g'|].
  exfalso. unfold is_mapped in Hm. by rewrite leaf_pte_walk, Hn in Hm.
Qed.

Lemma map_user_page_no_overwrite_witness :
  ∃ s (g : N * blocks) root, is_mapped root 0x10000 s = true ∧
    ∃ s' g', map_user_page root 0x10000 0x81002000 PTE_LEAF_RW s = Ret (Err tt, s') ∧
      pt_step g g' s s' root ∧ ∀ vb, walk root vb s' = walk root vb s.
Proof.
  destruct booted_root as (s & g & root & E & W & _).
  assert (test_ret boot_root (λ r s, match r with
    | Some root => test_ret (map_user_page root 0x10000 0x81001000 PTE_LEAF_RW s)
                     (λ _ s, is_mapped root 0x10000 s)
    | None => false end) = true) as T by (vm_compute; reflexivity).
  rewrite E in T. cbn [test_ret] in T.
  assert (∃ r s1 g1, map_user_page root 0x10000 0x81001000 PTE_LEAF_RW s = Ret (r, s1) ∧ pt_wf g1 s1 root)
    as (r & s1 & g1 & E1 & W1).
  { destruct (map_user_page_spec g s root 0x10000 0x81001000 PTE_LEAF_RW W) as [(s' & g' & E1 & [P _ _])|
      (s' & g' & E1 & _ & _ & _ & _ & P & _)]; eexists; exists s', g'; (split; [exact E1|apply P]). }
  rewrite E1 in T. cbn [test_ret] in T. exists s1, g1, root. split; [exact T|].
  apply (map_user_page_no_overwrite g1 s1 root 0x10000 0x81002000 PTE_LEAF_RW W1 T).
Defined.

(** Address spaces are isolated: whatever [map_user_page], on any arguments
    and with any answer, does to the space [r1], the walks of a space [r2] whose
    tables are other pages do not change, its tables stay well formed and the two
    sets of tables stay disjoint. *)
Theorem map_user_page_isolated `{PageAllocator G} (g : G) (s : PMem) (r1 r2 va pa f : N) :
  pt_wf g s r1 → pt_wf g s r2 →
  (∀ p q a, path_ok p → path_ok q → tbl s r1 p = Some a → tbl s r2 q ≠ Some a) →
  ∃ r s' g', map_user_page r1 va pa f s = Ret (r, s') ∧ pt_wf g' s' r1 ∧ pt_wf g' s' r2 ∧
    (∀ vb, walk r2 vb s' = walk r2 vb s) ∧
    (∀ p q a, path_ok p → path_ok q → tbl s' r1 p = Some a → tbl s' r2 q ≠ Some a).
Proof.
  intros W1 W2 D.
  assert (∃ r s' g', map_user_page r1 va pa f s = Ret (r, s') ∧ pt_step g g' s s' r1) as (r & s' & g' & E & P).
  { destruct (map_user_page_spec g s r1 va pa f W1) as [(s' & g' & E & [P _ _])|
      (s' & g' & E & _ & _ & _ & _ & P & _)]; by eauto. }
  destruct (step_isolated g g' s s' r1 r2 P W2 D) as (W2' & Hw & D').
  exists r, s', g'. split; [done|]. split; [apply P|]. done.
Qed.

Lemma map_user_page_isolated_witness :
  ∃ s (g : N * blocks) r1 r2 r s' g', pt_wf g s r2 ∧
    map_user_page r1 0x10000 0x81001000 PTE_LEAF_RW s = Ret (r, s') ∧ pt_wf g' s' r2 ∧
    ∀ vb, walk r2 vb s' = walk r2 vb s.
Proof.
  destruct booted_roots as (s & g & r1 & r2 & W1 & W2 & D).
  destruct (map_user_page_isolated g s r1 r2 0x10000 0x81001000 PTE_LEAF_RW W1 W2 D)
    as (r & s' & g' & E & _ & W' & Hw & _).
  exists s, g, r1, r2, r, s', g'. split; [exact W2|]. split; [exact E|]. split; [exact W'|exact Hw].
Defined.

(** [unmap_4k] never allocates and never touches another mapping: it answers
    [Ok] with the page unmapped and every other walk unchanged, or, when a
    superpage covers the address, [Err] with the state unchanged. *)
Theorem unmap_4k_correct `{PageAllocator G} (g : G) (s : PMem) (root va : N) :
  pt_wf g s root →
  (unmap_4k root va s = Ret (Err tt, s) ∧ is_mapped root va s = true ∧
    tbl s root (PL0 (ix2 va) (ix1 va)) = None) ∨
  ∃ s', unmap_4k root va s = Ret (Ok tt, s') ∧ pt_step g g s s' root ∧ is_mapped root va s' = false ∧
    ∀ vb, ¬ same_slot vb va → walk root vb s' = walk root vb s.
Proof.
  intros W. destruct (unmap_4k_spec g s root va W) as [(E & Hm & Ht)|(s' & E & P & Wk)].
  - left. split; [done|]. split; [by apply is_mapped_walk|done].
  - right. exists s'. split; [done|]. split; [done|]. split.
    + unfold is_mapped. by rewrite leaf_pte_walk, Wk, decide_True.
    + intros vb Hs. by rewrite Wk, decide_False.
Qed.

Lemma unmap_4k_correct_witness :
  ∃ s (g : N * blocks) root, pt_wf g s root ∧
    ((unmap_4k root 0x10000 s = Ret (Err tt, s) ∧ is_mapped root 0x10000 s = true ∧
       tbl s root (PL0 (ix2 0x10000) (ix1 0x10000)) = None) ∨
     ∃ s', unmap_4k root 0x10000 s = Ret (Ok tt, s') ∧ pt_step g g s s' root ∧
       is_mapped root 0x10000 s' = false ∧
       ∀ vb, ¬ same_slot vb 0x10000 → walk root vb s' = walk root vb s).
Proof.
  destruct booted_root as (s & g & root & _ & W & _). exists s, g, root. split; [exact W|].
  apply (unmap_4k_correct g s root 0x10000 W).
Defined.

(** ** Building and destroying address spaces *)

(** C35: [create_user_root], on a machine whose layout is as the linker script
    places it, halts the machine or answers [Err] without effect or returns a root
    that was not in use: its tables are a well-formed tree, every page in use
    before is in use and unchanged, and the walk of every address is exactly the
    kernel view (image sections by their permissions, firmware and RAM by
    superpages, guard pages absent, the UART page). *)
Theorem create_user_root_correct `{PageAllocator G} (g : G) (s : PMem) (ly : Layout) :
  pinv s g → b_base (buddy s) + b_real_count (buddy s) * PAGE_SIZE ≤ PHYS_LIMIT → layout_ok ly →
  create_user_root ly s = Panic ∨ create_user_root ly s = Ret (Err tt, s) ∨
  ∃ root s' g', create_user_root ly s = Ret (Ok root, s') ∧ ¬ live g root ∧ pt_wf g' s' root ∧
    (∀ x, live g x → live g' x ∧ keeps s s' x) ∧
    ∀ va, va < 2 ^ 39 → walk root va s' = kernel_view ly va.
Proof.
  intros I Hp L. unfold create_user_root.
  destruct (alloc_zero_law s g I) as [E|(root & s1 & s2 & g' & E1 & E2 & F)].
  { right; left. by rewrite (try_err _ _ _ _ _ (ok_or_none _ _ _ _ E)). }
  rewrite (try_ok _ _ _ _ _ (ok_or_some _ _ _ _ _ E1)), (bind_ret _ _ _ _ _ E2).
  destruct (fresh_root_wf _ _ _ _ _ F Hp) as (W & Hw & Ht).
  destruct (maps_kernel_region g' s2 root ly W L Hw) as [E|(s' & g2 & E & P & V)].
  { left. unfold mbind, M_bind. by rewrite E. }
  right; right. exists root, s', g2. rewrite (bind_ret _ _ _ _ _ E). split; [done|].
  split; [apply F|]. split; [apply P|]. split; [|done]. intros x Hx.
  assert (live g' x) as Hx' by (apply (fpg_live _ _ _ _ _ F); by left). split; [by apply P|].
  apply (keeps_trans _ s2); [by apply F|]. apply P; [done|]. intros q Hq Hr.
  destruct (decide (q = PRoot)) as [->|]; [|by rewrite Ht in Hr].
  injection Hr as <-. by apply (fpg_new _ _ _ _ _ F).
Qed.

(** The layout of the QEMU virt board with 128 MiB of RAM. *)
Definition qemu_layout : Layout :=
  mkLayout 0x80000000 0x88000000 0x80200000 0x80200000 0x80210000 0x80218000 0x80240000
    0x80240000 0x80248000 0x80250000 0x80250000 0x80258000 0x10000000.

Lemma qemu_layout_ok : layout_ok qemu_layout.
Proof. split; vm_compute; intuition discriminate. Qed.

Lemma create_user_root_correct_witness :
  ∃ s root s' (g' : N * blocks), create_user_root qemu_layout s = Ret (Ok root, s') ∧ pt_wf g' s' root ∧
    walk root 0x80200123 s' = Some (0, pte 0x80200000 PTE_LEAF_RX).
Proof.
  destruct booted_root as (s & g & root & E & W & _).
  assert (test_ret boot_root (λ _ s, is_ok (create_user_root qemu_layout s)) = true) as T
    by (vm_compute; reflexivity).
  rewrite E in T. cbn [test_ret] in T.
  destruct (create_user_root_correct g s qemu_layout (pt_pinv _ _ _ W) (pt_phys _ _ _ W) qemu_layout_ok)
    as [E1|[E1|(r & s' & g' & E1 & _ & W' & _ & V)]]; [rewrite E1 in T; discriminate T..|].
  exists s, r, s', g'. split; [exact E1|]. split; [exact W'|].
  rewrite V by (vm_compute; reflexivity). vm_compute. reflexivity.
Defined.

(** A new user address space grants nothing to user mode: every address of
    the space is unmapped or translates to itself (the identity mapping the kernel
    relies on) with the user bit clear and never both writable and executable. *)
Theorem create_user_root_safe `{PageAllocator G} (g : G) (s : PMem) (ly : Layout) (root va : N) (s' : PMem) :
  pinv s g → b_base (buddy s) + b_real_count (buddy s) * PAGE_SIZE ≤ PHYS_LIMIT → layout_ok ly →
  create_user_root ly s = Ret (Ok root, s') → va < 2 ^ 39 →
  translate root va s' = None ∨
  ∃ f, translate root va s' = Some (va, f) ∧ pte_user f = false ∧
    (N.land f PTE_W =? 0) || (N.land f PTE_X =? 0) = true.
Proof.
  intros I Hp L E Hva.
  assert (walk root va s' = kernel_view ly va) as V.
  { unfold create_user_root in E.
    destruct (alloc_zero_law s g I) as [E1|(r & s1 & s2 & g' & E1 & E2 & F)].
    { by rewrite (try_err _ _ _ _ _ (ok_or_none _ _ _ _ E1)) in E. }
    rewrite (try_ok _ _ _ _ _ (ok_or_some _ _ _ _ _ E1)), (bind_ret _ _ _ _ _ E2) in E.
    destruct (fresh_root_wf _ _ _ _ _ F Hp) as (W & Hw & _).
    destruct (maps_kernel_region g' s2 r ly W L Hw) as [E3|(s3 & g3 & E3 & _ & V)].
    - unfold mbind, M_bind in E. by rewrite E3 in E.
    - rewrite (bind_ret _ _ _ _ _ E3) in E. injection E as -> ->. auto. }
  unfold translate. rewrite V.
  destruct (kernel_view_safe ly va L Hva) as [->|(f & (_ & _ & _ & Hu & Hwx) & ->)]; [by left|right].
  by exists f.
Qed.

Lemma create_user_root_safe_witness :
  ∃ s root s', create_user_root qemu_layout s = Ret (Ok root, s') ∧
    (translate root 0x80300000 s' = None ∨
     ∃ f, translate root 0x80300000 s' = Some (0x80300000, f) ∧ pte_user f = false ∧
       (N.land f PTE_W =? 0) || (N.land f PTE_X =? 0) = true).
Proof.
  destruct booted_root as (s & g & root & E & W & _).
  assert (test_ret boot_root (λ _ s, is_ok (create_user_root qemu_layout s)) = true) as T
    by (vm_compute; reflexivity).
  rewrite E in T. cbn [test_ret] in T.
  destruct (create_user_root qemu_layout s) as [[[r|] s']| |] eqn:E1; try discriminate T.
  exists s, r, s'. split; [exact E1|].
  apply (create_user_root_safe g s qemu_layout r 0x80300000 s' (pt_pinv _ _ _ W) (pt_phys _ _ _ W)
    qemu_layout_ok E1). vm_compute. reflexivity.
Defined.

(** A stack guard page: [unmap_kernel_4k] on an address covered by a superpage
    or a page the kernel built either answers [Err] with every translation as it
    was, or [Ok] with that page no longer translating and every other address
    translating to the same physical address with the same permissions (splitting
    the superpage is invisible). *)
Theorem unmap_kernel_4k_correct `{PageAllocator G} (g : G) (s : PMem) (root va : N) :
  pt_wf g s root → super_ok s root va →
  (∃ s' g', unmap_kernel_4k root va s = Ret (Err tt, s') ∧ pt_step g g' s s' root ∧
    ∀ vb, translate root vb s' = translate root vb s) ∨
  ∃ s' g', unmap_kernel_4k root va s = Ret (Ok tt, s') ∧ pt_step g g' s s' root ∧
    translate root va s' = None ∧
    ∀ vb, ¬ same_slot vb va → translate root vb s' = translate root vb s.
Proof.
  intros W Hs. unfold unmap_kernel_4k, translate.
  destruct (split_superpage_spec g s root va W Hs) as [(s1 & g1 & E & [P _ L])|
    (s1 & g1 & E & P & [t Ht] & Tr & _)].
  { left. exists s1, g1. rewrite (try_err _ _ _ _ _ E). split; [done|]. split; [done|].
    intros vb. by rewrite L. }
  rewrite (try_ok _ _ _ _ _ E). pose proof (ps_wf _ _ _ _ _ P) as W1.
  destruct (unmap_4k_spec g1 s1 root va W1) as [(_ & _ & Hn)|(s2 & E2 & P2 & Wk)]; [congruence|].
  right. exists s2, g1. split; [done|]. split; [by eapply pt_step_trans|]. split.
  - by rewrite Wk, decide_True.
  - intros vb Hne. rewrite Wk, decide_False by done. apply Tr.
Qed.

Lemma unmap_kernel_4k_correct_witness :
  ∃ s root s', translate root 0x80400000 s = Some (0x80400000, PTE_LEAF_RW) ∧
    unmap_kernel_4k root 0x80400000 s = Ret (Ok tt, s') ∧ translate root 0x80400000 s' = None ∧
    translate root 0x80401000 s' = translate root 0x80401000 s.
Proof.
  destruct booted_root as (s0 & g0 & root0 & E & W0 & _).
  assert (test_ret boot_root (λ _ s, match create_user_root qemu_layout s with
    | Ret (Ok r, s') => is_ok (unmap_kernel_4k r 0x80400000 s')
    | _ => false end) = true) as T by (vm_compute; reflexivity).
  rewrite E in T. cbn [test_ret] in T.
  destruct (create_user_root qemu_layout s0) as [[[root|] s]| |] eqn:E1; try discriminate T.
  assert (∃ g : N * blocks, pt_wf g s root ∧ walk root 0x80400000 s = kernel_view qemu_layout 0x80400000)
    as (g & W & V).
  { unfold create_user_root in E1.
    destruct (alloc_zero_law s0 g0 (pt_pinv _ _ _ W0)) as [E2|(r & s1 & s2 & g' & Ea & Ez & F)].
    { rewrite (try_err _ _ _ _ _ (ok_or_none _ _ _ _ E2)) in E1. discriminate E1. }
    rewrite (try_ok _ _ _ _ _ (ok_or_some _ _ _ _ _ Ea)), (bind_ret _ _ _ _ _ Ez) in E1.
    destruct (fresh_root_wf _ _ _ _ _ F (pt_phys _ _ _ W0)) as (W & Hw & _).
    destruct (maps_kernel_region g' s2 r qemu_layout W qemu_layout_ok Hw) as [E3|(s3 & g3 & E3 & P & V)].
    - unfold mbind, M_bind in E1. rewrite E3 in E1. discriminate E1.
    - rewrite (bind_ret _ _ _ _ _ E3) in E1. injection E1 as -> ->. exists g3.
      split; [apply P|]. apply V. vm_compute. reflexivity. }
  assert (walk root 0x80400000 s = Some (1, pte 0x80400000 PTE_LEAF_RW)) as V'
    by (rewrite V; vm_compute; reflexivity).
  assert (super_ok s root 0x80400000) as Hs.
  { intros e He. rewrite V' in He. injection He as <-. vm_compute. split; [reflexivity|discriminate]. }
  destruct (unmap_kernel_4k_correct g s root 0x80400000 W Hs) as [(s' & g' & E2 & _)|(s' & g' & E2 & _ & N1 & N2)].
  { rewrite E2 in T. discriminate T. }
  exists s, root, s'. split; [unfold translate; rewrite V'; vm_compute; reflexivity|].
  split; [exact E2|]. split; [exact N1|]. apply N2. intros (_ & _ & H0). vm_compute in H0. discriminate H0.
Defined.

(** C5: [destroy_root] of a space whose user pages are its own (live, mapped once,
    no tables) returns, frees exactly its user pages and its tables at every level,
    and changes no page that stays in use: kernel pages and device pages mapped in
    the space are not freed, and no page is freed twice. *)
Theorem destroy_root_correct `{PageAllocator G} (g : G) (s : PMem) (root : N) :
  pt_wf g s root → exclusive g s root →
  ∃ s' g', destroy_root root s = Ret (tt, s') ∧ pinv s' g' ∧ same_area s s' ∧
    (∀ x, live g' x ↔ live g x ∧ ¬ table s root x ∧ ¬ owned s root x) ∧
    (∀ x, live g' x → keeps s s' x).
Proof. intros W X. by apply destroy_root_spec. Qed.

Lemma destroy_root_correct_witness :
  ∃ s (g : N * blocks) root s', live g root ∧ destroy_root root s = Ret (tt, s') ∧
    ∃ g' : N * blocks, pinv s' g' ∧ ¬ live g' root.
Proof.
  destruct booted_root as (s & g & root & _ & W & _ & Ht & Hl).
  assert (exclusive g s root) as X.
  { assert (∀ i2 i1 t, i2 < 512 → i1 < 512 → tbl s root (PL0 i2 i1) = Some t → False) as Hn.
    { intros i2 i1 t H2 H1 E. rewrite Ht in E; [discriminate E|split; assumption|discriminate]. }
    split.
    - intros x (i2 & i1 & t & H2 & H1 & E & _). destruct (Hn i2 i1 t H2 H1 E).
    - intros x (i2 & i1 & t & H2 & H1 & E & _). destruct (Hn i2 i1 t H2 H1 E).
    - intros i2 i1 t i j2 j1 u j x H2 H1 _ _ _ _ E. destruct (Hn i2 i1 t H2 H1 E). }
  destruct (destroy_root_correct g s root W X) as (s' & g' & E & I' & _ & L & _).
  exists s, g, root, s'. split; [exact Hl|]. split; [exact E|]. exists g'. split; [exact I'|].
  intros Hr. apply L in Hr as (_ & Hr & _). apply Hr. exists PRoot. split; [exact I|reflexivity].
Defined.
