(* ===== verification/Objects.v ===== *)
(** * Kernel objects: processes, capabilities, shared pages, page capabilities,
    services and devices

    kernel/src/process.rs, shm.rs, pages.rs, services.rs and device.rs.  The five
    tables are fields of one record beside the physical memory; each function is
    the whole Rust function, run to completion (the spin locks are taken and
    released inside it).  The interrupt-enable bit is kept where a function does
    not restore it on every path; elsewhere [irq_save]/[irq_restore] are balanced
    and left out, as is the remote TLB shootdown, which changes no table. *)

From Stdlib Require Import ZifyN ZifyNat.
From stdpp Require Import base gmap numbers functions list.
From S2P Require Import Prelude Mem Mmu.

(** ** Error codes: kernel/src/syscall.rs *)
Definition SYS_ERR_EINVAL : N := USIZE_MAX.
Definition SYS_ERR_EACCES : N := USIZE_MAX - 1.
Definition SYS_ERR_ENOENT : N := USIZE_MAX - 2.
Definition SYS_ERR_ENOMEM : N := USIZE_MAX - 3.
Definition SYS_ERR_EEXIST : N := USIZE_MAX - 6.
Definition SYS_ERR_ENOSYS : N := USIZE_MAX.

(** ** Tables *)
Definition MAX_PROCESSES : N := 32.
Definition MAX_CAPS : N := 8.

Inductive Cap := CProc (pid : N) | CShm (id : N) | CPage (id : N).

#[global] Instance Cap_eq_dec : EqDecision Cap.
Proof. solve_decision. Defined.

Record Process := mkProcess { p_id : N; p_root : N; p_caps : list (option Cap) }.
Record ProcessTable := mkProcTable { pt_slots : list Process; pt_free : list N }.

Inductive CapError := InvalidSlot | NotFound | WrongType | ShmNotFound | PageNotFound.

#[global] Instance CapError_eq_dec : EqDecision CapError.
Proof. solve_decision. Defined.

(** [SharedPage] and [ShmTable]; the owners are (pid, slot) pairs. *)
Definition SHM_VA : N := 0x50000000.
Definition SHM_LEN : N := 4096.
Definition MAX_SHMS : N := 16.
Record SharedPage := mkShared { sh_id : N; sh_paddr : N; sh_a : N * N; sh_b : N * N }.
Record ShmTable := mkShmTable { sm_shms : list SharedPage; sm_free : list N }.

(** [PageRecord] and [PageTable] of pages.rs. *)
Definition MAX_PAGE_CAPS : N := 64.
Record PageRecord := mkPageRec { pr_id : N; pr_paddr : N; pr_owner : N; pr_map_va : option N }.
Record PageTable := mkPageTable { pg_pages : list PageRecord; pg_free : list N }.

(** [ServiceTable] and [DeviceTable]. *)
Definition MAX_SERVICES : N := 8.
Record ServiceEntry := mkService { se_id : N; se_pid : N }.
Definition MAX_DEVICES : N := 8.

Record Kernel := mkKernel {
  k_mem : PMem;
  k_procs : ProcessTable;
  k_shm : ShmTable;
  k_pages : PageTable;
  k_services : list (option ServiceEntry);
  k_devices : list (option (N * N));
  k_irq : bool
}.

Definition set_mem (m : PMem) (k : Kernel) : Kernel :=
  mkKernel m (k_procs k) (k_shm k) (k_pages k) (k_services k) (k_devices k) (k_irq k).
Definition set_procs (p : ProcessTable) (k : Kernel) : Kernel :=
  mkKernel (k_mem k) p (k_shm k) (k_pages k) (k_services k) (k_devices k) (k_irq k).
Definition set_shm (t : ShmTable) (k : Kernel) : Kernel :=
  mkKernel (k_mem k) (k_procs k) t (k_pages k) (k_services k) (k_devices k) (k_irq k).
Definition set_pages (t : PageTable) (k : Kernel) : Kernel :=
  mkKernel (k_mem k) (k_procs k) (k_shm k) t (k_services k) (k_devices k) (k_irq k).
Definition set_services (t : list (option ServiceEntry)) (k : Kernel) : Kernel :=
  mkKernel (k_mem k) (k_procs k) (k_shm k) (k_pages k) t (k_devices k) (k_irq k).
Definition set_devices (t : list (option (N * N))) (k : Kernel) : Kernel :=
  mkKernel (k_mem k) (k_procs k) (k_shm k) (k_pages k) (k_services k) t (k_irq k).
Definition set_irq (b : bool) (k : Kernel) : Kernel :=
  mkKernel (k_mem k) (k_procs k) (k_shm k) (k_pages k) (k_services k) (k_devices k) b.

(** Run code of the memory components. *)
Definition onmem {A} (m : M PMem A) : M Kernel A := lift k_mem set_mem m.

(** The static tables before boot. *)
Definition no_caps : list (option Cap) := replicate (N.to_nat MAX_CAPS) None.
Definition kernel0 (m : PMem) : Kernel :=
  mkKernel m (mkProcTable [] []) (mkShmTable [] []) (mkPageTable [] [])
    (replicate (N.to_nat MAX_SERVICES) None) (replicate (N.to_nat MAX_DEVICES) None) true.

(** ** The process table and its capabilities *)

(** [t.slots.get(pid).filter(|p| p.id == pid)]. *)
Definition find_proc (t : ProcessTable) (pid : N) : option Process :=
  match vget (pt_slots t) pid with
  | Some p => if p_id p =? pid then Some p else None
  | None => None
  end.

Definition put_proc (pid : N) (p : Process) (t : ProcessTable) : ProcessTable :=
  mkProcTable (vset (pt_slots t) pid p) (pt_free t).

(** [process::create]. *)
Definition proc_create (ly : Layout) : M Kernel (result N ()) :=
  k ← get;
  let t := k_procs k in
  let live := vlen (pt_slots t) - vlen (pt_free t) in
  if MAX_PROCESSES <=? live then mret (Err tt)
  else
    root ←? onmem (create_user_root ly);
    match pt_free t with
    | idx :: rest =>
        assert_ (idx <? vlen (pt_slots t));;
        modify (set_procs (mkProcTable (vset (pt_slots t) idx (mkProcess idx root no_caps)) rest));;
        mret (Ok idx)
    | [] =>
        let idx := vlen (pt_slots t) in
        modify (set_procs (mkProcTable (pt_slots t ++ [mkProcess idx root no_caps]) []));;
        mret (Ok idx)
    end.

(** [process::root] (halts on an invalid pid) and [process::pid_root]. *)
Definition pid_root (pid : N) (k : Kernel) : option N := p_root <$> find_proc (k_procs k) pid.
Definition proc_root (pid : N) : M Kernel N := k ← get; expect (pid_root pid k).

(** [cap_errno]. *)
Definition cap_errno (err : CapError) : N :=
  match err with
  | InvalidSlot | WrongType => SYS_ERR_EINVAL
  | NotFound => SYS_ERR_EACCES
  | ShmNotFound | PageNotFound => SYS_ERR_ENOENT
  end.

(** [grant_typed_cap], [grant_cap], [grant_shm_cap]. *)
Definition grant_typed_cap (pid slot : N) (cap : Cap) : M Kernel (result () CapError) :=
  if MAX_CAPS <=? slot then mret (Err InvalidSlot)
  else
    k ← get;
    match find_proc (k_procs k) pid with
    | Some p =>
        modify (set_procs (put_proc pid
          (mkProcess (p_id p) (p_root p) (vset (p_caps p) slot (Some cap))) (k_procs k)));;
        mret (Ok tt)
    | None => mret (Err NotFound)
    end.
Definition grant_cap (pid slot target_pid : N) : M Kernel (result () CapError) :=
  grant_typed_cap pid slot (CProc target_pid).
Definition grant_shm_cap (pid slot shm_id : N) : M Kernel (result () CapError) :=
  grant_typed_cap pid slot (CShm shm_id).

(** [p.caps[slot]] of a slot below [MAX_CAPS]. *)
Definition cap_slot (p : Process) (slot : N) : option Cap :=
  match vget (p_caps p) slot with Some (Some c) => Some c | _ => None end.

(** [cap_target]. *)
Definition cap_target (pid slot : N) (k : Kernel) : result Cap CapError :=
  if MAX_CAPS <=? slot then Err InvalidSlot
  else
    match find_proc (k_procs k) pid with
    | Some p => match cap_slot p slot with Some cap => Ok cap | None => Err NotFound end
    | None => Err NotFound
    end.

(** [cap_duplicate]. *)
Definition cap_duplicate (pid from to : N) : M Kernel (result () CapError) :=
  if (MAX_CAPS <=? from) || (MAX_CAPS <=? to) then mret (Err InvalidSlot)
  else
    k ← get;
    match find_proc (k_procs k) pid with
    | Some p =>
        match cap_slot p from with
        | Some (CPage _) => mret (Err WrongType)
        | Some cap =>
            modify (set_procs (put_proc pid
              (mkProcess (p_id p) (p_root p) (vset (p_caps p) to (Some cap))) (k_procs k)));;
            mret (Ok tt)
        | None => mret (Err NotFound)
        end
    | None => mret (Err NotFound)
    end.

(** [clear_cap]. *)
Definition clear_cap (pid slot : N) : M Kernel (result () CapError) :=
  if MAX_CAPS <=? slot then mret (Err InvalidSlot)
  else
    k ← get;
    match find_proc (k_procs k) pid with
    | Some p =>
        modify (set_procs (put_proc pid
          (mkProcess (p_id p) (p_root p) (vset (p_caps p) slot None)) (k_procs k)));;
        mret (Ok tt)
    | None => mret (Err NotFound)
    end.

(** ** Shared pages *)

(** The registry part of [shm_revoke]: snapshot the entry, invalidate it and put
    its index into the pool. *)
Definition shm_take (id : N) : M Kernel (option SharedPage) :=
  k ← get;
  let t := k_shm k in
  match vget (sm_shms t) id with
  | Some s =>
      if sh_id s =? id then
        modify (set_shm (mkShmTable
          (vset (sm_shms t) id (mkShared USIZE_MAX (sh_paddr s) (sh_a s) (sh_b s)))
          (sm_free t ++ [id])));;
        mret (Some s)
      else mret None
  | None => mret None
  end.

(** [if let Some(root) = pid_root(pid) { unmap_4k(root, va).ok(); }]. *)
Definition unmap_in (pid va : N) : M Kernel () :=
  k ← get;
  match pid_root pid k with
  | Some root => onmem (unmap_4k root va);; mret tt
  | None => mret tt
  end.

(** [shm_revoke]. *)
Definition shm_revoke (id : N) : M Kernel (result () ()) :=
  o ← shm_take id;
  match o with
  | None => mret (Err tt)
  | Some sp =>
      for_each (λ ow : N * N, unmap_in ow.1 SHM_VA;; clear_cap ow.1 ow.2;; mret tt) [sh_a sp; sh_b sp];;
      onmem (free_pages (sh_paddr sp))
  end.

(** [shm_paddr]. *)
Definition shm_paddr (id : N) (k : Kernel) : option N :=
  match vget (sm_shms (k_shm k)) id with
  | Some s => if sh_id s =? id then Some (sh_paddr s) else None
  | None => None
  end.

(** [MAP_FLAGS] of shm.rs, [DEVICE_FLAGS] of device.rs, and the literal of
    [mem_map]: V|R|W|A|D. *)
Definition MAP_FLAGS : N := 0xC7.

(** The registry part of [mmap_share]: [None] when the table is full. *)
Definition shm_insert (paddr : N) (a b : N * N) : M Kernel (option N) :=
  k ← get;
  let t := k_shm k in
  if MAX_SHMS <=? vlen (sm_shms t) then mret None
  else
    match sm_free t with
    | idx :: rest =>
        assert_ (idx <? vlen (sm_shms t));;
        modify (set_shm (mkShmTable (vset (sm_shms t) idx (mkShared idx paddr a b)) rest));;
        mret (Some idx)
    | [] =>
        let idx := vlen (sm_shms t) in
        modify (set_shm (mkShmTable (sm_shms t ++ [mkShared idx paddr a b]) []));;
        mret (Some idx)
    end.

(** [mmap_share]. *)
Definition mmap_share (caller a_slot b_slot len : N) : M Kernel (result N N) :=
  if negb (len =? SHM_LEN) then mret (Err SYS_ERR_EINVAL)
  else
    k ← get;
    match cap_target caller a_slot k with
    | Ok (CShm _) | Ok (CPage _) => mret (Err SYS_ERR_EINVAL)
    | Err e => mret (Err (cap_errno e))
    | Ok (CProc peer) =>
        if MAX_CAPS <=? b_slot then mret (Err SYS_ERR_EINVAL)
        else
          match pid_root peer k, pid_root caller k with
          | None, _ | _, None => mret (Err SYS_ERR_EACCES)
          | Some root_b, Some root_a =>
              page ← onmem (alloc_pages_zeroed 0);
              match page with
              | None => mret (Err SYS_ERR_ENOMEM)
              | Some paddr =>
                  ra ← onmem (map_user_page root_a SHM_VA paddr MAP_FLAGS);
                  match ra with
                  | Err _ => onmem (free_pages paddr);; mret (Err SYS_ERR_EINVAL)
                  | Ok _ =>
                      rb ← onmem (map_user_page root_b SHM_VA paddr MAP_FLAGS);
                      match rb with
                      | Err _ =>
                          onmem (unmap_4k root_a SHM_VA);;
                          onmem (free_pages paddr);;
                          mret (Err SYS_ERR_EINVAL)
                      | Ok _ =>
                          oid ← shm_insert paddr (caller, a_slot) (peer, b_slot);
                          match oid with
                          | None =>
                              onmem (unmap_4k root_a SHM_VA);;
                              onmem (unmap_4k root_b SHM_VA);;
                              onmem (free_pages paddr);;
                              mret (Err SYS_ERR_ENOMEM)
                          | Some id =>
                              g1 ← grant_shm_cap caller a_slot id;
                              g2 ← match g1 with
                                   | Err e => mret (Err e)
                                   | Ok _ => grant_shm_cap peer b_slot id
                                   end;
                              match g2 with
                              | Ok _ => mret (Ok id)
                              | Err _ => shm_revoke id;; mret (Err SYS_ERR_ENOMEM)
                              end
                          end
                      end
                  end
              end
          end
    end.

(** ** Page capabilities *)

(** [pages::alloc]. *)
Definition pages_alloc (owner : N) : M Kernel (result N N) :=
  paddr ←? ok_or (onmem (alloc_pages 0)) SYS_ERR_ENOMEM;
  k ← get;
  let t := k_pages k in
  if MAX_PAGE_CAPS <=? vlen (pg_pages t) then
    onmem (free_pages paddr);; mret (Err SYS_ERR_ENOMEM)
  else
    match pg_free t with
    | idx :: rest =>
        assert_ (idx <? vlen (pg_pages t));;
        modify (set_pages (mkPageTable (vset (pg_pages t) idx (mkPageRec idx paddr owner None)) rest));;
        mret (Ok idx)
    | [] =>
        let idx := vlen (pg_pages t) in
        modify (set_pages (mkPageTable (pg_pages t ++ [mkPageRec idx paddr owner None]) []));;
        mret (Ok idx)
    end.

(** [t.pages.get(id)] with [r.id == id]. *)
Definition find_page (t : PageTable) (id : N) : option PageRecord :=
  match vget (pg_pages t) id with
  | Some r => if pr_id r =? id then Some r else None
  | None => None
  end.

Definition unmap_opt (pid : N) (va : option N) : M Kernel () :=
  match va with Some va => unmap_in pid va | None => mret tt end.

(** [pages::revoke]. *)
Definition pages_revoke (id : N) : M Kernel (result () ()) :=
  k ← get;
  let t := k_pages k in
  match find_page t id with
  | None => mret (Err tt)
  | Some rec =>
      modify (set_pages (mkPageTable
        (vset (pg_pages t) id (mkPageRec USIZE_MAX (pr_paddr rec) (pr_owner rec) None))
        (pg_free t ++ [id])));;
      unmap_opt (pr_owner rec) (pr_map_va rec);;
      onmem (free_pages (pr_paddr rec))
  end.

(** [pages::grant]. *)
Definition pages_grant (id to_pid : N) : M Kernel (result () ()) :=
  k ← get;
  let t := k_pages k in
  match find_page t id with
  | None => mret (Err tt)
  | Some r =>
      modify (set_pages (mkPageTable
        (vset (pg_pages t) id (mkPageRec (pr_id r) (pr_paddr r) to_pid None)) (pg_free t)));;
      unmap_opt (pr_owner r) (pr_map_va r);;
      mret (Ok tt)
  end.

(** [mem_grant]. *)
Definition mem_grant (caller src_slot peer_slot dst_slot : N) : M Kernel (result () N) :=
  k ← get;
  match cap_target caller src_slot k with
  | Err e => mret (Err (cap_errno e))
  | Ok (CProc _) | Ok (CShm _) => mret (Err (cap_errno WrongType))
  | Ok (CPage id) =>
      match cap_target caller peer_slot k with
      | Err e => mret (Err (cap_errno e))
      | Ok (CShm _) | Ok (CPage _) => mret (Err (cap_errno WrongType))
      | Ok (CProc peer) =>
          match pid_root peer k with
          | None => mret (Err SYS_ERR_EACCES)
          | Some _ =>
              if MAX_CAPS <=? dst_slot then mret (Err SYS_ERR_EINVAL)
              else
                match cap_target peer dst_slot k with
                | Ok _ => mret (Err SYS_ERR_EEXIST)
                | Err InvalidSlot => mret (Err SYS_ERR_EINVAL)
                | Err _ =>
                    r ← pages_grant id peer;
                    match r with
                    | Err _ => mret (Err SYS_ERR_ENOENT)
                    | Ok _ =>
                        g ← grant_typed_cap peer dst_slot (CPage id);
                        match g with
                        | Err _ => pages_grant id caller;; mret (Err SYS_ERR_EEXIST)
                        | Ok _ => clear_cap caller src_slot;; mret (Ok tt)
                        end
                    end
                end
          end
      end
  end.

(** [pages::is_mapped], [pages::paddr], [pages::map]. *)
Definition pages_is_mapped (id : N) (k : Kernel) : bool :=
  match find_page (k_pages k) id with
  | Some r => match pr_map_va r with Some _ => true | None => false end
  | None => false
  end.
Definition pages_paddr (id : N) (k : Kernel) : option N := pr_paddr <$> find_page (k_pages k) id.
Definition pages_map (id va : N) : M Kernel (result () ()) :=
  k ← get;
  let t := k_pages k in
  match find_page t id with
  | Some r =>
      match pr_map_va r with
      | Some _ => mret (Err tt)
      | None =>
          modify (set_pages (mkPageTable
            (vset (pg_pages t) id (mkPageRec (pr_id r) (pr_paddr r) (pr_owner r) (Some va))) (pg_free t)));;
          mret (Ok tt)
      end
  | None => mret (Err tt)
  end.

(** [mem_map]. *)
Definition mem_map (caller slot va : N) : M Kernel (result () N) :=
  if negb (is_multiple_of va PAGE_SIZE) || (USER_VA_LIMIT <=? va) then mret (Err SYS_ERR_EINVAL)
  else
    k ← get;
    match cap_target caller slot k with
    | Err e => mret (Err (cap_errno e))
    | Ok (CProc _) | Ok (CShm _) => mret (Err (cap_errno WrongType))
    | Ok (CPage id) =>
        if pages_is_mapped id k then mret (Err SYS_ERR_EEXIST)
        else
          match pages_paddr id k, pid_root caller k with
          | None, _ => mret (Err SYS_ERR_ENOENT)
          | Some _, None => mret (Err SYS_ERR_EACCES)
          | Some paddr, Some root =>
              r ← onmem (map_user_page root va paddr MAP_FLAGS);
              match r with
              | Err _ => mret (Err SYS_ERR_EINVAL)
              | Ok _ =>
                  m ← pages_map id va;
                  match m with
                  | Err _ => onmem (unmap_4k root va);; mret (Err SYS_ERR_EEXIST)
                  | Ok _ => mret (Ok tt)
                  end
              end
          end
    end.

(** [cap_revoke] of process.rs. *)
Definition cap_revoke (pid slot : N) : M Kernel (result () CapError) :=
  if MAX_CAPS <=? slot then mret (Err InvalidSlot)
  else
    k ← get;
    match cap_target pid slot k with
    | Err e => mret (Err e)
    | Ok (CShm id) =>
        r ← shm_revoke id;
        mret (match r with Ok _ => Ok tt | Err _ => Err ShmNotFound end)
    | Ok (CProc _) => clear_cap pid slot
    | Ok (CPage id) =>
        r ← pages_revoke id;
        match r with
        | Ok _ => clear_cap pid slot
        | Err _ => mret (Err PageNotFound)
        end
    end.

(** ** Services *)

(** [register_locked]. *)
Definition register_locked (pid id : N) : M Kernel (result () N) :=
  if (id =? 0) || (MAX_SERVICES <=? id) then mret (Err SYS_ERR_EINVAL)
  else
    k ← get;
    s ← expect (vget (k_services k) id);
    match s with
    | Some _ => mret (Err SYS_ERR_EEXIST)
    | None =>
        modify (set_services (vset (k_services k) id (Some (mkService id pid))));;
        mret (Ok tt)
    end.

(** [register_service] of process.rs. *)
Definition register_service (pid id : N) : M Kernel (result () N) :=
  k ← get;
  match find_proc (k_procs k) pid with
  | None => mret (Err SYS_ERR_EACCES)
  | Some _ => register_locked pid id
  end.

(** [unregister_all_locked]. *)
Definition unregister_all_locked (pid : N) : M Kernel () :=
  modify (λ k, set_services ((λ s, match s with
    | Some e => if se_pid e =? pid then None else Some e
    | None => None
    end) <$> k_services k) k).

(** [services::lookup]. *)
Definition service_lookup (id : N) (k : Kernel) : option N :=
  match vget (k_services k) id with
  | Some (Some e) => if se_id e =? id then Some (se_pid e) else None
  | _ => None
  end.

(** [services::connect]. *)
Definition service_connect (caller id client_slot server_slot : N) : M Kernel (result () N) :=
  k ← get;
  match service_lookup id k with
  | None => mret (Err SYS_ERR_ENOENT)
  | Some server_pid =>
      if server_pid =? caller then mret (Err SYS_ERR_EACCES)
      else if (MAX_CAPS <=? client_slot) || (MAX_CAPS <=? server_slot) then mret (Err SYS_ERR_EINVAL)
      else
        r1 ← grant_cap caller client_slot server_pid;
        match r1 with
        | Err e => mret (Err (cap_errno e))
        | Ok _ =>
            r2 ← grant_cap server_pid server_slot caller;
            match r2 with
            | Err e => clear_cap caller client_slot;; mret (Err (cap_errno e))
            | Ok _ => mret (Ok tt)
            end
        end
  end.

(** ** Devices *)

(** [device::map]; [uart_base] is [board::uart_base()]. *)
Definition device_map (uart_base caller dev_id va : N) : M Kernel (result () N) :=
  if negb (dev_id =? 0) then mret (Err SYS_ERR_EINVAL)
  else
    let paddr := uart_base in
    if (USER_VA_LIMIT <=? va) || negb (is_multiple_of va 4096) || negb (is_multiple_of paddr 4096)
    then mret (Err SYS_ERR_EINVAL)
    else
      k ← get;
      match pid_root caller k with
      | None => mret (Err SYS_ERR_EACCES)
      | Some root =>
          slot ← expect (vget (k_devices k) dev_id);
          match slot with
          | Some (owner, owner_va) =>
              if negb (owner =? caller) then mret (Err SYS_ERR_EEXIST)
              else if negb (owner_va =? va) then mret (Err SYS_ERR_EINVAL)
              else mret (Ok tt)
          | None =>
              r ← onmem (map_device_page root va paddr MAP_FLAGS);
              match r with
              | Ok _ =>
                  modify (λ k, set_devices (vset (k_devices k) dev_id (Some (caller, va))) k);;
                  mret (Ok tt)
              | Err _ => mret (Err SYS_ERR_EINVAL)
              end
          end
      end.

(** [release_all]. *)
Definition release_all (pid : N) : M Kernel () :=
  modify (λ k, set_devices ((λ s : option (N * N), match s with
    | Some (owner, va) => if owner =? pid then None else Some (owner, va)
    | None => None
    end) <$> k_devices k) k).

(** ** Destroying a process *)

Definition shm_ids (caps : list (option Cap)) : list N :=
  omap (λ c, match c with Some (CShm id) => Some id | _ => None end) caps.
Definition page_ids (caps : list (option Cap)) : list N :=
  omap (λ c, match c with Some (CPage id) => Some id | _ => None end) caps.

(** [arch::irq_save] and [arch::irq_restore]. *)
Definition irq_save : M Kernel bool := on ← gets k_irq; modify (set_irq false);; mret on.
Definition irq_restore (on : bool) : M Kernel () := if on then modify (set_irq true) else mret tt.

(** The locked part of [destroy]: capture the root and invalidate the slot. *)
Definition proc_invalidate (pid : N) : M Kernel (option N) :=
  k ← get;
  match find_proc (k_procs k) pid with
  | None => mret None
  | Some p =>
      modify (set_procs (put_proc pid (mkProcess USIZE_MAX (p_root p) no_caps) (k_procs k)));;
      release_all pid;;
      unregister_all_locked pid;;
      modify (λ k, set_procs (mkProcTable (pt_slots (k_procs k)) (pt_free (k_procs k) ++ [pid])) k);;
      mret (Some (p_root p))
  end.

(** [process::destroy]. *)
Definition proc_destroy (pid : N) : M Kernel () :=
  irq ← irq_save;
  k ← get;
  match find_proc (k_procs k) pid with
  | None => mret tt (* returns without [irq_restore] *)
  | Some p =>
      irq_restore irq;;
      for_each (λ id, shm_revoke id;; mret tt) (shm_ids (p_caps p));;
      for_each (λ id, pages_revoke id;; mret tt) (page_ids (p_caps p));;
      irq ← irq_save;
      r ← proc_invalidate pid;
      irq_restore irq;;
      match r with
      | Some root => onmem (destroy_root root)
      | None => mret tt
      end
  end.
