(* ===== verification/ObjInv.v ===== *)
(** * How the kernel operations move through the object tables

    A small logic for relations that a run keeps between its first and its last
    state, and its instances: what each operation of Objects.v can do to the
    capabilities, to the registries and to the tables. *)

From Stdlib Require Import ZifyN ZifyNat.
From stdpp Require Import base gmap numbers functions list.
From S2P Require Import Prelude Mem Mmu Objects.

(** ** Relations kept by a run *)

(** Every completed run of [m] from [s] is related by [R]. *)
Definition stays {S A} (R : S → S → Prop) (m : M S A) (s : S) : Prop :=
  ∀ a s', m s = Ret (a, s') → R s s'.

Section stays.
Context {S : Type} (R : S → S → Prop) `{!PreOrder R}.

Lemma stays_ret {A} (a : A) s : stays R (mret a) s.
Proof. intros b s' [= _ <-]. reflexivity. Qed.

Lemma stays_panic {A} s : stays R (panic : M S A) s.
Proof. intros b s' [=]. Qed.

Lemma stays_get {A} (f : S → M S A) s : stays R (f s) s → stays R (get ≫= f) s.
Proof. done. Qed.

Lemma stays_gets {A B} (g : S → A) (f : A → M S B) s : stays R (f (g s)) s → stays R (gets g ≫= f) s.
Proof. done. Qed.

Lemma stays_bind {A B} (m : M S A) (f : A → M S B) s :
  stays R m s → (∀ a s', m s = Ret (a, s') → stays R (f a) s') → stays R (m ≫= f) s.
Proof.
  intros Hm Hf b s' E. apply bind_ret_inv in E as (a & s1 & E1 & E2).
  transitivity s1; [by eapply Hm|by eapply Hf].
Qed.

Lemma stays_modify g s : R s (g s) → stays R (modify g) s.
Proof. intros H a s' [= _ <-]. done. Qed.

Lemma stays_assert b s : stays R (assert_ b) s.
Proof. destruct b; [apply stays_ret|apply stays_panic]. Qed.

Lemma stays_expect {A} (o : option A) s : stays R (expect o) s.
Proof. destruct o; [apply stays_ret|apply stays_panic]. Qed.

Lemma stays_assert_bind {A} b (f : () → M S A) s : stays R (f tt) s → stays R (assert_ b ≫= f) s.
Proof. intros H. by destruct b. Qed.

Lemma stays_expect_bind {A B} (o : option A) (f : A → M S B) s :
  (∀ a, o = Some a → stays R (f a) s) → stays R (expect o ≫= f) s.
Proof. intros H. destruct o; [by apply H|done]. Qed.

Lemma stays_modify_bind {A} g (f : () → M S A) s :
  R s (g s) → stays R (f tt) (g s) → stays R (modify g ≫= f) s.
Proof. intros H Hf a s' E. rewrite bind_modify in E. transitivity (g s); [done|by eapply Hf]. Qed.

Lemma stays_for_each {A} (f : A → M S ()) l s :
  (∀ x s, stays R (f x) s) → stays R (for_each f l) s.
Proof.
  intros Hf. revert s. induction l as [|x l IH]; intros s; cbn [for_each]; [apply stays_ret|].
  apply stays_bind; [apply Hf|]. intros [] s' _. apply IH.
Qed.

Lemma stays_try {A B E} (m : M S (result A E)) (f : A → M S (result B E)) s :
  stays R m s → (∀ a s', m s = Ret (Ok a, s') → stays R (f a) s') → stays R (try_ m f) s.
Proof.
  intros Hm Hf. apply stays_bind; [done|]. intros [a|e] s' Em; [by apply Hf|apply stays_ret; apply _].
Qed.

Lemma stays_ok_or {A E} (m : M S (option A)) (e : E) s : stays R m s → stays R (ok_or m e) s.
Proof. intros Hm. apply stays_bind; [done|]. intros. apply stays_ret. Qed.
End stays.

Create HintDb stays.
#[export] Hint Resolve stays_ret stays_panic stays_assert stays_expect stays_ok_or : stays.

(** Walk through the code of an operation, splitting on its branches, down to the
    updates of the state. *)
Ltac stays_step :=
  match goal with
  | |- stays _ (get ≫= _) _ => apply stays_get
  | |- stays _ (gets _ ≫= _) _ => apply stays_gets
  | |- stays _ (assert_ _ ≫= _) _ => apply stays_assert_bind
  | |- stays _ (expect _ ≫= _) _ => apply stays_expect_bind; intros ? ?
  | |- stays _ (modify _ ≫= _) _ => apply stays_modify_bind; [apply _| |]
  | |- stays _ (mbind _ _) _ => apply stays_bind; [apply _| |intros ? ? _]
  | |- stays _ (try_ _ _) _ => apply stays_try; [apply _| |intros ? ? _]
  | |- stays _ (for_each _ _) _ => apply stays_for_each; [apply _|intros ? ?]
  | |- stays _ (match ?x with _ => _ end) _ => destruct x eqn:?
  | |- stays _ (modify _) _ => apply stays_modify
  end.
Ltac stays_auto := repeat (solve [eauto with stays typeclass_instances] || stays_step).

(** Code of the memory components leaves the tables alone. *)
Lemma stays_onmem {A} (R : Kernel → Kernel → Prop) (m : M PMem A) k :
  (∀ s, R k (set_mem s k)) → stays R (onmem m) k.
Proof.
  intros HR a k'. unfold onmem, lift. destruct (m (k_mem k)) as [[b s]| |]; [|done..].
  intros [= _ <-]. apply HR.
Qed.

(** ** Capabilities *)

(** The capability process [pid] holds in [slot]. *)
Definition cap_at (k : Kernel) (pid slot : N) : option Cap :=
  p ← find_proc (k_procs k) pid; cap_slot p slot.

(** A capability is used when [cap_target] answers it. *)
Lemma cap_target_ok pid slot k c :
  cap_target pid slot k = Ok c ↔ slot < MAX_CAPS ∧ cap_at k pid slot = Some c.
Proof.
  unfold cap_target, cap_at. destruct (MAX_CAPS <=? slot) eqn:E; bool_to_prop.
  - split; [done|]. intros [? _]. lia.
  - destruct (find_proc (k_procs k) pid) as [p|]; simpl; [|naive_solver].
    destruct (cap_slot p slot); naive_solver.
Qed.

Lemma find_proc_put t pid p q :
  find_proc t pid = Some p → p_id q = pid →
  ∀ pid', find_proc (put_proc pid q t) pid' = if decide (pid' = pid) then Some q else find_proc t pid'.
Proof.
  intros Hp Hq pid'. unfold find_proc in *. simpl.
  destruct (vget (pt_slots t) pid) as [p0|] eqn:E; [|done].
  apply vget_Some_lt in E. rewrite vget_vset. case_decide as H1.
  - destruct H1 as [<- _]. rewrite decide_True by done.
    by rewrite (proj2 (N.eqb_eq _ _) Hq).
  - case_decide as H2; [|done]. subst. naive_solver.
Qed.

Lemma cap_slot_vset p id root slot c s :
  cap_slot (mkProcess id root (vset (p_caps p) slot c)) s =
    if decide (slot = s ∧ slot < vlen (p_caps p)) then c else cap_slot p s.
Proof.
  unfold cap_slot; simpl. rewrite vget_vset. case_decide; [|done]. by destruct c.
Qed.

Lemma find_proc_id t pid p : find_proc t pid = Some p → p_id p = pid.
Proof.
  unfold find_proc. destruct (vget _ _) as [q|]; [|done].
  destruct (p_id q =? pid) eqn:E; [|done]. intros [= <-]. by bool_to_prop.
Qed.

(** Storing [c] into a slot of a process, as every capability update does. *)
Lemma cap_at_store k pid slot p c :
  find_proc (k_procs k) pid = Some p →
  ∀ pid' s, cap_at (set_procs (put_proc pid
      (mkProcess (p_id p) (p_root p) (vset (p_caps p) slot c)) (k_procs k)) k) pid' s =
    if decide (pid' = pid ∧ s = slot ∧ slot < vlen (p_caps p)) then c else cap_at k pid' s.
Proof.
  intros Hp pid' s. unfold cap_at. cbn [k_procs set_procs].
  rewrite (find_proc_put _ _ _ _ Hp) by (simpl; by apply (find_proc_id _ _ _ Hp)).
  destruct (decide (pid' = pid)) as [->|Hne].
  - cbn [mbind option_bind]. rewrite cap_slot_vset, Hp. cbn [mbind option_bind].
    repeat case_decide; naive_solver.
  - rewrite decide_False by naive_solver. done.
Qed.

(** Every process has [MAX_CAPS] slots. *)
Definition caps_full (k : Kernel) : Prop :=
  ∀ pid p, find_proc (k_procs k) pid = Some p → vlen (p_caps p) = MAX_CAPS.

(** Page capabilities only disappear. *)
Definition pages_fade (k k' : Kernel) : Prop :=
  (caps_full k → caps_full k') ∧
  ∀ pid slot id, cap_at k' pid slot = Some (CPage id) → cap_at k pid slot = Some (CPage id).

#[global] Instance pages_fade_preorder : PreOrder pages_fade.
Proof.
  split; [by split|]. intros k1 k2 k3 [F12 H12] [F23 H23]. split; [auto|].
  intros pid slot id H. auto.
Qed.

Lemma fade_procs k k' : k_procs k' = k_procs k → pages_fade k k'.
Proof. intros E. unfold pages_fade, caps_full, cap_at. by rewrite E. Qed.

Lemma full_store k pid slot p c :
  find_proc (k_procs k) pid = Some p → caps_full k →
  caps_full (set_procs (put_proc pid
      (mkProcess (p_id p) (p_root p) (vset (p_caps p) slot c)) (k_procs k)) k).
Proof.
  intros Hp F pid' q. cbn [k_procs set_procs].
  rewrite (find_proc_put _ _ _ _ Hp) by (simpl; by apply (find_proc_id _ _ _ Hp)).
  case_decide; [|by apply F]. intros [= <-]. simpl. rewrite vlen_vset. by apply (F pid).
Qed.

Lemma fade_store k pid slot p c :
  find_proc (k_procs k) pid = Some p →
  (∀ id, c = Some (CPage id) → cap_at k pid slot = Some (CPage id)) →
  pages_fade k (set_procs (put_proc pid
      (mkProcess (p_id p) (p_root p) (vset (p_caps p) slot c)) (k_procs k)) k).
Proof.
  intros Hp Hc. split; [by apply full_store|].
  intros pid' s id. rewrite (cap_at_store k pid slot p c Hp). case_decide as E; [|done].
  destruct E as (-> & -> & _). apply Hc.
Qed.

Lemma fade_onmem {A} (m : M PMem A) k : stays pages_fade (onmem m) k.
Proof. apply stays_onmem. intros s. by apply fade_procs. Qed.
#[export] Hint Resolve fade_onmem : stays.

Lemma fade_grant pid slot c k : (∀ id, c ≠ CPage id) → stays pages_fade (grant_typed_cap pid slot c) k.
Proof.
  intros Hc. unfold grant_typed_cap. stays_auto. apply fade_store; [done|]. intros id [= ->].
  by destruct (Hc id).
Qed.

Lemma fade_grant_cap pid slot t k : stays pages_fade (grant_cap pid slot t) k.
Proof. by apply fade_grant. Qed.
Lemma fade_grant_shm pid slot t k : stays pages_fade (grant_shm_cap pid slot t) k.
Proof. by apply fade_grant. Qed.

Lemma fade_clear pid slot k : stays pages_fade (clear_cap pid slot) k.
Proof. unfold clear_cap. stays_auto. by apply fade_store. Qed.

Lemma fade_dup pid from to k : stays pages_fade (cap_duplicate pid from to) k.
Proof.
  unfold cap_duplicate. stays_auto; try (apply fade_store; [done|by intros ? [=]]).
Qed.
#[export] Hint Resolve fade_grant_cap fade_grant_shm fade_clear fade_dup : stays.

Lemma fade_unmap pid va k : stays pages_fade (unmap_in pid va) k.
Proof. unfold unmap_in. stays_auto. Qed.
#[export] Hint Resolve fade_unmap : stays.

Lemma fade_shm_revoke id k : stays pages_fade (shm_revoke id) k.
Proof. unfold shm_revoke, shm_take. stays_auto. by apply fade_procs. Qed.
#[export] Hint Resolve fade_shm_revoke : stays.

Lemma fade_unmap_opt pid va k : stays pages_fade (unmap_opt pid va) k.
Proof. unfold unmap_opt. stays_auto. Qed.
#[export] Hint Resolve fade_unmap_opt : stays.

Lemma fade_pages_revoke id k : stays pages_fade (pages_revoke id) k.
Proof. unfold pages_revoke. stays_auto. by apply fade_procs. Qed.
Lemma fade_pages_grant id to k : stays pages_fade (pages_grant id to) k.
Proof. unfold pages_grant. stays_auto. by apply fade_procs. Qed.
#[export] Hint Resolve fade_pages_revoke fade_pages_grant : stays.

Lemma fade_mmap_share caller a b len k : stays pages_fade (mmap_share caller a b len) k.
Proof. unfold mmap_share, shm_insert. stays_auto; by apply fade_procs. Qed.

Lemma fade_mem_map caller slot va k : stays pages_fade (mem_map caller slot va) k.
Proof. unfold mem_map, pages_map. stays_auto. by apply fade_procs. Qed.

Lemma fade_cap_revoke pid slot k : stays pages_fade (cap_revoke pid slot) k.
Proof. unfold cap_revoke. stays_auto. Qed.

Lemma fade_register pid id k : stays pages_fade (register_service pid id) k.
Proof. unfold register_service, register_locked. stays_auto. by apply fade_procs. Qed.

Lemma fade_connect caller id c s k : stays pages_fade (service_connect caller id c s) k.
Proof. unfold service_connect. stays_auto. Qed.

Lemma fade_device uart caller dev va k : stays pages_fade (device_map uart caller dev va) k.
Proof. unfold device_map. stays_auto. by apply fade_procs. Qed.

Lemma fade_pages_alloc owner k : stays pages_fade (pages_alloc owner) k.
Proof. unfold pages_alloc. stays_auto; by apply fade_procs. Qed.

(** ** Creating and destroying processes *)

Lemma cap_slot_no_caps id root s : cap_slot (mkProcess id root no_caps) s = None.
Proof.
  unfold cap_slot; simpl. rewrite vget_lookup. unfold no_caps.
  destruct (replicate _ None !! N.to_nat s) as [o|] eqn:E; [|done].
  by apply lookup_replicate in E as [-> _].
Qed.

(** A table whose slots are those of [t], or empty of capabilities. *)
Lemma fade_slots k t' :
  (∀ i p, vget (pt_slots t') i = Some p →
    vget (pt_slots (k_procs k)) i = Some p ∨ p_caps p = no_caps) →
  pages_fade k (set_procs t' k).
Proof.
  intros Ht. unfold pages_fade, caps_full, cap_at, find_proc. cbn [k_procs set_procs]. split.
  - intros F pid q. destruct (vget (pt_slots t') pid) as [p|] eqn:E; [|done].
    destruct (p_id p =? pid) eqn:Ei; [|done]. intros [= <-].
    destruct (Ht pid p E) as [Hk| ->]; [|done]. apply (F pid). by rewrite Hk, Ei.
  - intros pid slot id. destruct (vget (pt_slots t') pid) as [p|] eqn:E; [|done].
    destruct (Ht pid p E) as [->|Hn]; [done|]. destruct (p_id p =? pid); [|done].
    cbn [mbind option_bind]. destruct p as [i r c]; simpl in Hn; subst c. by rewrite cap_slot_no_caps.
Qed.

Lemma vget_app_l {A} (l l' : list A) i x : vget (l ++ l') i = Some x →
  vget l i = Some x ∨ x ∈ l'.
Proof.
  rewrite !vget_lookup. intros [?|[_ H]]%lookup_app_Some; [by left|right].
  by apply list_elem_of_lookup_2 in H.
Qed.

Lemma onmem_inv {A} (m : M PMem A) k a k' :
  onmem m k = Ret (a, k') → ∃ s, m (k_mem k) = Ret (a, s) ∧ k' = set_mem s k.
Proof.
  unfold onmem, lift. destruct (m (k_mem k)) as [[b s]| |]; [|done..]. intros [= <- <-]. eauto.
Qed.

Lemma onmem_ret {A} (m : M PMem A) k a s :
  m (k_mem k) = Ret (a, s) → onmem m k = Ret (a, set_mem s k).
Proof. intros E. unfold onmem, lift. by rewrite E. Qed.

Lemma fade_create ly k : stays pages_fade (proc_create ly) k.
Proof.
  unfold proc_create. apply stays_get. destruct (MAX_PROCESSES <=? _); [auto with stays typeclass_instances|].
  apply stays_try; [apply _|auto with stays|]. intros root k1 (s & _ & ->)%onmem_inv.
  destruct (pt_free (k_procs k)) as [|idx rest] eqn:Ef; stays_auto; apply fade_slots; simpl; intros i p.
  - intros [H|H%list_elem_of_singleton]%vget_app_l; [by left|right]. by subst.
  - rewrite vget_vset. case_decide; [intros [= <-]; by right|by left].
Qed.

Lemma fade_invalidate pid k : stays pages_fade (proc_invalidate pid) k.
Proof.
  unfold proc_invalidate, release_all, unregister_all_locked. apply stays_get.
  destruct (find_proc (k_procs k) pid) as [p|]; [|auto with stays typeclass_instances].
  stays_auto; try (by apply fade_procs).
  - apply fade_slots. intros i q. simpl. rewrite vget_vset. case_decide; [intros [= <-]; by right|by left].
  - apply fade_slots. intros i q. by left.
Qed.

Lemma fade_irq_save k : stays pages_fade irq_save k.
Proof. unfold irq_save. stays_auto. by apply fade_procs. Qed.
Lemma fade_irq_restore b k : stays pages_fade (irq_restore b) k.
Proof. unfold irq_restore. stays_auto. by apply fade_procs. Qed.
#[export] Hint Resolve fade_invalidate fade_irq_save fade_irq_restore : stays.

Lemma fade_destroy pid k : stays pages_fade (proc_destroy pid) k.
Proof. unfold proc_destroy. stays_auto. Qed.

(** ** Moving a page capability *)

Definition procs_same (k k' : Kernel) : Prop := k_procs k' = k_procs k.
#[global] Instance procs_same_preorder : PreOrder procs_same.
Proof. split; [done|]. unfold procs_same. congruence. Qed.

Lemma same_onmem {A} (m : M PMem A) k : stays procs_same (onmem m) k.
Proof. by apply stays_onmem. Qed.
#[export] Hint Resolve same_onmem : stays.

Lemma same_pages_grant id to k : stays procs_same (pages_grant id to) k.
Proof. unfold pages_grant, unmap_opt, unmap_in. stays_auto. done. Qed.

Lemma cap_at_procs k k' : k_procs k' = k_procs k → ∀ pid s, cap_at k' pid s = cap_at k pid s.
Proof. intros E pid s. unfold cap_at. by rewrite E. Qed.

(** A store into a slot below [MAX_CAPS] of a live process. *)
Lemma store_full k pid slot p c :
  caps_full k → find_proc (k_procs k) pid = Some p → slot < MAX_CAPS →
  ∀ pid' s, cap_at (set_procs (put_proc pid
      (mkProcess (p_id p) (p_root p) (vset (p_caps p) slot c)) (k_procs k)) k) pid' s =
    if decide (pid' = pid ∧ s = slot) then c else cap_at k pid' s.
Proof.
  intros F Hp Hs pid' s. rewrite (cap_at_store k pid slot p c Hp). pose proof (F pid p Hp).
  repeat case_decide; naive_solver lia.
Qed.

Lemma cap_at_find k pid s c : cap_at k pid s = Some c → ∃ p, find_proc (k_procs k) pid = Some p.
Proof. unfold cap_at. destruct (find_proc (k_procs k) pid); [eauto|done]. Qed.

Lemma grant_typed_run k pid slot c p :
  caps_full k → find_proc (k_procs k) pid = Some p → slot < MAX_CAPS →
  ∃ k', grant_typed_cap pid slot c k = Ret (Ok tt, k') ∧ caps_full k' ∧
    (∀ pid' s, cap_at k' pid' s = if decide (pid' = pid ∧ s = slot) then Some c else cap_at k pid' s) ∧
    (∀ pid', is_Some (find_proc (k_procs k) pid') → is_Some (find_proc (k_procs k') pid')).
Proof.
  intros F Hp Hs. unfold grant_typed_cap. rewrite (proj2 (N.leb_gt _ _)) by done.
  rewrite bind_get, Hp. rewrite bind_modify. eexists. split; [done|]. split; [by apply full_store|].
  split; [by apply store_full|]. intros pid'. cbn [k_procs set_procs].
  rewrite (find_proc_put _ _ _ _ Hp) by (simpl; by apply (find_proc_id _ _ _ Hp)). by case_decide.
Qed.

Lemma clear_cap_run k pid slot p :
  caps_full k → find_proc (k_procs k) pid = Some p → slot < MAX_CAPS →
  ∃ k', clear_cap pid slot k = Ret (Ok tt, k') ∧ caps_full k' ∧
    (∀ pid' s, cap_at k' pid' s = if decide (pid' = pid ∧ s = slot) then None else cap_at k pid' s).
Proof.
  intros F Hp Hs. unfold clear_cap. rewrite (proj2 (N.leb_gt _ _)) by done.
  rewrite bind_get, Hp. rewrite bind_modify. eexists. split; [done|]. split; [by apply full_store|].
  by apply store_full.
Qed.

(** Capability updates touch the process table only. *)
Lemma grant_typed_frame pid slot c k r k' :
  grant_typed_cap pid slot c k = Ret (r, k') → ∃ t, k' = set_procs t k.
Proof.
  unfold grant_typed_cap. destruct (MAX_CAPS <=? slot); [intros [= _ <-]; exists (k_procs k); by destruct k|].
  rewrite bind_get. destruct (find_proc (k_procs k) pid); [rewrite bind_modify; intros [= _ <-]; eauto|].
  intros [= _ <-]. exists (k_procs k). by destruct k.
Qed.

Lemma clear_cap_frame pid slot k r k' :
  clear_cap pid slot k = Ret (r, k') → ∃ t, k' = set_procs t k.
Proof.
  unfold clear_cap. destruct (MAX_CAPS <=? slot); [intros [= _ <-]; exists (k_procs k); by destruct k|].
  rewrite bind_get. destruct (find_proc (k_procs k) pid); [rewrite bind_modify; intros [= _ <-]; eauto|].
  intros [= _ <-]. exists (k_procs k). by destruct k.
Qed.

(** What a completed [mem_grant] does to the capabilities: nothing, or a move. *)
Lemma mem_grant_caps caller src pslot dst k r k' :
  caps_full k → mem_grant caller src pslot dst k = Ret (r, k') →
  (r ≠ Ok tt ∧ caps_full k' ∧ ∀ pid s, cap_at k' pid s = cap_at k pid s) ∨
  ∃ id peer, r = Ok tt ∧ caps_full k' ∧ cap_at k caller src = Some (CPage id) ∧
    cap_at k caller pslot = Some (CProc peer) ∧ cap_at k peer dst = None ∧
    ∀ pid s, cap_at k' pid s =
      if decide (pid = caller ∧ s = src) then None
      else if decide (pid = peer ∧ s = dst) then Some (CPage id)
      else cap_at k pid s.
Proof.
  intros F. unfold mem_grant. rewrite bind_get.
  assert (∀ e : N, (mret (Err e) : M Kernel (result () N)) k = Ret (r, k') →
    (r ≠ Ok tt ∧ caps_full k' ∧ ∀ pid s, cap_at k' pid s = cap_at k pid s)) as Herr.
  { intros e [= <- <-]. done. }
  destruct (cap_target caller src k) as [[| |id]|e] eqn:E1; try (intros H; left; by eapply Herr).
  destruct (cap_target caller pslot k) as [[peer| |]|e] eqn:E2; try (intros H; left; by eapply Herr).
  apply cap_target_ok in E1 as [S1 C1]. apply cap_target_ok in E2 as [S2 C2].
  destruct (pid_root peer k) as [rt|] eqn:E3; [|intros H; left; by eapply Herr].
  destruct (MAX_CAPS <=? dst) eqn:E4; [intros H; left; by eapply Herr|]. bool_to_prop.
  destruct (cap_target peer dst k) as [c|e] eqn:E5; [intros H; left; by eapply Herr|].
  assert (cap_at k peer dst = None) as C3.
  { destruct (cap_at k peer dst) as [c|] eqn:C; [|done].
    by rewrite (proj2 (cap_target_ok peer dst k c) (conj E4 C)) in E5. }
  assert (∃ pp, find_proc (k_procs k) peer = Some pp) as [pp Hpp].
  { unfold pid_root in E3. destruct (find_proc (k_procs k) peer); [eauto|done]. }
  destruct e; try (intros H; left; by eapply Herr).
  all: intros H; apply bind_ret_inv in H as (r1 & k1 & G1 & H);
    pose proof (same_pages_grant id peer k _ _ G1) as P1; unfold procs_same in P1;
    pose proof (cap_at_procs k k1 P1) as A1;
    assert (caps_full k1) as F1 by (unfold caps_full; by rewrite P1);
    (destruct r1 as [[]|[]]; [|injection H as <- <-; by left]).
  all: destruct (grant_typed_run k1 peer dst (CPage id) pp F1) as (k2 & G2 & F2 & A2 & L2);
    [by rewrite P1|done|]; rewrite (bind_ret _ _ _ _ _ G2) in H.
  all: destruct (cap_at_find k caller src _ C1) as [pc Hpc];
    destruct (L2 caller) as [pc2 Hpc2]; [rewrite P1; eauto|];
    destruct (clear_cap_run k2 caller src pc2 F2 Hpc2 S1) as (k3 & G3 & F3 & A3);
    rewrite (bind_ret _ _ _ _ _ G3) in H; injection H as <- <-;
    right; exists id, peer; split; [done|]; split; [done|]; split; [done|]; split; [done|]; split; [done|];
    intros pid s; rewrite A3, A2, A1; done.
Qed.

(** ** Process ids *)

(** The ids of the slots and the pool of free slots are the same. *)
Definition ids (k : Kernel) : list N := p_id <$> pt_slots (k_procs k).
Definition ids_same (k k' : Kernel) : Prop :=
  ids k' = ids k ∧ pt_free (k_procs k') = pt_free (k_procs k).

#[global] Instance ids_same_preorder : PreOrder ids_same.
Proof. split; [done|]. unfold ids_same. intros k1 k2 k3 [? ?] [? ?]. split; congruence. Qed.

Lemma ids_procs k k' : k_procs k' = k_procs k → ids_same k k'.
Proof. intros E. unfold ids_same, ids. by rewrite E. Qed.

Lemma fmap_vset {A B} (f : A → B) l i x : f <$> vset l i x = vset (f <$> l) i (f x).
Proof.
  unfold vset, vlen. rewrite length_fmap. case_match; [|done]. apply list_fmap_insert.
Qed.

Lemma find_proc_vget t pid p : find_proc t pid = Some p → vget (pt_slots t) pid = Some p.
Proof. unfold find_proc. destruct (vget _ _) as [q|]; [|done]. case_match; naive_solver. Qed.

Lemma vget_fmap {A B} (f : A → B) l i : vget (f <$> l) i = f <$> vget l i.
Proof. rewrite !vget_lookup. apply list_lookup_fmap. Qed.

Lemma ids_store k pid slot p c :
  find_proc (k_procs k) pid = Some p →
  ids_same k (set_procs (put_proc pid
      (mkProcess (p_id p) (p_root p) (vset (p_caps p) slot c)) (k_procs k)) k).
Proof.
  intros Hp. split; [|done]. unfold ids. cbn [k_procs set_procs put_proc pt_slots].
  rewrite fmap_vset. cbn [p_id]. apply vset_id. rewrite vget_fmap.
  by rewrite (find_proc_vget _ _ _ Hp).
Qed.

Lemma ids_onmem {A} (m : M PMem A) k : stays ids_same (onmem m) k.
Proof. apply stays_onmem. intros s. by apply ids_procs. Qed.
Lemma ids_grant pid slot c k : stays ids_same (grant_typed_cap pid slot c) k.
Proof. unfold grant_typed_cap. stays_auto. by apply ids_store. Qed.
Lemma ids_clear pid slot k : stays ids_same (clear_cap pid slot) k.
Proof. unfold clear_cap. stays_auto. by apply ids_store. Qed.
#[export] Hint Resolve ids_onmem ids_grant ids_clear : stays.

Lemma ids_unmap pid va k : stays ids_same (unmap_in pid va) k.
Proof. unfold unmap_in. stays_auto. Qed.
#[export] Hint Resolve ids_unmap : stays.
Lemma ids_shm_revoke id k : stays ids_same (shm_revoke id) k.
Proof. unfold shm_revoke, shm_take. stays_auto. by apply ids_procs. Qed.
Lemma ids_pages_revoke id k : stays ids_same (pages_revoke id) k.
Proof. unfold pages_revoke, unmap_opt. stays_auto. by apply ids_procs. Qed.
Lemma ids_pages_grant id to k : stays ids_same (pages_grant id to) k.
Proof. unfold pages_grant, unmap_opt. stays_auto. by apply ids_procs. Qed.
#[export] Hint Resolve ids_shm_revoke ids_pages_revoke ids_pages_grant : stays.

Lemma ids_dup pid from to k : stays ids_same (cap_duplicate pid from to) k.
Proof. unfold cap_duplicate. stays_auto; by apply ids_store. Qed.
Lemma ids_mmap_share caller a b len k : stays ids_same (mmap_share caller a b len) k.
Proof. unfold mmap_share, shm_insert, grant_shm_cap. stays_auto; by apply ids_procs. Qed.
Lemma ids_mem_map caller slot va k : stays ids_same (mem_map caller slot va) k.
Proof. unfold mem_map, pages_map. stays_auto. by apply ids_procs. Qed.
Lemma ids_mem_grant caller a b c k : stays ids_same (mem_grant caller a b c) k.
Proof. unfold mem_grant. stays_auto. Qed.
Lemma ids_cap_revoke pid slot k : stays ids_same (cap_revoke pid slot) k.
Proof. unfold cap_revoke. stays_auto. Qed.
Lemma ids_register pid id k : stays ids_same (register_service pid id) k.
Proof. unfold register_service, register_locked. stays_auto. by apply ids_procs. Qed.
Lemma ids_connect caller id c s k : stays ids_same (service_connect caller id c s) k.
Proof. unfold service_connect, grant_cap. stays_auto. Qed.
Lemma ids_device uart caller dev va k : stays ids_same (device_map uart caller dev va) k.
Proof. unfold device_map. stays_auto. by apply ids_procs. Qed.

(** The slots are live under their own index, or dead and in the pool once. *)
Record procs_wf (k : Kernel) : Prop := mkProcsWf {
  pw_id i x : vget (ids k) i = Some x → x = i ∨ (x = USIZE_MAX ∧ i ∈ pt_free (k_procs k));
  pw_free i : i ∈ pt_free (k_procs k) → vget (ids k) i = Some USIZE_MAX;
  pw_nodup : NoDup (pt_free (k_procs k));
  pw_len : vlen (ids k) ≤ MAX_PROCESSES
}.

Lemma procs_wf_same k k' : ids_same k k' → procs_wf k → procs_wf k'.
Proof. intros [E1 E2] [H1 H2 H3 H4]. split; rewrite ?E1, ?E2; done. Qed.

(** Being alive, by the ids. *)
Lemma alive_ids k pid : is_Some (find_proc (k_procs k) pid) ↔ vget (ids k) pid = Some pid.
Proof.
  unfold find_proc, ids. rewrite vget_fmap. destruct (vget (pt_slots (k_procs k)) pid) as [p|]; simpl.
  - destruct (p_id p =? pid) eqn:E; bool_to_prop.
    + subst. by rewrite is_Some_alt.
    + split; [by intros []|naive_solver].
  - split; [by intros []|done].
Qed.

Lemma vget_app {A} (l l' : list A) i : vget (l ++ l') i =
  if i <? vlen l then vget l i else vget l' (i - vlen l).
Proof.
  rewrite !vget_lookup. unfold vlen. case_match; bool_to_prop.
  - rewrite lookup_app_l by lia. done.
  - rewrite lookup_app_r by lia. f_equal. lia.
Qed.

Lemma vget_ge {A} (l : list A) i : vlen l ≤ i → vget l i = None.
Proof. intros H. unfold vget. rewrite (proj2 (N.ltb_ge _ _)) by done. done. Qed.

Lemma vget_singleton {A} (x : A) i y : vget [x] i = Some y ↔ i = 0 ∧ y = x.
Proof.
  rewrite vget_lookup, list_lookup_singleton_Some. split; intros [? ?]; split; auto; lia.
Qed.

Lemma vlen_ids k : vlen (ids k) = vlen (pt_slots (k_procs k)).
Proof. unfold ids, vlen. by rewrite length_fmap. Qed.

Definition create_post (k k' : Kernel) (pid : N) : Prop :=
  pid < MAX_PROCESSES ∧ find_proc (k_procs k) pid = None ∧ procs_wf k' ∧
  (∃ root, find_proc (k_procs k') pid = Some (mkProcess pid root no_caps)) ∧
  ∀ q, q ≠ pid → find_proc (k_procs k') q = find_proc (k_procs k) q.

(** A new slot at the end of the table. *)
Lemma procs_push k k' root :
  procs_wf k → pt_free (k_procs k) = [] → vlen (pt_slots (k_procs k)) < MAX_PROCESSES →
  let idx := vlen (pt_slots (k_procs k)) in
  k_procs k' = mkProcTable (pt_slots (k_procs k) ++ [mkProcess idx root no_caps]) [] →
  create_post k k' idx.
Proof.
  intros [H1 H2 H3 H4] Ef Hlt idx Ek'.
  assert (∀ q, find_proc (k_procs k') q =
    if decide (q = idx) then Some (mkProcess idx root no_caps) else find_proc (k_procs k) q) as Hfp.
  { intros q. rewrite Ek'. unfold find_proc. simpl. rewrite vget_app. fold idx.
    destruct (q <? idx) eqn:Eq; bool_to_prop; [rewrite decide_False by lia; done|].
    destruct (decide (q = idx)) as [->|Hne]; [rewrite N.sub_diag; simpl; by rewrite N.eqb_refl|].
    rewrite (vget_ge [_] (q - _)) by (change (vlen [mkProcess idx root no_caps]) with 1; lia).
    by rewrite (vget_ge (pt_slots (k_procs k)) q). }
  split; [done|]. split; [unfold find_proc; by rewrite vget_ge|]. split; [split|split].
  - intros i x. unfold ids. rewrite Ek'. simpl. rewrite fmap_app, vget_app. fold (ids k). rewrite vlen_ids.
    fold idx. destruct (i <? idx) eqn:Eq; bool_to_prop.
    + intros Hx. destruct (H1 i x Hx) as [?|[_ Hin]]; [by left|]. rewrite Ef in Hin. by apply not_elem_of_nil in Hin.
    + intros [Ei ->]%vget_singleton. left. simpl. lia.
  - rewrite Ek'. intros i Hin. by apply not_elem_of_nil in Hin.
  - rewrite Ek'. constructor.
  - rewrite vlen_ids, Ek'. simpl. unfold vlen. rewrite length_app. simpl. unfold idx, vlen in *. lia.
  - exists root. by rewrite Hfp, decide_True.
  - intros q Hq. by rewrite Hfp, decide_False.
Qed.

(** A slot of the pool used again. *)
Lemma procs_reuse k k' root idx rest :
  procs_wf k → pt_free (k_procs k) = idx :: rest →
  k_procs k' = mkProcTable (vset (pt_slots (k_procs k)) idx (mkProcess idx root no_caps)) rest →
  idx < vlen (pt_slots (k_procs k)) ∧ create_post k k' idx.
Proof.
  intros [H1 H2 H3 H4] Ef Ek'. rewrite Ef in *.
  assert (vget (ids k) idx = Some USIZE_MAX) as Hidx by (apply H2; by left).
  pose proof (vget_Some_lt _ _ _ Hidx) as Hlt.
  assert (idx ≠ USIZE_MAX) as Hne by (unfold MAX_PROCESSES, USIZE_MAX in *; lia).
  assert (∀ q, find_proc (k_procs k') q =
    if decide (q = idx) then Some (mkProcess idx root no_caps) else find_proc (k_procs k) q) as Hfp.
  { intros q. rewrite Ek'. unfold find_proc. simpl. rewrite vget_vset.
    destruct (decide (q = idx)) as [->|Hq].
    - rewrite decide_True by (by rewrite <-vlen_ids). simpl. by rewrite N.eqb_refl.
    - rewrite decide_False by naive_solver. done. }
  rewrite <-vlen_ids. split; [done|]. apply NoDup_cons in H3 as [Hni Hnd].
  split; [lia|]. split; [|split; [split|split]].
  - destruct (find_proc (k_procs k) idx) eqn:E; [|done].
    assert (is_Some (find_proc (k_procs k) idx)) as Ha%alive_ids by (by rewrite E). congruence.
  - intros i x. unfold ids. rewrite Ek'. simpl. rewrite fmap_vset, vget_vset. cbn [p_id].
    case_decide as Hc; [intros [= <-]; destruct Hc; by left|].
    intros Hx. destruct (H1 i x Hx) as [?|[-> Hin]]; [by left|right]. split; [done|].
    apply elem_of_cons in Hin as [->|]; [|done]. by destruct Hc.
  - intros i. rewrite Ek'. unfold ids. rewrite Ek'. simpl. intros Hin. rewrite fmap_vset, vget_vset_ne.
    + apply H2. by right.
    + by intros ->.
  - by rewrite Ek'.
  - unfold ids. rewrite Ek'. simpl. rewrite fmap_vset, vlen_vset. done.
  - exists root. by rewrite Hfp, decide_True.
  - intros q Hq. by rewrite Hfp, decide_False.
Qed.

Lemma proc_create_spec ly k r k' :
  procs_wf k → proc_create ly k = Ret (r, k') →
  match r with Err _ => k_procs k' = k_procs k | Ok pid => create_post k k' pid end.
Proof.
  intros W. unfold proc_create. rewrite bind_get.
  destruct (MAX_PROCESSES <=? _) eqn:Ecap; [by intros [= <- <-]|]. bool_to_prop.
  intros E. unfold try_ in E. apply bind_ret_inv in E as (rr & k1 & (s & Es & ->)%onmem_inv & E).
  destruct rr as [root|[]]; [|by injection E as <- <-].
  destruct (pt_free (k_procs k)) as [|idx rest] eqn:Ef.
  - rewrite bind_modify in E. injection E as <- <-. change (vlen (@nil N)) with 0 in Ecap.
    apply (procs_push k _ root); [done|done|lia|done].
  - destruct (procs_reuse k (set_procs (mkProcTable (vset (pt_slots (k_procs k)) idx
      (mkProcess idx root no_caps)) rest) (set_mem s k)) root idx rest W Ef eq_refl) as [Hlt P].
    rewrite (bind_assert _ _ _ (proj2 (N.ltb_lt _ _) Hlt)), bind_modify in E. injection E as <- <-. done.
Qed.

(** Invalidating a live process. *)
Lemma proc_invalidate_spec pid k r k' :
  procs_wf k → proc_invalidate pid k = Ret (r, k') →
  procs_wf k' ∧ find_proc (k_procs k') pid = None ∧
  (∀ q, q ≠ pid → find_proc (k_procs k') q = find_proc (k_procs k) q) ∧
  r = p_root <$> find_proc (k_procs k) pid ∧ k_mem k' = k_mem k.
Proof.
  intros W. pose proof W as [H1 H2 H3 H4]. unfold proc_invalidate, release_all, unregister_all_locked.
  rewrite bind_get. destruct (find_proc (k_procs k) pid) as [p|] eqn:Ep; [|by intros [= <- <-]].
  rewrite !bind_modify. intros [= <- <-]. simpl.
  assert (vget (ids k) pid = Some pid) as Ha by (apply alive_ids; by rewrite Ep).
  pose proof (vget_Some_lt _ _ _ Ha) as Hlt.
  assert (pid ≠ USIZE_MAX) as Hne by (unfold MAX_PROCESSES, USIZE_MAX in *; lia).
  assert (pid ∉ pt_free (k_procs k)) as Hnf.
  { intros Hin%H2. congruence. }
  split; [split|split; [|split; [|done]]].
  - intros i x. unfold ids. simpl. rewrite fmap_vset, vget_vset. cbn [p_id]. rewrite elem_of_app.
    case_decide as Hc; [intros [= <-]; destruct Hc; subst; right; split; [done|right; by left]|].
    intros Hx. destruct (H1 i x Hx) as [?|[-> Hin]]; [by left|right]. split; [done|by left].
  - intros i. unfold ids. simpl. rewrite fmap_vset, vget_vset. cbn [p_id]. rewrite elem_of_app.
    intros [Hin|Hin%list_elem_of_singleton].
    + rewrite decide_False; [by apply H2|]. intros [-> _]. done.
    + subst. by rewrite decide_True.
  - simpl. apply NoDup_app. split; [done|]. split; [|apply NoDup_singleton].
    intros i Hi ->%list_elem_of_singleton. done.
  - unfold ids. simpl. by rewrite fmap_vset, vlen_vset.
  - unfold find_proc. cbn [pt_slots]. rewrite vget_vset. case_decide as Hc.
    + cbn [p_id]. by rewrite (proj2 (N.eqb_neq USIZE_MAX pid)) by congruence.
    + destruct Hc. split; [done|]. by rewrite <-vlen_ids.
  - intros q Hq. unfold find_proc. simpl. by rewrite vget_vset_ne.
Qed.
