(* ===== verification/ObjProps.v ===== *)
(** * Properties of the kernel objects

    Ownership of pages by capability, sharing, services, devices and the life of a
    process, as the comments of kernel/src/process.rs, shm.rs, pages.rs, services.rs
    and device.rs state them; with the places where the code does not keep them. *)

From Stdlib Require Import ZifyN ZifyNat.
From stdpp Require Import base gmap numbers functions list.
From S2P Require Import Prelude Mem MemInv PageAlloc Mmu Pte MmuTree MmuSpec MmuKernel MmuProps.
From S2P Require Import Objects ObjInv.

(** ** Single reference *)

(** The operations user processes and the boot code can run on the tables. *)
Inductive kcall :=
| KCreate
| KDestroy (pid : N)
| KGrantProc (pid slot target : N)
| KDup (pid from to : N)
| KRevoke (pid slot : N)
| KShare (pid a b len : N)
| KMemGrant (pid src peer dst : N)
| KMemMap (pid slot va : N)
| KRegister (pid id : N)
| KConnect (pid id client server : N)
| KDevice (pid dev va : N).

Definition run_kcall (ly : Layout) (c : kcall) : M Kernel () :=
  match c with
  | KCreate => proc_create ly;; mret tt
  | KDestroy pid => proc_destroy pid
  | KGrantProc pid slot target => grant_cap pid slot target;; mret tt
  | KDup pid from to => cap_duplicate pid from to;; mret tt
  | KRevoke pid slot => cap_revoke pid slot;; mret tt
  | KShare pid a b len => mmap_share pid a b len;; mret tt
  | KMemGrant pid src peer dst => mem_grant pid src peer dst;; mret tt
  | KMemMap pid slot va => mem_map pid slot va;; mret tt
  | KRegister pid id => register_service pid id;; mret tt
  | KConnect pid id client server => service_connect pid id client server;; mret tt
  | KDevice pid dev va => device_map (ly_uart_base ly) pid dev va;; mret tt
  end.

(** Two slots that hold the same page capability are the same slot. *)
Definition page_unique (k : Kernel) : Prop := ∀ p1 s1 p2 s2 id,
  cap_at k p1 s1 = Some (CPage id) → cap_at k p2 s2 = Some (CPage id) → p1 = p2 ∧ s1 = s2.

Definition caps_ok (k : Kernel) : Prop := caps_full k ∧ page_unique k.

Lemma fade_caps_ok k k' : pages_fade k k' → caps_ok k → caps_ok k'.
Proof.
  intros [F U] [Hf Hu]. split; [auto|]. intros p1 s1 p2 s2 id H1 H2. eauto.
Qed.

Lemma mem_grant_caps_ok caller src pslot dst k r k' :
  caps_ok k → mem_grant caller src pslot dst k = Ret (r, k') → caps_ok k'.
Proof.
  intros [F U] E. destruct (mem_grant_caps _ _ _ _ _ _ _ F E) as
    [(_ & F' & A)|(id & peer & _ & F' & C1 & _ & C3 & A)]; (split; [done|]).
  - intros p1 s1 p2 s2 i. rewrite !A. apply U.
  - intros p1 s1 p2 s2 i. rewrite !A. repeat case_decide; try done.
    + naive_solver.
    + intros [= <-] HA. destruct (U _ _ _ _ _ C1 HA) as [-> ->]. naive_solver.
    + intros HA [= <-]. destruct (U _ _ _ _ _ C1 HA) as [-> ->]. naive_solver.
    + apply U.
Qed.

Lemma run_kcall_caps_ok ly c k k' : caps_ok k → run_kcall ly c k = Ret (tt, k') → caps_ok k'.
Proof.
  intros H E. destruct c; simpl in E;
    try (apply bind_ret_inv in E as (r & k1 & E & [= <-]));
    try (by eapply mem_grant_caps_ok);
    (eapply fade_caps_ok; [|exact H]);
    first [ by eapply fade_create | by eapply fade_destroy | by eapply fade_grant_cap
          | by eapply fade_dup | by eapply fade_cap_revoke | by eapply fade_mmap_share
          | by eapply fade_mem_map | by eapply fade_register | by eapply fade_connect
          | by eapply fade_device ].
Qed.


Lemma caps_ok_kernel0 m : caps_ok (kernel0 m).
Proof.
  assert (∀ pid, find_proc (k_procs (kernel0 m)) pid = None) as Hn.
  { intros pid. unfold find_proc. rewrite vget_lookup. done. }
  split; [intros pid p; by rewrite Hn|]. intros p1 s1 p2 s2 id. unfold cap_at. by rewrite Hn.
Qed.

(** The machine of the closed instances: 64 pages, the tables empty. *)
Definition mem64 : PMem :=
  match buddy_init 0x81000000 64 [] (mkPMem allocator0 ∅) with Ret (_, s) => s | _ => mkPMem allocator0 ∅ end.
Definition kernel64 : Kernel := kernel0 mem64.

Definition returns {A} (o : outcome (A * Kernel)) : bool := match o with Ret _ => true | _ => false end.

Lemma returns_ret (o : outcome (() * Kernel)) : returns o = true → ∃ k', o = Ret (tt, k').
Proof. destruct o as [[[] k']| |]; [eauto|done..]. Qed.


(** ** Defects of the life cycle *)

(** [destroy] of a pid that is not alive is documented to do nothing; it
    returns with interrupts disabled, because the early return skips
    [irq_restore].  Nothing else changes. *)
Theorem destroy_dead_disables_interrupts (k : Kernel) (pid : N) :
  find_proc (k_procs k) pid = None → proc_destroy pid k = Ret (tt, set_irq false k).
Proof.
  intros Hn. unfold proc_destroy, irq_save.
  assert (∀ B (f : bool → M Kernel B), ((on ← gets k_irq; modify (set_irq false);; mret on) ≫= f) k =
    f (k_irq k) (set_irq false k)) as -> by done.
  rewrite bind_get. cbn [k_procs set_irq]. by rewrite Hn.
Qed.

Lemma destroy_dead_disables_interrupts_witness :
  k_irq kernel64 = true ∧ ∃ k', proc_destroy 5 kernel64 = Ret (tt, k') ∧ k_irq k' = false.
Proof.
  split; [reflexivity|]. exists (set_irq false kernel64). split; [|reflexivity].
  apply (destroy_dead_disables_interrupts kernel64 5). reflexivity.
Defined.

(** Allocate [n] single pages, and list them. *)
Fixpoint take_pages (n : nat) : M Kernel (list N) :=
  match n with
  | O => mret []
  | S n => r ← onmem (alloc_pages 0); rs ← take_pages n; mret (option_list r ++ rs)
  end.

(** Two processes share a page; the first overwrites its [Cap::Shm] by duplicating
    another capability over it and is destroyed. *)
Definition overwrite_and_die : M Kernel (option N * N * bool) :=
  proc_create qemu_layout;;
  proc_create qemu_layout;;
  grant_cap 0 0 1;;
  grant_cap 0 1 1;;
  mmap_share 0 0 0 SHM_LEN;;
  paddr ← gets (shm_paddr 0);
  cap_duplicate 0 1 0;;
  proc_destroy 0;;
  k ← get;
  let leaf := match pid_root 1 k with Some root => leaf_pte root SHM_VA (k_mem k) | None => 0 end in
  again ← take_pages 64;
  mret (paddr, pte_addr leaf, bool_decide (pte_addr leaf ∈ again)).

(** A shared page can be freed while the other process still maps it.  When a
    process has overwritten its [Cap::Shm] slot ([cap_duplicate], [grant_cap] and
    [connect] overwrite silently), [destroy] does not find the share, does not
    revoke it, and [destroy_root] frees the page as if it were private: the peer's
    mapping stays and the allocator hands the page out again.  The comment on
    [destroy] says shares are revoked before the address space is released. *)
Theorem destroy_frees_shared_page :
  ∃ k', overwrite_and_die kernel64 = Ret (Some 0x8100a000, 0x8100a000, true, k').
Proof.
  assert (match overwrite_and_die kernel64 with
    | Ret (r, _) => bool_decide (r = (Some 0x8100a000, 0x8100a000, true))
    | _ => false end = true) as H by (vm_compute; reflexivity).
  destruct (overwrite_and_die kernel64) as [[r k']| |]; [|discriminate H..].
  apply bool_decide_eq_true in H as ->. by exists k'.
Qed.

(** The registry of shared pages is the same. *)
Definition shm_same (k k' : Kernel) : Prop := k_shm k' = k_shm k.
#[global] Instance shm_same_preorder : PreOrder shm_same.
Proof. split; [done|]. unfold shm_same. congruence. Qed.

Lemma shm_same_onmem {A} (m : M PMem A) k : stays shm_same (onmem m) k.
Proof. by apply stays_onmem. Qed.
#[export] Hint Resolve shm_same_onmem : stays.

Lemma onmem_shm {A} (m : M PMem A) k a k' : onmem m k = Ret (a, k') → k_shm k' = k_shm k.
Proof. apply shm_same_onmem. Qed.

Lemma mmap_share_full_run k caller a b len r k' :
  MAX_SHMS ≤ vlen (sm_shms (k_shm k)) → mmap_share caller a b len k = Ret (r, k') →
  (∀ id, r ≠ Ok id) ∧ k_shm k' = k_shm k.
Proof.
  intros Hfull. unfold mmap_share. destruct (negb (len =? SHM_LEN)); [by intros [= <- <-]|].
  rewrite bind_get. destruct (cap_target caller a k) as [[peer| |]|e]; try (by intros [= <- <-]).
  destruct (MAX_CAPS <=? b); [by intros [= <- <-]|].
  destruct (pid_root peer k); [|by intros [= <- <-]].
  destruct (pid_root caller k); [|by intros [= <- <-]].
  intros (page & k1 & E1%onmem_shm & H)%bind_ret_inv.
  destruct page as [paddr|]; [|by injection H as <- <-].
  apply bind_ret_inv in H as (ra & k2 & E2%onmem_shm & H). destruct ra as [[]|[]].
  2:{ apply bind_ret_inv in H as (x & k3 & E3%onmem_shm & H). injection H as <- <-.
      split; [done|]. congruence. }
  apply bind_ret_inv in H as (rb & k3 & E3%onmem_shm & H). destruct rb as [[]|[]].
  2:{ apply bind_ret_inv in H as (x & k4 & E4%onmem_shm & H).
      apply bind_ret_inv in H as (y & k5 & E5%onmem_shm & H). injection H as <- <-.
      split; [done|]. congruence. }
  unfold shm_insert in H. apply bind_ret_inv in H as (oid & k4 & E4 & H). rewrite bind_get in E4.
  assert (k_shm k3 = k_shm k) as Es by congruence.
  rewrite Es, (proj2 (N.leb_le _ _) Hfull) in E4. injection E4 as <- <-.
  apply bind_ret_inv in H as (x & k5 & E5%onmem_shm & H).
  apply bind_ret_inv in H as (y & k6 & E6%onmem_shm & H).
  apply bind_ret_inv in H as (z & k7 & E7%onmem_shm & H). injection H as <- <-.
  split; [done|]. congruence.
Qed.

(** The registry of shared pages fills up for good: once it has [MAX_SHMS]
    entries, [mmap_share] never succeeds again, on any arguments, even when every
    entry has been revoked and waits in the free pool, because the capacity test
    counts entries and not live entries (and no operation removes entries).  The comments say revoked entries are
    reused. *)
Theorem mmap_share_full (k : Kernel) (caller a b len : N) (r : result N N) (k' : Kernel) :
  MAX_SHMS ≤ vlen (sm_shms (k_shm k)) → mmap_share caller a b len k = Ret (r, k') →
  (∀ id, r ≠ Ok id) ∧ vlen (sm_shms (k_shm k')) = vlen (sm_shms (k_shm k)).
Proof.
  intros Hfull E. destruct (mmap_share_full_run k caller a b len r k' Hfull E) as [Hr ->]. done.
Qed.

(** Sixteen pairs of processes share a page, then every share is revoked. *)
Definition share_and_revoke : list kcall :=
  replicate 32 KCreate ++
  (nrange 0 16 ≫= λ i, [KGrantProc (2 * i) 0 (2 * i + 1); KShare (2 * i) 0 0 SHM_LEN]) ++
  ((λ i, KRevoke (2 * i) 0) <$> nrange 0 16) ++ [KGrantProc 0 0 1].

Definition kernel256 : Kernel :=
  kernel0 (match buddy_init 0x81000000 256 [] (mkPMem allocator0 ∅) with
           | Ret (_, s) => s | _ => mkPMem allocator0 ∅ end).

Lemma mmap_share_full_witness :
  ∃ k r k', for_each (run_kcall qemu_layout) share_and_revoke kernel256 = Ret (tt, k) ∧
    length (sm_free (k_shm k)) = 16%nat ∧ mmap_share 0 0 0 SHM_LEN k = Ret (r, k') ∧ ∀ id, r ≠ Ok id.
Proof.
  assert (match for_each (run_kcall qemu_layout) share_and_revoke kernel256 with
    | Ret (_, k) => (MAX_SHMS <=? vlen (sm_shms (k_shm k))) && (length (sm_free (k_shm k)) =? 16)%nat
        && returns (mmap_share 0 0 0 SHM_LEN k)
    | _ => false end = true) as H by (vm_compute; reflexivity).
  destruct (for_each (run_kcall qemu_layout) share_and_revoke kernel256) as [[[] k]| |];
    [|discriminate H..].
  apply andb_true_iff in H as [[Hl Hf]%andb_true_iff Hr].
  apply N.leb_le in Hl. apply Nat.eqb_eq in Hf.
  destruct (mmap_share 0 0 0 SHM_LEN k) as [[r k']| |] eqn:E; [|discriminate Hr..].
  exists k, r, k'. split; [reflexivity|]. split; [exact Hf|]. split; [exact E|].
  apply (mmap_share_full k 0 0 0 SHM_LEN r k' Hl E).
Defined.

(** ** The process table *)

Definition wf_mono (k k' : Kernel) : Prop := procs_wf k → procs_wf k'.
#[global] Instance wf_mono_preorder : PreOrder wf_mono.
Proof. split; [by intros k W|]. unfold wf_mono. intros k1 k2 k3. auto. Qed.

Lemma wf_of_ids {A} (m : M Kernel A) k : stays ids_same m k → stays wf_mono m k.
Proof. intros H a k' E. intros W. eapply procs_wf_same; [by eapply H|done]. Qed.

Lemma wf_shm_revoke id k : stays wf_mono (shm_revoke id) k.
Proof. apply wf_of_ids. auto with stays. Qed.
Lemma wf_pages_revoke id k : stays wf_mono (pages_revoke id) k.
Proof. apply wf_of_ids. auto with stays. Qed.
Lemma wf_onmem {A} (m : M PMem A) k : stays wf_mono (onmem m) k.
Proof. apply wf_of_ids. auto with stays. Qed.
Lemma wf_invalidate pid k : stays wf_mono (proc_invalidate pid) k.
Proof. intros r k' E W. by apply (proc_invalidate_spec pid k r k' W E). Qed.
Lemma wf_irq_save k : stays wf_mono irq_save k.
Proof. apply wf_of_ids. unfold irq_save. stays_auto. by apply ids_procs. Qed.
Lemma wf_irq_restore b k : stays wf_mono (irq_restore b) k.
Proof. apply wf_of_ids. unfold irq_restore. stays_auto. by apply ids_procs. Qed.
#[export] Hint Resolve wf_shm_revoke wf_pages_revoke wf_onmem wf_invalidate wf_irq_save wf_irq_restore : stays.

Lemma wf_destroy pid k : stays wf_mono (proc_destroy pid) k.
Proof. unfold proc_destroy. stays_auto. Qed.

Lemma wf_create ly k : stays wf_mono (proc_create ly) k.
Proof.
  intros r k' E W. pose proof (proc_create_spec ly k r k' W E) as P. destruct r.
  - apply P.
  - by apply (procs_wf_same k); [apply ids_procs|].
Qed.

Lemma run_kcall_procs_wf ly c k k' : procs_wf k → run_kcall ly c k = Ret (tt, k') → procs_wf k'.
Proof.
  intros W E. destruct c; simpl in E;
    try (apply bind_ret_inv in E as (r & k1 & E & [= <-]));
    first [ by eapply wf_create | by eapply wf_destroy
          | eapply procs_wf_same; [|exact W];
            first [ by eapply ids_grant | by eapply ids_dup | by eapply ids_cap_revoke
                  | by eapply ids_mmap_share | by eapply ids_mem_grant | by eapply ids_mem_map
                  | by eapply ids_register | by eapply ids_connect | by eapply ids_device ] ].
Qed.

Lemma procs_wf_kernel0 m : procs_wf (kernel0 m).
Proof.
  split; unfold ids; simpl.
  - intros i x. by rewrite vget_lookup.
  - by intros i ?%not_elem_of_nil.
  - constructor.
  - done.
Qed.

(** C39: The process table stays consistent under every sequence of operations:
    a slot is either alive under its own index, or dead and exactly once in the
    pool of free slots, and there are never more than [MAX_PROCESSES] slots. *)
Theorem process_table_consistent (ly : Layout) (cs : list kcall) (k k' : Kernel) :
  procs_wf k → for_each (run_kcall ly) cs k = Ret (tt, k') → procs_wf k'.
Proof.
  revert k. induction cs as [|c cs IH]; intros k H E; cbn [for_each] in E.
  - by injection E as <-.
  - apply bind_ret_inv in E as ([] & k1 & E1 & E). eapply IH; [|exact E].
    by eapply run_kcall_procs_wf.
Qed.

Lemma process_table_consistent_witness :
  ∃ k', for_each (run_kcall qemu_layout)
      [KCreate; KCreate; KDestroy 0; KCreate; KGrantProc 0 0 1; KDestroy 7] kernel64 = Ret (tt, k') ∧
    procs_wf k'.
Proof.
  destruct (returns_ret (for_each (run_kcall qemu_layout)
      [KCreate; KCreate; KDestroy 0; KCreate; KGrantProc 0 0 1; KDestroy 7] kernel64))
    as [k' E]; [vm_compute; reflexivity|].
  exists k'. split; [exact E|].
  apply (process_table_consistent qemu_layout _ _ _ (procs_wf_kernel0 mem64) E).
Defined.

(** [process::create] gives out a pid no live process has, below
    [MAX_PROCESSES], for a process with an empty capability table, and leaves every
    other process as it was; when it fails the table is unchanged. *)
Theorem create_fresh_pid (ly : Layout) (k k' : Kernel) (r : result N ()) :
  procs_wf k → proc_create ly k = Ret (r, k') →
  match r with
  | Err _ => k_procs k' = k_procs k
  | Ok pid =>
      pid < MAX_PROCESSES ∧ find_proc (k_procs k) pid = None ∧
      (∃ root, pid_root pid k' = Some root ∧ ∀ slot, slot < MAX_CAPS → cap_target pid slot k' = Err NotFound) ∧
      ∀ q, q ≠ pid → find_proc (k_procs k') q = find_proc (k_procs k) q
  end.
Proof.
  intros W E. pose proof (proc_create_spec ly k r k' W E) as P. destruct r as [pid|]; [|done].
  destruct P as (H1 & H2 & _ & (root & Hr) & H5). split; [done|]. split; [done|]. split; [|done].
  exists root. unfold pid_root, cap_target. rewrite Hr. split; [done|]. intros slot Hs.
  rewrite (proj2 (N.leb_gt _ _) Hs). by rewrite cap_slot_no_caps.
Qed.

Lemma create_fresh_pid_witness :
  ∃ r k', proc_create qemu_layout kernel64 = Ret (r, k') ∧ r = Ok 0 ∧
    find_proc (k_procs kernel64) 0 = None.
Proof.
  assert (match proc_create qemu_layout kernel64 with Ret (Ok n, _) => n =? 0 | _ => false end = true) as H
    by (vm_compute; reflexivity).
  destruct (proc_create qemu_layout kernel64) as [[[n|] k']| |] eqn:E; try discriminate H.
  apply N.eqb_eq in H. subst n. exists (Ok 0), k'. split; [reflexivity|]. split; [reflexivity|].
  apply (create_fresh_pid qemu_layout kernel64 k' (Ok 0) (procs_wf_kernel0 mem64) E).
Defined.
