(* ===== verification/ObjMem.v ===== *)
(** * Page capabilities, services and devices against the address spaces

    What [mem_grant], [mem_map] of kernel/src/pages.rs, [connect] of services.rs
    and [map] of device.rs do to the tables and to the page tables. *)

From Stdlib Require Import ZifyN ZifyNat.
From stdpp Require Import base gmap numbers functions list.
From S2P Require Import Prelude Mem MemInv PageAlloc Mmu Pte MmuTree MmuSpec MmuKernel MmuProps.
From S2P Require Import Objects ObjInv ObjProps.

(** ** Moving a page *)

Lemma find_page_vset t id r r' :
  find_page t id = Some r → pr_id r' = id →
  find_page (mkPageTable (vset (pg_pages t) id r') (pg_free t)) id = Some r'.
Proof.
  intros H Hid. unfold find_page in *. destruct (vget (pg_pages t) id) as [q|] eqn:E; [|done].
  apply vget_Some_lt in E. cbn [pg_pages]. rewrite vget_vset_eq by done.
  by rewrite (proj2 (N.eqb_eq _ _) Hid).
Qed.

Lemma find_page_id t id r : find_page t id = Some r → pr_id r = id.
Proof.
  unfold find_page. destruct (vget (pg_pages t) id) as [q|]; [|done].
  destruct (pr_id q =? id) eqn:E; [|done]. intros [= <-]. by bool_to_prop.
Qed.

Section moving.
Context `{PageAllocator G}.

(** A page mapped by its record is mapped as a 4 KiB page of its owner's space. *)
Definition mapped_at (g : G) (k : Kernel) (owner : N) (va : option N) : Prop :=
  ∀ v root, va = Some v → pid_root owner k = Some root →
    pt_wf g (k_mem k) root ∧ ∃ e, walk root v (k_mem k) = Some (0, e).

Lemma walk_l0_table s root va e :
  walk root va s = Some (0, e) → is_Some (tbl s root (PL0 (ix2 va) (ix1 va))).
Proof.
  unfold walk, walk_of. cbn [tbl]. destruct (entry_table (pte_at s root (ix2 va))) as [t1|];
    [|by case_match].
  cbn [mbind option_bind]. destruct (entry_table (pte_at s t1 (ix1 va))); [done|by case_match].
Qed.

(** Removing the mapping of a page from its owner. *)
Lemma unmap_opt_run g k owner va :
  mapped_at g k owner va →
  ∃ s', unmap_opt owner va k = Ret (tt, set_mem s' k) ∧
    (∀ v root, va = Some v → pid_root owner k = Some root →
      is_mapped root v s' = false ∧ pt_step g g (k_mem k) s' root ∧
      ∀ vb, ¬ same_slot vb v → walk root vb s' = walk root vb (k_mem k)) ∧
    (va = None ∨ pid_root owner k = None → s' = k_mem k).
Proof.
  intros Hm. unfold unmap_opt, unmap_in. destruct va as [v|].
  2:{ exists (k_mem k). split; [by destruct k|done]. }
  rewrite bind_get. destruct (pid_root owner k) as [root|] eqn:Er.
  2:{ exists (k_mem k). split; [by destruct k|done]. }
  destruct (Hm v root eq_refl Er) as [W [e He]].
  destruct (unmap_4k_spec g (k_mem k) root v W) as [(_ & _ & Hn)|(s' & E & P & Wk)].
  { destruct (walk_l0_table _ _ _ _ He) as [t Ht]. congruence. }
  exists s'. rewrite (bind_ret _ _ _ _ _ (onmem_ret _ _ _ _ E)). split; [done|].
  split; [|by intros [?|?]; congruence]. intros v' root' [= <-] [= <-]. split; [|split; [done|]].
  - unfold is_mapped. by rewrite leaf_pte_walk, Wk, decide_True.
  - intros vb Hne. by rewrite Wk, decide_False.
Qed.

(** The record of every page after one has been replaced. *)
Lemma find_page_upd t id r r' :
  find_page t id = Some r → pr_id r' = id →
  ∀ i, find_page (mkPageTable (vset (pg_pages t) id r') (pg_free t)) i = if decide (i = id) then Some r' else find_page t i.
Proof.
  intros Hf Hid i. case_decide as Hi; [subst i; by eapply find_page_vset|].
  unfold find_page. cbn [pg_pages]. by rewrite vget_vset_ne.
Qed.

(** What taking the mapping [va] out of the space of [owner] does to memory. *)
Definition unmapped (g : G) (k k' : Kernel) (owner : N) (va : option N) : Prop :=
  match va, pid_root owner k with
  | Some v, Some root =>
      is_mapped root v (k_mem k') = false ∧ pt_step g g (k_mem k) (k_mem k') root ∧
      ∀ vb, ¬ same_slot vb v → walk root vb (k_mem k') = walk root vb (k_mem k)
  | _, _ => k_mem k' = k_mem k
  end.

Lemma pages_grant_run g k id to r :
  find_page (k_pages k) id = Some r → mapped_at g k (pr_owner r) (pr_map_va r) →
  ∃ k', pages_grant id to k = Ret (Ok tt, k') ∧ k_procs k' = k_procs k ∧
    (∀ i, find_page (k_pages k') i =
      if decide (i = id) then Some (mkPageRec id (pr_paddr r) to None) else find_page (k_pages k) i) ∧
    unmapped g k k' (pr_owner r) (pr_map_va r).
Proof.
  intros Hr Hm. unfold pages_grant. rewrite bind_get, Hr, bind_modify.
  set (k1 := set_pages _ k).
  destruct (unmap_opt_run g k1 (pr_owner r) (pr_map_va r)) as (s' & E & Hu & Hk); [done|].
  rewrite (bind_ret _ _ _ _ _ E). eexists. split; [done|]. split; [done|]. split.
  - pose proof (find_page_id _ _ _ Hr) as Hid. simpl. rewrite Hid. by apply (find_page_upd _ _ r).
  - unfold unmapped. destruct (pr_map_va r) as [v|]; [|by apply Hk; left].
    destruct (pid_root (pr_owner r) k) as [root|] eqn:Er; [by apply (Hu v root)|by apply Hk; right].
Qed.
(** [map_user_page] with the last-level table in place does not fail. *)
Lemma map_user_page_ready g s root va pa f t :
  tbl s root (PL0 (ix2 va) (ix1 va)) = Some t → walk root va s = None →
  va < USER_VA_LIMIT → pinv s g → live g pa → ∃ s', map_user_page root va pa f s = Ret (Ok tt, s').
Proof.
  intros T Hw Hl I L. destruct (live_page s g pa I L) as [Ha Hr]. unfold map_user_page.
  rewrite (proj2 (N.leb_gt _ _) Hl), (proj2 (is_multiple_of_spec pa 4096) Ha). cbn [negb].
  rewrite bind_gets, Hr. cbn [negb].
  rewrite walk_tbl in Hw. cbn [tbl] in T, Hw. unfold entry_table in T, Hw.
  destruct (pte_valid (pte_at s root (ix2 va))) eqn:V2; cbn [andb mbind option_bind] in T, Hw; [|done].
  destruct (pte_leaf (pte_at s root (ix2 va))) eqn:L2; cbn [negb andb mbind option_bind] in T, Hw; [done|].
  assert (E2 := ensure_table_found _ _ _ _ eq_refl V2 L2). rewrite <-ensure_table_user_eq in E2.
  rewrite (try_ok _ _ _ _ _ E2).
  destruct (pte_valid (pte_at s (pte_addr (pte_at s root (ix2 va))) (ix1 va))) eqn:V1; cbn [andb] in T, Hw; [|done].
  destruct (pte_leaf (pte_at s (pte_addr (pte_at s root (ix2 va))) (ix1 va))) eqn:L1; cbn [negb] in T, Hw; [done|].
  assert (E1 := ensure_table_found _ _ _ _ eq_refl V1 L1). rewrite <-ensure_table_user_eq in E1.
  rewrite (try_ok _ _ _ _ _ E1). unfold pte_read. rewrite bind_gets. unfold walk_of in Hw.
  destruct (pte_valid (pte_at s _ (ix0 va))); [done|]. eexists. unfold pte_write. by rewrite bind_modify.
Qed.
End moving.

(** Capability updates keep every root. *)
Lemma pid_root_store k pid p caps :
  find_proc (k_procs k) pid = Some p →
  ∀ q, pid_root q (set_procs (put_proc pid (mkProcess (p_id p) (p_root p) caps) (k_procs k)) k) = pid_root q k.
Proof.
  intros Hp q. unfold pid_root. cbn [k_procs set_procs].
  rewrite (find_proc_put _ _ _ _ Hp) by (simpl; by apply (find_proc_id _ _ _ Hp)).
  case_decide; [by subst; rewrite Hp|done].
Qed.

Lemma grant_typed_roots pid slot c k r k' :
  grant_typed_cap pid slot c k = Ret (r, k') → ∀ q, pid_root q k' = pid_root q k.
Proof.
  unfold grant_typed_cap. destruct (MAX_CAPS <=? slot); [by intros [= _ <-]|]. rewrite bind_get.
  destruct (find_proc (k_procs k) pid) eqn:E; [|by intros [= _ <-]].
  rewrite bind_modify. intros [= _ <-]. by apply pid_root_store.
Qed.

Lemma clear_cap_roots pid slot k r k' : clear_cap pid slot k = Ret (r, k') → ∀ q, pid_root q k' = pid_root q k.
Proof.
  unfold clear_cap. destruct (MAX_CAPS <=? slot); [by intros [= _ <-]|]. rewrite bind_get.
  destruct (find_proc (k_procs k) pid) eqn:E; [|by intros [= _ <-]].
  rewrite bind_modify. intros [= _ <-]. by apply pid_root_store.
Qed.

(** The run of a successful [mem_grant]: capabilities, registry, roots and memory. *)
Record granted `{PageAllocator G} (g : G) (k k' : Kernel) (caller src dst id peer : N) (r : PageRecord) : Prop := mkGranted {
  gr_full : caps_full k';
  gr_caps pid s : cap_at k' pid s =
    if decide ((pid, s) = (caller, src)) then None
    else if decide ((pid, s) = (peer, dst)) then Some (CPage id) else cap_at k pid s;
  gr_page i : find_page (k_pages k') i =
    if decide (i = id) then Some (mkPageRec id (pr_paddr r) peer None) else find_page (k_pages k) i;
  gr_root pid : pid_root pid k' = pid_root pid k;
  gr_mem : unmapped g k k' (pr_owner r) (pr_map_va r)
}.

Lemma mem_grant_run `{PageAllocator G} (g : G) (k : Kernel)
    (caller src pslot dst id peer : N) (r : PageRecord) :
  caps_full k → src < MAX_CAPS → pslot < MAX_CAPS → dst < MAX_CAPS →
  cap_at k caller src = Some (CPage id) → cap_at k caller pslot = Some (CProc peer) →
  is_Some (find_proc (k_procs k) peer) → cap_at k peer dst = None →
  find_page (k_pages k) id = Some r → mapped_at g k (pr_owner r) (pr_map_va r) →
  ∃ k', mem_grant caller src pslot dst k = Ret (Ok tt, k') ∧ granted g k k' caller src dst id peer r.
Proof.
  intros F S1 S2 S3 C1 C2 [pp Hpp] C3 Hr Hm. unfold mem_grant. rewrite bind_get.
  rewrite (proj2 (cap_target_ok _ _ _ _) (conj S1 C1)), (proj2 (cap_target_ok _ _ _ _) (conj S2 C2)).
  unfold pid_root at 1. rewrite Hpp. cbn [fmap option_fmap option_map].
  rewrite (proj2 (N.leb_gt _ _) S3).
  assert (cap_target peer dst k = Err NotFound) as ->.
  { unfold cap_target. rewrite (proj2 (N.leb_gt _ _) S3), Hpp. unfold cap_at in C3. rewrite Hpp in C3.
    cbn [mbind option_bind] in C3. by rewrite C3. }
  destruct (pages_grant_run g k id peer r Hr Hm) as (k1 & E1 & P1 & Hp1 & Hu).
  rewrite (bind_ret _ _ _ _ _ E1). pose proof (cap_at_procs k k1 P1) as A1.
  assert (caps_full k1) as F1 by (unfold caps_full; by rewrite P1).
  destruct (grant_typed_run k1 peer dst (CPage id) pp F1) as (k2 & E2 & F2 & A2 & L2); [by rewrite P1|done|].
  rewrite (bind_ret _ _ _ _ _ E2).
  destruct (cap_at_find k caller src _ C1) as [pc Hpc]. destruct (L2 caller) as [pc2 Hpc2]; [rewrite P1; eauto|].
  destruct (clear_cap_run k2 caller src pc2 F2 Hpc2 S1) as (k3 & E3 & F3 & A3).
  rewrite (bind_ret _ _ _ _ _ E3). exists k3. split; [done|].
  pose proof (grant_typed_roots _ _ _ _ _ _ E2) as R2. pose proof (clear_cap_roots _ _ _ _ _ E3) as R3.
  destruct (grant_typed_frame _ _ _ _ _ _ E2) as [t2 ->].
  destruct (clear_cap_frame _ _ _ _ _ E3) as [t3 ->]. split; [done| | | |].
  - intros pid s. rewrite A3, A2, A1. repeat case_decide; naive_solver.
  - done.
  - intros pid. rewrite R3, R2. unfold pid_root. by rewrite P1.
  - done.
Qed.

(** C34: [mem_grant] moves the page: when the caller holds the page and a link to a
    live peer, and the peer's slot is free, it succeeds; afterwards the peer's slot
    holds the page and the caller's slot is empty, every other slot of every process
    is unchanged, the registry names the peer as owner without a mapping, and the
    old owner's mapping of the page is gone from its address space. *)
Theorem mem_grant_correct `{PageAllocator G} (g : G) (k : Kernel)
    (caller src pslot dst id peer : N) (r : PageRecord) :
  caps_full k → src < MAX_CAPS → pslot < MAX_CAPS → dst < MAX_CAPS →
  cap_at k caller src = Some (CPage id) → cap_at k caller pslot = Some (CProc peer) →
  is_Some (find_proc (k_procs k) peer) → cap_at k peer dst = None →
  find_page (k_pages k) id = Some r → mapped_at g k (pr_owner r) (pr_map_va r) →
  ∃ k', mem_grant caller src pslot dst k = Ret (Ok tt, k') ∧
    cap_at k' peer dst = Some (CPage id) ∧ cap_at k' caller src = None ∧
    (∀ pid s, (pid, s) ≠ (caller, src) → (pid, s) ≠ (peer, dst) → cap_at k' pid s = cap_at k pid s) ∧
    find_page (k_pages k') id = Some (mkPageRec id (pr_paddr r) peer None) ∧
    ∀ va root, pr_map_va r = Some va → pid_root (pr_owner r) k = Some root →
      is_mapped root va (k_mem k') = false.
Proof.
  intros F S1 S2 S3 C1 C2 Hp C3 Hr Hm.
  destruct (mem_grant_run g k caller src pslot dst id peer r F S1 S2 S3 C1 C2 Hp C3 Hr Hm) as (k' & E & [_ A P _ U]).
  assert ((peer, dst) ≠ (caller, src)) as Hne by (intros [= -> ->]; congruence).
  exists k'. split; [done|]. split_and!.
  - by rewrite A, decide_False, decide_True.
  - by rewrite A, decide_True.
  - intros pid s H1 H2. by rewrite A, !decide_False.
  - by rewrite P, decide_True.
  - intros va root Hva Hroot. unfold unmapped in U. rewrite Hva, Hroot in U. apply U.
Qed.

(** Two processes, the first with a page capability and a link to the second. *)
Definition demo_boot : M Kernel () :=
  proc_create qemu_layout;;
  proc_create qemu_layout;;
  grant_cap 0 0 1;;
  id ← pages_alloc 0;
  match id with Ok id => grant_typed_cap 0 1 (CPage id);; mret tt | Err _ => mret tt end.

Lemma demo_caps_ok k0 k : caps_full k0 → demo_boot k0 = Ret (tt, k) → caps_full k.
Proof.
  intros F0 E. assert (stays pages_fade (proc_create qemu_layout;; proc_create qemu_layout;;
    grant_cap 0 0 1;; pages_alloc 0) k0) as H.
  { apply stays_bind; [apply _|apply fade_create|intros ? ? _].
    apply stays_bind; [apply _|apply fade_create|intros ? ? _].
    apply stays_bind; [apply _|apply fade_grant_cap|intros ? ? _]. apply fade_pages_alloc. }
  unfold demo_boot in E.
  apply bind_ret_inv in E as (a1 & k1 & E1 & E). apply bind_ret_inv in E as (a2 & k2 & E2 & E).
  apply bind_ret_inv in E as (a3 & k3 & E3 & E). apply bind_ret_inv in E as (id & k4 & E4 & E).
  assert (caps_full k4) as F4.
  { apply (H id k4); [|exact F0].
    by rewrite (bind_ret _ _ _ _ _ E1), (bind_ret _ _ _ _ _ E2), (bind_ret _ _ _ _ _ E3). }
  destruct id as [id|]; [|by injection E as <-]. apply bind_ret_inv in E as (r & k5 & E5 & [= <-]).
  unfold grant_typed_cap in E5. simpl in E5. rewrite bind_get in E5.
  destruct (find_proc (k_procs k4) 0) as [p|] eqn:Ep; [|by injection E5 as _ <-].
  rewrite bind_modify in E5. injection E5 as _ <-. by apply full_store.
Qed.

Lemma mem_grant_correct_witness :
  ∃ k k', cap_at k 0 1 = Some (CPage 0) ∧ mem_grant 0 1 0 3 k = Ret (Ok tt, k') ∧
    cap_at k' 1 3 = Some (CPage 0) ∧ cap_at k' 0 1 = None.
Proof.
  assert (match demo_boot kernel64 with
    | Ret (_, k) => bool_decide (cap_at k 0 1 = Some (CPage 0)) && bool_decide (cap_at k 0 0 = Some (CProc 1))
        && bool_decide (cap_at k 1 3 = None) && match find_proc (k_procs k) 1 with Some _ => true | None => false end
        && match find_page (k_pages k) 0 with Some r => match pr_map_va r with None => true | _ => false end | None => false end
    | _ => false end = true) as T by (vm_compute; reflexivity).
  destruct (demo_boot kernel64) as [[[] k]| |] eqn:E; [|discriminate T..].
  apply andb_true_iff in T as [[[[T1 T2]%andb_true_iff T3]%andb_true_iff T4]%andb_true_iff T5].
  apply bool_decide_eq_true in T1, T2, T3.
  destruct (find_proc (k_procs k) 1) as [p|] eqn:Ep; [|discriminate T4].
  destruct (find_page (k_pages k) 0) as [r|] eqn:Er; [|discriminate T5].
  destruct (pr_map_va r) as [v|] eqn:Ev; [discriminate T5|].
  destruct (mem_grant_correct (0, ∅) k 0 1 0 3 0 1 r (demo_caps_ok _ k (proj1 (caps_ok_kernel0 mem64)) E)) as (k' & E' & H1 & H2 & _);
    [reflexivity..|exact T1|exact T2|rewrite Ep; eexists; reflexivity|exact T3|exact Er
    |intros v root Hv; rewrite Ev in Hv; discriminate Hv|].
  exists k, k'. split; [exact T1|]. split; [exact E'|]. split; [exact H1|exact H2].
Defined.

(** The run of [mem_map] on an unmapped page. *)
Lemma mem_map_run `{PageAllocator G} (g : G) (k : Kernel) (caller slot va id root : N) (r : PageRecord) :
  slot < MAX_CAPS → va mod PAGE_SIZE = 0 → va < USER_VA_LIMIT →
  cap_at k caller slot = Some (CPage id) → find_page (k_pages k) id = Some r →
  pid_root caller k = Some root → pt_wf g (k_mem k) root → pr_map_va r = None →
  (∃ s' g', mem_map caller slot va k = Ret (Err SYS_ERR_EINVAL, set_mem s' k) ∧
    pt_step g g' (k_mem k) s' root ∧ (∀ vb, walk root vb s' = walk root vb (k_mem k)) ∧
    (live g (pr_paddr r) → walk root va (k_mem k) = None → tbl (k_mem k) root (PL0 (ix2 va) (ix1 va)) = None)) ∨
  ∃ s' t g', mem_map caller slot va k = Ret (Ok tt, set_pages t (set_mem s' k)) ∧ pt_step g g' (k_mem k) s' root ∧
    (∀ i, find_page t i =
      if decide (i = id) then Some (mkPageRec id (pr_paddr r) (pr_owner r) (Some va)) else find_page (k_pages k) i) ∧
    pr_paddr r < PHYS_LIMIT ∧ walk root va (k_mem k) = None ∧
    ∀ vb, walk root vb s' =
      if decide (same_slot vb va) then Some (0, pte (pr_paddr r) (N.lor MAP_FLAGS PTE_U)) else walk root vb (k_mem k).
Proof.
  intros Hs Ha Hl C Hr Hroot W Ev. unfold mem_map.
  rewrite (proj2 (is_multiple_of_spec va PAGE_SIZE) Ha), (proj2 (N.leb_gt _ _) Hl). cbn [negb orb].
  rewrite bind_get, (proj2 (cap_target_ok _ _ _ _) (conj Hs C)).
  unfold pages_is_mapped, pages_paddr. rewrite Hr, Hroot, Ev. cbn [fmap option_fmap option_map].
  destruct (map_user_page_spec g (k_mem k) root va (pr_paddr r) MAP_FLAGS W) as
    [(s' & g' & E & [P _ L])|(s' & g' & E & _ & Hpa & Hr' & Hn & P & Wk)].
  - left. exists s', g'. rewrite (bind_ret _ _ _ _ _ (onmem_ret _ _ _ _ E)). do 3 (split; [done|]).
    intros Hlive Hw. destruct (tbl _ _ _) as [t|] eqn:T; [|done].
    destruct (map_user_page_ready g (k_mem k) root va (pr_paddr r) MAP_FLAGS t T Hw Hl (pt_pinv _ _ _ W) Hlive). congruence.
  - right. rewrite (bind_ret _ _ _ _ _ (onmem_ret _ _ _ _ E)).
    unfold pages_map. cbn [mbind M_bind]. unfold mbind at 1, M_bind at 1. rewrite bind_get.
    cbn [k_pages set_mem]. rewrite Hr, Ev. rewrite bind_modify. eexists s', _, g'. split; [done|].
    split; [done|]. split.
    { pose proof (find_page_id _ _ _ Hr) as Hid. rewrite Hid. by apply (find_page_upd _ _ r). }
    assert (pr_paddr r < PHYS_LIMIT) as Hlt.
    { pose proof (pt_phys _ _ _ W). unfold page_in_range in Hr'. bool_to_prop. lia. }
    split; [done|]. split; [done|]. intros vb. rewrite Wk. case_decide; [|done]. unfold walk_of.
    by rewrite pte_valid_pte.
Qed.

(** [mem_map] keeps a page mapped at most once: on a page that is mapped
    anywhere it answers [-EEXIST] and changes nothing; on an unmapped page it
    either succeeds, with the page at [va] in the caller's space (user, read and
    write), the registry recording [va], and every other walk unchanged, or answers
    [-EINVAL] with the registry and every walk unchanged. *)
Theorem mem_map_correct `{PageAllocator G} (g : G) (k : Kernel) (caller slot va id root : N) (r : PageRecord) :
  slot < MAX_CAPS → va mod PAGE_SIZE = 0 → va < USER_VA_LIMIT →
  cap_at k caller slot = Some (CPage id) → find_page (k_pages k) id = Some r →
  pid_root caller k = Some root → pt_wf g (k_mem k) root →
  match pr_map_va r with
  | Some _ => mem_map caller slot va k = Ret (Err SYS_ERR_EEXIST, k)
  | None =>
      (∃ s' g', mem_map caller slot va k = Ret (Err SYS_ERR_EINVAL, set_mem s' k) ∧
        pt_step g g' (k_mem k) s' root ∧ ∀ vb, walk root vb s' = walk root vb (k_mem k)) ∨
      ∃ k' g', mem_map caller slot va k = Ret (Ok tt, k') ∧ pt_step g g' (k_mem k) (k_mem k') root ∧
        find_page (k_pages k') id = Some (mkPageRec id (pr_paddr r) (pr_owner r) (Some va)) ∧
        k_procs k' = k_procs k ∧
        leaf_pte root va (k_mem k') = pte (pr_paddr r) (N.lor MAP_FLAGS PTE_U) ∧
        ∀ vb, ¬ same_slot vb va → walk root vb (k_mem k') = walk root vb (k_mem k)
  end.
Proof.
  intros Hs Ha Hl C Hr Hroot W. destruct (pr_map_va r) as [v|] eqn:Ev.
  - unfold mem_map. rewrite (proj2 (is_multiple_of_spec va PAGE_SIZE) Ha), (proj2 (N.leb_gt _ _) Hl). cbn [negb orb].
    rewrite bind_get, (proj2 (cap_target_ok _ _ _ _) (conj Hs C)). unfold pages_is_mapped. by rewrite Hr, Ev.
  - destruct (mem_map_run g k caller slot va id root r Hs Ha Hl C Hr Hroot W Ev) as
      [(s' & g' & E & P & L & _)|(s' & t & g' & E & P & Hp & _ & _ & L)]; [left; by exists s', g'|right].
    eexists _, g'. split; [exact E|]. cbn [k_mem k_pages k_procs set_pages set_mem].
    split; [done|]. split; [by rewrite Hp, decide_True|]. split; [done|]. split.
    + by rewrite leaf_pte_walk, L, decide_True.
    + intros vb Hne. by rewrite L, decide_False.
Qed.

(** A kernel around a given memory with one process that holds one page. *)
Definition one_page_kernel (s : PMem) (root : N) : Kernel :=
  mkKernel s (mkProcTable [mkProcess 0 root (Some (CPage 0) :: replicate 7 None)] []) (mkShmTable [] [])
    (mkPageTable [mkPageRec 0 0x81001000 0 None] []) (replicate 8 None) (replicate 8 None) true.

Lemma mem_map_correct_witness :
  ∃ s (g : N * blocks) root,
    (∃ s' g', mem_map 0 0 0x40000000 (one_page_kernel s root) =
        Ret (Err SYS_ERR_EINVAL, set_mem s' (one_page_kernel s root)) ∧
      pt_step g g' s s' root ∧ ∀ vb, walk root vb s' = walk root vb s) ∨
    ∃ k' g', mem_map 0 0 0x40000000 (one_page_kernel s root) = Ret (Ok tt, k') ∧
      pt_step g g' s (k_mem k') root ∧
      find_page (k_pages k') 0 = Some (mkPageRec 0 0x81001000 0 (Some 0x40000000)) ∧
      k_procs k' = k_procs (one_page_kernel s root) ∧
      leaf_pte root 0x40000000 (k_mem k') = pte 0x81001000 (N.lor MAP_FLAGS PTE_U) ∧
      ∀ vb, ¬ same_slot vb 0x40000000 → walk root vb (k_mem k') = walk root vb s.
Proof.
  destruct booted_root as (s & g & root & _ & W & _). exists s, g, root.
  apply (mem_map_correct g (one_page_kernel s root) 0 0 0x40000000 0 root (mkPageRec 0 0x81001000 0 None));
    [reflexivity|reflexivity|reflexivity|reflexivity|reflexivity|reflexivity|exact W].
Defined.

(** ** Services *)

Lemma grant_typed_dead k pid slot c :
  find_proc (k_procs k) pid = None → slot < MAX_CAPS →
  grant_typed_cap pid slot c k = Ret (Err NotFound, k).
Proof.
  intros Hp Hs. unfold grant_typed_cap. rewrite (proj2 (N.leb_gt _ _) Hs), bind_get, Hp. done.
Qed.


(** A kernel with a registered service. *)
Definition service_kernel : Kernel :=
  mkKernel (mkPMem allocator0 ∅)
    (mkProcTable [mkProcess 0 0x1000 no_caps; mkProcess 1 0x2000 no_caps] []) (mkShmTable [] [])
    (mkPageTable [] []) (vset (replicate 8 None) 1 (Some (mkService 1 0))) (replicate 8 None) true.

Lemma service_kernel_full : caps_full service_kernel.
Proof.
  intros pid p Hp. apply find_proc_vget in Hp. rewrite vget_lookup in Hp.
  apply list_elem_of_lookup_2 in Hp. unfold service_kernel in Hp. simpl in Hp.
  apply elem_of_cons in Hp as [->|[->|[]%not_elem_of_nil]%elem_of_cons]; reflexivity.
Qed.


(** ** Devices *)

(** A device belongs to one process at a time: while one process has claimed
    it, [map] by any other process fails and changes nothing; a claim is recorded
    only together with the mapping, and a completed call never changes a claim that
    exists. *)
Theorem device_exclusive (uart : N) (k k' : Kernel) (caller dev va : N) (r : result () N) (d : N) (c : N * N) :
  vget (k_devices k) d = Some (Some c) → device_map uart caller dev va k = Ret (r, k') →
  vget (k_devices k') d = Some (Some c) ∧ (d = dev → c.1 ≠ caller → k' = k ∧ ∀ u, r ≠ Ok u).
Proof.
  intros Hd. unfold device_map. destruct (dev =? 0) eqn:Edev; cbn [negb]; [|by intros [= <- <-]].
  bool_to_prop. subst dev. destruct (_ || _); [by intros [= <- <-]|]. rewrite bind_get.
  destruct (pid_root caller k) as [root|]; [|by intros [= <- <-]].
  intros E. apply bind_ret_inv in E as (slot & k1 & E1 & E).
  destruct (vget (k_devices k) 0) as [sl|] eqn:Es; [|done]. injection E1 as <- <-.
  destruct sl as [[owner ova]|].
  - assert (k' = k ∧ (owner ≠ caller → ∀ u, r ≠ Ok u)) as [-> Hr].
    { destruct (owner =? caller) eqn:Eo; cbn [negb] in E; bool_to_prop.
      - destruct (negb (ova =? va)); injection E as <- <-; by split.
      - injection E as <- <-. done. }
    split; [done|]. intros -> Hne. split; [done|]. rewrite Hd in Es. injection Es as ->. by apply Hr.
  - assert (d ≠ 0) as Hd0 by (intros ->; congruence).
    apply bind_ret_inv in E as (m & k2 & (s & _ & ->)%onmem_inv & E). destruct m as [[]|[]].
    + rewrite bind_modify in E. injection E as <- <-. cbn [k_devices set_devices set_mem].
      rewrite vget_vset_ne by done. by split.
    + injection E as <- <-. by split.
Qed.

Lemma device_exclusive_witness :
  ∃ k r k', vget (k_devices k) 0 = Some (Some (0, 0x40000000)) ∧
    device_map 0x10000000 1 0 0x40000000 k = Ret (r, k') ∧ k' = k ∧ ∀ u, r ≠ Ok u.
Proof.
  set (k := set_devices (vset (k_devices service_kernel) 0 (Some (0, 0x40000000))) service_kernel).
  exists k, (Err SYS_ERR_EEXIST), k.
  assert (device_map 0x10000000 1 0 0x40000000 k = Ret (Err SYS_ERR_EEXIST, k)) as E by (vm_compute; reflexivity).
  split; [reflexivity|]. split; [exact E|].
  apply (device_exclusive 0x10000000 k k 1 0 0x40000000 _ 0 (0, 0x40000000) eq_refl E);
    [reflexivity|discriminate].
Defined.
