(* ===== verification/Sched.v ===== *)
(** * The scheduler: kernel/src/sched.rs

    The state under the [SCHED] lock is the record [Scheduler]; the statics
    [THREAD_KILL_REQUEST], [REMOTE_REQ] and [FAULT_KILL_COUNT], and the [satp]
    register of each hart, are further fields of it.  A function that takes the lock is
    one step of the model.  A function that switches threads is written as in the
    source: the part under the lock yields a [SwitchTarget], and [do_switch] runs
    after the lock is released, given the callee-saved registers [cpu] of the hart;
    it saves them and answers what the hart resumes with.  The hart number
    ([arch::hartid()]) is an argument.

    Not in this state: the memory of the kernel stacks (a stack is its address), the
    inter-processor interrupt itself, the log, and the bounded waiting for other
    harts, none of which changes a field. *)

From Stdlib Require Import ZifyN ZifyNat.
From stdpp Require Import base gmap numbers functions list.
From S2P Require Import Prelude.

(** ** Constants *)
Definition THREAD_STACK_SIZE : N := 16 * 1024.
Definition STACK_GUARD_SIZE : N := 4096.
Definition SLICE_TICKS : N := 10.
Definition MAX_THREADS : N := 64.
Definition PRIO_LEVELS : N := 3.
Definition PRIO_HIGH : N := 0.
Definition PRIO_MED : N := 1.
Definition PRIO_LOW : N := 2.
Definition MAX_DONATIONS : N := MAX_THREADS.
Definition MAX_HARTS : N := 4.
Definition MSG_WORDS : N := 5.
Definition FRAME_WORDS : N := 36.
Definition FRAME_SSTATUS : N := 32.
Definition FRAME_SEPC : N := 33.
(** [arch::gpr]. *)
Definition X_SP : N := 1.
Definition X_GP : N := 2.
Definition X_S0 : N := 7.
Definition X_S1 : N := 8.
Definition X_A0 : N := 9.
Definition X_A1 : N := 10.
Definition X_A7 : N := 16.
Definition X_S2 : N := 17.
Definition REMOTE_TLB_FLUSH : N := N.shiftl 1 0.
Definition REMOTE_FORCE_KILL : N := N.shiftl 1 1.
Definition SPIE_SPP : N := N.lor (N.shiftl 1 5) (N.shiftl 1 8).

(** The addresses the linker fixes: [thread_entry], [idle_entry],
    [user_entry_stub] and [__global_pointer$]. *)
Record Image := mkImage {
  thread_entry : N; idle_entry : N; user_entry_stub : N; global_pointer : N
}.

(** ** Data *)
Inductive ThreadState := Ready | Running | Blocked | Exited.

#[global] Instance ThreadState_eq_dec : EqDecision ThreadState.
Proof. solve_decision. Defined.

Inductive IpcWake := WMsg (m : list N) | WErr (code : N).

(** [arch::Context]: [ra], [sp] and [s0]-[s11]. *)
Record Context := mkCtx { c_ra : N; c_sp : N; c_s : list N }.

Record Thread := mkThread {
  t_prio : N;
  t_state : ThreadState;
  t_ctx : Context;
  t_frame : list N;
  t_frame_valid : bool;
  t_ctx_valid : bool;
  t_woken : bool;
  t_ipc_msg : option (list N);
  t_ipc_wake : option IpcWake;
  t_proc : option N;
  t_hart : N;
  t_root : N;
  t_entry : N;
  t_stack : option N
}.

Definition set_t_state (v : ThreadState) (r : Thread) : Thread :=
  mkThread (t_prio r) v (t_ctx r) (t_frame r) (t_frame_valid r) (t_ctx_valid r) (t_woken r)
    (t_ipc_msg r) (t_ipc_wake r) (t_proc r) (t_hart r) (t_root r) (t_entry r) (t_stack r).
Definition set_t_ctx (v : Context) (r : Thread) : Thread :=
  mkThread (t_prio r) (t_state r) v (t_frame r) (t_frame_valid r) (t_ctx_valid r) (t_woken r)
    (t_ipc_msg r) (t_ipc_wake r) (t_proc r) (t_hart r) (t_root r) (t_entry r) (t_stack r).
Definition set_t_frame (v : list N) (r : Thread) : Thread :=
  mkThread (t_prio r) (t_state r) (t_ctx r) v (t_frame_valid r) (t_ctx_valid r) (t_woken r)
    (t_ipc_msg r) (t_ipc_wake r) (t_proc r) (t_hart r) (t_root r) (t_entry r) (t_stack r).
Definition set_t_frame_valid (v : bool) (r : Thread) : Thread :=
  mkThread (t_prio r) (t_state r) (t_ctx r) (t_frame r) v (t_ctx_valid r) (t_woken r)
    (t_ipc_msg r) (t_ipc_wake r) (t_proc r) (t_hart r) (t_root r) (t_entry r) (t_stack r).
Definition set_t_ctx_valid (v : bool) (r : Thread) : Thread :=
  mkThread (t_prio r) (t_state r) (t_ctx r) (t_frame r) (t_frame_valid r) v (t_woken r)
    (t_ipc_msg r) (t_ipc_wake r) (t_proc r) (t_hart r) (t_root r) (t_entry r) (t_stack r).
Definition set_t_woken (v : bool) (r : Thread) : Thread :=
  mkThread (t_prio r) (t_state r) (t_ctx r) (t_frame r) (t_frame_valid r) (t_ctx_valid r) v
    (t_ipc_msg r) (t_ipc_wake r) (t_proc r) (t_hart r) (t_root r) (t_entry r) (t_stack r).
Definition set_t_ipc_msg (v : option (list N)) (r : Thread) : Thread :=
  mkThread (t_prio r) (t_state r) (t_ctx r) (t_frame r) (t_frame_valid r) (t_ctx_valid r)
    (t_woken r) v (t_ipc_wake r) (t_proc r) (t_hart r) (t_root r) (t_entry r) (t_stack r).
Definition set_t_ipc_wake (v : option IpcWake) (r : Thread) : Thread :=
  mkThread (t_prio r) (t_state r) (t_ctx r) (t_frame r) (t_frame_valid r) (t_ctx_valid r)
    (t_woken r) (t_ipc_msg r) v (t_proc r) (t_hart r) (t_root r) (t_entry r) (t_stack r).
Definition set_t_proc (v : option N) (r : Thread) : Thread :=
  mkThread (t_prio r) (t_state r) (t_ctx r) (t_frame r) (t_frame_valid r) (t_ctx_valid r)
    (t_woken r) (t_ipc_msg r) (t_ipc_wake r) v (t_hart r) (t_root r) (t_entry r) (t_stack r).
Definition set_t_hart (v : N) (r : Thread) : Thread :=
  mkThread (t_prio r) (t_state r) (t_ctx r) (t_frame r) (t_frame_valid r) (t_ctx_valid r)
    (t_woken r) (t_ipc_msg r) (t_ipc_wake r) (t_proc r) v (t_root r) (t_entry r) (t_stack r).
Definition set_t_stack (v : option N) (r : Thread) : Thread :=
  mkThread (t_prio r) (t_state r) (t_ctx r) (t_frame r) (t_frame_valid r) (t_ctx_valid r)
    (t_woken r) (t_ipc_msg r) (t_ipc_wake r) (t_proc r) (t_hart r) (t_root r) (t_entry r) v.

Record Donation := mkDonation { d_donor_tid : N; d_peer_proc : N; d_prio : N }.

Record Scheduler := mkSched {
  s_threads : list Thread;
  s_ready : list (list (list N));
  s_donations : list Donation;
  s_current : list N;
  s_idle : list N;
  s_ticks_run : list N;
  s_free_slots : list N;
  s_reaper : list N;
  s_kill_request : list bool;
  s_remote_req : list N;
  s_satp : list N;
  s_kills : N
}.

Definition set_s_threads (v : list Thread) (r : Scheduler) : Scheduler :=
  mkSched v (s_ready r) (s_donations r) (s_current r) (s_idle r) (s_ticks_run r) (s_free_slots
    r) (s_reaper r) (s_kill_request r) (s_remote_req r) (s_satp r) (s_kills r).
Definition set_s_ready (v : list (list (list N))) (r : Scheduler) : Scheduler :=
  mkSched (s_threads r) v (s_donations r) (s_current r) (s_idle r) (s_ticks_run r)
    (s_free_slots r) (s_reaper r) (s_kill_request r) (s_remote_req r) (s_satp r) (s_kills r).
Definition set_s_donations (v : list Donation) (r : Scheduler) : Scheduler :=
  mkSched (s_threads r) (s_ready r) v (s_current r) (s_idle r) (s_ticks_run r) (s_free_slots r)
    (s_reaper r) (s_kill_request r) (s_remote_req r) (s_satp r) (s_kills r).
Definition set_s_current (v : list N) (r : Scheduler) : Scheduler :=
  mkSched (s_threads r) (s_ready r) (s_donations r) v (s_idle r) (s_ticks_run r) (s_free_slots
    r) (s_reaper r) (s_kill_request r) (s_remote_req r) (s_satp r) (s_kills r).
Definition set_s_ticks_run (v : list N) (r : Scheduler) : Scheduler :=
  mkSched (s_threads r) (s_ready r) (s_donations r) (s_current r) (s_idle r) v (s_free_slots r)
    (s_reaper r) (s_kill_request r) (s_remote_req r) (s_satp r) (s_kills r).
Definition set_s_free_slots (v : list N) (r : Scheduler) : Scheduler :=
  mkSched (s_threads r) (s_ready r) (s_donations r) (s_current r) (s_idle r) (s_ticks_run r) v
    (s_reaper r) (s_kill_request r) (s_remote_req r) (s_satp r) (s_kills r).
Definition set_s_reaper (v : list N) (r : Scheduler) : Scheduler :=
  mkSched (s_threads r) (s_ready r) (s_donations r) (s_current r) (s_idle r) (s_ticks_run r)
    (s_free_slots r) v (s_kill_request r) (s_remote_req r) (s_satp r) (s_kills r).
Definition set_s_kill_request (v : list bool) (r : Scheduler) : Scheduler :=
  mkSched (s_threads r) (s_ready r) (s_donations r) (s_current r) (s_idle r) (s_ticks_run r)
    (s_free_slots r) (s_reaper r) v (s_remote_req r) (s_satp r) (s_kills r).
Definition set_s_remote_req (v : list N) (r : Scheduler) : Scheduler :=
  mkSched (s_threads r) (s_ready r) (s_donations r) (s_current r) (s_idle r) (s_ticks_run r)
    (s_free_slots r) (s_reaper r) (s_kill_request r) v (s_satp r) (s_kills r).
Definition set_s_satp (v : list N) (r : Scheduler) : Scheduler :=
  mkSched (s_threads r) (s_ready r) (s_donations r) (s_current r) (s_idle r) (s_ticks_run r)
    (s_free_slots r) (s_reaper r) (s_kill_request r) (s_remote_req r) v (s_kills r).
Definition set_s_kills (v : N) (r : Scheduler) : Scheduler :=
  mkSched (s_threads r) (s_ready r) (s_donations r) (s_current r) (s_idle r) (s_ticks_run r)
    (s_free_slots r) (s_reaper r) (s_kill_request r) (s_remote_req r) (s_satp r) v.

Notation MS := (M Scheduler).

(** [s.threads[id]], read and updated; an index out of range halts. *)
Definition thread (id : N) : MS Thread := s ← get; expect (vget (s_threads s) id).
Definition upd_thread (id : N) (f : Thread → Thread) : MS () :=
  t ← thread id; modify (λ s, set_s_threads (vset (s_threads s) id (f t)) s).
Definition is_state (st : ThreadState) (t : Thread) : bool := bool_decide (t_state t = st).

(** [s.ready[h][l]]. *)
Definition queue (h l : N) : MS (list N) :=
  s ← get; row ← expect (vget (s_ready s) h); expect (vget row l).
Definition set_queue (h l : N) (q : list N) : MS () :=
  s ← get; row ← expect (vget (s_ready s) h);
  modify (set_s_ready (vset (s_ready s) h (vset row l q))).

(** [s.current[h]], [s.idle[h]], [s.ticks_run[h]]. *)
Definition current_of (h : N) : MS N := s ← get; expect (vget (s_current s) h).
Definition set_current (h id : N) : MS () := modify (λ s, set_s_current (vset (s_current s) h id) s).
Definition idle_of (h : N) : MS N := s ← get; expect (vget (s_idle s) h).
Definition set_ticks (h n : N) : MS () := modify (λ s, set_s_ticks_run (vset (s_ticks_run s) h n) s).

(** [THREAD_KILL_REQUEST[id]]. *)
Definition set_kill (id : N) (b : bool) : MS () :=
  s ← get; _ ← expect (vget (s_kill_request s) id);
  modify (set_s_kill_request (vset (s_kill_request s) id b)).

(** [mmu::switch_root] on hart [h]. *)
Definition satp_value (root : N) : N := N.lor (N.shiftl 8 60) (N.shiftr root 12).
Definition switch_root (h root : N) : MS () :=
  s ← get; cur ← expect (vget (s_satp s) h);
  if cur =? satp_value root then mret tt
  else modify (set_s_satp (vset (s_satp s) h (satp_value root))).

(** ** Ready queues *)

(** [pick_next]: the eligibility test of its two modes, one queue, the levels, and
    the fallback. *)
Definition eligible (need_ctx : bool) (t : Thread) : bool :=
  if need_ctx then t_ctx_valid t || t_frame_valid t
  else t_frame_valid t || (t_ctx_valid t && t_woken t).

Fixpoint pick_round (h l : N) (need_ctx : bool) (round : nat) : MS (option N) :=
  match round with
  | O => mret None
  | S round =>
      q ← queue h l;
      match q with
      | [] => mret None
      | id :: q =>
          set_queue h l q;;
          t ← thread id;
          if negb (is_state Ready t) then pick_round h l need_ctx round
          else if eligible need_ctx t then
            upd_thread id (set_t_state Running);; mret (Some id)
          else
            set_queue h l (q ++ [id]);; pick_round h l need_ctx round
      end
  end.

Fixpoint pick_levels (h : N) (need_ctx : bool) (levels : list N) : MS (option N) :=
  match levels with
  | [] => mret None
  | l :: levels =>
      q ← queue h l;
      r ← pick_round h l need_ctx (length q);
      match r with
      | Some id => mret (Some id)
      | None => pick_levels h need_ctx levels
      end
  end.

Definition pick_next (h : N) (need_ctx : bool) : MS N :=
  r ← pick_levels h need_ctx (nrange 0 (N.to_nat PRIO_LEVELS));
  match r with
  | Some id => mret id
  | None =>
      cur ← current_of h;
      t ← thread cur;
      if is_state Exited t || negb (is_state Running t) then idle_of h else mret cur
  end.

(** [eff_prio]. *)
Definition donated (proc : N) (ds : list Donation) (p : N) : N :=
  foldl (λ p d, if (d_peer_proc d =? proc) && (d_prio d <? p) then d_prio d else p) p ds.
Definition eff_prio_of (ds : list Donation) (t : Thread) : N :=
  match t_proc t with Some proc => donated proc ds (t_prio t) | None => t_prio t end.
Definition eff_prio (id : N) : MS N := t ← thread id; gets (λ s, eff_prio_of (s_donations s) t).

(** [enqueue]. *)
Definition enqueue (id : N) : MS () :=
  prio ← eff_prio id;
  t ← thread id;
  q ← queue (t_hart t) prio;
  set_queue (t_hart t) prio (q ++ [id]);;
  upd_thread id (set_t_state Ready).

(** [requeue_proc_threads]: the threads of [proc] leave every queue, in queue order,
    at most [MAX_THREADS] of them are remembered, and these are enqueued again. *)
Definition of_proc (ts : list Thread) (proc id : N) : bool :=
  match vget ts id with Some t => bool_decide (t_proc t = Some proc) | None => false end.
(** The closure of [retain] indexes [threads] by every queued id. *)
Definition queued_valid (s : Scheduler) : bool :=
  forallb (λ id, id <? vlen (s_threads s)) (concat (concat (s_ready s))).
Definition requeue_proc_threads (proc : N) : MS () :=
  s ← get;
  assert_ (queued_valid s);;
  let mine := of_proc (s_threads s) proc in
  let buf := take (N.to_nat MAX_THREADS) (filter mine (concat (concat (s_ready s)))) in
  modify (set_s_ready (map (map (filter (λ id, negb (mine id)))) (s_ready s)));;
  for_each enqueue buf.

(** ** Priority inheritance *)

(** The affected processes, first occurrence first, at most [MAX_THREADS] of them:
    the [affected] buffer of the [retain] closures. *)
Definition note (l : list N) (x : N) : list N :=
  if (vlen l <? MAX_THREADS) && negb (bool_decide (x ∈ l)) then l ++ [x] else l.

(** [register_donation]. *)
Fixpoint replace_donation (d : Donation) (ds : list Donation) : option (list Donation) :=
  match ds with
  | [] => None
  | e :: ds =>
      if d_donor_tid e =? d_donor_tid d then Some (d :: ds)
      else (λ ds, e :: ds) <$> replace_donation d ds
  end.
Definition register_donation (donor_tid peer_proc : N) : MS () :=
  prio ← eff_prio donor_tid;
  let d := mkDonation donor_tid peer_proc prio in
  modify (λ s, set_s_donations
    (match replace_donation d (s_donations s) with
     | Some ds => ds
     | None => if vlen (s_donations s) <? MAX_DONATIONS then s_donations s ++ [d] else s_donations s
     end) s);;
  requeue_proc_threads peer_proc.

(** [revoke_donations]. *)
Definition revoke_donations (donor_tid : N) : MS () :=
  s ← get;
  let mine d := d_donor_tid d =? donor_tid in
  let affected := foldl note [] (d_peer_proc <$> filter mine (s_donations s)) in
  modify (set_s_donations (filter (λ d, negb (mine d)) (s_donations s)));;
  for_each requeue_proc_threads affected.

(** [revoke_donations_of]. *)
Definition revoke_donations_of (tids : list N) (skip_proc : option N) : MS () :=
  s ← get;
  let mine d := bool_decide (d_donor_tid d ∈ tids) in
  let affected := foldl note [] (d_peer_proc <$> filter mine (s_donations s)) in
  modify (set_s_donations (filter (λ d, negb (mine d)) (s_donations s)));;
  for_each (λ proc,
    if bool_decide (Some proc = skip_proc) then mret tt else requeue_proc_threads proc) affected.

(** [revoke_donations_for_proc]. *)
Definition revoke_donations_for_proc (proc : N) : MS () :=
  s ← get;
  let mine d := d_peer_proc d =? proc in
  let affected := foldl note [] (d_donor_tid <$> filter mine (s_donations s)) in
  modify (set_s_donations (filter (λ d, negb (mine d)) (s_donations s)));;
  for_each (λ tid,
    t ← thread tid;
    match t_proc t with
    | Some p => if p =? proc then mret tt else requeue_proc_threads p
    | None => mret tt
    end) affected.

(** [remove_from_ready]: the first occurrence, searched level by level. *)
Fixpoint remove_first (id : N) (q : list N) : option (list N) :=
  match q with
  | [] => None
  | x :: q => if x =? id then Some q else (λ q, x :: q) <$> remove_first id q
  end.
Fixpoint remove_from_row (id : N) (row : list (list N)) : list (list N) :=
  match row with
  | [] => []
  | q :: row =>
      match remove_first id q with
      | Some q' => q' :: row
      | None => q :: remove_from_row id row
      end
  end.
Definition remove_from_ready (id : N) : MS () :=
  t ← thread id;
  s ← get;
  row ← expect (vget (s_ready s) (t_hart t));
  modify (set_s_ready (vset (s_ready s) (t_hart t) (remove_from_row id row))).

(** [preemptable]. *)
Definition preemptable (ts : list Thread) (id : N) : bool :=
  match vget ts id with
  | Some t => is_state Ready t && eligible false t
  | None => false
  end.

(** ** Preemption *)

(** [expand_ctx_to_frame]. *)
Definition ctx_frame (img : Image) (c : Context) : list N :=
  let f := replicate (N.to_nat FRAME_WORDS) 0 in
  let f := vset f FRAME_SEPC (c_ra c) in
  let f := vset f FRAME_SSTATUS SPIE_SPP in
  let f := vset f X_SP (c_sp c) in
  let f := vset f X_GP (global_pointer img) in
  let f := vset f X_S0 (default 0 (vget (c_s c) 0)) in
  let f := vset f X_S1 (default 0 (vget (c_s c) 1)) in
  list_inserts (N.to_nat X_S2) (take 10 (drop 2 (c_s c))) f.
Definition expand_ctx_to_frame (img : Image) (id : N) : MS () :=
  upd_thread id (λ t,
    set_t_woken false (set_t_ctx_valid false (set_t_frame_valid true
      (set_t_frame (ctx_frame img (t_ctx t)) t)))).

(** [(a..b).any(|l| ready[h][l].iter().any(|&id| id != cur && preemptable(id)))]. *)
Definition any_ready (h cur : N) (levels : list N) : MS bool :=
  s ← get;
  row ← expect (vget (s_ready s) h);
  mret (existsb (λ l, existsb (λ id, negb (id =? cur) && preemptable (s_threads s) id)
    (default [] (vget row l))) levels).

(** [on_tick]: the preemption of [cur], whose trap frame is [frame]. *)
Definition preempt (img : Image) (h cur : N) (frame : list N) : MS (list N) :=
  upd_thread cur (λ t, set_t_state Ready (set_t_ctx_valid false (set_t_frame_valid true
    (set_t_frame frame t))));;
  enqueue cur;;
  next ← pick_next h false;
  if next =? cur then
    remove_from_ready cur;;
    upd_thread cur (λ t, set_t_ctx_valid false (set_t_frame_valid true (set_t_state Running t)));;
    mret frame
  else
    set_current h next;;
    t ← thread next;
    (if t_frame_valid t then mret tt else expand_ctx_to_frame img next);;
    t ← thread next;
    switch_root h (t_root t);;
    mret (t_frame t).

Definition on_tick (img : Image) (h : N) (frame : list N) : MS (list N) :=
  s ← get;
  n ← expect (vget (s_ticks_run s) h);
  let n := wrapping_add n 1 in
  set_ticks h n;;
  cur ← current_of h;
  go ← (if n <? SLICE_TICKS then
          cur_prio ← eff_prio cur;
          if cur_prio =? 0 then mret false
          else any_ready h cur (nrange 0 (N.to_nat cur_prio))
        else mret true);
  if negb go then mret frame
  else
    set_ticks h 0;;
    has_other ← any_ready h cur (nrange 0 (N.to_nat PRIO_LEVELS));
    if negb has_other then mret frame
    else preempt img h cur frame.

(** The bookkeeping of a dying thread: its stack goes to the reaper. *)
Definition take_stack (id : N) : MS () :=
  t ← thread id;
  match t_stack t with
  | Some ptr =>
      upd_thread id (set_t_stack None);;
      modify (λ s, set_s_reaper (s_reaper s ++ [ptr]) s)
  | None => mret tt
  end.
Definition free_slot (id : N) : MS () := modify (λ s, set_s_free_slots (s_free_slots s ++ [id]) s).

(** [force_kill_current]. *)
Definition force_kill_current (img : Image) (h : N) (frame : list N) : MS (list N) :=
  cur ← current_of h;
  s ← get;
  req ← expect (vget (s_kill_request s) cur);
  if negb req then mret frame
  else
    take_stack cur;;
    upd_thread cur (λ t, set_t_woken false (set_t_ctx_valid false (set_t_frame_valid false
      (set_t_state Exited t))));;
    free_slot cur;;
    set_kill cur false;;
    set_ticks h 0;;
    next ← pick_next h false;
    set_current h next;;
    t ← thread next;
    (if t_frame_valid t then mret tt else expand_ctx_to_frame img next);;
    t ← thread next;
    switch_root h (t_root t);;
    mret (t_frame t).

(** ** Threads *)

(** [KernelStack::sp]: the stack of 16 KiB lies above its guard page. *)
Definition stack_sp (ptr : N) : MS N :=
  a ← add_ ptr THREAD_STACK_SIZE; b ← add_ a STACK_GUARD_SIZE; mret (N.ldiff b 0xF).

(** The slot of a new thread, as [spawn] and [spawn_user] choose it. *)
Definition new_slot : MS N :=
  s ← get;
  id ← match s_free_slots s with
       | idx :: rest => modify (set_s_free_slots rest);; mret idx
       | [] => assert_ (vlen (s_threads s) <? MAX_THREADS);; mret (vlen (s_threads s))
       end;
  set_kill id false;;
  mret id.
Definition place_thread (id : N) (t : Thread) : MS () :=
  modify (λ s, set_s_threads
    (if id <? vlen (s_threads s) then vset (s_threads s) id t else s_threads s ++ [t]) s).

Definition kernel_frame (pc sp gp : N) : list N :=
  let f := replicate (N.to_nat FRAME_WORDS) 0 in
  let f := vset f FRAME_SEPC pc in
  let f := vset f FRAME_SSTATUS SPIE_SPP in
  let f := vset f 1 sp in
  vset f 2 gp.

(** [Scheduler::spawn] on hart [h]; [stack] is the address [alloc_free_stack]
    returned and [kroot] is [mmu::kernel_root()]. *)
Definition spawn (img : Image) (h kroot stack entry prio : N) : MS N :=
  id ← new_slot;
  sp ← stack_sp stack;
  place_thread id
    (mkThread (N.min prio (PRIO_LEVELS - 1)) Ready
       (mkCtx (thread_entry img) sp (replicate 12 0))
       (kernel_frame (thread_entry img) sp (global_pointer img))
       true true false None None None h kroot entry (Some stack));;
  enqueue id;;
  mret id.

Definition user_frame (entry_pc stack_top argc argv : N) : list N :=
  let f := replicate (N.to_nat FRAME_WORDS) 0 in
  let f := vset f FRAME_SEPC entry_pc in
  let f := vset f FRAME_SSTATUS (N.shiftl 1 5) in
  let f := vset f 1 stack_top in
  let f := vset f 2 0 in
  let f := vset f X_A0 argc in
  vset f X_A1 argv.

(** [Scheduler::spawn_user]; [root] is [process::root(proc_id)]. *)
Definition spawn_user (img : Image) (h root proc_id entry_pc stack_top prio argc argv : N) : MS N :=
  id ← new_slot;
  place_thread id
    (mkThread (N.min prio (PRIO_LEVELS - 1)) Ready
       (mkCtx entry_pc stack_top (replicate 12 0))
       (user_frame entry_pc stack_top argc argv)
       true false false None None (Some proc_id) h root (user_entry_stub img) None);;
  enqueue id;;
  mret id.

(** [spawn_owned]. *)
Definition spawn_owned (img : Image) (h kroot stack entry prio proc_id : N) : MS N :=
  id ← spawn img h kroot stack entry prio;
  upd_thread id (set_t_proc (Some proc_id));;
  s ← get;
  (if existsb (λ d, d_peer_proc d =? proc_id) (s_donations s)
   then requeue_proc_threads proc_id else mret tt);;
  mret id.

(** The static scheduler, and [init] with the addresses of the idle stacks. *)
Definition sched0 : Scheduler :=
  mkSched [] (replicate (N.to_nat MAX_HARTS) (replicate (N.to_nat PRIO_LEVELS) [])) []
    (replicate (N.to_nat MAX_HARTS) 0) (replicate (N.to_nat MAX_HARTS) 0)
    (replicate (N.to_nat MAX_HARTS) 0) [] []
    (replicate (N.to_nat MAX_THREADS) false) (replicate (N.to_nat MAX_HARTS) 0)
    (replicate (N.to_nat MAX_HARTS) 0) 0.
Definition idle_frame (img : Image) : list N :=
  vset (vset (replicate (N.to_nat FRAME_WORDS) 0) FRAME_SEPC (idle_entry img)) FRAME_SSTATUS SPIE_SPP.
Definition init_hart (img : Image) (kroot : N) (hs : N * N) : MS () :=
  let '(h, stack) := hs in
  s ← get;
  let idle_id := vlen (s_threads s) in
  sp ← stack_sp stack;
  modify (λ s, set_s_threads (s_threads s ++
    [mkThread PRIO_LOW Running (mkCtx (idle_entry img) sp (replicate 12 0)) (idle_frame img)
       false true false None None None h kroot (idle_entry img) (Some stack)]) s);;
  set_current h idle_id;;
  modify (λ s, mkSched (s_threads s) (s_ready s) (s_donations s) (s_current s)
    (vset (s_idle s) h idle_id) (s_ticks_run s) (s_free_slots s) (s_reaper s)
    (s_kill_request s) (s_remote_req s) (s_satp s) (s_kills s)).
Definition init (img : Image) (kroot : N) (stacks : list N) : MS () :=
  for_each (init_hart img kroot) (zip (nrange 0 (N.to_nat MAX_HARTS)) stacks).

(** [thread_entry]: the first run of a kernel thread consumes its initial frame and
    answers the entry point it calls. *)
Definition thread_entry_prologue (h : N) : MS N :=
  id ← current_of h;
  upd_thread id (set_t_frame_valid false);;
  t ← thread id;
  mret (t_entry t).

(** ** Switching *)
Record SwitchTarget := mkTarget { st_old : N; st_new : N; st_use_frame : bool; st_next_root : N }.

(** What a hart continues with: a saved cooperative context or a trap frame. *)
Inductive Resume := RCtx (c : Context) | RFrame (f : list N).

(** [switch_target]. *)
Definition switch_target (cur next : N) : MS SwitchTarget :=
  t ← thread next;
  _ ← thread cur;
  mret (mkTarget cur next (negb (t_ctx_valid t)) (t_root t)).

(** [do_switch] with [context_switch] and [frame_restore] of riscv64.S: both first
    store the callee-saved registers into the old context. *)
Definition do_switch (h : N) (st : SwitchTarget) (cpu : Context) : MS Resume :=
  switch_root h (st_next_root st);;
  upd_thread (st_old st) (set_t_ctx cpu);;
  t ← thread (st_new st);
  mret (if st_use_frame st then RFrame (t_frame t) else RCtx (t_ctx t)).

(** [drain_reaper] and the loop of [yield_]: every stack of the queue is dropped. *)
Definition drain_reaper : MS () := modify (set_s_reaper []).

(** [yield_]. *)
Definition yield_locked (h : N) : MS SwitchTarget :=
  cur ← current_of h;
  upd_thread cur (λ t, set_t_ctx_valid true (set_t_frame_valid false t));;
  drain_reaper;;
  enqueue cur;;
  set_ticks h 0;;
  next ← pick_next h true;
  set_current h next;;
  switch_target cur next.
Definition yield_ (h : N) (cpu : Context) : MS Resume := st ← yield_locked h; do_switch h st cpu.

(** [block_current]: [None] when it returns without blocking; [block_resumed] is what
    the thread runs when it is resumed. *)
Definition block_locked (h : N) : MS (option SwitchTarget) :=
  cur ← current_of h;
  t ← thread cur;
  match t_ipc_wake t with
  | Some _ =>
      upd_thread cur (λ t, set_t_state Running (set_t_ipc_wake None t));;
      revoke_donations cur;;
      mret None
  | None =>
      if is_state Ready t then
        remove_from_ready cur;;
        upd_thread cur (λ t, set_t_woken false (set_t_state Running t));;
        mret None
      else if t_woken t then
        upd_thread cur (λ t, set_t_state Running (set_t_woken false t));;
        mret None
      else
        upd_thread cur (λ t, set_t_ctx_valid true (set_t_frame_valid false (set_t_state Blocked t)));;
        set_ticks h 0;;
        next ← pick_next h true;
        set_current h next;;
        st ← switch_target cur next;
        mret (Some st)
  end.
Definition block_current (h : N) (cpu : Context) : MS (option Resume) :=
  o ← block_locked h;
  match o with
  | None => mret None
  | Some st => r ← do_switch h st cpu; mret (Some r)
  end.
Definition block_resumed (h : N) : MS () :=
  cur ← current_of h;
  remove_from_ready cur;;
  upd_thread cur (set_t_woken false).

(** [exit]: the locked part; [exit_from_trap] has the same one. *)
Definition exit_locked (h : N) : MS SwitchTarget :=
  cur ← current_of h;
  take_stack cur;;
  upd_thread cur (λ t, set_t_ctx_valid true (set_t_frame_valid false (set_t_state Exited t)));;
  free_slot cur;;
  set_ticks h 0;;
  next ← pick_next h true;
  set_current h next;;
  switch_target cur next.
Definition exit (h : N) (cpu : Context) : MS Resume := st ← exit_locked h; do_switch h st cpu.
Definition exit_from_trap (h : N) (cpu : Context) : MS Resume :=
  st ← exit_locked h; do_switch h st cpu.

(** Write the result of an IPC call into a trap frame: the message words into
    [a1].., a status into [a0], and [sepc] past the [ecall]. *)
Definition put_words (m : list N) (f : list N) : MS (list N) :=
  assert_ (X_A1 + vlen m <=? vlen f);;
  mret (list_inserts (N.to_nat X_A1) m f).
Definition skip_ecall (f : list N) : MS (list N) :=
  pc ← expect (vget f FRAME_SEPC);
  pc ← add_ pc 4;
  mret (vset f FRAME_SEPC pc).

(** [block_user_from_trap] of the user thread whose trap frame is [frame]: either the
    live frame with the result of a wake-up that came first, or the switch. *)
Definition block_user_locked (h : N) (frame : list N) : MS (list N + SwitchTarget) :=
  cur ← current_of h;
  t ← thread cur;
  match t_ipc_wake t with
  | Some w =>
      upd_thread cur (λ t, set_t_state Running (set_t_ipc_wake None t));;
      revoke_donations cur;;
      f ← match w with
          | WMsg m => put_words m (vset frame X_A0 0)
          | WErr code => mret (vset frame X_A0 code)
          end;
      f ← skip_ecall f;
      mret (inl f)
  | None =>
      upd_thread cur (λ t, set_t_state Blocked (set_t_woken false (set_t_ctx_valid false
        (set_t_frame_valid true (set_t_frame frame t)))));;
      set_ticks h 0;;
      next ← pick_next h true;
      set_current h next;;
      st ← switch_target cur next;
      mret (inr st)
  end.
Definition block_user_from_trap (h : N) (frame : list N) (cpu : Context) : MS (list N + Resume) :=
  o ← block_user_locked h frame;
  match o with
  | inl f => mret (inl f)
  | inr st => r ← do_switch h st cpu; mret (inr r)
  end.

(** ** Waking *)

(** [wake]. *)
Definition wake (id : N) : MS () :=
  s ← get;
  if id <? vlen (s_threads s) then
    upd_thread id (set_t_woken true);;
    t ← thread id;
    if is_state Blocked t then enqueue id else mret tt
  else mret tt.

(** The message buffer [[usize; MSG_WORDS]] filled from a slice. *)
Definition msg_buf (m : list N) : list N :=
  take (N.to_nat MSG_WORDS) (m ++ replicate (N.to_nat MSG_WORDS) 0).

(** [ipc_wake_with_msg]. *)
Definition ipc_wake_with_msg (tid : N) (msg : option (list N)) : MS () :=
  t ← thread tid;
  if negb (is_state Blocked t) then
    let buf := msg_buf (default [] msg) in
    upd_thread tid (λ t, set_t_ipc_wake (Some (WMsg buf)) (set_t_ipc_msg (Some buf) t))
  else
    let f := vset (t_frame t) X_A0 0 in
    f ← match msg with Some m => put_words m f | None => mret f end;
    f ← skip_ecall f;
    upd_thread tid (λ t, set_t_ipc_wake None (set_t_ipc_msg (msg_buf <$> msg) (set_t_frame f t)));;
    enqueue tid;;
    revoke_donations tid.

(** [ipc_wake_with_err]. *)
Definition ipc_wake_with_err (tid code : N) : MS () :=
  t ← thread tid;
  let buf := replicate (N.to_nat MSG_WORDS) code in
  if negb (is_state Blocked t) then
    upd_thread tid (λ t, set_t_ipc_wake (Some (WErr code)) (set_t_ipc_msg (Some buf) t))
  else
    f ← skip_ecall (vset (t_frame t) X_A0 code);
    upd_thread tid (λ t, set_t_ipc_wake None (set_t_ipc_msg (Some buf) (set_t_frame f t)));;
    enqueue tid;;
    revoke_donations tid.

(** [donate_on_block], [take_ipc_msg], [current_id], [current_proc], [is_blocked]. *)
Definition donate_on_block (donor_tid peer_proc : N) : MS () := register_donation donor_tid peer_proc.
Definition take_ipc_msg (h : N) : MS (option (list N)) :=
  id ← current_of h;
  t ← thread id;
  upd_thread id (set_t_ipc_msg None);;
  mret (t_ipc_msg t).
Definition current_id (h : N) : MS N := current_of h.
Definition current_proc (h : N) : MS N := id ← current_of h; t ← thread id; expect (t_proc t).
Definition is_blocked (id : N) (s : Scheduler) : bool :=
  match vget (s_threads s) id with Some t => is_state Blocked t | None => false end.
Definition donation_count (s : Scheduler) : N := vlen (s_donations s).
Definition free_slot_count (s : Scheduler) : N := vlen (s_free_slots s).
Definition pending_kill_request_count (s : Scheduler) : N := vlen (filter (λ b : bool, b) (s_kill_request s)).

(** [set_affinity]. *)
Definition set_affinity (id hart : N) : MS () :=
  s ← get;
  assert_ (id <? vlen (s_threads s));;
  let h := N.min hart (MAX_HARTS - 1) in
  t ← thread id;
  match t_state t with
  | Ready =>
      if t_hart t =? h then mret tt
      else
        remove_from_ready id;;
        upd_thread id (set_t_hart h);;
        enqueue id
  | Blocked => upd_thread id (set_t_hart h)
  | Running | Exited => panic
  end.

(** One round of [secondary_idle], under the lock. *)
Definition secondary_idle_locked (h : N) : MS (option SwitchTarget) :=
  cur ← current_of h;
  set_ticks h 0;;
  next ← pick_next h true;
  if next =? cur then mret None
  else
    set_current h next;;
    st ← switch_target cur next;
    mret (Some st).

(** ** Requests to other harts *)

(** [send_remote_req] and [take_remote_request]. *)
Definition send_remote_req (h bits : N) : MS () :=
  s ← get; w ← expect (vget (s_remote_req s) h);
  modify (set_s_remote_req (vset (s_remote_req s) h (N.lor w bits))).
Definition take_remote_request (h : N) : MS N :=
  s ← get; w ← expect (vget (s_remote_req s) h);
  modify (set_s_remote_req (vset (s_remote_req s) h 0));;
  mret w.

(** The requests of [tlb_shootdown_remote] from hart [h], with [cpus] harts of which
    those in [online] run. *)
Definition tlb_shootdown_remote (h cpus online : N) : MS () :=
  for_each (λ h', if (h' =? h) || negb (N.testbit online h') then mret tt
                  else send_remote_req h' REMOTE_TLB_FLUSH)
    (nrange 0 (N.to_nat (N.min cpus MAX_HARTS))).

(** [kill_process], step 2: under the lock, the threads of [pid] other than the
    current one are taken off the queues and killed, or asked for when they run on
    another hart. *)
Definition FORCE_PACK_ID_MASK : N := 0xFFFF.
Definition FORCE_PACK_HART_SHIFT : N := 16.
Definition victims_of (s : Scheduler) (pid cur : N) : list N :=
  take (N.to_nat MAX_THREADS)
    (filter (λ id, of_proc (s_threads s) pid id && negb (id =? cur))
       (nrange 0 (length (s_threads s)))).
Fixpoint kill_victims (victims : list N) : MS (list N) :=
  match victims with
  | [] => mret []
  | id :: victims =>
      t ← thread id;
      if is_state Running t then
        set_kill id true;;
        force ← kill_victims victims;
        mret (N.lor id (N.shiftl (t_hart t) FORCE_PACK_HART_SHIFT) :: force)
      else
        take_stack id;;
        upd_thread id (λ t, set_t_ctx_valid false (set_t_frame_valid false (set_t_state Exited t)));;
        free_slot id;;
        kill_victims victims
  end.
Definition kill_locked (h pid : N) : MS (bool * list N) :=
  s ← get;
  cur ← current_of h;
  t ← thread cur;
  let cur_in_pid := bool_decide (t_proc t = Some pid) in
  let victims := victims_of s pid cur in
  modify (set_s_ready (map (map (filter (λ id, negb (bool_decide (id ∈ victims))))) (s_ready s)));;
  force ← kill_victims victims;
  revoke_donations_for_proc pid;;
  assert_ (vlen victims <? MAX_THREADS);;
  revoke_donations_of (victims ++ [cur]) (Some pid);;
  mret (cur_in_pid, force).

(** Steps 1 and 3 of [kill_process] on the scheduler: the counter, and the requests
    sent after the lock is released. *)
Definition count_kill : MS () := modify (λ s, set_s_kills (wrapping_add (s_kills s) 1) s).
Definition send_force_kills (force : list N) : MS () :=
  for_each (λ pk, send_remote_req (N.shiftr pk FORCE_PACK_HART_SHIFT) REMOTE_FORCE_KILL) force.
