(* ===== verification/SchedInv.v ===== *)
(** * The scheduler invariant

    A total-correctness predicate for runs of the scheduler, the invariant of its
    state, and the two moves every operation is made of: putting a thread into a ready
    queue and picking one from it. *)

From Stdlib Require Import ZifyN ZifyNat.
From stdpp Require Import base gmap numbers functions list.
From S2P Require Import Prelude Sched.

(** ** Runs *)

(** [m] returns from [s], with a result and a state satisfying [Q]. *)
Definition runs {S A} (m : M S A) (s : S) (Q : A → S → Prop) : Prop :=
  ∃ a s', m s = Ret (a, s') ∧ Q a s'.

Section runs.
Context {S : Type}.
Implicit Types s : S.

Lemma runs_ret {A} (a : A) s (Q : A → S → Prop) : Q a s → runs (mret a) s Q.
Proof. intros H. by exists a, s. Qed.

Lemma runs_bind {A B} (m : M S A) (f : A → M S B) s Q :
  runs m s (λ a s', runs (f a) s' Q) → runs (m ≫= f) s Q.
Proof.
  intros (a & s1 & E & b & s2 & E2 & HQ). exists b, s2. split; [|done].
  by rewrite (bind_ret _ _ _ _ _ E).
Qed.

Lemma runs_mono {A} (m : M S A) s (Q Q' : A → S → Prop) :
  runs m s Q → (∀ a s', Q a s' → Q' a s') → runs m s Q'.
Proof. intros (a & s1 & E & HQ) H. exists a, s1. eauto. Qed.

Lemma runs_conj {A} (m : M S A) s (Q Q' : A → S → Prop) :
  runs m s Q → runs m s Q' → runs m s (λ a s', Q a s' ∧ Q' a s').
Proof.
  intros (a & s1 & E & HQ) (b & s2 & E' & HQ'). rewrite E in E'. injection E' as <- <-. by exists a, s1.
Qed.

Lemma runs_get s (Q : S → S → Prop) : Q s s → runs get s Q.
Proof. intros H. by exists s, s. Qed.

Lemma runs_gets {A} (g : S → A) s (Q : A → S → Prop) : Q (g s) s → runs (gets g) s Q.
Proof. intros H. by exists (g s), s. Qed.

Lemma runs_modify g s (Q : () → S → Prop) : Q tt (g s) → runs (modify g) s Q.
Proof. intros H. by exists tt, (g s). Qed.

Lemma runs_expect {A} (o : option A) a s (Q : A → S → Prop) :
  o = Some a → Q a s → runs (expect o) s Q.
Proof. intros -> H. by exists a, s. Qed.

Lemma runs_assert b s (Q : () → S → Prop) : b = true → Q tt s → runs (assert_ b) s Q.
Proof. intros -> H. by exists tt, s. Qed.

Lemma runs_for_each {A} (P : S → Prop) (f : A → M S ()) l s (Q : () → S → Prop) :
  (∀ x s, x ∈ l → P s → runs (f x) s (λ _ s', P s')) →
  P s → (∀ s', P s' → Q tt s') → runs (for_each f l) s Q.
Proof.
  intros Hf Hs HQ. destruct (for_each_inv P f l s) as (s' & E & Hs'); [|done|].
  - intros x s1 Hx Hs1. destruct (Hf x s1 Hx Hs1) as ([] & s2 & E & H2). eauto.
  - exists tt, s'. auto.
Qed.
End runs.

(** ** Queues *)

(** The queue of level [l] on hart [h]. *)
Definition rq (s : Scheduler) (h l : N) : list N :=
  default [] (row ← vget (s_ready s) h; vget row l).
Definition with_q (h l : N) (q : list N) (s : Scheduler) : Scheduler :=
  set_s_ready (vset (s_ready s) h (vset (default [] (vget (s_ready s) h)) l q)) s.

(** The lengths of the fixed arrays. *)
Record shape (s : Scheduler) : Prop := mkShape {
  sh_ready : vlen (s_ready s) = MAX_HARTS;
  sh_rows : ∀ h row, vget (s_ready s) h = Some row → vlen row = PRIO_LEVELS;
  sh_current : vlen (s_current s) = MAX_HARTS;
  sh_idle : vlen (s_idle s) = MAX_HARTS;
  sh_ticks : vlen (s_ticks_run s) = MAX_HARTS;
  sh_kill : vlen (s_kill_request s) = MAX_THREADS;
  sh_remote : vlen (s_remote_req s) = MAX_HARTS;
  sh_satp : vlen (s_satp s) = MAX_HARTS;
  sh_threads : vlen (s_threads s) ≤ MAX_THREADS
}.

Section queues.
Implicit Types (s : Scheduler) (h l : N).

Lemma row_of s h : shape s → h < MAX_HARTS → ∃ row, vget (s_ready s) h = Some row ∧ vlen row = PRIO_LEVELS.
Proof.
  intros Hs Hh. destruct (vget_lt_Some (s_ready s) h) as [row E]; [by rewrite (sh_ready s Hs)|].
  exists row. split; [done|]. by apply (sh_rows s Hs h).
Qed.

Lemma rq_row s h l row : vget (s_ready s) h = Some row → rq s h l = default [] (vget row l).
Proof. intros E. unfold rq. by rewrite E. Qed.

Lemma runs_queue s h l (Q : list N → Scheduler → Prop) :
  shape s → h < MAX_HARTS → l < PRIO_LEVELS → Q (rq s h l) s → runs (queue h l) s Q.
Proof.
  intros Hs Hh Hl HQ. destruct (row_of s h Hs Hh) as (row & E & Hr).
  destruct (vget_lt_Some row l) as [q Eq]; [by rewrite Hr|].
  exists q, s. unfold queue. rewrite bind_get, (bind_expect_some _ _ _ _ E), Eq.
  split; [done|]. by rewrite (rq_row _ _ _ _ E), Eq in HQ.
Qed.

Lemma runs_set_queue s h l q (Q : () → Scheduler → Prop) :
  shape s → h < MAX_HARTS → Q tt (with_q h l q s) → runs (set_queue h l q) s Q.
Proof.
  intros Hs Hh HQ. destruct (row_of s h Hs Hh) as (row & E & Hr).
  unfold with_q in HQ. rewrite E in HQ.
  eexists tt, _. unfold set_queue. rewrite bind_get, (bind_expect_some _ _ _ _ E). by split.
Qed.

Lemma rq_with_q s h l q h' l' :
  shape s → h < MAX_HARTS → l < PRIO_LEVELS →
  rq (with_q h l q s) h' l' = if decide (h' = h ∧ l' = l) then q else rq s h' l'.
Proof.
  intros Hs Hh Hl. destruct (row_of s h Hs Hh) as (row & E & Hr).
  unfold with_q. rewrite E. unfold rq. cbn [s_ready set_s_ready from_option id].
  rewrite vget_vset. destruct (decide (h' = h)) as [->|Hne].
  - rewrite decide_True by (split; [done|by rewrite (sh_ready s Hs)]). cbn [mbind option_bind].
    rewrite vget_vset, E. cbn [mbind option_bind]. rewrite Hr.
    repeat case_decide; naive_solver.
  - rewrite decide_False by naive_solver. rewrite decide_False by naive_solver. done.
Qed.

Lemma with_q_with_q s h l q q' : h < vlen (s_ready s) → with_q h l q' (with_q h l q s) = with_q h l q' s.
Proof.
  intros Hh. unfold with_q. cbn [s_ready set_s_ready]. rewrite vget_vset_eq by done. cbn [from_option id].
  by rewrite !vset_vset.
Qed.

Lemma with_q_id s h l : shape s → h < MAX_HARTS → l < PRIO_LEVELS → with_q h l (rq s h l) s = s.
Proof.
  intros Hs Hh Hl. destruct (row_of s h Hs Hh) as (row & E & Hr).
  destruct (vget_lt_Some row l) as [q Eq]; [by rewrite Hr|].
  unfold with_q. rewrite (rq_row _ _ _ _ E), E, Eq. cbn [from_option id].
  rewrite (vset_id row l q Eq), (vset_id _ _ _ E). by destruct s.
Qed.

Lemma shape_with_q s h l q : shape s → shape (with_q h l q s).
Proof.
  intros Hs. destruct Hs. constructor; cbn; try done; [by rewrite vlen_vset|].
  intros h' row. rewrite vget_vset. case_decide as E; [|by eauto].
  intros [= <-]. rewrite vlen_vset. destruct (vget_lt_Some (s_ready s) h) as [r Er]; [naive_solver|].
  rewrite Er. cbn. by eauto.
Qed.

Lemma elem_of_ready s id : shape s →
  id ∈ concat (concat (s_ready s)) ↔ ∃ h l, h < MAX_HARTS ∧ l < PRIO_LEVELS ∧ id ∈ rq s h l.
Proof.
  intros Hs. rewrite list_elem_of_In, in_concat. split.
  - intros (q & Hq & Hid). apply in_concat in Hq as (row & Hrow & Hq).
    apply list_elem_of_In, list_elem_of_lookup in Hrow as [i Hi].
    apply list_elem_of_In, list_elem_of_lookup in Hq as [j Hj].
    assert (E : vget (s_ready s) (N.of_nat i) = Some row) by (by rewrite vget_lookup, Nat2N.id).
    assert (E' : vget row (N.of_nat j) = Some q) by (by rewrite vget_lookup, Nat2N.id).
    exists (N.of_nat i), (N.of_nat j). split_and!.
    + rewrite <-(sh_ready s Hs). by eapply vget_Some_lt.
    + rewrite <-(sh_rows s Hs _ _ E). by eapply vget_Some_lt.
    + rewrite (rq_row _ _ _ _ E), E'. by apply list_elem_of_In.
  - intros (h & l & Hh & Hl & Hid). destruct (row_of s h Hs Hh) as (row & E & Hr).
    destruct (vget_lt_Some row l) as [q Eq]; [by rewrite Hr|].
    rewrite (rq_row _ _ _ _ E), Eq in Hid. rewrite vget_lookup in E. rewrite vget_lookup in Eq.
    exists q. split; [|by apply list_elem_of_In]. apply in_concat. exists row.
    split; apply list_elem_of_In; by eapply list_elem_of_lookup_2.
Qed.
End queues.

(** ** Threads *)
Notation th s id := (vget (s_threads s) id).
Definition with_t (id : N) (t : Thread) (s : Scheduler) : Scheduler :=
  set_s_threads (vset (s_threads s) id t) s.

Section threads.
Implicit Types (s : Scheduler) (t : Thread).

Lemma runs_thread s id t (Q : Thread → Scheduler → Prop) :
  th s id = Some t → Q t s → runs (thread id) s Q.
Proof. intros E HQ. exists t, s. unfold thread. rewrite bind_get, E. by split. Qed.

Lemma runs_upd s id t f (Q : () → Scheduler → Prop) :
  th s id = Some t → Q tt (with_t id (f t) s) → runs (upd_thread id f) s Q.
Proof.
  intros E HQ. unfold upd_thread. apply runs_bind. eapply runs_thread; [done|].
  by apply runs_modify.
Qed.

Lemma th_with_t s id t t0 id' : th s id = Some t0 →
  th (with_t id t s) id' = if decide (id' = id) then Some t else th s id'.
Proof.
  intros E. apply vget_Some_lt in E. cbn. rewrite vget_vset.
  repeat case_decide; naive_solver.
Qed.

Lemma shape_with_t s id t : shape s → shape (with_t id t s).
Proof. intros Hs. destruct Hs. constructor; cbn; try done. by rewrite vlen_vset. Qed.
End threads.

(** Membership in the list of threads that are out. *)
Ltac notin := first [apply not_elem_of_nil | rewrite list_elem_of_singleton; congruence].

(** ** The invariant *)

Definition thread_ok (t : Thread) : Prop :=
  t_prio t < PRIO_LEVELS ∧ t_hart t < MAX_HARTS ∧ vlen (t_frame t) = FRAME_WORDS ∧
  vlen (c_s (t_ctx t)) = 12.
(** The thread can be resumed: one of its two save areas is current. *)
Definition resumable (t : Thread) : bool := t_ctx_valid t || t_frame_valid t.
Definition is_idle (s : Scheduler) (id : N) : Prop := ∃ h, vget (s_idle s) h = Some id.

(** The queues hold exactly the ready threads, each once, on its own hart; a thread
    that waits can be resumed; the free slots are exactly the exited threads, each
    once; the idle threads neither block nor exit.  The threads [P] are between
    two states: in no queue and in no free slot. *)
Record core (P : list N) (s : Scheduler) : Prop := mkCore {
  co_shape : shape s;
  co_threads : ∀ id t, th s id = Some t → thread_ok t;
  co_don : ∀ d, d ∈ s_donations s → d_prio d < PRIO_LEVELS ∧ d_donor_tid d < vlen (s_threads s);
  co_queued : ∀ h l id, id ∈ rq s h l →
    (id ∉ P) ∧ ∃ t, th s id = Some t ∧ t_state t = Ready ∧ t_hart t = h;
  co_nodup : ∀ h l, NoDup (rq s h l);
  co_level : ∀ h l l' id, id ∈ rq s h l → id ∈ rq s h l' → l = l';
  co_ready : ∀ id t, (id ∉ P) → th s id = Some t → t_state t = Ready →
    ∃ l, l < PRIO_LEVELS ∧ id ∈ rq s (t_hart t) l;
  co_resume : ∀ id t, (id ∉ P) → th s id = Some t →
    t_state t = Ready ∨ t_state t = Blocked → resumable t = true;
  co_idle : ∀ h, h < MAX_HARTS → ∃ id t, vget (s_idle s) h = Some id ∧ th s id = Some t ∧
    t_hart t = h ∧ t_proc t = None ∧ ((id ∉ P) → t_state t = Ready ∨ t_state t = Running);
  co_free : ∀ id, id ∈ s_free_slots s ↔
    (id ∉ P) ∧ ∃ t, th s id = Some t ∧ t_state t = Exited;
  co_free_nodup : NoDup (s_free_slots s)
}.

(** The current thread of a hart runs on it. *)
Definition running_on (s : Scheduler) (h : N) : Prop :=
  ∃ id t, vget (s_current s) h = Some id ∧ th s id = Some t ∧ t_state t = Running ∧ t_hart t = h.

(** The whole invariant: every hart runs its current thread, and only a current or an
    idle thread is running. *)
Record sched_inv (s : Scheduler) : Prop := mkInv {
  in_core : core [] s;
  in_current : ∀ h, h < MAX_HARTS → running_on s h;
  in_running : ∀ id t, th s id = Some t → t_state t = Running →
    vget (s_current s) (t_hart t) = Some id ∨ vget (s_idle s) (t_hart t) = Some id
}.

(** Hart [h] has given up its current thread: no thread but the idle one runs on it. *)
Record vacant (h : N) (s : Scheduler) : Prop := mkVacant {
  va_core : core [] s;
  va_current : ∀ h', h' < MAX_HARTS → h' ≠ h → running_on s h';
  va_running : ∀ id t, th s id = Some t → t_state t = Running →
    (t_hart t ≠ h ∧ vget (s_current s) (t_hart t) = Some id) ∨ vget (s_idle s) (t_hart t) = Some id
}.

Lemma idle_unique s id t h : core [] s → th s id = Some t → vget (s_idle s) h = Some id → t_hart t = h.
Proof.
  intros C Ht Hi. pose proof (vget_Some_lt _ _ _ Hi) as Hh. rewrite (sh_idle s (co_shape _ _ C)) in Hh.
  destruct (co_idle _ _ C h Hh) as (id' & t' & E1 & E2 & E3 & _). congruence.
Qed.

(** A change of the other fields. *)
Lemma core_frame P s s' :
  s_threads s' = s_threads s → s_ready s' = s_ready s → s_donations s' = s_donations s →
  s_idle s' = s_idle s → s_free_slots s' = s_free_slots s → shape s' → core P s → core P s'.
Proof.
  destruct s, s'; cbn. intros -> -> -> -> -> Hs C. destruct C. by constructor.
Qed.

(** Only the membership of the list matters. *)
Lemma core_ext P P' s : (∀ x, x ∈ P ↔ x ∈ P') → core P s → core P' s.
Proof.
  intros HP C. destruct C. constructor; try done.
  - intros h l id Hid. rewrite <-HP. by apply (co_queued0 h l).
  - intros id t. rewrite <-HP. by apply co_ready0.
  - intros id t. rewrite <-HP. by apply co_resume0.
  - intros h Hh. setoid_rewrite <-HP. by apply co_idle0.
  - intros id. rewrite <-HP. by apply co_free0.
Qed.

(** A running or blocked thread can be taken out to be changed. *)
Lemma core_take_from P s p t :
  core P s → p ∉ P → th s p = Some t → t_state t = Running ∨ t_state t = Blocked → core (p :: P) s.
Proof.
  intros C HpP Hp Hst.
  assert (Hin : ∀ id, id ∉ p :: P → id ∉ P) by (intros id [_ ?]%not_elem_of_cons; done).
  destruct C. constructor; try done.
  - intros h l id Hid. destruct (co_queued0 _ _ _ Hid) as (Hn & t' & E & Er & Eh).
    split; [|by eauto]. apply not_elem_of_cons. split; [|done]. intros ->. destruct Hst; congruence.
  - intros id t' Hn. by apply co_ready0, Hin.
  - intros id t' Hn. by apply co_resume0, Hin.
  - intros h Hh. destruct (co_idle0 h Hh) as (id & t' & ? & ? & ? & ? & Hs).
    exists id, t'. split_and!; try done. intros Hn. by apply Hs, Hin.
  - intros id. rewrite co_free0. split; [|intros (Hn & ?); split; [by apply Hin|done]].
    intros (Hn & t' & E & Ex). split; [|by eauto]. apply not_elem_of_cons. split; [|done].
    intros ->. destruct Hst; congruence.
Qed.

Lemma core_take s p t :
  core [] s → th s p = Some t → t_state t = Running ∨ t_state t = Blocked → core [p] s.
Proof. intros C. apply (core_take_from []); [done|notin]. Qed.

(** Changing the thread that is out. *)
Lemma core_upd P s p t t' :
  p ∈ P → core P s → th s p = Some t → thread_ok t' →
  (is_idle s p → t_hart t' = t_hart t ∧ t_proc t' = t_proc t) →
  core P (with_t p t' s).
Proof.
  intros HP C Hp Hok Hidle. pose proof (th_with_t s p t' t) as Hw.
  destruct C. constructor; try done.
  - by apply shape_with_t.
  - intros id u. rewrite Hw by done. case_decide; [|by eauto]. naive_solver.
  - intros d Hd. destruct (co_don0 d Hd). cbn. by rewrite vlen_vset.
  - intros h l id Hid. destruct (co_queued0 h l id Hid) as (Hne & u & E & H).
    split; [done|]. exists u. rewrite Hw, decide_False by (done || by intros ->). done.
  - intros id u Hne. rewrite Hw, decide_False by (done || by intros ->). by apply co_ready0.
  - intros id u Hne. rewrite Hw, decide_False by (done || by intros ->). by apply co_resume0.
  - intros h Hh. destruct (co_idle0 h Hh) as (id & u & E1 & E2 & E3 & E4 & E5).
    destruct (decide (id = p)) as [->|Hne].
    + exists p, t'. rewrite Hw, decide_True by done. destruct Hidle as [H1 H2]; [by exists h|].
      split_and!; [done|done|congruence|congruence|done].
    + exists id, u. rewrite Hw, decide_False by done. done.
  - intros id. rewrite co_free0. split; intros (Hne & u & E & Ex);
      (split; [done|]); exists u; revert E; rewrite Hw, decide_False by (done || by intros ->); done.
Qed.

(** Putting it back: it runs, it is blocked, or it has exited. *)
Lemma core_put_running s p t :
  core [p] s → th s p = Some t → t_state t = Running → core [] s.
Proof.
  intros C Hp Hst. destruct C. constructor; try done.
  - intros h l id Hid. split; [notin|]. by destruct (co_queued0 _ _ _ Hid).
  - intros id u _ E Eu. apply co_ready0; [|done..]. intros ->%list_elem_of_singleton. congruence.
  - intros id u _ E Eu. apply (co_resume0 id); [|done..]. intros ->%list_elem_of_singleton. destruct Eu; congruence.
  - intros h Hh. destruct (co_idle0 h Hh) as (id & u & E1 & E2 & E3 & E4 & E5).
    exists id, u. split_and!; try done. intros _. destruct (decide (id = p)) as [->|Hne].
    + right. congruence.
    + apply E5. notin.
  - intros id. rewrite co_free0. split; [intros (_ & ?); split; [notin|done]|]. intros (_ & u & E & Ex).
    split; [|by eauto]. intros ->%list_elem_of_singleton. congruence.
Qed.

Lemma core_put_blocked s p t :
  core [p] s → th s p = Some t → t_state t = Blocked → resumable t = true →
  ¬ is_idle s p → core [] s.
Proof.
  intros C Hp Hst Hr Hi. destruct C. constructor; try done.
  - intros h l id Hid. split; [notin|]. by destruct (co_queued0 _ _ _ Hid).
  - intros id u _ E Eu. apply co_ready0; [|done..]. intros ->%list_elem_of_singleton. congruence.
  - intros id u _ E Eu. destruct (decide (id = p)) as [->|Hne]; [congruence|].
    apply (co_resume0 id); [|done..]. notin.
  - intros h Hh. destruct (co_idle0 h Hh) as (id & u & E1 & E2 & E3 & E4 & E5).
    exists id, u. split_and!; try done. intros _. apply E5. intros ->%list_elem_of_singleton. destruct Hi. by exists h.
  - intros id. rewrite co_free0. split; [intros (_ & ?); split; [notin|done]|]. intros (_ & u & E & Ex).
    split; [|by eauto]. intros ->%list_elem_of_singleton. congruence.
Qed.

Lemma core_put_exited_from P s p t :
  core (p :: P) s → p ∉ P → th s p = Some t → t_state t = Exited → ¬ is_idle s p →
  core P (set_s_free_slots (s_free_slots s ++ [p]) s).
Proof.
  intros C HpP Hp Hst Hi.
  assert (Hout : ∀ id, id ≠ p → id ∉ P → id ∉ p :: P) by (intros; by apply not_elem_of_cons).
  assert (Hin : ∀ id, id ∉ p :: P → id ≠ p ∧ id ∉ P) by (intros id H; by apply not_elem_of_cons in H).
  destruct C. constructor; try done.
  - by destruct co_shape0.
  - intros h l id Hid. destruct (co_queued0 _ _ _ Hid) as [Hn ?]. split; [by apply Hin|done].
  - intros id u Hn E Eu. apply co_ready0; [|done..]. apply Hout; [|done]. intros ->. cbn in E. congruence.
  - intros id u Hn E Eu. apply (co_resume0 id); [|done..]. apply Hout; [|done].
    intros ->. cbn in E. destruct Eu; congruence.
  - intros h Hh. destruct (co_idle0 h Hh) as (id & u & E1 & E2 & E3 & E4 & E5).
    exists id, u. split_and!; try done. intros Hn. apply E5, Hout; [|done]. intros ->. destruct Hi. by exists h.
  - intros id. cbn. rewrite elem_of_app, list_elem_of_singleton, co_free0. split.
    + intros [(Hn & ?)| ->]; [split; [by apply Hin|done]|]. split; [done|]. by eauto.
    + intros (Hn & u & E & Ex). destruct (decide (id = p)) as [->|Hne]; [by right|].
      left. split; [by apply Hout|]. by eauto.
  - cbn. apply NoDup_app. split_and!; [done| |apply NoDup_singleton].
    intros id Hid ->%list_elem_of_singleton. apply co_free0 in Hid as [Hn _]. by apply Hin in Hn as [? _].
Qed.

Lemma core_put_exited s p t :
  core [p] s → th s p = Some t → t_state t = Exited → ¬ is_idle s p →
  core [] (set_s_free_slots (s_free_slots s ++ [p]) s).
Proof. intros C. apply core_put_exited_from; [done|notin]. Qed.

(** ** Effective priority and [enqueue] *)

Lemma donated_le proc ds p : donated proc ds p ≤ p.
Proof.
  unfold donated. revert p. induction ds as [|d ds IH]; intros p; cbn [foldl]; [done|].
  etrans; [apply IH|]. case_match; bool_to_prop; lia.
Qed.

Lemma donated_min proc ds p d : d ∈ ds → d_peer_proc d = proc → donated proc ds p ≤ d_prio d.
Proof.
  unfold donated. revert p. induction ds as [|e ds IH]; intros p Hd Hp; cbn [foldl]; [set_solver|].
  apply elem_of_cons in Hd as [<-|Hd]; [|by apply IH].
  etrans; [apply donated_le|]. case_match eqn:E; bool_to_prop; [done|].
  destruct E as [E|E]; bool_to_prop; [done|lia].
Qed.

(** The effective priority is one of the priorities that count. *)
Lemma donated_attained proc ds p :
  donated proc ds p = p ∨ ∃ d, d ∈ ds ∧ d_peer_proc d = proc ∧ donated proc ds p = d_prio d.
Proof.
  unfold donated. revert p. induction ds as [|e ds IH]; intros p; cbn [foldl]; [by left|].
  case_match eqn:E; bool_to_prop.
  - destruct (IH (d_prio e)) as [->|(d & ? & ? & ->)]; right; [exists e|exists d]; set_solver.
  - destruct (IH p) as [->|(d & ? & ? & ->)]; [by left|right; exists d; set_solver].
Qed.

Lemma eff_prio_lt ds t :
  (∀ d, d ∈ ds → d_prio d < PRIO_LEVELS) → t_prio t < PRIO_LEVELS → eff_prio_of ds t < PRIO_LEVELS.
Proof.
  intros Hd Ht. unfold eff_prio_of. destruct (t_proc t) as [p|]; [|done].
  destruct (donated_attained p ds (t_prio t)) as [->|(d & Hin & _ & ->)]; auto.
Qed.

Lemma core_eff P s id t : core P s → th s id = Some t → eff_prio_of (s_donations s) t < PRIO_LEVELS.
Proof.
  intros C Ht. apply eff_prio_lt; [|by apply (co_threads _ _ C id)].
  intros d Hd. by apply (co_don _ _ C).
Qed.

Lemma runs_eff_prio s id t (Q : N → Scheduler → Prop) :
  th s id = Some t → Q (eff_prio_of (s_donations s) t) s → runs (eff_prio id) s Q.
Proof. intros E HQ. apply runs_bind. eapply runs_thread; [done|]. by apply runs_gets. Qed.

(** The state after [enqueue]. *)
Definition enqueued (id : N) (t : Thread) (s : Scheduler) : Scheduler :=
  let l := eff_prio_of (s_donations s) t in
  with_t id (set_t_state Ready t) (with_q (t_hart t) l (rq s (t_hart t) l ++ [id]) s).

Lemma runs_enqueue P s id t (Q : () → Scheduler → Prop) :
  core P s → th s id = Some t → Q tt (enqueued id t s) → runs (enqueue id) s Q.
Proof.
  intros C Ht HQ. pose proof (co_shape _ _ C) as Hs.
  destruct (co_threads _ _ C id t Ht) as (_ & Hh & _).
  pose proof (core_eff _ _ _ _ C Ht) as Hl.
  apply runs_bind. eapply runs_eff_prio; [done|].
  apply runs_bind. eapply runs_thread; [done|].
  apply runs_bind. apply runs_queue; [done..|].
  apply runs_bind. apply runs_set_queue; [done..|].
  eapply runs_upd; [done|]. done.
Qed.

Lemma thread_ok_state t st : thread_ok t → thread_ok (set_t_state st t).
Proof. done. Qed.

Lemma core_enqueued P s p t :
  core (p :: P) s → p ∉ P → th s p = Some t → resumable t = true → core P (enqueued p t s).
Proof.
  intros C HpP Hp Hr. destruct (co_threads _ _ C p t Hp) as (Hpr & Hh & Hf).
  pose proof (core_eff _ _ _ _ C Hp) as Hl. unfold enqueued.
  set (l := eff_prio_of (s_donations s) t) in *. set (q := rq s (t_hart t) l ++ [p]).
  pose proof (co_shape _ _ C) as Hs.
  set (s1 := with_q (t_hart t) l q s).
  assert (Hp1 : th s1 p = Some t) by done.
  pose proof (th_with_t s1 p (set_t_state Ready t) t) as Hw. specialize (λ i, Hw i Hp1).
  assert (Hq : ∀ h' l', rq (with_t p (set_t_state Ready t) s1) h' l' =
      if decide (h' = t_hart t ∧ l' = l) then q else rq s h' l') by (intros; by apply rq_with_q).
  assert (Hnp : ∀ h' l', p ∉ rq s h' l').
  { intros h' l' Hin. destruct (co_queued _ _ C _ _ _ Hin) as [Hn _]. apply Hn, elem_of_cons. by left. }
  assert (Hout : ∀ id, id ≠ p → id ∉ P → id ∉ p :: P) by (intros id ?? [->|?]%elem_of_cons; done).
  destruct C. constructor; try done.
  - by apply shape_with_t, shape_with_q.
  - intros id u. rewrite Hw. case_decide; [|by eauto]. intros [= <-]. exact (co_threads0 p t Hp).
  - intros d Hd. destruct (co_don0 d Hd). cbn. by rewrite vlen_vset.
  - intros h' l' id. rewrite Hq, Hw. intros Hin.
    destruct (decide (id = p)) as [->|Hne].
    + split; [done|]. exists (set_t_state Ready t). case_decide; [|by destruct (Hnp h' l')]. naive_solver.
    + destruct (co_queued0 h' l' id) as (Hn & u & ?);
        [|split; [by intros ?; apply Hn, elem_of_cons; right|by eauto]].
      case_decide as E; [destruct E as [-> ->]|done]. unfold q in Hin. set_solver.
  - intros h' l'. rewrite Hq. case_decide; [|done]. unfold q. apply NoDup_app.
    split_and!; [done| |apply NoDup_singleton]. intros x Hx ->%list_elem_of_singleton. by apply Hnp in Hx.
  - intros h' l1 l2 id. rewrite !Hq. unfold q.
    assert (Hcase : ∀ l', id ∈ (if decide (h' = t_hart t ∧ l' = l) then rq s (t_hart t) l ++ [p] else rq s h' l') →
      (id = p ∧ l' = l) ∨ (id ≠ p ∧ id ∈ rq s h' l')).
    { intros l'. case_decide as E.
      - destruct E as [-> ->]. destruct (decide (id = p)); set_solver.
      - intros Hin. right. split; [|done]. intros ->. by apply Hnp in Hin. }
    intros [[? ->]|[? ?]]%Hcase [[? ->]|[? ?]]%Hcase; [done..|by eauto].
  - intros id u Hni. rewrite Hw. case_decide as E.
    + intros [= <-] _. exists l. split; [done|]. rewrite Hq, decide_True by done. unfold q. set_solver.
    + intros Hu Hst. destruct (co_ready0 id u) as (l' & Hl' & Hin); [by apply Hout|done..|].
      exists l'. split; [done|]. rewrite Hq. case_decide as E2; [|done]. unfold q.
      destruct E2 as [E3 ->]. rewrite <-E3. set_solver.
  - intros id u Hni. rewrite Hw. case_decide as E; [by intros [= <-]|]. apply co_resume0. by apply Hout.
  - intros h' Hh'. destruct (co_idle0 h' Hh') as (id & u & E1 & E2 & E3 & E4 & E5).
    destruct (decide (id = p)) as [->|Hne].
    + exists p, (set_t_state Ready t). rewrite Hw, decide_True by done.
      rewrite Hp in E2. injection E2 as ->. split_and!; try done. by left.
    + exists id, u. rewrite Hw, decide_False by done. split_and!; try done. intros ?. apply E5. by apply Hout.
  - intros id. cbn [s_free_slots with_t set_s_threads with_q set_s_ready s1]. rewrite co_free0, Hw.
    split; intros (Hne & u & E & Ex).
    + apply not_elem_of_cons in Hne as [Hne ?]. split; [done|]. exists u. by rewrite decide_False.
    + case_decide; [by simplify_eq|]. split; [by apply Hout|]. by exists u.
Qed.

(** ** Picking a thread *)

(** No thread of the queue is eligible. *)
Definition none_eligible (s : Scheduler) (nc : bool) (q : list N) : Prop :=
  ∀ id t, id ∈ q → th s id = Some t → eligible nc t = false.

(** The state after [id] was taken out of its queue, at [pre ++ id :: post]. *)
Definition picked (h l id : N) (t : Thread) (q : list N) (s : Scheduler) : Scheduler :=
  with_t id (set_t_state Running t) (with_q h l q s).

(** [id] is the first eligible thread of the best level of hart [h] that has one. *)
Definition first_eligible (h : N) (nc : bool) (s : Scheduler) (id : N) (s' : Scheduler) : Prop :=
  ∃ l t pre post, l < PRIO_LEVELS ∧ rq s h l = pre ++ id :: post ∧ none_eligible s nc pre ∧
    th s id = Some t ∧ eligible nc t = true ∧
    (∀ l', l' < l → none_eligible s nc (rq s h l')) ∧ s' = picked h l id t (post ++ pre) s.

Lemma runs_pick_round P s h l nc a b :
  core P s → h < MAX_HARTS → l < PRIO_LEVELS → (∀ id, id ∈ a → id ∈ rq s h l) →
  runs (pick_round h l nc (length a)) (with_q h l (a ++ b) s) (λ r s',
    match r with
    | Some id => ∃ t pre post, a = pre ++ id :: post ∧ none_eligible s nc pre ∧
        th s id = Some t ∧ eligible nc t = true ∧ s' = picked h l id t (post ++ b ++ pre) s
    | None => none_eligible s nc a ∧ s' = with_q h l (b ++ a) s
    end).
Proof.
  intros C Hh Hl. pose proof (co_shape _ _ C) as Hs.
  assert (Hh' : h < vlen (s_ready s)) by (by rewrite (sh_ready s Hs)).
  revert b. induction a as [|id a IH]; intros b Ha; cbn [length pick_round].
  { apply runs_ret. split; [by intros ? ? ?%elem_of_nil|]. by rewrite app_nil_r. }
  apply runs_bind. apply runs_queue; [by apply shape_with_q|done|done|].
  rewrite rq_with_q, decide_True by done. cbn [app].
  apply runs_bind. apply runs_set_queue; [by apply shape_with_q|done|]. rewrite with_q_with_q by done.
  destruct (co_queued _ _ C h l id) as (_ & t & Ht & Hr & Hht); [set_solver|].
  apply runs_bind. eapply (runs_thread _ _ t); [done|].
  unfold is_state. rewrite bool_decide_eq_true_2 by done. cbn [negb].
  destruct (eligible nc t) eqn:He.
  - apply runs_bind. eapply (runs_upd _ _ t); [done|]. apply runs_ret.
    exists t, [], a. split_and!; [done|by intros ? ? ?%elem_of_nil|done|done|]. by rewrite app_nil_r.
  - apply runs_bind. apply runs_set_queue; [by apply shape_with_q|done|]. rewrite with_q_with_q by done.
    rewrite <-app_assoc. eapply runs_mono; [apply IH; set_solver|]. intros [id'|] s'.
    + intros (t' & pre & post & -> & Hpre & Ht' & He' & ->).
      exists t', (id :: pre), post. split_and!; [done| |done|done|by rewrite <-app_assoc].
      intros x u [->|Hx]%elem_of_cons Hu; [congruence|by apply (Hpre x)].
    + intros [Hne ->]. rewrite <-app_assoc. split; [|done].
      intros x u [->|Hx]%elem_of_cons Hu; [congruence|by apply (Hne x)].
Qed.

Lemma runs_pick_levels P s h nc n a :
  core P s → h < MAX_HARTS → a + N.of_nat n = PRIO_LEVELS →
  (∀ l', l' < a → none_eligible s nc (rq s h l')) →
  runs (pick_levels h nc (nrange a n)) s (λ r s',
    match r with
    | Some id => first_eligible h nc s id s'
    | None => s' = s ∧ ∀ l, l < PRIO_LEVELS → none_eligible s nc (rq s h l)
    end).
Proof.
  intros C Hh. pose proof (co_shape _ _ C) as Hs. revert a. induction n as [|n IH];
    intros a Ha Hlow; cbn [nrange pick_levels].
  { apply runs_ret. split; [done|]. intros l Hl. apply Hlow. lia. }
  assert (Hl : a < PRIO_LEVELS) by lia.
  apply runs_bind. apply runs_queue; [done..|]. apply runs_bind.
  pose proof (runs_pick_round P s h a nc (rq s h a) [] C Hh Hl (λ _ H, H)) as R.
  rewrite app_nil_r, with_q_id in R by done. eapply runs_mono; [exact R|].
  intros [id|] s'.
  - intros (t & pre & post & Eq & Hpre & Ht & He & ->). apply runs_ret.
    exists a, t, pre, post. by split_and!.
  - intros [Hne ->]. cbn [app]. rewrite with_q_id by done. apply IH; [lia|].
    intros l' Hl'. destruct (decide (l' = a)) as [->|]; [done|]. apply Hlow. lia.
Qed.

(** The fallback of [pick_next] when no thread of the hart is eligible. *)
Definition fallback (s : Scheduler) (h : N) : option N :=
  cur ← vget (s_current s) h; t ← th s cur;
  if is_state Running t then Some cur else vget (s_idle s) h.

Lemma runs_pick_next P s h nc b :
  core P s → h < MAX_HARTS → fallback s h = Some b →
  runs (pick_next h nc) s (λ id s',
    first_eligible h nc s id s' ∨
    id = b ∧ s' = s ∧ ∀ l, l < PRIO_LEVELS → none_eligible s nc (rq s h l)).
Proof.
  intros C Hh Hb. unfold pick_next. apply runs_bind.
  eapply runs_mono; [apply (runs_pick_levels P s h nc _ 0 C Hh); [done|lia]|].
  intros [id|] s'; cbv beta iota.
  - intros F. apply runs_ret. by left.
  - intros [-> Hn]. unfold fallback in Hb.
    destruct (vget (s_current s) h) as [cur|] eqn:Ec; [|done]. cbn [mbind option_bind] in Hb.
    destruct (th s cur) as [t|] eqn:Et; [|done]. cbn [mbind option_bind] in Hb.
    apply runs_bind. unfold current_of. apply runs_bind, runs_get. eapply runs_expect; [done|].
    apply runs_bind. eapply runs_thread; [done|].
    assert (E : is_state Exited t || negb (is_state Running t) = negb (is_state Running t)).
    { unfold is_state. destruct (t_state t); done. }
    rewrite E. destruct (is_state Running t); cbn [negb].
    + apply runs_ret. right. by simplify_eq.
    + unfold idle_of. apply runs_bind, runs_get. eapply runs_expect; [done|]. by right.
Qed.

(** Taking a thread out of its queue leaves the invariant with that thread out. *)
Lemma core_picked s h nc id s' :
  core [] s → h < MAX_HARTS → first_eligible h nc s id s' →
  core [] s' ∧ s_current s' = s_current s ∧ ∃ t, th s id = Some t ∧ t_state t = Ready ∧ t_hart t = h ∧
    eligible nc t = true ∧ ∀ i, th s' i = if decide (i = id) then Some (set_t_state Running t) else th s i.
Proof.
  intros C Hh (l & t & pre & post & Hl & Eq & _ & Ht & He & _ & ->).
  pose proof (co_shape _ _ C) as Hs.
  destruct (co_queued _ _ C h l id) as (_ & t' & Ht' & Hr & Hht); [rewrite Eq; set_solver|].
  rewrite Ht in Ht'. injection Ht' as <-.
  assert (Hw : ∀ i, th (picked h l id t (post ++ pre) s) i =
    if decide (i = id) then Some (set_t_state Running t) else th s i) by (intros i; exact (th_with_t (with_q h l (post ++ pre) s) id _ t i Ht)).
  split; [|by eauto 10]. pose proof (co_nodup _ _ C h l) as Hnd. rewrite Eq in Hnd.
  assert (Hnd' : NoDup (id :: post ++ pre)).
  { by rewrite (Permutation_app_comm post pre), Permutation_middle. }
  assert (Hq : ∀ h' l', rq (picked h l id t (post ++ pre) s) h' l' =
      if decide (h' = h ∧ l' = l) then post ++ pre else rq s h' l') by (intros; by apply rq_with_q).
  assert (Hin : ∀ h' l' i, i ∈ rq (picked h l id t (post ++ pre) s) h' l' ↔ i ∈ rq s h' l' ∧ i ≠ id).
  { intros h' l' i. rewrite Hq. apply NoDup_cons in Hnd' as [Hni Hnd']. case_decide as E.
    - destruct E as [-> ->]. rewrite Eq. set_solver.
    - split; [|naive_solver]. intros Hi. split; [done|]. intros ->. apply E.
      destruct (co_queued _ _ C _ _ _ Hi) as (_ & u & Hu & _ & Hh'). rewrite Ht in Hu.
      injection Hu as <-. subst h'. split; [done|].
      rewrite Hht in Hi. apply (co_level _ _ C h l' l id); [done|]. rewrite Eq. set_solver. }
  destruct C. constructor; try done.
  - by apply shape_with_t, shape_with_q.
  - intros i u. rewrite Hw. case_decide; [|by eauto]. intros [= <-]. exact (co_threads0 id t Ht).
  - intros d Hd. destruct (co_don0 d Hd). cbn. by rewrite vlen_vset.
  - intros h' l' i [Hi Hne]%Hin. split; [notin|]. rewrite Hw, decide_False by done.
    by destruct (co_queued0 _ _ _ Hi).
  - intros h' l'. rewrite Hq. case_decide; [|done]. by apply NoDup_cons in Hnd' as [_ ?].
  - intros h' l1 l2 i [H1 _]%Hin [H2 _]%Hin. by eauto.
  - intros i u _. rewrite Hw. case_decide; [by intros [= <-]|]. intros Hu Hst.
    destruct (co_ready0 i u) as (l' & Hl' & Hi); [notin|done..|]. exists l'. split; [done|]. by apply Hin.
  - intros i u _. rewrite Hw. case_decide; [|apply co_resume0; notin].
    intros [= <-]. cbn. intros [?|?]; done.
  - intros h' Hh'. destruct (co_idle0 h' Hh') as (i & u & E1 & E2 & E3 & E4 & E5).
    destruct (decide (i = id)) as [->|Hne].
    + exists id, (set_t_state Running t). rewrite Hw, decide_True by done.
      rewrite Ht in E2. injection E2 as <-. split_and!; try done. by right.
    + exists i, u. rewrite Hw, decide_False by done. done.
  - intros i. cbn [s_free_slots picked with_t set_s_threads with_q set_s_ready]. rewrite co_free0, Hw.
    split; intros (_ & u & E & Ex); (split; [notin|]).
    + exists u. rewrite decide_False; [done|]. intros ->. congruence.
    + revert E. case_decide; [by intros [= <-]|]. by eauto.
Qed.

(** ** Taking threads off the queues and putting them back *)

(** Only the queues differ. *)
Definition same_but_ready (s s' : Scheduler) : Prop := s' = set_s_ready (s_ready s') s.

#[global] Instance same_but_ready_preorder : PreOrder same_but_ready.
Proof.
  unfold same_but_ready. split; [by intros []|]. intros s1 s2 s3 E2 E3. by rewrite E3, E2.
Qed.

Lemma NoDup_concat {A} (ll : list (list A)) :
  (∀ i q, ll !! i = Some q → NoDup q) →
  (∀ i j q q' x, ll !! i = Some q → ll !! j = Some q' → x ∈ q → x ∈ q' → i = j) →
  NoDup (concat ll).
Proof.
  induction ll as [|q ll IH]; intros Hn Hd; cbn [concat]; [constructor|].
  apply NoDup_app. split_and!.
  - by apply (Hn 0%nat).
  - intros x Hx Hc. apply list_elem_of_In, in_concat in Hc as (q' & Hq' & Hx').
    apply list_elem_of_In, list_elem_of_lookup in Hq' as [j Hj]. apply list_elem_of_In in Hx'.
    by specialize (Hd 0%nat (S j) q q' x eq_refl Hj Hx Hx').
  - apply IH.
    + intros i q' Hi. by apply (Hn (S i)).
    + intros i j q1 q2 x Hi Hj Hx Hy. specialize (Hd (S i) (S j) q1 q2 x Hi Hj Hx Hy). by injection Hd.
Qed.

Lemma NoDup_ready P s : core P s → NoDup (concat (concat (s_ready s))).
Proof.
  intros C. assert (Hrq : ∀ i j row q, s_ready s !! i = Some row → row !! j = Some q →
    rq s (N.of_nat i) (N.of_nat j) = q).
  { intros i j row q Hi Hj. unfold rq. rewrite vget_lookup, Nat2N.id, Hi. cbn [mbind option_bind].
    by rewrite vget_lookup, Nat2N.id, Hj. }
  assert (Hin : ∀ i row x, s_ready s !! i = Some row → x ∈ concat row →
    ∃ j, x ∈ rq s (N.of_nat i) (N.of_nat j)).
  { intros i row x Hi Hx. apply list_elem_of_In, in_concat in Hx as (q & Hq & Hx).
    apply list_elem_of_In, list_elem_of_lookup in Hq as [j Hj]. exists j.
    rewrite (Hrq i j row q) by done. by apply list_elem_of_In. }
  assert (Hrows : ∀ i row, s_ready s !! i = Some row → NoDup (concat row)).
  { intros i row Hi. apply NoDup_concat.
    - intros j q Hj. rewrite <-(Hrq i j row q) by done. apply (co_nodup _ _ C).
    - intros j1 j2 q1 q2 x H1 H2 Hx1 Hx2. apply Nat2N.inj.
      eapply (co_level _ _ C); erewrite Hrq by done; done. }
  assert (E : concat (concat (s_ready s)) = concat (map (@concat N) (s_ready s))).
  { clear. induction (s_ready s) as [|row rs IH]; [done|]. cbn [concat map]. by rewrite concat_app, IH. }
  rewrite E. apply NoDup_concat.
  - intros i q Hi. rewrite list_lookup_fmap in Hi. destruct (s_ready s !! i) eqn:Ei; [|done].
    injection Hi as <-. by eapply Hrows.
  - intros i j q q' x Hi Hj Hx Hy. rewrite list_lookup_fmap in Hi, Hj.
    destruct (s_ready s !! i) eqn:Ei; [|done]. destruct (s_ready s !! j) eqn:Ej; [|done].
    injection Hi as <-. injection Hj as <-.
    destruct (Hin _ _ _ Ei Hx) as [j1 H1]. destruct (Hin _ _ _ Ej Hy) as [j2 H2].
    destruct (co_queued _ _ C _ _ _ H1) as (_ & t1 & T1 & _ & E1).
    destruct (co_queued _ _ C _ _ _ H2) as (_ & t2 & T2 & _ & E2). apply Nat2N.inj. congruence.
Qed.

Definition keep_queued (f : N → bool) (s : Scheduler) : Scheduler :=
  set_s_ready (map (map (filter (λ id, negb (f id)))) (s_ready s)) s.

Lemma vget_map {A B} (f : A → B) (l : list A) i : vget (map f l) i = f <$> vget l i.
Proof. rewrite !vget_lookup. apply list_lookup_fmap. Qed.

Lemma rq_keep f s h l : rq (keep_queued f s) h l = filter (λ id, negb (f id)) (rq s h l).
Proof.
  unfold rq, keep_queued. cbn [s_ready set_s_ready]. rewrite vget_map.
  destruct (vget (s_ready s) h) as [row|]; [|done]. cbn [fmap option_fmap option_map mbind option_bind].
  rewrite vget_map. by destruct (vget row l).
Qed.

Lemma shape_keep f s : shape s → shape (keep_queued f s).
Proof.
  intros Hs. destruct Hs. constructor; cbn; try done.
  - unfold vlen in *. by rewrite length_map.
  - intros h row. rewrite vget_map. destruct (vget (s_ready s) h) eqn:E; [|done].
    intros [= <-]. unfold vlen. rewrite length_map. by apply (sh_rows0 h).
Qed.

(** The queued threads a predicate selects can be taken off. *)
Lemma core_keep (f : N → bool) s :
  core [] s → core (filter f (concat (concat (s_ready s)))) (keep_queued f s).
Proof.
  intros C. pose proof (co_shape _ _ C) as Hs.
  assert (Hin : ∀ h l id, id ∈ rq (keep_queued f s) h l ↔ id ∈ rq s h l ∧ f id = false).
  { intros. rewrite rq_keep, list_elem_of_filter. destruct (f id); cbn; naive_solver. }
  assert (Hout : ∀ id, id ∈ filter f (concat (concat (s_ready s))) ↔
    f id = true ∧ ∃ h l, h < MAX_HARTS ∧ l < PRIO_LEVELS ∧ id ∈ rq s h l).
  { intros id. rewrite list_elem_of_filter, elem_of_ready by done. destruct (f id); cbn; naive_solver. }
  assert (Hrd : ∀ id t, th s id = Some t → id ∈ filter f (concat (concat (s_ready s))) → t_state t = Ready).
  { intros id t Ht (_ & h & l & _ & _ & Hq)%Hout.
    destruct (co_queued _ _ C _ _ _ Hq) as (_ & u & Hu & ? & _). congruence. }
  set (P := filter f (concat (concat (s_ready s)))) in *. clearbody P.
  destruct C. constructor; try done.
  - by apply shape_keep.
  - intros h l id [Hi Hf]%Hin. split.
    + intros [? _]%Hout. congruence.
    + by destruct (co_queued0 _ _ _ Hi).
  - intros h l. rewrite rq_keep. by apply NoDup_filter.
  - intros h l l' id [H1 _]%Hin [H2 _]%Hin. by eauto.
  - intros id t Hni Ht Hst. destruct (co_ready0 id t) as (l & Hl & Hi); [notin|done..|].
    exists l. split; [done|]. apply Hin. split; [done|]. destruct (f id) eqn:E; [|done].
    destruct Hni. apply Hout. split; [done|]. exists (t_hart t), l.
    split_and!; [by apply (co_threads0 id)|done|done].
  - intros id t Hni. apply co_resume0. notin.
  - intros h Hh. destruct (co_idle0 h Hh) as (id & u & E1 & E2 & E3 & E4 & E5).
    exists id, u. split_and!; try done. intros _. apply E5. notin.
  - intros id. cbn [s_free_slots keep_queued set_s_ready s_threads]. rewrite co_free0.
    split; intros (Hne & u & E & Ex); (split; [|by eauto]); [|notin].
    intros Hin'. specialize (Hrd id u E Hin'). congruence.
Qed.

Lemma set_ready_id t : t_state t = Ready → set_t_state Ready t = t.
Proof. destruct t; cbn. by intros ->. Qed.

Lemma enqueued_same id t s : th s id = Some t → t_state t = Ready → same_but_ready s (enqueued id t s).
Proof.
  intros Ht Hr. unfold same_but_ready, enqueued. rewrite (set_ready_id t Hr).
  unfold with_t. cbn [s_threads with_q set_s_ready]. rewrite (vset_id _ _ _ Ht). by destruct s.
Qed.

Lemma rq_enqueued P s id t h l i : core P s → th s id = Some t →
  i ∈ rq (enqueued id t s) h l ↔
    i ∈ rq s h l ∨ (i = id ∧ h = t_hart t ∧ l = eff_prio_of (s_donations s) t).
Proof.
  intros C Ht. destruct (co_threads _ _ C id t Ht) as (_ & Hh & _).
  pose proof (core_eff _ _ _ _ C Ht) as Hl. pose proof (co_shape _ _ C) as Hs.
  change (rq (enqueued id t s) h l) with (rq (with_q (t_hart t) (eff_prio_of (s_donations s) t)
    (rq s (t_hart t) (eff_prio_of (s_donations s) t) ++ [id]) s) h l).
  rewrite rq_with_q by done. case_decide as E.
  - destruct E as [-> ->]. set_solver.
  - naive_solver.
Qed.

Lemma runs_enqueue_all buf s :
  core buf s → NoDup buf →
  (∀ id, id ∈ buf → ∃ t, th s id = Some t ∧ t_state t = Ready ∧ resumable t = true) →
  runs (for_each enqueue buf) s (λ _ s', core [] s' ∧ same_but_ready s s' ∧
    ∀ h l id, id ∈ rq s' h l ↔ id ∈ rq s h l ∨ (id ∈ buf ∧ ∃ t, th s id = Some t ∧
      h = t_hart t ∧ l = eff_prio_of (s_donations s) t)).
Proof.
  revert s. induction buf as [|p buf IH]; intros s C Hnd Hb; cbn [for_each].
  { apply runs_ret. split_and!; [done|done|]. intros. rewrite elem_of_nil. naive_solver. }
  apply NoDup_cons in Hnd as [Hp Hnd]. destruct (Hb p) as (t & Ht & Hr & Hv); [by apply elem_of_cons; left|].
  apply runs_bind. eapply runs_enqueue; [done..|].
  pose proof (enqueued_same p t s Ht Hr) as Hsame.
  assert (Et : s_threads (enqueued p t s) = s_threads s) by (by rewrite Hsame).
  assert (Ed : s_donations (enqueued p t s) = s_donations s) by done.
  eapply runs_mono; [apply IH; [by apply core_enqueued|done|]|].
  - intros id Hid. rewrite Et. apply Hb, elem_of_cons. by right.
  - intros _ s' (C' & Hs' & Hq'). split_and!; [done|by etrans|].
    intros h l id. rewrite Hq', (rq_enqueued _ _ _ _ _ _ _ C Ht), Et, Ed, elem_of_cons.
    split.
    + intros [[?|(-> & -> & ->)]|(? & ?)]; [by left|right..]; (split; [by auto|]); [by exists t|done].
    + intros [?|([->|?] & u & Hu & -> & ->)]; [by left; left| |by right; eauto].
      left; right. rewrite Ht in Hu. by injection Hu as <-.
Qed.

Lemma length_ready P s : core P s → (length (concat (concat (s_ready s))) ≤ N.to_nat MAX_THREADS)%nat.
Proof.
  intros C. pose proof (NoDup_ready _ _ C) as Hnd. pose proof (co_shape _ _ C) as Hs.
  assert (Hsub : concat (concat (s_ready s)) ⊆ nrange 0 (length (s_threads s))).
  { intros id. rewrite elem_of_ready by done. intros (h & l & _ & _ & Hid).
    destruct (co_queued _ _ C _ _ _ Hid) as (_ & t & Ht & _). apply vget_Some_lt in Ht.
    apply elem_of_nrange. unfold vlen in Ht. lia. }
  pose proof (NoDup_submseteq _ _ Hnd Hsub) as Hsm. apply submseteq_length in Hsm.
  rewrite length_nrange in Hsm. pose proof (sh_threads s Hs). unfold vlen in *. lia.
Qed.

Lemma of_proc_true ts proc id : of_proc ts proc id = true ↔ ∃ t, vget ts id = Some t ∧ t_proc t = Some proc.
Proof.
  unfold of_proc. destruct (vget ts id) as [t|]; [|naive_solver]. rewrite bool_decide_eq_true. naive_solver.
Qed.

(** [requeue_proc_threads] moves the ready threads of the process to the queues of
    their effective priorities and leaves everything else in place. *)
Lemma runs_requeue proc s :
  core [] s →
  runs (requeue_proc_threads proc) s (λ _ s', core [] s' ∧ same_but_ready s s' ∧
    (∀ id t, th s id = Some t → t_state t = Ready → t_proc t = Some proc →
       id ∈ rq s' (t_hart t) (eff_prio_of (s_donations s) t)) ∧
    (∀ id t h l, th s id = Some t → t_proc t ≠ Some proc → id ∈ rq s' h l ↔ id ∈ rq s h l)).
Proof.
  intros C. pose proof (co_shape _ _ C) as Hs. unfold requeue_proc_threads.
  apply runs_bind, runs_get. apply runs_bind, runs_assert.
  { apply forallb_forall. intros id Hid. apply list_elem_of_In in Hid.
    apply elem_of_ready in Hid as (h & l & _ & _ & Hid); [|done].
    destruct (co_queued _ _ C _ _ _ Hid) as (_ & t & Ht & _). apply vget_Some_lt in Ht. by apply N.ltb_lt. }
  cbv zeta. set (mine := of_proc (s_threads s) proc).
  rewrite take_ge by (etrans; [apply length_filter|by eapply length_ready]).
  apply runs_bind, runs_modify.
  set (buf := filter mine (concat (concat (s_ready s)))).
  assert (Hbuf : ∀ id, id ∈ buf ↔ mine id = true ∧ ∃ t, th s id = Some t ∧ t_state t = Ready).
  { intros id. unfold buf. rewrite list_elem_of_filter, elem_of_ready by done.
    assert (Is_true (mine id) ↔ mine id = true) as -> by (by destruct (mine id)). split.
    - intros (? & h & l & _ & _ & Hq). split; [done|].
      destruct (co_queued _ _ C _ _ _ Hq) as (_ & t & Ht & ? & _). by eauto.
    - intros (? & t & Ht & Hr). split; [done|].
      destruct (co_ready _ _ C id t) as (l & Hl & Hq); [notin|done..|].
      exists (t_hart t), l. split_and!; [by apply (co_threads _ _ C id)|done|done]. }
  eapply runs_mono.
  - apply (runs_enqueue_all buf (keep_queued mine s)); [by apply core_keep|by eapply NoDup_filter, NoDup_ready|].
    intros id (_ & t & Ht & Hr)%Hbuf. exists t. split_and!; [done..|].
    apply (co_resume _ _ C id); [notin|done|by left].
  - intros _ s' (C' & Hsame & Hq). split_and!; [done|by etrans; [|exact Hsame]| |].
    + intros id t Ht Hr Hp. apply Hq. right. split; [|by exists t].
      apply Hbuf. split; [|by eauto]. apply of_proc_true. by eauto.
    + intros id t h l Ht Hp.
      assert (Hm : mine id = false).
      { apply not_true_iff_false. intros (u & Hu & ?)%of_proc_true. congruence. }
      rewrite Hq, rq_keep, list_elem_of_filter, Hbuf, Hm. cbn. naive_solver.
Qed.
