(* ===== verification/SchedOps.v ===== *)
(** * The scheduler operations keep the invariant

    Every operation of Sched.v, run from a state of the invariant under its calling
    convention, returns and re-establishes it. *)

From Stdlib Require Import ZifyN ZifyNat.
From stdpp Require Import base gmap numbers functions list.
From S2P Require Import Prelude Sched SchedInv.

Create HintDb sched.

(** ** Donations *)

(** Only the queues and the donation table differ. *)
Definition same_outer (s s' : Scheduler) : Prop :=
  s' = set_s_ready (s_ready s') (set_s_donations (s_donations s') s).

#[global] Instance same_outer_preorder : PreOrder same_outer.
Proof. unfold same_outer. split; [by intros []|]. intros s1 s2 s3 E2 E3. by rewrite E3, E2. Qed.

Lemma same_ready_outer s s' : same_but_ready s s' → same_outer s s'.
Proof. unfold same_but_ready, same_outer. intros E. rewrite E. by destruct s. Qed.

Lemma same_outer_threads s s' : same_outer s s' → s_threads s' = s_threads s.
Proof. by intros ->. Qed.
Lemma same_outer_current s s' : same_outer s s' → s_current s' = s_current s.
Proof. by intros ->. Qed.
Lemma same_outer_idle s s' : same_outer s s' → s_idle s' = s_idle s.
Proof. by intros ->. Qed.

Lemma core_donations P s ds :
  core P s → (∀ d, d ∈ ds → d_prio d < PRIO_LEVELS ∧ d_donor_tid d < vlen (s_threads s)) →
  core P (set_s_donations ds s).
Proof.
  intros C Hd. pose proof (co_shape _ _ C) as Hs. destruct C. constructor; try done. by destruct Hs.
Qed.

Lemma core_filter_donations P s (f : Donation → bool) :
  core P s → core P (set_s_donations (filter f (s_donations s)) s).
Proof.
  intros C. apply core_donations; [done|]. intros d [_ Hd]%list_elem_of_filter. by apply (co_don _ _ C).
Qed.

(** A sequence of re-queueings. *)
Lemma runs_requeues {A} (f : A → MS ()) l s :
  core [] s →
  (∀ x s, x ∈ l → core [] s → runs (f x) s (λ _ s', core [] s' ∧ same_but_ready s s')) →
  runs (for_each f l) s (λ _ s', core [] s' ∧ same_but_ready s s').
Proof.
  intros C Hf. eapply (runs_for_each (λ s', core [] s' ∧ same_but_ready s s')); [|by split|done].
  intros x s1 Hx [C1 H1]. eapply runs_mono; [by apply Hf|].
  intros _ s2 [C2 H2]. split; [done|by etrans].
Qed.

Lemma runs_requeue_same proc s :
  core [] s → runs (requeue_proc_threads proc) s (λ _ s', core [] s' ∧ same_but_ready s s').
Proof. intros C. eapply runs_mono; [by apply runs_requeue|]. by intros _ s' (? & ? & _). Qed.

Lemma revoke_donations_inv donor s :
  core [] s → runs (revoke_donations donor) s (λ _ s', core [] s' ∧ same_outer s s').
Proof.
  intros C. apply runs_bind, runs_get. cbv zeta. apply runs_bind, runs_modify.
  eapply runs_mono; [apply runs_requeues; [by apply core_filter_donations|]|].
  - intros proc s1 _ C1. by apply runs_requeue_same.
  - intros _ s' [C' H']. split; [done|]. etrans; [|by apply same_ready_outer]. by destruct s.
Qed.

Lemma revoke_donations_of_inv tids skip s :
  core [] s → runs (revoke_donations_of tids skip) s (λ _ s', core [] s' ∧ same_outer s s').
Proof.
  intros C. apply runs_bind, runs_get. cbv zeta. apply runs_bind, runs_modify.
  eapply runs_mono; [apply runs_requeues; [by apply (core_filter_donations _ _ _ C)|]|].
  - intros proc s1 _ C1. case_match; [by apply runs_ret|]. by apply runs_requeue_same.
  - intros _ s' [C' H']. split; [done|]. etrans; [|by apply same_ready_outer]. by destruct s.
Qed.

Lemma note_sub l xs x : x ∈ foldl note l xs → x ∈ l ∨ x ∈ xs.
Proof.
  revert l. induction xs as [|y xs IH]; intros l; cbn [foldl]; [by left|].
  intros [H|H]%IH; [|set_solver]. unfold note in H. case_match; set_solver.
Qed.

Lemma revoke_donations_for_proc_inv proc s :
  core [] s → runs (revoke_donations_for_proc proc) s (λ _ s', core [] s' ∧ same_outer s s').
Proof.
  intros C. apply runs_bind, runs_get. cbv zeta. apply runs_bind, runs_modify.
  set (s1 := set_s_donations _ s).
  assert (C1 : core [] s1) by (by apply core_filter_donations).
  eapply runs_mono.
  - apply (runs_for_each (λ s', core [] s' ∧ same_but_ready s1 s')) with (Q := λ _ s', core [] s' ∧ same_but_ready s1 s');
      [|by split|done].
    intros tid s2 Htid [C2 H2]. apply note_sub in Htid as [?%elem_of_nil|Htid]; [done|].
    apply list_elem_of_fmap in Htid as (d & -> & [_ Hd]%list_elem_of_filter).
    destruct (co_don _ _ C d Hd) as [_ Hlt]. destruct (vget_lt_Some _ _ Hlt) as [t Ht].
    apply runs_bind. eapply (runs_thread _ _ t); [by rewrite H2|].
    destruct (t_proc t) as [p|]; [|by apply runs_ret]. case_match; [by apply runs_ret|].
    eapply runs_mono; [by apply runs_requeue_same|]. intros _ s3 [C3 H3]. split; [done|by etrans].
  - intros _ s' [C' H']. split; [done|]. etrans; [|by apply same_ready_outer]. by destruct s.
Qed.

Lemma elem_of_replace d ds ds' e :
  replace_donation d ds = Some ds' → e ∈ ds' → e = d ∨ e ∈ ds.
Proof.
  revert ds'. induction ds as [|x ds IH]; intros ds'; cbn [replace_donation]; [done|].
  destruct (_ =? _); [intros [= <-]; set_solver|].
  destruct (replace_donation d ds) as [ds1|]; [|done]. intros [= <-].
  intros [->|He]%elem_of_cons; [set_solver|]. destruct (IH ds1 eq_refl He); set_solver.
Qed.

(** The donation table after [register_donation]. *)
Definition registered (d : Donation) (ds : list Donation) : list Donation :=
  match replace_donation d ds with
  | Some ds => ds
  | None => if vlen ds <? MAX_DONATIONS then ds ++ [d] else ds
  end.

Lemma elem_of_registered d ds e : e ∈ registered d ds → e = d ∨ e ∈ ds.
Proof.
  unfold registered. destruct (replace_donation d ds) eqn:E; [by apply elem_of_replace|].
  case_match; set_solver.
Qed.

Lemma runs_register donor peer s t :
  core [] s → th s donor = Some t →
  let d := mkDonation donor peer (eff_prio_of (s_donations s) t) in
  let s1 := set_s_donations (registered d (s_donations s)) s in
  core [] s1 ∧ runs (register_donation donor peer) s (λ _ s', runs (requeue_proc_threads peer) s1 (λ _ s2, s2 = s')).
Proof.
  intros C Ht d s1. assert (C1 : core [] s1).
  { apply core_donations; [done|]. intros e [->|He]%elem_of_registered; [|by apply (co_don _ _ C)].
    cbn. split; [by eapply core_eff|by eapply vget_Some_lt]. }
  split; [done|]. unfold register_donation. apply runs_bind. eapply runs_eff_prio; [done|].
  cbv zeta. apply runs_bind, runs_modify. fold s1.
  destruct (runs_requeue peer s1 C1) as ([] & s2 & E & _). exists tt, s2. split; [exact E|].
  exists tt, s2. done.
Qed.

Lemma register_donation_inv donor peer s :
  core [] s → donor < vlen (s_threads s) →
  runs (register_donation donor peer) s (λ _ s', core [] s' ∧ same_outer s s').
Proof.
  intros C Hd. destruct (vget_lt_Some _ _ Hd) as [t Ht].
  destruct (runs_register donor peer s t C Ht) as [C1 R].
  eapply runs_mono; [exact R|]. intros _ s' ([] & s2 & E & ->).
  destruct (runs_requeue_same peer _ C1) as ([] & s3 & E3 & C3 & H3).
  rewrite E in E3. injection E3 as <-. split; [done|].
  etrans; [|by apply same_ready_outer]. by destruct s.
Qed.

(** ** Moves of one thread *)

(** A change that keeps what the invariant reads of a thread. *)
Definition soft (t t' : Thread) : Prop :=
  t_state t' = t_state t ∧ t_hart t' = t_hart t ∧ t_proc t' = t_proc t ∧
  (thread_ok t → thread_ok t') ∧ (resumable t = true → resumable t' = true).

Lemma core_change P s id t t' :
  th s id = Some t → t_state t' = t_state t → t_hart t' = t_hart t →
  (is_idle s id → t_proc t' = t_proc t) → (thread_ok t → thread_ok t') →
  (resumable t = true → resumable t' = true) → core P s → core P (with_t id t' s).
Proof.
  intros Ht Est Eh Ep Hok Hr C. pose proof (th_with_t s id t' t) as Hw.
  pose proof (co_shape _ _ C) as Hs. destruct C. constructor; try done.
  - by apply shape_with_t.
  - intros i u. rewrite Hw by done. case_decide; [|by eauto]. intros [= <-]. by apply Hok, (co_threads id).
  - intros d Hd. destruct (co_don d Hd). cbn. by rewrite vlen_vset.
  - intros h l i Hi. destruct (co_queued h l i Hi) as (Hne & u & E & H1 & H2). split; [done|].
    rewrite Hw by done. case_decide; [subst; exists t'|by exists u]. naive_solver congruence.
  - intros i u Hne. rewrite Hw by done. case_decide; [subst|by apply co_ready]. intros [= <-] Hst.
    rewrite Eh. apply co_ready; [done..|congruence].
  - intros i u Hne. rewrite Hw by done. case_decide; [subst|by apply co_resume]. intros [= <-] Hst.
    apply Hr, (co_resume id); [done..|]. by rewrite <-Est.
  - intros h Hh. destruct (co_idle h Hh) as (i & u & E1 & E2 & E3 & E4 & E5).
    destruct (decide (i = id)) as [->|Hne].
    + exists id, t'. rewrite Hw, decide_True by done. rewrite Ht in E2. injection E2 as <-.
      rewrite Est, Eh, Ep by (by exists h). done.
    + exists i, u. rewrite Hw, decide_False by done. done.
  - intros i. cbn [s_free_slots with_t set_s_threads]. rewrite co_free, Hw by done.
    split; intros (Hne & u & E & Ex); (split; [done|]); revert E.
    + intros E. case_decide; [exists t'; subst|by exists u]. split; [done|]. congruence.
    + case_decide; [|by eauto]. intros [= <-]. exists t. subst. split; [done|]. congruence.
Qed.

Lemma core_soft P s id t t' :
  th s id = Some t → soft t t' → core P s → core P (with_t id t' s).
Proof. intros Ht (Est & Eh & Ep & Hok & Hr). by apply (core_change P s id t t'). Qed.

Lemma running_on_ext s s' h :
  s_current s' = s_current s →
  (∀ id t, th s id = Some t → t_state t = Running → vget (s_current s) h = Some id →
     ∃ t', th s' id = Some t' ∧ t_state t' = Running ∧ t_hart t' = t_hart t) →
  running_on s h → running_on s' h.
Proof.
  intros Ec Ht (id & t & H1 & H2 & H3 & H4). destruct (Ht id t) as (t' & ? & ? & ?); [done..|].
  exists id, t'. rewrite Ec. split_and!; [done..|congruence].
Qed.

(** A change of other fields or of the queues. *)
Lemma inv_outer s s' :
  sched_inv s → core [] s' → s_threads s' = s_threads s → s_current s' = s_current s →
  s_idle s' = s_idle s → sched_inv s'.
Proof.
  intros [C Hc Hr] C' Et Ec Ei. constructor; [done|..].
  - intros h Hh. apply (running_on_ext s); [done| |by apply Hc]. rewrite Et. eauto.
  - rewrite Et, Ec, Ei. done.
Qed.

(** A change of a thread that keeps its state and its hart. *)
Lemma inv_change s id t t' :
  th s id = Some t → t_state t' = t_state t → t_hart t' = t_hart t →
  core [] (with_t id t' s) → sched_inv s → sched_inv (with_t id t' s).
Proof.
  intros Ht Est Eh C' [C Hc Hr]. pose proof (th_with_t s id t' t) as Hw. constructor; [done|..].
  - intros h Hh. apply (running_on_ext s); [done| |by apply Hc]. intros i u Hu Hst _. rewrite Hw by done.
    case_decide; [|by eauto]. subst. exists t'. rewrite Est, Eh. naive_solver congruence.
  - intros i u. rewrite Hw by done. case_decide; [|by apply Hr]. intros [= <-]. subst. rewrite Est, Eh. by apply Hr.
Qed.

Lemma inv_soft s id t t' : th s id = Some t → soft t t' → sched_inv s → sched_inv (with_t id t' s).
Proof.
  intros Ht Hsoft I. pose proof Hsoft as (Est & Eh & _).
  by eapply inv_change; [| | |eapply core_soft; [| |apply (in_core _ I)]|].
Qed.

(** The current thread of a hart. *)
Lemma inv_cur s h : sched_inv s → h < MAX_HARTS →
  ∃ cur t, vget (s_current s) h = Some cur ∧ th s cur = Some t ∧ t_state t = Running ∧ t_hart t = h.
Proof. intros I Hh. exact (in_current s I h Hh). Qed.

(** The current thread stops running, or is the idle thread: the hart is vacant. *)
Lemma vacate s s' h cur :
  sched_inv s → vget (s_current s) h = Some cur → core [] s' →
  s_current s' = s_current s → s_idle s' = s_idle s →
  (∀ id, id ≠ cur → th s' id = th s id) →
  (∀ t, th s' cur = Some t → t_state t ≠ Running) → vacant h s'.
Proof.
  intros [C Hc Hr] Hcur C' Ec Ei Ho Hst. constructor; [done|..].
  - intros h' Hh' Hne. apply (running_on_ext s); [done| |by apply Hc]. intros id t Ht Hrun Hid.
    exists t. rewrite Ho; [done|]. intros ->.
    destruct (Hc h') as (i & u & E1 & E2 & E3 & E4); [done|]. assert (i = cur) as -> by congruence.
    assert (Hh : h < MAX_HARTS) by (rewrite <-(sh_current _ (co_shape _ _ C)); by eapply vget_Some_lt).
    destruct (Hc h Hh) as (j & v & F1 & F2 & F3 & F4). congruence.
  - intros id t Ht Hrun. rewrite Ec, Ei.
    assert (Hne : id ≠ cur) by (intros ->; by eapply Hst). rewrite Ho in Ht by done.
    destruct (Hr id t Ht Hrun) as [E|E]; [left|by right]. split; [|done]. intros Eh. congruence.
Qed.

Lemma vacant_idle s h : sched_inv s → vget (s_current s) h = vget (s_idle s) h → vacant h s.
Proof.
  intros [C Hc Hr] E. constructor; [done|auto|]. intros id t Ht Hst.
  destruct (Hr id t Ht Hst) as [H|H]; [|by right].
  destruct (decide (t_hart t = h)) as [<-|Hne]; [right; congruence|by left].
Qed.

(** ** Dispatching *)

Lemma set_state_id t st : t_state t = st → set_t_state st t = t.
Proof. destruct t; cbn. by intros ->. Qed.

(** [next] was chosen from [s]: it runs, everything else of the threads is unchanged,
    and making it current establishes the invariant. *)
Definition dispatched (h : N) (nc : bool) (s : Scheduler) (next : N) (s' : Scheduler) : Prop :=
  sched_inv (set_s_current (vset (s_current s') h next) s') ∧
  s' = set_s_ready (s_ready s') (set_s_threads (s_threads s') s) ∧
  ∃ t, th s next = Some t ∧ t_hart t = h ∧
    (t_state t = Ready ∧ eligible nc t = true ∨
     t_state t = Running ∧ vget (s_idle s) h = Some next ∧ ∀ l, l < PRIO_LEVELS → none_eligible s nc (rq s h l)) ∧
    ∀ i, th s' i = if decide (i = next) then Some (set_t_state Running t) else th s i.

Lemma occupy s s' h next t :
  vacant h s → h < MAX_HARTS → core [] s' → s_current s' = s_current s → s_idle s' = s_idle s →
  t_state t = Running → t_hart t = h →
  (∀ i, th s' i = if decide (i = next) then Some t else th s i) →
  (∀ u, th s next = Some u → t_state u = Running → vget (s_idle s) h = Some next ∧ u = t) →
  sched_inv (set_s_current (vset (s_current s') h next) s').
Proof.
  intros [C Hc Hr] Hh C' Ec Ei Hst Hht Hth Hn. pose proof (co_shape _ _ C') as Hs'.
  assert (Hlen : h < vlen (s_current s')) by (by rewrite (sh_current _ Hs')).
  constructor.
  - apply (core_frame _ s'); try done. destruct Hs'. constructor; cbn; try done. by rewrite vlen_vset.
  - intros h' Hh'. destruct (decide (h' = h)) as [->|Hne].
    + exists next, t. cbn [s_current s_threads set_s_current]. rewrite vget_vset_eq by done.
      rewrite Hth, decide_True by done. done.
    + destruct (Hc h' Hh' Hne) as (i & u & E1 & E2 & E3 & E4). exists i, u.
      cbn [s_current s_threads set_s_current]. rewrite vget_vset_ne, Ec by done. rewrite Hth.
      rewrite decide_False; [done|]. intros ->. destruct (Hn u E2 E3) as [_ ->]. congruence.
  - intros i u. cbn [s_current s_threads s_idle set_s_current]. rewrite Hth, Ei, Ec.
    case_decide as E.
    + intros [= <-] _. subst i. left. rewrite Hht. apply vget_vset_eq. by rewrite <-Ec.
    + intros Hu Hru. destruct (Hr i u Hu Hru) as [[Hne Hcu]|?]; [left|by right].
      by rewrite vget_vset_ne.
Qed.

Lemma runs_dispatch h nc s :
  vacant h s → h < MAX_HARTS → fallback s h = vget (s_idle s) h →
  (nc = true ∨ (∃ l id t, l < PRIO_LEVELS ∧ id ∈ rq s h l ∧ th s id = Some t ∧ eligible nc t = true) ∨
   (∃ id t, vget (s_idle s) h = Some id ∧ th s id = Some t ∧ t_state t = Running)) →
  runs (pick_next h nc) s (dispatched h nc s).
Proof.
  intros V Hh Hfb Hcond. pose proof (va_core _ _ V) as C.
  destruct (co_idle _ _ C h Hh) as (b & tb & Eb & Etb & Hhb & Hpb & Hsb). rewrite Eb in Hfb.
  eapply runs_mono; [by apply (runs_pick_next [] s h nc b)|].
  intros next s' [F|(-> & -> & Hnone)].
  - destruct (core_picked s h nc next s' C Hh F) as (C' & Ec & t & Ht & Hr & Hht & He & Hth).
    destruct F as (l & t' & pre & post & _ & _ & _ & _ & _ & _ & Es'). split_and!.
    + eapply (occupy s s' h next (set_t_state Running t)); try done; [by rewrite Es'|].
      intros u Hu Hru. congruence.
    + rewrite Es'. by destruct s.
    + exists t. split_and!; [done..|by left|done].
  - assert (Hrun : t_state tb = Running).
    { destruct (Hsb (not_elem_of_nil b)) as [Hready|]; [|done]. exfalso.
      destruct Hcond as [->|[(l & i & t & Hl & Hi & Ht & He)|(i & t & E1 & E2 & E3)]].
      - destruct (co_ready _ _ C b tb) as (l & Hl & Hq); [notin|done..|]. rewrite Hhb in Hq.
        assert (Hre : resumable tb = true) by (apply (co_resume _ _ C b); [notin|done|by left]).
        specialize (Hnone l Hl b tb Hq Etb). unfold resumable in Hre. cbn in Hnone. congruence.
      - specialize (Hnone l Hl i t Hi Ht). congruence.
      - congruence. }
    assert (Eset : set_t_state Running tb = tb) by (by apply set_state_id).
    assert (Hth : ∀ i, th s i = if decide (i = b) then Some tb else th s i).
    { intros i. case_decide; [by subst|done]. }
    split_and!.
    + eapply (occupy s s h b tb); try done. intros u Hu _. split; [done|congruence].
    + by destruct s.
    + exists tb. rewrite Eset. split_and!; [done..|by right|done].
Qed.

Lemma fallback_stopped s h cur t :
  vget (s_current s) h = Some cur → th s cur = Some t → t_state t ≠ Running →
  fallback s h = vget (s_idle s) h.
Proof.
  intros E1 E2 E3. unfold fallback. rewrite E1. cbn [mbind option_bind]. rewrite E2. cbn [mbind option_bind].
  unfold is_state. by rewrite bool_decide_eq_false_2.
Qed.

(** ** Giving up the hart *)

(** The threads of [s'] are those of [s], with [next] running. *)
Definition now_runs (next : N) (s s' : Scheduler) : Prop :=
  ∀ i u, th s i = Some u → th s' i = Some (if decide (i = next) then set_t_state Running u else u).

Lemma shape_set_current s h next : shape s → shape (set_s_current (vset (s_current s) h next) s).
Proof. intros Hs. destruct Hs. constructor; cbn; try done. by rewrite vlen_vset. Qed.
Lemma shape_set_ticks s h n : shape s → shape (set_s_ticks_run (vset (s_ticks_run s) h n) s).
Proof. intros Hs. destruct Hs. constructor; cbn; try done. by rewrite vlen_vset. Qed.
Lemma shape_set_satp s h n : shape s → shape (set_s_satp (vset (s_satp s) h n) s).
Proof. intros Hs. destruct Hs. constructor; cbn; try done. by rewrite vlen_vset. Qed.
Lemma shape_set_kill s h b : shape s → shape (set_s_kill_request (vset (s_kill_request s) h b) s).
Proof. intros Hs. destruct Hs. constructor; cbn; try done. by rewrite vlen_vset. Qed.
Lemma shape_set_remote s h n : shape s → shape (set_s_remote_req (vset (s_remote_req s) h n) s).
Proof. intros Hs. destruct Hs. constructor; cbn; try done. by rewrite vlen_vset. Qed.
Lemma shape_set_reaper s l : shape s → shape (set_s_reaper l s).
Proof. intros Hs. destruct Hs. by constructor. Qed.
#[export] Hint Resolve shape_set_current shape_set_ticks shape_set_satp shape_set_kill
  shape_set_remote shape_set_reaper shape_with_t shape_with_q : sched.
#[export] Hint Extern 1 (shape _) => (eapply co_shape; eassumption) : sched.

(** Show an invariant after a change of a field it does not read. *)
Ltac core_frame_from C := eapply core_frame; [..|exact C]; [done..|eauto with sched].

(** What a hart that switches from [cur] did: the invariant holds, the target is its
    new current thread. *)
Definition switched (h cur : N) (s : Scheduler) (st : SwitchTarget) (s' : Scheduler) : Prop :=
  sched_inv s' ∧ st_old st = cur ∧ vget (s_current s') h = Some (st_new st) ∧
  s_satp s' = s_satp s ∧ s_donations s' = s_donations s ∧ s_free_slots s' = s_free_slots s ∧
  now_runs (st_new st) s s' ∧
  ∃ t, th s (st_new st) = Some t ∧ st_use_frame st = negb (t_ctx_valid t) ∧ st_next_root st = t_root t ∧
    t_hart t = h ∧ (t_state t = Ready ∧ eligible true t = true ∨
                    t_state t = Running ∧ vget (s_idle s) h = Some (st_new st) ∧
                    ∀ l, l < PRIO_LEVELS → none_eligible s true (rq s h l)).

Lemma runs_switch_tail h cur tc s :
  vacant h s → h < MAX_HARTS → fallback s h = vget (s_idle s) h → th s cur = Some tc →
  runs (next ← pick_next h true; set_current h next;; switch_target cur next) s (switched h cur s).
Proof.
  intros V Hh Hfb Hcur. apply runs_bind. eapply runs_mono; [apply runs_dispatch; eauto|].
  intros next s' (I & Es' & t & Ht & Hht & Hel & Hth).
  apply runs_bind, runs_modify. unfold switch_target.
  apply runs_bind. eapply (runs_thread _ _ (set_t_state Running t)).
  { cbn [s_threads set_s_current]. by rewrite Hth, decide_True. }
  assert (Hso : now_runs next s s').
  { intros i u Hu. rewrite Hth. case_decide; [congruence|done]. }
  apply runs_bind. eapply runs_thread; [exact (Hso cur tc Hcur)|].
  apply runs_ret. split_and!; [done|done| | | | |done|].
  - cbn [s_current set_s_current st_new]. apply vget_vset_eq.
    rewrite Es'. cbn. by rewrite (sh_current _ (co_shape _ _ (va_core _ _ V))).
  - by rewrite Es'.
  - by rewrite Es'.
  - by rewrite Es'.
  - exists t. by split_and!.
Qed.

(** [current[h]] of the code. *)
Lemma runs_current s h cur (Q : N → Scheduler → Prop) :
  vget (s_current s) h = Some cur → Q cur s → runs (current_of h) s Q.
Proof. intros E HQ. apply runs_bind, runs_get. by eapply runs_expect. Qed.

Lemma runs_set_ticks s h n (Q : () → Scheduler → Prop) :
  Q tt (set_s_ticks_run (vset (s_ticks_run s) h n) s) → runs (set_ticks h n) s Q.
Proof. intros HQ. by apply runs_modify. Qed.

(** The state [yield_] hands to [pick_next]. *)
Definition yielding (h cur : N) (t : Thread) (s : Scheduler) : Scheduler :=
  let t1 := set_t_ctx_valid true (set_t_frame_valid false t) in
  let s1 := enqueued cur t1 (set_s_reaper [] (with_t cur t1 s)) in
  set_s_ticks_run (vset (s_ticks_run s1) h 0) s1.

Lemma th_enqueued id t s i t0 : th s id = Some t0 →
  th (enqueued id t s) i = if decide (i = id) then Some (set_t_state Ready t) else th s i.
Proof.
  intros Ht. exact (th_with_t (with_q (t_hart t) (eff_prio_of (s_donations s) t)
    (rq s (t_hart t) (eff_prio_of (s_donations s) t) ++ [id]) s) id _ t0 i Ht).
Qed.

Lemma yield_locked_inv s h cur t :
  sched_inv s → h < MAX_HARTS → vget (s_current s) h = Some cur → th s cur = Some t →
  runs (yield_locked h) s (switched h cur (yielding h cur t s)).
Proof.
  intros I Hh Hcur Ht. pose proof (in_core _ I) as C.
  destruct (inv_cur s h I Hh) as (c & u & E1 & E2 & Hrun & Hht).
  assert (c = cur) as -> by congruence. assert (u = t) as -> by congruence.
  set (t1 := set_t_ctx_valid true (set_t_frame_valid false t)).
  assert (C1 : core [cur] (set_s_reaper [] (with_t cur t1 s))).
  { assert (C0 : core [cur] (with_t cur t1 s)).
    { apply (core_upd _ _ _ t); [set_solver|by eapply core_take; eauto|done| |by split].
      exact (co_threads _ _ C cur t Ht). }
    core_frame_from C0. }
  set (s1 := set_s_reaper [] (with_t cur t1 s)) in *.
  assert (Ht1 : th s1 cur = Some t1) by (exact (vget_vset_eq _ _ _ (vget_Some_lt _ _ _ Ht))).
  pose proof (core_enqueued [] s1 cur t1 C1 (not_elem_of_nil _) Ht1 eq_refl) as C2.
  assert (Hth : ∀ i, th (yielding h cur t s) i = if decide (i = cur) then Some (set_t_state Ready t1) else th s i).
  { intros i. unfold yielding. cbv zeta. fold t1 s1. etrans; [exact (th_enqueued cur t1 s1 i t1 Ht1)|].
    case_decide; [done|]. exact (vget_vset_ne _ _ _ _ (not_eq_sym H)). }
  assert (C3 : core [] (yielding h cur t s)) by (core_frame_from C2).
  apply runs_bind. eapply runs_current; [done|].
  apply runs_bind. eapply runs_upd; [done|].
  apply runs_bind, runs_modify.
  apply runs_bind. eapply runs_enqueue; [exact C1|exact Ht1|].
  apply runs_bind. apply runs_set_ticks. fold (yielding h cur t s).
  eapply runs_switch_tail; [|done| |by rewrite Hth, decide_True].
  - apply (vacate s _ h cur); try done; intros *; rewrite Hth.
    + intros Hne. by rewrite decide_False.
    + rewrite decide_True by done. by intros [= <-].
  - eapply (fallback_stopped _ _ cur); [done|by rewrite Hth, decide_True|done].
Qed.

(** ** The switch itself *)

Definition cpu_ok (c : Context) : Prop := vlen (c_s c) = 12.

(** [switch_root] leaves [satp] of the hart at the root. *)
Lemma runs_switch_root s h root (Q : () → Scheduler → Prop) :
  shape s → h < MAX_HARTS →
  Q tt (set_s_satp (vset (s_satp s) h (satp_value root)) s) → runs (switch_root h root) s Q.
Proof.
  intros Hs Hh HQ. destruct (vget_lt_Some (s_satp s) h) as [v Hv]; [by rewrite (sh_satp _ Hs)|].
  apply runs_bind, runs_get. apply runs_bind. eapply runs_expect; [done|].
  destruct (v =? satp_value root) eqn:E; bool_to_prop.
  - apply runs_ret. rewrite <-E, (vset_id _ _ _ Hv) in HQ. by destruct s.
  - by apply runs_modify.
Qed.

Lemma inv_satp s h v : sched_inv s → sched_inv (set_s_satp (vset (s_satp s) h v) s).
Proof. intros I. apply (inv_outer s); try done. pose proof (in_core _ I) as C. core_frame_from C. Qed.

(** [do_switch]: the registers are saved in the old thread, and the hart continues with
    the save area of the new one (the one just saved, if it is the same thread). *)
Lemma do_switch_inv s h st cpu told tnew :
  sched_inv s → h < MAX_HARTS → cpu_ok cpu → th s (st_old st) = Some told → th s (st_new st) = Some tnew →
  runs (do_switch h st cpu) s (λ r s', sched_inv s' ∧
    r = (if st_use_frame st then RFrame (t_frame tnew)
         else RCtx (if decide (st_new st = st_old st) then cpu else t_ctx tnew)) ∧
    s' = set_s_satp (vset (s_satp s) h (satp_value (st_next_root st))) (with_t (st_old st) (set_t_ctx cpu told) s)).
Proof.
  intros I Hh Hcpu Ho Hn. pose proof (in_core _ I) as C. pose proof (co_shape _ _ C) as Hs.
  apply runs_bind. apply runs_switch_root; [done..|].
  set (s1 := set_s_satp _ s). assert (I1 : sched_inv s1) by (by apply inv_satp).
  assert (I2 : sched_inv (with_t (st_old st) (set_t_ctx cpu told) s1)).
  { apply (inv_soft s1 _ told); [done| |done]. split_and!; try done. intros (? & ? & ? & _). done. }
  apply runs_bind. eapply runs_upd; [exact Ho|]. apply runs_bind.
  set (tn := if decide (st_new st = st_old st) then set_t_ctx cpu told else tnew).
  eapply (runs_thread _ _ tn).
  { rewrite (th_with_t s1 _ _ told) by done. unfold tn. case_decide; done. }
  apply runs_ret. split_and!; [done| |by destruct s].
  unfold tn. destruct (st_use_frame st); case_decide as E; try done.
  rewrite E in Hn. by assert (told = tnew) as -> by congruence.
Qed.

(** ** Blocking and leaving *)

(** The current thread is changed, put back in another state, and the hart vacated. *)
Lemma leave_inv s s1 h cur t t1 :
  sched_inv s → h < MAX_HARTS → vget (s_current s) h = Some cur → th s cur = Some t →
  s_current s1 = s_current s → s_idle s1 = s_idle s →
  (∀ i, th s1 i = if decide (i = cur) then Some t1 else th s i) →
  t_state t1 ≠ Running → core [] s1 →
  vacant h s1 ∧ fallback s1 h = vget (s_idle s1) h.
Proof.
  intros I Hh Hcur Ht Ec Ei Hth Hst C1. split.
  - apply (vacate s _ h cur); try done; intros *; rewrite Hth.
    + intros Hne. by rewrite decide_False.
    + rewrite decide_True by done. by intros [= <-].
  - eapply (fallback_stopped _ _ cur t1); [by rewrite Ec|by rewrite Hth, decide_True|done].
Qed.

Definition blocking (h cur : N) (t1 : Thread) (s : Scheduler) : Scheduler :=
  let s1 := with_t cur t1 s in set_s_ticks_run (vset (s_ticks_run s1) h 0) s1.

(** The current thread blocks with the save area of [t1]. *)
Lemma blocking_inv s h cur t t1 :
  sched_inv s → h < MAX_HARTS → vget (s_current s) h = Some cur → th s cur = Some t →
  vget (s_idle s) h ≠ Some cur →
  t_state t1 = Blocked → thread_ok t1 → resumable t1 = true → t_hart t1 = t_hart t →
  runs (next ← pick_next h true; set_current h next;; switch_target cur next) (blocking h cur t1 s)
    (switched h cur (blocking h cur t1 s)).
Proof.
  intros I Hh Hcur Ht Hni Hst Hok Hr Hhe. pose proof (in_core _ I) as C.
  destruct (inv_cur s h I Hh) as (c & u & E1 & E2 & Hrun & Hht).
  assert (c = cur) as -> by congruence. assert (u = t) as -> by congruence.
  assert (Hidle : ¬ is_idle s cur).
  { intros [h' Hi]. pose proof (idle_unique s cur t h' C Ht Hi). congruence. }
  assert (C0 : core [cur] (with_t cur t1 s)).
  { apply (core_upd _ _ _ t); [set_solver|by eapply core_take; eauto|done|done|done]. }
  assert (Hth : ∀ i, th (with_t cur t1 s) i = if decide (i = cur) then Some t1 else th s i).
  { intros i. by apply (th_with_t s cur t1 t). }
  assert (C1 : core [] (with_t cur t1 s)).
  { eapply core_put_blocked; [exact C0| |done..]. by rewrite Hth, decide_True. }
  assert (C2 : core [] (blocking h cur t1 s)) by (core_frame_from C1).
  destruct (leave_inv s (blocking h cur t1 s) h cur t t1) as [V F]; try done; [by rewrite Hst|].
  eapply (runs_switch_tail h cur t1); [done..|].
  transitivity (th (with_t cur t1 s) cur); [done|]. by rewrite Hth, decide_True.
Qed.

Lemma inv_running_upd s cur t f :
  sched_inv s → th s cur = Some t → t_state t = Running → soft t (f t) → sched_inv (with_t cur (f t) s).
Proof. intros I Ht Hst Hs. by eapply inv_soft. Qed.

Lemma inv_after_core s s' :
  sched_inv s → core [] s' → same_outer s s' → sched_inv s'.
Proof. intros I C E. apply (inv_outer s); [done|done|by rewrite E..]. Qed.

(** The thread [block_current] blocks, and the frame-saving one of
    [block_user_from_trap]. *)
Definition ctx_blocked (t : Thread) : Thread :=
  set_t_ctx_valid true (set_t_frame_valid false (set_t_state Blocked t)).
Definition frame_blocked (frame : list N) (t : Thread) : Thread :=
  set_t_state Blocked (set_t_woken false (set_t_ctx_valid false (set_t_frame_valid true (set_t_frame frame t)))).

(** The result of the switching code, wrapped. *)
Lemma runs_tail_map {A} (f : SwitchTarget → A) h cur s (Q : SwitchTarget → Scheduler → Prop) Q' :
  runs (next ← pick_next h true; set_current h next;; switch_target cur next) s Q →
  (∀ st s', Q st s' → Q' (f st) s') →
  runs (next ← pick_next h true; set_current h next;; st ← switch_target cur next; mret (f st)) s Q'.
Proof.
  intros (st & s' & E & HQ) Hf. exists (f st), s'. split; [|by apply Hf].
  apply bind_ret_inv in E as (next & s1 & E1 & E). apply bind_ret_inv in E as ([] & s2 & E2 & E).
  by rewrite (bind_ret _ _ _ _ _ E1), (bind_ret _ _ _ _ _ E2), (bind_ret _ _ _ _ _ E).
Qed.

(** [block_current] consumes a pending wake-up and goes on, or blocks. *)
Lemma block_locked_inv s h cur t :
  sched_inv s → h < MAX_HARTS → vget (s_current s) h = Some cur → th s cur = Some t →
  vget (s_idle s) h ≠ Some cur →
  runs (block_locked h) s (λ o s',
    match o with
    | None => (is_Some (t_ipc_wake t) ∨ t_woken t = true) ∧ sched_inv s' ∧ vget (s_current s') h = Some cur
    | Some st => t_ipc_wake t = None ∧ t_woken t = false ∧
        switched h cur (blocking h cur (ctx_blocked t) s) st s'
    end).
Proof.
  intros I Hh Hcur Ht Hni. pose proof (in_core _ I) as C.
  destruct (inv_cur s h I Hh) as (c & u & E1 & E2 & Hrun & Hht).
  assert (c = cur) as -> by congruence. assert (u = t) as -> by congruence.
  apply runs_bind. eapply runs_current; [done|]. apply runs_bind. eapply runs_thread; [done|].
  destruct (t_ipc_wake t) as [w|] eqn:Ew.
  - apply runs_bind. eapply runs_upd; [done|]. cbv beta.
    set (s1 := with_t _ _ s). assert (I1 : sched_inv s1).
    { apply (inv_soft s _ t); [done| |done]. split_and!; try done. }
    apply runs_bind. eapply runs_mono; [apply (revoke_donations_inv cur s1); apply (in_core _ I1)|].
    intros _ s2 [C2 E]. apply runs_ret. split_and!; [by left|by eapply inv_after_core|by rewrite E].
  - unfold is_state. rewrite bool_decide_eq_false_2 by congruence.
    destruct (t_woken t) eqn:Ewo.
    + apply runs_bind. eapply runs_upd; [done|]. apply runs_ret. split_and!; [by right| |done].
      apply (inv_soft s _ t); [done| |done]. by split_and!.
    + apply runs_bind. eapply runs_upd; [done|]. apply runs_bind. apply runs_set_ticks.
      eapply runs_tail_map; [apply (blocking_inv s h cur t); try done|done].
      exact (co_threads _ _ C cur t Ht).
Qed.

Lemma vlen_inserts {A} i (m l : list A) : vlen (list_inserts i m l) = vlen l.
Proof. unfold vlen. by rewrite length_inserts. Qed.

Lemma vget_inserts_ge {A} i (m l : list A) j :
  (i + length m ≤ N.to_nat j)%nat → vget (list_inserts i m l) j = vget l j.
Proof. intros H. rewrite !vget_lookup. by apply list_lookup_inserts_ge. Qed.

(** The frame of an IPC result. *)
Definition reply_frame (a0 : N) (m : list N) (f : list N) : list N :=
  let f := list_inserts (N.to_nat X_A1) m (vset f X_A0 a0) in
  vset f FRAME_SEPC (default 0 (vget f FRAME_SEPC) + 4).

Lemma vlen_reply a0 m f : vlen (reply_frame a0 m f) = vlen f.
Proof. unfold reply_frame. by rewrite vlen_vset, vlen_inserts, vlen_vset. Qed.

Definition wake_frame (w : IpcWake) (f : list N) : list N :=
  match w with WMsg m => reply_frame 0 m f | WErr code => reply_frame code [] f end.

Lemma block_user_locked_inv s h cur t frame :
  sched_inv s → h < MAX_HARTS → vget (s_current s) h = Some cur → th s cur = Some t →
  vget (s_idle s) h ≠ Some cur → vlen frame = FRAME_WORDS →
  (∀ m, t_ipc_wake t = Some (WMsg m) → vlen m = MSG_WORDS) →
  (∃ pc, vget frame FRAME_SEPC = Some pc ∧ pc + 4 ≤ USIZE_MAX) →
  runs (block_user_locked h frame) s (λ o s',
    match o with
    | inl f => (∃ w, t_ipc_wake t = Some w ∧ f = wake_frame w frame) ∧ sched_inv s' ∧ vget (s_current s') h = Some cur ∧
        ∀ i, th s' i = if decide (i = cur) then Some (set_t_state Running (set_t_ipc_wake None t)) else th s i
    | inr st => t_ipc_wake t = None ∧ switched h cur (blocking h cur (frame_blocked frame t) s) st s'
    end).
Proof.
  intros I Hh Hcur Ht Hni Hf Hm (pc & Hpc & Hpc4). pose proof (in_core _ I) as C.
  destruct (inv_cur s h I Hh) as (c & u & E1 & E2 & Hrun & Hht).
  assert (c = cur) as -> by congruence. assert (u = t) as -> by congruence.
  apply runs_bind. eapply runs_current; [done|]. apply runs_bind. eapply runs_thread; [done|].
  destruct (t_ipc_wake t) as [w|] eqn:Ew.
  - apply runs_bind. eapply runs_upd; [done|]. cbv beta.
    set (s1 := with_t _ _ s). assert (I1 : sched_inv s1).
    { apply (inv_soft s _ t); [done| |done]. split_and!; try done. }
    apply runs_bind. eapply runs_mono; [apply (revoke_donations_inv cur s1); apply (in_core _ I1)|].
    intros _ s2 [C2 E]. assert (I2 : sched_inv s2) by (by eapply inv_after_core).
    assert (Hfin : ∀ f : list N, vget f FRAME_SEPC = Some pc → vset f FRAME_SEPC (pc + 4) = wake_frame w frame →
      runs (f' ← skip_ecall f; mret (inl f' : _ + SwitchTarget)) s2
      (λ o s', match o with
        | inl f => (∃ w', Some w = Some w' ∧ f = wake_frame w' frame) ∧ sched_inv s' ∧ vget (s_current s') h = Some cur ∧
            ∀ i, th s' i = if decide (i = cur) then Some (set_t_state Running (set_t_ipc_wake None t)) else th s i
        | inr st => Some w = None ∧ switched h cur (blocking h cur (frame_blocked frame t) s) st s' end)).
    { intros f Hpcf Hwf. apply runs_bind. unfold skip_ecall. apply runs_bind. eapply runs_expect; [done|].
      apply runs_bind. unfold add_. eapply runs_expect; [by apply checked_add_Some|].
      apply runs_ret. apply runs_ret. split_and!; [by eauto|done|by rewrite E|].
      intros i. rewrite (same_outer_threads _ _ E). by apply (th_with_t s cur _ t). }
    destruct w as [m|code].
    + assert (Epc : vget (list_inserts (N.to_nat X_A1) m (vset frame X_A0 0)) FRAME_SEPC = Some pc).
      { rewrite vget_inserts_ge; [by rewrite vget_vset_ne|].
        specialize (Hm m eq_refl). unfold vlen, MSG_WORDS in Hm. unfold X_A1, FRAME_SEPC. lia. }
      apply runs_bind. unfold put_words. apply runs_bind. apply runs_assert.
      { apply N.leb_le. rewrite vlen_vset, Hf, (Hm m eq_refl). done. }
      apply runs_ret, Hfin; [done|]. unfold wake_frame, reply_frame. by rewrite Epc.
    + apply runs_bind, runs_ret, Hfin; [by rewrite vget_vset_ne|].
      unfold wake_frame, reply_frame. cbn [list_inserts]. by rewrite vget_vset_ne, Hpc.
  - apply runs_bind. eapply runs_upd; [done|]. apply runs_bind. apply runs_set_ticks.
    eapply runs_tail_map; [apply (blocking_inv s h cur t); try done|done].
    destruct (co_threads _ _ C cur t Ht) as (? & ? & _ & ?). done.
Qed.

(** [take_stack] of a running thread. *)
Definition stackless (id : N) (t : Thread) (s : Scheduler) : Scheduler :=
  match t_stack t with
  | Some ptr => set_s_reaper (s_reaper s ++ [ptr]) (with_t id (set_t_stack None t) s)
  | None => s
  end.

Lemma runs_take_stack s id t (Q : () → Scheduler → Prop) :
  th s id = Some t → Q tt (stackless id t s) → runs (take_stack id) s Q.
Proof.
  intros Ht HQ. apply runs_bind. eapply runs_thread; [done|]. unfold stackless in HQ.
  destruct (t_stack t); [|by apply runs_ret]. apply runs_bind. eapply runs_upd; [done|]. by apply runs_modify.
Qed.

Lemma th_stackless s id t i : th s id = Some t →
  th (stackless id t s) i = if decide (i = id) then Some (set_t_stack None t) else th s i.
Proof.
  intros Ht. unfold stackless. destruct (t_stack t) eqn:E; [by apply (th_with_t s id _ t)|].
  case_decide; [|done]. subst i. rewrite Ht. f_equal. destruct t; cbn in *. by rewrite E.
Qed.

Lemma inv_stackless s id t : sched_inv s → th s id = Some t → sched_inv (stackless id t s).
Proof.
  intros I Ht. unfold stackless. destruct (t_stack t); [|done].
  assert (I1 : sched_inv (with_t id (set_t_stack None t) s)) by (apply (inv_soft s _ t); [done|by split_and!|done]).
  apply (inv_outer _ _ I1); try done. pose proof (in_core _ I1) as C. core_frame_from C.
Qed.

Definition gone (t : Thread) : Thread := set_t_ctx_valid true (set_t_frame_valid false (set_t_state Exited t)).

(** [exit]: the thread exits, its slot is free, and the hart goes on. *)
Lemma exit_locked_inv s h cur t :
  sched_inv s → h < MAX_HARTS → vget (s_current s) h = Some cur → th s cur = Some t →
  vget (s_idle s) h ≠ Some cur →
  runs (exit_locked h) s (λ st s', sched_inv s' ∧ st_old st = cur ∧
    vget (s_current s') h = Some (st_new st) ∧ s_free_slots s' = s_free_slots s ++ [cur] ∧
    (∃ t1 t2, th s' cur = Some t1 ∧ th s' (st_new st) = Some t2 ∧ t_state t1 = Exited ∧
      t_stack t1 = None ∧ t_ipc_wake t1 = t_ipc_wake t) ∧
    ∀ i u, i ≠ cur → th s i = Some u →
      (i = st_new st → t_state u = Ready ∨ t_state u = Running) ∧
      th s' i = Some (if decide (i = st_new st) then set_t_state Running u else u)).
Proof.
  intros I Hh Hcur Ht Hni. destruct (inv_cur s h I Hh) as (c & u & E1 & E2 & Hrun & Hht).
  assert (c = cur) as -> by congruence. assert (u = t) as -> by congruence.
  apply runs_bind. eapply runs_current; [done|]. apply runs_bind. eapply runs_take_stack; [done|].
  pose proof (inv_stackless s cur t I Ht) as I1. pose proof (th_stackless s cur t) as Hth1.
  specialize (λ i, Hth1 i Ht).
  assert (Ec1 : s_current (stackless cur t s) = s_current s) by (unfold stackless; by destruct (t_stack t)).
  assert (Ei1 : s_idle (stackless cur t s) = s_idle s) by (unfold stackless; by destruct (t_stack t)).
  assert (Ef1 : s_free_slots (stackless cur t s) = s_free_slots s) by (unfold stackless; by destruct (t_stack t)).
  set (s1 := stackless cur t s) in *. set (t1 := set_t_stack None t) in *.
  assert (Ht1 : th s1 cur = Some t1) by (by rewrite Hth1, decide_True).
  assert (Hidle : ¬ is_idle s1 cur).
  { intros [h' Hi]. pose proof (idle_unique s1 cur t1 h' (in_core _ I1) Ht1 Hi) as E. cbn in E. congruence. }
  apply runs_bind. eapply runs_upd; [done|]. change (set_t_ctx_valid true _) with (gone t1).
  assert (C2 : core [cur] (with_t cur (gone t1) s1)).
  { apply (core_upd _ _ _ t1); [set_solver| |done| |by split].
    - eapply core_take; [apply (in_core _ I1)|exact Ht1|by left].
    - exact (co_threads _ _ (in_core _ I1) cur t1 Ht1). }
  pose proof (th_with_t s1 cur (gone t1) t1) as Hth2. specialize (λ i, Hth2 i Ht1).
  set (s2 := with_t cur (gone t1) s1) in *.
  assert (C3 : core [] (set_s_free_slots (s_free_slots s2 ++ [cur]) s2)).
  { apply (core_put_exited s2 cur (gone t1)); [exact C2| |done|done]. by rewrite Hth2, decide_True. }
  apply runs_bind, runs_modify. apply runs_bind, runs_set_ticks.
  set (s3 := set_s_free_slots _ s2) in *. set (s4 := set_s_ticks_run _ s3).
  assert (C4 : core [] s4) by (core_frame_from C3).
  destruct (leave_inv s1 s4 h cur t1 (gone t1)) as [V F]; try done; [by rewrite Ec1|].
  assert (Hth4 : th s4 cur = Some (gone t1)) by (etrans; [exact (Hth2 cur)|by rewrite decide_True]).
  eapply runs_mono; [by eapply (runs_switch_tail h cur (gone t1))|].
  intros st s' (I' & Eo & Ecu & _ & _ & Ef & Hso & t' & Ht' & _ & _ & _ & Hready).
  pose proof (Hso _ _ Hth4) as Hx. pose proof (Hso _ _ Ht') as Hy.
  assert (Hxe : cur ≠ st_new st).
  { intros E. rewrite <-E, decide_True in Hx by done.
    destruct (co_free _ _ (in_core _ I') cur) as [Hfr _]. destruct Hfr as (_ & v & Hv & Hve).
    - rewrite Ef. cbn. set_solver.
    - rewrite Hx in Hv. by injection Hv as <-. }
  rewrite decide_False in Hx by done. rewrite decide_True in Hy by done.
  split_and!; [done|done|done|rewrite Ef; cbn; by rewrite Ef1| |].
  - eexists _, _. split_and!; [exact Hx|exact Hy|done..].
  - intros i u Hne Hu. assert (Hu4 : th s4 i = Some u).
    { etrans; [exact (Hth2 i)|]. rewrite decide_False by done. rewrite Hth1. by rewrite decide_False. }
    split; [|exact (Hso _ _ Hu4)]. intros ->. assert (u = t') as -> by congruence.
    destruct Hready as [[? _]|[? _]]; auto.
Qed.

(** What a resumed [block_current] does: the thread is not queued, and its wake-up flag
    is cleared. *)
Lemma remove_first_notin id q : id ∉ q → remove_first id q = None.
Proof.
  induction q as [|x q IH]; intros H; cbn [remove_first]; [done|].
  apply not_elem_of_cons in H as [H1 H2]. rewrite (proj2 (N.eqb_neq x id)) by done. by rewrite IH.
Qed.

Lemma remove_row_notin id row : (∀ q, q ∈ row → id ∉ q) → remove_from_row id row = row.
Proof.
  induction row as [|q row IH]; intros H; cbn [remove_from_row]; [done|].
  rewrite remove_first_notin by (apply H; set_solver). f_equal. apply IH. set_solver.
Qed.

Lemma runs_remove_notin P s id t (Q : () → Scheduler → Prop) :
  core P s → th s id = Some t → (∀ l, id ∉ rq s (t_hart t) l) → Q tt s → runs (remove_from_ready id) s Q.
Proof.
  intros C Ht Hni HQ. pose proof (co_shape _ _ C) as Hs.
  destruct (row_of s (t_hart t) Hs) as (row & E & Hr); [by apply (co_threads _ _ C id)|].
  apply runs_bind. eapply runs_thread; [done|]. apply runs_bind, runs_get.
  apply runs_bind. eapply runs_expect; [done|]. apply runs_modify.
  rewrite remove_row_notin, vset_id; [by destruct s|done|].
  intros q [j Hj]%list_elem_of_lookup Hin. apply (Hni (N.of_nat j)).
  by rewrite (rq_row _ _ _ _ E), vget_lookup, Nat2N.id, Hj.
Qed.

Lemma not_queued P s id t : core P s → th s id = Some t → t_state t ≠ Ready → ∀ h l, id ∉ rq s h l.
Proof. intros C Ht Hst h l Hin. destruct (co_queued _ _ C _ _ _ Hin) as (_ & u & Hu & ? & _). congruence. Qed.

Lemma block_resumed_inv s h :
  sched_inv s → h < MAX_HARTS → runs (block_resumed h) s (λ _ s', sched_inv s' ∧ s_ready s' = s_ready s).
Proof.
  intros I Hh. destruct (inv_cur s h I Hh) as (cur & t & E1 & Ht & Hrun & Hht).
  pose proof (in_core _ I) as C. apply runs_bind. eapply runs_current; [done|].
  apply runs_bind. eapply runs_remove_notin; [done|done| |].
  - intros l. eapply not_queued; [done|done|congruence].
  - eapply runs_upd; [done|]. split; [|done]. apply (inv_soft s _ t); [done|by split_and!|done].
Qed.

(** ** Waking *)

(** A blocked thread, changed softly, is put into its queue. *)
Lemma inv_enqueue_blocked s id t t1 :
  sched_inv s → th s id = Some t → t_state t = Blocked → soft t t1 →
  sched_inv (enqueued id t1 (with_t id t1 s)).
Proof.
  intros I Ht Hst Hsoft. pose proof (inv_soft s id t t1 Ht Hsoft I) as I1.
  pose proof Hsoft as (Est & Eh & _).
  assert (Ht1 : th (with_t id t1 s) id = Some t1) by (by rewrite (th_with_t s id t1 t), decide_True).
  set (s1 := with_t id t1 s) in *. clearbody s1.
  assert (Hr : resumable t1 = true) by (apply (co_resume _ _ (in_core _ I1) id); [notin|done|right; congruence]).
  assert (C2 : core [] (enqueued id t1 s1)).
  { apply core_enqueued; [eapply core_take; [apply (in_core _ I1)|done|right; congruence]|notin|done|done]. }
  pose proof (th_enqueued id t1 s1) as Hth. specialize (λ i, Hth i t1 Ht1).
  destruct I1 as [C1 Hc Hrun]. constructor; [done|..].
  - intros h Hh. apply (running_on_ext s1); [done| |by apply Hc]. intros i u Hu Hru _. exists u.
    rewrite Hth, decide_False; [done|]. intros ->. congruence.
  - intros i u. rewrite Hth. case_decide; [by intros [= <-]|]. apply Hrun.
Qed.

Lemma wake_inv s id : sched_inv s → runs (wake id) s (λ _ s', sched_inv s').
Proof.
  intros I. pose proof (in_core _ I) as C. apply runs_bind, runs_get.
  destruct (id <? vlen (s_threads s)) eqn:E; bool_to_prop; [|by apply runs_ret].
  destruct (vget_lt_Some _ _ E) as [t Ht]. apply runs_bind. eapply runs_upd; [done|].
  set (t1 := set_t_woken true t). pose proof (th_with_t s id t1 t id Ht) as Ht1. rewrite decide_True in Ht1 by done.
  assert (Hsoft : soft t t1) by (by split_and!).
  apply runs_bind. eapply runs_thread; [exact Ht1|].
  unfold is_state. case_bool_decide as Hb.
  - eapply runs_enqueue; [apply (in_core _ (inv_soft s id t t1 Ht Hsoft I))|exact Ht1|].
    by eapply inv_enqueue_blocked.
  - apply runs_ret. by eapply inv_soft.
Qed.

(** Writing a result into the frame of a blocked thread and queueing it. *)
Lemma runs_skip_ecall {A} (k : list N → MS A) f pc s (Q : A → Scheduler → Prop) :
  vget f FRAME_SEPC = Some pc → pc + 4 ≤ USIZE_MAX →
  runs (k (vset f FRAME_SEPC (pc + 4))) s Q → runs (f' ← skip_ecall f; k f') s Q.
Proof.
  intros Hpc Hle R. apply runs_bind. unfold skip_ecall. apply runs_bind. eapply runs_expect; [done|].
  apply runs_bind. unfold add_. eapply runs_expect; [by apply checked_add_Some|]. by apply runs_ret.
Qed.

Definition delivered (a0 : N) (m : list N) (buf : option (list N)) (t : Thread) : Thread :=
  set_t_ipc_wake None (set_t_ipc_msg buf (set_t_frame (reply_frame a0 m (t_frame t)) t)).

Lemma soft_delivered a0 m buf t : soft t (delivered a0 m buf t).
Proof.
  split_and!; try done. intros (? & ? & Hf & ?). split_and!; try done. cbn [t_frame delivered set_t_ipc_wake set_t_ipc_msg set_t_frame].
  by rewrite vlen_reply.
Qed.

(** The room of a message in the frame. *)
Definition msg_ok (m : list N) : Prop := vlen m = MSG_WORDS.
Definition pc_ok (t : Thread) : Prop := default 0 (vget (t_frame t) FRAME_SEPC) + 4 ≤ USIZE_MAX.

Lemma runs_deliver s id t a0 m buf :
  sched_inv s → th s id = Some t → t_state t = Blocked →
  let t1 := delivered a0 m buf t in
  runs (upd_thread id (λ _, t1);; enqueue id;; revoke_donations id) s
    (λ _ s', sched_inv s' ∧ same_outer (enqueued id t1 (with_t id t1 s)) s').
Proof.
  intros I Ht Hst t1. pose proof (soft_delivered a0 m buf t : soft t t1) as Hsoft.
  pose proof (th_with_t s id t1 t id Ht) as Ht1. rewrite decide_True in Ht1 by done.
  apply runs_bind. eapply runs_upd; [done|]. apply runs_bind.
  eapply runs_enqueue; [apply (in_core _ (inv_soft s id t t1 Ht Hsoft I))|exact Ht1|].
  pose proof (inv_enqueue_blocked s id t t1 I Ht Hst Hsoft) as I2.
  eapply runs_mono; [apply revoke_donations_inv, (in_core _ I2)|]. intros _ s' [C' E].
  split; [|done]. by eapply inv_after_core.
Qed.

Lemma ipc_wake_with_msg_inv s tid t (msg : option (list N)) :
  sched_inv s → th s tid = Some t → (∀ m, msg = Some m → msg_ok m) → (t_state t = Blocked → pc_ok t) →
  runs (ipc_wake_with_msg tid msg) s (λ _ s', sched_inv s' ∧
    if decide (t_state t = Blocked) then
      let t1 := delivered 0 (default [] msg) (msg_buf <$> msg) t in
      same_outer (enqueued tid t1 (with_t tid t1 s)) s'
    else s' = with_t tid (set_t_ipc_wake (Some (WMsg (msg_buf (default [] msg))))
                (set_t_ipc_msg (Some (msg_buf (default [] msg))) t)) s).
Proof.
  intros I Ht Hmsg Hpc. destruct (co_threads _ _ (in_core _ I) tid t Ht) as (_ & _ & Hf & _).
  apply runs_bind. eapply runs_thread; [done|].
  unfold is_state. case_decide as Hst; [rewrite bool_decide_eq_true_2 by done|rewrite bool_decide_eq_false_2 by done];
    cbn [negb]; cbv zeta.
  2: { eapply runs_upd; [done|]. split; [|done]. apply (inv_soft s _ t); [done|by split_and!|done]. }
  destruct (vget_lt_Some (t_frame t) FRAME_SEPC) as [pc Epc]; [by rewrite Hf|].
  specialize (Hpc Hst). unfold pc_ok in Hpc. rewrite Epc in Hpc. cbn [from_option id] in Hpc.
  assert (Hrep : ∀ m : list N, (length m ≤ 5)%nat → vget (list_inserts (N.to_nat X_A1) m (vset (t_frame t) X_A0 0)) FRAME_SEPC = Some pc).
  { intros m Hm. rewrite vget_inserts_ge, vget_vset_ne; [done|done|]. unfold X_A1, FRAME_SEPC. lia. }
  assert (Hup : ∀ m : list N, (length m ≤ 5)%nat → runs (f' ← skip_ecall (list_inserts (N.to_nat X_A1) m (vset (t_frame t) X_A0 0));
      upd_thread tid (λ t, set_t_ipc_wake None (set_t_ipc_msg (msg_buf <$> msg) (set_t_frame f' t)));;
      enqueue tid;; revoke_donations tid) s (λ _ s', sched_inv s' ∧
        same_outer (enqueued tid (delivered 0 m (msg_buf <$> msg) t)
          (with_t tid (delivered 0 m (msg_buf <$> msg) t) s)) s')).
  { intros m Hm. eapply runs_skip_ecall; [by apply Hrep|done|].
    pose proof (runs_deliver s tid t 0 m (msg_buf <$> msg) I Ht Hst) as R. cbv zeta in R.
    unfold delivered, reply_frame in *. cbv zeta in *. rewrite (Hrep m Hm) in *. cbn [from_option id] in *.
    destruct R as ([] & s' & E & HQ). exists tt, s'. split; [|exact HQ]. rewrite <-E.
    unfold mbind, M_bind, upd_thread, thread, mbind, M_bind, get, expect. by rewrite Ht. }
  destruct msg as [m|].
  - specialize (Hmsg m eq_refl). unfold msg_ok, vlen, MSG_WORDS in Hmsg.
    apply runs_bind. unfold put_words. apply runs_bind, runs_assert.
    { apply N.leb_le. rewrite vlen_vset, Hf. unfold vlen, X_A1, FRAME_WORDS. lia. }
    apply runs_ret, (Hup m). lia.
  - apply runs_bind, runs_ret, (Hup []), Nat.le_0_l.
Qed.

Lemma ipc_wake_with_err_inv s tid t code :
  sched_inv s → th s tid = Some t → (t_state t = Blocked → pc_ok t) →
  let buf := replicate (N.to_nat MSG_WORDS) code in
  runs (ipc_wake_with_err tid code) s (λ _ s', sched_inv s' ∧
    if decide (t_state t = Blocked) then
      let t1 := delivered code [] (Some buf) t in same_outer (enqueued tid t1 (with_t tid t1 s)) s'
    else s' = with_t tid (set_t_ipc_wake (Some (WErr code)) (set_t_ipc_msg (Some buf) t)) s).
Proof.
  intros I Ht Hpc buf. destruct (co_threads _ _ (in_core _ I) tid t Ht) as (_ & _ & Hf & _).
  apply runs_bind. eapply runs_thread; [done|]. cbv zeta. fold buf.
  unfold is_state. case_decide as Hst; [rewrite bool_decide_eq_true_2 by done|rewrite bool_decide_eq_false_2 by done];
    cbn [negb].
  2: { eapply runs_upd; [done|]. split; [|done]. apply (inv_soft s _ t); [done|by split_and!|done]. }
  destruct (vget_lt_Some (t_frame t) FRAME_SEPC) as [pc Epc]; [by rewrite Hf|].
  specialize (Hpc Hst). unfold pc_ok in Hpc. rewrite Epc in Hpc. cbn [from_option id] in Hpc.
  assert (Epc' : vget (vset (t_frame t) X_A0 code) FRAME_SEPC = Some pc) by (by rewrite vget_vset_ne).
  eapply runs_skip_ecall; [exact Epc'|done|].
  pose proof (runs_deliver s tid t code [] (Some buf) I Ht Hst) as R. cbv zeta in R.
  unfold delivered, reply_frame in *. cbn [list_inserts] in *. cbv zeta in *. rewrite Epc' in *.
  cbn [from_option id] in *. destruct R as ([] & s' & E & HQ). exists tt, s'. split; [|exact HQ].
  rewrite <-E. unfold mbind, M_bind, upd_thread, thread, mbind, M_bind, get, expect. by rewrite Ht.
Qed.

Lemma donate_on_block_inv s donor peer :
  sched_inv s → donor < vlen (s_threads s) →
  runs (donate_on_block donor peer) s (λ _ s', sched_inv s' ∧ same_outer s s').
Proof.
  intros I Hd. eapply runs_mono; [by apply register_donation_inv; [apply (in_core _ I)|]|].
  intros _ s' [C' E]. split; [|done]. by eapply inv_after_core.
Qed.

Lemma take_ipc_msg_inv s h :
  sched_inv s → h < MAX_HARTS → runs (take_ipc_msg h) s (λ _ s', sched_inv s').
Proof.
  intros I Hh. destruct (inv_cur s h I Hh) as (cur & t & E1 & Ht & _).
  apply runs_bind. eapply runs_current; [done|]. apply runs_bind. eapply runs_thread; [done|].
  apply runs_bind. eapply runs_upd; [done|]. apply runs_ret.
  apply (inv_soft s _ t); [done|by split_and!|done].
Qed.

(** ** Creating threads *)

(** Room for one more thread. *)
Definition has_slot (s : Scheduler) : Prop := s_free_slots s ≠ [] ∨ vlen (s_threads s) < MAX_THREADS.

(** The slot [new_slot] takes and the state it leaves. *)
Definition slot_of (s : Scheduler) : N := default (vlen (s_threads s)) (head (s_free_slots s)).
Definition slotted (s : Scheduler) : Scheduler :=
  set_s_kill_request (vset (s_kill_request s) (slot_of s) false) (set_s_free_slots (tail (s_free_slots s)) s).

Lemma slot_lt s : sched_inv s → has_slot s → slot_of s < MAX_THREADS ∧ slot_of s ≤ vlen (s_threads s).
Proof.
  intros I Hslot. pose proof (in_core _ I) as C. pose proof (sh_threads _ (co_shape _ _ C)).
  unfold slot_of, has_slot in *. destruct (s_free_slots s) as [|i fs] eqn:E; cbn [head from_option id].
  - destruct Hslot; [done|]. lia.
  - destruct (co_free _ _ C i) as [Hf _]. destruct Hf as (_ & t & Ht & _); [rewrite E; set_solver|].
    apply vget_Some_lt in Ht. lia.
Qed.

Lemma runs_new_slot s (Q : N → Scheduler → Prop) :
  sched_inv s → has_slot s → Q (slot_of s) (slotted s) → runs new_slot s Q.
Proof.
  intros I Hslot HQ. destruct (slot_lt s I Hslot) as [Hlt _].
  pose proof (sh_kill _ (co_shape _ _ (in_core _ I))) as Hk.
  destruct (vget_lt_Some (s_kill_request s) (slot_of s)) as [b Hb]; [by rewrite Hk|].
  unfold slotted in HQ. unfold slot_of in *. apply runs_bind, runs_get. unfold has_slot in Hslot.
  destruct (s_free_slots s) as [|i fs] eqn:E; cbn [head tail from_option id] in *; apply runs_bind.
  - destruct Hslot as [?|Hl]; [done|]. apply runs_bind, runs_assert; [by apply N.ltb_lt|]. apply runs_ret.
    apply runs_bind. unfold set_kill. apply runs_bind, runs_get. apply runs_bind. eapply runs_expect; [done|].
    apply runs_modify, runs_ret. replace (set_s_free_slots [] s) with s in HQ; [done|]. destruct s; cbn in *. by subst.
  - apply runs_bind, runs_modify, runs_ret.
    apply runs_bind. unfold set_kill. apply runs_bind, runs_get. apply runs_bind. eapply runs_expect; [done|].
    by apply runs_modify, runs_ret.
Qed.

Definition placed (t : Thread) (s : Scheduler) : Scheduler :=
  set_s_threads (if slot_of s <? vlen (s_threads s) then vset (s_threads s) (slot_of s) t
                 else s_threads s ++ [t]) (slotted s).

Lemma th_placed s t i : sched_inv s → has_slot s →
  th (placed t s) i = if decide (i = slot_of s) then Some t else th s i.
Proof.
  intros I Hslot. destruct (slot_lt s I Hslot) as [_ Hle]. unfold placed. cbn [s_threads set_s_threads].
  destruct (slot_of s <? vlen (s_threads s)) eqn:E; bool_to_prop.
  - rewrite vget_vset. repeat case_decide; naive_solver.
  - assert (Heq : slot_of s = vlen (s_threads s)) by lia. rewrite !vget_lookup, Heq.
    case_decide as Ei.
    + subst i. unfold vlen. rewrite Nat2N.id. by apply list_lookup_middle.
    + destruct (decide (i < vlen (s_threads s))) as [Hlt|Hge]; unfold vlen in *.
      * rewrite lookup_app_l by lia. done.
      * rewrite !lookup_ge_None_2; [done|lia|]. rewrite length_app. cbn. lia.
Qed.

Lemma vlen_placed s t : sched_inv s → has_slot s →
  vlen (s_threads s) ≤ vlen (s_threads (placed t s)) ≤ MAX_THREADS.
Proof.
  intros I Hslot. destruct (slot_lt s I Hslot) as [Hlt Hle]. unfold placed. cbn [s_threads set_s_threads].
  pose proof (sh_threads _ (co_shape _ _ (in_core _ I))) as Hmax.
  destruct (slot_of s <? vlen (s_threads s)) eqn:E; bool_to_prop; [rewrite vlen_vset; lia|].
  unfold vlen in *. rewrite length_app. cbn. lia.
Qed.

(** The slot taken belongs to an exited thread or to none. *)
Lemma slot_dead s u : sched_inv s → th s (slot_of s) = Some u → t_state u = Exited.
Proof.
  intros I. pose proof (in_core _ I) as C. unfold slot_of.
  destruct (s_free_slots s) as [|i fs] eqn:E; cbn [head from_option id].
  - intros H%vget_Some_lt. lia.
  - destruct (co_free _ _ C i) as [Hf _]. destruct Hf as (_ & t & Ht & Hx); [rewrite E; set_solver|].
    congruence.
Qed.

Lemma core_placed s t :
  sched_inv s → has_slot s → thread_ok t → core [slot_of s] (placed t s).
Proof.
  intros I Hslot Hok. pose proof (in_core _ I) as C. pose proof (co_shape _ _ C) as Hs.
  pose proof (th_placed s t) as Hth. specialize (λ i, Hth i I Hslot).
  pose proof (vlen_placed s t I Hslot) as Hlen. pose proof (slot_dead s) as Hdead. specialize (λ u, Hdead u I).
  destruct C. constructor; try done.
  - destruct Hs. constructor; cbn; try done; [by rewrite vlen_vset|apply Hlen].
  - intros i u. rewrite Hth. case_decide; [by intros [= <-]|by eauto].
  - intros d Hd. destruct (co_don d Hd). split; [done|]. lia.
  - intros h l i Hi. destruct (co_queued h l i Hi) as (_ & u & Hu & Hr & Hh).
    assert (Hne : i ≠ slot_of s) by (intros ->; specialize (Hdead u Hu); congruence).
    split; [notin|]. exists u. by rewrite Hth, decide_False.
  - intros i u Hne. rewrite Hth, decide_False by (intros ->; set_solver). apply co_ready. notin.
  - intros i u Hne. rewrite Hth, decide_False by (intros ->; set_solver). apply co_resume. notin.
  - intros h Hh. destruct (co_idle h Hh) as (i & u & E1 & E2 & E3 & E4 & E5).
    exists i, u. rewrite Hth, decide_False.
    + split_and!; try done. intros _. apply E5. notin.
    + intros ->. specialize (Hdead u E2). destruct (E5 (not_elem_of_nil _)); congruence.
  - intros i. cbn [s_free_slots placed set_s_threads slotted set_s_kill_request set_s_free_slots].
    rewrite list_elem_of_singleton. setoid_rewrite Hth. unfold slot_of in *.
    destruct (s_free_slots s) as [|j fs] eqn:E; cbn [head tail from_option id] in *.
    + rewrite elem_of_nil. split; [done|]. intros (Hne & u & Hu & Hx). rewrite decide_False in Hu by done.
      destruct (co_free i) as [_ Hf]. apply elem_of_nil in Hf; [done|]. split; [notin|by eauto].
    + apply NoDup_cons in co_free_nodup as [Hj Hnd]. specialize (co_free i). rewrite elem_of_cons in co_free. split.
      * intros Hi. assert (Hij : i ≠ j) by (by intros ->). split; [done|]. rewrite decide_False by done.
        apply co_free. by right.
      * intros (Hne & u & Hu & Hx). rewrite decide_False in Hu by done.
        destruct (proj2 co_free) as [?|?]; [split; [notin|by eauto]|done|done].
  - cbn [s_free_slots placed set_s_threads slotted set_s_kill_request set_s_free_slots].
    destruct (s_free_slots s) as [|j fs]; [done|]. by apply NoDup_cons in co_free_nodup as [_ ?].
Qed.

(** A new ready thread joins. *)
Lemma inv_spawned s t :
  sched_inv s → has_slot s → thread_ok t → resumable t = true →
  sched_inv (enqueued (slot_of s) t (placed t s)).
Proof.
  intros I Hslot Hok Hr. pose proof (th_placed s t) as Hth. specialize (λ i, Hth i I Hslot).
  assert (Ht : th (placed t s) (slot_of s) = Some t) by (by rewrite Hth, decide_True).
  pose proof (core_enqueued [] _ _ t (core_placed s t I Hslot Hok) (not_elem_of_nil _) Ht Hr) as C'.
  pose proof (th_enqueued (slot_of s) t (placed t s)) as Hth'. specialize (λ i, Hth' i t Ht).
  pose proof (slot_dead s) as Hdead. specialize (λ u, Hdead u I).
  destruct I as [C Hc Hrun]. constructor; [done|..].
  - intros h Hh. apply (running_on_ext s); [done| |by apply Hc]. intros i u Hu Hru _. exists u.
    assert (Hne : i ≠ slot_of s) by (intros ->; specialize (Hdead u Hu); congruence).
    by rewrite Hth', decide_False, Hth, decide_False.
  - intros i u. rewrite Hth'. case_decide as E; [by intros [= <-]|]. rewrite Hth, decide_False by done. apply Hrun.
Qed.

Lemma runs_place s t (Q : N → Scheduler → Prop) :
  sched_inv s → has_slot s → thread_ok t → resumable t = true →
  Q (slot_of s) (enqueued (slot_of s) t (placed t s)) →
  runs (place_thread (slot_of s) t;; enqueue (slot_of s);; mret (slot_of s)) (slotted s) Q.
Proof.
  intros I Hslot Hok Hr HQ. apply runs_bind, runs_modify. apply runs_bind.
  eapply (runs_enqueue [slot_of s] (placed t s)); [by apply core_placed| |by apply runs_ret].
  by rewrite th_placed, decide_True.
Qed.

(** A stack whose top does not overflow. *)
Definition stack_ok (ptr : N) : Prop := ptr + THREAD_STACK_SIZE + STACK_GUARD_SIZE ≤ USIZE_MAX.
Definition sp_of (ptr : N) : N := N.ldiff (ptr + THREAD_STACK_SIZE + STACK_GUARD_SIZE) 0xF.

Lemma runs_stack_sp ptr s (Q : N → Scheduler → Prop) :
  stack_ok ptr → Q (sp_of ptr) s → runs (stack_sp ptr) s Q.
Proof.
  unfold stack_ok. intros Hp HQ. apply runs_bind. unfold add_. eapply runs_expect; [apply checked_add_Some; split; [done|lia]|].
  apply runs_bind. eapply runs_expect; [by apply checked_add_Some|]. by apply runs_ret.
Qed.

(** The thread [spawn] creates. *)
Definition kernel_thread (img : Image) (h kroot stack entry prio : N) : Thread :=
  mkThread (N.min prio (PRIO_LEVELS - 1)) Ready
    (mkCtx (thread_entry img) (sp_of stack) (replicate 12 0))
    (kernel_frame (thread_entry img) (sp_of stack) (global_pointer img))
    true true false None None None h kroot entry (Some stack).
Definition user_thread (img : Image) (h root proc_id entry_pc stack_top prio argc argv : N) : Thread :=
  mkThread (N.min prio (PRIO_LEVELS - 1)) Ready
    (mkCtx entry_pc stack_top (replicate 12 0)) (user_frame entry_pc stack_top argc argv)
    true false false None None (Some proc_id) h root (user_entry_stub img) None.

Lemma spawn_inv img h kroot stack entry prio s :
  sched_inv s → has_slot s → h < MAX_HARTS → stack_ok stack →
  runs (spawn img h kroot stack entry prio) s (λ id s', id = slot_of s ∧ sched_inv s' ∧
    s' = enqueued id (kernel_thread img h kroot stack entry prio)
           (placed (kernel_thread img h kroot stack entry prio) s)).
Proof.
  intros I Hslot Hh Hst. apply runs_bind. apply runs_new_slot; [done..|].
  apply runs_bind. apply runs_stack_sp; [done|].
  assert (Hok : thread_ok (kernel_thread img h kroot stack entry prio)).
  { split_and!; try done. cbn [t_prio kernel_thread]. unfold PRIO_LEVELS. lia. }
  apply (runs_place s (kernel_thread img h kroot stack entry prio)); [done..|].
  split_and!; [done|by apply inv_spawned|done].
Qed.

Lemma spawn_user_inv img h root proc_id entry_pc stack_top prio argc argv s :
  sched_inv s → has_slot s → h < MAX_HARTS →
  runs (spawn_user img h root proc_id entry_pc stack_top prio argc argv) s (λ id s', id = slot_of s ∧ sched_inv s' ∧
    s' = enqueued id (user_thread img h root proc_id entry_pc stack_top prio argc argv)
           (placed (user_thread img h root proc_id entry_pc stack_top prio argc argv) s)).
Proof.
  intros I Hslot Hh. apply runs_bind. apply runs_new_slot; [done..|].
  assert (Hok : thread_ok (user_thread img h root proc_id entry_pc stack_top prio argc argv)).
  { split_and!; try done. cbn [t_prio user_thread]. unfold PRIO_LEVELS. lia. }
  apply (runs_place s (user_thread img h root proc_id entry_pc stack_top prio argc argv)); [done..|].
  split_and!; [done|by apply inv_spawned|done].
Qed.

(** ** Preemption *)

Lemma vlen_ctx_frame img c : vlen (ctx_frame img c) = FRAME_WORDS.
Proof. unfold ctx_frame. rewrite vlen_inserts, !vlen_vset. done. Qed.

(** The frame [on_tick] enters a thread with. *)
Definition entry_frame (img : Image) (t : Thread) : list N :=
  if t_frame_valid t then t_frame t else ctx_frame img (t_ctx t).
(** The interrupted thread, captured. *)
Definition captured (frame : list N) (t : Thread) : Thread :=
  set_t_state Ready (set_t_ctx_valid false (set_t_frame_valid true (set_t_frame frame t))).

Lemma runs_any_ready s h cur ls (Q : bool → Scheduler → Prop) :
  shape s → h < MAX_HARTS →
  (∀ b : bool, (b = false → ∀ l id, l ∈ ls → id ∈ rq s h l → id ≠ cur → preemptable (s_threads s) id = false) → Q b s) →
  runs (any_ready h cur ls) s Q.
Proof.
  intros Hs Hh HQ. destruct (row_of s h Hs Hh) as (row & E & _).
  apply runs_bind, runs_get. apply runs_bind. eapply runs_expect; [done|]. apply runs_ret, HQ.
  intros Hf l id Hl Hid Hne. apply not_true_iff_false. intros Hp. apply not_true_iff_false in Hf. apply Hf.
  apply existsb_exists. exists l. split; [by apply list_elem_of_In|]. apply existsb_exists. exists id.
  rewrite (rq_row _ _ _ _ E) in Hid. split; [by apply list_elem_of_In|].
  by rewrite Hp, (proj2 (N.eqb_neq id cur)).
Qed.

(** No other thread of a queue can be preempted to: none of its threads is eligible. *)
Lemma none_preemptable P s h l cur t :
  core P s → th s cur = Some t → t_state t ≠ Ready →
  (∀ id, id ∈ rq s h l → id ≠ cur → preemptable (s_threads s) id = false) → none_eligible s false (rq s h l).
Proof.
  intros C Ht Hst Hn id u Hid Hu. destruct (co_queued _ _ C h l id Hid) as (_ & v & Hv & Hr & _).
  assert (v = u) as -> by congruence. assert (Hne : id ≠ cur) by congruence.
  specialize (Hn id Hid Hne). unfold preemptable in Hn. rewrite Hu in Hn. unfold is_state in Hn.
  by rewrite bool_decide_eq_true_2 in Hn.
Qed.

(** Enter the thread that was picked: its context is expanded into a frame if need be,
    and its address space is switched to. *)
Lemma runs_enter img h next t s :
  sched_inv s → h < MAX_HARTS → th s next = Some t →
  runs (t ← thread next;
        (if t_frame_valid t then mret tt else expand_ctx_to_frame img next);;
        t ← thread next; switch_root h (t_root t);; mret (t_frame t)) s
    (λ f s', sched_inv s' ∧ f = entry_frame img t ∧ s_current s' = s_current s ∧
      vget (s_satp s') h = Some (satp_value (t_root t)) ∧
      ∃ t', th s' next = Some t' ∧ t_frame t' = entry_frame img t ∧ ∀ i, i ≠ next → th s' i = th s i).
Proof.
  intros I Hh Ht. set (t1 := set_t_woken false (set_t_ctx_valid false (set_t_frame_valid true
      (set_t_frame (ctx_frame img (t_ctx t)) t)))).
  assert (Hs : shape s) by (apply (co_shape _ _ (in_core _ I))).
  assert (Hsoft : soft t t1).
  { split_and!; try done. intros (? & ? & _ & ?). split_and!; try done. apply vlen_ctx_frame. }
  assert (Hfin : ∀ u s1, sched_inv s1 → th s1 next = Some u → t_root u = t_root t → t_frame u = entry_frame img t →
    s_current s1 = s_current s → (∀ i, i ≠ next → th s1 i = th s i) →
    runs (t ← thread next; switch_root h (t_root t);; mret (t_frame t)) s1
    (λ f s', sched_inv s' ∧ f = entry_frame img t ∧ s_current s' = s_current s ∧
      vget (s_satp s') h = Some (satp_value (t_root t)) ∧
      ∃ t', th s' next = Some t' ∧ t_frame t' = entry_frame img t ∧ ∀ i, i ≠ next → th s' i = th s i)).
  { intros u s1 I1 Hu Eroot Ef Ec Ho. pose proof (co_shape _ _ (in_core _ I1)) as Hs1.
    apply runs_bind. eapply runs_thread; [done|]. apply runs_bind. apply runs_switch_root; [done..|].
    apply runs_ret. split_and!; [by apply inv_satp|done|done| |by exists u].
    cbn [s_satp set_s_satp]. rewrite Eroot. apply vget_vset_eq. by rewrite (sh_satp _ Hs1). }
  apply runs_bind. eapply runs_thread; [done|]. unfold entry_frame in *.
  destruct (t_frame_valid t) eqn:Ev; apply runs_bind.
  - apply runs_ret. by eapply Hfin.
  - unfold expand_ctx_to_frame. eapply runs_upd; [done|]. cbv beta. fold t1.
    pose proof (th_with_t s next t1 t) as Hth. specialize (λ i, Hth i Ht).
    eapply (Hfin t1); [by eapply inv_soft|by rewrite Hth, decide_True|done..|].
    intros i Hi. by rewrite Hth, decide_False.
Qed.

(** The outcome of a timer tick on hart [h]. *)
Definition ticked (img : Image) (h cur : N) (t : Thread) (frame : list N) (s : Scheduler)
    (f : list N) (s' : Scheduler) : Prop :=
  f = frame ∧ vget (s_current s') h = Some cur ∧ (∀ i, i ≠ cur → th s' i = th s i) ∧
    (∀ l, l < eff_prio_of (s_donations s) t → none_eligible s false (rq s h l)) ∨
  ∃ next tn, next ≠ cur ∧ vget (s_current s') h = Some next ∧ th s next = Some tn ∧
    t_state tn = Ready ∧ t_hart tn = h ∧ eligible false tn = true ∧ f = entry_frame img tn ∧
    vget (s_satp s') h = Some (satp_value (t_root tn)) ∧
    th s' cur = Some (captured frame t) ∧ ∀ i, i ≠ cur → i ≠ next → th s' i = th s i.

Lemma preempt_inv img h cur t frame s :
  sched_inv s → h < MAX_HARTS → vget (s_current s) h = Some cur → th s cur = Some t →
  vlen frame = FRAME_WORDS →
  runs (preempt img h cur frame) s (λ f s', sched_inv s' ∧ ticked img h cur t frame s f s').
Proof.
  intros I Hh Hcur Ht Hf. pose proof (in_core _ I) as C.
  destruct (inv_cur s h I Hh) as (c & u & E1 & E2 & Hrun & Hht).
  assert (c = cur) as -> by congruence. assert (u = t) as -> by congruence.
  set (t1 := captured frame t). apply runs_bind. eapply runs_upd; [done|]. cbv beta. fold (captured frame t) t1.
  destruct (co_threads _ _ C cur t Ht) as (Hp1 & Hp2 & _ & Hp4).
  assert (C1 : core [cur] (with_t cur t1 s)).
  { apply (core_upd _ _ _ t); [set_solver|by eapply core_take; eauto|done|by split_and!|by split]. }
  pose proof (th_with_t s cur t1 t) as Hth1. specialize (λ i, Hth1 i Ht).
  set (s1 := with_t cur t1 s) in *.
  assert (Ht1 : th s1 cur = Some t1) by (by rewrite Hth1, decide_True).
  pose proof (core_enqueued [] s1 cur t1 C1 (not_elem_of_nil _) Ht1 eq_refl) as C2.
  pose proof (th_enqueued cur t1 s1) as Hth2. specialize (λ i, Hth2 i t1 Ht1).
  change (set_t_state Ready t1) with t1 in Hth2.
  apply runs_bind. eapply runs_enqueue; [exact C1|exact Ht1|].
  assert (Hth2' : ∀ i, th (enqueued cur t1 s1) i = if decide (i = cur) then Some t1 else th s i).
  { intros i. rewrite Hth2, Hth1. by case_decide. }
  destruct (leave_inv s (enqueued cur t1 s1) h cur t t1) as [V F]; try done.
  assert (Hq : cur ∈ rq (enqueued cur t1 s1) h (eff_prio_of (s_donations s1) t1)).
  { apply (rq_enqueued _ _ _ _ _ _ _ C1 Ht1). right. split_and!; [done|by rewrite <-Hht|done]. }
  assert (Hq' : ∀ l id, id ∈ rq s h l → id ∈ rq (enqueued cur t1 s1) h l).
  { intros l id Hid. apply (rq_enqueued _ _ _ _ _ _ _ C1 Ht1). by left. }
  destruct (co_idle _ _ C2 h Hh) as (b & _ & Eb & _). rewrite Eb in F.
  apply runs_bind. eapply runs_mono; [apply runs_conj; [apply (runs_dispatch h false); [done|done|congruence|right; left]|
    by apply (runs_pick_next [] _ h false b)]|].
  { exists (eff_prio_of (s_donations s1) t1), cur, t1. split_and!; [by eapply core_eff|done|by rewrite Hth2', decide_True|done]. }
  intros next s3 [(I3 & Es3 & tn & Htn & Hhn & Hel & Hth3) Hfirst].
  assert (Hel' : t_state tn = Ready ∧ eligible false tn = true).
  { destruct Hel as [?|(_ & _ & Hnone)]; [done|]. exfalso.
    specialize (Hnone _ (core_eff _ _ _ _ C1 Ht1) cur t1 Hq). rewrite Hth2', decide_True in Hnone by done.
    by specialize (Hnone eq_refl). }
  destruct (next =? cur) eqn:En; bool_to_prop.
  - subst next. rewrite vset_id in I3 by (by rewrite Es3). replace (set_s_current (s_current s3) s3) with s3 in I3 by (by destruct s3).
    assert (Ht3 : th s3 cur = Some (set_t_state Running t1)).
    { rewrite Hth3, decide_True by done. rewrite Hth2', decide_True in Htn by done. congruence. }
    apply runs_bind. eapply runs_remove_notin; [apply (in_core _ I3)|done| |].
    { intros l. eapply not_queued; [apply (in_core _ I3)|done|done]. }
    apply runs_bind. eapply runs_upd; [done|]. apply runs_ret. split.
    { apply (inv_soft s3 _ (set_t_state Running t1)); [done|by split_and!|done]. }
    left. split_and!; [done|by rewrite Es3|..].
    { intros i Hi. rewrite (th_with_t s3 cur _ _ i Ht3), decide_False, Hth3, decide_False, Hth2', decide_False by done. done. }
    intros l Hl id u Hid Hu. assert (Hne : id ≠ cur).
    { intros ->. by apply (not_queued _ _ _ _ C Ht ltac:(congruence) h l). }
    assert (Hu' : th (enqueued cur t1 s1) id = Some u) by (by rewrite Hth2', decide_False).
    destruct Hfirst as [(l0 & t0 & pre & post & _ & Eq & _ & _ & _ & Hlow & _)|(_ & _ & Hnone)].
    + assert (l0 = eff_prio_of (s_donations s1) t1) as ->.
      { apply (co_level _ _ C2 h _ _ cur); [rewrite Eq; set_solver|done]. }
      by apply (Hlow l Hl id u); [apply Hq'|].
    + apply (Hnone l (N.lt_trans _ _ _ Hl (core_eff _ _ _ _ C Ht)) id u); [by apply Hq'|done].
  - apply runs_bind, runs_modify. set (s4 := set_s_current _ s3) in *.
    assert (Ht4 : th s4 next = Some (set_t_state Running tn)).
    { transitivity (th s3 next); [done|]. by rewrite Hth3, decide_True. }
    eapply runs_mono; [by apply (runs_enter img h next (set_t_state Running tn))|].
    intros f s5 (I5 & -> & Ec5 & Esatp & t5 & Ht5 & _ & Ho5). split; [done|]. right.
    rewrite Hth2', decide_False in Htn by done.
    assert (Hlen : h < vlen (s_current s3)).
    { rewrite Es3. cbn. by rewrite (sh_current _ (co_shape _ _ C)). }
    destruct Hel' as [Hready Hel'].
    exists next, tn. split_and!; try done.
    + rewrite Ec5. cbn. by apply vget_vset_eq.
    + rewrite Ho5 by done. transitivity (th s3 cur); [done|]. by rewrite Hth3, decide_False, Hth2', decide_True.
    + intros i Hi Hi'. rewrite Ho5 by done. transitivity (th s3 i); [done|].
      by rewrite Hth3, decide_False, Hth2', decide_False.
Qed.

Lemma inv_ticks s h n : sched_inv s → sched_inv (set_s_ticks_run (vset (s_ticks_run s) h n) s).
Proof. intros I. apply (inv_outer s); try done. pose proof (in_core _ I) as C. core_frame_from C. Qed.

Lemma on_tick_inv img h cur t frame s :
  sched_inv s → h < MAX_HARTS → vget (s_current s) h = Some cur → th s cur = Some t →
  vlen frame = FRAME_WORDS →
  runs (on_tick img h frame) s (λ f s', sched_inv s' ∧ ticked img h cur t frame s f s').
Proof.
  intros I Hh Hcur Ht Hf. pose proof (co_shape _ _ (in_core _ I)) as Hs.
  destruct (vget_lt_Some (s_ticks_run s) h) as [n Hn]; [by rewrite (sh_ticks _ Hs)|].
  apply runs_bind, runs_get. apply runs_bind. eapply runs_expect; [done|]. cbv zeta.
  apply runs_bind, runs_set_ticks. set (s1 := set_s_ticks_run _ s).
  assert (I1 : sched_inv s1) by (by apply inv_ticks). pose proof (co_shape _ _ (in_core _ I1)) as Hs1.
  apply runs_bind. eapply runs_current; [exact Hcur|].
  destruct (inv_cur s h I Hh) as (c & u & Ec & Ec' & Hrun & _).
  assert (c = cur) as -> by congruence. assert (u = t) as -> by congruence.
  pose proof (core_eff _ _ _ _ (in_core _ I) Ht) as Hlev.
  assert (Hnr : t_state t ≠ Ready) by congruence.
  assert (Hstay : ∀ s2 (ls : list N), sched_inv s2 → s_current s2 = s_current s → s_threads s2 = s_threads s →
    (∀ l, l < eff_prio_of (s_donations s) t → l ∈ ls) →
    (∀ l id, l ∈ ls → id ∈ rq s h l → id ≠ cur → preemptable (s_threads s) id = false) →
    runs (mret frame : MS (list N)) s2 (λ f s', sched_inv s' ∧ ticked img h cur t frame s f s')).
  { intros s2 ls I2 Ec2 Et Hls Hnp. apply runs_ret. split; [done|]. left. rewrite Ec2, Et. split_and!; try done.
    intros l Hl. eapply none_preemptable; [apply (in_core _ I)|done..|]. intros id. by apply Hnp, Hls. }
  assert (Hgo : ∀ go : bool, (go = false → ∀ l id, l ∈ nrange 0 (N.to_nat (eff_prio_of (s_donations s) t)) →
      id ∈ rq s h l → id ≠ cur → preemptable (s_threads s) id = false) → runs (if negb go then mret frame
      else set_ticks h 0;; has_other ← any_ready h cur (nrange 0 (N.to_nat PRIO_LEVELS));
           if negb has_other then mret frame else preempt img h cur frame) s1
    (λ f s', sched_inv s' ∧ ticked img h cur t frame s f s')).
  { intros [|] Hnp; cbn [negb].
    2: { eapply Hstay; [done..| |by apply Hnp]. intros l Hl. apply elem_of_nrange. lia. }
    apply runs_bind, runs_set_ticks.
    assert (I2 : sched_inv (set_s_ticks_run (vset (s_ticks_run s1) h 0) s1)) by (by apply inv_ticks).
    apply runs_bind, runs_any_ready; [apply (co_shape _ _ (in_core _ I2))|done|].
    intros [|] Hb; cbn [negb].
    2: { eapply Hstay; [done..| |by apply Hb]. intros l Hl. apply elem_of_nrange. unfold PRIO_LEVELS in *. lia. }
    eapply runs_mono; [by eapply preempt_inv|]. intros f s' [I' T]. split; [done|]. exact T. }
  apply runs_bind. destruct (wrapping_add n 1 <? SLICE_TICKS).
  - apply runs_bind. eapply runs_eff_prio; [exact Ht|]. change (s_donations s1) with (s_donations s).
    case_match eqn:E0; [|apply runs_any_ready; [done..|]; intros b Hb; by apply Hgo].
    apply runs_ret, (Hgo false). intros _ l id Hl. apply elem_of_nrange in Hl. bool_to_prop. lia.
  - by apply runs_ret, (Hgo true).
Qed.

(** [force_kill_current], when the idle thread of the hart can be entered from a trap. *)
Definition idle_enterable (s : Scheduler) (h : N) : Prop :=
  ∃ b t, vget (s_idle s) h = Some b ∧ th s b = Some t ∧ (t_state t = Running ∨ eligible false t = true).

Lemma force_kill_current_inv img h cur frame s :
  sched_inv s → h < MAX_HARTS → vget (s_current s) h = Some cur →
  vget (s_idle s) h ≠ Some cur → idle_enterable s h →
  runs (force_kill_current img h frame) s (λ f s', sched_inv s' ∧
    (f = frame ∧ s' = s ∨
     ∃ next tn u, next ≠ cur ∧ th s next = Some tn ∧ (t_state tn = Ready ∨ t_state tn = Running) ∧
       vget (s_current s') h = Some next ∧ th s' cur = Some u ∧ t_state u = Exited ∧
       ∀ i, i ≠ cur → i ≠ next → th s' i = th s i)).
Proof.
  intros I Hh Hcur Hni (b & tb & Eb & Etb & Hb).
  destruct (inv_cur s h I Hh) as (c & t & E1 & Ht & Hrun & Hht). assert (c = cur) as -> by congruence.
  pose proof (co_shape _ _ (in_core _ I)) as Hs.
  assert (Hlt : cur < vlen (s_kill_request s)).
  { rewrite (sh_kill _ Hs). pose proof (sh_threads _ Hs). apply vget_Some_lt in Ht. lia. }
  destruct (vget_lt_Some _ _ Hlt) as [req Hreq].
  apply runs_bind. eapply runs_current; [done|]. apply runs_bind, runs_get.
  apply runs_bind. eapply runs_expect; [done|]. destruct req; cbn [negb]; [|by apply runs_ret; auto].
  apply runs_bind. eapply runs_take_stack; [done|].
  pose proof (inv_stackless s cur t I Ht) as I1. pose proof (th_stackless s cur t) as Hth1. specialize (λ i, Hth1 i Ht).
  assert (Ec1 : s_current (stackless cur t s) = s_current s) by (unfold stackless; by destruct (t_stack t)).
  assert (Ei1 : s_idle (stackless cur t s) = s_idle s) by (unfold stackless; by destruct (t_stack t)).
  assert (Ek1 : s_kill_request (stackless cur t s) = s_kill_request s) by (unfold stackless; by destruct (t_stack t)).
  set (s1 := stackless cur t s) in *. set (t1 := set_t_stack None t) in *.
  assert (Ht1 : th s1 cur = Some t1) by (by rewrite Hth1, decide_True).
  assert (Hidle : ¬ is_idle s1 cur).
  { intros [h' Hi]. pose proof (idle_unique s1 cur t1 h' (in_core _ I1) Ht1 Hi) as E. cbn in E. congruence. }
  apply runs_bind. eapply runs_upd; [done|]. cbv beta. set (t2 := set_t_woken false _).
  assert (C2 : core [cur] (with_t cur t2 s1)).
  { apply (core_upd _ _ _ t1); [set_solver| |done| |by split].
    - eapply core_take; [apply (in_core _ I1)|exact Ht1|by left].
    - exact (co_threads _ _ (in_core _ I1) cur t1 Ht1). }
  pose proof (th_with_t s1 cur t2 t1) as Hth2. specialize (λ i, Hth2 i Ht1).
  set (s2 := with_t cur t2 s1) in *.
  assert (C3 : core [] (set_s_free_slots (s_free_slots s2 ++ [cur]) s2)).
  { apply (core_put_exited s2 cur t2); [exact C2| |done|done]. by rewrite Hth2, decide_True. }
  apply runs_bind, runs_modify. set (s3 := set_s_free_slots _ s2) in *.
  apply runs_bind. unfold set_kill. apply runs_bind, runs_get. apply runs_bind.
  eapply runs_expect; [rewrite <-Hreq; cbn; by rewrite Ek1|]. apply runs_modify.
  set (s4 := set_s_kill_request _ s3). assert (C4 : core [] s4) by (core_frame_from C3).
  apply runs_bind, runs_set_ticks. set (s5 := set_s_ticks_run _ s4).
  assert (C5 : core [] s5) by (core_frame_from C4).
  destruct (leave_inv s1 s5 h cur t1 t2) as [V F]; try done; [by rewrite Ec1|].
  assert (Hbne : b ≠ cur) by congruence.
  assert (Etb5 : th s5 b = Some tb).
  { transitivity (th s2 b); [done|]. by rewrite Hth2, decide_False, Hth1, decide_False. }
  assert (Hib5 : vget (s_idle s5) h = Some b) by (transitivity (vget (s_idle s1) h); [done|by rewrite Ei1]).
  apply runs_bind. eapply runs_mono; [apply (runs_dispatch h false); [done..|right]|].
  { destruct (co_idle _ _ C5 h Hh) as (b' & tb' & Eb' & Etb' & Hhb & _ & Hsb).
    assert (b' = b) as -> by congruence. assert (tb' = tb) as -> by congruence.
    destruct Hb as [Hb|Hb]; [right; by exists b, tb|].
    destruct (Hsb (not_elem_of_nil _)) as [Hr|Hr]; [left|right; by exists b, tb].
    destruct (co_ready _ _ C5 b tb) as (l & Hl & Hq); [notin|done..|]. rewrite Hhb in Hq. by exists l, b, tb. }
  assert (Hth5 : ∀ i, th s5 i = if decide (i = cur) then Some t2 else th s i).
  { intros i. transitivity (th s2 i); [done|]. rewrite Hth2. case_decide; [done|]. by rewrite Hth1, decide_False. }
  intros next s6 (I6 & Es6 & tn & Htn & Hhn & Hst & Hth6). apply runs_bind, runs_modify.
  assert (Hne : next ≠ cur).
  { intros ->. rewrite Hth5, decide_True in Htn by done. injection Htn as <-. by destruct Hst as [[? _]|[? _]]. }
  eapply runs_mono; [apply (runs_enter img h next (set_t_state Running tn)); [done..|]|].
  - transitivity (th s6 next); [done|]. by rewrite Hth6, decide_True.
  - intros f s' (I' & _ & Ec' & _ & t' & _ & _ & Ho). split; [done|]. right. exists next, tn, t2.
    rewrite Hth5, decide_False in Htn by done. split_and!; try done.
    + destruct Hst as [[? _]|[? _]]; auto.
    + rewrite Ec'. apply vget_vset_eq.
      assert (E6 : s_current s6 = s_current s5) by (by rewrite Es6). rewrite E6, (sh_current _ (co_shape _ _ C5)). done.
    + rewrite Ho by done. transitivity (th s6 cur); [done|]. by rewrite Hth6, decide_False, Hth5, decide_True.
    + intros i Hi Hin. rewrite Ho by done. transitivity (th s6 i); [done|]. by rewrite Hth6, decide_False, Hth5, decide_False.
Qed.

(** [secondary_idle]. *)
Lemma secondary_idle_inv s h :
  sched_inv s → h < MAX_HARTS → vget (s_current s) h = vget (s_idle s) h →
  runs (secondary_idle_locked h) s (λ o s', sched_inv s').
Proof.
  intros I Hh E. destruct (inv_cur s h I Hh) as (cur & t & Ecur & Ht & Hrun & Hht).
  apply runs_bind. eapply runs_current; [done|]. apply runs_bind, runs_set_ticks.
  assert (I1 : sched_inv (set_s_ticks_run (vset (s_ticks_run s) h 0) s)) by (by apply inv_ticks).
  set (s1 := set_s_ticks_run _ s) in *. assert (V : vacant h s1) by (by apply vacant_idle).
  assert (F : fallback s1 h = vget (s_idle s1) h).
  { transitivity (fallback s h); [done|]. unfold fallback. rewrite Ecur. cbn [mbind option_bind]. rewrite Ht.
    cbn [mbind option_bind]. unfold is_state. rewrite bool_decide_eq_true_2 by done.
    transitivity (vget (s_current s) h); [by rewrite Ecur|done]. }
  apply runs_bind. eapply runs_mono; [apply (runs_dispatch h true); by eauto|].
  intros next s2 (I2 & Es2 & tn & Htn & _ & _ & Hth2).
  destruct (next =? cur) eqn:En; bool_to_prop; [|apply runs_bind, runs_modify].
  - apply runs_ret. subst next. rewrite vset_id in I2 by (by rewrite Es2).
    by replace (set_s_current (s_current s2) s2) with s2 in I2 by (by destruct s2).
  - apply runs_bind. unfold switch_target. apply runs_bind. eapply (runs_thread _ _ (set_t_state Running tn)).
    { transitivity (th s2 next); [done|]. by rewrite Hth2, decide_True. }
    apply runs_bind. eapply (runs_thread _ _ t).
    { transitivity (th s2 cur); [done|]. by rewrite Hth2, decide_False. }
    apply runs_ret. by apply runs_ret.
Qed.

(** ** Migration *)

Lemma filter_notin (id : N) (q : list N) : id ∉ q → filter (λ i, negb (i =? id)) q = q.
Proof.
  induction q as [|x q IH]; intros H; [done|]. apply not_elem_of_cons in H as [H1 H2].
  rewrite filter_cons_True by (by rewrite (proj2 (N.eqb_neq x id))). by rewrite IH.
Qed.

Lemma remove_first_filter (id : N) q : NoDup q → id ∈ q → remove_first id q = Some (filter (λ i, negb (i =? id)) q).
Proof.
  induction q as [|x q IH]; intros Hnd Hin; [by apply elem_of_nil in Hin|].
  apply NoDup_cons in Hnd as [Hx Hnd]. cbn [remove_first]. destruct (x =? id) eqn:E; bool_to_prop.
  - subst x. rewrite filter_cons_False by (rewrite N.eqb_refl; by intros []). by rewrite filter_notin.
  - apply elem_of_cons in Hin as [->|Hin]; [done|]. rewrite IH by done.
    by rewrite filter_cons_True by (by rewrite (proj2 (N.eqb_neq x id))).
Qed.

Lemma remove_row_filter (id : N) row :
  NoDup (concat row) → remove_from_row id row = map (filter (λ i, negb (i =? id))) row.
Proof.
  induction row as [|q row IH]; intros Hnd; cbn [remove_from_row map]; [done|].
  cbn [concat] in Hnd. apply NoDup_app in Hnd as (Hq & Hd & Hr). destruct (decide (id ∈ q)) as [Hin|Hin].
  - rewrite remove_first_filter by done. f_equal. specialize (Hd id Hin).
    symmetry. rewrite <-(map_id row) at 2. apply map_ext_in. intros q' Hq'. apply filter_notin.
    intros Hin'. apply Hd. apply list_elem_of_In, in_concat. exists q'. split; [done|by apply list_elem_of_In].
  - rewrite remove_first_notin by done. rewrite filter_notin by done. by rewrite IH.
Qed.

Lemma runs_remove_ready s id t (Q : () → Scheduler → Prop) :
  core [] s → th s id = Some t → Q tt (keep_queued (λ i, i =? id) s) → runs (remove_from_ready id) s Q.
Proof.
  intros C Ht HQ. pose proof (co_shape _ _ C) as Hs.
  destruct (row_of s (t_hart t) Hs) as (row & E & Hr); [by apply (co_threads _ _ C id)|].
  apply runs_bind. eapply runs_thread; [done|]. apply runs_bind, runs_get.
  apply runs_bind. eapply runs_expect; [done|]. apply runs_modify.
  assert (Hnd : NoDup (concat row)).
  { apply NoDup_concat.
    - intros j q Hj. pose proof (co_nodup _ _ C (t_hart t) (N.of_nat j)) as H.
      by rewrite (rq_row _ _ _ _ E), vget_lookup, Nat2N.id, Hj in H.
    - intros j1 j2 q1 q2 x H1 H2 Hx1 Hx2. apply Nat2N.inj. apply (co_level _ _ C (t_hart t) _ _ x);
        rewrite (rq_row _ _ _ _ E), vget_lookup, Nat2N.id; [by rewrite H1|by rewrite H2]. }
  rewrite remove_row_filter by done.
  replace (vset (s_ready s) (t_hart t) _) with (map (map (filter (λ i, negb (i =? id)))) (s_ready s)); [done|].
  apply list_eq. intros j. rewrite list_lookup_fmap. rewrite <-(Nat2N.id j), <-!vget_lookup, vget_vset.
  case_decide as Ej.
  - destruct Ej as [<- _]. by rewrite E.
  - destruct (vget (s_ready s) (N.of_nat j)) as [row'|] eqn:Er; [|done]. cbn. f_equal.
    rewrite <-(map_id row') at 2. apply map_ext_in. intros q Hq. apply filter_notin. intros Hin.
    apply list_elem_of_In, list_elem_of_lookup in Hq as [k Hk].
    destruct (co_queued _ _ C (N.of_nat j) (N.of_nat k) id) as (_ & u & Hu & _ & Hh).
    + by rewrite (rq_row _ _ _ _ Er), vget_lookup, Nat2N.id, Hk.
    + apply Ej. split; [congruence|]. by eapply vget_Some_lt.
Qed.

(** A list without repetition that holds [id] and nothing else. *)
Lemma nodup_single (l : list N) id : NoDup l → id ∈ l → (∀ x, x ∈ l → x = id) → l = [id].
Proof.
  intros Hnd Hin Ho. destruct l as [|x l]; [by apply elem_of_nil in Hin|].
  assert (x = id) as -> by (apply Ho; set_solver). destruct l as [|y l]; [done|].
  assert (y = id) as -> by (apply Ho; set_solver). apply NoDup_cons in Hnd as [Hn _]. set_solver.
Qed.

Lemma core_dequeue s id t : core [] s → th s id = Some t → t_state t = Ready →
  core [id] (keep_queued (λ i, i =? id) s).
Proof.
  intros C Ht Hr. pose proof (core_keep (λ i, i =? id) s C) as Ck.
  destruct (co_ready _ _ C id t) as (l & Hl & Hq); [notin|done..|].
  rewrite (nodup_single _ id) in Ck; [done|by eapply NoDup_filter, NoDup_ready| |].
  - apply list_elem_of_filter. split; [by rewrite N.eqb_refl|]. apply elem_of_ready; [apply (co_shape _ _ C)|].
    exists (t_hart t), l. split_and!; [by apply (co_threads _ _ C id)|done|done].
  - intros x [Hx _]%list_elem_of_filter. apply Is_true_eq_true, N.eqb_eq in Hx. done.
Qed.

Lemma set_affinity_inv s id t hart :
  sched_inv s → th s id = Some t → t_state t = Ready ∨ t_state t = Blocked → ¬ is_idle s id →
  runs (set_affinity id hart) s (λ _ s', sched_inv s' ∧
    ∃ t', th s' id = Some t' ∧ t_hart t' = N.min hart (MAX_HARTS - 1) ∧ t_state t' = t_state t).
Proof.
  intros I Ht Hst Hni. pose proof (in_core _ I) as C. pose proof (co_threads _ _ C id t Ht) as (Hp1 & Hp2 & Hp3 & Hp4).
  apply runs_bind, runs_get. apply runs_bind, runs_assert; [by eapply N.ltb_lt, vget_Some_lt|]. cbv zeta.
  set (h := N.min hart (MAX_HARTS - 1)). assert (Hh : h < MAX_HARTS) by (unfold h, MAX_HARTS; lia).
  set (t1 := set_t_hart h t). assert (Hok : thread_ok t1) by (by split_and!).
  assert (Hcr : ∀ s', (∀ i, i ≠ id → th s' i = th s i) → s_current s' = s_current s → s_idle s' = s_idle s →
    (∃ t', th s' id = Some t' ∧ t_state t' ≠ Running) → core [] s' → sched_inv s').
  { intros s' Ho Ec Ei (t' & Ht' & Hnr) C'. destruct I as [_ Hc Hrn]. constructor; [done|..].
    - intros h' Hh'. apply (running_on_ext s); [done| |by apply Hc]. intros i u Hu Hru _. exists u.
      rewrite Ho; [done|]. intros ->. destruct Hst; congruence.
    - intros i u Hu Hru. destruct (decide (i = id)) as [->|Hne]; [congruence|].
      rewrite Ho in Hu by done. rewrite Ec, Ei. by apply Hrn. }
  apply runs_bind. eapply runs_thread; [done|]. destruct Hst as [Hst|Hst]; rewrite Hst.
  - destruct (t_hart t =? h) eqn:Eh; bool_to_prop; [apply runs_ret; split; [done|]; by exists t|].
    apply runs_bind. eapply runs_remove_ready; [done|done|].
    pose proof (core_dequeue s id t C Ht Hst) as C1. set (s1 := keep_queued _ s) in *.
    apply runs_bind. eapply (runs_upd _ _ t); [done|]. fold t1.
    assert (C2 : core [id] (with_t id t1 s1)) by (by apply (core_upd _ _ _ t); [set_solver|..]).
    pose proof (th_with_t s1 id t1 t) as Hth. specialize (λ i, Hth i Ht).
    assert (Ht2 : th (with_t id t1 s1) id = Some t1) by (by rewrite Hth, decide_True).
    eapply runs_enqueue; [exact C2|exact Ht2|].
    assert (Hr : resumable t1 = true) by (apply (co_resume _ _ C id t); [notin|done|by left]).
    pose proof (core_enqueued [] _ id t1 C2 (not_elem_of_nil _) Ht2 Hr) as C3.
    pose proof (th_enqueued id t1 (with_t id t1 s1)) as Hth3. specialize (λ i, Hth3 i t1 Ht2).
    split; [apply Hcr; try done|].
    + intros i Hi. by rewrite Hth3, decide_False, Hth, decide_False.
    + exists (set_t_state Ready t1). by rewrite Hth3, decide_True.
    + exists (set_t_state Ready t1). by rewrite Hth3, decide_True.
  - eapply runs_upd; [done|]. fold t1. pose proof (th_with_t s id t1 t) as Hth. specialize (λ i, Hth i Ht).
    assert (Ht2 : th (with_t id t1 s) id = Some t1) by (by rewrite Hth, decide_True).
    assert (C2 : core [id] (with_t id t1 s)).
    { apply (core_upd _ _ _ t); [set_solver|eapply core_take; eauto|done|done|done]. }
    split; [apply Hcr; try done|].
    + intros i Hi. by rewrite Hth, decide_False.
    + exists t1. split; [done|]. cbn. congruence.
    + eapply core_put_blocked; [exact C2|exact Ht2|done| |done]. apply (co_resume _ _ C id t); [notin|done|by right].
    + exists t1. by split_and!.
Qed.

(** ** Killing a process *)

Definition ready_in (s : Scheduler) (id : N) : bool :=
  match th s id with Some t => is_state Ready t | None => false end.

Lemma ready_in_spec s id t : th s id = Some t → ready_in s id = true ↔ t_state t = Ready.
Proof. intros Ht. unfold ready_in, is_state. rewrite Ht. apply bool_decide_eq_true. Qed.

Lemma stackless_fields id t s :
  s_current (stackless id t s) = s_current s ∧ s_idle (stackless id t s) = s_idle s ∧
  s_kill_request (stackless id t s) = s_kill_request s ∧ s_free_slots (stackless id t s) = s_free_slots s ∧
  s_donations (stackless id t s) = s_donations s.
Proof. unfold stackless. by destruct (t_stack t). Qed.

Lemma core_stackless P s id t : core P s → th s id = Some t → core P (stackless id t s).
Proof.
  intros C Ht. unfold stackless. destruct (t_stack t); [|done].
  assert (C1 : core P (with_t id (set_t_stack None t) s)) by (eapply core_soft; [done|by split_and!|done]).
  core_frame_from C1.
Qed.

(** A killed thread. *)
Definition killed (t : Thread) : Thread := set_t_ctx_valid false (set_t_frame_valid false (set_t_state Exited t)).

(** One victim that does not run. *)
Lemma runs_kill_one P s id t :
  core P s → th s id = Some t → ¬ is_idle s id → t_state t ≠ Exited → t_state t ≠ Running →
  (t_state t = Ready → id ∈ P) →
  runs (take_stack id;; upd_thread id killed;; free_slot id) s
    (λ _ s', core (filter (λ x, negb (x =? id)) P) s' ∧ s_current s' = s_current s ∧ s_idle s' = s_idle s ∧
      ∀ i, th s' i = if decide (i = id) then Some (killed (set_t_stack None t)) else th s i).
Proof.
  intros C Ht Hni Hx Hr HP. set (P' := filter (λ x, negb (x =? id)) P).
  assert (HP' : ∀ x, x ∈ P' ↔ x ∈ P ∧ x ≠ id).
  { intros x. unfold P'. rewrite list_elem_of_filter. split; intros [H1 H2].
    - split; [done|]. intros ->. by rewrite N.eqb_refl in H1.
    - split; [|done]. by rewrite (proj2 (N.eqb_neq x id)). }
  assert (C1 : core (id :: P') s).
  { destruct (decide (id ∈ P)) as [HinP|HnP].
    - apply (core_ext P); [|done]. intros x. rewrite elem_of_cons, HP'.
      destruct (decide (x = id)) as [->|]; tauto.
    - apply core_ext with (id :: P).
      + intros x. rewrite !elem_of_cons, HP'. destruct (decide (x = id)); tauto.
      + eapply core_take_from; [done..|]. right. destruct (t_state t) eqn:E; [|done..]. by destruct HnP; apply HP. }
  apply runs_bind. eapply runs_take_stack; [done|].
  pose proof (core_stackless _ s id t C1 Ht) as C2. pose proof (th_stackless s id t) as Hth1. specialize (λ i, Hth1 i Ht).
  pose proof (stackless_fields id t s) as (Ec & Ei & _). set (s1 := stackless id t s) in *.
  set (t1 := set_t_stack None t) in *. assert (Ht1 : th s1 id = Some t1) by (by rewrite Hth1, decide_True).
  apply runs_bind. eapply runs_upd; [done|].
  assert (Hni1 : ¬ is_idle s1 id) by (unfold is_idle in *; by rewrite Ei).
  assert (C3 : core (id :: P') (with_t id (killed t1) s1)).
  { apply (core_upd _ _ _ t1); [set_solver|done|done| |done]. exact (co_threads _ _ C2 id t1 Ht1). }
  pose proof (th_with_t s1 id (killed t1) t1) as Hth2. specialize (λ i, Hth2 i Ht1).
  apply runs_modify. split_and!; [|done..|].
  - apply (core_put_exited_from P' _ id (killed t1)); [exact C3| |by rewrite Hth2, decide_True|done|done].
    rewrite HP'. tauto.
  - intros i. etrans; [exact (Hth2 i)|]. case_decide; [done|]. by rewrite Hth1, decide_False.
Qed.

Lemma kill_victims_inv vs s :
  NoDup vs → core (filter (ready_in s) vs) s →
  (∀ id, id ∈ vs → ¬ is_idle s id ∧ ∃ t, th s id = Some t ∧ t_state t ≠ Exited) →
  runs (kill_victims vs) s (λ _ s', core [] s' ∧ s_current s' = s_current s ∧ s_idle s' = s_idle s ∧
    (∀ i t, th s i = Some t → (i ∉ vs) ∨ t_state t = Running → th s' i = Some t) ∧
    (∀ i t, th s i = Some t → i ∈ vs → t_state t ≠ Running → th s' i = Some (killed (set_t_stack None t))) ∧
    (∀ i, th s i = None → th s' i = None)).
Proof.
  revert s. induction vs as [|id vs IH]; intros s Hnd C Hv; cbn [kill_victims].
  { apply runs_ret. split_and!; try done. by intros i t _ ?%elem_of_nil. }
  apply NoDup_cons in Hnd as [Hid Hnd].
  destruct (Hv id) as (Hni & t & Ht & Hx); [set_solver|].
  assert (Hvs : ∀ i, i ∈ vs → i ∈ id :: vs) by (intros; by apply elem_of_cons; right).
  assert (Hne : ∀ i, i ∈ vs → i ≠ id) by (by intros i Hi ->).
  apply runs_bind. eapply runs_thread; [done|].
  unfold is_state. case_bool_decide as Hr.
  - rewrite filter_cons_False in C by (rewrite (not_true_is_false (ready_in s id)); [by intros []|]; rewrite (ready_in_spec _ _ _ Ht); congruence).
    pose proof (co_shape _ _ C) as Hs.
    assert (Hlt : id < vlen (s_kill_request s)).
    { rewrite (sh_kill _ Hs). pose proof (sh_threads _ Hs). apply vget_Some_lt in Ht. lia. }
    destruct (vget_lt_Some _ _ Hlt) as [b Hb].
    apply runs_bind. unfold set_kill. apply runs_bind, runs_get. apply runs_bind. eapply runs_expect; [done|].
    apply runs_modify. apply runs_bind. eapply runs_mono.
    { apply IH; [done|core_frame_from C|]. intros i Hi. by apply Hv, Hvs. }
    intros force s' (C' & Ec & Ei & H1 & H2 & H3). apply runs_ret. split_and!; try done.
    + intros i u Hu [Hn|Hru]; apply H1; try done; [|by right]. left. intros Hi. by apply Hn, Hvs.
    + intros i u Hu [->|Hi]%elem_of_cons Hru; [congruence|by apply H2].
  - assert (R := runs_kill_one _ s id t C Ht Hni Hx Hr).
    assert (Hcur : runs (take_stack id;; upd_thread id killed;; free_slot id) s
      (λ _ s', core (filter (ready_in s') vs) s' ∧ s_current s' = s_current s ∧ s_idle s' = s_idle s ∧
        ∀ i, th s' i = if decide (i = id) then Some (killed (set_t_stack None t)) else th s i)).
    { eapply runs_mono; [apply R|].
      - intros Hrd. apply list_elem_of_filter. split; [|set_solver]. by rewrite (proj2 (ready_in_spec _ _ _ Ht)).
      - intros _ s' (C' & Ec & Ei & Hth). split_and!; try done. revert C'. apply core_ext. intros x.
        assert (Hrx : x ∈ vs → ready_in s' x = ready_in s x).
        { intros Hxv. unfold ready_in. rewrite Hth, decide_False; [done|]. by apply Hne. }
        rewrite !list_elem_of_filter, elem_of_cons. split.
        + intros (Hnx & Hrd & [->|Hxv]); [by rewrite N.eqb_refl in Hnx|]. by rewrite Hrx.
        + intros (Hrd & Hxv). rewrite Hrx in Hrd by done. split_and!; [|done|by right].
          by rewrite (proj2 (N.eqb_neq x id)); [|apply Hne]. }
    destruct Hcur as ([] & s1 & E & C1 & Ec1 & Ei1 & Hth1).
    assert (IHs : runs (kill_victims vs) s1 (λ _ s', core [] s' ∧ s_current s' = s_current s1 ∧ s_idle s' = s_idle s1 ∧
      (∀ i t, th s1 i = Some t → (i ∉ vs) ∨ t_state t = Running → th s' i = Some t) ∧
      (∀ i t, th s1 i = Some t → i ∈ vs → t_state t ≠ Running → th s' i = Some (killed (set_t_stack None t))) ∧
      (∀ i, th s1 i = None → th s' i = None))).
    { apply IH; [done|done|]. intros i Hi. unfold is_idle. rewrite Ei1, Hth1, decide_False by (by apply Hne).
      by apply Hv, Hvs. }
    destruct IHs as (force & s' & E' & C' & Ec & Ei & H1 & H2 & H3). exists force, s'. split.
    { apply bind_ret_inv in E as ([] & s2 & E1 & E). apply bind_ret_inv in E as ([] & s3 & E2 & E3).
      rewrite (bind_ret _ _ _ _ _ E1), (bind_ret _ _ _ _ _ E2), (bind_ret _ _ _ _ _ E3). exact E'. }
    split_and!; [done|congruence|congruence|..].
    + intros i u Hu Hor. assert (Hi : i ≠ id).
      { intros ->. destruct Hor as [Hn|Hru]; [by apply Hn, elem_of_cons; left|congruence]. }
      apply H1; [by rewrite Hth1, decide_False|]. destruct Hor as [Hn|?]; [left|by right]. intros Hin. by apply Hn, Hvs.
    + intros i u Hu [->|Hi]%elem_of_cons Hru.
      * assert (u = t) as -> by congruence. apply H1; [by rewrite Hth1, decide_True|by left].
      * apply H2; [|done|done]. rewrite Hth1, decide_False; [done|by apply Hne].
    + intros i Hi. apply H3. rewrite Hth1, decide_False; [done|]. congruence.
Qed.
