(* ===== verification/SchedSteps.v ===== *)
(** * The scheduler as a transition system

    The remaining operations (killing a process, threads owned by a process, boot), and
    every operation together as the steps of one machine that keeps the invariant. *)

From Stdlib Require Import ZifyN ZifyNat.
From stdpp Require Import base gmap numbers functions list.
From S2P Require Import Prelude Sched SchedInv SchedOps.

(** ** [kill_process] under the lock *)

(** No thread of [pid] is an exited one whose slot is free already. *)
Definition none_exited (s : Scheduler) (pid : N) : Prop :=
  ∀ id t, th s id = Some t → t_proc t = Some pid → t_state t ≠ Exited.

Lemma elem_of_victims s pid cur id :
  shape s → id ∈ victims_of s pid cur ↔ (∃ t, th s id = Some t ∧ t_proc t = Some pid) ∧ id ≠ cur.
Proof.
  intros Hs. unfold victims_of. rewrite take_ge.
  - rewrite list_elem_of_filter, elem_of_nrange. split.
    + intros [H _]. apply Is_true_eq_true, andb_true_iff in H as [H1 H2].
      apply of_proc_true in H1. apply negb_true_iff, N.eqb_neq in H2. done.
    + intros [(t & Ht & Hp) Hne]. split.
      * rewrite (proj2 (of_proc_true _ _ _)) by eauto. by rewrite (proj2 (N.eqb_neq id cur)).
      * apply vget_Some_lt in Ht. unfold vlen in Ht. lia.
  - etrans; [apply length_filter|]. rewrite length_nrange. pose proof (sh_threads _ Hs). unfold vlen in *. lia.
Qed.

Lemma NoDup_victims s pid cur : NoDup (victims_of s pid cur).
Proof.
  unfold victims_of. eapply sublist_NoDup; [|apply sublist_take]. apply NoDup_filter, NoDup_nrange.
Qed.

Lemma length_victims s pid cur t :
  core [] s → th s cur = Some t → vlen (victims_of s pid cur) < MAX_THREADS.
Proof.
  intros C Ht. pose proof (co_shape _ _ C) as Hs.
  assert (Hsub : cur :: victims_of s pid cur ⊆ nrange 0 (length (s_threads s))).
  { intros i [->|Hi]%elem_of_cons; apply elem_of_nrange.
    - apply vget_Some_lt in Ht. unfold vlen in Ht. lia.
    - apply elem_of_victims in Hi as [(u & Hu & _) _]; [|done]. apply vget_Some_lt in Hu. unfold vlen in Hu. lia. }
  assert (Hnd : NoDup (cur :: victims_of s pid cur)).
  { constructor; [|apply NoDup_victims]. intros Hi. by apply elem_of_victims in Hi as [_ ?]. }
  pose proof (submseteq_length _ _ (NoDup_submseteq _ _ Hnd Hsub)) as Hl. rewrite length_nrange in Hl. cbn in Hl.
  pose proof (sh_threads _ Hs). unfold vlen in *. lia.
Qed.

Lemma kill_locked_inv s h pid cur t :
  sched_inv s → h < MAX_HARTS → vget (s_current s) h = Some cur → th s cur = Some t → none_exited s pid →
  runs (kill_locked h pid) s (λ r s', sched_inv s' ∧ s_current s' = s_current s ∧
    r.1 = bool_decide (t_proc t = Some pid) ∧
    ∀ i u, th s i = Some u →
      th s' i = Some (if decide (t_proc u = Some pid ∧ i ≠ cur ∧ t_state u ≠ Running)
                      then killed (set_t_stack None u) else u)).
Proof.
  intros I Hh Hcur Ht Hne. pose proof (in_core _ I) as C. pose proof (co_shape _ _ C) as Hs.
  apply runs_bind, runs_get. apply runs_bind. eapply runs_current; [done|].
  apply runs_bind. eapply runs_thread; [done|]. cbv zeta. set (vs := victims_of s pid cur).
  pose proof (λ id, elem_of_victims s pid cur id Hs) as Hvs. fold vs in Hvs.
  apply runs_bind, runs_modify.
  change (set_s_ready _ s) with (keep_queued (λ id, bool_decide (id ∈ vs)) s).
  pose proof (core_keep (λ id, bool_decide (id ∈ vs)) s C) as C1.
  set (s1 := keep_queued _ s) in *.
  assert (C1' : core (filter (ready_in s1) vs) s1).
  { revert C1. apply core_ext. intros x. rewrite !list_elem_of_filter, elem_of_ready by done.
    change (ready_in s1 x) with (ready_in s x). split.
    - intros (Hx%Is_true_eq_true%bool_decide_eq_true & h' & l' & _ & _ & Hq). split; [|done].
      destruct (co_queued _ _ C _ _ _ Hq) as (_ & u & Hu & Hr & _). by rewrite (proj2 (ready_in_spec _ _ _ Hu)).
    - intros (Hr & Hx). split; [by rewrite bool_decide_eq_true_2|].
      apply Hvs in Hx as [(u & Hu & _) _]. apply Is_true_eq_true, (ready_in_spec _ _ _ Hu) in Hr.
      destruct (co_ready _ _ C x u) as (l & Hl & Hq); [notin|done..|].
      exists (t_hart u), l. split_and!; [by apply (co_threads _ _ C x)|done|done]. }
  apply runs_bind. eapply runs_mono; [apply (kill_victims_inv vs s1); [apply NoDup_victims|done|]|].
  { intros id [(u & Hu & Hp) _]%Hvs. split.
    - intros [h' Hi]. pose proof (idle_unique s id u h' C Hu Hi) as Eh.
      destruct (co_idle _ _ C h') as (b & tb & Eb & Etb & _ & Hpb & _).
      { rewrite <-Eh. by apply (co_threads _ _ C id). }
      change (vget (s_idle s) h' = Some id) in Hi. congruence.
    - exists u. split; [done|]. by apply (Hne id). }
  intros force s2 (C2 & Ec2 & Ei2 & H1 & H2 & H3).
  apply runs_bind. eapply runs_mono; [by apply revoke_donations_for_proc_inv|]. intros _ s3 [C3 E3].
  apply runs_bind, runs_assert. { apply N.ltb_lt. by eapply length_victims. }
  apply runs_bind. eapply runs_mono; [by apply revoke_donations_of_inv|]. intros _ s4 [C4 E4].
  assert (Hth : ∀ i, th s4 i = th s2 i) by (intros i; by rewrite E4, E3).
  assert (Hsame : ∀ i u, th s i = Some u → t_state u = Running → th s4 i = Some u).
  { intros i u Hu Hr. rewrite Hth. apply H1; [done|by right]. }
  apply runs_ret. split_and!.
  - constructor; [done|..].
    + intros h' Hh'. apply (running_on_ext s); [rewrite E4, E3; cbn; by rewrite Ec2| |by apply (in_current _ I)].
      intros i u Hu Hr _. exists u. split_and!; [by apply Hsame|done..].
    + intros i u Hu Hr. assert (Hu' : th s i = Some u).
      { rewrite Hth in Hu. destruct (vget (s_threads s) i) as [v|] eqn:Ev.
        - destruct (decide (i ∈ vs ∧ t_state v ≠ Running)) as [[Hi Hnr]|Hd].
          + rewrite (H2 i v Ev Hi Hnr) in Hu. by injection Hu as <-.
          + rewrite (H1 i v Ev) in Hu; [done|]. destruct (decide (i ∈ vs)); [right|by left].
            destruct (decide (t_state v = Running)); [done|tauto].
        - by rewrite (H3 i Ev) in Hu. }
      rewrite E4, E3. cbn. rewrite Ec2, Ei2. by apply (in_running _ I).
  - rewrite E4, E3. cbn. by rewrite Ec2.
  - done.
  - intros i u Hu. rewrite Hth. case_decide as Hd.
    + destruct Hd as (Hp & Hic & Hr). apply H2; [done| |done]. apply Hvs. split; [by eauto|done].
    + apply H1; [done|]. destruct (decide (i ∈ vs)) as [Hi|]; [right|by left].
      apply Hvs in Hi as [(v & Hv & Hp) Hic]. assert (v = u) as -> by congruence.
      destruct (decide (t_state u = Running)); [done|]. by destruct Hd.
Qed.

(** ** Threads of a process, and the first run of a thread *)

Lemma spawn_owned_inv img h kroot stack entry prio proc_id s :
  sched_inv s → has_slot s → h < MAX_HARTS → stack_ok stack →
  runs (spawn_owned img h kroot stack entry prio proc_id) s (λ id s', id = slot_of s ∧ sched_inv s').
Proof.
  intros I Hslot Hh Hst. apply runs_bind. eapply runs_mono; [by apply spawn_inv|].
  intros id s1 (-> & I1 & ->). set (t := kernel_thread img h kroot stack entry prio) in *.
  assert (Ht : th (placed t s) (slot_of s) = Some t) by (by rewrite th_placed, decide_True).
  pose proof (th_enqueued (slot_of s) t (placed t s) (slot_of s) t Ht) as Ht1. rewrite decide_True in Ht1 by done.
  set (s1 := enqueued _ t (placed t s)) in *.
  assert (Hni : ¬ is_idle s1 (slot_of s)).
  { intros [h' Hi]. change (vget (s_idle s) h' = Some (slot_of s)) in Hi.
    assert (Hh' : h' < MAX_HARTS).
    { rewrite <-(sh_idle _ (co_shape _ _ (in_core _ I))). by eapply vget_Some_lt. }
    destruct (co_idle _ _ (in_core _ I) h' Hh') as (b & tb & Eb & Etb & _ & _ & Hb).
    assert (b = slot_of s) as -> by congruence. pose proof (slot_dead s tb I Etb).
    destruct (Hb (not_elem_of_nil _)); congruence. }
  apply runs_bind. eapply runs_upd; [exact Ht1|]. cbv beta.
  assert (I2 : sched_inv (with_t (slot_of s) (set_t_proc (Some proc_id) (set_t_state Ready t)) s1)).
  { eapply inv_change; [exact Ht1|done|done| |done]. eapply core_change; [exact Ht1|done..|apply (in_core _ I1)]. }
  set (s2 := with_t _ _ s1) in *. apply runs_bind, runs_get. apply runs_bind. case_match.
  - eapply runs_mono; [apply runs_requeue_same, (in_core _ I2)|]. intros _ s3 [C3 E3]. apply runs_ret.
    split; [done|]. by eapply inv_after_core, same_ready_outer.
  - apply runs_ret, runs_ret. done.
Qed.

Lemma thread_entry_inv s h :
  sched_inv s → h < MAX_HARTS → runs (thread_entry_prologue h) s (λ _ s', sched_inv s').
Proof.
  intros I Hh. destruct (inv_cur s h I Hh) as (cur & t & E1 & Ht & Hrun & Hht).
  pose proof (in_core _ I) as C. pose proof (th_with_t s cur (set_t_frame_valid false t) t) as Hth.
  specialize (λ i, Hth i Ht).
  apply runs_bind. eapply runs_current; [done|]. apply runs_bind. eapply runs_upd; [done|].
  apply runs_bind. eapply runs_thread; [by rewrite Hth, decide_True|]. apply runs_ret.
  eapply inv_change; [exact Ht|done|done| |done].
  eapply (core_put_running _ cur (set_t_frame_valid false t)); [|by rewrite Hth, decide_True|done].
  apply (core_upd _ _ _ t); [set_solver|by eapply core_take; eauto|done| |done].
  exact (co_threads _ _ C cur t Ht).
Qed.

Lemma inv_remote s h v : sched_inv s → sched_inv (set_s_remote_req (vset (s_remote_req s) h v) s).
Proof. intros I. apply (inv_outer s); try done. pose proof (in_core _ I) as C. core_frame_from C. Qed.

Lemma send_remote_req_inv s h bits :
  sched_inv s → h < MAX_HARTS → runs (send_remote_req h bits) s (λ _ s', sched_inv s').
Proof.
  intros I Hh. destruct (vget_lt_Some (s_remote_req s) h) as [w Hw].
  { by rewrite (sh_remote _ (co_shape _ _ (in_core _ I))). }
  apply runs_bind, runs_get. apply runs_bind. eapply runs_expect; [done|]. apply runs_modify. by apply inv_remote.
Qed.

Lemma take_remote_request_inv s h :
  sched_inv s → h < MAX_HARTS → runs (take_remote_request h) s (λ _ s', sched_inv s').
Proof.
  intros I Hh. destruct (vget_lt_Some (s_remote_req s) h) as [w Hw].
  { by rewrite (sh_remote _ (co_shape _ _ (in_core _ I))). }
  apply runs_bind, runs_get. apply runs_bind. eapply runs_expect; [done|].
  apply runs_bind, runs_modify, runs_ret. by apply inv_remote.
Qed.

Lemma tlb_shootdown_inv s h cpus online :
  sched_inv s → runs (tlb_shootdown_remote h cpus online) s (λ _ s', sched_inv s').
Proof.
  intros I. eapply (runs_for_each sched_inv); [|done|done]. intros h' s1 Hin I1.
  case_match; [by apply runs_ret|]. apply send_remote_req_inv; [done|]. apply elem_of_nrange in Hin. lia.
Qed.

(** ** Boot *)

Definition idle_thread (img : Image) (kroot h stack : N) : Thread :=
  mkThread PRIO_LOW Running (mkCtx (idle_entry img) (sp_of stack) (replicate 12 0)) (idle_frame img)
    false true false None None None h kroot (idle_entry img) (Some stack).
Definition booted (img : Image) (kroot s0 s1 s2 s3 : N) : Scheduler :=
  mkSched [idle_thread img kroot 0 s0; idle_thread img kroot 1 s1; idle_thread img kroot 2 s2; idle_thread img kroot 3 s3]
    (replicate 4 (replicate 3 [])) [] [0; 1; 2; 3] [0; 1; 2; 3] [0; 0; 0; 0] [] []
    (replicate 64 false) [0; 0; 0; 0] [0; 0; 0; 0] 0.

Definition hart_added (img : Image) (kroot h stack : N) (s : Scheduler) : Scheduler :=
  mkSched (s_threads s ++ [idle_thread img kroot h stack]) (s_ready s) (s_donations s)
    (vset (s_current s) h (vlen (s_threads s))) (vset (s_idle s) h (vlen (s_threads s))) (s_ticks_run s)
    (s_free_slots s) (s_reaper s) (s_kill_request s) (s_remote_req s) (s_satp s) (s_kills s).

Lemma runs_init_hart img kroot h stack s (Q : () → Scheduler → Prop) :
  stack_ok stack → Q tt (hart_added img kroot h stack s) → runs (init_hart img kroot (h, stack)) s Q.
Proof.
  intros Hst HQ. apply runs_bind, runs_get. cbv zeta. apply runs_bind. apply runs_stack_sp; [done|].
  apply runs_bind, runs_modify, runs_bind, runs_modify, runs_modify. exact HQ.
Qed.

Lemma init_booted img kroot s0 s1 s2 s3 :
  stack_ok s0 → stack_ok s1 → stack_ok s2 → stack_ok s3 →
  init img kroot [s0; s1; s2; s3] sched0 = Ret (tt, booted img kroot s0 s1 s2 s3).
Proof.
  intros H0 H1 H2 H3.
  assert (R : runs (init img kroot [s0; s1; s2; s3]) sched0 (λ _ s, s = booted img kroot s0 s1 s2 s3)).
  { unfold init. change (zip _ _) with [(0, s0); (1, s1); (2, s2); (3, s3)]. cbn [for_each].
    do 4 (apply runs_bind; apply runs_init_hart; [done|]). by apply runs_ret. }
  by destruct R as ([] & s & E & ->).
Qed.

(** A property of every element of a list of four. *)
Lemma four_cases {A} (a b c d x : A) i : vget [a; b; c; d] i = Some x →
  (i = 0 ∧ x = a) ∨ (i = 1 ∧ x = b) ∨ (i = 2 ∧ x = c) ∨ (i = 3 ∧ x = d).
Proof.
  rewrite vget_lookup. assert (i = N.of_nat (N.to_nat i)) as Hi by lia. revert Hi.
  destruct (N.to_nat i) as [|[|[|[|n]]]]; cbn; intros -> [= <-]; eauto 6.
Qed.

Lemma booted_sched_inv img kroot s0 s1 s2 s3 : sched_inv (booted img kroot s0 s1 s2 s3).
Proof.
  assert (Hq : ∀ h l, rq (booted img kroot s0 s1 s2 s3) h l = []).
  { intros h l. unfold rq. cbn [s_ready booted]. rewrite vget_lookup.
    destruct (replicate 4 (replicate 3 []) !! N.to_nat h) as [row|] eqn:E; [|done]. cbn [mbind option_bind].
    apply lookup_replicate in E as [-> _]. rewrite vget_lookup.
    destruct (replicate 3 [] !! N.to_nat l) as [q|] eqn:E; [|done]. by apply lookup_replicate in E as [-> _]. }
  assert (Hth : ∀ i t, th (booted img kroot s0 s1 s2 s3) i = Some t →
    t_state t = Running ∧ t_hart t = i ∧ i < MAX_HARTS ∧ thread_ok t).
  { intros i t Hi. apply four_cases in Hi as [[-> ->]|[[-> ->]|[[-> ->]|[-> ->]]]]; by repeat split. }
  assert (Hidle : ∀ h, h < MAX_HARTS → ∃ t, vget [0; 1; 2; 3] h = Some h ∧
    th (booted img kroot s0 s1 s2 s3) h = Some t ∧ t_hart t = h ∧ t_proc t = None ∧ t_state t = Running).
  { intros h Hh. unfold MAX_HARTS in Hh. assert (h = 0 ∨ h = 1 ∨ h = 2 ∨ h = 3) as [->|[->|[->| ->]]] by lia;
      eexists; by repeat split. }
  constructor; [constructor|..].
  - constructor; try done. intros h row. rewrite vget_lookup. by intros [-> _]%lookup_replicate.
  - intros i t H. by apply (Hth i).
  - intros d H. by apply elem_of_nil in H.
  - intros h l i. rewrite Hq. by intros ?%elem_of_nil.
  - intros h l. rewrite Hq. constructor.
  - intros h l l' i. rewrite Hq. by intros ?%elem_of_nil.
  - intros i t _ H ?. destruct (Hth i t H) as [? _]. congruence.
  - intros i t _ H [?|?]; destruct (Hth i t H) as [? _]; congruence.
  - intros h Hh. destruct (Hidle h Hh) as (t & ? & ? & ? & ? & ?). exists h, t. split_and!; try done. by right.
  - intros i. split; [by intros ?%elem_of_nil|]. intros (_ & t & H & ?). destruct (Hth i t H) as [? _]. congruence.
  - constructor.
  - intros h Hh. destruct (Hidle h Hh) as (t & ? & ? & ? & ? & ?). by exists h, t.
  - intros i t H _. destruct (Hth i t H) as (_ & -> & Hi & _). left. by destruct (Hidle i Hi) as (? & ? & _).
Qed.

(** ** Complete switches *)

(** The hart left [cur], whose registers were [cpu], in the state [s] of the queues: it
    continues with the save area of its new current thread, under the root of that
    thread; the registers of [cur] are saved and no other save area changed. *)
Definition handed_over (h cur : N) (cpu : Context) (s : Scheduler) (r : Resume) (s' : Scheduler) : Prop :=
  ∃ next tn, vget (s_current s') h = Some next ∧ th s next = Some tn ∧ t_hart tn = h ∧
    (t_state tn = Ready ∧ eligible true tn = true ∨
     t_state tn = Running ∧ vget (s_idle s) h = Some next ∧
     ∀ l, l < PRIO_LEVELS → none_eligible s true (rq s h l)) ∧
    r = (if t_ctx_valid tn then RCtx (if decide (next = cur) then cpu else t_ctx tn)
         else RFrame (t_frame tn)) ∧
    vget (s_satp s') h = Some (satp_value (t_root tn)) ∧
    ∀ i u, th s i = Some u →
      let u' := if decide (i = next) then set_t_state Running u else u in
      th s' i = Some (if decide (i = cur) then set_t_ctx cpu u' else u').

Lemma runs_handed_over h cur tc cpu s st s' :
  switched h cur s st s' → h < MAX_HARTS → cpu_ok cpu → th s cur = Some tc →
  runs (do_switch h st cpu) s' (λ r s'', sched_inv s'' ∧ handed_over h cur cpu s r s'' ∧
    s_free_slots s'' = s_free_slots s').
Proof.
  destruct st as [old next uf root]. unfold switched. cbn [st_old st_new st_use_frame st_next_root].
  intros (I & -> & Ecu & Esa & _ & _ & Hso & tn & Htn & -> & -> & Hhn & Hel) Hh Hcpu Hc.
  pose proof (Hso _ _ Hc) as Hx. pose proof (Hso _ _ Htn) as Hy. rewrite decide_True in Hy by done.
  eapply runs_mono; [by eapply do_switch_inv|]. cbn [st_old st_new st_use_frame st_next_root].
  intros r s'' (I' & Hr & Hs). split_and!; [done| |by rewrite Hs].
  exists next, tn. split_and!; try done.
  - by rewrite Hs.
  - rewrite Hr. destruct (t_ctx_valid tn); cbn [negb]; done.
  - rewrite Hs. cbn [s_satp set_s_satp]. apply vget_vset_eq.
    by rewrite (sh_satp _ (co_shape _ _ (in_core _ I))).
  - intros i u Hu. rewrite Hs. cbn [s_threads set_s_satp]. rewrite (th_with_t s' cur _ _ i Hx).
    destruct (decide (i = cur)) as [E|E]; [|by apply Hso].
    subst i. by assert (u = tc) as -> by congruence.
Qed.

(** ** The calls of the scheduler *)
Inductive call :=
| CSpawn (h kroot stack entry prio : N)
| CSpawnUser (h root proc_id entry_pc stack_top prio argc argv : N)
| CSpawnOwned (h kroot stack entry prio proc_id : N)
| CThreadEntry (h : N)
| CYield (h : N) (cpu : Context)
| CBlock (h : N) (cpu : Context)
| CBlockResumed (h : N)
| CBlockUser (h : N) (frame : list N) (cpu : Context)
| CExit (h : N) (cpu : Context)
| CWake (id : N)
| CIpcMsg (tid : N) (msg : option (list N))
| CIpcErr (tid code : N)
| CDonate (donor peer : N)
| CTakeMsg (h : N)
| CTick (h : N) (frame : list N)
| CForceKill (h : N) (frame : list N)
| CAffinity (id hart : N)
| CSecondary (h : N)
| CKill (h pid : N)
| CSendRemote (h bits : N)
| CTakeRemote (h : N)
| CShootdown (h cpus online : N)
| CDrain.

Definition run_call (img : Image) (c : call) : MS () :=
  match c with
  | CSpawn h kroot stack entry prio => spawn img h kroot stack entry prio;; mret tt
  | CSpawnUser h root p pc sp prio argc argv => spawn_user img h root p pc sp prio argc argv;; mret tt
  | CSpawnOwned h kroot stack entry prio p => spawn_owned img h kroot stack entry prio p;; mret tt
  | CThreadEntry h => thread_entry_prologue h;; mret tt
  | CYield h cpu => yield_ h cpu;; mret tt
  | CBlock h cpu => block_current h cpu;; mret tt
  | CBlockResumed h => block_resumed h
  | CBlockUser h frame cpu => block_user_from_trap h frame cpu;; mret tt
  | CExit h cpu => exit h cpu;; mret tt
  | CWake id => wake id
  | CIpcMsg tid msg => ipc_wake_with_msg tid msg
  | CIpcErr tid code => ipc_wake_with_err tid code
  | CDonate donor peer => donate_on_block donor peer
  | CTakeMsg h => take_ipc_msg h;; mret tt
  | CTick h frame => on_tick img h frame;; mret tt
  | CForceKill h frame => force_kill_current img h frame;; mret tt
  | CAffinity id hart => set_affinity id hart
  | CSecondary h => secondary_idle_locked h;; mret tt
  | CKill h pid => kill_locked h pid;; mret tt
  | CSendRemote h bits => send_remote_req h bits
  | CTakeRemote h => take_remote_request h;; mret tt
  | CShootdown h cpus online => tlb_shootdown_remote h cpus online
  | CDrain => drain_reaper
  end.

(** The calling conventions of the source: a hart number below [MAX_HARTS]; room in the
    thread table; the idle thread never blocks, exits or migrates; [set_affinity] of a
    ready or blocked thread; trap frames and messages of their sizes; no killing of a
    process that has an exited thread; [force_kill_current] only where the idle thread
    can be entered from a trap. *)
Definition call_ok (s : Scheduler) (c : call) : Prop :=
  match c with
  | CSpawn h _ stack _ _ | CSpawnOwned h _ stack _ _ _ => h < MAX_HARTS ∧ has_slot s ∧ stack_ok stack
  | CSpawnUser h _ _ _ _ _ _ _ => h < MAX_HARTS ∧ has_slot s
  | CThreadEntry h | CBlockResumed h | CTakeMsg h | CTakeRemote h | CSendRemote h _ => h < MAX_HARTS
  | CYield h cpu => h < MAX_HARTS ∧ cpu_ok cpu
  | CBlock h cpu | CExit h cpu => h < MAX_HARTS ∧ cpu_ok cpu ∧ vget (s_current s) h ≠ vget (s_idle s) h
  | CBlockUser h frame cpu => h < MAX_HARTS ∧ cpu_ok cpu ∧ vget (s_current s) h ≠ vget (s_idle s) h ∧
      vlen frame = FRAME_WORDS ∧ (∃ pc, vget frame FRAME_SEPC = Some pc ∧ pc + 4 ≤ USIZE_MAX) ∧
      ∀ cur t m, vget (s_current s) h = Some cur → th s cur = Some t → t_ipc_wake t = Some (WMsg m) → msg_ok m
  | CWake _ | CShootdown _ _ _ | CDrain => True
  | CIpcMsg tid msg => (∃ t, th s tid = Some t ∧ pc_ok t) ∧ ∀ m, msg = Some m → msg_ok m
  | CIpcErr tid _ => ∃ t, th s tid = Some t ∧ pc_ok t
  | CDonate donor _ => donor < vlen (s_threads s)
  | CTick h frame => h < MAX_HARTS ∧ vlen frame = FRAME_WORDS
  | CForceKill h frame => h < MAX_HARTS ∧ vget (s_current s) h ≠ vget (s_idle s) h ∧ idle_enterable s h
  | CAffinity id _ => ∃ t, th s id = Some t ∧ (t_state t = Ready ∨ t_state t = Blocked) ∧ ¬ is_idle s id
  | CSecondary h => h < MAX_HARTS ∧ vget (s_current s) h = vget (s_idle s) h
  | CKill h pid => h < MAX_HARTS ∧ none_exited s pid
  end.

Lemma runs_drop {A} (m : MS A) s (P : Scheduler → Prop) :
  runs m s (λ _ s', P s') → runs (m;; mret tt) s (λ _ s', P s').
Proof. intros R. apply runs_bind. eapply runs_mono; [exact R|]. intros. by apply runs_ret. Qed.

(** The thread that yields is ready again, with its context. *)
Lemma yielding_thread h cur t s : th s cur = Some t →
  ∀ i, th (yielding h cur t s) i =
    if decide (i = cur) then Some (set_t_state Ready (set_t_ctx_valid true (set_t_frame_valid false t))) else th s i.
Proof.
  intros Ht i. set (t1 := set_t_ctx_valid true (set_t_frame_valid false t)).
  assert (Ht1 : th (set_s_reaper [] (with_t cur t1 s)) cur = Some t1)
    by (exact (vget_vset_eq _ _ _ (vget_Some_lt _ _ _ Ht))).
  etrans; [exact (th_enqueued cur t1 _ i t1 Ht1)|]. case_decide as Ei; [done|].
  exact (vget_vset_ne _ _ _ _ (not_eq_sym Ei)).
Qed.

Lemma yielding_eligible h cur t s :
  sched_inv s → h < MAX_HARTS → vget (s_current s) h = Some cur → th s cur = Some t →
  ¬ ∀ l, l < PRIO_LEVELS → none_eligible (yielding h cur t s) true (rq (yielding h cur t s) h l).
Proof.
  intros I Hh Hcur Ht Hn. destruct (inv_cur s h I Hh) as (c & u & E1 & E2 & Hrun & Hht).
  assert (c = cur) as -> by congruence. assert (u = t) as -> by congruence.
  set (t1 := set_t_ctx_valid true (set_t_frame_valid false t)) in *.
  set (s1 := set_s_reaper [] (with_t cur t1 s)).
  assert (Ht1 : th s1 cur = Some t1) by (exact (vget_vset_eq _ _ _ (vget_Some_lt _ _ _ Ht))).
  pose proof (in_core _ I) as C.
  assert (C1 : core [cur] s1).
  { assert (C0 : core [cur] (with_t cur t1 s)).
    { apply (core_upd _ _ _ t); [set_solver|by eapply core_take; eauto|done| |by split].
      exact (co_threads _ _ C cur t Ht). }
    core_frame_from C0. }
  pose proof (core_eff _ _ _ _ C1 Ht1) as Hl.
  specialize (Hn _ Hl cur (set_t_state Ready t1)).
  assert (Hq : cur ∈ rq (enqueued cur t1 s1) h (eff_prio_of (s_donations s1) t1)).
  { apply (rq_enqueued _ _ _ _ _ _ _ C1 Ht1). right. split_and!; [done|by rewrite <-Hht|done]. }
  specialize (Hn Hq). rewrite yielding_thread, decide_True in Hn by done. by specialize (Hn eq_refl).
Qed.

Lemma yield_inv s h cpu cur t :
  sched_inv s → h < MAX_HARTS → cpu_ok cpu → vget (s_current s) h = Some cur → th s cur = Some t →
  runs (yield_ h cpu) s (λ r s', sched_inv s' ∧ handed_over h cur cpu (yielding h cur t s) r s').
Proof.
  intros I Hh Hcpu Hcur Ht. apply runs_bind. eapply runs_mono; [by eapply yield_locked_inv|].
  intros st s1 Hsw. pose proof (yielding_thread h cur t s Ht cur) as Hy. rewrite decide_True in Hy by done.
  eapply runs_mono; [by eapply runs_handed_over|]. by intros r s2 (? & ? & _).
Qed.

Lemma block_inv s h cpu cur t :
  sched_inv s → h < MAX_HARTS → cpu_ok cpu → vget (s_current s) h = Some cur → th s cur = Some t →
  vget (s_idle s) h ≠ Some cur →
  runs (block_current h cpu) s (λ o s', sched_inv s' ∧
    match o with
    | None => (is_Some (t_ipc_wake t) ∨ t_woken t = true) ∧ vget (s_current s') h = Some cur
    | Some r => t_ipc_wake t = None ∧ t_woken t = false ∧
        handed_over h cur cpu (blocking h cur (ctx_blocked t) s) r s'
    end).
Proof.
  intros I Hh Hcpu Hcur Ht Hni. apply runs_bind. eapply runs_mono; [by eapply block_locked_inv|].
  intros [st|] s1; cbv beta iota.
  - intros (Ew & Ewo & Hsw). apply runs_bind.
    assert (Hb : th (blocking h cur (ctx_blocked t) s) cur = Some (ctx_blocked t))
      by (exact (vget_vset_eq _ _ _ (vget_Some_lt _ _ _ Ht))).
    eapply runs_mono; [by eapply runs_handed_over|]. intros r s2 (I2 & HO & _). by apply runs_ret.
  - intros (Hw & I1 & Ecu). by apply runs_ret.
Qed.

Lemma block_user_inv s h frame cpu cur t :
  sched_inv s → h < MAX_HARTS → cpu_ok cpu → vget (s_current s) h = Some cur → th s cur = Some t →
  vget (s_idle s) h ≠ Some cur → vlen frame = FRAME_WORDS →
  (∀ m, t_ipc_wake t = Some (WMsg m) → vlen m = MSG_WORDS) →
  (∃ pc, vget frame FRAME_SEPC = Some pc ∧ pc + 4 ≤ USIZE_MAX) →
  runs (block_user_from_trap h frame cpu) s (λ o s', sched_inv s' ∧
    match o with
    | inl f => (∃ w, t_ipc_wake t = Some w ∧ f = wake_frame w frame) ∧ vget (s_current s') h = Some cur ∧
        ∀ i, th s' i = if decide (i = cur) then Some (set_t_state Running (set_t_ipc_wake None t)) else th s i
    | inr r => t_ipc_wake t = None ∧ handed_over h cur cpu (blocking h cur (frame_blocked frame t) s) r s'
    end).
Proof.
  intros I Hh Hcpu Hcur Ht Hni Hf Hm Hpc. apply runs_bind. eapply runs_mono; [by eapply block_user_locked_inv|].
  intros [f|st] s1; cbv beta iota.
  - intros (Hw & I1 & Ecu). by apply runs_ret.
  - intros (Ew & Hsw). apply runs_bind.
    assert (Hb : th (blocking h cur (frame_blocked frame t) s) cur = Some (frame_blocked frame t))
      by (exact (vget_vset_eq _ _ _ (vget_Some_lt _ _ _ Ht))).
    eapply runs_mono; [by eapply runs_handed_over|]. intros r s2 (I2 & HO & _). by apply runs_ret.
Qed.

Lemma exit_inv s h cpu cur t :
  sched_inv s → h < MAX_HARTS → cpu_ok cpu → vget (s_current s) h = Some cur → th s cur = Some t →
  vget (s_idle s) h ≠ Some cur → runs (exit h cpu) s (λ _ s', sched_inv s' ∧
    (∃ t1, th s' cur = Some t1 ∧ t_state t1 = Exited ∧ t_ipc_wake t1 = t_ipc_wake t) ∧
    ∃ next, ∀ i u, i ≠ cur → th s i = Some u → (i = next → t_state u = Ready ∨ t_state u = Running) ∧
      th s' i = Some (if decide (i = next) then set_t_state Running u else u)).
Proof.
  intros I Hh Hcpu Hcur Ht Hni. apply runs_bind. eapply runs_mono; [by eapply exit_locked_inv|].
  intros st s1 (I1 & Eo & _ & _ & (t1 & t2 & H1 & H2 & H3 & _ & H4) & Hoth). rewrite <-Eo in H1.
  eapply runs_mono; [by eapply do_switch_inv|]. intros r s2 (I2 & _ & ->). split; [done|].
  assert (Hth : ∀ i, th (set_s_satp (vset (s_satp s1) h (satp_value (st_next_root st)))
      (with_t (st_old st) (set_t_ctx cpu t1) s1)) i = if decide (i = st_old st) then Some (set_t_ctx cpu t1) else th s1 i).
  { intros i. exact (th_with_t s1 (st_old st) (set_t_ctx cpu t1) t1 i H1). }
  split.
  - exists (set_t_ctx cpu t1). by rewrite Hth, <-Eo, decide_True.
  - exists (st_new st). intros i u Hne Hu. rewrite Hth, Eo, decide_False by done. by apply Hoth.
Qed.
