(* ===== verification/SchedProps.v ===== *)
(** * Properties of the scheduler

    Kernel/src/sched.rs: safety of every operation, the scheduling order, what a switch
    and a timer tick do to the save areas, waking and IPC delivery, priority
    inheritance, and three defects shown on concrete executions. *)

From Stdlib Require Import ZifyN ZifyNat.
From stdpp Require Import base gmap numbers functions list.
From S2P Require Import Prelude Sched SchedInv SchedOps SchedSteps.

(** ** Safety *)

Lemma call_inv img c s :
  sched_inv s → call_ok s c → runs (run_call img c) s (λ _ s', sched_inv s').
Proof.
  intros I Hok. assert (Hcur := λ h, inv_cur s h I).
  destruct c; cbn [run_call call_ok] in *.
  - destruct Hok as (? & ? & ?). apply runs_drop. eapply runs_mono; [by apply spawn_inv|]. naive_solver.
  - destruct Hok as (? & ?). apply runs_drop. eapply runs_mono; [by apply spawn_user_inv|]. naive_solver.
  - destruct Hok as (? & ? & ?). apply runs_drop. eapply runs_mono; [by apply spawn_owned_inv|]. naive_solver.
  - apply runs_drop. by apply thread_entry_inv.
  - destruct Hok as (Hh & ?). destruct (Hcur h Hh) as (cur & t & E & Ht & _).
    apply runs_drop. eapply runs_mono; [by eapply yield_inv|]. by intros ? ? [? _].
  - destruct Hok as (Hh & ? & ?). destruct (Hcur h Hh) as (cur & t & E & Ht & _).
    apply runs_drop. eapply runs_mono; [apply (block_inv s h cpu cur t); try done; congruence|]. by intros ? ? [? _].
  - eapply runs_mono; [by apply block_resumed_inv|]. by intros ? ? [? _].
  - destruct Hok as (Hh & ? & ? & ? & ? & Hm). destruct (Hcur h Hh) as (cur & t & E & Ht & _).
    apply runs_drop. eapply runs_mono; [apply (block_user_inv s h frame cpu cur t); try done;
      [congruence|intros m Hw; exact (Hm cur t m E Ht Hw)]|]. by intros ? ? [? _].
  - destruct Hok as (Hh & ? & ?). destruct (Hcur h Hh) as (cur & t & E & Ht & _).
    apply runs_drop. eapply runs_mono; [apply (exit_inv s h cpu cur t); try done; congruence|]. by intros ? ? [? _].
  - by apply wake_inv.
  - destruct Hok as ((t & Ht & ?) & ?). eapply runs_mono; [by eapply ipc_wake_with_msg_inv|]. by intros ? ? [? _].
  - destruct Hok as (t & Ht & ?). eapply runs_mono; [by eapply ipc_wake_with_err_inv|]. by intros ? ? [? _].
  - eapply runs_mono; [by apply donate_on_block_inv|]. by intros ? ? [? _].
  - apply runs_drop. by apply take_ipc_msg_inv.
  - destruct Hok as (Hh & ?). destruct (Hcur h Hh) as (cur & t & E & Ht & _).
    apply runs_drop. eapply runs_mono; [by eapply on_tick_inv|]. by intros ? ? [? _].
  - destruct Hok as (Hh & ? & ?). destruct (Hcur h Hh) as (cur & t & E & Ht & _).
    apply runs_drop. eapply runs_mono; [apply (force_kill_current_inv img h cur frame s); try done; congruence|]. by intros ? ? [? _].
  - destruct Hok as (t & Ht & ? & ?). eapply runs_mono; [by eapply set_affinity_inv|]. by intros ? ? [? _].
  - destruct Hok as (Hh & ?). apply runs_drop. by apply secondary_idle_inv.
  - destruct Hok as (Hh & ?). destruct (Hcur h Hh) as (cur & t & E & Ht & _).
    apply runs_drop. eapply runs_mono; [by eapply kill_locked_inv|]. by intros ? ? [? _].
  - by apply send_remote_req_inv.
  - apply runs_drop. by apply take_remote_request_inv.
  - by apply tlb_shootdown_inv.
  - apply runs_modify. apply (inv_outer s); try done. pose proof (in_core _ I) as C. core_frame_from C.
Qed.

(** The states the scheduler reaches from boot by calls that follow the conventions. *)
Inductive sched_reach (img : Image) : Scheduler → Prop :=
| reach_boot kroot s0 s1 s2 s3 s :
    stack_ok s0 → stack_ok s1 → stack_ok s2 → stack_ok s3 →
    init img kroot [s0; s1; s2; s3] sched0 = Ret (tt, s) → sched_reach img s
| reach_call s c s' :
    sched_reach img s → call_ok s c → run_call img c s = Ret (tt, s') → sched_reach img s'.

Lemma reach_inv img s : sched_reach img s → sched_inv s.
Proof.
  induction 1 as [kroot s0 s1 s2 s3 s H0 H1 H2 H3 E|s c s' _ I Hok E].
  - rewrite (init_booted img kroot s0 s1 s2 s3) in E by done. injection E as <-. apply booted_sched_inv.
  - destruct (call_inv img c s I Hok) as ([] & s1 & E1 & I1). rewrite E in E1. by injection E1 as <-.
Qed.


(** The machine of the witnesses: booted, with two kernel threads on hart 0. *)
Definition img0 : Image := mkImage 0x80201000 0x80202000 0x80203000 0x80300800.
Definition boot_state : Scheduler := booted img0 0x80400000 0x81000000 0x81010000 0x81020000 0x81030000.
Definition after (cs : list call) : Scheduler :=
  foldl (λ s c, match run_call img0 c s with Ret (_, s') => s' | _ => s end) boot_state cs.
Definition cpu0 : Context := mkCtx 0x80205000 0x81005000 (replicate 12 7).
Definition spawns : list call :=
  [CSpawn 0 0x80400000 0x81040000 0x80210000 PRIO_LOW; CSpawn 0 0x80400000 0x81050000 0x80220000 PRIO_HIGH].
Definition two_threads : Scheduler := after spawns.

Lemma boot_reached : sched_reach img0 boot_state.
Proof.
  apply (reach_boot img0 0x80400000 0x81000000 0x81010000 0x81020000 0x81030000); try (unfold stack_ok; vm_compute; discriminate).
  by apply init_booted; unfold stack_ok; vm_compute.
Qed.

Lemma reach_after cs c :
  sched_reach img0 (after cs) → call_ok (after cs) c → sched_reach img0 (after (cs ++ [c])).
Proof.
  intros R Hok. unfold after in *. rewrite foldl_app. cbn [foldl].
  destruct (call_inv img0 c _ (reach_inv _ _ R) Hok) as ([] & s' & E & _). rewrite E. by eapply reach_call.
Qed.

Ltac spawn_ok := cbn [call_ok]; split_and!; [done|right; by vm_compute|by unfold stack_ok; vm_compute].

Lemma spawns_reached : sched_reach img0 (after spawns).
Proof.
  apply (reach_after [_]); [apply (reach_after []); [exact boot_reached|spawn_ok]|spawn_ok].
Qed.

Lemma two_threads_reached : sched_reach img0 two_threads.
Proof. exact spawns_reached. Qed.


(** ** Scheduling order *)


Lemma two_threads_inv : sched_inv two_threads.
Proof. exact (reach_inv _ _ two_threads_reached). Qed.


(** ** Switching *)

(** What a suspended thread is resumed with: its cooperative context if that is current,
    its trap frame otherwise. *)
Definition saved (t : Thread) : option Resume :=
  if t_ctx_valid t then Some (RCtx (t_ctx t))
  else if t_frame_valid t then Some (RFrame (t_frame t)) else None.

(** [yield_] on a hart whose registers are [cpu] returns: the hart goes on with
    its new current thread, of its own hart, resumed from that thread's own save area (or
    from [cpu] if the thread that yields is chosen again) and under that thread's page
    table; the yielding thread's save area is [cpu], and no other thread's save area has
    changed. *)
Theorem yield_correct (s : Scheduler) (h cur : N) (t : Thread) (cpu : Context) :
  sched_inv s → h < MAX_HARTS → cpu_ok cpu → vget (s_current s) h = Some cur → th s cur = Some t →
  ∃ r s' next tn, yield_ h cpu s = Ret (r, s') ∧ sched_inv s' ∧
    vget (s_current s') h = Some next ∧ th s next = Some tn ∧ t_hart tn = h ∧
    Some r = (if decide (next = cur) then Some (RCtx cpu) else saved tn) ∧
    vget (s_satp s') h = Some (satp_value (t_root tn)) ∧
    (∃ t', th s' cur = Some t' ∧ saved t' = Some (RCtx cpu)) ∧
    (∀ i u, i ≠ cur → th s i = Some u → ∃ u', th s' i = Some u' ∧ saved u' = saved u).
Proof.
  intros I Hh Hcpu Hcur Ht.
  destruct (yield_inv s h cpu cur t I Hh Hcpu Hcur Ht) as (r & s' & E & I' & next & tn & Ecu & Htn & Hhn & Hel & Hr & Esa & Hth).
  pose proof (yielding_thread h cur t s Ht) as Hy.
  assert (Htn' : ∃ tn', th s next = Some tn' ∧ t_hart tn' = h ∧ t_root tn' = t_root tn ∧
    Some r = if decide (next = cur) then Some (RCtx cpu) else saved tn').
  { rewrite Hy in Htn. case_decide as En.
    - injection Htn as <-. exists t. subst next. split_and!; try done.
      rewrite Hr. cbn [t_ctx_valid set_t_state set_t_ctx_valid]. f_equal.
    - exists tn. split_and!; try done. rewrite Hr. unfold saved.
      destruct (t_ctx_valid tn) eqn:Ec; [done|].
      destruct Hel as [[Hst Hre]|(_ & _ & Hnone)].
      + cbn [eligible] in Hre. rewrite Ec in Hre. cbn in Hre. by rewrite Hre.
      + by destruct (yielding_eligible h cur t s I Hh Hcur Ht). }
  destruct Htn' as (tn' & Htn' & Hhn' & Hroot & Hr'). exists r, s', next, tn'. rewrite Hroot. split_and!; try done.
  - pose proof (Hy cur) as Hc. rewrite decide_True in Hc by done.
    specialize (Hth cur _ Hc). cbv zeta in Hth. rewrite (decide_True (P := cur = cur)) in Hth by done.
    eexists. split; [exact Hth|]. by destruct (decide (cur = next)).
  - intros i u Hne Hu. assert (Hi : th (yielding h cur t s) i = Some u) by (by rewrite Hy, decide_False).
    specialize (Hth i u Hi). cbv zeta in Hth. rewrite (decide_False (P := i = cur)) in Hth by done.
    eexists. split; [exact Hth|]. by destruct (decide (i = next)).
Qed.

Lemma yield_correct_witness :
  cpu_ok cpu0 ∧ ∃ r s' next, yield_ 0 cpu0 two_threads = Ret (r, s') ∧ vget (s_current s') 0 = Some next.
Proof.
  split; [done|].
  destruct (vget_lt_Some (s_threads two_threads) 0) as [t Ht]; [by vm_compute|].
  destruct (yield_correct two_threads 0 0 t cpu0 two_threads_inv ltac:(done) ltac:(done) ltac:(reflexivity) Ht)
    as (r & s' & next & tn & E & _ & En & _). exists r, s', next. by split.
Defined.

(** C33: A timer tick on hart [h] in the trap frame [frame] returns.  Either the hart
    stays with its current thread and that frame, and then no thread in a queue above the
    effective priority of the current thread can be preempted to; or it enters another
    ready thread of the hart, which can be preempted to, with that thread's captured
    frame or with its cooperative context expanded into a frame, under that thread's page
    table, and the interrupted thread's frame is captured.  No other thread is touched,
    and the invariant holds. *)
Theorem on_tick_correct (img : Image) (s : Scheduler) (h cur : N) (t : Thread) (frame : list N) :
  sched_inv s → h < MAX_HARTS → vget (s_current s) h = Some cur → th s cur = Some t →
  vlen frame = FRAME_WORDS →
  ∃ f s', on_tick img h frame s = Ret (f, s') ∧ sched_inv s' ∧
    ((f = frame ∧ vget (s_current s') h = Some cur ∧ (∀ i, i ≠ cur → th s' i = th s i) ∧
      (∀ l, l < eff_prio_of (s_donations s) t → none_eligible s false (rq s h l))) ∨
     (∃ next tn, next ≠ cur ∧ vget (s_current s') h = Some next ∧ th s next = Some tn ∧
        t_state tn = Ready ∧ t_hart tn = h ∧ eligible false tn = true ∧
        f = (if t_frame_valid tn then t_frame tn else ctx_frame img (t_ctx tn)) ∧
        vget (s_satp s') h = Some (satp_value (t_root tn)) ∧
        th s' cur = Some (captured frame t) ∧ (∀ i, i ≠ cur → i ≠ next → th s' i = th s i))).
Proof.
  intros I Hh Hcur Ht Hf. destruct (on_tick_inv img h cur t frame s I Hh Hcur Ht Hf) as (f & s' & E & I' & T).
  exists f, s'. split_and!; [done..|]. exact T.
Qed.

(** The idle thread of hart 0 is interrupted while a high-priority thread is ready. *)
Definition frame0 : list N := replicate 36 3.

Lemma on_tick_correct_witness :
  vlen frame0 = FRAME_WORDS ∧ ∃ f s', on_tick img0 0 frame0 two_threads = Ret (f, s') ∧ sched_inv s'.
Proof.
  split; [done|]. destruct (vget_lt_Some (s_threads two_threads) 0) as [t Ht]; [by vm_compute|].
  destruct (on_tick_correct img0 two_threads 0 0 t frame0 two_threads_inv ltac:(done) ltac:(reflexivity) Ht ltac:(done))
    as (f & s' & E & I' & _). exists f, s'. by split.
Defined.

(** ** Waking *)


(** Thread 5 of the witness machine runs on hart 0. *)
Definition five_running : Scheduler := after (spawns ++ [CYield 0 cpu0]).

Lemma yield_reached : sched_reach img0 (after (spawns ++ [CYield 0 cpu0])).
Proof. apply (reach_after spawns (CYield 0 cpu0)); [exact spawns_reached|by split]. Qed.
Lemma five_running_inv : sched_inv five_running.
Proof. exact (reach_inv _ _ yield_reached). Qed.


(** ** IPC delivery *)

Lemma msg_buf_id m : msg_ok m → msg_buf m = m.
Proof.
  unfold msg_ok, vlen, msg_buf. intros H. apply take_app_length'. lia.
Qed.

(** A blocked thread is not the one its hart runs, and keeps its save area. *)
Lemma blocked_saved h cur cpu s t1 r s' :
  handed_over h cur cpu s r s' → th s cur = Some t1 → t_state t1 = Blocked →
  th s' cur = Some (set_t_ctx cpu t1).
Proof.
  intros (next & tn & _ & Htn & _ & Hel & _ & _ & Hth) Ht1 Hb.
  specialize (Hth cur t1 Ht1). cbv zeta in Hth. rewrite (decide_True (P := cur = cur)) in Hth by done.
  rewrite decide_False in Hth; [done|]. intros E. rewrite <-E in Htn.
  assert (tn = t1) as -> by congruence. destruct Hel as [[? _]|[? _]]; congruence.
Qed.

(** A message reaches a user thread in the same way whether its peer answers
    before or after the thread blocks: a thread that blocks in [block_user_from_trap] and
    is then answered by [ipc_wake_with_msg] is ready, in a queue of its hart, and resumes
    with the trap frame [f] of its call in which [a0] is 0, [a1]..[a5] are the message and
    [sepc] is past the [ecall]; if the answer comes first, [block_user_from_trap] does not
    block and returns that very frame. *)
Theorem ipc_delivery_order (s : Scheduler) (h cur : N) (t : Thread) (f m : list N) (cpu : Context) (pc : N) :
  sched_inv s → h < MAX_HARTS → cpu_ok cpu → vget (s_current s) h = Some cur → th s cur = Some t →
  vget (s_idle s) h ≠ Some cur → t_ipc_wake t = None → vlen f = FRAME_WORDS → msg_ok m →
  vget f FRAME_SEPC = Some pc → pc + 4 ≤ USIZE_MAX → pc_ok t →
  let f' := vset (list_inserts (N.to_nat X_A1) m (vset f X_A0 0)) FRAME_SEPC (pc + 4) in
  (∃ r s1 s2 t2 l, block_user_from_trap h f cpu s = Ret (inr r, s1) ∧
     ipc_wake_with_msg cur (Some m) s1 = Ret (tt, s2) ∧ sched_inv s2 ∧
     th s2 cur = Some t2 ∧ t_state t2 = Ready ∧ saved t2 = Some (RFrame f') ∧ cur ∈ rq s2 h l) ∧
  (∃ s1 s2, ipc_wake_with_msg cur (Some m) s = Ret (tt, s1) ∧
     block_user_from_trap h f cpu s1 = Ret (inl f', s2) ∧ sched_inv s2 ∧
     vget (s_current s2) h = Some cur).
Proof.
  intros I Hh Hcpu Hcur Ht Hni Hw Hf Hm Hpc Hpc4 Hpct f'.
  destruct (inv_cur s h I Hh) as (c & u & E1 & E2 & Hrun & Hht).
  assert (c = cur) as -> by congruence. assert (u = t) as -> by congruence.
  assert (Hfr : reply_frame 0 m f = f').
  { unfold reply_frame. rewrite vget_inserts_ge, vget_vset_ne, Hpc; [done|done|].
    unfold msg_ok, vlen, MSG_WORDS in Hm. unfold X_A1, FRAME_SEPC. lia. }
  split.
  - destruct (block_user_inv s h f cpu cur t I Hh Hcpu Hcur Ht Hni Hf) as ([f1|r] & s1 & E & I1 & Hpost);
      [congruence|by eauto|..]. { destruct Hpost as ((w & ? & _) & _). congruence. }
    destruct Hpost as [_ HO]. set (tb := frame_blocked f t).
    assert (Hb : th (blocking h cur tb s) cur = Some tb) by (exact (vget_vset_eq _ _ _ (vget_Some_lt _ _ _ Ht))).
    pose proof (blocked_saved _ _ _ _ _ _ _ HO Hb eq_refl) as Ht1. set (t1 := set_t_ctx cpu tb) in *.
    destruct (ipc_wake_with_msg_inv s1 cur t1 (Some m) I1 Ht1) as ([] & s2 & E3 & I2 & Hs2).
    + by intros ? [= <-].
    + unfold pc_ok. change (t_frame t1) with f. by rewrite Hpc.
    + rewrite decide_True in Hs2 by done. cbn [from_option id fmap option_fmap option_map] in Hs2.
      set (t2 := delivered 0 m (Some (msg_buf m)) t1) in *. set (s1' := with_t cur t2 s1) in *.
      assert (Ht1' : th s1' cur = Some t2) by (unfold s1'; by rewrite (th_with_t s1 cur t2 t1 cur Ht1), decide_True).
      assert (Ht2 : th s2 cur = Some (set_t_state Ready t2)).
      { rewrite Hs2. etrans; [exact (th_enqueued cur t2 s1' cur t2 Ht1')|]. by rewrite decide_True. }
      destruct (co_ready _ _ (in_core _ I2) cur (set_t_state Ready t2)) as (l & _ & Hq); [notin|done..|].
      exists r, s1, s2, (set_t_state Ready t2), l. split_and!; try done.
      * unfold saved. cbn [t_ctx_valid set_t_state t2 delivered set_t_ipc_wake set_t_ipc_msg set_t_frame t1 tb
          frame_blocked set_t_ctx set_t_woken set_t_ctx_valid t_frame_valid set_t_frame_valid t_frame]. by rewrite Hfr.
      * by rewrite <-Hht.
  - destruct (ipc_wake_with_msg_inv s cur t (Some m) I Ht) as ([] & s1 & E3 & I1 & Hs1); [by intros ? [= <-]|done|].
    rewrite decide_False in Hs1 by congruence. cbn [from_option id] in Hs1. rewrite msg_buf_id in Hs1 by done.
    set (t1 := set_t_ipc_wake _ _) in Hs1.
    assert (Ht1 : th s1 cur = Some t1) by (by rewrite Hs1, (th_with_t s cur t1 t cur Ht), decide_True).
    destruct (block_user_inv s1 h f cpu cur t1 I1 Hh Hcpu) as ([f1|r] & s2 & E & I2 & Hpost);
      [by rewrite Hs1|done|by rewrite Hs1|done|by intros ? [= <-]|by eauto|..].
    + destruct Hpost as ((w & [= <-] & ->) & Ecu & _). exists s1, s2. cbn [wake_frame] in E. rewrite Hfr in E. by split_and!.
    + by destruct Hpost as [? _].
Qed.

(** A user thread of process 3, current on hart 0, in a system call. *)
Definition user_running : Scheduler :=
  after ([CSpawnUser 0 0x80500000 3 0x10000 0x3FFFF000 PRIO_HIGH 0 0] ++ [CYield 0 cpu0]).

Lemma user_running_inv : sched_inv user_running.
Proof.
  apply (reach_inv img0). unfold user_running. apply (reach_after [_] (CYield 0 cpu0)); [|by split].
  apply (reach_after [] (CSpawnUser 0 0x80500000 3 0x10000 0x3FFFF000 PRIO_HIGH 0 0)); [exact boot_reached|].
  split; [done|right; by vm_compute].
Qed.

Lemma ipc_delivery_order_witness :
  ∃ s1 s2 f, ipc_wake_with_msg 4 (Some [1; 2; 3; 4; 5]) user_running = Ret (tt, s1) ∧
    block_user_from_trap 0 frame0 cpu0 s1 = Ret (inl f, s2).
Proof.
  destruct (vget_lt_Some (s_threads user_running) 4) as [t Ht]; [by vm_compute|].
  assert (Hw : option_map t_ipc_wake (th user_running 4) = Some None) by (by vm_compute).
  assert (Hp : option_map (λ t, default 0 (vget (t_frame t) FRAME_SEPC)) (th user_running 4) = Some 0x10000) by (by vm_compute).
  rewrite Ht in Hw, Hp. injection Hw as Hw. injection Hp as Hp.
  destruct (ipc_delivery_order user_running 0 4 t frame0 [1; 2; 3; 4; 5] cpu0 3 user_running_inv) as [_ H];
    [reflexivity|reflexivity|by vm_compute|exact Ht|by vm_compute|exact Hw|reflexivity|reflexivity|reflexivity
    |by vm_compute|unfold pc_ok; by rewrite Hp|].
  destruct H as (s1 & s2 & H1 & H2 & _). eexists s1, s2, _. split; [exact H1|exact H2].
Defined.

(** ** Priority inheritance *)

(** The donor has an entry in the donation table, or the table has room for one. *)
Definition can_donate (s : Scheduler) (donor : N) : Prop :=
  (∃ d, d ∈ s_donations s ∧ d_donor_tid d = donor) ∨ vlen (s_donations s) < MAX_DONATIONS.

Lemma replace_some d ds : (∃ e, e ∈ ds ∧ d_donor_tid e = d_donor_tid d) →
  ∃ ds', replace_donation d ds = Some ds' ∧ d ∈ ds'.
Proof.
  induction ds as [|e ds IH]; intros (e' & He & Hd); [by apply elem_of_nil in He|]. cbn [replace_donation].
  destruct (d_donor_tid e =? d_donor_tid d) eqn:E; bool_to_prop.
  - eexists. split; [done|]. apply elem_of_cons. by left.
  - apply elem_of_cons in He as [->|He]; [done|]. destruct IH as (ds' & -> & Hin); [by eauto|].
    eexists. split; [done|]. apply elem_of_cons. by right.
Qed.

Lemma replace_none d ds : (∀ e, e ∈ ds → d_donor_tid e ≠ d_donor_tid d) → replace_donation d ds = None.
Proof.
  induction ds as [|e ds IH]; intros H; [done|]. cbn [replace_donation].
  rewrite (proj2 (N.eqb_neq _ _)) by (apply H; set_solver). rewrite IH; [done|]. intros e' He'. apply H. set_solver.
Qed.

Lemma registered_in s donor d : can_donate s donor → d_donor_tid d = donor → d ∈ registered d (s_donations s).
Proof.
  intros Hcan Hd. unfold registered. destruct (replace_donation d (s_donations s)) as [ds|] eqn:E.
  - destruct Hcan as [(e & He & Hed)|_].
    + destruct (replace_some d (s_donations s)) as (ds' & E' & Hin); [exists e; by rewrite Hd|]. congruence.
    + clear -E. revert ds E. induction (s_donations s) as [|e ds0 IH]; intros ds; cbn [replace_donation]; [done|].
      destruct (_ =? _); [intros [= <-]; set_solver|]. destruct (replace_donation d ds0); [|done].
      intros [= <-]. specialize (IH l eq_refl). set_solver.
  - destruct Hcan as [(e & He & Hed)|Hlt].
    + destruct (replace_some d (s_donations s)) as (ds' & E' & Hin); [exists e; by rewrite Hd|]. congruence.
    + rewrite (proj2 (N.ltb_lt _ _)) by done. set_solver.
Qed.

(** When a thread blocks on a process, [donate_on_block] returns and every thread of
    that process has an effective priority at least as high as the one of the donor, and
    every ready one waits in the queue of its effective priority; the invariant holds and
    no thread changed. *)
Theorem donation_lifts (s : Scheduler) (donor peer : N) (t : Thread) :
  sched_inv s → th s donor = Some t → can_donate s donor →
  ∃ s', donate_on_block donor peer s = Ret (tt, s') ∧ sched_inv s' ∧ s_threads s' = s_threads s ∧
    ∀ id u, th s id = Some u → t_proc u = Some peer →
      eff_prio_of (s_donations s') u ≤ eff_prio_of (s_donations s) t ∧
      (t_state u = Ready → id ∈ rq s' (t_hart u) (eff_prio_of (s_donations s') u)).
Proof.
  intros I Ht Hcan. pose proof (in_core _ I) as C.
  destruct (runs_register donor peer s t C Ht) as [C1 R]. destruct R as ([] & s' & E & ([] & s2 & E2 & ->)).
  set (d := mkDonation donor peer (eff_prio_of (s_donations s) t)) in *.
  set (s1 := set_s_donations (registered d (s_donations s)) s) in *.
  destruct (runs_requeue peer s1 C1) as ([] & s3 & E3 & C3 & Hsame & Hq & _).
  rewrite E2 in E3. injection E3 as <-. exists s'.
  assert (Ed : s_donations s' = registered d (s_donations s)) by (by rewrite Hsame).
  split_and!; [done| |by rewrite Hsame|].
  { apply (inv_outer s); [done|done|by rewrite Hsame..]. }
  intros id u Hu Hp. split.
  - rewrite Ed. unfold eff_prio_of at 1. rewrite Hp.
    change (eff_prio_of (s_donations s) t) with (d_prio d). apply donated_min; [|done]. by eapply registered_in.
  - intros Hst. rewrite Ed. by apply Hq.
Qed.

(** Thread 5 (high priority) is about to wait for process 3, whose thread 6 is low. *)
Definition inversion_state : Scheduler :=
  after ((spawns ++ [CYield 0 cpu0]) ++ [CSpawnUser 0 0x80500000 3 0x10000 0x3FFFF000 PRIO_LOW 0 0]).

Lemma inversion_inv : sched_inv inversion_state.
Proof.
  apply (reach_inv img0). unfold inversion_state. apply (reach_after (spawns ++ [CYield 0 cpu0])); [exact yield_reached|].
  split; [done|right; by vm_compute].
Qed.

Lemma donation_lifts_witness :
  6 ∈ rq inversion_state 0 PRIO_LOW ∧ ∃ s', donate_on_block 5 3 inversion_state = Ret (tt, s') ∧ sched_inv s'.
Proof.
  split; [apply (bool_decide_unpack (6 ∈ rq inversion_state 0 PRIO_LOW)); by vm_compute|].
  destruct (vget_lt_Some (s_threads inversion_state) 5) as [t Ht]; [by vm_compute|].
  destruct (donation_lifts inversion_state 5 3 t inversion_inv Ht) as (s' & E & I & _); [right; by vm_compute|].
  exists s'. split; [exact E|exact I].
Defined.

Lemma filter_all {A} (f : A → bool) (l : list A) : (∀ x, x ∈ l → f x = true) → filter f l = l.
Proof.
  induction l as [|x l IH]; intros H; [done|]. rewrite filter_cons_True by (by rewrite H by set_solver).
  f_equal. apply IH. set_solver.
Qed.
Lemma filter_none {A} (f : A → bool) (l : list A) : (∀ x, x ∈ l → f x = false) → filter f l = [].
Proof.
  induction l as [|x l IH]; intros H; [done|].
  rewrite filter_cons_False by (rewrite (H x) by set_solver; by intros []). apply IH. set_solver.
Qed.

(** Donation is undone by its revocation: for a donor with no entry and a table
    with room, [donate_on_block] followed by [revoke_donations] returns with the donation
    table and the threads as before, and every ready thread of the peer process waits in
    the queue of the effective priority it had before. *)
Theorem donation_roundtrip (s : Scheduler) (donor peer : N) (t : Thread) :
  sched_inv s → th s donor = Some t → vlen (s_donations s) < MAX_DONATIONS →
  (∀ d, d ∈ s_donations s → d_donor_tid d ≠ donor) →
  ∃ s', (donate_on_block donor peer;; revoke_donations donor) s = Ret (tt, s') ∧ sched_inv s' ∧
    s_donations s' = s_donations s ∧ s_threads s' = s_threads s ∧
    ∀ id u, th s id = Some u → t_proc u = Some peer → t_state u = Ready →
      id ∈ rq s' (t_hart u) (eff_prio_of (s_donations s) u).
Proof.
  intros I Ht Hlt Hno. pose proof (in_core _ I) as C.
  destruct (runs_register donor peer s t C Ht) as [C1 R]. destruct R as ([] & s1 & E & ([] & s2 & E2 & ->)).
  set (d := mkDonation donor peer (eff_prio_of (s_donations s) t)) in *.
  destruct (runs_requeue_same peer _ C1) as ([] & s3 & E3 & C3 & Hsame). rewrite E2 in E3. injection E3 as <-.
  assert (Hreg : registered d (s_donations s) = s_donations s ++ [d]).
  { unfold registered. rewrite replace_none by done. by rewrite (proj2 (N.ltb_lt _ _)). }
  rewrite Hreg in Hsame.
  assert (Ed : s_donations s1 = s_donations s ++ [d]) by (by rewrite Hsame).
  assert (Hmine : filter (λ e, d_donor_tid e =? donor) (s_donations s1) = [d]).
  { rewrite Ed, filter_app, (filter_none (λ e, d_donor_tid e =? donor)).
    - rewrite filter_cons_True; [done|]. cbn. by rewrite N.eqb_refl.
    - intros e He. by apply N.eqb_neq, Hno. }
  assert (Hothers : filter (λ e, negb (d_donor_tid e =? donor)) (s_donations s1) = s_donations s).
  { rewrite Ed, filter_app, (filter_all (λ e, negb (d_donor_tid e =? donor)) (s_donations s)).
    - rewrite filter_cons_False; [by rewrite app_nil_r|]. cbn. rewrite N.eqb_refl. by intros [].
    - intros e He. by rewrite (proj2 (N.eqb_neq _ _) (Hno e He)). }
  set (s2 := set_s_donations (s_donations s) s1).
  assert (C2 : core [] s2). { apply core_donations; [done|]. rewrite Hsame. apply (co_don _ _ C). }
  destruct (runs_requeue peer s2 C2) as ([] & s4 & E4 & C4 & Hsame4 & Hq & _). exists s4.
  assert (Et : s_threads s4 = s_threads s) by (transitivity (s_threads s1); [by rewrite Hsame4|by rewrite Hsame]).
  assert (Ec : s_current s4 = s_current s) by (transitivity (s_current s1); [by rewrite Hsame4|by rewrite Hsame]).
  assert (Ei : s_idle s4 = s_idle s) by (transitivity (s_idle s1); [by rewrite Hsame4|by rewrite Hsame]).
  split_and!; [|by apply (inv_outer s)|by rewrite Hsame4|done|].
  - rewrite (bind_ret _ _ _ _ _ E). unfold revoke_donations. rewrite bind_get. cbv zeta beta.
    rewrite Hmine, Hothers. rewrite bind_modify. fold s2. cbn [fmap list_fmap foldl].
    change (note [] (d_peer_proc d)) with [peer]. cbn [for_each]. by rewrite (bind_ret _ _ _ _ _ E4).
  - intros id u Hu Hp Hst. apply (Hq id u); [|done|done]. transitivity (th s1 id); [done|by rewrite Hsame].
Qed.

Lemma donation_roundtrip_witness :
  ∃ s', (donate_on_block 5 3;; revoke_donations 5) inversion_state = Ret (tt, s') ∧
    s_donations s' = s_donations inversion_state.
Proof.
  destruct (vget_lt_Some (s_threads inversion_state) 5) as [t Ht]; [by vm_compute|].
  assert (Hd : s_donations inversion_state = []) by (by vm_compute).
  assert (Hlt : vlen (s_donations inversion_state) < MAX_DONATIONS) by (by rewrite Hd).
  assert (Hno : ∀ d, d ∈ s_donations inversion_state → d_donor_tid d ≠ 5).
  { rewrite Hd. intros d Hin. exact (False_ind _ (proj1 (elem_of_nil d) Hin)). }
  destruct (donation_roundtrip inversion_state 5 3 t inversion_inv Ht Hlt Hno) as (s' & E & _ & Ed & _).
  exists s'. split; [exact E|exact Ed].
Defined.

(** ** Defects *)

(** Two user threads of process 3; the first has run and exited, the second runs. *)
Definition exited_peer : list call :=
  [CSpawnUser 0 0x80500000 3 0x10000 0x3FFFF000 PRIO_HIGH 0 0;
   CSpawnUser 0 0x80500000 3 0x10000 0x3FFFE000 PRIO_HIGH 0 0; CYield 0 cpu0].

(** [kill_process] frees the slot of a thread that has already exited a second
    time: after one of two threads of a process exits and the other one's fault kills the
    process, the slot is in the free list twice and the next two threads created get the
    same slot, the second over the first. *)
Theorem kill_frees_slot_twice :
  ∃ s s1 s2, sched_reach img0 s ∧ kill_locked 0 3 s = Ret ((true, []), s1) ∧ s_free_slots s1 = [4; 4] ∧
    (a ← spawn_user img0 0 0x80600000 7 0x10000 0x3FFFF000 PRIO_HIGH 0 0;
     b ← spawn_user img0 0 0x80700000 8 0x20000 0x3FFFF000 PRIO_HIGH 0 0; mret (a, b)) s1 = Ret ((4, 4), s2).
Proof.
  exists (after (exited_peer ++ [CExit 0 cpu0])). eexists _, _. split_and!.
  - apply reach_after.
    + apply (reach_after [_; _] (CYield 0 cpu0)); [|by split].
      apply (reach_after [_]); [|split; [done|right; by vm_compute]].
      apply (reach_after []); [exact boot_reached|split; [done|right; by vm_compute]].
    + split_and!; [done|done|by vm_compute].
  - vm_compute. reflexivity.
  - vm_compute. reflexivity.
  - vm_compute. reflexivity.
Qed.

(** A kernel thread of hart 1, picked by the idle loop of that hart. *)
Definition on_hart1 : list call := [CSpawn 1 0x80400000 0x81040000 0x80210000 PRIO_LOW].

(** A thread that exits releases its slot before it has switched away: if another
    hart creates a thread in between, the switch of the exiting hart stores the registers
    of the dead thread ([cpu0]) into the context of the new thread, which starts with them. *)
Theorem exit_overwrites_new_thread :
  ∃ s st s1 s2 r s3 t, sched_reach img0 s ∧ exit_locked 1 s = Ret (st, s1) ∧
    spawn img0 0 0x80400000 0x81050000 0x80220000 PRIO_HIGH s1 = Ret (4, s2) ∧
    do_switch 1 st cpu0 s2 = Ret (r, s3) ∧ th s3 4 = Some t ∧ t_state t = Ready ∧ saved t = Some (RCtx cpu0).
Proof.
  exists (after (on_hart1 ++ [CSecondary 1])). eexists _, _, _, _, _, _. split_and!.
  - apply reach_after; [apply (reach_after []); [exact boot_reached|spawn_ok]|]. split; [done|by vm_compute].
  - vm_compute. reflexivity.
  - vm_compute. reflexivity.
  - vm_compute. reflexivity.
  - vm_compute. reflexivity.
  - reflexivity.
  - reflexivity.
Qed.

(** [secondary_idle] makes the next thread current and releases the lock, with
    interrupts enabled, before it switches: a timer tick in between captures the frame of
    the idle loop ([frame0]) as the frame of that thread, whose own context is discarded. *)
Theorem secondary_idle_loses_context :
  ∃ s st s1 s2 f s3 t0 t, sched_reach img0 s ∧ secondary_idle_locked 1 s = Ret (Some st, s1) ∧ st_new st = 4 ∧
    th s 4 = Some t0 ∧ saved t0 = Some (RCtx (t_ctx t0)) ∧
    spawn img0 1 0x80400000 0x81050000 0x80220000 PRIO_HIGH s1 = Ret (5, s2) ∧
    on_tick img0 1 frame0 s2 = Ret (f, s3) ∧ th s3 4 = Some t ∧ saved t = Some (RFrame frame0).
Proof.
  exists (after ([] ++ on_hart1)). eexists _, _, _, _, _, _, _. split_and!.
  - apply (reach_after []); [exact boot_reached|spawn_ok].
  - vm_compute. reflexivity.
  - reflexivity.
  - vm_compute. reflexivity.
  - reflexivity.
  - vm_compute. reflexivity.
  - vm_compute. reflexivity.
  - vm_compute. reflexivity.
  - reflexivity.
Qed.
