(* ===== verification/Ipc.v ===== *)
(** * Message passing: kernel/src/ipc.rs and the killing of a process

    [System] is the kernel objects, the scheduler and the pending queues of the [IPC]
    lock together, so that [send], [recv] and [purge_process] are the whole functions:
    they resolve a capability, match or register, and wake or donate.  [kill_process]
    of kernel/src/sched.rs, which runs through all three, is here too. *)

From Stdlib Require Import ZifyN ZifyNat.
From stdpp Require Import base gmap numbers functions list.
From S2P Require Import Prelude Mem Mmu Objects Sched.

(** ** State *)

(** [IPC_ACCEPT_ANY]. *)
Definition IPC_ACCEPT_ANY : N := USIZE_MAX.

(** [SendBlock] and [RecvBlock]. *)
Inductive SendBlock := SDone | SNoPeer.
Inductive RecvBlock := RDone (msg : list N) | RNoPeer.

(** [PendingSend], [PendingRecv] and [IpcState]. *)
Record PendingSend := mkSend { ps_tid : N; ps_pid : N; ps_dst : N; ps_msg : list N }.
Record PendingRecv := mkRecv { rv_tid : N; rv_pid : N; rv_src : N }.
Record IpcState := mkIpc { i_sends : list PendingSend; i_recvs : list PendingRecv }.

(** The kernel state the message path runs on, with the tick counter of
    kernel/src/logger.rs and, for each hart, the timer deadline and the value last
    written to its timer (kernel/src/arch/riscv64.rs). *)
Record System := mkSystem {
  y_k : Kernel; y_s : Scheduler; y_ipc : IpcState;
  y_tick : N; y_deadline : list N; y_timer : list N }.

Definition set_y_k (v : Kernel) (y : System) : System :=
  mkSystem v (y_s y) (y_ipc y) (y_tick y) (y_deadline y) (y_timer y).
Definition set_y_s (v : Scheduler) (y : System) : System :=
  mkSystem (y_k y) v (y_ipc y) (y_tick y) (y_deadline y) (y_timer y).
Definition set_y_ipc (v : IpcState) (y : System) : System :=
  mkSystem (y_k y) (y_s y) v (y_tick y) (y_deadline y) (y_timer y).
Definition set_y_tick (v : N) (y : System) : System :=
  mkSystem (y_k y) (y_s y) (y_ipc y) v (y_deadline y) (y_timer y).
Definition set_y_deadline (v : list N) (y : System) : System :=
  mkSystem (y_k y) (y_s y) (y_ipc y) (y_tick y) v (y_timer y).
Definition set_y_timer (v : list N) (y : System) : System :=
  mkSystem (y_k y) (y_s y) (y_ipc y) (y_tick y) (y_deadline y) v.

Notation MY := (M System).
Definition onk {A} (m : M Kernel A) : MY A := lift y_k set_y_k m.
Definition ons {A} (m : M Scheduler A) : MY A := lift y_s set_y_s m.

(** [position] of the first element with [p], then [remove]. *)
Fixpoint take_first {A} (p : A → bool) (l : list A) : option (A * list A) :=
  match l with
  | [] => None
  | x :: l =>
      if p x then Some (x, l)
      else match take_first p l with Some (y, l) => Some (y, x :: l) | None => None end
  end.

(** ** [send] and [recv] *)

(** A waiting receiver for a message from [pid] to [dst]: first one that names [pid],
    else one that accepts any sender. *)
Definition wants (dst src : N) (r : PendingRecv) : bool := (rv_pid r =? dst) && (rv_src r =? src).
Definition match_recv (dst pid : N) (rs : list PendingRecv) : option (PendingRecv * list PendingRecv) :=
  match take_first (wants dst pid) rs with
  | Some x => Some x
  | None => take_first (wants dst IPC_ACCEPT_ANY) rs
  end.

Definition send (h pid slot : N) (msg : list N) : MY (result SendBlock N) :=
  y ← get;
  match cap_target pid slot (y_k y) with
  | Ok (CShm _) | Ok (CPage _) => mret (Err (cap_errno WrongType))
  | Err e => mret (Err (cap_errno e))
  | Ok (CProc dst) =>
      tid ← ons (current_id h);
      ipc ← gets y_ipc;
      match match_recv dst pid (i_recvs ipc) with
      | Some (r, recvs) =>
          modify (set_y_ipc (mkIpc (i_sends ipc) recvs));;
          ons (ipc_wake_with_msg (rv_tid r) (Some msg));;
          mret (Ok SDone)
      | None =>
          modify (set_y_ipc (mkIpc (i_sends ipc ++ [mkSend tid pid dst msg]) (i_recvs ipc)));;
          ons (donate_on_block tid dst);;
          mret (Ok SNoPeer)
      end
  end.

Definition sent_by (src dst : N) (s : PendingSend) : bool := (ps_pid s =? src) && (ps_dst s =? dst).

Definition recv_from (h pid src : N) : MY (result RecvBlock N) :=
  tid ← ons (current_id h);
  ipc ← gets y_ipc;
  match take_first (sent_by src pid) (i_sends ipc) with
  | Some (s, sends) =>
      modify (set_y_ipc (mkIpc sends (i_recvs ipc)));;
      ons (ipc_wake_with_msg (ps_tid s) None);;
      mret (Ok (RDone (ps_msg s)))
  | None =>
      modify (set_y_ipc (mkIpc (i_sends ipc) (i_recvs ipc ++ [mkRecv tid pid src])));;
      (if src =? IPC_ACCEPT_ANY then mret tt else ons (donate_on_block tid src));;
      mret (Ok RNoPeer)
  end.

Definition recv (h pid slot : N) : MY (result RecvBlock N) :=
  y ← get;
  match cap_target pid slot (y_k y) with
  | Ok (CProc src) => recv_from h pid src
  | Ok (CShm _) | Ok (CPage _) => mret (Err (cap_errno WrongType))
  | Err NotFound => recv_from h pid IPC_ACCEPT_ANY
  | Err e => mret (Err (cap_errno e))
  end.

(** ** [purge_process] *)

(** The waiters of other processes, in the order they are woken. *)
Definition orphans (pid : N) (ipc : IpcState) : list N :=
  (rv_tid <$> filter (λ r, (rv_src r =? pid) && negb (rv_pid r =? pid)) (i_recvs ipc)) ++
  (ps_tid <$> filter (λ s, (ps_dst s =? pid) && negb (ps_pid s =? pid)) (i_sends ipc)).
Definition purged (pid : N) (ipc : IpcState) : IpcState :=
  mkIpc (filter (λ s, negb (ps_pid s =? pid)) (filter (λ s, negb (ps_dst s =? pid)) (i_sends ipc)))
        (filter (λ r, negb (rv_pid r =? pid)) (filter (λ r, negb (rv_src r =? pid)) (i_recvs ipc))).
Definition purge_process (pid : N) : MY () :=
  ipc ← gets y_ipc;
  modify (set_y_ipc (purged pid ipc));;
  for_each (λ tid, ons (ipc_wake_with_err tid SYS_ERR_ENOENT)) (orphans pid ipc).

(** ** [kill_process] and [kill_current_process]

    [kill_begin] is the part up to the requests sent to other harts; [kill_finish] runs
    when they have answered or the wait has timed out. *)
Definition kill_begin (h pid : N) : MY bool :=
  ons count_kill;;
  purge_process pid;;
  r ← ons (kill_locked h pid);
  ons (send_force_kills r.2);;
  mret r.1.
Definition kill_finish (h kroot pid : N) : MY () :=
  ons (switch_root h kroot);;
  onk (proc_destroy pid).
Definition kill_process (h kroot pid : N) : MY bool :=
  cur_in_pid ← kill_begin h pid;
  kill_finish h kroot pid;;
  mret cur_in_pid.

(** [None]: the machine halts. *)
Definition kill_current_process (h kroot : N) (cpu : Context) : MY (option Resume) :=
  pid ← ons (current_proc h);
  cur_in_pid ← kill_process h kroot pid;
  if cur_in_pid : bool then r ← ons (exit_from_trap h cpu); mret (Some r) else mret None.
