(* ===== verification/IpcInv.v ===== *)
(** * The invariant of message passing

    A thread of a process that waits in the scheduler is registered in exactly one
    pending queue, and a registered thread waits, or is on its way into
    [block_user_from_trap] on its hart.  The harts on that way ([T]), which have released
    the [IPC] lock and not yet blocked, are part of the state the invariant speaks about:
    between the two, other harts may answer. *)

From Stdlib Require Import ZifyN ZifyNat.
From stdpp Require Import base gmap numbers functions list.
From S2P Require Import Prelude Mem Mmu Objects ObjInv Sched SchedInv SchedOps SchedSteps Ipc.

(** ** Operations that leave the IPC fields of the threads alone *)

Definition wake_same (s s' : Scheduler) : Prop := ∀ i,
  match th s i, th s' i with
  | Some u, Some u' => t_ipc_wake u' = t_ipc_wake u ∧ t_proc u' = t_proc u ∧ t_hart u' = t_hart u
  | None, None => True
  | _, _ => False
  end.
#[global] Instance wake_same_preorder : PreOrder wake_same.
Proof.
  split.
  - intros s i. by destruct (th s i).
  - intros s1 s2 s3 H1 H2 i. specialize (H1 i). specialize (H2 i).
    destruct (th s1 i), (th s2 i), (th s3 i); try done. destruct H1 as (? & ? & ?), H2 as (? & ? & ?). split_and!; congruence.
Qed.

Definition len_same (s s' : Scheduler) : Prop := vlen (s_threads s') = vlen (s_threads s).
#[global] Instance len_same_preorder : PreOrder len_same.
Proof. split; [done|]. intros ? ? ? H1 H2. unfold len_same in *. congruence. Qed.

Lemma wake_same_threads s s' : s_threads s' = s_threads s → wake_same s s'.
Proof. intros E i. rewrite E. by destruct (th s i). Qed.

Lemma wake_upd id f s : (∀ t, t_ipc_wake (f t) = t_ipc_wake t ∧ t_proc (f t) = t_proc t ∧ t_hart (f t) = t_hart t) →
  stays wake_same (upd_thread id f) s.
Proof.
  intros Hf. unfold upd_thread, thread. apply stays_bind; [apply _|stays_auto|].
  intros t s1 E. apply stays_modify. unfold mbind, M_bind, get in E.
  destruct (th s id) as [u|] eqn:Eu; cbn in E; [|done]. injection E as <- <-. intros i.
  change (th (set_s_threads (vset (s_threads s) id (f u)) s) i) with (th (with_t id (f u) s) i).
  rewrite (th_with_t s id (f u) u i Eu). case_decide as Ei; [subst i; by rewrite Eu|by destruct (th s i)].
Qed.

Lemma len_upd id f s : stays len_same (upd_thread id f) s.
Proof.
  unfold upd_thread, thread. stays_auto. unfold len_same; cbn; by rewrite vlen_vset.
Qed.

Ltac wake_auto := repeat (progress (stays_auto; cbv zeta)); try done; try (by apply wake_same_threads).
#[export] Hint Extern 1 (stays wake_same (upd_thread _ _) _) => (apply wake_upd; intros ?; done) : stays.

Lemma wake_set_queue h l q s : stays wake_same (set_queue h l q) s.
Proof. unfold set_queue. wake_auto. Qed.
Lemma wake_thread id s : stays wake_same (thread id) s.
Proof. unfold thread. wake_auto. Qed.
Lemma wake_queue h l s : stays wake_same (queue h l) s.
Proof. unfold queue. wake_auto. Qed.
Lemma wake_current h s : stays wake_same (current_of h) s.
Proof. unfold current_of. wake_auto. Qed.
Lemma wake_idle h s : stays wake_same (idle_of h) s.
Proof. unfold idle_of. wake_auto. Qed.
#[export] Hint Resolve wake_set_queue wake_thread wake_queue wake_current wake_idle : stays.

Lemma wake_pick_round h l nc n s : stays wake_same (pick_round h l nc n) s.
Proof. revert s. induction n as [|n IH]; intros s; cbn [pick_round]; wake_auto. Qed.
#[export] Hint Resolve wake_pick_round : stays.
Lemma wake_pick_levels h nc ls s : stays wake_same (pick_levels h nc ls) s.
Proof. revert s. induction ls as [|l ls IH]; intros s; cbn [pick_levels]; wake_auto. Qed.
#[export] Hint Resolve wake_pick_levels : stays.
Lemma wake_pick_next h nc s : stays wake_same (pick_next h nc) s.
Proof. unfold pick_next. wake_auto. Qed.
Lemma wake_set_current h n s : stays wake_same (set_current h n) s.
Proof. unfold set_current. wake_auto. Qed.
Lemma wake_set_ticks h n s : stays wake_same (set_ticks h n) s.
Proof. unfold set_ticks. wake_auto. Qed.
Lemma wake_switch_root h r s : stays wake_same (switch_root h r) s.
Proof. unfold switch_root. wake_auto. Qed.
Lemma wake_switch_target c n s : stays wake_same (switch_target c n) s.
Proof. unfold switch_target. wake_auto. Qed.
#[export] Hint Resolve wake_pick_next wake_set_current wake_set_ticks wake_switch_root wake_switch_target : stays.

Lemma wake_do_switch h st cpu s : stays wake_same (do_switch h st cpu) s.
Proof. unfold do_switch. wake_auto. Qed.
Lemma wake_enqueue id s : stays wake_same (enqueue id) s.
Proof. unfold enqueue, eff_prio. wake_auto. Qed.
Lemma wake_remove_ready id s : stays wake_same (remove_from_ready id) s.
Proof. unfold remove_from_ready. wake_auto. Qed.
Lemma wake_take_stack id s : stays wake_same (take_stack id) s.
Proof. unfold take_stack. wake_auto. Qed.
#[export] Hint Resolve wake_do_switch wake_enqueue wake_remove_ready wake_take_stack : stays.
Lemma wake_requeue p s : stays wake_same (requeue_proc_threads p) s.
Proof. unfold requeue_proc_threads. wake_auto. Qed.
#[export] Hint Resolve wake_requeue : stays.
Lemma wake_revoke d s : stays wake_same (revoke_donations d) s.
Proof. unfold revoke_donations. wake_auto. Qed.
Lemma wake_put_words m f s : stays wake_same (put_words m f) s.
Proof. unfold put_words. wake_auto. Qed.
Lemma wake_skip_ecall f s : stays wake_same (skip_ecall f) s.
Proof. unfold skip_ecall, add_. wake_auto. Qed.
#[export] Hint Resolve wake_revoke wake_put_words wake_skip_ecall : stays.

Lemma wake_yield h cpu s : stays wake_same (yield_ h cpu) s.
Proof. unfold yield_, yield_locked, drain_reaper. wake_auto. Qed.
Lemma wake_exit h cpu s : stays wake_same (exit h cpu) s.
Proof. unfold exit, exit_locked, free_slot. wake_auto. Qed.
Lemma wake_on_tick img h f s : stays wake_same (on_tick img h f) s.
Proof. unfold on_tick, preempt, any_ready, eff_prio, expand_ctx_to_frame. wake_auto. Qed.

Lemma wake_len s s' : wake_same s s' → len_same s s'.
Proof.
  intros H. destruct (N.lt_total (vlen (s_threads s')) (vlen (s_threads s))) as [Hl|[|Hl]]; [|done|].
  - specialize (H (vlen (s_threads s'))). destruct (vget_lt_Some _ _ Hl) as [u Eu]. rewrite Eu in H.
    destruct (th s' _) eqn:E; [|done]. apply vget_Some_lt in E. lia.
  - specialize (H (vlen (s_threads s))). destruct (vget_lt_Some _ _ Hl) as [u Eu]. rewrite Eu in H.
    destruct (th s _) eqn:E; [apply vget_Some_lt in E; lia|done].
Qed.

Lemma stays_len {A} (m : MS A) s : stays wake_same m s → stays len_same m s.
Proof. intros H a s' E. by apply wake_len, (H a s'). Qed.
#[export] Hint Resolve len_upd stays_len : stays.

Lemma len_block_user h f cpu s : stays len_same (block_user_from_trap h f cpu) s.
Proof. unfold block_user_from_trap, block_user_locked. stays_auto. Qed.

(** ** The invariant *)

(** The registered threads. *)
Definition tids (ipc : IpcState) : list N := (ps_tid <$> i_sends ipc) ++ (rv_tid <$> i_recvs ipc).

Definition waiter (T : list N) (t : Thread) : Prop :=
  is_Some (t_proc t) ∧ t_ipc_wake t = None ∧
  (t_state t = Blocked ∧ pc_ok t ∨ t_state t = Running ∧ t_hart t ∈ T).

Definition wake_ok (w : IpcWake) : Prop := match w with WMsg m => msg_ok m | WErr _ => True end.

(** [D]: threads taken out of the queues and not yet woken. *)
Record ipc_wf (T D : list N) (y : System) : Prop := mkIpcWf {
  iw_sched : sched_inv (y_s y);
  iw_nodup : NoDup (tids (y_ipc y) ++ D);
  iw_wait : ∀ id, id ∈ tids (y_ipc y) ++ D → ∃ t, th (y_s y) id = Some t ∧ waiter T t;
  iw_send : ∀ p, p ∈ i_sends (y_ipc y) → msg_ok (ps_msg p) ∧
    ∃ t, th (y_s y) (ps_tid p) = Some t ∧ t_proc t = Some (ps_pid p);
  iw_recv : ∀ r, r ∈ i_recvs (y_ipc y) → ∃ t, th (y_s y) (rv_tid r) = Some t ∧ t_proc t = Some (rv_pid r);
  iw_blocked : ∀ id t, th (y_s y) id = Some t → t_state t = Blocked → is_Some (t_proc t) →
    id ∈ tids (y_ipc y) ++ D;
  iw_woken : ∀ id t w, th (y_s y) id = Some t → t_ipc_wake t = Some w →
    t_state t = Running ∧ t_hart t ∈ T ∧ is_Some (t_proc t) ∧ wake_ok w;
  iw_transit : ∀ h, h ∈ T → h < MAX_HARTS ∧ ∃ cur t, vget (s_current (y_s y)) h = Some cur ∧
    th (y_s y) cur = Some t ∧ is_Some (t_proc t) ∧ (cur ∈ tids (y_ipc y) ++ D ∨ is_Some (t_ipc_wake t));
  iw_match : ∀ p r, p ∈ i_sends (y_ipc y) → r ∈ i_recvs (y_ipc y) → rv_pid r = ps_dst p → rv_src r ≠ ps_pid p
}.

Lemma running_current s id t :
  sched_inv s → th s id = Some t → t_state t = Running → is_Some (t_proc t) →
  t_hart t < MAX_HARTS ∧ vget (s_current s) (t_hart t) = Some id.
Proof.
  intros I Ht Hr Hp. pose proof (in_core _ I) as C.
  destruct (co_threads _ _ C id t Ht) as (_ & Hh & _). split; [done|].
  destruct (in_running _ I id t Ht Hr) as [|Hi]; [done|].
  destruct (co_idle _ _ C _ Hh) as (b & tb & Eb & Etb & _ & Hpb & _).
  rewrite Eb in Hi. injection Hi as ->. rewrite Etb in Ht. injection Ht as ->. rewrite Hpb in Hp. by destruct Hp.
Qed.

Lemma transit_running T D y h : ipc_wf T D y → h ∈ T → ∃ cur t, vget (s_current (y_s y)) h = Some cur ∧
  th (y_s y) cur = Some t ∧ is_Some (t_proc t) ∧ t_state t = Running ∧ t_hart t = h ∧
  (cur ∈ tids (y_ipc y) ++ D ∨ is_Some (t_ipc_wake t)).
Proof.
  intros W Hh. destruct (iw_transit _ _ _ W h Hh) as (Hlt & cur & t & Ec & Ht & Hp & Hw).
  destruct (in_current _ (iw_sched _ _ _ W) h Hlt) as (c & u & E1 & E2 & Hr & Hht).
  assert (c = cur) as -> by congruence. assert (u = t) as -> by congruence. eauto 10.
Qed.

(** The current thread of a hart outside [T] takes no part in message passing. *)
Lemma calm_current T D y h cur t :
  ipc_wf T D y → h < MAX_HARTS → h ∉ T → vget (s_current (y_s y)) h = Some cur → th (y_s y) cur = Some t →
  t_state t = Running ∧ t_hart t = h ∧ (cur ∉ tids (y_ipc y) ++ D) ∧ t_ipc_wake t = None.
Proof.
  intros W Hh HT Ec Ht. destruct (in_current _ (iw_sched _ _ _ W) h Hh) as (c & u & E1 & E2 & Hr & Hht).
  assert (c = cur) as -> by congruence. assert (u = t) as -> by congruence. split_and!; [done..| |].
  - intros Hin. destruct (iw_wait _ _ _ W cur Hin) as (v & Ev & _ & _ & [[Hb _]|[_ Hv]]);
      assert (v = t) as -> by congruence; [congruence|]. rewrite Hht in Hv. done.
  - destruct (t_ipc_wake t) as [w|] eqn:Ew; [|done].
    destruct (iw_woken _ _ _ W cur t w Ht Ew) as (_ & Hv & _). rewrite Hht in Hv. done.
Qed.

(** ** Steps of the scheduler that leave message passing alone *)

Definition quiet (t : Thread) : Prop := t_ipc_wake t = None ∧ (t_state t = Blocked → t_proc t = None).
Definition keeps_wait (u u' : Thread) : Prop :=
  t_proc u' = t_proc u ∧ t_hart u' = t_hart u ∧ t_ipc_wake u' = t_ipc_wake u ∧
  (t_state u = Blocked → t_state u' = Blocked ∧ t_frame u' = t_frame u) ∧
  (t_state u = Running → is_Some (t_proc u) → t_state u' = Running) ∧
  (t_state u ≠ Blocked → t_state u' ≠ Blocked).
(** [X]: threads that may change freely. *)
Definition calm (X : N → Prop) (s s' : Scheduler) : Prop := ∀ i,
  match th s i, th s' i with
  | Some u, Some u' => keeps_wait u u' ∨ (X i ∧ quiet u')
  | None, Some u' => quiet u'
  | Some _, None => False
  | None, None => True
  end.

Lemma keeps_wait_refl u : keeps_wait u u.
Proof. split_and!; auto. Qed.

Lemma waiter_keeps T u u' : waiter T u → keeps_wait u u' → waiter T u'.
Proof.
  intros (Hp & Hw & Hs) (Ep & Eh & Ew & Eb & Er & _). unfold waiter, pc_ok in *. rewrite Ep, Ew, Eh. split_and!; [done..|].
  destruct Hs as [[Hb Hpc]|[Hr Ht]].
  - destruct (Eb Hb) as [E1 E2]. left. by rewrite E2.
  - right. auto.
Qed.

(** [D']: what is left of [D] when some of its threads are gone. *)
Lemma wf_calm_drop X T D D' y s' :
  ipc_wf T D y → sched_inv s' → calm X (y_s y) s' → NoDup (tids (y_ipc y) ++ D') → D' ⊆ D →
  (∀ i u, X i → th (y_s y) i = Some u → (i ∉ tids (y_ipc y) ++ D') ∧ t_ipc_wake u = None) →
  (∀ i u, i ∈ D → i ∉ D' → th (y_s y) i = Some u → t_state u = Blocked ∧ ∀ u', th s' i = Some u' → quiet u') →
  ipc_wf T D' (set_y_s s' y).
Proof.
  intros W I' Hc HD Hsub HX Hgone.
  assert (Hin : ∀ i, i ∈ tids (y_ipc y) ++ D' → i ∈ tids (y_ipc y) ++ D).
  { intros i. rewrite !elem_of_app. set_solver. }
  assert (Hold : ∀ i u, th (y_s y) i = Some u → i ∈ tids (y_ipc y) ++ D' ∨ is_Some (t_ipc_wake u) →
    ∃ u', th s' i = Some u' ∧ keeps_wait u u').
  { intros i u Hu Hpend. specialize (Hc i). rewrite Hu in Hc. destruct (th s' i) as [u'|]; [|done].
    destruct Hc as [Hk|[Hx _]]; [by eauto|]. destruct (HX i u Hx Hu) as [Hn Hw].
    destruct Hpend as [|[w Ew]]; [done|congruence]. }
  assert (Hnew : ∀ i u', th s' i = Some u' → (∃ u, th (y_s y) i = Some u ∧ keeps_wait u u') ∨ quiet u').
  { intros i u' Hu'. specialize (Hc i). rewrite Hu' in Hc. destruct (th (y_s y) i) as [u|]; [|by right].
    destruct Hc as [|[_ ?]]; eauto. }
  constructor; cbn [y_s y_ipc set_y_s].
  - done.
  - done.
  - intros id Hid. destruct (iw_wait _ _ _ W id) as (t & Ht & Hw); [auto|].
    destruct (Hold id t Ht) as (u' & Hu' & Hk); [by left|]. exists u'. split; [done|]. by eapply waiter_keeps.
  - intros p Hp. destruct (iw_send _ _ _ W p Hp) as (Hm & t & Ht & Hpid). split; [done|].
    destruct (Hold _ t Ht) as (u' & Hu' & Hk); [left; apply elem_of_app; left; apply elem_of_app; left; by apply list_elem_of_fmap_2|].
    exists u'. split; [done|]. destruct Hk as (-> & _). done.
  - intros r Hr. destruct (iw_recv _ _ _ W r Hr) as (t & Ht & Hpid).
    destruct (Hold _ t Ht) as (u' & Hu' & Hk); [left; apply elem_of_app; left; apply elem_of_app; right; by apply list_elem_of_fmap_2|].
    exists u'. split; [done|]. destruct Hk as (-> & _). done.
  - intros id u' Hu' Hb Hp. destruct (Hnew id u' Hu') as [(u & Hu & Hk)|[_ Hq]].
    2: { rewrite (Hq Hb) in Hp. by destruct Hp. }
    destruct Hk as (Ep & _ & _ & _ & _ & Hn).
    assert (Hi : id ∈ tids (y_ipc y) ++ D).
    { apply (iw_blocked _ _ _ W id u Hu); [|by rewrite <-Ep].
      destruct (decide (t_state u = Blocked)); [done|]. by destruct (Hn n). }
    rewrite elem_of_app in *. destruct Hi as [|Hi]; [by left|]. right. destruct (decide (id ∈ D')) as [|Hni]; [done|].
    destruct (Hgone id u Hi Hni Hu) as [_ Hq]. destruct (Hq u' Hu') as [_ Hq']. rewrite (Hq' Hb) in Hp. by destruct Hp.
  - intros id u' w Hu' Hw. destruct (Hnew id u' Hu') as [(u & Hu & Hk)|[Hq _]]; [|congruence].
    destruct Hk as (Ep & Eh & Ew & _ & Er & _). rewrite Ew in Hw.
    destruct (iw_woken _ _ _ W id u w Hu Hw) as (Hr & HT & Hp & Hok). rewrite Eh, Ep. by split_and!; auto.
  - intros h Hh. destruct (transit_running _ _ _ h W Hh) as (cur & t & Ec & Ht & Hp & Hr & Hht & Hpend).
    split; [apply (iw_transit _ _ _ W h Hh)|].
    assert (Hpend' : cur ∈ tids (y_ipc y) ++ D' ∨ is_Some (t_ipc_wake t)).
    { destruct Hpend as [Hi|]; [left|by right]. rewrite elem_of_app in *. destruct Hi as [|Hi]; [by left|]. right.
      destruct (decide (cur ∈ D')) as [|Hni]; [done|]. destruct (Hgone cur t Hi Hni Ht). congruence. }
    destruct (Hold cur t Ht Hpend') as (u' & Hu' & Hk). destruct Hk as (Ep & Eh & Ew & _ & Er & _).
    exists cur, u'. rewrite Ep, Ew. split_and!; [|done..].
    destruct (running_current s' cur u' I' Hu') as [_ Hc']; [auto|by rewrite Ep|]. by rewrite Eh, Hht in Hc'.
  - apply (iw_match _ _ _ W).
Qed.

Lemma wf_calm X T D y s' :
  ipc_wf T D y → sched_inv s' → calm X (y_s y) s' →
  (∀ i u, X i → th (y_s y) i = Some u → (i ∉ tids (y_ipc y) ++ D) ∧ t_ipc_wake u = None) →
  ipc_wf T D (set_y_s s' y).
Proof.
  intros W I' Hc HX. apply (wf_calm_drop X T D D); try done. apply (iw_nodup _ _ _ W).
Qed.

(** ** Taking entries out, waking, registering, blocking *)

Lemma wf_move T D D' ipc' y :
  ipc_wf T D y → tids (y_ipc y) ≡ₚ tids ipc' ++ D' →
  (∀ p, p ∈ i_sends ipc' → p ∈ i_sends (y_ipc y)) → (∀ r, r ∈ i_recvs ipc' → r ∈ i_recvs (y_ipc y)) →
  ipc_wf T (D' ++ D) (set_y_ipc ipc' y).
Proof.
  intros W HP Hs Hr.
  assert (Hin : ∀ i, i ∈ tids ipc' ++ D' ++ D ↔ i ∈ tids (y_ipc y) ++ D).
  { intros i. rewrite !elem_of_app, HP, elem_of_app. tauto. }
  destruct W. constructor; cbn [y_s y_ipc set_y_ipc]; try done.
  - by rewrite app_assoc, <-HP.
  - intros id Hid%Hin. by apply iw_wait0.
  - intros p Hp. by apply iw_send0, Hs.
  - intros r Hr'. by apply iw_recv0, Hr.
  - intros id t Ht Hb Hp. apply Hin. by eapply iw_blocked0.
  - intros h Hh. destruct (iw_transit0 h Hh) as (Hlt & cur & t & E1 & E2 & Hp & Hw). split; [done|].
    exists cur, t. by rewrite Hin.
  - intros p r Hp Hr'. by apply iw_match0; [apply Hs|apply Hr].
Qed.

(** A thread of [D] gets its answer. *)
Lemma wf_wake T D id y s' t t' :
  ipc_wf T (id :: D) y → sched_inv s' → th (y_s y) id = Some t →
  (∀ i, th s' i = if decide (i = id) then Some t' else th (y_s y) i) →
  t_proc t' = t_proc t → t_hart t' = t_hart t →
  (t_state t = Blocked → quiet t') →
  (t_state t = Running → t_state t' = Running ∧ ∃ w, t_ipc_wake t' = Some w ∧ wake_ok w) →
  ipc_wf T D (set_y_s s' y).
Proof.
  intros W I' Ht Hth Ep Eh Hb Hr.
  pose proof (iw_nodup _ _ _ W) as Hnd.
  assert (Hnin : id ∉ tids (y_ipc y) ++ D).
  { rewrite <-Permutation_middle in Hnd. by apply NoDup_cons in Hnd as [? _]. }
  assert (Hth' : ∀ i, i ∈ tids (y_ipc y) ++ D → th s' i = th (y_s y) i).
  { intros i Hi. rewrite Hth. case_decide; [by subst|done]. }
  assert (Hin : ∀ i, i ∈ tids (y_ipc y) ++ D → i ∈ tids (y_ipc y) ++ id :: D).
  { intros i. rewrite !elem_of_app, elem_of_cons. tauto. }
  destruct (iw_wait _ _ _ W id) as (t0 & E0 & Hp & Hw & Hst); [rewrite elem_of_app, elem_of_cons; tauto|].
  assert (t0 = t) as -> by congruence.
  constructor; cbn [y_s y_ipc set_y_s].
  - done.
  - rewrite <-Permutation_middle in Hnd. by apply NoDup_cons in Hnd as [_ ?].
  - intros i Hi. rewrite Hth' by done. apply (iw_wait _ _ _ W); auto.
  - intros p Hp'. rewrite Hth'; [by apply (iw_send _ _ _ W)|].
    apply elem_of_app; left; apply elem_of_app; left; by apply list_elem_of_fmap_2.
  - intros r Hr'. rewrite Hth'; [by apply (iw_recv _ _ _ W)|].
    apply elem_of_app; left; apply elem_of_app; right; by apply list_elem_of_fmap_2.
  - intros i u Hu Hbl Hpu. rewrite Hth in Hu. case_decide as Ei.
    + injection Hu as <-. subst i. destruct Hst as [[Hb' _]|[Hr' _]].
      * destruct (Hb Hb') as [_ Hq]. rewrite (Hq Hbl) in Hpu. by destruct Hpu.
      * destruct (Hr Hr'). congruence.
    + pose proof (iw_blocked _ _ _ W i u Hu Hbl Hpu) as Hi. rewrite !elem_of_app, elem_of_cons in Hi.
      rewrite elem_of_app. naive_solver.
  - intros i u w Hu Hwu. rewrite Hth in Hu. case_decide as Ei; [|by apply (iw_woken _ _ _ W i)].
    injection Hu as <-. subst i. destruct Hst as [[Hb' _]|[Hr' HT]].
    + destruct (Hb Hb'). congruence.
    + destruct (Hr Hr') as (Hr'' & w' & Ew & Hok). assert (w' = w) as -> by congruence. by rewrite Eh, Ep.
  - intros h Hh. destruct (transit_running _ _ _ h W Hh) as (cur & u & Ec & Hu & Hpu & Hru & Hhu & Hpend).
    split; [apply (iw_transit _ _ _ W h Hh)|].
    destruct (decide (cur = id)) as [->|Hne].
    + assert (u = t) as -> by congruence. destruct (Hr Hru) as (Hr'' & w' & Ew & _).
      assert (Ht' : th s' id = Some t') by (by rewrite Hth, decide_True).
      exists id, t'. rewrite Ew, Ep. split_and!; [|done|done|by eauto].
      destruct (running_current s' id t' I' Ht' Hr'') as [_ Hc]; [by rewrite Ep|]. by rewrite Eh, Hhu in Hc.
    + assert (Hu' : th s' cur = Some u) by (by rewrite Hth, decide_False).
      exists cur, u. split_and!; [|done..|].
      * destruct (running_current s' cur u I' Hu' Hru Hpu) as [_ Hc]. by rewrite Hhu in Hc.
      * rewrite !elem_of_app, elem_of_cons in *. naive_solver.
  - apply (iw_match _ _ _ W).
Qed.

(** The current thread of hart [h] registers itself. *)
Lemma wf_register T h cur t ipc' y :
  ipc_wf T [] y → h < MAX_HARTS → h ∉ T → vget (s_current (y_s y)) h = Some cur → th (y_s y) cur = Some t →
  is_Some (t_proc t) → tids ipc' ≡ₚ cur :: tids (y_ipc y) →
  (∀ p, p ∈ i_sends ipc' → p ∈ i_sends (y_ipc y) ∨
     ps_tid p = cur ∧ t_proc t = Some (ps_pid p) ∧ msg_ok (ps_msg p) ∧
     ∀ r, r ∈ i_recvs (y_ipc y) → rv_pid r = ps_dst p → rv_src r ≠ ps_pid p) →
  (∀ r, r ∈ i_recvs ipc' → r ∈ i_recvs (y_ipc y) ∨
     rv_tid r = cur ∧ t_proc t = Some (rv_pid r) ∧
     ∀ p, p ∈ i_sends (y_ipc y) → rv_pid r = ps_dst p → rv_src r ≠ ps_pid p) →
  i_sends ipc' = i_sends (y_ipc y) ∨ i_recvs ipc' = i_recvs (y_ipc y) →
  ipc_wf (h :: T) [] (set_y_ipc ipc' y).
Proof.
  intros W Hh HT Ec Ht Hp HP Hs Hr Hone.
  destruct (calm_current _ _ _ h cur t W Hh HT Ec Ht) as (Hrun & Hht & Hni & Hw).
  rewrite app_nil_r in Hni. destruct W. rewrite app_nil_r in *.
  constructor; cbn [y_s y_ipc set_y_ipc]; rewrite ?app_nil_r; try done.
  - rewrite HP. by constructor.
  - intros id Hid. rewrite HP, elem_of_cons in Hid. destruct Hid as [->|Hid].
    + exists t. split; [done|]. split_and!; [done..|]. right. split; [done|]. rewrite Hht. by left.
    + destruct (iw_wait0 id Hid) as (u & Hu & Hpu & Hwu & Hsu). exists u. split; [done|]. split_and!; [done..|].
      destruct Hsu as [?|[? ?]]; [by left|right; split; [done|by right]].
  - intros p Hp'. destruct (Hs p Hp') as [|(-> & ? & ? & _)]; [by apply iw_send0|]. eauto.
  - intros r Hr'. destruct (Hr r Hr') as [|(-> & ? & _)]; [by apply iw_recv0|]. eauto.
  - intros id u Hu Hb Hpu. rewrite HP. right. by eapply iw_blocked0.
  - intros id u w Hu Hwu. destruct (iw_woken0 id u w Hu Hwu) as (? & ? & ? & ?). split_and!; try done. by right.
  - intros h' Hh'. apply elem_of_cons in Hh' as [->|Hh'].
    + split; [done|]. exists cur, t. split_and!; try done. left. rewrite HP. by left.
    + destruct (iw_transit0 h' Hh') as (? & c & u & ? & ? & ? & Hor). split; [done|]. exists c, u.
      split_and!; try done. rewrite HP. destruct Hor as [?|?]; [left; by right|by right].
  - intros p r Hp' Hr'. destruct (Hs p Hp') as [Hp0|(_ & _ & _ & Hnm)], (Hr r Hr') as [Hr0|(_ & _ & Hnm')]; auto.
    destruct Hone as [E|E]; [rewrite E in Hp'|rewrite E in Hr']; auto.
Qed.

Definition others_calm (cur : N) (s s' : Scheduler) : Prop := ∀ i, i ≠ cur →
  match th s i, th s' i with
  | Some u, Some u' => keeps_wait u u'
  | None, Some u' => quiet u'
  | Some _, None => False
  | None, None => True
  end.

(** The thread of hart [h] on its way into [block_user_from_trap] arrives. *)
Lemma wf_arrive T h cur t t' y s' :
  ipc_wf T [] y → h ∈ T → vget (s_current (y_s y)) h = Some cur → th (y_s y) cur = Some t →
  sched_inv s' → others_calm cur (y_s y) s' → th s' cur = Some t' → t_proc t' = t_proc t →
  t_ipc_wake t' = None →
  (cur ∈ tids (y_ipc y) ∧ t_state t' = Blocked ∧ pc_ok t' ∨ (cur ∉ tids (y_ipc y)) ∧ t_state t' ≠ Blocked) →
  ipc_wf (filter (.≠ h) T) [] (set_y_s s' y).
Proof.
  intros W Hh Ec Ht I' Hoc Ht' Ep Ew Hcase.
  assert (Hold : ∀ i u, i ≠ cur → th (y_s y) i = Some u → ∃ u', th s' i = Some u' ∧ keeps_wait u u').
  { intros i u Hne Hu. specialize (Hoc i Hne). rewrite Hu in Hoc. destruct (th s' i); [by eauto|done]. }
  assert (Hnew : ∀ i u', i ≠ cur → th s' i = Some u' → (∃ u, th (y_s y) i = Some u ∧ keeps_wait u u') ∨ quiet u').
  { intros i u' Hne Hu'. specialize (Hoc i Hne). rewrite Hu' in Hoc. destruct (th (y_s y) i); [left; by eauto|by right]. }
  assert (Hhart : ∀ i u, i ≠ cur → th (y_s y) i = Some u → t_state u = Running → is_Some (t_proc u) → t_hart u ≠ h).
  { intros i u Hne Hu Hr Hp Eh. destruct (running_current _ i u (iw_sched _ _ _ W) Hu Hr Hp) as [_ ?]. congruence. }
  destruct (transit_running _ _ _ h W Hh) as (c & u & E1 & E2 & Hp & Hr & Hht & _).
  assert (c = cur) as -> by congruence. assert (u = t) as -> by congruence.
  constructor; cbn [y_s y_ipc set_y_s]; rewrite ?app_nil_r in *.
  - done.
  - pose proof (iw_nodup _ _ _ W). by rewrite app_nil_r in *.
  - intros i Hi. destruct (decide (i = cur)) as [->|Hne].
    + exists t'. split; [done|]. destruct Hcase as [(_ & Hb & Hpc)|[? _]]; [|done].
      split_and!; [by rewrite Ep|done|by left].
    + destruct (iw_wait _ _ _ W i) as (v & Hv & Hwt); [by rewrite app_nil_r|].
      destruct (Hold i v Hne Hv) as (v' & Hv' & Hk). exists v'. split; [done|].
      pose proof (waiter_keeps _ _ _ Hwt Hk) as (Hpv & Hwv & Hsv). split_and!; [done..|].
      destruct Hsv as [?|[Hrv HTv]]; [by left|right; split; [done|]]. apply list_elem_of_filter. split; [|done].
      destruct Hk as (Epv & Ehv & _ & Hbv & _). rewrite Ehv. apply (Hhart i v Hne Hv); [|by rewrite <-Epv].
      destruct Hwt as (_ & _ & [[Hb _]|[Hr' _]]); [|done]. destruct (Hbv Hb). congruence.
  - intros p Hp'. destruct (iw_send _ _ _ W p Hp') as (Hm & v & Hv & Hpid). split; [done|].
    destruct (decide (ps_tid p = cur)) as [E|Hne].
    + rewrite E in *. exists t'. assert (v = t) as -> by congruence. by rewrite Ep.
    + destruct (Hold _ v Hne Hv) as (v' & Hv' & Epv & _). exists v'. by rewrite Epv.
  - intros r Hr'. destruct (iw_recv _ _ _ W r Hr') as (v & Hv & Hpid).
    destruct (decide (rv_tid r = cur)) as [E|Hne].
    + rewrite E in *. exists t'. assert (v = t) as -> by congruence. by rewrite Ep.
    + destruct (Hold _ v Hne Hv) as (v' & Hv' & Epv & _). exists v'. by rewrite Epv.
  - intros i u' Hu' Hb Hpu. destruct (decide (i = cur)) as [->|Hne].
    + destruct Hcase as [[? _]|[_ ?]]; [done|]. congruence.
    + destruct (Hnew i u' Hne Hu') as [(v & Hv & Hk)|[_ Hq]]; [|rewrite (Hq Hb) in Hpu; by destruct Hpu].
      destruct Hk as (Epv & _ & _ & _ & _ & Hn).
      pose proof (iw_blocked _ _ _ W i v Hv) as Hbl. rewrite app_nil_r, Epv in *. apply Hbl; [|done].
      destruct (decide (t_state v = Blocked)); [done|]. by destruct (Hn n).
  - intros i u' w Hu' Hwu. destruct (decide (i = cur)) as [->|Hne]; [congruence|].
    destruct (Hnew i u' Hne Hu') as [(v & Hv & Hk)|[? _]]; [|congruence].
    destruct Hk as (Epv & Ehv & Ewv & _ & Erv & _). rewrite Ewv in Hwu.
    destruct (iw_woken _ _ _ W i v w Hv Hwu) as (Hrv & HTv & Hpv & Hok). rewrite Ehv, Epv.
    split_and!; [auto| |done..]. apply list_elem_of_filter. split; [|done]. by eapply Hhart.
  - intros h' [Hne' Hh']%list_elem_of_filter.
    destruct (transit_running _ _ _ h' W Hh') as (c & v & Ec' & Hv & Hpv & Hrv & Hhv & Hpend).
    rewrite app_nil_r in Hpend. split; [apply (iw_transit _ _ _ W h' Hh')|].
    assert (Hne : c ≠ cur) by (intros ->; congruence).
    destruct (Hold c v Hne Hv) as (v' & Hv' & Epv & Ehv & Ewv & _ & Erv & _).
    exists c, v'. rewrite Epv, Ewv. split_and!; try done.
    destruct (running_current s' c v' I' Hv') as [_ Hc]; [auto|by rewrite Epv|]. by rewrite Ehv, Hhv in Hc.
  - apply (iw_match _ _ _ W).
Qed.

(** ** The operations keep it *)

Lemma runs_ons {A} (m : M Scheduler A) y (Q : A → System → Prop) :
  runs m (y_s y) (λ a s', Q a (set_y_s s' y)) → runs (ons m) y Q.
Proof. intros (a & s' & E & HQ). exists a, (set_y_s s' y). split; [|done]. unfold ons, lift. by rewrite E. Qed.

Lemma take_first_Some {A} (p : A → bool) l x l' : take_first p l = Some (x, l') →
  ∃ a b, l = a ++ x :: b ∧ l' = a ++ b ∧ p x = true ∧ ∀ z, z ∈ a → p z = false.
Proof.
  revert l'. induction l as [|z l IH]; intros l'; cbn [take_first]; [done|].
  destruct (p z) eqn:Ez.
  - intros [= -> ->]. exists [], l'. split_and!; try done. intros z Hz. by apply elem_of_nil in Hz.
  - destruct (take_first p l) as [[v lv]|]; [|done]. intros [= -> <-].
    destruct (IH lv eq_refl) as (a & b & -> & -> & Hp & Ha). exists (z :: a), b. split_and!; try done.
    intros w [->|Hw]%elem_of_cons; auto.
Qed.

Lemma take_first_None {A} (p : A → bool) l : take_first p l = None → ∀ z, z ∈ l → p z = false.
Proof.
  induction l as [|x l IH]; cbn [take_first]; intros E z Hz; [by apply elem_of_nil in Hz|].
  destruct (p x) eqn:Ex; [done|]. destruct (take_first p l) as [[? ?]|]; [done|].
  apply elem_of_cons in Hz as [->|Hz]; auto.
Qed.

Lemma calm_threads X s s' : s_threads s' = s_threads s → calm X s s'.
Proof. intros E i. rewrite E. destruct (th s i); [left; apply keeps_wait_refl|done]. Qed.

Lemma wf_threads T D y s' : ipc_wf T D y → sched_inv s' → s_threads s' = s_threads (y_s y) → ipc_wf T D (set_y_s s' y).
Proof. intros W I' E. apply (wf_calm (λ _, False)); [done..|by apply calm_threads|done]. Qed.

Lemma msg_buf_ok m : msg_ok (msg_buf m).
Proof.
  unfold msg_ok, msg_buf, vlen. rewrite length_take, length_app, length_replicate. unfold MSG_WORDS. lia.
Qed.

(** What an answer does to the threads. *)
Definition answered (id : N) (t t' : Thread) (s s' : Scheduler) : Prop :=
  sched_inv s' ∧ ∀ i, th s' i = if decide (i = id) then Some t' else th s i.

Lemma answered_blocked id t t1 s s' : th s id = Some t → sched_inv s' →
  same_outer (enqueued id t1 (with_t id t1 s)) s' → answered id t (set_t_state Ready t1) s s'.
Proof.
  intros Ht I' E. split; [done|]. intros i. rewrite (same_outer_threads _ _ E).
  rewrite (th_enqueued id t1 (with_t id t1 s) i t1); [|by rewrite (th_with_t s id t1 t id Ht), decide_True].
  case_decide; [done|]. by rewrite (th_with_t s id t1 t i Ht), decide_False.
Qed.

Lemma answered_running id t t1 s s' : th s id = Some t → sched_inv s' → s' = with_t id t1 s → answered id t t1 s s'.
Proof. intros Ht I' ->. split; [done|]. intros i. by apply (th_with_t s id t1 t). Qed.

(** The answered thread: with the reply in its frame and ready, or told to take it. *)
Definition reply_thread (w : IpcWake) (buf : option (list N)) (t : Thread) : Thread :=
  if decide (t_state t = Blocked) then
    set_t_state Ready (match w with
      | WMsg m => delivered 0 m buf t
      | WErr code => delivered code [] buf t
      end)
  else set_t_ipc_wake (Some match w with WMsg m => WMsg (msg_buf m) | WErr c => WErr c end)
         (set_t_ipc_msg (Some match w with WMsg m => msg_buf m | WErr c => replicate (N.to_nat MSG_WORDS) c end) t).

Lemma wake_msg_answered id t msg s :
  sched_inv s → th s id = Some t → (∀ m, msg = Some m → msg_ok m) → (t_state t = Blocked → pc_ok t) →
  runs (ipc_wake_with_msg id msg) s
    (λ _ s', answered id t (reply_thread (WMsg (default [] msg)) (msg_buf <$> msg) t) s s').
Proof.
  intros I Ht Hm Hpc. eapply runs_mono; [by apply (ipc_wake_with_msg_inv s id t msg)|].
  intros _ s' [I' HQ]. unfold reply_thread. case_decide; [by apply answered_blocked|by eapply answered_running].
Qed.

Lemma wake_err_answered id t code s :
  sched_inv s → th s id = Some t → (t_state t = Blocked → pc_ok t) →
  runs (ipc_wake_with_err id code) s
    (λ _ s', answered id t (reply_thread (WErr code) (Some (replicate (N.to_nat MSG_WORDS) code)) t) s s').
Proof.
  intros I Ht Hpc. eapply runs_mono; [by apply (ipc_wake_with_err_inv s id t code)|].
  intros _ s' [I' HQ]. unfold reply_thread. case_decide; [by apply answered_blocked|by eapply answered_running].
Qed.

Lemma wf_answered T D id y s' t w buf :
  ipc_wf T (id :: D) y → th (y_s y) id = Some t → answered id t (reply_thread w buf t) (y_s y) s' →
  ipc_wf T D (set_y_s s' y).
Proof.
  intros W Ht [I' Hth]. eapply wf_wake; [exact W|exact I'|exact Ht|exact Hth|..]; unfold reply_thread.
  - case_decide; [by destruct w|done].
  - case_decide; [by destruct w|done].
  - intros Hb. rewrite decide_True by done. by destruct w.
  - intros Hr. rewrite decide_False by congruence. split; [done|]. eexists. split; [done|].
    destruct w; [apply msg_buf_ok|done].
Qed.

(** The thread at the head of [D] is told. *)
Lemma doomed_waiter T D id y : ipc_wf T (id :: D) y →
  ∃ t, th (y_s y) id = Some t ∧ waiter T t ∧ (t_state t = Blocked → pc_ok t).
Proof.
  intros W. destruct (iw_wait _ _ _ W id) as (t & Ht & Hw); [rewrite elem_of_app, elem_of_cons; tauto|].
  exists t. split_and!; [done..|]. intros Hb. destruct Hw as (_ & _ & [[_ ?]|[Hr _]]); [done|congruence].
Qed.

Lemma match_recv_Some dst pid rs r rest : match_recv dst pid rs = Some (r, rest) →
  ∃ a b, rs = a ++ r :: b ∧ rest = a ++ b ∧ rv_pid r = dst.
Proof.
  unfold match_recv. destruct (take_first (wants dst pid) rs) as [x|] eqn:E.
  - intros [= ->]. apply take_first_Some in E as (a & b & -> & -> & Hp & _).
    unfold wants in Hp. bool_to_prop. eauto.
  - intros E2. apply take_first_Some in E2 as (a & b & -> & -> & Hp & _).
    unfold wants in Hp. bool_to_prop. eauto.
Qed.

Lemma match_recv_None dst pid rs r : match_recv dst pid rs = None → r ∈ rs → rv_pid r = dst → rv_src r ≠ pid.
Proof.
  unfold match_recv. destruct (take_first (wants dst pid) rs) as [x|] eqn:E; [done|]. intros _ Hr Hp Hs.
  pose proof (take_first_None _ _ E r Hr) as Hn. unfold wants in Hn. by rewrite Hp, Hs, !N.eqb_refl in Hn.
Qed.

(** The caller of a system call on hart [h]: a thread of process [pid]. *)
Definition caller (T : list N) (y : System) (h pid cur : N) (t : Thread) : Prop :=
  h < MAX_HARTS ∧ (h ∉ T) ∧ vget (s_current (y_s y)) h = Some cur ∧ th (y_s y) cur = Some t ∧ t_proc t = Some pid.

Lemma runs_current_id h cur y (Q : N → System → Prop) :
  vget (s_current (y_s y)) h = Some cur → Q cur y → runs (ons (current_id h)) y Q.
Proof.
  intros E HQ. apply runs_ons. eapply runs_current; [done|]. by destruct y.
Qed.

Lemma tids_send_snoc ss rs p : tids (mkIpc (ss ++ [p]) rs) ≡ₚ ps_tid p :: tids (mkIpc ss rs).
Proof. unfold tids. cbn [i_sends i_recvs]. rewrite fmap_app. cbn. rewrite <-app_assoc. cbn. by rewrite <-Permutation_middle. Qed.

Lemma tids_recv_snoc ss rs r : tids (mkIpc ss (rs ++ [r])) ≡ₚ rv_tid r :: tids (mkIpc ss rs).
Proof. unfold tids. cbn [i_sends i_recvs]. rewrite fmap_app. cbn. by rewrite app_assoc, <-Permutation_cons_append. Qed.

Lemma ipc_eta ipc : mkIpc (i_sends ipc) (i_recvs ipc) = ipc.
Proof. by destruct ipc. Qed.

Lemma wf_donate T y cur t peer : ipc_wf T [] y → th (y_s y) cur = Some t →
  runs (ons (donate_on_block cur peer)) y (λ _ y', ipc_wf T [] y' ∧ y' = set_y_s (y_s y') y ∧ same_outer (y_s y) (y_s y')).
Proof.
  intros W Ht. apply runs_ons. eapply runs_mono; [apply donate_on_block_inv; [apply (iw_sched _ _ _ W)|by eapply vget_Some_lt]|].
  intros _ s' [I' E]. split_and!; [|by destruct y|done]. apply wf_threads; [done..|]. by apply same_outer_threads.
Qed.

(** [send], on every branch. *)
Lemma send_spec T y h pid slot msg cur t :
  ipc_wf T [] y → caller T y h pid cur t → msg_ok msg →
  runs (send h pid slot msg) y (λ r y', y_k y' = y_k y ∧
    match cap_target pid slot (y_k y) with
    | Err e => r = Err (cap_errno e) ∧ y' = y
    | Ok (CShm _) | Ok (CPage _) => r = Err SYS_ERR_EINVAL ∧ y' = y
    | Ok (CProc dst) =>
        match match_recv dst pid (i_recvs (y_ipc y)) with
        | Some (rv, rest) => r = Ok SDone ∧ ipc_wf T [] y' ∧ y_ipc y' = mkIpc (i_sends (y_ipc y)) rest ∧
            ∃ u, th (y_s y) (rv_tid rv) = Some u ∧ waiter T u ∧ t_proc u = Some dst ∧
              answered (rv_tid rv) u (reply_thread (WMsg msg) (Some (msg_buf msg)) u) (y_s y) (y_s y')
        | None => r = Ok SNoPeer ∧ ipc_wf (h :: T) [] y' ∧ same_outer (y_s y) (y_s y') ∧
            y_ipc y' = mkIpc (i_sends (y_ipc y) ++ [mkSend cur pid dst msg]) (i_recvs (y_ipc y))
        end
    end).
Proof.
  intros W (Hh & HT & Ec & Ht & Hp) Hmsg. unfold send. apply runs_bind, runs_get.
  destruct (cap_target pid slot (y_k y)) as [[dst|?|?]|e]; try (by apply runs_ret).
  apply runs_bind. eapply runs_current_id; [done|]. apply runs_bind, runs_gets.
  destruct (match_recv dst pid (i_recvs (y_ipc y))) as [[r rest]|] eqn:Em.
  - apply match_recv_Some in Em as (a & b & Ers & -> & Hdst). apply runs_bind, runs_modify.
    assert (Hin : r ∈ i_recvs (y_ipc y)) by (rewrite Ers; set_solver).
    assert (W1 : ipc_wf T [rv_tid r] (set_y_ipc (mkIpc (i_sends (y_ipc y)) (a ++ b)) y)).
    { apply (wf_move T [] [rv_tid r]); [done| |done|cbn; rewrite Ers; set_solver].
      unfold tids. cbn [i_sends i_recvs]. rewrite Ers, !fmap_app, fmap_cons. 
      by rewrite <-Permutation_cons_append, <-!Permutation_middle. }
    destruct (doomed_waiter _ _ _ _ W1) as (u & Hu & Hw & Hpc). cbn [y_s set_y_ipc] in Hu.
    destruct (iw_recv _ _ _ W r Hin) as (u' & Hu' & Hpu). assert (u' = u) as -> by congruence.
    apply runs_bind, runs_ons. eapply runs_mono; [apply (wake_msg_answered _ u (Some msg)); [apply (iw_sched _ _ _ W1)|done|by intros ? [= <-]|done]|].
    intros [] s' HA. cbn [from_option id] in HA. apply runs_ret. cbn [y_k y_s y_ipc set_y_s set_y_ipc]. split_and!; [done..| |done|].
    + by eapply wf_answered.
    + exists u. split_and!; [done|done|by rewrite Hpu, Hdst|done].
  - apply runs_bind, runs_modify. set (p := mkSend cur pid dst msg).
    assert (W1 : ipc_wf (h :: T) [] (set_y_ipc (mkIpc (i_sends (y_ipc y) ++ [p]) (i_recvs (y_ipc y))) y)).
    { apply (wf_register T h cur t); try done.
      - by rewrite tids_send_snoc, ipc_eta.
      - cbn. intros q [Hq|Hq%list_elem_of_singleton]%elem_of_app; [by left|right; subst q].
        split_and!; try done. intros r' Hr' Hd. by eapply match_recv_None.
      - cbn. intros r' Hr'. by left.
      - by right. }
    apply runs_bind. eapply runs_mono; [apply (wf_donate _ _ cur t dst W1); exact Ht|].
    intros [] y' (W' & Ey & E). apply runs_ret. split_and!; [by rewrite Ey|done|done|done|by rewrite Ey].
Qed.

Lemma take_send_Some src dst ss p rest : take_first (sent_by src dst) ss = Some (p, rest) →
  ∃ a b, ss = a ++ p :: b ∧ rest = a ++ b ∧ ps_pid p = src ∧ ps_dst p = dst.
Proof.
  intros E. apply take_first_Some in E as (a & b & -> & -> & Hp & _). unfold sent_by in Hp. bool_to_prop. eauto 10.
Qed.

(** [recv] from the resolved sender, on every branch. *)
Lemma recv_from_spec T y h pid src cur t :
  ipc_wf T [] y → caller T y h pid cur t →
  runs (recv_from h pid src) y (λ r y', y_k y' = y_k y ∧
    match take_first (sent_by src pid) (i_sends (y_ipc y)) with
    | Some (p, rest) => r = Ok (RDone (ps_msg p)) ∧ ipc_wf T [] y' ∧ y_ipc y' = mkIpc rest (i_recvs (y_ipc y)) ∧
        msg_ok (ps_msg p) ∧
        ∃ u, th (y_s y) (ps_tid p) = Some u ∧ waiter T u ∧ t_proc u = Some src ∧
          answered (ps_tid p) u (reply_thread (WMsg []) None u) (y_s y) (y_s y')
    | None => r = Ok RNoPeer ∧ ipc_wf (h :: T) [] y' ∧ same_outer (y_s y) (y_s y') ∧
        y_ipc y' = mkIpc (i_sends (y_ipc y)) (i_recvs (y_ipc y) ++ [mkRecv cur pid src])
    end).
Proof.
  intros W (Hh & HT & Ec & Ht & Hp). unfold recv_from.
  apply runs_bind. eapply runs_current_id; [done|]. apply runs_bind, runs_gets.
  destruct (take_first (sent_by src pid) (i_sends (y_ipc y))) as [[p rest]|] eqn:Em.
  - apply take_send_Some in Em as (a & b & Ess & -> & Hsrc & Hdst). apply runs_bind, runs_modify.
    assert (Hin : p ∈ i_sends (y_ipc y)) by (rewrite Ess; set_solver).
    assert (W1 : ipc_wf T [ps_tid p] (set_y_ipc (mkIpc (a ++ b) (i_recvs (y_ipc y))) y)).
    { apply (wf_move T [] [ps_tid p]); [done| |cbn; rewrite Ess; set_solver|done].
      unfold tids. cbn [i_sends i_recvs]. rewrite Ess, !fmap_app, fmap_cons.
      by rewrite <-Permutation_cons_append, <-Permutation_middle. }
    destruct (doomed_waiter _ _ _ _ W1) as (u & Hu & Hw & Hpc). cbn [y_s set_y_ipc] in Hu.
    destruct (iw_send _ _ _ W p Hin) as (Hm & u' & Hu' & Hpu). assert (u' = u) as -> by congruence.
    apply runs_bind, runs_ons. eapply runs_mono; [apply (wake_msg_answered _ u None); [apply (iw_sched _ _ _ W1)|done|done|done]|].
    intros [] s' HA. cbn [from_option id] in HA. apply runs_ret. cbn [y_k y_s y_ipc set_y_s set_y_ipc].
    split_and!; [done|done|by eapply wf_answered|done|done|].
    exists u. split_and!; [done|done|by rewrite Hpu, Hsrc|done].
  - apply runs_bind, runs_modify. set (rv := mkRecv cur pid src).
    assert (W1 : ipc_wf (h :: T) [] (set_y_ipc (mkIpc (i_sends (y_ipc y)) (i_recvs (y_ipc y) ++ [rv])) y)).
    { apply (wf_register T h cur t); try done.
      - by rewrite tids_recv_snoc, ipc_eta.
      - cbn. intros q Hq. by left.
      - cbn. intros q [Hq|Hq%list_elem_of_singleton]%elem_of_app; [by left|right; subst q].
        split_and!; try done. intros p Hp' Hd Hs. pose proof (take_first_None _ _ Em p Hp') as Hn.
        unfold sent_by in Hn. cbn in Hd, Hs. by rewrite <-Hs, <-Hd, !N.eqb_refl in Hn.
      - by left. }
    apply runs_bind. destruct (src =? IPC_ACCEPT_ANY).
    + apply runs_ret, runs_ret. split_and!; try done.
    + eapply runs_mono; [apply (wf_donate _ _ cur t src W1); exact Ht|].
      intros [] y' (W' & Ey & E). apply runs_ret. split_and!; [by rewrite Ey|done|done|done|by rewrite Ey].
Qed.

(** ** Arriving in [block_user_from_trap] *)

Lemma vget_None_ge {A} (l : list A) i : vget l i = None ↔ vlen l ≤ i.
Proof.
  split; intros H.
  - destruct (N.le_gt_cases (vlen l) i) as [|Hlt]; [done|]. destruct (vget_lt_Some l i Hlt). congruence.
  - destruct (vget l i) eqn:E; [|done]. apply vget_Some_lt in E. lia.
Qed.

Lemma len_none s s' i : len_same s s' → th s i = None → th s' i = None.
Proof. unfold len_same. rewrite !vget_None_ge. intros ->. done. Qed.

(** A hart that hands over from [cur], which blocks: the others are left alone. *)
Lemma handed_over_calm h cur t1 cpu s r s' :
  (∀ i, th s i = None → th s' i = None) → handed_over h cur cpu (blocking h cur t1 s) r s' → is_Some (th s cur) →
  t_state t1 = Blocked → others_calm cur s s' ∧ th s' cur = Some (set_t_ctx cpu t1).
Proof.
  intros Hnone (next & tn & _ & Hn & _ & Hst & _ & _ & Hth) [t Ht] Hb.
  assert (Hbl : ∀ i, th (blocking h cur t1 s) i = if decide (i = cur) then Some t1 else th s i).
  { intros i. exact (th_with_t s cur t1 t i Ht). }
  assert (Hne : next ≠ cur).
  { intros ->. rewrite Hbl, decide_True in Hn by done. injection Hn as <-. destruct Hst as [[? _]|[? _]]; congruence. }
  split.
  - intros i Hi. specialize (Hbl i). rewrite decide_False in Hbl by done.
    destruct (th s i) as [u|] eqn:Eu; [|by rewrite Hnone].
    pose proof (Hth i u Hbl) as Hthi. cbv zeta in Hthi. rewrite (decide_False (P := i = cur)) in Hthi by done. rewrite Hthi.
    case_decide as Ei; [|apply keeps_wait_refl]. subst i. assert (tn = u) as -> by congruence.
    unfold keeps_wait. cbn. split_and!; try done; destruct Hst as [[? _]|[? _]]; congruence.
  - specialize (Hbl cur). rewrite decide_True in Hbl by done. pose proof (Hth cur t1 Hbl) as Hc. cbv zeta in Hc.
    rewrite decide_True in Hc by done. by rewrite decide_False in Hc by done.
Qed.

Definition frame_ok (frame : list N) : Prop :=
  vlen frame = FRAME_WORDS ∧ ∃ pc, vget frame FRAME_SEPC = Some pc ∧ pc + 4 ≤ USIZE_MAX.

Lemma block_user_wf T y h frame cpu cur t :
  ipc_wf T [] y → h ∈ T → vget (s_current (y_s y)) h = Some cur → th (y_s y) cur = Some t →
  cpu_ok cpu → frame_ok frame →
  runs (ons (block_user_from_trap h frame cpu)) y (λ o y', ipc_wf (filter (.≠ h) T) [] y' ∧
    y' = set_y_s (y_s y') y ∧
    match o with
    | inl f => ∃ w, t_ipc_wake t = Some w ∧ f = wake_frame w frame ∧ vget (s_current (y_s y')) h = Some cur
    | inr r => t_ipc_wake t = None ∧ cur ∈ tids (y_ipc y) ∧
        th (y_s y') cur = Some (set_t_ctx cpu (frame_blocked frame t)) ∧
        handed_over h cur cpu (blocking h cur (frame_blocked frame t) (y_s y)) r (y_s y')
    end).
Proof.
  intros W HT Ec Ht Hcpu [Hf Hpc]. destruct (transit_running _ _ _ h W HT) as (c & u & E1 & E2 & Hp & Hr & Hht & Hpend).
  assert (c = cur) as -> by congruence. assert (u = t) as -> by congruence.
  destruct (iw_transit _ _ _ W h HT) as [Hh _]. pose proof (iw_sched _ _ _ W) as I.
  assert (Hni : vget (s_idle (y_s y)) h ≠ Some cur).
  { intros Ei. destruct (co_idle _ _ (in_core _ I) h Hh) as (b & tb & Eb & Etb & _ & Hpb & _).
    assert (b = cur) as -> by congruence. assert (tb = t) as -> by congruence. rewrite Hpb in Hp. by destruct Hp. }
  assert (Hwake : ∀ m, t_ipc_wake t = Some (WMsg m) → vlen m = MSG_WORDS).
  { intros m Em. by destruct (iw_woken _ _ _ W cur t _ Ht Em) as (_ & _ & _ & ?). }
  assert (Hlen : ∀ o s', block_user_from_trap h frame cpu (y_s y) = Ret (o, s') → len_same (y_s y) s').
  { intros o s'. apply len_block_user. }
  apply runs_ons. destruct (block_user_inv (y_s y) h frame cpu cur t I Hh Hcpu Ec Ht Hni Hf Hwake Hpc)
    as (o & s' & E & I' & HQ). exists o, s'. split; [done|].
  assert (Hnone : ∀ i, th (y_s y) i = None → th s' i = None) by (intros i; apply len_none; by eapply Hlen).
  destruct o as [f|r].
  - destruct HQ as ((w & Ew & ->) & Ecu & Hth). split_and!; [|done|by eauto].
    apply (wf_arrive T h cur t (set_t_state Running (set_t_ipc_wake None t))); try done.
    + intros i Hi. rewrite Hth, decide_False by done. destruct (th (y_s y) i); [apply keeps_wait_refl|done].
    + by rewrite Hth, decide_True.
    + right. split; [|done]. intros Hin. destruct (iw_wait _ _ _ W cur) as (v & Ev & _ & Hw & _); [by rewrite app_nil_r|].
      congruence.
  - destruct HQ as [Ew HO]. destruct (handed_over_calm h cur (frame_blocked frame t) cpu (y_s y) r s') as [Hoc Hcur]; [done..|].
    assert (Hin : cur ∈ tids (y_ipc y)).
    { rewrite app_nil_r in Hpend. destruct Hpend as [|[w ?]]; [done|congruence]. }
    split_and!; [|done..].
    eapply (wf_arrive T h cur t); try done. left. split_and!; [done..|]. destruct Hpc as (pc & Epc & Hle).
    unfold pc_ok. cbn. by rewrite Epc.
Qed.

(** ** Other steps of the scheduler *)

Definition keeps_state (u u' : Thread) : Prop :=
  (t_state u = Blocked → t_state u' = Blocked ∧ t_frame u' = t_frame u) ∧
  (t_state u = Running → is_Some (t_proc u) → t_state u' = Running) ∧
  (t_state u ≠ Blocked → t_state u' ≠ Blocked).

Lemma keeps_state_refl u : keeps_state u u.
Proof. by split_and!. Qed.

(** A ready or idle thread that is picked. *)
Lemma keeps_state_run u : t_state u = Ready ∨ t_state u = Running → keeps_state u (set_t_state Running u).
Proof. intros H. split_and!; cbn; try done. intros ?. destruct H; congruence. Qed.

(** A step of hart [h], outside the message path. *)
Lemma wf_local T h cur t y s' :
  ipc_wf T [] y → h < MAX_HARTS → h ∉ T → vget (s_current (y_s y)) h = Some cur → th (y_s y) cur = Some t →
  sched_inv s' → wake_same (y_s y) s' →
  (∀ i u u', i ≠ cur → th (y_s y) i = Some u → th s' i = Some u' → keeps_state u u') →
  (∀ u', th s' cur = Some u' → t_state u' ≠ Blocked) →
  ipc_wf T [] (set_y_s s' y).
Proof.
  intros W Hh HT Ec Ht I' Hws Hk Hcur.
  destruct (calm_current _ _ _ h cur t W Hh HT Ec Ht) as (_ & _ & Hni & Hw).
  apply (wf_calm (.= cur)); [done..| |].
  - intros i. specialize (Hws i). destruct (th (y_s y) i) as [u|] eqn:Eu; [|by destruct (th s' i)].
    destruct (th s' i) as [u'|] eqn:Eu'; [|done]. destruct Hws as (E1 & E2 & E3).
    destruct (decide (i = cur)) as [->|Hne].
    + right. split; [done|]. split; [congruence|]. intros Hb. by destruct (Hcur u').
    + left. by split_and!; try apply (Hk i u u').
  - intros i u -> Hu. by assert (u = t) as -> by congruence.
Qed.

Lemma running_not_blocked s h cur u : sched_inv s → h < MAX_HARTS → vget (s_current s) h = Some cur →
  th s cur = Some u → t_state u = Running.
Proof. intros I Hh Ec Hu. destruct (in_current _ I h Hh) as (c & v & E1 & E2 & Hr & _). congruence. Qed.

Lemma tick_wf img T y h frame :
  ipc_wf T [] y → h < MAX_HARTS → h ∉ T → vlen frame = FRAME_WORDS →
  runs (ons (on_tick img h frame)) y (λ _ y', ipc_wf T [] y').
Proof.
  intros W Hh HT Hf. pose proof (iw_sched _ _ _ W) as I.
  destruct (in_current _ I h Hh) as (cur & t & Ec & Ht & _).
  apply runs_ons. destruct (on_tick_inv img h cur t frame (y_s y) I Hh Ec Ht Hf) as (f & s' & E & I' & HT').
  exists f, s'. split; [done|].
  apply (wf_local T h cur t); try done; [by eapply wake_on_tick| |].
  - intros i u u' Hne Hu Hu'. destruct HT' as [(_ & _ & Hso & _)|(next & tn & Hn & Ecu & Htn & Hr & _ & _ & _ & _ & _ & Hso)].
    + rewrite Hso, Hu in Hu' by done. injection Hu' as <-. apply keeps_state_refl.
    + destruct (decide (i = next)) as [->|Hnn].
      * assert (tn = u) as -> by congruence. pose proof (running_not_blocked s' h next u' I' Hh Ecu Hu').
        split_and!; congruence.
      * rewrite Hso, Hu in Hu' by done. injection Hu' as <-. apply keeps_state_refl.
  - intros u' Hu'. destruct HT' as [(_ & Ecu & _)|(next & tn & _ & _ & _ & _ & _ & _ & _ & _ & Hcap & _)].
    + by rewrite (running_not_blocked s' h cur u' I' Hh Ecu Hu').
    + rewrite Hcap in Hu'. by injection Hu' as <-.
Qed.

Lemma yield_wf T y h cpu :
  ipc_wf T [] y → h < MAX_HARTS → h ∉ T → cpu_ok cpu → runs (ons (yield_ h cpu)) y (λ _ y', ipc_wf T [] y').
Proof.
  intros W Hh HT Hcpu. pose proof (iw_sched _ _ _ W) as I.
  destruct (in_current _ I h Hh) as (cur & t & Ec & Ht & _).
  apply runs_ons. destruct (yield_inv (y_s y) h cpu cur t I Hh Hcpu Ec Ht) as (r & s' & E & I' & HO).
  exists r, s'. split; [done|].
  destruct HO as (next & tn & _ & Hn & _ & Hst & _ & _ & Hth).
  pose proof (yielding_thread h cur t (y_s y) Ht) as Hy.
  apply (wf_local T h cur t); try done; [by eapply wake_yield| |].
  - intros i u u' Hne Hu Hu'. assert (Hyi : th (yielding h cur t (y_s y)) i = Some u) by (by rewrite Hy, decide_False).
    pose proof (Hth i u Hyi) as Hi. cbv zeta in Hi. rewrite (decide_False (P := i = cur)) in Hi by done.
    rewrite Hi in Hu'. injection Hu' as <-. case_decide as Ei; [|apply keeps_state_refl].
    subst i. assert (tn = u) as -> by congruence. apply keeps_state_run. destruct Hst as [[? _]|[? _]]; auto.
  - intros u' Hu'. specialize (Hy cur). rewrite decide_True in Hy by done. pose proof (Hth _ _ Hy) as Hc. cbv zeta in Hc.
    rewrite decide_True in Hc by done. rewrite Hc in Hu'. injection Hu' as <-. by case_decide.
Qed.

Lemma exit_wf T y h cpu :
  ipc_wf T [] y → h < MAX_HARTS → h ∉ T → cpu_ok cpu → vget (s_current (y_s y)) h ≠ vget (s_idle (y_s y)) h →
  runs (ons (exit_from_trap h cpu)) y (λ _ y', ipc_wf T [] y').
Proof.
  intros W Hh HT Hcpu Hni. pose proof (iw_sched _ _ _ W) as I.
  destruct (in_current _ I h Hh) as (cur & t & Ec & Ht & _).
  apply runs_ons. destruct (exit_inv (y_s y) h cpu cur t I Hh Hcpu Ec Ht) as (r & s' & E & I' & (t1 & Ht1 & Hx & _) & next & Hoth);
    [congruence|]. exists r, s'. split; [exact E|].
  apply (wf_local T h cur t); try done; [by eapply wake_exit| |].
  - intros i u u' Hne Hu Hu'. destruct (Hoth i u Hne Hu) as [Hn Hi]. rewrite Hi in Hu'. injection Hu' as <-.
    case_decide; [by apply keeps_state_run, Hn|apply keeps_state_refl].
  - intros u' Hu'. congruence.
Qed.

Lemma wake_force_kill img h f s : stays wake_same (force_kill_current img h f) s.
Proof. unfold force_kill_current, free_slot, set_kill, expand_ctx_to_frame. wake_auto. Qed.

Lemma force_kill_wf img T y h frame :
  ipc_wf T [] y → h < MAX_HARTS → h ∉ T → vget (s_current (y_s y)) h ≠ vget (s_idle (y_s y)) h →
  idle_enterable (y_s y) h → runs (ons (force_kill_current img h frame)) y (λ _ y', ipc_wf T [] y').
Proof.
  intros W Hh HT Hni Hidle. pose proof (iw_sched _ _ _ W) as I.
  destruct (in_current _ I h Hh) as (cur & t & Ec & Ht & _). apply runs_ons.
  destruct (force_kill_current_inv img h cur frame (y_s y)) as (f & s' & E & I' & HR); [done|done|done|congruence|done|].
  exists f, s'. split; [done|]. destruct HR as [[_ ->]|(next & tn & u & Hne & Htn & Hst & Ec' & Hu & Hx & Ho)].
  { by destruct y. }
  apply (wf_local T h cur t); try done; [by eapply wake_force_kill| |congruence].
  intros i v v' Hi Hv Hv'. destruct (decide (i = next)) as [->|Hin].
  - assert (tn = v) as -> by congruence. pose proof (running_not_blocked s' h next v' I' Hh Ec' Hv') as Hr.
    split_and!; [|done|congruence]. destruct Hst; congruence.
  - rewrite Ho, Hv in Hv' by done. injection Hv' as <-. apply keeps_state_refl.
Qed.

Lemma spawn_user_wf img T y h root pid pc sp prio argc argv :
  ipc_wf T [] y → h < MAX_HARTS → has_slot (y_s y) →
  runs (ons (spawn_user img h root pid pc sp prio argc argv)) y (λ _ y', ipc_wf T [] y').
Proof.
  intros W Hh Hslot. pose proof (iw_sched _ _ _ W) as I. apply runs_ons.
  eapply runs_mono; [by apply spawn_user_inv|]. intros id s' (-> & I' & Es').
  set (u := user_thread _ _ _ _ _ _ _ _ _) in Es'.
  assert (Hth : ∀ i, th s' i = if decide (i = slot_of (y_s y)) then Some u else th (y_s y) i).
  { intros i. rewrite Es'. pose proof (th_placed (y_s y) u (slot_of (y_s y)) I Hslot) as Hp. rewrite decide_True in Hp by done.
    rewrite (th_enqueued (slot_of (y_s y)) u (placed u (y_s y)) i u Hp). case_decide; [done|].
    by rewrite (th_placed (y_s y) u i I Hslot), decide_False. }
  apply (wf_calm (.= slot_of (y_s y))); [done..| |].
  - intros i. rewrite Hth. case_decide as Ei.
    + destruct (th (y_s y) i); [right; split; [done|]|]; by split.
    + destruct (th (y_s y) i); [left; apply keeps_wait_refl|done].
  - intros i v -> Hv. pose proof (slot_dead _ v I Hv) as Hx. split.
    + intros Hin. destruct (iw_wait _ _ _ W _ Hin) as (v' & Hv' & _ & _ & Hs). assert (v' = v) as -> by congruence.
      destruct Hs as [[? _]|[? _]]; congruence.
    + destruct (t_ipc_wake v) as [w|] eqn:Ew; [|done]. destruct (iw_woken _ _ _ W _ v w Hv Ew). congruence.
Qed.

(** ** Killing a process *)

Definition own_tids (pid : N) (ipc : IpcState) : list N :=
  (ps_tid <$> filter (λ s, ps_pid s =? pid) (i_sends ipc)) ++
  (rv_tid <$> filter (λ r, rv_pid r =? pid) (i_recvs ipc)).

Lemma purge_split {A} (f : A → N) (gone mine : A → bool) l :
  f <$> l ≡ₚ (f <$> filter (λ x, negb (mine x)) (filter (λ x, negb (gone x)) l)) ++
    (f <$> filter (λ x, gone x && negb (mine x)) l) ++ (f <$> filter (λ x, mine x) l).
Proof.
  induction l as [|x l IH]; [done|]. rewrite !filter_cons. rewrite fmap_cons, IH.
  destruct (gone x) eqn:Eg, (mine x) eqn:Em; cbn [negb andb Is_true];
    repeat first [rewrite decide_True by done|rewrite decide_False by (intros []; done)]; rewrite ?filter_cons;
    repeat first [rewrite Em; cbn [negb Is_true]|rewrite decide_True by done|rewrite decide_False by (intros []; done)];
    cbn [fmap list_fmap app]; by rewrite <-?Permutation_middle.
Qed.

Lemma tids_purge pid ipc : tids ipc ≡ₚ tids (purged pid ipc) ++ orphans pid ipc ++ own_tids pid ipc.
Proof.
  unfold tids, purged, orphans, own_tids. cbn [i_sends i_recvs].
  rewrite (purge_split ps_tid (λ s, ps_dst s =? pid) (λ s, ps_pid s =? pid)) at 1.
  rewrite (purge_split rv_tid (λ r, rv_src r =? pid) (λ r, rv_pid r =? pid)) at 1.
  solve_Permutation.
Qed.

Definition err_thread (code : N) (t : Thread) : Thread :=
  reply_thread (WErr code) (Some (replicate (N.to_nat MSG_WORDS) code)) t.

Lemma wake_all_wf T l D y code :
  ipc_wf T (l ++ D) y →
  runs (for_each (λ tid, ons (ipc_wake_with_err tid code)) l) y (λ _ y', ipc_wf T D y' ∧ y' = set_y_s (y_s y') y ∧
    ∀ i, th (y_s y') i = if decide (i ∈ l) then err_thread code <$> th (y_s y) i else th (y_s y) i).
Proof.
  revert y. induction l as [|id l IH]; intros y W; cbn [for_each app].
  - apply runs_ret. split_and!; [done|by destruct y|done].
  - destruct (doomed_waiter _ _ _ _ W) as (u & Hu & _ & Hpc). apply runs_bind, runs_ons.
    eapply runs_mono; [by apply (wake_err_answered id u code); [apply (iw_sched _ _ _ W)|..]|].
    intros [] s1 HA. pose proof (wf_answered _ _ _ _ _ _ _ _ W Hu HA) as W1.
    eapply runs_mono; [apply (IH _ W1)|]. intros [] y' (W' & Ey & Hth). split_and!; [done|by rewrite Ey; destruct y|].
    assert (Hni : id ∉ l).
    { pose proof (iw_nodup _ _ _ W) as Hnd. cbn [app] in Hnd. rewrite <-Permutation_middle in Hnd. apply NoDup_cons in Hnd as [Hni _]. set_solver. }
    destruct HA as [_ HA]. intros i. rewrite Hth. cbn [y_s set_y_s]. rewrite HA.
    destruct (decide (i = id)) as [->|Hne].
    + rewrite decide_False by done. rewrite decide_True by set_solver. by rewrite Hu.
    + destruct (decide (i ∈ l)); [by rewrite decide_True by set_solver|by rewrite decide_False by set_solver].
Qed.

Lemma purge_wf T y pid :
  ipc_wf T [] y →
  runs (purge_process pid) y (λ _ y', ipc_wf T (own_tids pid (y_ipc y)) y' ∧
    y_k y' = y_k y ∧ y_ipc y' = purged pid (y_ipc y) ∧
    ∀ i, th (y_s y') i = if decide (i ∈ orphans pid (y_ipc y)) then err_thread SYS_ERR_ENOENT <$> th (y_s y) i
                         else th (y_s y) i).
Proof.
  intros W. unfold purge_process. apply runs_bind, runs_gets. apply runs_bind, runs_modify.
  pose proof (wf_move T [] (orphans pid (y_ipc y) ++ own_tids pid (y_ipc y)) (purged pid (y_ipc y)) y W) as W1.
  rewrite app_nil_r in W1. eapply runs_mono; [apply wake_all_wf, W1|].
  - apply tids_purge.
  - cbn. intros p (_ & (_ & Hp)%list_elem_of_filter)%list_elem_of_filter. done.
  - cbn. intros r (_ & (_ & Hr)%list_elem_of_filter)%list_elem_of_filter. done.
  - intros [] y' (W' & Ey & Hth). split_and!; [done|by rewrite Ey|by rewrite Ey|]. exact Hth.
Qed.

Lemma purged_other pid ipc id : id ∈ tids (purged pid ipc) →
  (∃ p, p ∈ i_sends ipc ∧ ps_tid p = id ∧ ps_pid p ≠ pid) ∨ (∃ r, r ∈ i_recvs ipc ∧ rv_tid r = id ∧ rv_pid r ≠ pid).
Proof.
  unfold tids, purged. cbn [i_sends i_recvs]. rewrite elem_of_app, !list_elem_of_fmap.
  intros [(p & -> & Hp)|(r & -> & Hr)]; [left|right].
  - rewrite !list_elem_of_filter in Hp. destruct Hp as (H1 & H2 & Hp). exists p. split_and!; try done.
    intros E. by rewrite E, N.eqb_refl in H1.
  - rewrite !list_elem_of_filter in Hr. destruct Hr as (H1 & H2 & Hr). exists r. split_and!; try done.
    intros E. by rewrite E, N.eqb_refl in H1.
Qed.

Lemma own_tids_spec pid ipc id : id ∈ own_tids pid ipc →
  (∃ p, p ∈ i_sends ipc ∧ ps_tid p = id ∧ ps_pid p = pid) ∨ (∃ r, r ∈ i_recvs ipc ∧ rv_tid r = id ∧ rv_pid r = pid).
Proof.
  unfold own_tids. rewrite elem_of_app, !list_elem_of_fmap.
  intros [(p & -> & (H1 & Hp)%list_elem_of_filter)|(r & -> & (H1 & Hr)%list_elem_of_filter)]; [left|right];
    apply Is_true_eq_true in H1; bool_to_prop; eauto.
Qed.

(** [kill_locked] leaves the threads of other processes alone. *)
Lemma wake_kill_victims vs s : stays wake_same (kill_victims vs) s.
Proof. revert s. induction vs as [|v vs IH]; intros s; cbn [kill_victims]; unfold set_kill, free_slot; wake_auto. Qed.
#[export] Hint Resolve wake_kill_victims : stays.
Lemma wake_revoke_of tids skip s : stays wake_same (revoke_donations_of tids skip) s.
Proof. unfold revoke_donations_of. wake_auto. Qed.
Lemma wake_revoke_for p s : stays wake_same (revoke_donations_for_proc p) s.
Proof. unfold revoke_donations_for_proc. wake_auto. Qed.
#[export] Hint Resolve wake_revoke_of wake_revoke_for : stays.
Lemma wake_kill_locked h pid s : stays wake_same (kill_locked h pid) s.
Proof. unfold kill_locked. wake_auto. Qed.

(** The harts named in the requests exist. *)
Lemma kill_victims_harts vs s force s' :
  kill_victims vs s = Ret (force, s') → vlen (s_threads s) ≤ MAX_THREADS →
  (∀ i u, th s i = Some u → t_hart u < MAX_HARTS) →
  ∀ pk, pk ∈ force → N.shiftr pk FORCE_PACK_HART_SHIFT < MAX_HARTS.
Proof.
  revert s force. induction vs as [|v vs IH]; intros s force E Hlen Hh pk Hpk; cbn [kill_victims] in E.
  { injection E as <- _. by apply elem_of_nil in Hpk. }
  apply bind_ret_inv in E as (t & s0 & Et & E).
  assert (s0 = s ∧ th s v = Some t) as [-> Ht].
  { unfold thread, mbind, M_bind, get in Et. destruct (th s v); cbn in Et; [by injection Et as -> ->|done]. }
  assert (Hlt : v < 64) by (apply vget_Some_lt in Ht; unfold MAX_THREADS in Hlen; lia).
  assert (Hnext : ∀ (m : MS ()) s1 fs, stays wake_same m s → m s = Ret (tt, s1) → kill_victims vs s1 = Ret (fs, s') →
    pk ∈ fs → N.shiftr pk FORCE_PACK_HART_SHIFT < MAX_HARTS).
  { intros m s1 fs Hm Em Ek Hin. pose proof (Hm _ _ Em) as Hws. apply (IH s1 fs Ek); [|intros i u Hu|done].
    - pose proof (wake_len _ _ Hws) as El. unfold len_same in El. lia.
    - specialize (Hws i). rewrite Hu in Hws. destruct (th s i) as [u0|] eqn:E0; [|done].
      destruct Hws as (_ & _ & ->). by apply (Hh i). }
  destruct (is_state Running t).
  - apply bind_ret_inv in E as ([] & s1 & E1 & E). apply bind_ret_inv in E as (fs & s2 & E2 & E). injection E as <- <-.
    apply elem_of_cons in Hpk as [->|Hpk]; [|eapply (Hnext (set_kill v true)); [unfold set_kill; wake_auto|done..]].
    rewrite N.shiftr_lor, N.shiftr_shiftl_l by done. rewrite N.sub_diag, N.shiftl_0_r.
    replace (N.shiftr v FORCE_PACK_HART_SHIFT) with 0; [rewrite N.lor_0_l; by apply (Hh v)|].
    symmetry. rewrite N.shiftr_div_pow2. apply N.div_small. unfold FORCE_PACK_HART_SHIFT. lia.
  - apply bind_ret_inv in E as ([] & s1 & E1 & E). apply bind_ret_inv in E as ([] & s2 & E2 & E).
    apply bind_ret_inv in E as ([] & s3 & E3 & E).
    apply (Hnext (take_stack v;; upd_thread v (λ t, set_t_ctx_valid false (set_t_frame_valid false (set_t_state Exited t)));; free_slot v) s3 force);
      [unfold free_slot; wake_auto| |done..].
    by rewrite (bind_ret _ _ _ _ _ E1), (bind_ret _ _ _ _ _ E2).
Qed.

Lemma err_thread_fields code u :
  t_proc (err_thread code u) = t_proc u ∧ t_hart (err_thread code u) = t_hart u ∧
  (t_state (err_thread code u) = if decide (t_state u = Blocked) then Ready else t_state u).
Proof. unfold err_thread, reply_thread. by case_decide. Qed.

Lemma inv_kills s n : sched_inv s → sched_inv (set_s_kills n s).
Proof. intros I. apply (inv_outer s); try done. pose proof (in_core _ I) as C. core_frame_from C. by destruct (co_shape _ _ C). Qed.

Lemma get_expect_state {S A} (f : S → option A) s a s' : (s ← get; expect (f s)) s = Ret (a, s') → s' = s.
Proof. rewrite bind_get. destruct (f s); [by intros [= _ <-]|done]. Qed.

Lemma kill_locked_wf T D y h pid :
  ipc_wf T D y → h < MAX_HARTS → none_exited (y_s y) pid →
  (∀ i u, i ∈ tids (y_ipc y) → th (y_s y) i = Some u → t_proc u ≠ Some pid) →
  (∀ i u, i ∈ D → th (y_s y) i = Some u → t_proc u = Some pid ∧ t_state u = Blocked) →
  runs (ons (kill_locked h pid)) y (λ r y', ipc_wf T [] y' ∧ y' = set_y_s (y_s y') y ∧
    (∀ pk, pk ∈ r.2 → N.shiftr pk FORCE_PACK_HART_SHIFT < MAX_HARTS) ∧
    (∀ i u, th (y_s y') i = Some u → t_proc u = Some pid → t_state u = Exited ∨ t_state u = Running) ∧
    ∀ i u, th (y_s y) i = Some u → t_proc u ≠ Some pid → th (y_s y') i = Some u).
Proof.
  intros W Hh Hne Htids HD. pose proof (iw_sched _ _ _ W) as I.
  destruct (in_current _ I h Hh) as (cur & t & Ec & Ht & Hrun & _).
  apply runs_ons. destruct (kill_locked_inv (y_s y) h pid cur t I Hh Ec Ht Hne) as (r & s' & E & I' & _ & _ & Hth).
  exists r, s'. split; [done|]. pose proof (wake_kill_locked _ _ _ _ _ E) as Hws.
  assert (Hquiet : ∀ i u, th (y_s y) i = Some u → t_state u ≠ Running → t_ipc_wake u = None).
  { intros i u Hu Hr. destruct (t_ipc_wake u) as [w|] eqn:Ew; [|done]. by destruct (iw_woken _ _ _ W i u w Hu Ew). }
  split_and!; [|by destruct y| | |intros i u Hu Hp; cbn [y_s set_y_s]; rewrite (Hth i u Hu), decide_False by naive_solver; done].
  - apply (wf_calm_drop (λ i, ∃ u, th (y_s y) i = Some u ∧ t_proc u = Some pid ∧ t_state u ≠ Running) T D []); try done.
    + intros i. destruct (th (y_s y) i) as [u|] eqn:Eu.
      * rewrite (Hth i u Eu). case_decide as Hd; [|left; apply keeps_wait_refl]. right. destruct Hd as (Hp & _ & Hr).
        split; [by eauto|]. split; [exact (Hquiet i u Eu Hr)|done].
      * specialize (Hws i). rewrite Eu in Hws. by destruct (th s' i).
    + rewrite app_nil_r. pose proof (iw_nodup _ _ _ W) as Hnd. by apply NoDup_app in Hnd as [? _].
    + apply list_subseteq_nil.
    + intros i u (v & Hv & Hp & Hr) Hu. assert (v = u) as -> by congruence. rewrite app_nil_r.
      split; [|by apply (Hquiet i)]. intros Hin. by destruct (Htids i u Hin Hu).
    + intros i u Hi _ Hu. destruct (HD i u Hi Hu) as [Hp Hb]. split; [done|]. intros u' Hu'.
      rewrite (Hth i u Hu), decide_True in Hu'; [|split_and!; [done| |congruence]; intros ->; congruence].
      injection Hu' as <-. split; [apply (Hquiet i u Hu); congruence|done].
  - unfold kill_locked in E. cbn [mbind] in E. rewrite bind_get in E.
    apply bind_ret_inv in E as (c & s1 & E1 & E). apply bind_ret_inv in E as (tc & s2 & E2 & E).
    assert (Hs1 : s1 = y_s y) by (apply (get_expect_state (λ s, vget (s_current s) h) _ _ _ E1)).
    assert (Hs2 : s2 = s1) by (apply (get_expect_state (λ s, th s c) _ _ _ E2)).
    subst s1 s2. cbv zeta in E. rewrite bind_modify in E. apply bind_ret_inv in E as (force & s3 & E3 & E).
    apply bind_ret_inv in E as ([] & s4 & _ & E). apply bind_ret_inv in E as ([] & s5 & _ & E).
    apply bind_ret_inv in E as ([] & s6 & _ & E). injection E as <- _. cbn [snd].
    eapply kill_victims_harts; [exact E3|cbn; apply (sh_threads _ (co_shape _ _ (in_core _ I)))|].
    intros i u Hu. by destruct (co_threads _ _ (in_core _ I) i u Hu) as (_ & ? & _).
  - intros i u' Hu' Hp'. cbn [y_s set_y_s] in Hu'. pose proof (Hws i) as Hi. rewrite Hu' in Hi.
    destruct (th (y_s y) i) as [u|] eqn:Eu; [|done]. destruct Hi as (_ & Ep & _). rewrite (Hth i u Eu) in Hu'.
    case_decide as Hd; injection Hu' as <-; [by left|]. right.
    destruct (decide (t_state u = Running)) as [|Hr]; [done|]. destruct (decide (i = cur)) as [->|Hni]; [congruence|].
    exfalso. apply Hd. by split_and!.
Qed.

(** A thread registered by process [pid] belongs to it. *)
Lemma tids_proc T D y id u : ipc_wf T D y → id ∈ tids (y_ipc y) → th (y_s y) id = Some u →
  (∃ p, p ∈ i_sends (y_ipc y) ∧ ps_tid p = id ∧ t_proc u = Some (ps_pid p)) ∨
  (∃ r, r ∈ i_recvs (y_ipc y) ∧ rv_tid r = id ∧ t_proc u = Some (rv_pid r)).
Proof.
  intros W Hin Hu. apply elem_of_app in Hin as [(p & -> & Hp)%list_elem_of_fmap|(r & -> & Hr)%list_elem_of_fmap].
  - left. destruct (iw_send _ _ _ W p Hp) as (_ & t & Ht & ?). exists p. split_and!; [done..|]. congruence.
  - right. destruct (iw_recv _ _ _ W r Hr) as (t & Ht & ?). exists r. split_and!; [done..|]. congruence.
Qed.

Lemma own_proc T y pid id u : ipc_wf T [] y → id ∈ own_tids pid (y_ipc y) → th (y_s y) id = Some u → t_proc u = Some pid.
Proof.
  intros W Hin Hu. apply own_tids_spec in Hin as [(p & Hp & <- & <-)|(r & Hr & <- & <-)].
  - destruct (iw_send _ _ _ W p Hp) as (_ & t & Ht & ?). congruence.
  - destruct (iw_recv _ _ _ W r Hr) as (t & Ht & ?). congruence.
Qed.

Lemma purged_proc T y pid id u : ipc_wf T [] y → id ∈ tids (purged pid (y_ipc y)) → th (y_s y) id = Some u → t_proc u ≠ Some pid.
Proof.
  intros W Hin Hu. apply purged_other in Hin as [(p & Hp & <- & Hne)|(r & Hr & <- & Hne)].
  - destruct (iw_send _ _ _ W p Hp) as (_ & t & Ht & ?). congruence.
  - destruct (iw_recv _ _ _ W r Hr) as (t & Ht & ?). congruence.
Qed.

Lemma orphan_proc T y pid id u : ipc_wf T [] y → id ∈ orphans pid (y_ipc y) → th (y_s y) id = Some u → t_proc u ≠ Some pid.
Proof.
  intros W Hin Hu. unfold orphans in Hin.
  apply elem_of_app in Hin as [(r & -> & (Hb & Hr)%list_elem_of_filter)%list_elem_of_fmap|(p & -> & (Hb & Hp)%list_elem_of_filter)%list_elem_of_fmap];
    apply Is_true_eq_true in Hb; bool_to_prop.
  - destruct (iw_recv _ _ _ W r Hr) as (t & Ht & ?). congruence.
  - destruct (iw_send _ _ _ W p Hp) as (_ & t & Ht & ?). congruence.
Qed.

Lemma runs_send_force force y : sched_inv (y_s y) →
  (∀ pk, pk ∈ force → N.shiftr pk FORCE_PACK_HART_SHIFT < MAX_HARTS) →
  runs (ons (send_force_kills force)) y (λ _ y', sched_inv (y_s y') ∧ s_threads (y_s y') = s_threads (y_s y) ∧
    s_current (y_s y') = s_current (y_s y) ∧ y' = set_y_s (y_s y') y).
Proof.
  intros I Hf. apply runs_ons. unfold send_force_kills.
  eapply (runs_for_each (λ s, sched_inv s ∧ s_threads s = s_threads (y_s y) ∧ s_current s = s_current (y_s y)));
    [|done|intros s' (? & ? & ?); by split_and!; [..|destruct y]].
  intros pk s Hin (I' & Et & Ec). destruct (vget_lt_Some (s_remote_req s) (N.shiftr pk FORCE_PACK_HART_SHIFT)) as [w Ew].
  { rewrite (sh_remote _ (co_shape _ _ (in_core _ I'))). by apply Hf. }
  apply runs_bind, runs_get. apply runs_bind. eapply runs_expect; [done|]. apply runs_modify. split_and!; [by apply inv_remote|done..].
Qed.

(** No hart on its way into the scheduler runs a thread of [pid]. *)
Definition none_in_transit (T : list N) (s : Scheduler) (pid : N) : Prop :=
  ∀ h cur t, h ∈ T → vget (s_current s) h = Some cur → th s cur = Some t → t_proc t ≠ Some pid.

Lemma kill_begin_wf T y h pid :
  ipc_wf T [] y → h < MAX_HARTS → none_exited (y_s y) pid → none_in_transit T (y_s y) pid →
  runs (kill_begin h pid) y (λ _ y', ipc_wf T [] y' ∧ y_k y' = y_k y ∧ y_ipc y' = purged pid (y_ipc y) ∧
    (∀ i u, th (y_s y') i = Some u → t_proc u = Some pid → t_state u = Exited ∨ t_state u = Running) ∧
    ∀ i u, th (y_s y) i = Some u → t_proc u ≠ Some pid →
      th (y_s y') i = Some (if decide (i ∈ orphans pid (y_ipc y)) then err_thread SYS_ERR_ENOENT u else u)).
Proof.
  intros W Hh Hne Htr. unfold kill_begin. apply runs_bind, runs_ons, runs_modify.
  pose proof (iw_sched _ _ _ W) as I. set (n := wrapping_add _ _).
  assert (W0 : ipc_wf T [] (set_y_s (set_s_kills n (y_s y)) y)) by (apply wf_threads; [done|by apply inv_kills|done]).
  apply runs_bind. eapply runs_mono; [by apply purge_wf|]. cbn [y_ipc y_k y_s set_y_s].
  intros [] y1 (W1 & Ek & Ei & Hth). change (s_threads (set_s_kills n (y_s y))) with (s_threads (y_s y)) in Hth.
  assert (Hback : ∀ i u, th (y_s y1) i = Some u → ∃ v, th (y_s y) i = Some v ∧ t_proc u = t_proc v ∧ t_hart u = t_hart v ∧
    (t_state u = t_state v ∨ t_state v = Blocked ∧ t_state u = Ready)).
  { intros i u Hu. rewrite Hth in Hu. case_decide as Hd.
    - destruct (th (y_s y) i) as [v|] eqn:Ev; [|done]. injection Hu as <-. exists v.
      destruct (err_thread_fields SYS_ERR_ENOENT v) as (-> & -> & Est). split_and!; [done..|]. rewrite Est. case_decide; auto.
    - exists u. split_and!; auto. }
  apply runs_bind. eapply runs_mono; [apply (kill_locked_wf T _ y1 h pid W1 Hh)|].
  - intros i u Hu Hp. destruct (Hback i u Hu) as (v & Hv & Ep & _ & Hs). rewrite Ep in Hp.
    specialize (Hne i v Hv Hp). destruct Hs as [->|[_ ->]]; [done|congruence].
  - intros i u Hin Hu Hp. rewrite Ei in Hin. destruct (Hback i u Hu) as (v & Hv & Ep & _). rewrite Ep in Hp.
    by apply (purged_proc T y pid i v W Hin Hv).
  - intros i u Hin Hu. destruct (Hback i u Hu) as (v & Hv & Ep & Eh & Hs).
    pose proof (own_proc T y pid i v W Hin Hv) as Hp. split; [congruence|].
    destruct (iw_wait _ _ _ W1 i) as (u' & Hu' & _ & _ & Hst); [set_solver|]. assert (u' = u) as -> by congruence.
    destruct Hst as [[? _]|[Hr HT]]; [done|]. exfalso. rewrite Eh in HT.
    assert (Hrv : t_state v = Running) by (destruct Hs as [<-|[_ ?]]; congruence).
    destruct (running_current (y_s y) i v I Hv Hrv) as [_ Hc]; [by rewrite Hp|]. by apply (Htr _ i v HT Hc Hv).
  - intros [b force] y2 (W2 & Ey2 & Hf & Hdead & Hother). cbn [fst snd] in *. apply runs_bind.
    eapply runs_mono; [apply (runs_send_force force y2); [apply (iw_sched _ _ _ W2)|done]|].
    intros [] y3 (I3 & Et3 & _ & Ey3). apply runs_ret. split_and!.
    + rewrite Ey3. by apply wf_threads.
    + by rewrite Ey3, Ey2.
    + by rewrite Ey3, Ey2.
    + intros i u Hu. rewrite Et3 in Hu. by apply (Hdead i).
    + intros i u Hu Hp. rewrite Et3. apply Hother; [rewrite Hth, Hu; by case_decide|].
      case_decide; [|done]. by destruct (err_thread_fields SYS_ERR_ENOENT u) as (-> & _).
Qed.

(** ** The current thread while a process is killed *)

(** What each hart runs, and which process each thread belongs to, stay. *)
Definition seats_same (s s' : Scheduler) : Prop :=
  s_current s' = s_current s ∧ s_idle s' = s_idle s ∧ ∀ i, t_proc <$> th s' i = t_proc <$> th s i.
#[global] Instance seats_same_preorder : PreOrder seats_same.
Proof. split; [done|]. intros s1 s2 s3 (E1 & E2 & E3) (F1 & F2 & F3). split_and!; [congruence..|]. intros i. by rewrite F3. Qed.

Lemma seats_upd id f s : (∀ t, t_proc (f t) = t_proc t) → stays seats_same (upd_thread id f) s.
Proof.
  intros Hf. unfold upd_thread, thread. apply stays_bind; [apply _|stays_auto|].
  intros t s1 E. apply stays_modify. unfold mbind, M_bind, get in E.
  destruct (th s id) as [u|] eqn:Eu; cbn in E; [|done]. injection E as <- <-. split_and!; [done..|]. intros i.
  change (th (set_s_threads (vset (s_threads s) id (f u)) s) i) with (th (with_t id (f u) s) i).
  rewrite (th_with_t s id (f u) u i Eu). case_decide as Ei; [subst i; rewrite Eu; cbn; by rewrite Hf|done].
Qed.
#[export] Hint Extern 1 (stays seats_same (upd_thread _ _) _) => (apply seats_upd; intros ?; done) : stays.
Ltac seats_auto := repeat (progress (stays_auto; cbv zeta)); try done.

Lemma seats_queue h l s : stays seats_same (queue h l) s.
Proof. unfold queue. seats_auto. Qed.
Lemma seats_set_queue h l q s : stays seats_same (set_queue h l q) s.
Proof. unfold set_queue. seats_auto. Qed.
Lemma seats_thread id s : stays seats_same (thread id) s.
Proof. unfold thread. seats_auto. Qed.
Lemma seats_current h s : stays seats_same (current_of h) s.
Proof. unfold current_of. seats_auto. Qed.
#[export] Hint Resolve seats_queue seats_set_queue seats_thread seats_current : stays.
Lemma seats_enqueue id s : stays seats_same (enqueue id) s.
Proof. unfold enqueue, eff_prio. seats_auto. Qed.
Lemma seats_remove id s : stays seats_same (remove_from_ready id) s.
Proof. unfold remove_from_ready. seats_auto. Qed.
Lemma seats_skip f s : stays seats_same (skip_ecall f) s.
Proof. unfold skip_ecall, add_. seats_auto. Qed.
Lemma seats_take_stack id s : stays seats_same (take_stack id) s.
Proof. unfold take_stack. seats_auto. Qed.
#[export] Hint Resolve seats_enqueue seats_remove seats_skip seats_take_stack : stays.
Lemma seats_requeue p s : stays seats_same (requeue_proc_threads p) s.
Proof. unfold requeue_proc_threads. seats_auto. Qed.
#[export] Hint Resolve seats_requeue : stays.
Lemma seats_revoke d s : stays seats_same (revoke_donations d) s.
Proof. unfold revoke_donations. seats_auto. Qed.
Lemma seats_revoke_of l skip s : stays seats_same (revoke_donations_of l skip) s.
Proof. unfold revoke_donations_of. seats_auto. Qed.
Lemma seats_revoke_for p s : stays seats_same (revoke_donations_for_proc p) s.
Proof. unfold revoke_donations_for_proc. seats_auto. Qed.
#[export] Hint Resolve seats_revoke seats_revoke_of seats_revoke_for : stays.
Lemma seats_wake_err id code s : stays seats_same (ipc_wake_with_err id code) s.
Proof. unfold ipc_wake_with_err. seats_auto. Qed.
Lemma seats_kill_victims vs s : stays seats_same (kill_victims vs) s.
Proof. revert s. induction vs as [|v vs IH]; intros s; cbn [kill_victims]; unfold free_slot, set_kill; seats_auto. Qed.
Lemma seats_send_force l s : stays seats_same (send_force_kills l) s.
Proof. unfold send_force_kills, send_remote_req. seats_auto. Qed.
#[export] Hint Resolve seats_wake_err seats_kill_victims seats_send_force : stays.

Definition yseats (y y' : System) : Prop := seats_same (y_s y) (y_s y').
#[global] Instance yseats_preorder : PreOrder yseats.
Proof. split; [intros y; by unfold yseats|]. intros y1 y2 y3. unfold yseats. apply transitivity. Qed.
Lemma yseats_ons {A} (m : MS A) y : (∀ s, stays seats_same m s) → stays yseats (ons m) y.
Proof.
  intros H a y'. unfold ons, lift. destruct (m (y_s y)) as [[b s]| |] eqn:E; [|done..]. intros [= _ <-]. exact (H _ _ _ E).
Qed.
#[export] Hint Resolve yseats_ons : stays.

Lemma seats_kill_locked h pid s : stays seats_same (kill_locked h pid) s.
Proof. unfold kill_locked. seats_auto. Qed.
Lemma yseats_purge pid y : stays yseats (purge_process pid) y.
Proof. unfold purge_process. seats_auto. Qed.
#[export] Hint Resolve seats_kill_locked yseats_purge : stays.
Lemma yseats_kill_begin h pid y : stays yseats (kill_begin h pid) y.
Proof. unfold kill_begin, count_kill. seats_auto. apply yseats_ons. intros s. by apply stays_modify. Qed.

(** The flag [kill_begin] returns tells whether the current thread is of the process. *)
Lemma kill_begin_flag h pid y b y' cur t :
  kill_begin h pid y = Ret (b, y') → vget (s_current (y_s y)) h = Some cur → th (y_s y) cur = Some t →
  b = bool_decide (t_proc t = Some pid).
Proof.
  intros E Ec Ht. unfold kill_begin in E. inv_ret E. inv_ret E. inv_ret E. inv_ret E. injection E as <- _.
  assert (S0 : yseats y s) by (injection E0 as _ <-; by unfold yseats).
  assert (S1 : yseats y s0) by (etrans; [exact S0|by eapply yseats_purge]).
  destruct S1 as (E4 & _ & E5). specialize (E5 cur). rewrite Ht in E5.
  destruct (th (y_s s0) cur) as [u|] eqn:Eu; [|done]. injection E5 as E5.
  unfold ons, lift in E2. destruct (kill_locked h pid (y_s s0)) as [[r s']| |] eqn:EK; [|done..]. injection E2 as <- _.
  unfold kill_locked in EK. rewrite bind_get in EK. inv_ret EK. inv_ret EK.
  unfold current_of, mbind, M_bind, get in E. rewrite E4, Ec in E. injection E as <- <-.
  unfold thread, mbind, M_bind, get in E2. rewrite Eu in E2. injection E2 as <- <-.
  cbv zeta in EK. rewrite bind_modify in EK. do 4 inv_ret EK. injection EK as <- _. cbn [fst]. by rewrite E5.
Qed.
