(* ===== verification/IpcProps.v ===== *)
(** * Properties of message passing

    Kernel/src/ipc.rs with kernel/src/process.rs and kernel/src/sched.rs underneath:
    rendezvous of [send] and [recv] on several harts, death of a peer, and the
    accept-any receive. *)

From Stdlib Require Import ZifyN ZifyNat.
From stdpp Require Import base gmap numbers functions list.
From S2P Require Import Prelude Mem Mmu Objects ObjInv Sched SchedInv SchedOps SchedSteps Ipc IpcInv.

(** ** The machine

    A node is the system with the harts that have registered and not yet blocked. *)
Record Node := mkNode { n_T : list N; n_y : System }.
Definition ony {A} (m : MY A) : M Node A := lift n_y (λ y n, mkNode (n_T n) y) m.

(** The steps of the harts, in any order: the parts of the system calls [ipc_send] and
    [ipc_recv] before and after the queues are unlocked, timer ticks, voluntary switches,
    thread creation and exit, killing of a process, and any change of the kernel objects
    by another component. *)
Inductive icall :=
| ISend (h slot : N) (msg : list N)
| IRecv (h slot : N)
| IBlock (h : N) (frame : list N) (cpu : Context)
| ITick (h : N) (frame : list N)
| IYield (h : N) (cpu : Context)
| IExit (h : N) (cpu : Context)
| ISpawnUser (h root pid pc sp prio : N)
| IKill (h pid : N)
| IObjects (k : Kernel).

Definition enter (h : N) : M Node () := modify (λ n, mkNode (h :: n_T n) (n_y n)).
Definition leave (h : N) : M Node () := modify (λ n, mkNode (filter (.≠ h) (n_T n)) (n_y n)).

Definition run_icall (img : Image) (c : icall) : M Node () :=
  match c with
  | ISend h slot msg =>
      pid ← ony (ons (current_proc h));
      r ← ony (send h pid slot msg);
      match r with Ok SNoPeer => enter h | _ => mret tt end
  | IRecv h slot =>
      pid ← ony (ons (current_proc h));
      r ← ony (recv h pid slot);
      match r with Ok RNoPeer => enter h | _ => mret tt end
  | IBlock h frame cpu => ony (ons (block_user_from_trap h frame cpu));; leave h
  | ITick h frame => ony (ons (on_tick img h frame));; mret tt
  | IYield h cpu => ony (ons (yield_ h cpu));; mret tt
  | IExit h cpu => ony (ons (exit_from_trap h cpu));; mret tt
  | ISpawnUser h root pid pc sp prio => ony (ons (spawn_user img h root pid pc sp prio 0 0));; mret tt
  | IKill h pid => ony (kill_begin h pid);; mret tt
  | IObjects k => ony (modify (set_y_k k))
  end.

(** When a step may happen: a system call by a running user thread, blocking only after
    a registration, nothing else on a hart in between. *)
Definition icall_ok (n : Node) (c : icall) : Prop :=
  let s := y_s (n_y n) in
  match c with
  | ISend h _ msg => h < MAX_HARTS ∧ (h ∉ n_T n) ∧ msg_ok msg ∧
      ∃ cur t, vget (s_current s) h = Some cur ∧ th s cur = Some t ∧ is_Some (t_proc t)
  | IRecv h _ => h < MAX_HARTS ∧ (h ∉ n_T n) ∧
      ∃ cur t, vget (s_current s) h = Some cur ∧ th s cur = Some t ∧ is_Some (t_proc t)
  | IBlock h frame cpu => h ∈ n_T n ∧ cpu_ok cpu ∧ frame_ok frame
  | ITick h frame => h < MAX_HARTS ∧ (h ∉ n_T n) ∧ vlen frame = FRAME_WORDS
  | IYield h cpu => h < MAX_HARTS ∧ (h ∉ n_T n) ∧ cpu_ok cpu
  | IExit h cpu => h < MAX_HARTS ∧ (h ∉ n_T n) ∧ cpu_ok cpu ∧ vget (s_current s) h ≠ vget (s_idle s) h
  | ISpawnUser h _ _ _ _ _ => h < MAX_HARTS ∧ has_slot s
  | IKill h pid => h < MAX_HARTS ∧ none_exited s pid ∧ none_in_transit (n_T n) s pid
  | IObjects _ => True
  end.

Definition node_inv (n : Node) : Prop := ipc_wf (n_T n) [] (n_y n).

Lemma runs_ony {A} (m : MY A) n (Q : A → Node → Prop) :
  runs m (n_y n) (λ a y', Q a (mkNode (n_T n) y')) → runs (ony m) n Q.
Proof. intros (a & y' & E & HQ). exists a, (mkNode (n_T n) y'). split; [|done]. unfold ony, lift. by rewrite E. Qed.

Lemma runs_current_proc h cur t pid y (Q : N → System → Prop) :
  vget (s_current (y_s y)) h = Some cur → th (y_s y) cur = Some t → t_proc t = Some pid → Q pid y →
  runs (ons (current_proc h)) y Q.
Proof.
  intros Ec Ht Hp HQ. apply runs_ons. apply runs_bind. eapply runs_current; [done|]. apply runs_bind.
  eapply runs_thread; [done|]. eapply runs_expect; [done|]. by destruct y.
Qed.

(** [recv], on every branch. *)
Lemma recv_spec T y h pid slot cur t :
  ipc_wf T [] y → caller T y h pid cur t →
  runs (recv h pid slot) y (λ r y', y_k y' = y_k y ∧
    match r with Ok RNoPeer => ipc_wf (h :: T) [] y' | _ => ipc_wf T [] y' end).
Proof.
  intros W Hc. unfold recv. apply runs_bind, runs_get.
  assert (HF : ∀ src, runs (recv_from h pid src) y (λ r y', y_k y' = y_k y ∧
    match r with Ok RNoPeer => ipc_wf (h :: T) [] y' | _ => ipc_wf T [] y' end)).
  { intros src. eapply runs_mono; [by apply (recv_from_spec T y h pid src cur t)|].
    intros r y' (Ek & H). split; [done|]. destruct (take_first _ _) as [[p rest]|].
    - by destruct H as (-> & ? & _).
    - by destruct H as (-> & ? & _). }
  destruct (cap_target pid slot (y_k y)) as [[src|?|?]|[| | | |]]; try apply HF; by apply runs_ret.
Qed.

Lemma icall_inv img c n : node_inv n → icall_ok n c → runs (run_icall img c) n (λ _ n', node_inv n').
Proof.
  intros W Hok. destruct n as [T y]. unfold node_inv in *. cbn [n_T n_y] in *.
  destruct c as [h slot msg|h slot|h frame cpu|h frame|h cpu|h cpu|h root pid pc sp prio|h pid|k];
    cbn [icall_ok n_T n_y] in Hok; cbn [run_icall].
  - destruct Hok as (Hh & HT & Hm & cur & t & Ec & Ht & [pid Hp]).
    apply runs_bind, runs_ony. eapply runs_current_proc; [done..|]. apply runs_bind, runs_ony.
    eapply runs_mono; [by apply (send_spec T y h pid slot msg cur t)|]. cbn [n_y n_T].
    intros r y' (_ & H). destruct (cap_target pid slot (y_k y)) as [[dst|?|?]|e];
      try (destruct H as [-> ->]; by apply runs_ret).
    destruct (match_recv _ _ _) as [[rv rest]|]; destruct H as (-> & W' & _); [by apply runs_ret|by apply runs_modify].
  - destruct Hok as (Hh & HT & cur & t & Ec & Ht & [pid Hp]).
    apply runs_bind, runs_ony. eapply runs_current_proc; [done..|]. apply runs_bind, runs_ony.
    eapply runs_mono; [by apply (recv_spec T y h pid slot cur t)|]. cbn [n_y n_T].
    intros [[msg|]|e] y' (_ & W'); [by apply runs_ret|by apply runs_modify|by apply runs_ret].
  - destruct Hok as (HT & Hcpu & Hf). destruct (iw_transit _ _ _ W h HT) as (_ & cur & t & Ec & Ht & _).
    apply runs_bind, runs_ony. eapply runs_mono; [by apply (block_user_wf T y h frame cpu cur t)|].
    intros o y' (W' & _). by apply runs_modify.
  - destruct Hok as (Hh & HT & Hf). apply runs_bind, runs_ony. eapply runs_mono; [by apply tick_wf|].
    intros f y' W'. by apply runs_ret.
  - destruct Hok as (Hh & HT & Hf). apply runs_bind, runs_ony. eapply runs_mono; [by apply yield_wf|].
    intros f y' W'. by apply runs_ret.
  - destruct Hok as (Hh & HT & Hf & Hni). apply runs_bind, runs_ony. eapply runs_mono; [by apply exit_wf|].
    intros f y' W'. by apply runs_ret.
  - destruct Hok as (Hh & Hs). apply runs_bind, runs_ony. eapply runs_mono; [by apply spawn_user_wf|].
    intros f y' W'. by apply runs_ret.
  - destruct Hok as (Hh & Hne & Htr). apply runs_bind, runs_ony. eapply runs_mono; [by apply kill_begin_wf|].
    intros f y' (W' & _). by apply runs_ret.
  - apply runs_ony, runs_modify. destruct W. by constructor.
Qed.

(** The nodes reached from boot, with any kernel objects, by steps that may happen. *)
Inductive ipc_reach (img : Image) : Node → Prop :=
| ireach_boot kroot s0 s1 s2 s3 k tick dl tm :
    ipc_reach img (mkNode [] (mkSystem k (booted img kroot s0 s1 s2 s3) (mkIpc [] []) tick dl tm))
| ireach_step n c n' :
    ipc_reach img n → icall_ok n c → run_icall img c n = Ret (tt, n') → ipc_reach img n'.

Lemma boot_node_inv img kroot s0 s1 s2 s3 k tick dl tm :
  node_inv (mkNode [] (mkSystem k (booted img kroot s0 s1 s2 s3) (mkIpc [] []) tick dl tm)).
Proof.
  pose proof (booted_sched_inv img kroot s0 s1 s2 s3) as I.
  assert (Hb : ∀ i t, th (booted img kroot s0 s1 s2 s3) i = Some t → t_proc t = None ∧ t_ipc_wake t = None).
  { intros i t Ht. by destruct (four_cases _ _ _ _ _ _ Ht) as [[_ ->]|[[_ ->]|[[_ ->]|[_ ->]]]]. }
  constructor; cbn [y_s y_ipc n_y n_T]; try done.
  - constructor.
  - intros id Hid. by apply elem_of_nil in Hid.
  - intros p Hp. by apply elem_of_nil in Hp.
  - intros r Hr. by apply elem_of_nil in Hr.
  - intros id t Ht _ Hp. destruct (Hb id t Ht) as [E _]. rewrite E in Hp. by destruct Hp.
  - intros id t w Ht Hw. destruct (Hb id t Ht). congruence.
  - intros h Hh. by apply elem_of_nil in Hh.
  - intros p r Hp. by apply elem_of_nil in Hp.
Qed.

Lemma ireach_inv img n : ipc_reach img n → node_inv n.
Proof.
  induction 1 as [|n c n' _ I Hok E]; [apply boot_node_inv|].
  destruct (icall_inv img c n I Hok) as ([] & n1 & E1 & I1). rewrite E in E1. by injection E1 as <-.
Qed.


(** Two processes that may talk to each other, each with a thread, on harts 0 and 1. *)
Definition pair_kernel : Kernel :=
  mkKernel (mkPMem allocator0 ∅)
    (mkProcTable [mkProcess 0 0x1000 (vset no_caps 0 (Some (CProc 1)));
                  mkProcess 1 0x2000 (vset no_caps 0 (Some (CProc 0)))] [])
    (mkShmTable [] []) (mkPageTable [] []) (replicate 8 None) (replicate 8 None) true.
Definition img1 : Image := mkImage 0x80201000 0x80202000 0x80203000 0x80300800.
Definition cpu1 : Context := mkCtx 0x80205000 0x81005000 (replicate 12 7).
Definition frame1 : list N := vset (replicate 36 9) FRAME_SEPC 0x10040.
Definition boot_node : Node :=
  mkNode [] (mkSystem pair_kernel (booted img1 0x80400000 0x81000000 0x81010000 0x81020000 0x81030000)
    (mkIpc [] []) 0 [0; 0; 0; 0] [0; 0; 0; 0]).
Definition after_i (cs : list icall) : Node :=
  foldl (λ n c, match run_icall img1 c n with Ret (_, n') => n' | _ => n end) boot_node cs.

Lemma ireach_after cs c :
  ipc_reach img1 (after_i cs) → icall_ok (after_i cs) c → ipc_reach img1 (after_i (cs ++ [c])).
Proof.
  intros R Hok. unfold after_i in *. rewrite foldl_app. cbn [foldl].
  destruct (icall_inv img1 c _ (ireach_inv _ _ R) Hok) as ([] & n' & E & _). rewrite E. by eapply ireach_step.
Qed.

Definition two_users : list icall :=
  [ISpawnUser 0 0x1000 0 0x10000 0x3FFFF000 PRIO_MED; ISpawnUser 1 0x2000 1 0x10000 0x3FFFF000 PRIO_MED;
   IYield 0 cpu1; IYield 1 cpu1].

Definition runs_user (n : Node) (h cur pid : N) : bool :=
  bool_decide (vget (s_current (y_s (n_y n))) h = Some cur) &&
  match th (y_s (n_y n)) cur with Some t => bool_decide (t_proc t = Some pid) | None => false end.

Lemma runs_user_spec n h cur pid : runs_user n h cur pid = true →
  ∃ t, vget (s_current (y_s (n_y n))) h = Some cur ∧ th (y_s (n_y n)) cur = Some t ∧ t_proc t = Some pid.
Proof.
  unfold runs_user. intros [H1 H2]%andb_true_iff. apply bool_decide_eq_true in H1.
  destruct (th _ cur) as [t|]; [|done]. apply bool_decide_eq_true in H2. eauto.
Qed.

Lemma notin_true (h : N) (l : list N) : bool_decide (h ∉ l) = true → h ∉ l.
Proof. apply bool_decide_eq_true. Qed.

Lemma two_users_reached : ipc_reach img1 (after_i two_users).
Proof.
  apply (ireach_after [_; _; _]); [apply (ireach_after [_; _]); [apply (ireach_after [_]); [apply (ireach_after [])|]|]|].
  - apply ireach_boot.
  - split; [done|right; by vm_compute].
  - split; [done|right; by vm_compute].
  - split_and!; [done|by apply notin_true; vm_compute|done].
  - split_and!; [done|by apply notin_true; vm_compute|done].
Qed.

(** The thread of process 1 waits for process 0. *)
Definition receiver_waits : list icall := two_users ++ [IRecv 1 0] ++ [IBlock 1 frame1 cpu1].

Lemma receiver_waits_reached : ipc_reach img1 (after_i receiver_waits).
Proof.
  unfold receiver_waits. rewrite app_assoc. apply ireach_after; [apply ireach_after; [exact two_users_reached|]|].
  - cbn [icall_ok]. split_and!; [done|by apply notin_true; vm_compute|].
    destruct (runs_user_spec (after_i two_users) 1 5 1) as (t & H1 & H2 & H3); [by vm_compute|].
    exists 5, t. split_and!; [exact H1|exact H2|by rewrite H3].
  - cbn [icall_ok]. split_and!; [|reflexivity|split; [reflexivity|]].
    + apply (bool_decide_eq_true (1 ∈ _)). by vm_compute.
    + exists 0x10040. split; by vm_compute.
Qed.


(** ** Sending *)

(** [x] is the first element of [l] with [P], and [rest] the others. *)
Definition first_in {A} (P : A → Prop) (l : list A) (x : A) (rest : list A) : Prop :=
  ∃ a b, l = a ++ x :: b ∧ rest = a ++ b ∧ P x ∧ ∀ z, z ∈ a → ¬ P z.

Definition names (dst src : N) (r : PendingRecv) : Prop := rv_pid r = dst ∧ rv_src r = src.

(** The receiver a message from [src] to [dst] goes to. *)
Definition receives (dst src : N) (rs : list PendingRecv) (r : PendingRecv) (rest : list PendingRecv) : Prop :=
  first_in (names dst src) rs r rest ∨
  (∀ z, z ∈ rs → ¬ names dst src z) ∧ first_in (names dst IPC_ACCEPT_ANY) rs r rest.

Lemma wants_spec dst src r : wants dst src r = true ↔ names dst src r.
Proof. unfold wants, names. rewrite andb_true_iff, !N.eqb_eq. done. Qed.

Lemma wants_false dst src r : wants dst src r = false → ¬ names dst src r.
Proof. intros E H. apply wants_spec in H. congruence. Qed.

Lemma take_first_in {A} (p : A → bool) (P : A → Prop) l x rest :
  (∀ z, p z = true ↔ P z) → take_first p l = Some (x, rest) → first_in P l x rest.
Proof.
  intros HP E. apply take_first_Some in E as (a & b & -> & -> & Hp & Ha). exists a, b.
  split_and!; [done..|by apply HP|]. intros z Hz Hpz. apply HP in Hpz. specialize (Ha z Hz). congruence.
Qed.

Lemma match_recv_receives dst pid rs r rest : match_recv dst pid rs = Some (r, rest) → receives dst pid rs r rest.
Proof.
  unfold match_recv. destruct (take_first (wants dst pid) rs) as [x|] eqn:E.
  - intros [= ->]. left. by eapply (take_first_in _ _ _ _ _ (wants_spec dst pid)).
  - intros E2. right. split; [|by eapply (take_first_in _ _ _ _ _ (wants_spec dst IPC_ACCEPT_ANY))].
    intros z Hz. by eapply wants_false, take_first_None.
Qed.

Lemma match_recv_none dst pid rs : match_recv dst pid rs = None →
  ∀ z, z ∈ rs → ¬ names dst pid z ∧ ¬ names dst IPC_ACCEPT_ANY z.
Proof.
  unfold match_recv. destruct (take_first (wants dst pid) rs) as [x|] eqn:E; [done|]. intros E2 z Hz.
  split; eapply wants_false, take_first_None; done.
Qed.

(** The thread after an answer with message [msg]: ready, with status 0 and the message
    in its registers and past its [ecall]; or, still on its way into the scheduler, with
    the message to take. *)
Definition got_message (msg : list N) (u u' : Thread) : Prop :=
  (t_state u = Blocked ∧ t_state u' = Ready ∧ t_frame u' = reply_frame 0 msg (t_frame u)) ∨
  (t_state u = Running ∧ t_state u' = Running ∧ t_ipc_wake u' = Some (WMsg msg)).

Lemma reply_got T u msg buf : waiter T u → msg_ok msg → got_message msg u (reply_thread (WMsg msg) buf u).
Proof.
  intros (_ & _ & Hs) Hm. unfold reply_thread, got_message. destruct Hs as [[Hb _]|[Hr _]].
  - left. rewrite decide_True by done. done.
  - right. rewrite decide_False by congruence. split_and!; [done..|]. cbn. do 2 f_equal.
    unfold msg_buf, msg_ok, vlen, MSG_WORDS in *. rewrite take_app_length'; [done|lia].
Qed.


Lemma single_rest {A} (x r : A) a b : [x] = a ++ r :: b → a ++ b = [].
Proof. destruct a as [|z [|z' a]]; [by intros [= _ <-]|done..]. Qed.


(** ** Receiving *)

(** Whom a receive on the slot waits for. *)
Definition recv_source (c : result Cap CapError) : result N N :=
  match c with
  | Ok (CProc src) => Ok src
  | Ok (CShm _) | Ok (CPage _) => Err SYS_ERR_EINVAL
  | Err NotFound => Ok IPC_ACCEPT_ANY
  | Err e => Err (cap_errno e)
  end.

Lemma sent_by_spec src dst p : sent_by src dst p = true ↔ ps_pid p = src ∧ ps_dst p = dst.
Proof. unfold sent_by. by rewrite andb_true_iff, !N.eqb_eq. Qed.


(** The thread of process 0 has sent first. *)
Definition sender_waits : list icall := two_users ++ [ISend 0 0 [1; 2; 3; 4; 5]] ++ [IBlock 0 frame1 cpu1].

Lemma sender_waits_reached : ipc_reach img1 (after_i sender_waits).
Proof.
  unfold sender_waits. rewrite app_assoc. apply ireach_after; [apply ireach_after; [exact two_users_reached|]|].
  - cbn [icall_ok]. split_and!; [done|by apply notin_true; vm_compute|reflexivity|].
    destruct (runs_user_spec (after_i two_users) 0 4 0) as (t & H1 & H2 & H3); [by vm_compute|].
    exists 4, t. split_and!; [exact H1|exact H2|by rewrite H3].
  - cbn [icall_ok]. split_and!; [|reflexivity|split; [reflexivity|]].
    + apply (bool_decide_eq_true (0 ∈ _)). by vm_compute.
    + exists 0x10040. split; by vm_compute.
Qed.


(** ** The death of a peer *)

(** The entry has to do with [pid]. *)
Definition send_of (pid : N) (p : PendingSend) : Prop := ps_pid p = pid ∨ ps_dst p = pid.
Definition recv_of (pid : N) (r : PendingRecv) : Prop := rv_pid r = pid ∨ rv_src r = pid.
(** A thread of another process that waits for [pid]. *)
Definition waits_for (pid id : N) (ipc : IpcState) : Prop :=
  (∃ p, p ∈ i_sends ipc ∧ ps_tid p = id ∧ ps_dst p = pid ∧ ps_pid p ≠ pid) ∨
  (∃ r, r ∈ i_recvs ipc ∧ rv_tid r = id ∧ rv_src r = pid ∧ rv_pid r ≠ pid).

Lemma purged_sends pid ipc p : p ∈ i_sends (purged pid ipc) ↔ p ∈ i_sends ipc ∧ ¬ send_of pid p.
Proof.
  unfold purged, send_of. cbn [i_sends]. rewrite !list_elem_of_filter, !negb_True, !Is_true_true, !N.eqb_eq. tauto.
Qed.
Lemma purged_recvs pid ipc r : r ∈ i_recvs (purged pid ipc) ↔ r ∈ i_recvs ipc ∧ ¬ recv_of pid r.
Proof.
  unfold purged, recv_of. cbn [i_recvs]. rewrite !list_elem_of_filter, !negb_True, !Is_true_true, !N.eqb_eq. tauto.
Qed.
Lemma orphans_wait pid ipc id : id ∈ orphans pid ipc ↔ waits_for pid id ipc.
Proof.
  unfold orphans, waits_for. rewrite elem_of_app, !list_elem_of_fmap. setoid_rewrite list_elem_of_filter.
  setoid_rewrite Is_true_true. setoid_rewrite andb_true_iff. setoid_rewrite negb_true_iff.
  setoid_rewrite N.eqb_eq. setoid_rewrite N.eqb_neq. naive_solver.
Qed.


Lemma none_exited_check s pid :
  forallb (λ t, negb (bool_decide (t_proc t = Some pid) && is_state Exited t)) (s_threads s) = true → none_exited s pid.
Proof.
  rewrite forallb_forall. intros H id t Ht Hp Hs. rewrite vget_lookup in Ht.
  apply list_elem_of_lookup_2, list_elem_of_In in Ht.
  specialize (H t Ht). unfold is_state in H. by rewrite !bool_decide_eq_true_2 in H.
Qed.


(** ** The accept-any receive *)

(** The receiver's slot 5 is empty: it waits for any sender. *)
Definition accept_late : list icall := sender_waits ++ [IRecv 1 5] ++ [IBlock 1 frame1 cpu1].

Definition is_blocked_in (n : Node) (id : N) : bool := is_blocked id (y_s (n_y n)).

(** A receive that accepts any sender does not see a message that is already there:
    when the sender has registered first, both threads end up blocked, each registered,
    although the receiver would accept that sender; no step of the two processes can
    follow.  The comments promise that such a receive accepts any process that can send
    to it. *)
Theorem accept_any_misses_pending :
  ipc_reach img1 (after_i accept_late) ∧
  i_sends (y_ipc (n_y (after_i accept_late))) = [mkSend 4 0 1 [1; 2; 3; 4; 5]] ∧
  i_recvs (y_ipc (n_y (after_i accept_late))) = [mkRecv 5 1 IPC_ACCEPT_ANY] ∧
  is_blocked_in (after_i accept_late) 4 = true ∧ is_blocked_in (after_i accept_late) 5 = true.
Proof.
  split; [|by vm_compute]. unfold accept_late. rewrite app_assoc.
  apply ireach_after; [apply ireach_after; [exact sender_waits_reached|]|].
  - cbn [icall_ok]. split_and!; [done|by apply notin_true; vm_compute|].
    destruct (runs_user_spec (after_i sender_waits) 1 5 1) as (t & H1 & H2 & H3); [by vm_compute|].
    exists 5, t. split_and!; [exact H1|exact H2|by rewrite H3].
  - cbn [icall_ok]. split_and!; [|reflexivity|split; [reflexivity|]].
    + apply (bool_decide_eq_true (1 ∈ _)). by vm_compute.
    + exists 0x10040. split; by vm_compute.
Qed.
