(* ===== verification/Syscall.v ===== *)
(** * System calls and traps: kernel/src/syscall.rs, kernel/src/arch/riscv64.rs

    [handle] dispatches an [ecall] on the trap frame; [trap_handler] is the entry from
    the assembly vector: timer ticks, requests of other harts, system calls and faults,
    over the whole [System].  Reading or writing [*frame.add(i)] is an access to the list
    of the frame's words; assembly that stores the interrupted registers into the frame
    and restores them from the returned one is outside. *)

From Stdlib Require Import ZifyN ZifyNat.
From stdpp Require Import base gmap numbers functions list.
From S2P Require Import Prelude Mem Mmu Objects Sched Ipc.

(** ** Numbers *)
Definition SYSCALL_EXIT : N := 1.
Definition SYSCALL_GET_TICKS : N := 2.
Definition SYSCALL_IPC_SEND : N := 3.
Definition SYSCALL_IPC_RECV : N := 4.
Definition SYSCALL_SHM_MAP : N := 5.
Definition SYSCALL_CAP_REVOKE : N := 6.
Definition SYSCALL_CAP_DUP : N := 7.
Definition SYSCALL_SERVICE_REGISTER : N := 10.
Definition SYSCALL_SERVICE_CONNECT : N := 11.
Definition SYSCALL_MAP_DEVICE : N := 12.
Definition SYSCALL_MEM_GRANT : N := 13.
Definition SYSCALL_MEM_MAP : N := 14.

Definition GPR_A0 : N := X_A0.
Definition GPR_A1 : N := X_A1.
Definition GPR_A2 : N := 11.
Definition GPR_A3 : N := 12.
Definition GPR_A4 : N := 13.
Definition GPR_A5 : N := 14.
Definition GPR_A7 : N := X_A7.

(** ** [handle] *)

(** What a system call comes to: the thread asks to exit ([true]), the frame is restored
    ([false]), or the thread was blocked and the hart goes on with another. *)
Inductive Handled := HExit | HReturn (frame : list N) | HSwitch (r : Resume).

Definition gpr (f : list N) (i : N) : MY N := expect (vget f i).
(** [*frame.add(GPR_A0) = v; *frame.add(FRAME_SEPC) += 4]. *)
Definition finish (f : list N) (v : N) : MY Handled :=
  f ← ons (skip_ecall (vset f GPR_A0 v));
  mret (HReturn f).
(** The arms of a call whose success is 0. *)
Definition finish_unit (f : list N) (r : result () N) : MY Handled :=
  match r with Ok _ => finish f 0 | Err code => finish f code end.
Definition finish_cap (f : list N) (r : result () CapError) : MY Handled :=
  match r with Ok _ => finish f 0 | Err e => finish f (cap_errno e) end.
(** [block_user_from_trap(frame)], then [false] when it returns. *)
Definition block (h : N) (f : list N) (cpu : Context) : MY Handled :=
  o ← ons (block_user_from_trap h f cpu);
  match o with inl f => mret (HReturn f) | inr r => mret (HSwitch r) end.

Definition handle_ipc_send (h : N) (f : list N) (cpu : Context) : MY Handled :=
  slot ← gpr f GPR_A0;
  m1 ← gpr f GPR_A1; m2 ← gpr f GPR_A2; m3 ← gpr f GPR_A3; m4 ← gpr f GPR_A4; m5 ← gpr f GPR_A5;
  pid ← ons (current_proc h);
  r ← send h pid slot [m1; m2; m3; m4; m5];
  match r with
  | Ok SDone => finish f 0
  | Ok SNoPeer => block h f cpu
  | Err code => finish f code
  end.

Definition handle_ipc_recv (h : N) (f : list N) (cpu : Context) : MY Handled :=
  slot ← gpr f GPR_A0;
  pid ← ons (current_proc h);
  r ← recv h pid slot;
  match r with
  | Ok (RDone msg) =>
      f ← ons (put_words msg (vset f GPR_A0 0));
      f ← ons (skip_ecall f);
      mret (HReturn f)
  | Ok RNoPeer => block h f cpu
  | Err code => finish f code
  end.

(** The arms of [handle] from [SERVICE_REGISTER] on. *)
Definition handle_objects (uart_base h a7 : N) (f : list N) : MY Handled :=
  if a7 =? SYSCALL_SERVICE_REGISTER then
    id ← gpr f GPR_A0;
    pid ← ons (current_proc h);
    r ← onk (register_service pid id); finish_unit f r
  else if a7 =? SYSCALL_SERVICE_CONNECT then
    id ← gpr f GPR_A0; client_slot ← gpr f GPR_A1; server_slot ← gpr f GPR_A2;
    pid ← ons (current_proc h);
    r ← onk (service_connect pid id client_slot server_slot); finish_unit f r
  else if a7 =? SYSCALL_MAP_DEVICE then
    dev_id ← gpr f GPR_A0; va ← gpr f GPR_A1;
    pid ← ons (current_proc h);
    r ← onk (device_map uart_base pid dev_id va); finish_unit f r
  else if a7 =? SYSCALL_MEM_GRANT then
    src_slot ← gpr f GPR_A0; peer_slot ← gpr f GPR_A1; dst_slot ← gpr f GPR_A2;
    pid ← ons (current_proc h);
    r ← onk (mem_grant pid src_slot peer_slot dst_slot); finish_unit f r
  else if a7 =? SYSCALL_MEM_MAP then
    slot ← gpr f GPR_A0; va ← gpr f GPR_A1;
    pid ← ons (current_proc h);
    r ← onk (mem_map pid slot va); finish_unit f r
  else finish f SYS_ERR_ENOSYS.

Definition handle (uart_base h : N) (f : list N) (cpu : Context) : MY Handled :=
  a7 ← gpr f GPR_A7;
  if a7 =? SYSCALL_EXIT then mret HExit
  else if a7 =? SYSCALL_GET_TICKS then
    ticks ← gets y_tick; finish f ticks
  else if a7 =? SYSCALL_IPC_SEND then handle_ipc_send h f cpu
  else if a7 =? SYSCALL_IPC_RECV then handle_ipc_recv h f cpu
  else if a7 =? SYSCALL_SHM_MAP then
    a_slot ← gpr f GPR_A0; b_slot ← gpr f GPR_A1; len ← gpr f GPR_A2;
    pid ← ons (current_proc h);
    r ← onk (mmap_share pid a_slot b_slot len);
    match r with Ok id => finish f id | Err code => finish f code end
  else if a7 =? SYSCALL_CAP_REVOKE then
    slot ← gpr f GPR_A0;
    pid ← ons (current_proc h);
    r ← onk (cap_revoke pid slot); finish_cap f r
  else if a7 =? SYSCALL_CAP_DUP then
    from ← gpr f GPR_A0; to ← gpr f GPR_A1;
    pid ← ons (current_proc h);
    r ← onk (cap_duplicate pid from to); finish_cap f r
  else handle_objects uart_base h a7 f.

(** ** Traps *)

Definition INTERRUPT_BIT : N := N.shiftl 1 63.
Definition CAUSE_SUPERVISOR_TIMER : N := 5.
Definition CAUSE_SUPERVISOR_SOFTWARE : N := 1.
Definition CAUSE_ECALL_FROM_U : N := 8.

(** [tick_up], [fetch_add] on an [AtomicU64]. *)
Definition tick_up : MY () := modify (λ y, set_y_tick (wrapping_add (y_tick y) 1) y).

(** [hartid] from the value of [sscratch]. *)
Definition hartid (base sscratch : N) : N :=
  let off := wrapping_sub sscratch base in
  let h := N.shiftr off 15 in
  if N.land off 0x7FFF =? 0 then wrapping_sub h 1 else h.
Definition hart_trap_top (base h : N) : N := base + (h + 1) * TRAP_STRIDE.

(** What a trap reads from outside: the addresses of the image, the root of the kernel's
    page table and the UART; the clock, the interval, whether the timer register is
    written directly, and the answer of the firmware's [set_timer]. *)
Record Env := mkEnv {
  e_img : Image; e_kroot : N; e_uart : N; e_trap_base : N;
  e_now : N; e_interval : N; e_sstc : bool; e_set_timer : N }.

(** [arm_timer]: the register, or the firmware, which programs the timer when it
    answers 0. *)
Definition arm_timer (env : Env) (h deadline : N) : MY () :=
  if e_sstc env || (e_set_timer env =? 0)
  then modify (λ y, set_y_timer (vset (y_timer y) h deadline) y)
  else mret tt.

(** [enable_timer]: the first deadline, through the firmware, which must accept it. *)
Definition enable_timer (env : Env) (h : N) : MY () :=
  let deadline := wrapping_add (e_now env) (e_interval env) in
  y ← get;
  _ ← expect (vget (y_deadline y) h);
  modify (λ y, set_y_deadline (vset (y_deadline y) h deadline) y);;
  assert_ (e_set_timer env =? 0);;
  modify (λ y, set_y_timer (vset (y_timer y) h deadline) y).

(** The timer branch of [trap_handler] up to the scheduler. *)
Definition timer_tick (env : Env) (h : N) : MY () :=
  tick_up;;
  y ← get;
  old ← expect (vget (y_deadline y) h);
  let interval := e_interval env in
  let ideal := wrapping_add old interval in
  let next := if ideal <? e_now env then wrapping_add (e_now env) interval else ideal in
  modify (λ y, set_y_deadline (vset (y_deadline y) h next) y);;
  arm_timer env h next.

(** How a trap ends: a frame that the assembly restores, a switch, or [halt]. *)
Inductive Trap := TFrame (f : list N) | TResume (r : Resume) | THalt.

(** The check of the frame pointer against the trap stack of the hart. *)
Definition frame_valid (f bottom top : N) : bool :=
  negb ((top <? bottom) || (top - bottom <? FRAME_WORDS * 8) || (f <? bottom) ||
        (top - FRAME_WORDS * 8 <? f) || negb (is_multiple_of f 16)).

Definition SPP_set (sstatus : N) : bool := negb (N.land sstatus (N.shiftl 1 8) =? 0).

Definition on_interrupt (env : Env) (h cause : N) (frame : list N) : MY Trap :=
  if cause =? CAUSE_SUPERVISOR_TIMER then
    timer_tick env h;;
    f ← ons (on_tick (e_img env) h frame);
    mret (TFrame f)
  else if cause =? CAUSE_SUPERVISOR_SOFTWARE then
    req ← ons (take_remote_request h);
    if negb (N.land req REMOTE_FORCE_KILL =? 0) then
      f ← ons (force_kill_current (e_img env) h frame); mret (TFrame f)
    else mret (TFrame frame)
  else mret THalt.

Definition on_exception (env : Env) (h scause : N) (frame : list N) (cpu : Context) : MY Trap :=
  sstatus ← gpr frame FRAME_SSTATUS;
  if scause =? CAUSE_ECALL_FROM_U then
    if SPP_set sstatus then mret THalt
    else
      r ← handle (e_uart env) h frame cpu;
      match r with
      | HExit => r ← ons (exit_from_trap h cpu); mret (TResume r)
      | HReturn f => mret (TFrame f)
      | HSwitch r => mret (TResume r)
      end
  else if SPP_set sstatus then mret THalt
  else
    r ← kill_current_process h (e_kroot env) cpu;
    mret (match r with Some r => TResume r | None => THalt end).

(** [trap_handler] for the frame [frame] at address [f], with [sscratch]; [cpu] are the
    callee-saved registers of the handler itself. *)
Definition trap_handler (env : Env) (scause f sscratch : N) (frame : list N) (cpu : Context) : MY Trap :=
  let h := hartid (e_trap_base env) sscratch in
  off ← mul_ h TRAP_STRIDE;
  bottom ← add_ (e_trap_base env) off;
  top ← add_ bottom TRAP_STRIDE;
  if negb (frame_valid f bottom top) then mret THalt
  else if negb (N.land scause INTERRUPT_BIT =? 0)
  then on_interrupt env h (N.ldiff scause INTERRUPT_BIT) frame
  else on_exception env h scause frame cpu.
