(* ===== verification/SyscallProps.v ===== *)
(** * Properties of system calls and traps *)

From Stdlib Require Import ZifyN ZifyNat.
From stdpp Require Import base gmap numbers functions list.
From S2P Require Import Prelude Mem Mmu Objects ObjInv Sched SchedInv SchedOps SchedSteps Ipc IpcInv IpcProps Syscall.

(** ** The frame of the caller *)

(** [f'] is [f] with the answer [code], the words [m] and the program counter past the
    [ecall]; every other register is as it was. *)
Definition answers (f f' : list N) (code : N) (m : list N) : Prop :=
  vlen f' = vlen f ∧ vget f' X_A0 = Some code ∧
  (∀ i w, m !! i = Some w → vget f' (X_A1 + N.of_nat i) = Some w) ∧
  (∃ pc, vget f FRAME_SEPC = Some pc ∧ vget f' FRAME_SEPC = Some (pc + 4)) ∧
  ∀ i, i ≠ X_A0 → i ≠ FRAME_SEPC → ¬ (X_A1 ≤ i < X_A1 + vlen m) → vget f' i = vget f i.

Lemma lookup_inserts {A} (m l : list A) k i : (k + length m ≤ length l)%nat →
  list_inserts k m l !! i = if decide (k ≤ i < k + length m)%nat then m !! (i - k)%nat else l !! i.
Proof.
  intros Hl. case_decide as Hi.
  - rewrite list_lookup_inserts; [done|lia..].
  - destruct (decide (i < k)%nat); [by rewrite list_lookup_inserts_lt by lia|by rewrite list_lookup_inserts_ge by lia].
Qed.

Lemma reply_answers f code m : frame_ok f → vlen m ≤ MSG_WORDS → answers f (reply_frame code m f) code m.
Proof.
  intros [Hl (pc & Epc & _)] Hm. unfold FRAME_WORDS, MSG_WORDS, vlen in *. unfold reply_frame.
  set (g := list_inserts _ m (vset f X_A0 code)).
  assert (Hg : ∀ i, vget g i = if decide (X_A1 ≤ i < X_A1 + vlen m) then m !! N.to_nat (i - X_A1)
                               else vget (vset f X_A0 code) i).
  { intros i. rewrite !vget_lookup. unfold g. rewrite lookup_inserts.
    - unfold X_A1, vlen in *. repeat case_decide; try lia; [f_equal; lia|done].
    - unfold vset, X_A1, vlen in *. case_match; rewrite ?length_insert; lia. }
  assert (Hgl : vlen g = 36) by (unfold g, vlen; rewrite length_inserts; unfold vset; case_match; rewrite ?length_insert; lia).
  assert (Esepc : vget g FRAME_SEPC = Some pc).
  { rewrite Hg, decide_False by (unfold X_A1, FRAME_SEPC, vlen in *; lia). by rewrite vget_vset_ne. }
  rewrite Esepc. cbn [default from_option id]. split_and!.
  - rewrite vlen_vset, Hgl. unfold vlen. lia.
  - rewrite vget_vset_ne, Hg, decide_False by (unfold X_A1, X_A0 in *; lia || done).
    apply vget_vset_eq. unfold vlen, X_A0. lia.
  - intros i w Hi. pose proof (lookup_lt_Some _ _ _ Hi). rewrite vget_vset_ne by (unfold X_A1, FRAME_SEPC; lia).
    rewrite Hg, decide_True by (unfold X_A1, vlen; lia). rewrite <-Hi. f_equal. lia.
  - exists pc. split; [done|]. apply vget_vset_eq. rewrite Hgl. done.
  - intros i H0 Hs Hr. rewrite vget_vset_ne, Hg, decide_False by done. by apply vget_vset_ne.
Qed.

Lemma runs_finish f v y : frame_ok f → runs (finish f v) y (λ r y', r = HReturn (reply_frame v [] f) ∧ y' = y).
Proof.
  intros [Hl (pc & Epc & Hpc)]. unfold finish. apply runs_bind, runs_ons.
  assert (E : vget (vset f GPR_A0 v) FRAME_SEPC = Some pc) by (by rewrite vget_vset_ne).
  unfold skip_ecall. apply runs_bind. eapply runs_expect; [done|]. apply runs_bind. unfold add_.
  eapply runs_expect; [by apply checked_add_Some|]. apply runs_ret, runs_ret. split; [|by destruct y].
  unfold reply_frame. cbn [list_inserts]. fold GPR_A0. by rewrite E.
Qed.

(** ** The table of the calls on kernel objects *)

Definition unit_code (r : result () N) : N := match r with Ok _ => 0 | Err code => code end.
Definition cap_code (r : result () CapError) : N := match r with Ok _ => 0 | Err e => cap_errno e end.
Definition id_code (r : result N N) : N := match r with Ok id => id | Err code => code end.
Definition coded {A} (code : A → N) (m : M Kernel A) : M Kernel N := r ← m; mret (code r).

(** The call number [a7] with arguments [a0], [a1], [a2] of process [pid], as the system
    call table documents it. *)
Definition object_call (uart pid a7 a0 a1 a2 : N) : option (M Kernel N) :=
  match a7 with
  | 5 => Some (coded id_code (mmap_share pid a0 a1 a2))
  | 6 => Some (coded cap_code (cap_revoke pid a0))
  | 7 => Some (coded cap_code (cap_duplicate pid a0 a1))
  | 10 => Some (coded unit_code (register_service pid a0))
  | 11 => Some (coded unit_code (service_connect pid a0 a1 a2))
  | 12 => Some (coded unit_code (device_map uart pid a0 a1))
  | 13 => Some (coded unit_code (mem_grant pid a0 a1 a2))
  | 14 => Some (coded unit_code (mem_map pid a0 a1))
  | _ => None
  end.

(** The registers a system call reads. *)
Definition args (f : list N) (a7 a0 a1 a2 : N) : Prop :=
  vget f X_A7 = Some a7 ∧ vget f X_A0 = Some a0 ∧ vget f X_A1 = Some a1 ∧ vget f 11 = Some a2.

Lemma bind_gpr {A} f i v (k : N → MY A) y : vget f i = Some v → (gpr f i ≫= k) y = k v y.
Proof. intros E. unfold gpr. by rewrite E. Qed.

Lemma bind_proc {A} h cur t pid y (k : N → MY A) :
  vget (s_current (y_s y)) h = Some cur → th (y_s y) cur = Some t → t_proc t = Some pid →
  (ons (current_proc h) ≫= k) y = k pid y.
Proof.
  intros Ec Ht Hp. destruct (runs_current_proc h cur t pid y (λ a y', a = pid ∧ y' = y)) as (? & ? & E & -> & ->); [done..|].
  by rewrite (bind_ret _ _ _ _ _ E).
Qed.

(** A call on kernel objects: the answer of the operation, nothing else. *)
Lemma onk_finish {A} (code : A → N) (m : M Kernel A) f (k : A → MY Handled) y :
  frame_ok f → (∀ r, k r = finish f (code r)) →
  (onk m ≫= k) y =
    match coded code m (y_k y) with
    | Ret (c, k') => Ret (HReturn (reply_frame c [] f), set_y_k k' y)
    | Panic => Panic
    | Timeout => Timeout
    end.
Proof.
  intros Hf Hk. unfold coded, onk, lift, mbind, M_bind. destruct (m (y_k y)) as [[r k']| |]; [|done..].
  rewrite Hk. by destruct (runs_finish f (code r) (set_y_k k' y) Hf) as (? & ? & -> & -> & ->).
Qed.

Lemma handle_object uart h pid cur t f cpu a7 a0 a1 a2 op y :
  vget (s_current (y_s y)) h = Some cur → th (y_s y) cur = Some t → t_proc t = Some pid →
  frame_ok f → args f a7 a0 a1 a2 → object_call uart pid a7 a0 a1 a2 = Some op →
  handle uart h f cpu y =
    match op (y_k y) with
    | Ret (c, k') => Ret (HReturn (reply_frame c [] f), set_y_k k' y)
    | Panic => Panic
    | Timeout => Timeout
    end.
Proof.
  intros Ec Ht Hp Hf (E7 & E0 & E1 & E2) Hop. unfold handle, handle_objects. rewrite (bind_gpr _ _ _ _ _ E7).
  assert (Hbp : ∀ A (k : N → MY A), (ons (current_proc h) ≫= k) y = k pid y) by (intros; by apply (bind_proc h cur t)).
  assert (C : a7 = 5 ∨ a7 = 6 ∨ a7 = 7 ∨ a7 = 10 ∨ a7 = 11 ∨ a7 = 12 ∨ a7 = 13 ∨ a7 = 14).
  { unfold object_call in Hop. repeat case_match; simplify_eq; tauto. }
  repeat destruct C as [C|C]; subst a7; injection Hop as <-; cbn [N.eqb Pos.eqb SYSCALL_EXIT
    SYSCALL_GET_TICKS SYSCALL_IPC_SEND SYSCALL_IPC_RECV SYSCALL_SHM_MAP SYSCALL_CAP_REVOKE SYSCALL_CAP_DUP
    SYSCALL_SERVICE_REGISTER SYSCALL_SERVICE_CONNECT SYSCALL_MAP_DEVICE SYSCALL_MEM_GRANT SYSCALL_MEM_MAP];
    rewrite ?(bind_gpr _ _ _ _ _ E0), ?(bind_gpr _ _ _ _ _ E1), ?(bind_gpr _ _ _ _ _ E2), Hbp;
    by (apply onk_finish; [done|by intros [?|?]]).
Qed.

(** ** The calls on messages *)

Lemma filter_fresh (h : N) T : h ∉ T → filter (.≠ h) (h :: T) = T.
Proof.
  intros HT. rewrite filter_cons_False by (by intros []).
  induction T as [|x T IH]; [done|]. apply not_elem_of_cons in HT as [Hx HT].
  by rewrite filter_cons_True, IH.
Qed.

(** What a call on messages that does not return leaves: the caller registered, blocked,
    with its frame untouched. *)
Definition parked (cur : N) (f : list N) (y : System) : Prop :=
  cur ∈ tids (y_ipc y) ∧ ∃ u, th (y_s y) cur = Some u ∧ t_state u = Blocked ∧ t_frame u = f.

Lemma block_spec T y0 y h f cpu pid cur t :
  ipc_wf T [] y0 → caller T y0 h pid cur t → same_outer (y_s y0) (y_s y) → ipc_wf (h :: T) [] y → cpu_ok cpu → frame_ok f →
  runs (block h f cpu) y (λ r y', ipc_wf T [] y' ∧ y_k y' = y_k y ∧ ∃ r', r = HSwitch r' ∧ parked cur f y').
Proof.
  intros W0 (Hh & HT & Ec & Ht & Hp) Es W Hcpu Hf. destruct (calm_current _ _ _ h cur t W0 Hh HT Ec Ht) as (_ & _ & _ & Hw).
  unfold block. apply runs_bind. assert (Ht' : th (y_s y) cur = Some t) by (by rewrite (same_outer_threads _ _ Es)).
  assert (Ec' : vget (s_current (y_s y)) h = Some cur) by (by rewrite (same_outer_current _ _ Es)).
  eapply runs_mono; [by apply (block_user_wf (h :: T) y h f cpu cur t); [done|left|..]|].
  intros o y' (W' & Ey & Ho). rewrite filter_fresh in W' by done.
  destruct o as [f'|r]; [destruct Ho as (w & Ew & _); congruence|].
  destruct Ho as (_ & Hin & Hth & _). apply runs_ret. split_and!; [done|by rewrite Ey|]. exists r. split; [done|].
  split; [by rewrite Ey|]. by eexists.
Qed.

Lemma runs_gpr f i v y (Q : N → System → Prop) : vget f i = Some v → Q v y → runs (gpr f i) y Q.
Proof. intros E HQ. by eapply runs_expect. Qed.

Lemma frame_word f i : frame_ok f → i < FRAME_WORDS → ∃ v, vget f i = Some v.
Proof. intros [Hl _] Hi. apply vget_lt_Some. by rewrite Hl. Qed.

(** The outcome of a call on messages by thread [cur] with frame [f]. *)
Definition messaged (T : list N) (f : list N) (cur : N) (y : System) (words : list N → Prop) (r : Handled) (y' : System) : Prop :=
  ipc_wf T [] y' ∧ y_k y' = y_k y ∧
  match r with
  | HExit => False
  | HReturn f' => ∃ code m, answers f f' code m ∧ words m
  | HSwitch _ => parked cur f y'
  end.

Lemma finish_messaged T f v cur y y1 words :
  frame_ok f → ipc_wf T [] y1 → y_k y1 = y_k y → words [] → runs (finish f v) y1 (messaged T f cur y words).
Proof.
  intros Hf W Ek Hw. eapply runs_mono; [by apply runs_finish|]. intros r y' [-> ->]. split_and!; [done..|].
  exists v, []. split; [|done]. by apply reply_answers.
Qed.

Lemma handle_send_spec T y h pid cur t f cpu :
  ipc_wf T [] y → caller T y h pid cur t → frame_ok f → cpu_ok cpu →
  runs (handle_ipc_send h f cpu) y (messaged T f cur y (.= [])).
Proof.
  intros W Hc Hf Hcpu. unfold handle_ipc_send.
  destruct (frame_word f GPR_A0 Hf) as [slot E0]; [done|]. apply runs_bind. eapply runs_gpr; [done|].
  destruct (frame_word f GPR_A1 Hf) as [m1 E1]; [done|]. apply runs_bind. eapply runs_gpr; [done|].
  destruct (frame_word f GPR_A2 Hf) as [m2 E2]; [done|]. apply runs_bind. eapply runs_gpr; [done|].
  destruct (frame_word f GPR_A3 Hf) as [m3 E3]; [done|]. apply runs_bind. eapply runs_gpr; [done|].
  destruct (frame_word f GPR_A4 Hf) as [m4 E4]; [done|]. apply runs_bind. eapply runs_gpr; [done|].
  destruct (frame_word f GPR_A5 Hf) as [m5 E5]; [done|]. apply runs_bind. eapply runs_gpr; [done|].
  pose proof Hc as (Hh & HT & Ec & Ht & Hp). apply runs_bind. eapply runs_current_proc; [done..|].
  apply runs_bind. eapply runs_mono; [by apply (send_spec T y h pid slot [m1; m2; m3; m4; m5] cur t)|].
  intros r y1 (Ek & H).
  destruct (cap_target pid slot (y_k y)) as [[dst|?|?]|e];
    try (destruct H as [-> ->]; by apply finish_messaged).
  destruct (match_recv _ _ _) as [[rv rest]|].
  - destruct H as (-> & W1 & _). by apply finish_messaged.
  - destruct H as (-> & W1 & Es & _). eapply runs_mono; [by apply (block_spec T y y1 h f cpu pid cur t)|].
    intros r y' (W' & Ek' & r' & -> & Hpk). split_and!; [done|congruence|done].
Qed.

Lemma handle_recv_spec T y h pid cur t f cpu :
  ipc_wf T [] y → caller T y h pid cur t → frame_ok f → cpu_ok cpu →
  runs (handle_ipc_recv h f cpu) y (messaged T f cur y (λ m, m = [] ∨ msg_ok m)).
Proof.
  intros W Hc Hf Hcpu. unfold handle_ipc_recv.
  destruct (frame_word f GPR_A0 Hf) as [slot E0]; [done|]. apply runs_bind. eapply runs_gpr; [done|].
  pose proof Hc as (Hh & HT & Ec & Ht & Hp). apply runs_bind. eapply runs_current_proc; [done..|]. apply runs_bind.
  unfold recv. apply runs_bind, runs_get.
  assert (HF : ∀ src, runs (recv_from h pid src) y (λ r y', runs
    (match r with
     | Ok (RDone msg) => f ← ons (put_words msg (vset f GPR_A0 0)); f ← ons (skip_ecall f); mret (HReturn f)
     | Ok RNoPeer => block h f cpu
     | Err code => finish f code
     end) y' (messaged T f cur y (λ m, m = [] ∨ msg_ok m)))).
  { intros src. eapply runs_mono; [by apply (recv_from_spec T y h pid src cur t)|].
    intros r y1 (Ek & H). destruct (take_first _ _) as [[p rest]|].
    - destruct H as (-> & W1 & _ & Hm & _). destruct Hf as [Hl (pc & Epc & Hpc)]. pose proof Hm as Hm'. unfold msg_ok in Hm'.
      apply runs_bind, runs_ons. unfold put_words. apply runs_bind. eapply runs_assert.
      { rewrite vlen_vset, Hl, Hm'. done. }
      apply runs_ret. cbv beta. apply runs_bind, runs_ons.
      set (g := list_inserts _ _ _). assert (Eg : vget g FRAME_SEPC = Some pc).
      { unfold g. rewrite vget_lookup, lookup_inserts.
        - rewrite decide_False by (unfold FRAME_SEPC, X_A1, vlen, MSG_WORDS in *; lia). rewrite <-vget_lookup. by rewrite vget_vset_ne.
        - unfold vset, vlen, X_A1, MSG_WORDS, FRAME_WORDS in *. case_match; rewrite ?length_insert; lia. }
      unfold skip_ecall. apply runs_bind. eapply runs_expect; [done|]. apply runs_bind. unfold add_.
      eapply runs_expect; [by apply checked_add_Some|]. apply runs_ret, runs_ret.
      split_and!; [by destruct y1|done|]. exists 0, (ps_msg p). split; [|by right].
      assert (Ef : vset g FRAME_SEPC (pc + 4) = reply_frame 0 (ps_msg p) f).
      { unfold reply_frame. fold GPR_A0. fold g. by rewrite Eg. }
      rewrite Ef. apply reply_answers; [by split; eauto|by rewrite Hm'].
    - destruct H as (-> & W1 & Es & _). eapply runs_mono; [by apply (block_spec T y y1 h f cpu pid cur t)|].
      intros r y' (W' & Ek' & r' & -> & Hpk). split_and!; [done|congruence|done]. }
  destruct (cap_target pid slot (y_k y)) as [[src|?|?]|[| | | |]]; try apply HF;
    apply runs_ret; apply finish_messaged; auto.
Qed.

(** The outcome of a call that is not on kernel objects: exit changes nothing; a call that
    returns answers the caller, with message words only for a receive, and changes nothing
    else when it is not about messages; the caller is parked otherwise. *)
Definition handled (T : list N) (f : list N) (cur a7 : N) (y : System) (r : Handled) (y' : System) : Prop :=
  ipc_wf T [] y' ∧ y_k y' = y_k y ∧
  match r with
  | HExit => a7 = SYSCALL_EXIT ∧ y' = y
  | HReturn f' => ∃ code m, answers f f' code m ∧ (m = [] ∨ a7 = SYSCALL_IPC_RECV ∧ msg_ok m) ∧
      (a7 ≠ SYSCALL_IPC_SEND → a7 ≠ SYSCALL_IPC_RECV →
       y' = y ∧ code = if a7 =? SYSCALL_GET_TICKS then y_tick y else SYS_ERR_ENOSYS)
  | HSwitch _ => (a7 = SYSCALL_IPC_SEND ∨ a7 = SYSCALL_IPC_RECV) ∧ parked cur f y'
  end.

Lemma finish_handled T f v cur a7 y :
  ipc_wf T [] y → frame_ok f → v = (if a7 =? SYSCALL_GET_TICKS then y_tick y else SYS_ERR_ENOSYS) →
  runs (finish f v) y (handled T f cur a7 y).
Proof.
  intros W Hf Hv. eapply runs_mono; [by apply runs_finish|]. intros r y' [-> ->]. split_and!; [done..|].
  exists v, []. split_and!; [by apply reply_answers|by left|done].
Qed.

Lemma handle_other uart T y h pid cur t f cpu a7 a0 a1 a2 :
  ipc_wf T [] y → caller T y h pid cur t → frame_ok f → cpu_ok cpu → args f a7 a0 a1 a2 →
  object_call uart pid a7 a0 a1 a2 = None → runs (handle uart h f cpu) y (handled T f cur a7 y).
Proof.
  intros W Hc Hf Hcpu (E7 & E0 & E1 & E2) Eo. unfold handle, handle_objects. apply runs_bind. eapply runs_gpr; [done|].
  destruct (a7 =? SYSCALL_EXIT) eqn:X1; bool_to_prop; [by apply runs_ret|].
  destruct (a7 =? SYSCALL_GET_TICKS) eqn:X2.
  { apply runs_bind, runs_gets. apply finish_handled; [done..|]. by rewrite X2. }
  destruct (a7 =? SYSCALL_IPC_SEND) eqn:X3; bool_to_prop.
  { eapply runs_mono; [by apply (handle_send_spec T y h pid cur t f cpu)|]. intros r y' (W' & Ek & Hr).
    split_and!; [done..|]. destruct r as [|f'|r]; [done| |by auto].
    destruct Hr as (code & m & HA & ->). exists code, []. split_and!; [done|by left|done]. }
  destruct (a7 =? SYSCALL_IPC_RECV) eqn:X4; bool_to_prop.
  { eapply runs_mono; [by apply (handle_recv_spec T y h pid cur t f cpu)|]. intros r y' (W' & Ek & Hr).
    split_and!; [done..|]. destruct r as [|f'|r]; [done| |by auto].
    destruct Hr as (code & m & HA & Hm). exists code, m. split_and!; [done|naive_solver|done]. }
  assert (X : ∀ n, object_call uart pid n a0 a1 a2 ≠ None → (a7 =? n) = false).
  { intros n Hn. apply N.eqb_neq. by intros ->. }
  do 8 (rewrite X by done). apply finish_handled; [done..|]. rewrite (proj2 (N.eqb_neq _ _)); done.
Qed.



(** ** The hart number and the timer *)

Lemma wrapping_sub_le a b : b ≤ a → a ≤ USIZE_MAX → wrapping_sub a b = a - b.
Proof.
  intros H1 H2. unfold wrapping_sub, USIZE_MAX, USIZE_MOD in *. rewrite (N.mod_small b) by lia.
  replace (a + (0x10000000000000000 - b)) with (a - b + 1 * 0x10000000000000000) by lia.
  rewrite N.Div0.mod_add. apply N.mod_small. lia.
Qed.

Lemma wrapping_add_le a b : a + b ≤ USIZE_MAX → wrapping_add a b = a + b.
Proof. intros H. unfold wrapping_add, USIZE_MAX, USIZE_MOD in *. apply N.mod_small. lia. Qed.

(** [hartid] finds the hart from any address of its trap slot but the lowest, the top
    included, which is what [sscratch] holds outside a trap. *)
Lemma hartid_slot base h a :
  base + (h + 1) * TRAP_STRIDE ≤ USIZE_MAX → base + h * TRAP_STRIDE < a ≤ base + (h + 1) * TRAP_STRIDE →
  hartid base a = h.
Proof.
  intros Hm [H1 H2]. unfold hartid, TRAP_STRIDE in *. rewrite wrapping_sub_le by lia.
  change 0x7FFF with (N.ones 15). rewrite N.land_ones, N.shiftr_div_pow2. change (2 ^ 15) with 32768.
  assert (Hc : a - base = h * 32768 + 32768 ∨ a - base < h * 32768 + 32768) by lia. destruct Hc as [E|Hc].
  - rewrite E. replace (h * 32768 + 32768) with ((h + 1) * 32768) by lia.
    rewrite N.Div0.mod_mul, N.div_mul by done. cbn [N.eqb]. rewrite wrapping_sub_le; [lia|lia|]. unfold USIZE_MAX in *. lia.
  - assert (Ed : (a - base) / 32768 = h) by (symmetry; apply (N.div_unique _ _ _ (a - base - h * 32768)); lia).
    assert (En : (a - base) mod 32768 ≠ 0) by (rewrite N.Div0.mod_eq, Ed; lia).
    rewrite Ed. destruct (N.eqb_spec ((a - base) mod 32768) 0); done.
Qed.

Definition at_time (env : Env) (now : N) : Env :=
  mkEnv (e_img env) (e_kroot env) (e_uart env) (e_trap_base env) now (e_interval env) (e_sstc env) (e_set_timer env).
Definition armed (env : Env) : Prop := e_sstc env = true ∨ e_set_timer env = 0.

(** The deadline the tick at [now] sets when the last one was [d]. *)
Definition next_deadline (d interval now : N) : N := if d + interval <? now then now + interval else d + interval.

Lemma timer_tick_run env h d y :
  vget (y_deadline y) h = Some d → armed env →
  d + e_interval env ≤ USIZE_MAX → (d + e_interval env < e_now env → e_now env + e_interval env ≤ USIZE_MAX) →
  timer_tick env h y = Ret (tt,
    let next := next_deadline d (e_interval env) (e_now env) in
    set_y_timer (vset (y_timer y) h next) (set_y_deadline (vset (y_deadline y) h next)
      (set_y_tick (wrapping_add (y_tick y) 1) y))).
Proof.
  intros Ed Ha H1 H2. unfold timer_tick, tick_up. rewrite bind_modify, bind_get. cbn [y_deadline set_y_tick].
  rewrite (bind_expect_some _ _ _ _ Ed). cbv zeta. rewrite (wrapping_add_le d) by done. rewrite bind_modify.
  unfold arm_timer. assert (E : e_sstc env || (e_set_timer env =? 0) = true).
  { destruct Ha as [-> | ->]; [done|]. by rewrite orb_true_r. }
  rewrite E. unfold next_deadline. case_match; bool_to_prop; [|done]. by rewrite wrapping_add_le by auto.
Qed.

Definition ticks (env : Env) (h : N) : list N → MY () := for_each (λ now, timer_tick (at_time env now) h).



(** ** Traps *)

Definition is_interrupt (scause : N) : bool := negb (N.land scause INTERRUPT_BIT =? 0).
Definition cause_of (scause : N) : N := N.ldiff scause INTERRUPT_BIT.
Definition known_interrupt (scause : N) : bool :=
  (cause_of scause =? CAUSE_SUPERVISOR_TIMER) || (cause_of scause =? CAUSE_SUPERVISOR_SOFTWARE).
(** The traps the kernel gives up on: a corrupt frame pointer, an interrupt it does not
    know, an exception of its own. *)
Definition gives_up (env : Env) (h scause f : N) (frame : list N) : bool :=
  negb (frame_valid f (e_trap_base env + h * TRAP_STRIDE) (hart_trap_top (e_trap_base env) h)) ||
  (if is_interrupt scause then negb (known_interrupt scause)
   else SPP_set (default 0 (vget frame FRAME_SSTATUS))).

(** When a request to stop a thread reaches hart [h], the thread it runs, if it is the
    one, is not the idle thread, and the idle thread can be entered. *)
Definition stop_ok (y : System) (h : N) : Prop :=
  ∀ cur, vget (s_current (y_s y)) h = Some cur → vget (s_kill_request (y_s y)) cur = Some true →
    vget (s_idle (y_s y)) h ≠ Some cur ∧ idle_enterable (y_s y) h.

(** An exception from user mode comes from the thread of a process; the operation on
    kernel objects it asks for returns, or, for a fault, the process can be destroyed. *)
Definition user_ok (env : Env) (T : list N) (y : System) (h scause : N) (frame : list N) : Prop :=
  ∃ pid cur t, caller T y h pid cur t ∧
    if scause =? CAUSE_ECALL_FROM_U then
      ∃ a7 a0 a1 a2, args frame a7 a0 a1 a2 ∧
        ∀ op, object_call (e_uart env) pid a7 a0 a1 a2 = Some op → ∃ c k', op (y_k y) = Ret (c, k')
    else
      none_exited (y_s y) pid ∧ none_in_transit T (y_s y) pid ∧ ∃ k', proc_destroy pid (y_k y) = Ret (tt, k').

Definition trap_ok (env : Env) (T : list N) (y : System) (h scause : N) (frame : list N) : Prop :=
  if is_interrupt scause then stop_ok y h
  else SPP_set (default 0 (vget frame FRAME_SSTATUS)) = false → user_ok env T y h scause frame.

Lemma wf_other T D y y' : ipc_wf T D y → y_s y' = y_s y → y_ipc y' = y_ipc y → ipc_wf T D y'.
Proof. intros [] Es Ei. constructor; rewrite ?Es, ?Ei; done. Qed.

Lemma timer_tick_wf env T y h :
  ipc_wf T [] y → h < vlen (y_deadline y) →
  runs (timer_tick env h) y (λ _ y', ipc_wf T [] y' ∧ y_s y' = y_s y).
Proof.
  intros W Hd. destruct (vget_lt_Some _ _ Hd) as [d Ed]. unfold timer_tick, tick_up.
  apply runs_bind, runs_modify. apply runs_bind, runs_get. apply runs_bind. eapply runs_expect; [exact Ed|].
  cbv zeta. apply runs_bind, runs_modify. unfold arm_timer.
  case_match; [apply runs_modify|apply runs_ret]; (split; [|done]); by apply (wf_other T [] y).
Qed.

Lemma force_kill_quiet img h frame cur y :
  vget (s_current (y_s y)) h = Some cur → vget (s_kill_request (y_s y)) cur = Some false →
  ons (force_kill_current img h frame) y = Ret (frame, y).
Proof.
  intros Ec Ek. unfold ons, lift.
  assert (E : force_kill_current img h frame (y_s y) = Ret (frame, y_s y)).
  { unfold force_kill_current. erewrite bind_ret; [|unfold current_of; rewrite bind_get, Ec; reflexivity].
    by rewrite bind_get, (bind_expect_some _ _ _ _ Ek). }
  rewrite E. by destruct y.
Qed.

Lemma interrupt_wf env T y h scause frame :
  ipc_wf T [] y → h < MAX_HARTS → h ∉ T → frame_ok frame → h < vlen (y_deadline y) → stop_ok y h →
  runs (on_interrupt env h (cause_of scause) frame) y (λ r y', ipc_wf T [] y' ∧
    if known_interrupt scause then r ≠ THalt else r = THalt ∧ y' = y).
Proof.
  intros W Hh HT [Hf _] Hd Hstop. unfold on_interrupt, known_interrupt.
  destruct (cause_of scause =? CAUSE_SUPERVISOR_TIMER); cbn [orb].
  { apply runs_bind. eapply runs_mono; [by apply timer_tick_wf|]. intros [] y1 [W1 Es]. apply runs_bind.
    eapply runs_mono; [by apply tick_wf|]. intros f y2 W2. by apply runs_ret. }
  destruct (cause_of scause =? CAUSE_SUPERVISOR_SOFTWARE); [|by apply runs_ret].
  pose proof (iw_sched _ _ _ W) as I. destruct (in_current _ I h Hh) as (cur & t & Ec & Ht & _).
  destruct (vget_lt_Some (s_remote_req (y_s y)) h) as [w Ew].
  { by rewrite (sh_remote _ (co_shape _ _ (in_core _ I))). }
  apply runs_bind, runs_ons. unfold take_remote_request. apply runs_bind, runs_get. apply runs_bind.
  eapply runs_expect; [done|]. apply runs_bind, runs_modify, runs_ret. set (y1 := set_y_s _ y).
  assert (W1 : ipc_wf T [] y1) by (apply wf_threads; [done|by apply inv_remote|done]).
  destruct (negb _); [|by apply runs_ret]. apply runs_bind.
  assert (Hlt : cur < vlen (s_kill_request (y_s y))).
  { pose proof (co_shape _ _ (in_core _ I)) as Hs. rewrite (sh_kill _ Hs). pose proof (sh_threads _ Hs). apply vget_Some_lt in Ht. lia. }
  destruct (vget_lt_Some _ _ Hlt) as [[|] Hreq].
  - destruct (Hstop cur Ec Hreq) as [Hni Hen].
    eapply runs_mono; [apply (force_kill_wf (e_img env) T y1 h frame); try done; cbn; congruence|].
    intros f y2 W2. by apply runs_ret.
  - exists frame, y1. split; [by apply (force_kill_quiet _ _ _ cur)|]. by apply runs_ret.
Qed.

Lemma user_not_idle T y h pid cur t : ipc_wf T [] y → caller T y h pid cur t →
  vget (s_current (y_s y)) h ≠ vget (s_idle (y_s y)) h.
Proof.
  intros W (Hh & HT & Ec & Ht & Hp) E. pose proof (iw_sched _ _ _ W) as I.
  destruct (co_idle _ _ (in_core _ I) h Hh) as (b & tb & Eb & Etb & _ & Hpb & _). congruence.
Qed.

(** The end of a process whose thread has faulted. *)
Lemma kill_current_wf T y h kroot cpu pid cur t k' :
  ipc_wf T [] y → caller T y h pid cur t → cpu_ok cpu → none_exited (y_s y) pid → none_in_transit T (y_s y) pid →
  proc_destroy pid (y_k y) = Ret (tt, k') →
  runs (kill_current_process h kroot cpu) y (λ r y', is_Some r ∧ ipc_wf T [] y' ∧ y_k y' = k').
Proof.
  intros W Hc Hcpu Hne Htr Hd. pose proof Hc as (Hh & HT & Ec & Ht & Hp). unfold kill_current_process.
  pose proof (user_not_idle _ _ _ _ _ _ W Hc) as Hni.
  apply runs_bind. eapply runs_current_proc; [done..|]. apply runs_bind. unfold kill_process. apply runs_bind.
  destruct (kill_begin_wf T y h pid W Hh Hne Htr) as (b & y1 & E1 & W1 & Ek & Ei & _).
  pose proof (kill_begin_flag h pid y b y1 cur t E1 Ec Ht) as ->. rewrite bool_decide_eq_true_2 in E1 by done.
  destruct (yseats_kill_begin h pid y _ _ E1) as (Ec1 & Eid1 & _).
  eexists _, y1. split; [exact E1|]. unfold kill_finish. apply runs_bind, runs_bind.
  pose proof (iw_sched _ _ _ W1) as I1. apply runs_ons, runs_switch_root; [apply (co_shape _ _ (in_core _ I1))|done|].
  set (y2 := set_y_s _ y1).
  assert (W2 : ipc_wf T [] y2) by (apply wf_threads; [done|by apply inv_satp|done]).
  assert (Hd2 : onk (proc_destroy pid) y2 = Ret (tt, set_y_k k' y2)).
  { unfold onk, lift. cbn [y2 y_k set_y_s]. by rewrite Ek, Hd. }
  eexists _, _. split; [exact Hd2|]. apply runs_ret. apply runs_bind.
  assert (W3 : ipc_wf T [] (set_y_k k' y2)) by (by apply (wf_other T [] y2)).
  assert (Hst : stays (λ y y', y_k y' = y_k y) (ons (exit_from_trap h cpu)) (set_y_k k' y2)).
  { intros a y'. unfold ons, lift. destruct (exit_from_trap h cpu _) as [[? ?]| |]; [|done..]. by intros [= _ <-]. }
  destruct (exit_wf T (set_y_k k' y2) h cpu W3 Hh HT Hcpu) as (r & y3 & E3 & W4).
  { cbn [y2 y_s set_y_s set_y_k]. change (vget (s_current (y_s y1)) h ≠ vget (s_idle (y_s y1)) h). congruence. }
  exists r, y3. split; [exact E3|]. apply runs_ret. split_and!; [by eexists|done|exact (Hst _ _ E3)].
Qed.

Lemma handle_wf env T y h pid cur t f cpu a7 a0 a1 a2 :
  ipc_wf T [] y → caller T y h pid cur t → frame_ok f → cpu_ok cpu → args f a7 a0 a1 a2 →
  (∀ op, object_call (e_uart env) pid a7 a0 a1 a2 = Some op → ∃ c k', op (y_k y) = Ret (c, k')) →
  runs (handle (e_uart env) h f cpu) y (λ r y', ipc_wf T [] y' ∧ (r = HExit → y' = y)).
Proof.
  intros W Hc Hf Hcpu Ha Hop. destruct (object_call (e_uart env) pid a7 a0 a1 a2) as [op|] eqn:Eo.
  - destruct (Hop op eq_refl) as (c & k' & Eop). pose proof Hc as (_ & _ & Ec & Ht & Hp).
    eexists _, _. split; [rewrite (handle_object _ h pid cur t f cpu a7 a0 a1 a2 op y Ec Ht Hp Hf Ha Eo), Eop; done|].
    split; [by apply (wf_other T [] y)|done].
  - eapply runs_mono; [by apply (handle_other _ T y h pid cur t f cpu a7 a0 a1 a2)|].
    intros r y' (W' & _ & Hr). split; [done|]. intros ->. by destruct Hr.
Qed.

Lemma exception_wf env T y h scause frame cpu :
  ipc_wf T [] y → frame_ok frame → cpu_ok cpu →
  (SPP_set (default 0 (vget frame FRAME_SSTATUS)) = false → user_ok env T y h scause frame) →
  runs (on_exception env h scause frame cpu) y (λ r y', ipc_wf T [] y' ∧
    if SPP_set (default 0 (vget frame FRAME_SSTATUS)) then r = THalt ∧ y' = y else r ≠ THalt).
Proof.
  intros W Hf Hcpu Hu. unfold on_exception. destruct (frame_word frame FRAME_SSTATUS Hf) as [ss Ess]; [done|].
  apply runs_bind. eapply runs_gpr; [done|]. rewrite Ess in Hu |- *. cbn [default from_option id] in *.
  destruct (SPP_set ss); [by case_match; apply runs_ret|]. destruct (Hu eq_refl) as (pid & cur & t & Hc & H).
  destruct (scause =? CAUSE_ECALL_FROM_U).
  - destruct H as (a7 & a0 & a1 & a2 & Ha & Hop). apply runs_bind.
    eapply runs_mono; [by apply (handle_wf env T y h pid cur t frame cpu a7 a0 a1 a2)|].
    intros r y1 [W1 Hr]. destruct r as [|f'|r]; [rewrite (Hr eq_refl)|by apply runs_ret..].
    apply runs_bind. pose proof Hc as (Hh & HT & _). eapply runs_mono; [apply (exit_wf T y h cpu); try done|].
    + by eapply user_not_idle.
    + intros r y2 W2. by apply runs_ret.
  - destruct H as (Hne & Htr & k' & Hd). apply runs_bind. eapply runs_mono; [by eapply kill_current_wf|].
    intros r y1 ([r' ->] & W1 & _). by apply runs_ret.
Qed.


Definition env1 : Env := mkEnv img1 0x80400000 0x10000000 0x80500000 500 1000 true 0.

