(* ===== verification/Elf.v ===== *)
(** * The ELF loader: kernel/src/elf.rs

    [parse] on the bytes of a file, and [load], which maps the segments and the initial
    stack of a process into its page tables: pages from the allocator, file bytes copied
    into them, everything undone on failure.  The images embedded in the kernel are
    build products and not part of the model. *)

From Stdlib Require Import ZifyN ZifyNat.
From stdpp Require Import base gmap numbers functions list.
From S2P Require Import Prelude Mem Mmu Objects.

(** ** Constants and data *)
Definition USER_STACK_TOP : N := USER_VA_LIMIT - 0x10000.
Definition USER_STACK_PAGES : N := 8.
Definition MAX_ARGS : N := 16.

Inductive ElfError :=
| Truncated | BadMagic | Not64 | NotExec | NotRiscv | BadSegment | Overlap
| AddressTooHigh | NoMemory | MapFailed | BadProcess.

Record Segment := mkSegment {
  g_vaddr : N; g_offset : N; g_filesz : N; g_memsz : N; g_flags : N }.
Record ElfInfo := mkElfInfo { ei_entry : N; ei_segments : list Segment }.
Record LoadedElf := mkLoaded { le_entry : N; le_stack_top : N; le_argc : N; le_argv : N }.

(** ** [parse] *)

(** [from_le_bytes]. *)
Definition from_le_bytes (bs : list N) : N := foldr (λ b acc, b + 256 * acc) 0 bs.
(** The [n] bytes from [off], each indexed (and so tested against the length). *)
Definition read_le {S} (bs : list N) (off n : N) : M S N :=
  if off + n <=? vlen bs then mret (from_le_bytes (take (N.to_nat n) (drop (N.to_nat off) bs)))
  else panic.

Definition align_down (v a : N) : N := N.ldiff v (a - 1).
Definition align_up {S} (v a : N) : M S N := x ← add_ v a; mret (N.ldiff (x - 1) (a - 1)).

(** The body of the loop over the program headers, from the type word on. *)
Definition parse_phdr {S} (bs : list N) (off : N) : M S (result (option Segment) ElfError) :=
  p_type ← read_le bs off 4;
  if negb (p_type =? 1) then mret (Ok None)
  else
    flags ← read_le bs (off + 4) 4;
    p_offset ← read_le bs (off + 8) 8;
    p_vaddr ← read_le bs (off + 16) 8;
    p_filesz ← read_le bs (off + 32) 8;
    p_memsz ← read_le bs (off + 40) 8;
    mret (
      if USER_VA_LIMIT <=? p_vaddr then Err AddressTooHigh
      else if none_or_gt (checked_add p_vaddr p_memsz) USER_VA_LIMIT then Err AddressTooHigh
      else if p_memsz <? p_filesz then Err BadSegment
      else if none_or_gt (checked_add p_offset p_filesz) (vlen bs) then Err Truncated
      else if negb (N.land p_vaddr 0xfff =? N.land p_offset 0xfff) then Err BadSegment
      else Ok (Some (mkSegment p_vaddr p_offset p_filesz p_memsz flags))).

Fixpoint parse_phdrs {S} (bs : list N) (phoff : N) (ixs : list N) (segs : list Segment)
    : M S (result (list Segment) ElfError) :=
  match ixs with
  | [] => mret (Ok segs)
  | i :: ixs =>
      d ← mul_ i 56;
      off ← add_ phoff d;
      o ←? parse_phdr bs off;
      parse_phdrs bs phoff ixs (match o with Some g => segs ++ [g] | None => segs end)
  end.

(** [sort_by_key], which is stable. *)
Fixpoint insert_seg (x : Segment) (l : list Segment) : list Segment :=
  match l with
  | [] => [x]
  | y :: l' => if g_vaddr x <=? g_vaddr y then x :: l else y :: insert_seg x l'
  end.
Definition sort_segs : list Segment → list Segment := foldr insert_seg [].

(** The loop over [windows(2)]. *)
Fixpoint check_windows {S} (segs : list Segment) : M S (result () ElfError) :=
  match segs with
  | a :: ((b :: _) as rest) =>
      e ← add_ (g_vaddr a) (g_memsz a);
      a_end ← align_up e PAGE_SIZE;
      if align_down (g_vaddr b) PAGE_SIZE <? a_end then mret (Err Overlap)
      else check_windows rest
  | _ => mret (Ok tt)
  end.

Definition ELF_MAGIC : list N := [0x7f; 0x45; 0x4c; 0x46].

Definition parse {S} (bs : list N) : M S (result ElfInfo ElfError) :=
  if vlen bs <? 64 then mret (Err Truncated)
  else if negb (bool_decide (take 4 bs = ELF_MAGIC)) then mret (Err BadMagic)
  else
    class ← read_le bs 4 1;
    if negb (class =? 2) then mret (Err Not64) else
    etype ← read_le bs 16 2;
    if negb (etype =? 2) then mret (Err NotExec) else
    machine ← read_le bs 18 2;
    if negb (machine =? 243) then mret (Err NotRiscv) else
    entry ← read_le bs 24 8;
    phoff ← read_le bs 32 8;
    phnum ← read_le bs 56 2;
    _ ←? mret (if 0 <? phnum then
                match checked_mul phnum 56 with
                | None => Err Truncated
                | Some ph_bytes =>
                    match checked_add phoff ph_bytes with
                    | None => Err Truncated
                    | Some e => if vlen bs <? e then Err Truncated else Ok tt
                    end
                end
              else if vlen bs <? phoff then Err Truncated else Ok tt);
    segments ←? parse_phdrs bs phoff (nrange 0 (N.to_nat phnum)) [];
    check_windows (sort_segs segments);;?
    mret (Ok (mkElfInfo entry (sort_segs segments))).

(** ** Bytes of memory *)

(** The byte at [a], of the word that holds it. *)
Definition word_of (a : N) : N := a - a mod 8.
Definition read_byte (a : N) (r : gmap N N) : N :=
  N.land (N.shiftr (read_word (word_of a) r) (8 * (a mod 8))) 0xFF.
Definition write_byte (a b : N) (r : gmap N N) : gmap N N :=
  let k := 8 * (a mod 8) in
  write_word (word_of a)
    (N.lor (N.ldiff (read_word (word_of a) r) (N.shiftl 0xFF k)) (N.shiftl b k)) r.
Definition put_byte (a b : N) : M PMem () := modify (λ s, set_ram (write_byte a b (ram s)) s).
(** [write_volatile] of a [usize], at an aligned address. *)
Definition put_usize (a v : N) : M PMem () := modify (λ s, set_ram (write_word a v (ram s)) s).
(** The bytes of [bs] from [a] on. *)
Fixpoint put_bytes (a : N) (bs : list N) : M PMem () :=
  match bs with
  | [] => mret tt
  | b :: bs => put_byte a b;; put_bytes (a + 1) bs
  end.

(** ** [map_segment] *)

Definition segment_flags (flags : N) : N :=
  if negb (N.land flags 1 =? 0) then 0xCB
  else if negb (N.land flags 2 =? 0) then 0xC7
  else 0xC3.

(** [mapped: &mut Vec<(usize, usize)>] with the memory. *)
Record LoadState := mkLoad { ls_mem : PMem; ls_mapped : list (N * N) }.
Definition set_ls_mem (m : PMem) (l : LoadState) : LoadState := mkLoad m (ls_mapped l).
Definition inmem {A} (m : M PMem A) : M LoadState A := lift ls_mem set_ls_mem m.
Definition push_mapped (va pa : N) : M LoadState () :=
  modify (λ l, mkLoad (ls_mem l) (ls_mapped l ++ [(va, pa)])).

(** Copy the part of the file that belongs to the page at [va] into [pa]. *)
Definition copy_page (seg : Segment) (bs : list N) (va pa : N) : M PMem () :=
  let base := wrapping_add (g_offset seg) (wrapping_sub va (g_vaddr seg)) in
  let copy_lo := N.max base (g_offset seg) in
  base_end ← add_ base PAGE_SIZE;
  file_end ← add_ (g_offset seg) (g_filesz seg);
  let copy_hi := N.min base_end file_end in
  if copy_lo <? copy_hi then
    assert_ (copy_hi <=? vlen bs);;
    put_bytes (pa + (copy_lo - base))
      (take (N.to_nat (copy_hi - copy_lo)) (drop (N.to_nat copy_lo) bs))
  else mret tt.

(** One turn of the loop. *)
Definition map_page (root : N) (seg : Segment) (bs : list N) (va : N) : M LoadState (result () ElfError) :=
  l ← get;
  if is_mapped root va (ls_mem l) then mret (Err Overlap)
  else
    pa ←? ok_or (inmem (alloc_pages_zeroed 0)) NoMemory;
    inmem (copy_page seg bs va pa);;
    r ← inmem (map_user_page root va pa (segment_flags (g_flags seg)));
    match r with
    | Err _ => inmem (free_pages pa);; mret (Err MapFailed)
    | Ok _ => push_mapped va pa;; mret (Ok tt)
    end.

(** [while va < end], a page at a time. *)
Fixpoint map_pages (root : N) (seg : Segment) (bs : list N) (vas : list N) : M LoadState (result () ElfError) :=
  match vas with
  | [] => mret (Ok tt)
  | va :: vas => map_page root seg bs va;;? map_pages root seg bs vas
  end.

(** The addresses from [start] below [end], a page apart. *)
Definition page_steps (start end_ : N) : list N :=
  map (λ i, start + i * PAGE_SIZE) (nrange 0 (N.to_nat (div_ceil (end_ - start) PAGE_SIZE))).

Definition map_segment (root : N) (seg : Segment) (bs : list N) : M LoadState (result () ElfError) :=
  let start := align_down (g_vaddr seg) PAGE_SIZE in
  match checked_add (g_vaddr seg) (g_memsz seg) with
  | None => mret (Err AddressTooHigh)
  | Some e =>
      end_ ← align_up e PAGE_SIZE;
      map_pages root seg bs (page_steps start end_)
  end.

Fixpoint map_segments (root : N) (bs : list N) (segs : list Segment) : M LoadState (result () ElfError) :=
  match segs with
  | [] => mret (Ok tt)
  | seg :: segs => map_segment root seg bs;;? map_segments root bs segs
  end.

(** ** [build_user_stack] *)

Definition stack_bottom : N := USER_STACK_TOP - USER_STACK_PAGES * PAGE_SIZE.

(** The pages of the stack; the result is [stack_pas]. *)
Fixpoint map_stack (root : N) (vas : list N) : M LoadState (result (list N) ElfError) :=
  match vas with
  | [] => mret (Ok [])
  | va :: vas =>
      l ← get;
      if is_mapped root va (ls_mem l) then mret (Err Overlap)
      else
        pa ←? ok_or (inmem (alloc_pages_zeroed 0)) NoMemory;
        r ← inmem (map_user_page root va pa 0xC7);
        match r with
        | Err _ => mret (Err MapFailed)
        | Ok _ =>
            push_mapped va pa;;
            pas ←? map_stack root vas;
            mret (Ok (pa :: pas))
        end
  end.

(** [pa_at]. *)
Definition pa_at {S} (pas : list N) (uva : N) : M S (result N ElfError) :=
  d ← sub_ uva stack_bottom;
  let idx := d / PAGE_SIZE in
  if USER_STACK_PAGES <=? idx then mret (Err BadSegment)
  else pa ← expect (vget pas idx); mret (Ok (pa + N.land uva (PAGE_SIZE - 1))).

Fixpoint write_str (pas : list N) (uva : N) (str : list N) : M LoadState (result () ElfError) :=
  match str with
  | [] => mret (Ok tt)
  | b :: str => a ←? pa_at pas uva; inmem (put_byte a b);; write_str pas (uva + 1) str
  end.

(** The strings, each with its terminating zero; the result is where each starts. *)
Fixpoint write_args (pas : list N) (sptr : N) (args : list (list N)) : M LoadState (result (list N) ElfError) :=
  match args with
  | [] => mret (Ok [])
  | a :: args =>
      write_str pas sptr (a ++ [0]);;?
      starts ←? write_args pas (sptr + vlen a + 1) args;
      mret (Ok (sptr :: starts))
  end.

Fixpoint write_cells (pas : list N) (uva : N) (vs : list N) : M LoadState (result () ElfError) :=
  match vs with
  | [] => mret (Ok tt)
  | v :: vs => a ←? pa_at pas uva; inmem (put_usize a v);; write_cells pas (uva + 8) vs
  end.

Definition str_total (args : list (list N)) : N := foldr (λ a n, vlen a + 1 + n) 0 args.

Definition build_user_stack (root : N) (args : list (list N)) : M LoadState (result (N * N) ElfError) :=
  let n := vlen args in
  if MAX_ARGS <? n then mret (Err BadSegment)
  else
    let total := str_total args in
    if USER_STACK_PAGES * PAGE_SIZE - (n + 2) * 8 - 16 <? total then mret (Err BadSegment)
    else
      pas ←? map_stack root (map (λ i, stack_bottom + i * PAGE_SIZE) (nrange 0 (N.to_nat USER_STACK_PAGES)));
      let str_area := N.ldiff (USER_STACK_TOP - total) 0xF in
      starts ←? write_args pas str_area args;
      x ← sub_ str_area ((n + 1) * 8);
      let argv_array := N.ldiff x 0xF in
      if argv_array <? stack_bottom + 16 then mret (Err BadSegment)
      else
        write_cells pas argv_array (starts ++ [0]);;?
        let sp_final := N.ldiff (argv_array - 8) 0xF in
        write_cells pas sp_final [n];;?
        mret (Ok (sp_final, argv_array)).

(** ** [load] *)

Definition rollback (root : N) : M LoadState () :=
  l ← get;
  for_each (λ p : N * N, inmem (unmap_4k root p.1);; inmem (free_pages p.2);; mret tt) (ls_mapped l).

Definition load_image (root : N) (bs : list N) (args : list (list N)) (info : ElfInfo) : M LoadState (result LoadedElf ElfError) :=
  r ← map_segments root bs (ei_segments info);
  match r with
  | Err e => rollback root;; mret (Err e)
  | Ok _ =>
      r ← build_user_stack root args;
      match r with
      | Err e => rollback root;; mret (Err e)
      | Ok (stack_top, argv) => mret (Ok (mkLoaded (ei_entry info) stack_top (vlen args) argv))
      end
  end.

Definition load (pid : N) (bs : list N) (args : list (list N)) : M Kernel (result LoadedElf ElfError) :=
  info ←? parse bs;
  k ← get;
  match pid_root pid k with
  | None => mret (Err BadProcess)
  | Some root =>
      onmem (λ s, match load_image root bs args info (mkLoad s []) with
                  | Ret (r, l) => Ret (r, ls_mem l)
                  | Panic => Panic
                  | Timeout => Timeout
                  end)
  end.
