(* ===== verification/ElfParse.v ===== *)
(** * Parsing executables

    [parse] of kernel/src/elf.rs runs on bytes nobody has checked.  The reference here is
    a description of the acceptable files, [acceptable]; [parse] decides it. *)

From Stdlib Require Import ZifyN ZifyNat.
From stdpp Require Import base gmap numbers functions list sorting.
From S2P Require Import Prelude Mem Mmu Pte Objects SchedInv Elf.

(** ** Reference *)

(** The little-endian number of [n] bytes at [off]. *)
Definition field (bs : list N) (off n : N) : N :=
  from_le_bytes (take (N.to_nat n) (drop (N.to_nat off) bs)).

(** The segment a program header describes. *)
Definition segment_at (bs : list N) (off : N) : Segment :=
  mkSegment (field bs (off + 16) 8) (field bs (off + 8) 8) (field bs (off + 32) 8)
    (field bs (off + 40) 8) (field bs (off + 4) 4).

(** The segments to load, in file order. *)
Definition loads (bs : list N) (phoff : N) (ixs : list N) : list Segment :=
  omap (λ i, if field bs (phoff + i * 56) 4 =? 1 then Some (segment_at bs (phoff + i * 56)) else None) ixs.

(** A segment that fits: in the user half of the address space, backed by the file, and
    with the same place in the page in file and memory. *)
Definition seg_ok (bs : list N) (g : Segment) : Prop :=
  g_vaddr g < USER_VA_LIMIT ∧ g_vaddr g + g_memsz g ≤ USER_VA_LIMIT ∧ g_filesz g ≤ g_memsz g ∧
  g_offset g + g_filesz g ≤ vlen bs ∧ g_vaddr g mod 4096 = g_offset g mod 4096.

(** The pages of a segment. *)
Definition seg_start (g : Segment) : N := g_vaddr g / 4096 * 4096.
Definition seg_end (g : Segment) : N := (g_vaddr g + g_memsz g + 4095) / 4096 * 4096.

(** In the order of their addresses, each ends before any later one starts. *)
Definition apart (gs : list Segment) : Prop :=
  ∀ i j a b, (i < j)%nat → gs !! i = Some a → gs !! j = Some b →
    g_vaddr a ≤ g_vaddr b ∧ seg_end a ≤ seg_start b.

Record header_ok (bs : list N) : Prop := mkHeaderOk {
  h_len : 64 ≤ vlen bs;
  h_magic : take 4 bs = ELF_MAGIC;
  h_class : field bs 4 1 = 2;
  h_type : field bs 16 2 = 2;
  h_machine : field bs 18 2 = 243;
  h_table : field bs 32 8 + field bs 56 2 * 56 ≤ vlen bs
}.

Definition file_segments (bs : list N) : list Segment :=
  loads bs (field bs 32 8) (nrange 0 (N.to_nat (field bs 56 2))).

(** The files [parse] is to accept, and what it is to return. *)
Definition acceptable (bs : list N) (info : ElfInfo) : Prop :=
  header_ok bs ∧ ei_entry info = field bs 24 8 ∧ Forall (seg_ok bs) (ei_segments info) ∧
  ei_segments info = sort_segs (file_segments bs) ∧ ei_segments info ≡ₚ file_segments bs ∧ apart (ei_segments info).

(** ** The reads *)

Section parse.
Context {S : Type}.
Implicit Types s : S.

Lemma read_le_in bs off n s : off + n ≤ vlen bs → @read_le S bs off n s = Ret (field bs off n, s).
Proof. intros Hle. unfold read_le. by rewrite (proj2 (N.leb_le _ _) Hle). Qed.

Lemma from_le_bound bs : Forall (λ b, b < 256) bs → from_le_bytes bs < 256 ^ vlen bs.
Proof.
  induction 1 as [|b bs Hb _ IH]; [done|]. unfold vlen in *. cbn [from_le_bytes foldr length].
  rewrite Nat2N.inj_succ, N.pow_succ_r'. unfold from_le_bytes in IH. lia.
Qed.

Lemma field_bound bs off n : Forall (λ b, b < 256) bs → field bs off n < 256 ^ n.
Proof.
  intros Hb. unfold field. eapply N.lt_le_trans; [apply from_le_bound; by apply Forall_take, Forall_drop|].
  apply N.pow_le_mono_r; [done|]. unfold vlen. rewrite length_take. lia.
Qed.

Lemma land_page x : N.land x 0xfff = x mod 4096.
Proof. change 0xfff with (N.ones 12). apply N.land_ones. Qed.

Lemma USER_VA_LIMIT_val : USER_VA_LIMIT = 274877906944.
Proof. by vm_compute. Qed.

(** One program header. *)
Lemma parse_phdr_run bs off s :
  vlen bs ≤ USIZE_MAX → off + 56 ≤ vlen bs →
  ∃ r, @parse_phdr S bs off s = Ret (r, s) ∧
    match r with
    | Ok None => field bs off 4 ≠ 1
    | Ok (Some g) => field bs off 4 = 1 ∧ g = segment_at bs off ∧ seg_ok bs g
    | Err _ => field bs off 4 = 1 ∧ ¬ seg_ok bs (segment_at bs off)
    end.
Proof.
  intros Hm Ho. unfold parse_phdr. rewrite (bind_ret _ _ _ _ _ (read_le_in bs off 4 s ltac:(lia))).
  destruct (field bs off 4 =? 1) eqn:Et; cbn [negb]; bool_to_prop; [|by exists (Ok None)].
  rewrite (bind_ret _ _ _ _ _ (read_le_in bs (off + 4) 4 s ltac:(lia))).
  rewrite (bind_ret _ _ _ _ _ (read_le_in bs (off + 8) 8 s ltac:(lia))).
  rewrite (bind_ret _ _ _ _ _ (read_le_in bs (off + 16) 8 s ltac:(lia))).
  rewrite (bind_ret _ _ _ _ _ (read_le_in bs (off + 32) 8 s ltac:(lia))).
  rewrite (bind_ret _ _ _ _ _ (read_le_in bs (off + 40) 8 s ltac:(lia))).
  eexists. split; [done|]. unfold seg_ok, segment_at. cbn [g_vaddr g_offset g_filesz g_memsz g_flags].
  rewrite !land_page. set (v := field bs (off + 16) 8). set (o := field bs (off + 8) 8).
  set (fs := field bs (off + 32) 8). set (ms := field bs (off + 40) 8).
  destruct (USER_VA_LIMIT <=? v) eqn:E1; bool_to_prop; [split; [done|]; lia|].
  destruct (none_or_gt (checked_add v ms) _) eqn:E2.
  { split; [done|]. intros (_ & H2 & _). assert (none_or_gt (checked_add v ms) USER_VA_LIMIT = false); [|congruence].
    apply none_or_gt_false. eexists. split; [apply checked_add_Some; split; [done|]|done].
    rewrite USER_VA_LIMIT_val in *. unfold USIZE_MAX. lia. }
  apply none_or_gt_false in E2 as (e & [-> _]%checked_add_Some & He).
  destruct (ms <? fs) eqn:E3; bool_to_prop; [split; [done|]; lia|].
  destruct (none_or_gt (checked_add o fs) _) eqn:E4.
  { split; [done|]. intros (_ & _ & _ & H4 & _). assert (none_or_gt (checked_add o fs) (vlen bs) = false); [|congruence].
    apply none_or_gt_false. eexists. split; [apply checked_add_Some; split; [done|lia]|done]. }
  apply none_or_gt_false in E4 as (e' & [-> _]%checked_add_Some & He').
  destruct (v mod 4096 =? o mod 4096) eqn:E5; cbn [negb]; bool_to_prop; [by split_and!|].
  split; [done|]. tauto.
Qed.

Lemma loads_cons bs phoff i ixs : loads bs phoff (i :: ixs) =
  if field bs (phoff + i * 56) 4 =? 1 then segment_at bs (phoff + i * 56) :: loads bs phoff ixs else loads bs phoff ixs.
Proof. unfold loads. cbn. by destruct (field bs (phoff + i * 56) 4 =? 1). Qed.

Lemma parse_phdrs_run bs phoff ixs segs s :
  vlen bs ≤ USIZE_MAX → (∀ i, i ∈ ixs → phoff + i * 56 + 56 ≤ vlen bs) →
  ∃ r, @parse_phdrs S bs phoff ixs segs s = Ret (r, s) ∧
    match r with
    | Ok l => l = segs ++ loads bs phoff ixs ∧ Forall (seg_ok bs) (loads bs phoff ixs)
    | Err _ => ¬ Forall (seg_ok bs) (loads bs phoff ixs)
    end.
Proof.
  intros Hm. revert segs. induction ixs as [|i ixs IH]; intros segs Hi; cbn [parse_phdrs].
  { eexists. split; [done|]. split; [by rewrite app_nil_r|constructor]. }
  assert (Hin : phoff + i * 56 + 56 ≤ vlen bs) by (apply Hi; left).
  assert (E1 : @mul_ S i 56 s = Ret (i * 56, s)).
  { unfold mul_, checked_mul, usize_ok. rewrite (proj2 (N.leb_le _ _)) by lia. done. }
  assert (E2 : @add_ S phoff (i * 56) s = Ret (phoff + i * 56, s)).
  { unfold add_. rewrite (proj2 (checked_add_Some phoff (i * 56) (phoff + i * 56))); [done|]. split; [done|lia]. }
  rewrite (bind_ret _ _ _ _ _ E1), (bind_ret _ _ _ _ _ E2).
  destruct (parse_phdr_run bs (phoff + i * 56) s Hm Hin) as (r & E & Hr).
  rewrite loads_cons.
  destruct r as [[g|]|e].
  - destruct Hr as (Et & -> & Hg). rewrite (try_ok _ _ _ _ _ E), (proj2 (N.eqb_eq _ _) Et).
    destruct (IH (segs ++ [segment_at bs (phoff + i * 56)])) as (r & E' & Hr); [intros j Hj; apply Hi; by right|].
    exists r. split; [done|]. destruct r as [l|e].
    + destruct Hr as [-> HF]. split; [by rewrite <-app_assoc|by constructor].
    + by intros [_ ?]%Forall_cons.
  - rewrite (try_ok _ _ _ _ _ E), (proj2 (N.eqb_neq _ _) Hr). apply IH. intros j Hj. apply Hi. by right.
  - rewrite (try_err _ _ _ _ _ E). destruct Hr as [Et Hg]. rewrite (proj2 (N.eqb_eq _ _) Et). eexists. split; [done|].
    by intros [? _]%Forall_cons.
Qed.

(** ** Sorting and the windows *)

Lemma insert_seg_perm x l : insert_seg x l ≡ₚ x :: l.
Proof. induction l as [|y l IH]; [done|]. cbn. case_match; [done|]. by rewrite IH, Permutation_swap. Qed.

Lemma sort_segs_perm l : sort_segs l ≡ₚ l.
Proof. induction l as [|x l IH]; [done|]. cbn. by rewrite insert_seg_perm, IH. Qed.

Definition seg_le (a b : Segment) : Prop := g_vaddr a ≤ g_vaddr b.

Lemma insert_seg_sorted x l : Sorted seg_le l → Sorted seg_le (insert_seg x l).
Proof.
  induction 1 as [|y l Hl IH Hd]; [by repeat constructor|]. cbn. destruct (g_vaddr x <=? g_vaddr y) eqn:E; bool_to_prop.
  - by repeat constructor.
  - constructor; [done|]. destruct l as [|z l]; cbn.
    + constructor. unfold seg_le. lia.
    + case_match; constructor; unfold seg_le; [lia|by inversion Hd].
Qed.

Lemma sort_segs_sorted l : Sorted seg_le (sort_segs l).
Proof. induction l; [constructor|]. cbn. by apply insert_seg_sorted. Qed.

Lemma align_down_page v : align_down v PAGE_SIZE = v / 4096 * 4096.
Proof.
  unfold align_down, PAGE_SIZE. change (4096 - 1) with (N.ones 12). rewrite N.ldiff_ones_r, N.shiftr_div_pow2, N.shiftl_mul_pow2.
  done.
Qed.

Lemma align_up_page v s : v + 4096 ≤ USIZE_MAX → @align_up S v PAGE_SIZE s = Ret ((v + 4095) / 4096 * 4096, s).
Proof.
  intros Hv. unfold align_up, add_, PAGE_SIZE. rewrite (proj2 (checked_add_Some v 4096 (v + 4096))) by done.
  cbn [expect]. rewrite bind_mret_l. change (N.ldiff (v + 4096 - 1) (4096 - 1)) with (align_down (v + 4096 - 1) PAGE_SIZE).
  rewrite align_down_page. by replace (v + 4096 - 1) with (v + 4095) by lia.
Qed.

Lemma seg_start_le_end g : seg_start g ≤ seg_end g.
Proof. unfold seg_start, seg_end. apply N.mul_le_mono_r. apply N.Div0.div_le_mono. lia. Qed.

Lemma check_windows_run bs segs s :
  Forall (seg_ok bs) segs → Sorted seg_le segs →
  ∃ r, @check_windows S segs s = Ret (r, s) ∧ (match r with Ok _ => True | Err _ => False end ↔ apart segs).
Proof.
  intros Hok Hs. induction segs as [|a segs IH]; [exists (Ok tt); split; [done|]; by split|].
  destruct segs as [|b segs].
  { exists (Ok tt). split; [done|]. split; [|done]. intros _ [|i] [|j] x y Hij Hx Hy; try lia; [by destruct j|done]. }
  apply Forall_cons in Hok as [Ha Hok]. pose proof Ha as (Hva & Hma & _). rewrite USER_VA_LIMIT_val in *.
  apply Sorted_inv in Hs as [Hs Hd]. apply HdRel_inv in Hd. destruct (IH Hok Hs) as (r & E & Hr).
  cbn [check_windows].
  assert (E1 : @add_ S (g_vaddr a) (g_memsz a) s = Ret (g_vaddr a + g_memsz a, s)).
  { unfold add_. rewrite (proj2 (checked_add_Some (g_vaddr a) (g_memsz a) (g_vaddr a + g_memsz a))); [done|]. split; [done|unfold USIZE_MAX; lia]. }
  rewrite (bind_ret _ _ _ _ _ E1), (bind_ret _ _ _ _ _ (align_up_page (g_vaddr a + g_memsz a) s ltac:(unfold USIZE_MAX; lia))).
  rewrite align_down_page. fold (seg_end a) (seg_start b).
  destruct (seg_start b <? seg_end a) eqn:El; bool_to_prop.
  { exists (Err Overlap). split; [done|]. split; [done|]. intros Hap. destruct (Hap 0%nat 1%nat a b) as [_ ?]; try done; lia. }
  exists r. split; [exact E|]. rewrite Hr. split.
  - intros Hap i j x y Hij Hx Hy. destruct i as [|i].
    + injection Hx as <-. destruct j as [|[|j]]; [lia|by injection Hy as <-|].
      destruct (Hap 0%nat (Datatypes.S j) b y ltac:(lia) eq_refl Hy) as [H1 H2]. pose proof (seg_start_le_end b).
      unfold seg_le in Hd. split; lia.
    + destruct j as [|j]; [lia|]. apply (Hap i j); [lia|done|done].
  - intros Hap i j x y Hij Hx Hy. apply (Hap (Datatypes.S i) (Datatypes.S j)); [lia|done|done].
Qed.
End parse.

(** ** The whole of [parse] *)

Lemma Forall_sort bs l : Forall (seg_ok bs) l ↔ Forall (seg_ok bs) (sort_segs l).
Proof. by rewrite sort_segs_perm. Qed.

(** [parse] returns on every input; it accepts exactly the acceptable files. *)
Lemma parse_run {S} bs (s : S) :
  Forall (λ b, b < 256) bs → vlen bs ≤ 0x7FFFFFFFFFFFFFFF →
  ∃ r, parse bs s = Ret (r, s) ∧
    match r with Ok info => acceptable bs info | Err _ => ∀ info, ¬ acceptable bs info end.
Proof.
  intros Hb Hm. unfold parse.
  destruct (vlen bs <? 64) eqn:E0; bool_to_prop.
  { eexists. split; [done|]. intros info ([H64 _ _ _ _ _] & _). lia. }
  case_bool_decide as Em; cbn [negb]; [|eexists; split; [done|]; by intros info ([_ ? _ _ _ _] & _)].
  rewrite (bind_ret _ _ _ _ _ (read_le_in bs 4 1 s ltac:(lia))).
  destruct (field bs 4 1 =? 2) eqn:E1; cbn [negb]; bool_to_prop; [|eexists; split; [done|]; by intros info ([_ _ ? _ _ _] & _)].
  rewrite (bind_ret _ _ _ _ _ (read_le_in bs 16 2 s ltac:(lia))).
  destruct (field bs 16 2 =? 2) eqn:E2; cbn [negb]; bool_to_prop; [|eexists; split; [done|]; by intros info ([_ _ _ ? _ _] & _)].
  rewrite (bind_ret _ _ _ _ _ (read_le_in bs 18 2 s ltac:(lia))).
  destruct (field bs 18 2 =? 243) eqn:E3; cbn [negb]; bool_to_prop; [|eexists; split; [done|]; by intros info ([_ _ _ _ ? _] & _)].
  rewrite (bind_ret _ _ _ _ _ (read_le_in bs 24 8 s ltac:(lia))).
  rewrite (bind_ret _ _ _ _ _ (read_le_in bs 32 8 s ltac:(lia))).
  rewrite (bind_ret _ _ _ _ _ (read_le_in bs 56 2 s ltac:(lia))).
  pose proof (field_bound bs 56 2 Hb) as Hn. change (256 ^ 2) with 65536 in Hn.
  pose proof (field_bound bs 32 8 Hb) as Hp. change (256 ^ 8) with 0x10000000000000000 in Hp.
  set (phoff := field bs 32 8) in *. set (phnum := field bs 56 2) in *.
  match goal with |- context [try_ (mret ?c)] => set (chk := c) end.
  assert (Hchk : (chk = Ok tt ∧ phoff + phnum * 56 ≤ vlen bs) ∨ (chk = Err Truncated ∧ ¬ phoff + phnum * 56 ≤ vlen bs)).
  { unfold chk, checked_mul, usize_ok. destruct (0 <? phnum) eqn:Ez; bool_to_prop.
    - rewrite (proj2 (N.leb_le _ _)) by (unfold USIZE_MAX; lia). destruct (checked_add phoff (phnum * 56)) as [e|] eqn:Ea.
      + apply checked_add_Some in Ea as [-> _]. destruct (vlen bs <? _) eqn:El; bool_to_prop; [right|left]; split; done || lia.
      + apply checked_add_None in Ea. right. split; [done|]. unfold USIZE_MAX in Ea. lia.
    - destruct (vlen bs <? phoff) eqn:El; bool_to_prop; [right|left]; split; done || lia. }
  clearbody chk. destruct Hchk as [[-> Ht]|[-> Ht]].
  2:{ eexists. split; [done|]. by intros info ([_ _ _ _ _ ?] & _). }
  rewrite (try_ok (mret (Ok tt)) _ s tt s) by done.
  destruct (parse_phdrs_run bs phoff (nrange 0 (N.to_nat phnum)) [] s) as (r & E & Hr).
  { unfold USIZE_MAX. lia. }
  { intros i Hi%elem_of_nrange. lia. }
  destruct r as [l|e].
  2:{ rewrite (try_err _ _ _ _ _ E). eexists. split; [done|]. intros info (_ & _ & HF & Es & _). apply Hr.
      apply Forall_sort. change (Forall (seg_ok bs) (sort_segs (file_segments bs))). by rewrite <-Es. }
  rewrite (try_ok _ _ _ _ _ E). destruct Hr as [-> HF]. change (nrange 0 _) with (nrange 0 (N.to_nat phnum)) in HF.
  change ([] ++ ?x) with x. change (loads bs phoff (nrange 0 (N.to_nat phnum))) with (file_segments bs) in *.
  destruct (check_windows_run bs (sort_segs (file_segments bs)) s) as (r & E' & Hr).
  { by apply Forall_sort in HF. }
  { apply sort_segs_sorted. }
  destruct r as [[]|e].
  - rewrite (try_ok _ _ _ _ _ E'). eexists. split; [done|]. split_and!; cbn [ei_entry ei_segments].
    + by constructor.
    + done.
    + by apply Forall_sort in HF.
    + done.
    + apply sort_segs_perm.
    + by apply Hr.
  - rewrite (try_err _ _ _ _ _ E'). eexists. split; [done|]. intros info (_ & _ & _ & Es & _ & Hap). rewrite Es in Hap. by apply Hr in Hap.
Qed.

(** C11: [parse] is total and exact on arbitrary bytes.  Whatever the file holds it
    returns, without a panic from an index, an addition or a rounding, and allocates
    nothing; it answers [Ok] exactly for an ELF64 RISC-V executable whose program header
    table lies in the file and all of whose loadable segments lie in the file and in the
    user half of the address space, agree in their page offsets and do not share a page;
    the result is then the entry point and those segments, all of them, in the order of
    their addresses. *)
Theorem parse_correct (bs : list N) (s : PMem) :
  Forall (λ b, b < 256) bs → vlen bs ≤ 0x7FFFFFFFFFFFFFFF →
  ∃ r, parse bs s = Ret (r, s) ∧ ∀ info, r = Ok info ↔ acceptable bs info.
Proof.
  intros Hb Hm. destruct (parse_run bs s Hb Hm) as (r & E & Hr). exists r. split; [done|]. intros info. split.
  - by intros ->.
  - intros Ha. destruct r as [info'|e]; [|by destruct (Hr info)]. f_equal.
    destruct Ha as (_ & Ee & _ & Es & _), Hr as (_ & Ee' & _ & Es' & _). destruct info, info'. cbn in *. congruence.
Qed.

(** A small executable: one segment of 6 bytes of code at 0x10078, 16 bytes in memory. *)
Definition le8 (x : N) : list N := map (λ i, N.land (N.shiftr x (8 * i)) 255) (nrange 0 8).
Definition tiny_elf : list N :=
  ELF_MAGIC ++ [2; 1; 1; 0; 0; 0; 0; 0; 0; 0; 0; 0] ++ [2; 0; 243; 0; 1; 0; 0; 0] ++ le8 0x10078 ++ le8 64 ++ le8 0 ++
  [0; 0; 0; 0; 64; 0; 56; 0; 1; 0; 0; 0; 0; 0; 0; 0] ++
  [1; 0; 0; 0; 5; 0; 0; 0] ++ le8 0x78 ++ le8 0x10078 ++ le8 0 ++ le8 6 ++ le8 16 ++ le8 4096 ++
  [0x93; 0x08; 0x10; 0x00; 0x73; 0x00].

Lemma parse_correct_witness :
  ∃ r, parse tiny_elf (mkPMem allocator0 ∅) = Ret (r, mkPMem allocator0 ∅) ∧
    r = Ok (mkElfInfo 0x10078 [mkSegment 0x10078 0x78 6 16 5]).
Proof.
  destruct (parse_correct tiny_elf (mkPMem allocator0 ∅)) as (r & E & Hr).
  - apply (bool_decide_eq_true (Forall (λ b, b < 256) tiny_elf)). by vm_compute.
  - by vm_compute.
  - exists r. split; [exact E|]. assert (E' : parse tiny_elf (mkPMem allocator0 ∅) =
      Ret (Ok (mkElfInfo 0x10078 [mkSegment 0x10078 0x78 6 16 5]), mkPMem allocator0 ∅)) by (vm_compute; reflexivity).
    rewrite E in E'. by injection E' as ->.
Defined.
