(* ===== verification/ElfMem.v ===== *)
(** * Bytes and new mappings

    The byte view of the memory of 64-bit words, and the state of an address space while
    new pages are being added to it: what the loader of kernel/src/elf.rs builds and what
    it takes back on failure. *)

From Stdlib Require Import ZifyN ZifyNat.
From stdpp Require Import base gmap numbers functions list.
From S2P Require Import Prelude Mem MemInv PageAlloc Mmu Pte MmuTree MmuSpec Objects Elf.

(** ** Bytes *)

Lemma testbit_FF i : N.testbit 0xFF i = (i <? 8).
Proof.
  change 0xFF with (N.ones 8). destruct (i <? 8) eqn:E; bool_to_prop; [by apply N.ones_spec_low|by apply N.ones_spec_high].
Qed.

Lemma testbit_byte b i : b < 256 → 8 ≤ i → N.testbit b i = false.
Proof.
  intros Hb Hi. destruct (decide (b = 0)) as [->|Hz]; [apply N.bits_0|]. apply N.bits_above_log2.
  apply N.log2_lt_pow2; [lia|]. eapply N.lt_le_trans; [exact Hb|]. change 256 with (2 ^ 8). by apply N.pow_le_mono_r.
Qed.

(** Byte [j] of a word in which byte [k] has been replaced. *)
Lemma byte_of_splice w b j k : b < 256 →
  N.land (N.shiftr (N.lor (N.ldiff w (N.shiftl 0xFF (8 * k))) (N.shiftl b (8 * k))) (8 * j)) 0xFF =
  if decide (j = k) then b else N.land (N.shiftr w (8 * j)) 0xFF.
Proof.
  intros Hb. apply N.bits_inj. intros i. rewrite N.land_spec, testbit_FF, N.shiftr_spec', N.lor_spec, N.ldiff_spec.
  destruct (i <? 8) eqn:Ei; bool_to_prop; rewrite ?andb_true_r, ?andb_false_r.
  - case_decide as Ej.
    + subst k. rewrite (N.shiftl_spec_high' 0xFF), (N.shiftl_spec_high' b) by lia. rewrite testbit_FF.
      replace (i + 8 * j - 8 * j) with i by lia. rewrite (proj2 (N.ltb_lt i 8)) by done. cbn [negb]. by rewrite andb_false_r.
    + rewrite N.land_spec, testbit_FF, (proj2 (N.ltb_lt i 8)), andb_true_r, N.shiftr_spec' by done.
      destruct (N.lt_trichotomy j k) as [Hl|[|Hl]]; [|lia|].
      * rewrite (N.shiftl_spec_low 0xFF), (N.shiftl_spec_low b) by lia. cbn [negb]. by rewrite andb_true_r, orb_false_r.
      * rewrite (N.shiftl_spec_high' 0xFF), (N.shiftl_spec_high' b) by lia. rewrite testbit_FF, (testbit_byte b) by lia.
        rewrite (proj2 (N.ltb_ge _ 8)) by lia. cbn [negb]. by rewrite andb_true_r, orb_false_r.
  - case_decide; [by rewrite testbit_byte|]. by rewrite N.land_spec, testbit_FF, (proj2 (N.ltb_ge i 8)), andb_false_r.
Qed.

Lemma word_of_split a b : word_of a = word_of b → a mod 8 = b mod 8 → a = b.
Proof. unfold word_of. intros. pose proof (N.Div0.mod_le a 8). pose proof (N.Div0.mod_le b 8). lia. Qed.

Lemma read_write_byte a b r x : b < 256 →
  read_byte x (write_byte a b r) = if decide (x = a) then b else read_byte x r.
Proof.
  intros Hb. unfold read_byte, write_byte. destruct (decide (word_of x = word_of a)) as [E|E].
  - rewrite E, read_write_eq, byte_of_splice by done. repeat case_decide; try done.
    + exfalso. eauto using word_of_split.
    + by subst.
  - rewrite read_write_ne by done. case_decide; [by subst|done].
Qed.

(** A page's bytes are in its words. *)
Lemma word_of_page a off : a mod 4096 = 0 → word_of (a + off) = a + off / 8 * 8 ∧ (a + off) mod 8 = off mod 8.
Proof. unfold word_of. intros. dlia. Qed.

Lemma keeps_byte s s' a off : a mod 4096 = 0 → off < 4096 → keeps s s' a →
  read_byte (a + off) (ram s') = read_byte (a + off) (ram s).
Proof.
  intros Ha Ho K. unfold read_byte. destruct (word_of_page a off Ha) as [-> _]. rewrite K; [done|]. dlia.
Qed.

(** A word of the page, and the bytes beside it. *)
Lemma read_byte_write_word a v r x : a mod 8 = 0 → ¬ (a ≤ x < a + 8) → read_byte x (write_word a v r) = read_byte x r.
Proof.
  intros Ha Hx. unfold read_byte. rewrite read_write_ne; [done|]. unfold word_of. dlia.
Qed.

Lemma NoDup_fmap_eq {A B} (f : A → B) l x y : NoDup (f <$> l) → x ∈ l → y ∈ l → f x = f y → x = y.
Proof.
  induction l as [|z l IH]; intros Hd Hx Hy E; [by apply elem_of_nil in Hx|].
  apply NoDup_cons in Hd as [Hz Hd]. apply elem_of_cons in Hx as [->|Hx], Hy as [->|Hy]; auto.
  - destruct Hz. rewrite E. by apply list_elem_of_fmap_2.
  - destruct Hz. rewrite <-E. by apply list_elem_of_fmap_2.
Qed.

(** ** Writing into a live page *)

Section pages.
Context `{PageAllocator G}.

(** Only page [a] may have changed. *)
Record pokes (g : G) (s s' : PMem) (a : N) : Prop := mkPokes {
  pk_inv : pinv s' g;
  pk_area : same_area s s';
  pk_keeps x : live g x → x ≠ a → keeps s s' x
}.

Lemma pokes_refl g s a : pinv s g → pokes g s s a.
Proof. intros I. by split; auto with pages. Qed.

Lemma pokes_trans g s1 s2 s3 a : pokes g s1 s2 a → pokes g s2 s3 a → pokes g s1 s3 a.
Proof.
  intros [I1 A1 K1] [I2 A2 K2]. split; [done|by eapply same_area_trans|]. intros x Hx Hne. eapply keeps_trans; eauto.
Qed.

Lemma pokes_word g s a off v : pinv s g → live g a → off < 4096 → off mod 8 = 0 →
  pokes g s (set_ram (write_word (a + off) v (ram s)) s) a.
Proof.
  intros I Hl Ho Hm. assert (E : a + off = a + off / 8 * 8) by (clear - Hm; dlia).
  assert (Hw : off / 8 < 512) by (clear - Ho; dlia). rewrite E. split; [by apply write_law|done|].
  intros x Hx Hne. apply keeps_write; [by apply (live_page s g)|by apply (live_page s g)|done|done].
Qed.

Lemma pokes_byte g s a off b : pinv s g → live g a → off < 4096 →
  pokes g s (set_ram (write_byte (a + off) b (ram s)) s) a.
Proof.
  intros I Hl Ho. destruct (live_page s g a I Hl) as [Ha _]. destruct (word_of_page a off Ha) as [E _].
  unfold write_byte. rewrite E. apply pokes_word; [done|done|clear - Ho; dlia|clear; dlia].
Qed.

Lemma put_bytes_run g a bs o s : pinv s g → live g a → o + vlen bs ≤ 4096 → Forall (λ b, b < 256) bs →
  ∃ s', put_bytes (a + o) bs s = Ret (tt, s') ∧ pokes g s s' a ∧
    ∀ off, read_byte (a + off) (ram s') =
      if decide (o ≤ off < o + vlen bs) then default 0 (bs !! N.to_nat (off - o)) else read_byte (a + off) (ram s).
Proof.
  revert o s. induction bs as [|b bs IH]; intros o s I Hl Ho Hb; cbn [put_bytes].
  { exists s. split; [done|]. split; [by apply pokes_refl|]. intros off. unfold vlen. cbn. rewrite decide_False; [done|lia]. }
  apply Forall_cons in Hb as [Hb Hbs]. unfold vlen in Ho. cbn [length] in Ho. unfold put_byte. rewrite bind_modify.
  pose proof (pokes_byte g s a o b I Hl ltac:(lia)) as P. replace (a + o + 1) with (a + (o + 1)) by lia.
  destruct (IH (o + 1) (set_ram (write_byte (a + o) b (ram s)) s)) as (s' & E & P' & Hr); [apply P|done|unfold vlen; lia|done|].
  exists s'. split; [done|]. split; [by eapply pokes_trans|]. intros off. rewrite Hr. cbn [ram set_ram]. unfold vlen. cbn [length].
  rewrite read_write_byte by done. repeat case_decide; try lia; try done.
  - replace (N.to_nat (off - o)) with (S (N.to_nat (off - (o + 1)))) by lia. done.
  - replace (N.to_nat (off - o)) with 0%nat by lia. done.
Qed.

(** ** An address space with new pages *)

(** A page that has been added: its address, the physical page, the flags of its entry
    and, unless it is still being written, its bytes. *)
Record Pg := mkPg { q_va : N; q_pa : N; q_f : N; q_data : option (N → N) }.

(** The space [root] in state [s] is the one of [s0] with the pages [ms] added: fresh
    pages at addresses that were unmapped, each mapped once; every other walk, and every
    page that was live and is not a table of the space, is as it was. *)
Record session (g0 : G) (s0 : PMem) (root : N) (ms : list Pg) (g : G) (s : PMem) : Prop := mkSession {
  se_step : pt_step g0 g s0 s root;
  se_live m : m ∈ ms → live g (q_pa m);
  se_fresh m : m ∈ ms → ¬ live g0 (q_pa m);
  se_table m q : m ∈ ms → path_ok q → tbl s root q ≠ Some (q_pa m);
  se_va m : m ∈ ms → q_va m mod 4096 = 0 ∧ q_va m < USER_VA_LIMIT;
  se_old m : m ∈ ms → walk root (q_va m) s0 = None;
  se_once : NoDup (q_va <$> ms);
  se_pas : NoDup (q_pa <$> ms);
  se_map m : m ∈ ms → walk root (q_va m) s = Some (0, pte (q_pa m) (N.lor (q_f m) PTE_U));
  se_rest vb : (∀ m, m ∈ ms → ¬ same_slot vb (q_va m)) → walk root vb s = walk root vb s0;
  se_data m d off : m ∈ ms → q_data m = Some d → off < 4096 → read_byte (q_pa m + off) (ram s) = d off
}.

Lemma session_start g s root : pt_wf g s root → session g s root [] g s.
Proof.
  intros W. split; try (by intros ? ?%not_elem_of_nil); try (by intros ? ? ?%not_elem_of_nil); try (by intros ? ? ? ?%not_elem_of_nil).
  - by apply pt_step_refl.
  - constructor.
  - constructor.
  - done.
Qed.

Lemma session_wf g0 s0 root ms g s : session g0 s0 root ms g s → pt_wf g s root.
Proof. intros Se. apply (se_step _ _ _ _ _ _ Se). Qed.
Lemma session_pinv g0 s0 root ms g s : session g0 s0 root ms g s → pinv s g.
Proof. intros Se. apply (session_wf _ _ _ _ _ _ Se). Qed.

(** Writing into an added page that is not finished. *)
Lemma session_poke g0 s0 root ms g s s' m :
  session g0 s0 root ms g s → m ∈ ms → q_data m = None → pokes g s s' (q_pa m) → session g0 s0 root ms g s'.
Proof.
  intros Se Hm Hd [I' A K]. pose proof (session_wf _ _ _ _ _ _ Se) as W. pose proof (se_step _ _ _ _ _ _ Se) as [_ L A0 N0 K0].
  assert (KT : ∀ p a, path_ok p → tbl s root p = Some a → keeps s s' a).
  { intros p a Hp Ht. apply K; [by apply (pt_live _ _ _ W p)|]. intros ->. by apply (se_table _ _ _ _ _ _ Se m p). }
  pose proof (tbl_ext g s s' root W KT) as T. destruct Se as [_ S1 S2 S3 S4 S5 S6 S7 S8 S9 S10].
  split; try done.
  - split; [by eapply pt_wf_ext|done|by eapply same_area_trans|..].
    + intros p a Hp. rewrite T by done. by apply N0.
    + intros x Hx Hq. eapply keeps_trans; [by apply K0|]. apply K; [by apply L|]. intros ->. by apply (S2 m).
  - intros m' q Hm' Hq. rewrite T by done. by apply S3.
  - intros m' Hm'. rewrite (walk_ext g s s') by done. by apply S8.
  - intros vb Hvb. rewrite (walk_ext g s s') by done. by apply S9.
  - intros m' d off Hm' Hd' Ho. destruct (decide (q_pa m' = q_pa m)) as [E|E].
    + pose proof (NoDup_fmap_eq q_pa ms m' m S7 Hm' Hm E). congruence.
    + rewrite <-(S10 m' d off) by done. apply keeps_byte; [|done|by apply K; [apply S1|]].
      apply (live_page s g); [apply W|by apply S1].
Qed.

(** A fresh page, written before it is mapped. *)
Record filled (g g' : G) (s s' : PMem) (a : N) (d : option (N → N)) : Prop := mkFilled {
  fl_inv : pinv s' g';
  fl_new : ¬ live g a;
  fl_live x : live g' x ↔ live g x ∨ x = a;
  fl_area : same_area s s';
  fl_keeps x : live g x → keeps s s' x;
  fl_data f off : d = Some f → off < 4096 → read_byte (a + off) (ram s') = f off
}.

Lemma fresh_filled g g' s s1 s' a d : fresh_page s s1 g g' a → pokes g' s1 s' a →
  (∀ f off, d = Some f → off < 4096 → read_byte (a + off) (ram s') = f off) → filled g g' s s' a d.
Proof.
  intros [I1 Hn Hl A1 _ K1] [I' A K] Hd. split; [done|done|done|by eapply same_area_trans| |done].
  intros x Hx. eapply keeps_trans; [by apply K1|]. apply K; [apply Hl; by left|]. by intros ->.
Qed.

(** What an operation on the tables does to the pages already added. *)
Lemma session_step g0 s0 root ms g s g' s' :
  session g0 s0 root ms g s → pt_step g g' s s' root →
  pt_step g0 g' s0 s' root ∧ (∀ m, m ∈ ms → live g' (q_pa m)) ∧
  (∀ m q, m ∈ ms → path_ok q → tbl s' root q ≠ Some (q_pa m)) ∧
  (∀ m d off, m ∈ ms → q_data m = Some d → off < 4096 → read_byte (q_pa m + off) (ram s') = d off).
Proof.
  intros Se P. pose proof (session_wf _ _ _ _ _ _ Se) as W. destruct Se as [P0 S1 S2 S3 S4 S5 S6 S7 S8 S9 S10].
  split_and!; [by eapply pt_step_trans|intros m Hm; by apply (ps_live _ _ _ _ _ P), S1|..].
  - intros m q Hm Hq Ht. destruct (ps_new _ _ _ _ _ P q _ Hq Ht) as [(q' & Hq' & Ht')|Hn].
    + by apply (S3 m q').
    + by apply Hn, S1.
  - intros m d off Hm Hd Ho. rewrite <-(S10 m d off) by done. apply keeps_byte; [|done|].
    + apply (live_page s g); [apply W|by apply S1].
    + apply (ps_keeps _ _ _ _ _ P); [by apply S1|]. intros q Hq. by apply S3.
Qed.

(** A failed or completed step beside the added pages. *)
Lemma session_grow g0 s0 root ms g s g' s' :
  session g0 s0 root ms g s → pt_step g g' s s' root → (∀ va, walk root va s' = walk root va s) →
  session g0 s0 root ms g' s'.
Proof.
  intros Se P Hw. destruct (session_step _ _ _ _ _ _ _ _ Se P) as (P' & H1 & H2 & H3).
  destruct Se as [P0 S1 S2 S3 S4 S5 S6 S7 S8 S9 S10]. split; try done.
  - intros m Hm. by rewrite Hw, S8.
  - intros vb Hvb. by rewrite Hw, S9.
Qed.

(** Giving back a page that is neither added nor a table. *)
Lemma session_free g0 s0 root ms g s a :
  session g0 s0 root ms g s → live g a → ¬ live g0 a → a ∉ (q_pa <$> ms) → (∀ q, path_ok q → tbl s root q ≠ Some a) →
  ∃ g' s', free_pages a s = Ret (Ok tt, s') ∧ session g0 s0 root ms g' s'.
Proof.
  intros Se Hl Hn0 Hna Hnt. pose proof (session_wf _ _ _ _ _ _ Se) as W.
  destruct (free_law s g a (session_pinv _ _ _ _ _ _ Se) Hl) as (s' & g' & E & I' & Hl' & A & K).
  assert (KT : ∀ p x, path_ok p → tbl s root p = Some x → keeps s s' x).
  { intros p x Hp Ht. apply K, Hl'. split; [by apply (pt_live _ _ _ W p)|]. intros ->. by apply (Hnt p). }
  pose proof (tbl_ext g s s' root W KT) as T. destruct Se as [P0 S1 S2 S3 S4 S5 S6 S7 S8 S9 S10].
  assert (Hms : ∀ m, m ∈ ms → live g' (q_pa m)).
  { intros m Hm. apply Hl'. split; [by apply S1|]. intros <-. apply Hna. by apply list_elem_of_fmap_2. }
  exists g', s'. split; [done|]. split; try done.
  - destruct P0 as [W0 L0 A0 N0 K0]. assert (Hlive : ∀ x, live g0 x → live g' x).
    { intros x Hx. apply Hl'. split; [by apply L0|]. by intros ->. }
    split; [|done|by eapply same_area_trans|..].
    + split; [done|..].
      * intros p x Hp. rewrite T by done. intros Ht. apply Hl'. split; [by apply (pt_live _ _ _ W p)|]. intros ->. by apply (Hnt p).
      * intros p q x Hp Hq. rewrite !T by done. by apply (pt_inj _ _ _ W).
      * destruct A as [-> ->]. apply W.
    + intros p x Hp. rewrite T by done. by apply N0.
    + intros x Hx Hq. eapply keeps_trans; [by apply K0|]. by apply K, Hlive.
  - intros m q Hm Hq. rewrite T by done. by apply S3.
  - intros m Hm. rewrite (walk_ext g s s') by done. by apply S8.
  - intros vb Hvb. rewrite (walk_ext g s s') by done. by apply S9.
  - intros m d off Hm Hd Ho. rewrite <-(S10 m d off) by done. apply keeps_byte; [|done|by apply K, Hms].
    apply (live_page s g); [apply W|by apply S1].
Qed.

Lemma not_new_table g g' s s' root a :
  pt_step g g' s s' root → live g a → (∀ q, path_ok q → tbl s root q ≠ Some a) → ∀ q, path_ok q → tbl s' root q ≠ Some a.
Proof.
  intros P Hl Hn q Hq Ht. destruct (ps_new _ _ _ _ _ P q a Hq Ht) as [(q' & Hq' & Ht')|Hx]; [by apply (Hn q')|by apply Hx].
Qed.

(** Mapping the fresh page [a] at [va]. *)
Lemma session_map g0 s0 root ms g s g1 s1 va a f d :
  session g0 s0 root ms g s → filled g g1 s s1 a d → va mod 4096 = 0 → va < USER_VA_LIMIT → walk root va s = None →
  f < 1024 → pte_valid f = true →
  (∃ g2 s2, map_user_page root va a f s1 = Ret (Err tt, s2) ∧ session g0 s0 root ms g2 s2 ∧
     live g2 a ∧ ¬ live g0 a ∧ (a ∉ (q_pa <$> ms)) ∧ ∀ q, path_ok q → tbl s2 root q ≠ Some a) ∨
  (∃ g2 s2, map_user_page root va a f s1 = Ret (Ok tt, s2) ∧ session g0 s0 root (ms ++ [mkPg va a f d]) g2 s2).
Proof.
  intros Se [I1 Hn Hl A K Hd] Hva Hlim Hw Hf Hv. pose proof (session_wf _ _ _ _ _ _ Se) as W.
  destruct (new_page_grow g g1 s s1 root a W I1 Hn Hl A K) as [[P1 _ W1] Hnt].
  pose proof (ps_wf _ _ _ _ _ P1) as Wf1. assert (Hla : live g1 a) by (apply Hl; by right).
  assert (Hn0 : ¬ live g0 a) by (intros Hx; by apply Hn, (ps_live _ _ _ _ _ (se_step _ _ _ _ _ _ Se))).
  assert (Hna : a ∉ (q_pa <$> ms)).
  { intros (m & -> & Hm)%list_elem_of_fmap. by apply Hn, (se_live _ _ _ _ _ _ Se). }
  destruct (map_user_page_spec g1 s1 root va a f Wf1) as [(s2 & g2 & E & [P2 _ W2])|(s2 & g2 & E & _ & _ & _ & _ & P2 & W2)].
  - left. exists g2, s2. split_and!; [done| |by apply (ps_live _ _ _ _ _ P2)|done|done|by eapply not_new_table].
    eapply (session_grow _ _ _ _ g s); [done|by eapply pt_step_trans|]. intros vb. by rewrite W2, W1.
  - right. exists g2, s2. split; [done|].
    destruct (session_step _ _ _ _ _ _ _ _ Se (pt_step_trans _ _ _ _ _ _ _ P1 P2)) as (P' & H1 & H2 & H3).
    destruct (live_phys g1 s1 a I1 Hla (pt_phys _ _ _ Wf1)) as [Ha Hp].
    assert (Hlf : N.lor f PTE_U < 1024) by (apply (lor_small f PTE_U 10); done).
    assert (Hent : walk_of 0 (pte a (N.lor f PTE_U)) = Some (0, pte a (N.lor f PTE_U))).
    { unfold walk_of. by rewrite pte_valid_pte, pte_valid_lor, Hv. }
    assert (Hnew : ∀ m, m ∈ ms → ¬ same_slot (q_va m) va).
    { intros m Hm Hs. pose proof (se_map _ _ _ _ _ _ Se m Hm) as E'. by rewrite (walk_same_slot root _ _ s Hs), Hw in E'. }
    assert (Hsym : ∀ m, m ∈ ms → ¬ same_slot va (q_va m)).
    { intros m Hm (E1 & E2 & E3). by apply (Hnew m Hm). }
    destruct Se as [P0 S1 S2 S3 S4 S5 S6 S7 S8 S9 S10].
    assert (Hcase : ∀ m (Q : Pg → Prop), m ∈ ms ++ [mkPg va a f d] → (∀ m, m ∈ ms → Q m) → Q (mkPg va a f d) → Q m).
    { intros m Q [Hm|Hm%list_elem_of_singleton]%elem_of_app Q1 Q2; [by apply Q1|by rewrite Hm]. }
    split; [done|..].
    + intros m Hm. apply (Hcase m (λ m, live g2 (q_pa m)) Hm); [done|]. by apply (ps_live _ _ _ _ _ P2).
    + intros m Hm. by apply (Hcase m (λ m, ¬ live g0 (q_pa m)) Hm).
    + intros m q Hm Hq. apply (Hcase m (λ m, tbl s2 root q ≠ Some (q_pa m)) Hm); [by intros; apply H2|].
      exact (not_new_table _ _ _ _ _ _ P2 Hla Hnt q Hq).
    + intros m Hm. by apply (Hcase m (λ m, q_va m mod 4096 = 0 ∧ q_va m < USER_VA_LIMIT) Hm).
    + intros m Hm. apply (Hcase m (λ m, walk root (q_va m) s0 = None) Hm); [done|]. cbn [q_va]. by rewrite <-S9, Hw.
    + rewrite fmap_app. apply NoDup_app. split; [done|]. split; [|apply NoDup_singleton].
      intros x (m & -> & Hm)%list_elem_of_fmap Hx%list_elem_of_singleton. cbn in Hx. apply (Hnew m Hm). by rewrite Hx.
    + rewrite fmap_app. apply NoDup_app. split; [done|]. split; [|apply NoDup_singleton].
      intros x Hx Hx'%list_elem_of_singleton. cbn in Hx'. by subst x.
    + intros m Hm. apply (Hcase m (λ m, walk root (q_va m) s2 = Some (0, pte (q_pa m) (N.lor (q_f m) PTE_U))) Hm).
      * intros m' Hm'. rewrite W2, decide_False, W1 by (by apply Hnew). by apply S8.
      * cbn [q_va q_pa q_f]. by rewrite W2, decide_True.
    + intros vb Hvb. assert (Hs : ¬ same_slot vb va) by (apply (Hvb (mkPg va a f d)), elem_of_app; right; by left).
      rewrite W2, decide_False, W1 by done. apply S9. intros m Hm. apply Hvb, elem_of_app. by left.
    + intros m dd off Hm. apply (Hcase m (λ m, q_data m = Some dd → off < 4096 → read_byte (q_pa m + off) (ram s2) = dd off) Hm).
      * intros m' Hm'. by apply H3.
      * cbn [q_data q_pa]. intros Ed Ho. rewrite <-(Hd dd off Ed Ho). apply keeps_byte; [done|done|].
        by apply (ps_keeps _ _ _ _ _ P2).
Qed.

(** ** Taking pages back *)

Lemma walk_level0 s root va e : walk root va s = Some (0, e) → tbl s root (PL0 (ix2 va) (ix1 va)) ≠ None.
Proof.
  rewrite walk_tbl. cbn [tbl]. unfold walk_of. destruct (entry_table (pte_at s root (ix2 va))) as [t1|]; cbn.
  - destruct (entry_table (pte_at s t1 (ix1 va))) as [t0|] eqn:E; [done|]. by case_match.
  - by case_match.
Qed.

Lemma same_slot_aligned va vb : va mod 4096 = 0 → vb mod 4096 = 0 → va < USER_VA_LIMIT → vb < USER_VA_LIMIT →
  same_slot va vb → va = vb.
Proof.
  intros Ha Hb Hla Hlb Hs. assert (E : USER_VA_LIMIT = 274877906944) by (by vm_compute). rewrite E in *.
  change (2 ^ 39) with 549755813888 in *.
  apply same_slot_page in Hs; [|change (2 ^ 39) with 549755813888; lia..].
  rewrite (N.Div0.div_mod va 4096), (N.Div0.div_mod vb 4096), Hs, Ha, Hb. done.
Qed.

Lemma session_unmap g0 s0 root m ms g s : session g0 s0 root (m :: ms) g s →
  ∃ s', unmap_4k root (q_va m) s = Ret (Ok tt, s') ∧ session g0 s0 root ms g s' ∧
    (∀ q, path_ok q → tbl s' root q ≠ Some (q_pa m)).
Proof.
  intros Se. pose proof (session_wf _ _ _ _ _ _ Se) as W.
  assert (Hm : m ∈ m :: ms) by left. assert (Hsub : ∀ x, x ∈ ms → x ∈ m :: ms) by (intros; by right).
  pose proof (se_map _ _ _ _ _ _ Se m Hm) as Hwm.
  destruct (unmap_4k_spec g s root (q_va m) W) as [(_ & _ & Ht)|(s' & E & P & Wk)].
  { by destruct (walk_level0 _ _ _ _ Hwm). }
  exists s'. split; [done|]. destruct (session_step _ _ _ _ _ _ _ _ Se P) as (P' & H1 & H2 & H3).
  split; [|intros q Hq; by apply (H2 m)]. destruct Se as [P0 S1 S2 S3 S4 S5 S6 S7 S8 S9 S10].
  cbn [fmap list_fmap] in S6, S7. apply NoDup_cons in S6 as [N6 S6]. apply NoDup_cons in S7 as [N7 S7].
  assert (Hne : ∀ m', m' ∈ ms → ¬ same_slot (q_va m') (q_va m)).
  { intros m' Hm' Hs. destruct (S4 m Hm), (S4 m' (Hsub m' Hm')). apply N6. rewrite <-(same_slot_aligned (q_va m') (q_va m)) by done.
    by apply list_elem_of_fmap_2. }
  split; try (by eauto).
  - intros m' Hm'. rewrite Wk, decide_False by (by apply Hne). by apply S8, Hsub.
  - intros vb Hvb. rewrite Wk. case_decide as Hs.
    + rewrite (walk_same_slot root _ _ s0 Hs). symmetry. by apply S5.
    + apply S9. intros m' [->|Hm']%elem_of_cons; [done|by apply Hvb].
Qed.

Lemma session_rollback g0 s0 root ms g s mp : session g0 s0 root ms g s →
  ∃ g' s', for_each (λ p : N * N, inmem (unmap_4k root p.1);; inmem (free_pages p.2);; mret tt)
      ((λ m, (q_va m, q_pa m)) <$> ms) (mkLoad s mp) = Ret (tt, mkLoad s' mp) ∧ session g0 s0 root [] g' s'.
Proof.
  revert g s. induction ms as [|m ms IH]; intros g s Se; [by exists g, s|]. cbn [fmap list_fmap for_each fst snd].
  destruct (session_unmap _ _ _ _ _ _ _ Se) as (s1 & E1 & Se1 & Hnt). assert (Hm : m ∈ m :: ms) by left.
  pose proof (se_live _ _ _ _ _ _ Se m Hm) as Hlm. pose proof (se_fresh _ _ _ _ _ _ Se m Hm) as Hfm.
  pose proof (se_pas _ _ _ _ _ _ Se) as Hd. apply NoDup_cons in Hd as [Hd _].
  destruct (session_free _ _ _ _ _ _ (q_pa m) Se1 Hlm Hfm Hd Hnt) as (g2 & s2 & E2 & Se2).
  destruct (IH g2 s2 Se2) as (g' & s' & E & Se'). exists g', s'. split; [|done].
  assert (F1 : inmem (unmap_4k root (q_va m)) (mkLoad s mp) = Ret (Ok tt, mkLoad s1 mp)) by (unfold inmem, lift; cbn; by rewrite E1).
  assert (F2 : inmem (free_pages (q_pa m)) (mkLoad s1 mp) = Ret (Ok tt, mkLoad s2 mp)) by (unfold inmem, lift; cbn; by rewrite E2).
  erewrite bind_ret; [exact E|]. by rewrite (bind_ret _ _ _ _ _ F1), (bind_ret _ _ _ _ _ F2).
Qed.
End pages.
