(* ===== verification/ElfProps.v ===== *)
(** * Properties of the ELF loader

    The image [load] of kernel/src/elf.rs builds in the address space of a process:
    segments, initial stack, and the state after a failure. *)

From Stdlib Require Import ZifyN ZifyNat.
From stdpp Require Import base gmap numbers functions list.
From S2P Require Import Prelude Mem MemInv PageAlloc Mmu Pte MmuTree MmuSpec MmuProps Objects SyscallProps Elf ElfParse ElfMem.

(** ** One page of a segment *)

(** The bytes the page at [va] is to hold: the file's where the segment is backed by
    the file, zero elsewhere. *)
Definition seg_byte (bs : list N) (seg : Segment) (v : N) : N :=
  if decide (g_vaddr seg ≤ v < g_vaddr seg + g_filesz seg)
  then default 0 (bs !! N.to_nat (g_offset seg + (v - g_vaddr seg))) else 0.

Lemma page_base seg va bs :
  seg_ok bs seg → vlen bs ≤ 0x7FFFFFFFFFFFFFFF → va mod 4096 = 0 → seg_start seg ≤ va < USER_VA_LIMIT →
  wrapping_add (g_offset seg) (wrapping_sub va (g_vaddr seg)) + g_vaddr seg = g_offset seg + va ∧
  wrapping_add (g_offset seg) (wrapping_sub va (g_vaddr seg)) + PAGE_SIZE ≤ USIZE_MAX.
Proof.
  intros (Hv & Hm & Hfm & Hfo & Hmod) Hlen Ha [Hs Hl]. rewrite USER_VA_LIMIT_val in *. unfold seg_start, PAGE_SIZE, USIZE_MAX in *.
  destruct (N.le_gt_cases (g_vaddr seg) va) as [Hle|Hgt].
  - rewrite wrapping_sub_le by (unfold USIZE_MAX; lia). rewrite wrapping_add_le by (unfold USIZE_MAX; lia). lia.
  - assert (Hd : g_vaddr seg - va = g_offset seg mod 4096).
    { rewrite <-Hmod. pose proof (N.Div0.div_mod (g_vaddr seg) 4096). pose proof (N.mod_lt (g_vaddr seg) 4096).
      pose proof (N.Div0.div_mod va 4096). clear - Hs Hgt Ha H H0 H1. dlia. }
    pose proof (N.Div0.mod_le (g_offset seg) 4096). set (d := g_vaddr seg - va) in *.
    assert (E : wrapping_add (g_offset seg) (wrapping_sub va (g_vaddr seg)) = g_offset seg - d).
    { unfold wrapping_add, wrapping_sub, USIZE_MOD. rewrite (N.mod_small (g_vaddr seg)) by lia.
      rewrite (N.mod_small (va + _)) by lia.
      replace (g_offset seg + (va + (0x10000000000000000 - g_vaddr seg))) with (g_offset seg - d + 1 * 0x10000000000000000) by lia.
      rewrite N.Div0.mod_add. apply N.mod_small. lia. }
    rewrite E. split; lia.
Qed.

Section load.
Context `{PageAllocator G}.

Lemma copy_page_run g s seg bs va pa :
  pinv s g → live g pa → (∀ w, w < 512 → read_word (pa + w * 8) (ram s) = 0) →
  Forall (λ b, b < 256) bs → vlen bs ≤ 0x7FFFFFFFFFFFFFFF → seg_ok bs seg → va mod 4096 = 0 → seg_start seg ≤ va < USER_VA_LIMIT →
  ∃ s', copy_page seg bs va pa s = Ret (tt, s') ∧ pokes g s s' pa ∧
    ∀ off, off < 4096 → read_byte (pa + off) (ram s') = seg_byte bs seg (va + off).
Proof.
  intros I Hl Hz Hb Hlen Hok Ha Hva. destruct (page_base seg va bs Hok Hlen Ha Hva) as [Hbase Hmax].
  destruct Hok as (Hv & Hm & Hfm & Hfo & _). unfold copy_page. cbv zeta.
  set (base := wrapping_add _ _) in *. clearbody base. unfold PAGE_SIZE in *.
  assert (Hzero : ∀ off, off < 4096 → read_byte (pa + off) (ram s) = 0).
  { intros off Ho. destruct (live_page s g pa I Hl) as [Hpa _]. unfold read_byte.
    destruct (word_of_page pa off Hpa) as [-> _]. rewrite Hz by (clear - Ho; dlia). by rewrite N.shiftr_0_l. }
  assert (E1 : @add_ PMem base 4096 s = Ret (base + 4096, s)).
  { unfold add_. by rewrite (proj2 (checked_add_Some base 4096 (base + 4096))). }
  assert (E2 : @add_ PMem (g_offset seg) (g_filesz seg) s = Ret (g_offset seg + g_filesz seg, s)).
  { unfold add_. rewrite (proj2 (checked_add_Some (g_offset seg) (g_filesz seg) (g_offset seg + g_filesz seg))); [done|].
    split; [done|]. unfold USIZE_MAX. lia. }
  rewrite (bind_ret _ _ _ _ _ E1), (bind_ret _ _ _ _ _ E2).
  set (lo := N.max base (g_offset seg)). set (hi := N.min (base + 4096) (g_offset seg + g_filesz seg)).
  destruct (lo <? hi) eqn:Elh; bool_to_prop.
  - rewrite bind_assert by (apply N.leb_le; lia).
    set (sl := take _ _). assert (Hsl : vlen sl = hi - lo).
    { unfold sl, vlen. rewrite length_take, length_drop. unfold vlen in *. lia. }
    destruct (put_bytes_run g pa sl (lo - base) s I Hl) as (s' & E & P & Hr); [lia|by apply Forall_take, Forall_drop|].
    exists s'. split; [done|]. split; [done|]. intros off Ho. rewrite Hr, Hsl. unfold seg_byte.
    repeat case_decide; try lia; [|by apply Hzero]. unfold sl. rewrite lookup_take_lt, lookup_drop by lia.
    do 2 f_equal. lia.
  - exists s. split; [done|]. split; [by apply pokes_refl|]. intros off Ho. rewrite Hzero by done. unfold seg_byte.
    rewrite decide_False; [done|]. lia.
Qed.

(** The loader's state: the pages added so far are those it has noted. *)
Definition loading (g0 : G) (s0 : PMem) (root : N) (ms : list Pg) (g : G) (l : LoadState) : Prop :=
  session g0 s0 root ms g (ls_mem l) ∧ ls_mapped l = (λ m, (q_va m, q_pa m)) <$> ms.

Definition seg_page (bs : list N) (seg : Segment) (pa va : N) : Pg :=
  mkPg va pa (segment_flags (g_flags seg)) (Some (λ off, seg_byte bs seg (va + off))).

Lemma inmem_run {A} (m : M PMem A) s a s' mp : m s = Ret (a, s') → inmem m (mkLoad s mp) = Ret (a, mkLoad s' mp).
Proof. unfold inmem, lift. cbn. by intros ->. Qed.

Lemma segment_flags_ok f : segment_flags f < 1024 ∧ pte_valid (segment_flags f) = true.
Proof. unfold segment_flags. by repeat case_match. Qed.

Lemma map_page_run g0 s0 root ms g l seg bs va :
  loading g0 s0 root ms g l → Forall (λ b, b < 256) bs → vlen bs ≤ 0x7FFFFFFFFFFFFFFF → seg_ok bs seg →
  va mod 4096 = 0 → seg_start seg ≤ va < USER_VA_LIMIT →
  ∃ r l', map_page root seg bs va l = Ret (r, l') ∧
    match r with
    | Ok _ => ∃ g' pa, loading g0 s0 root (ms ++ [seg_page bs seg pa va]) g' l'
    | Err _ => ∃ g', loading g0 s0 root ms g' l'
    end.
Proof.
  intros [Se Em] Hb Hlen Hok Ha Hva. destruct l as [s mp]. cbn [ls_mem ls_mapped] in *. unfold map_page.
  rewrite bind_get. cbn [ls_mem]. destruct (is_mapped root va s) eqn:Emp; [eexists _, _; split; [done|]; by exists g|].
  assert (Hw : walk root va s = None).
  { destruct (walk root va s) eqn:Ew; [|done]. assert (is_mapped root va s = true) by (apply is_mapped_walk; by eexists). congruence. }
  destruct (alloc_zeroed_law s g (session_pinv _ _ _ _ _ _ Se)) as [E|(pa & s1 & g1 & E & F)].
  { rewrite (try_err _ _ _ NoMemory (mkLoad s mp)) by (by apply ok_or_none, inmem_run). eexists _, _. split; [done|]. by exists g. }
  rewrite (try_ok _ _ _ pa (mkLoad s1 mp)) by (by apply ok_or_some, inmem_run).
  assert (Hlp : live g1 pa) by (apply (fpg_live _ _ _ _ _ F); by right).
  destruct (copy_page_run g1 s1 seg bs va pa (fpg_inv _ _ _ _ _ F) Hlp (fpg_zero _ _ _ _ _ F) Hb Hlen Hok Ha Hva) as (s2 & E2 & P & Hd).
  rewrite (bind_ret _ _ _ _ _ (inmem_run _ _ _ _ mp E2)).
  destruct (segment_flags_ok (g_flags seg)) as [Hf Hv].
  assert (Fl : filled g g1 s s2 pa (Some (λ off, seg_byte bs seg (va + off)))).
  { eapply fresh_filled; [done..|]. intros f off [= <-]. apply Hd. }
  destruct (session_map _ _ _ _ _ _ g1 s2 va pa _ _ Se Fl Ha (proj2 Hva) Hw Hf Hv)
    as [(g2 & s3 & E3 & Se3 & H1 & H2 & H3 & H4)|(g2 & s3 & E3 & Se3)].
  - rewrite (bind_ret _ _ _ _ _ (inmem_run _ _ _ _ mp E3)).
    destruct (session_free _ _ _ _ _ _ pa Se3 H1 H2 H3 H4) as (g4 & s4 & E4 & Se4).
    rewrite (bind_ret _ _ _ _ _ (inmem_run _ _ _ _ mp E4)). eexists _, _. split; [done|]. by exists g4.
  - rewrite (bind_ret _ _ _ _ _ (inmem_run _ _ _ _ mp E3)). unfold push_mapped. rewrite bind_modify.
    eexists _, _. split; [done|]. exists g2, pa. split; [done|]. cbn [ls_mapped]. by rewrite Em, fmap_app.
Qed.

(** ** Segments *)

(** The pages [ms] are those of the segments [segs], all of them and no others. *)
Record covers (bs : list N) (segs : list Segment) (ms : list Pg) : Prop := mkCovers {
  cv_all seg va : seg ∈ segs → va mod 4096 = 0 → seg_start seg ≤ va < seg_end seg → ∃ pa, seg_page bs seg pa va ∈ ms;
  cv_only m : m ∈ ms → ∃ seg pa va, seg ∈ segs ∧ va mod 4096 = 0 ∧ seg_start seg ≤ va < seg_end seg ∧ m = seg_page bs seg pa va
}.

Lemma map_pages_run g0 s0 root ms g l seg bs vas :
  loading g0 s0 root ms g l → Forall (λ b, b < 256) bs → vlen bs ≤ 0x7FFFFFFFFFFFFFFF → seg_ok bs seg →
  (∀ va, va ∈ vas → va mod 4096 = 0 ∧ seg_start seg ≤ va < USER_VA_LIMIT) →
  ∃ r l', map_pages root seg bs vas l = Ret (r, l') ∧
    match r with
    | Ok _ => ∃ g' new, loading g0 s0 root (ms ++ new) g' l' ∧
        (∀ va, va ∈ vas → ∃ pa, seg_page bs seg pa va ∈ new) ∧ (∀ m, m ∈ new → ∃ pa va, va ∈ vas ∧ m = seg_page bs seg pa va)
    | Err _ => ∃ g' new, loading g0 s0 root (ms ++ new) g' l'
    end.
Proof.
  intros Hl Hb Hlen Hok. revert ms g l Hl. induction vas as [|va vas IH]; intros ms g l Hl Hvas; cbn [map_pages].
  { eexists _, _. split; [done|]. exists g, []. rewrite app_nil_r. split_and!; [done|by intros ? ?%elem_of_nil..]. }
  destruct (Hvas va) as [Ha Hr]; [left|].
  destruct (map_page_run g0 s0 root ms g l seg bs va Hl Hb Hlen Hok Ha Hr) as (r & l1 & E & H1). destruct r as [[]|e].
  - rewrite (try_ok _ _ _ _ _ E). destruct H1 as (g1 & pa & Hl1).
    destruct (IH _ g1 l1 Hl1) as (r & l2 & E2 & H2); [intros x Hx; apply Hvas; by right|]. exists r, l2. split; [done|].
    destruct r as [[]|e].
    + destruct H2 as (g2 & new & Hl2 & Hall & Honly). exists g2, (seg_page bs seg pa va :: new). rewrite <-app_assoc in Hl2.
      split_and!; [done|..].
      * intros x [->|Hx]%elem_of_cons; [exists pa; by left|]. destruct (Hall x Hx) as [p Hp]. exists p. by right.
      * intros m [->|Hm]%elem_of_cons; [exists pa, va; split; [by left|done]|].
        destruct (Honly m Hm) as (p & x & Hx & ->). exists p, x. split; [by right|done].
    + destruct H2 as (g2 & new & Hl2). exists g2, (seg_page bs seg pa va :: new). by rewrite <-app_assoc in Hl2.
  - rewrite (try_err _ _ _ _ _ E). destruct H1 as (g1 & Hl1). eexists _, _. split; [done|]. exists g1, []. by rewrite app_nil_r.
Qed.

Lemma elem_page_steps start end_ va : start mod 4096 = 0 → end_ mod 4096 = 0 →
  va ∈ page_steps start end_ ↔ va mod 4096 = 0 ∧ start ≤ va < end_.
Proof.
  intros Hs He. unfold page_steps, div_ceil, PAGE_SIZE. rewrite list_elem_of_fmap. setoid_rewrite elem_of_nrange. split.
  - intros (i & -> & _ & Hi). clear - Hs He Hi. rewrite N2Nat.id in Hi. dlia.
  - intros (Ha & H1 & H2). exists ((va - start) / 4096). rewrite N2Nat.id. clear - Hs He Ha H1 H2. dlia.
Qed.

Lemma seg_end_limit bs seg : seg_ok bs seg → seg_end seg ≤ USER_VA_LIMIT.
Proof. intros (_ & Hm & _). rewrite USER_VA_LIMIT_val in *. unfold seg_end. clear - Hm. dlia. Qed.

Lemma map_segment_run g0 s0 root ms g l seg bs :
  loading g0 s0 root ms g l → Forall (λ b, b < 256) bs → vlen bs ≤ 0x7FFFFFFFFFFFFFFF → seg_ok bs seg →
  ∃ r l', map_segment root seg bs l = Ret (r, l') ∧
    match r with
    | Ok _ => ∃ g' new, loading g0 s0 root (ms ++ new) g' l' ∧ covers bs [seg] new
    | Err _ => ∃ g' new, loading g0 s0 root (ms ++ new) g' l'
    end.
Proof.
  intros Hl Hb Hlen Hok. pose proof (seg_end_limit bs seg Hok) as Hend. pose proof Hok as (Hv & Hm & _). unfold map_segment.
  assert (Hmax : g_vaddr seg + g_memsz seg + 4096 ≤ USIZE_MAX) by (rewrite USER_VA_LIMIT_val in *; unfold USIZE_MAX; lia).
  rewrite (proj2 (checked_add_Some (g_vaddr seg) (g_memsz seg) (g_vaddr seg + g_memsz seg))) by (split; [done|lia]).
  rewrite (bind_ret _ _ _ _ _ (align_up_page (g_vaddr seg + g_memsz seg) l Hmax)), align_down_page.
  fold (seg_end seg) (seg_start seg).
  assert (Hsteps : ∀ va, va ∈ page_steps (seg_start seg) (seg_end seg) ↔ va mod 4096 = 0 ∧ seg_start seg ≤ va < seg_end seg).
  { intros va. apply elem_page_steps; unfold seg_start, seg_end; clear; dlia. }
  destruct (map_pages_run g0 s0 root ms g l seg bs (page_steps (seg_start seg) (seg_end seg)) Hl Hb Hlen Hok) as (r & l' & E & Hr).
  { intros va [Ha Hva]%Hsteps. split; [done|]. lia. }
  exists r, l'. split; [done|]. destruct r as [[]|e]; [|done]. destruct Hr as (g' & new & Hl' & Hall & Honly).
  exists g', new. split; [done|]. split.
  - intros seg' va ->%list_elem_of_singleton Ha Hva. by apply Hall, Hsteps.
  - intros m (pa & va & [Ha Hva]%Hsteps & ->)%Honly. exists seg, pa, va. split; [by left|done].
Qed.

Lemma covers_cons bs seg segs a b : covers bs [seg] a → covers bs segs b → covers bs (seg :: segs) (a ++ b).
Proof.
  intros [A1 O1] [A2 O2]. split.
  - intros seg' va [->|Hin]%elem_of_cons Ha Hva.
    + destruct (A1 seg va) as [pa Hpa]; [by left|done..|]. exists pa. apply elem_of_app. by left.
    + destruct (A2 seg' va) as [pa Hpa]; [done..|]. exists pa. apply elem_of_app. by right.
  - intros m [(seg' & pa & va & ->%list_elem_of_singleton & ?)%O1|(seg' & pa & va & Hin & ?)%O2]%elem_of_app.
    + exists seg, pa, va. split; [by left|done].
    + exists seg', pa, va. split; [by right|done].
Qed.

Lemma map_segments_run g0 s0 root ms g l segs bs :
  loading g0 s0 root ms g l → Forall (λ b, b < 256) bs → vlen bs ≤ 0x7FFFFFFFFFFFFFFF → Forall (seg_ok bs) segs →
  ∃ r l', map_segments root bs segs l = Ret (r, l') ∧
    match r with
    | Ok _ => ∃ g' new, loading g0 s0 root (ms ++ new) g' l' ∧ covers bs segs new
    | Err _ => ∃ g' new, loading g0 s0 root (ms ++ new) g' l'
    end.
Proof.
  intros Hl Hb Hlen Hok. revert ms g l Hl. induction Hok as [|seg segs Hseg _ IH]; intros ms g l Hl; cbn [map_segments].
  { eexists _, _. split; [done|]. exists g, []. rewrite app_nil_r. split; [done|].
    split; [by intros ? ? ?%elem_of_nil|by intros ? ?%elem_of_nil]. }
  destruct (map_segment_run g0 s0 root ms g l seg bs Hl Hb Hlen Hseg) as (r & l1 & E & H1). destruct r as [[]|e].
  - rewrite (try_ok _ _ _ _ _ E). destruct H1 as (g1 & a & Hl1 & Ca). destruct (IH _ g1 l1 Hl1) as (r & l2 & E2 & H2).
    exists r, l2. split; [done|]. destruct r as [[]|e].
    + destruct H2 as (g2 & b & Hl2 & Cb). exists g2, (a ++ b). rewrite app_assoc. split; [done|]. by apply covers_cons.
    + destruct H2 as (g2 & b & Hl2). exists g2, (a ++ b). by rewrite app_assoc.
  - rewrite (try_err _ _ _ _ _ E). eexists _, _. split; [done|]. done.
Qed.

(** ** The pages of the stack *)

Definition stack_pg (va pa : N) : Pg := mkPg va pa 0xC7 None.

Lemma stack_bottom_val : stack_bottom = 274877808640.
Proof. by vm_compute. Qed.
Lemma stack_top_val : USER_STACK_TOP = 274877841408.
Proof. by vm_compute. Qed.

Lemma map_stack_run g0 s0 root ms g l vas :
  loading g0 s0 root ms g l → (∀ va, va ∈ vas → va mod 4096 = 0 ∧ va < USER_VA_LIMIT) →
  ∃ r l', map_stack root vas l = Ret (r, l') ∧
    match r with
    | Ok pas => length pas = length vas ∧ ∃ g', loading g0 s0 root (ms ++ zip_with stack_pg vas pas) g' l'
    | Err _ => ∃ g' new, loading g0 s0 root (ms ++ new) g' l'
    end.
Proof.
  revert ms g l. induction vas as [|va vas IH]; intros ms g l Hl Hvas; cbn [map_stack].
  { eexists _, _. split; [done|]. split; [done|]. exists g. cbn. by rewrite app_nil_r. }
  destruct (Hvas va) as [Ha Hva]; [left|]. destruct Hl as [Se Em], l as [s mp]. cbn [ls_mem ls_mapped] in *.
  assert (Hkeep : ∀ e, ∃ r l', (mret (Err e) : M LoadState (result (list N) ElfError)) (mkLoad s mp) = Ret (r, l') ∧
    match r with
    | Ok pas => length pas = length (va :: vas) ∧ ∃ g', loading g0 s0 root (ms ++ zip_with stack_pg (va :: vas) pas) g' l'
    | Err _ => ∃ g' new, loading g0 s0 root (ms ++ new) g' l'
    end).
  { intros e. eexists _, _. split; [done|]. exists g, []. by rewrite app_nil_r. }
  rewrite bind_get. cbn [ls_mem]. destruct (is_mapped root va s) eqn:Emp; [apply Hkeep|].
  assert (Hw : walk root va s = None).
  { destruct (walk root va s) eqn:Ew; [|done]. assert (is_mapped root va s = true) by (apply is_mapped_walk; by eexists). congruence. }
  destruct (alloc_zeroed_law s g (session_pinv _ _ _ _ _ _ Se)) as [E|(pa & s1 & g1 & E & F)].
  { rewrite (try_err _ _ _ NoMemory (mkLoad s mp)) by (by apply ok_or_none, inmem_run). apply Hkeep. }
  rewrite (try_ok _ _ _ pa (mkLoad s1 mp)) by (by apply ok_or_some, inmem_run).
  assert (Fl : filled g g1 s s1 pa None) by (eapply fresh_filled; [done|apply pokes_refl; apply F|done]).
  destruct (session_map _ _ _ _ _ _ g1 s1 va pa 0xC7 None Se Fl Ha Hva Hw) as [(g2 & s3 & E3 & Se3 & _)|(g2 & s3 & E3 & Se3)]; [done..| |].
  - rewrite (bind_ret _ _ _ _ _ (inmem_run _ _ _ _ mp E3)). eexists _, _. split; [done|]. exists g2, []. rewrite app_nil_r. by split.
  - rewrite (bind_ret _ _ _ _ _ (inmem_run _ _ _ _ mp E3)). unfold push_mapped. rewrite bind_modify. cbn [ls_mem ls_mapped].
    destruct (IH (ms ++ [stack_pg va pa]) g2 (mkLoad s3 (mp ++ [(va, pa)]))) as (r & l2 & E2 & H2).
    { split; [done|]. cbn [ls_mapped]. by rewrite Em, fmap_app. }
    { intros x Hx. apply Hvas. by right. }
    destruct r as [pas|e].
    + rewrite (try_ok _ _ _ _ _ E2). eexists _, _. split; [done|]. destruct H2 as [Hlen [g' Hl']]. split; [cbn; congruence|].
      exists g'. by rewrite <-app_assoc in Hl'.
    + rewrite (try_err _ _ _ _ _ E2). eexists _, _. split; [done|]. destruct H2 as (g' & new & Hl').
      exists g', (stack_pg va pa :: new). by rewrite <-app_assoc in Hl'.
Qed.

(** ** Writing into the stack *)

(** The physical address of a stack address. *)
Definition stack_idx (u : N) : N := (u - stack_bottom) / 4096.
Definition saddr (pas : list N) (u : N) : N := default 0 (vget pas (stack_idx u)) + u mod 4096.
Definition in_stack (u : N) : Prop := stack_bottom ≤ u < USER_STACK_TOP.

(** The pages [pas] are the mapped pages of the stack, in order. *)
Definition stack_of (pas : list N) (ms : list Pg) : Prop :=
  vlen pas = 8 ∧ ∀ i pa, vget pas i = Some pa → stack_pg (stack_bottom + i * 4096) pa ∈ ms.

Lemma in_stack_page u pas ms : stack_of pas ms → in_stack u →
  ∃ pa, vget pas (stack_idx u) = Some pa ∧ stack_pg (stack_bottom + stack_idx u * 4096) pa ∈ ms ∧
    saddr pas u = pa + u mod 4096 ∧ u = stack_bottom + stack_idx u * 4096 + u mod 4096 ∧ u mod 4096 < 4096.
Proof.
  intros [Hl Hin] [H1 H2]. assert (Hi : stack_idx u < 8 ∧ u = stack_bottom + stack_idx u * 4096 + u mod 4096 ∧ u mod 4096 < 4096).
  { unfold stack_idx. rewrite stack_bottom_val, stack_top_val in *. clear - H1 H2. dlia. }
  destruct Hi as (Hi & Hu & Hm). destruct (vget_lt_Some pas (stack_idx u)) as [pa Epa]; [lia|].
  exists pa. split_and!; [done|by apply Hin| |done|done]. unfold saddr. by rewrite Epa.
Qed.

Section stack.
Context (g0 : G) (s0 : PMem) (root : N) (ms : list Pg) (pas : list N) (Hst : stack_of pas ms).

Lemma saddr_inj g l u v : loading g0 s0 root ms g l → in_stack u → in_stack v →
  saddr pas u / 4096 * 4096 = saddr pas v / 4096 * 4096 → u mod 4096 = v mod 4096 → u = v.
Proof.
  intros [Se _] Hu Hv E Em. destruct (in_stack_page u pas ms Hst Hu) as (pu & _ & Hpu & Eu & Eu' & Hou).
  destruct (in_stack_page v pas ms Hst Hv) as (pv & _ & Hpv & Ev & Ev' & Hov).
  pose proof (session_pinv _ _ _ _ _ _ Se) as I.
  destruct (live_page (ls_mem l) g pu I (se_live _ _ _ _ _ _ Se _ Hpu)) as [Au _].
  destruct (live_page (ls_mem l) g pv I (se_live _ _ _ _ _ _ Se _ Hpv)) as [Av _].
  assert (pu = pv) as <-.
  { rewrite Eu, Ev in E. unfold PAGE_SIZE in *. clear - E Au Av Hou Hov. dlia. }
  pose proof (NoDup_fmap_eq q_pa ms _ _ (se_pas _ _ _ _ _ _ Se) Hpu Hpv eq_refl) as Eq. injection Eq as Eq. lia.
Qed.

Lemma saddr_ne g l u v : loading g0 s0 root ms g l → in_stack u → in_stack v → u ≠ v → saddr pas u ≠ saddr pas v.
Proof.
  intros Hl Hu Hv Hne E. apply Hne. eapply saddr_inj; [done..| |]; [by rewrite E|].
  destruct (in_stack_page u pas ms Hst Hu) as (pu & _ & Hpu & Eu & _ & Hou).
  destruct (in_stack_page v pas ms Hst Hv) as (pv & _ & Hpv & Ev & _ & Hov). destruct Hl as [Se _].
  pose proof (session_pinv _ _ _ _ _ _ Se) as I.
  destruct (live_page (ls_mem l) g pu I (se_live _ _ _ _ _ _ Se _ Hpu)) as [Au _].
  destruct (live_page (ls_mem l) g pv I (se_live _ _ _ _ _ _ Se _ Hpv)) as [Av _].
  rewrite Eu, Ev in E. unfold PAGE_SIZE in *. clear - E Au Av Hou Hov. dlia.
Qed.

Lemma pa_at_run u (l : LoadState) : in_stack u → pa_at pas u l = Ret (Ok (saddr pas u), l).
Proof.
  intros Hu. destruct (in_stack_page u pas ms Hst Hu) as (pa & Epa & _ & Es & Eu & Hm). destruct Hu as [H1 H2].
  unfold pa_at, sub_. rewrite (proj2 (N.leb_le _ _)) by done. rewrite bind_mret_l. cbv zeta. unfold PAGE_SIZE. fold (stack_idx u).
  assert (Hi : stack_idx u < 8) by (apply vget_Some_lt in Epa; by destruct Hst as [<- _]).
  unfold USER_STACK_PAGES. rewrite (proj2 (N.leb_gt _ _)) by done. rewrite (bind_expect_some _ pa) by done.
  change (4096 - 1) with 0xfff. by rewrite land_page, Es.
Qed.

Lemma put_byte_run g l u b : loading g0 s0 root ms g l → in_stack u → b < 256 →
  ∃ l', inmem (put_byte (saddr pas u) b) l = Ret (tt, l') ∧ loading g0 s0 root ms g l' ∧
    ∀ v, in_stack v → read_byte (saddr pas v) (ram (ls_mem l')) = if decide (v = u) then b else read_byte (saddr pas v) (ram (ls_mem l)).
Proof.
  intros Hl Hu Hb. pose proof Hl as [Se Em]. destruct (in_stack_page u pas ms Hst Hu) as (pa & _ & Hpg & Es & _ & Ho). destruct l as [s mp].
  eexists. split; [apply inmem_run; done|]. split; [split; [|done]|].
  - cbn [ls_mem] in *. rewrite Es. eapply session_poke; [done|exact Hpg|done|]. cbn [q_pa stack_pg].
    apply pokes_byte; [by eapply session_pinv|by apply (se_live _ _ _ _ _ _ Se _ Hpg)|done].
  - intros v Hv. cbn [ls_mem ram set_ram]. rewrite read_write_byte by done. case_decide as E; case_decide as E'; try done.
    + by destruct (saddr_ne _ _ v u Hl Hv Hu E').
    + by subst.
Qed.

Lemma write_str_run g l u str : loading g0 s0 root ms g l → stack_bottom ≤ u → u + vlen str ≤ USER_STACK_TOP → Forall (λ b, b < 256) str →
  ∃ l', write_str pas u str l = Ret (Ok tt, l') ∧ loading g0 s0 root ms g l' ∧
    ∀ v, in_stack v → read_byte (saddr pas v) (ram (ls_mem l')) =
      if decide (u ≤ v < u + vlen str) then default 0 (str !! N.to_nat (v - u)) else read_byte (saddr pas v) (ram (ls_mem l)).
Proof.
  intros Hl Hu Ht Hb. revert l u Hl Hu Ht. induction Hb as [|b str Hb _ IH]; intros l u Hl Hu Ht; cbn [write_str].
  { exists l. split_and!; [done..|]. intros v Hv. unfold vlen. cbn. rewrite decide_False; [done|lia]. }
  unfold vlen in Ht. cbn [length] in Ht. assert (Hin : in_stack u) by (split; lia).
  rewrite (try_ok _ _ _ _ _ (pa_at_run u l Hin)).
  destruct (put_byte_run g l u b Hl Hin Hb) as (l1 & E1 & Hl1 & R1). rewrite (bind_ret _ _ _ _ _ E1).
  destruct (IH l1 (u + 1) Hl1) as (l2 & E2 & Hl2 & R2); [lia|unfold vlen; lia|]. exists l2. split_and!; [done..|].
  intros v Hv. rewrite R2, R1 by done. unfold vlen. cbn [length]. repeat case_decide; try lia; try done.
  - replace (N.to_nat (v - u)) with (S (N.to_nat (v - (u + 1)))) by lia. done.
  - replace (N.to_nat (v - u)) with 0%nat by lia. done.
Qed.

(** Where the arguments stand: each as its bytes and a zero, between [lo] and [hi]. *)
Definition args_at (s : PMem) (starts : list N) (args : list (list N)) (lo hi : N) : Prop :=
  length starts = length args ∧
  ∀ i a, args !! i = Some a → ∃ p, starts !! i = Some p ∧ lo ≤ p ∧ p + vlen a + 1 ≤ hi ∧
    ∀ j b, (a ++ [0]) !! j = Some b → read_byte (saddr pas (p + N.of_nat j)) (ram s) = b.

Lemma args_at_keep s s' starts args lo hi : stack_bottom ≤ lo → hi ≤ USER_STACK_TOP →
  (∀ v, in_stack v → lo ≤ v < hi → read_byte (saddr pas v) (ram s') = read_byte (saddr pas v) (ram s)) →
  args_at s starts args lo hi → args_at s' starts args lo hi.
Proof.
  intros Hlo Hhi K [Hl Ha]. split; [done|]. intros i a Hi. destruct (Ha i a Hi) as (p & Hp & H1 & H2 & H3).
  exists p. split_and!; [done..|]. intros j b Hj. rewrite <-(H3 j b Hj). apply lookup_lt_Some in Hj.
  rewrite length_app in Hj. cbn in Hj. unfold vlen in *. apply K; [split|]; lia.
Qed.

Lemma write_args_run g l sptr args : loading g0 s0 root ms g l → stack_bottom ≤ sptr → sptr + str_total args ≤ USER_STACK_TOP →
  Forall (Forall (λ b, b < 256)) args →
  ∃ starts l', write_args pas sptr args l = Ret (Ok starts, l') ∧ loading g0 s0 root ms g l' ∧
    args_at (ls_mem l') starts args sptr (sptr + str_total args) ∧
    ∀ v, in_stack v → v < sptr → read_byte (saddr pas v) (ram (ls_mem l')) = read_byte (saddr pas v) (ram (ls_mem l)).
Proof.
  intros Hl Hs Ht Hb. revert l sptr Hl Hs Ht. induction Hb as [|a args Ha _ IH]; intros l sptr Hl Hs Ht; cbn [write_args].
  { exists [], l. split_and!; [done..|by split|done]. }
  cbn [str_total foldr] in Ht. fold (str_total args) in Ht.
  destruct (write_str_run g l sptr (a ++ [0]) Hl Hs) as (l1 & E1 & Hl1 & R1).
  { unfold vlen in *. rewrite length_app. cbn. lia. }
  { apply Forall_app. split; [done|]. by repeat constructor. }
  rewrite (try_ok _ _ _ _ _ E1). destruct (IH l1 (sptr + vlen a + 1) Hl1) as (starts & l2 & E2 & Hl2 & [Hlen Ha2] & K2); [lia..|].
  rewrite (try_ok _ _ _ _ _ E2). exists (sptr :: starts), l2. split_and!; [done..| |].
  - split; [cbn; congruence|]. intros [|i] x Hx.
    + injection Hx as <-. exists sptr. cbn [str_total foldr]. fold (str_total args). split_and!; [done|lia|lia|].
      intros j b Hj. pose proof (lookup_lt_Some _ _ _ Hj) as Hjl. rewrite length_app in Hjl. cbn in Hjl. unfold vlen in *.
      rewrite K2, R1 by (lia || (split; lia)). rewrite decide_True by (unfold vlen; rewrite length_app; cbn; lia).
      replace (N.to_nat (sptr + N.of_nat j - sptr)) with j by lia. by rewrite Hj.
    + destruct (Ha2 i x Hx) as (p & Hp & H1 & H2 & H3). exists p. cbn [str_total foldr]. fold (str_total args).
      split_and!; [done|lia|lia|done].
  - intros v Hv Hlt. rewrite K2, R1 by (done || lia). rewrite decide_False by lia. done.
Qed.

(** Words of the stack. *)
Lemma saddr_word g l u : loading g0 s0 root ms g l → in_stack u → u mod 8 = 0 →
  saddr pas u mod 8 = 0 ∧ ∀ k, k < 8 → saddr pas (u + k) = saddr pas u + k ∧ in_stack (u + k).
Proof.
  intros [Se _] Hu Hm. destruct (in_stack_page u pas ms Hst Hu) as (pa & Epa & Hpg & Es & Eu & Ho).
  destruct (live_page (ls_mem l) g pa (session_pinv _ _ _ _ _ _ Se) (se_live _ _ _ _ _ _ Se _ Hpg)) as [Ap _].
  split; [rewrite Es; unfold PAGE_SIZE in *; clear - Ap Hm; dlia|]. intros k Hk.
  assert (Hi : stack_idx (u + k) = stack_idx u ∧ (u + k) mod 4096 = u mod 4096 + k ∧ in_stack (u + k)).
  { unfold stack_idx, in_stack in *. rewrite stack_bottom_val, stack_top_val in *. clear - Hu Hm Hk. dlia. }
  destruct Hi as (E1 & E2 & H3). split; [|done]. unfold saddr. rewrite E1, E2, Epa. cbn. lia.
Qed.

Lemma put_usize_run g l u x : loading g0 s0 root ms g l → in_stack u → u mod 8 = 0 →
  ∃ l', inmem (put_usize (saddr pas u) x) l = Ret (tt, l') ∧ loading g0 s0 root ms g l' ∧
    (∀ v, in_stack v → v mod 8 = 0 → read_word (saddr pas v) (ram (ls_mem l')) =
       if decide (v = u) then x else read_word (saddr pas v) (ram (ls_mem l))) ∧
    (∀ v, in_stack v → ¬ (u ≤ v < u + 8) → read_byte (saddr pas v) (ram (ls_mem l')) = read_byte (saddr pas v) (ram (ls_mem l))).
Proof.
  intros Hl Hu Hm. pose proof Hl as [Se Em]. destruct (in_stack_page u pas ms Hst Hu) as (pa & _ & Hpg & Es & _ & Ho).
  destruct (saddr_word g l u Hl Hu Hm) as [Hsm Hk]. destruct l as [s mp].
  eexists. split; [apply inmem_run; done|]. split; [split; [|done]|split].
  - cbn [ls_mem] in *. rewrite Es. eapply session_poke; [done|exact Hpg|done|]. cbn [q_pa stack_pg].
    apply pokes_word; [by eapply session_pinv|by apply (se_live _ _ _ _ _ _ Se _ Hpg)|done|clear - Hm; dlia].
  - intros v Hv Hvm. cbn [ls_mem ram set_ram]. case_decide as E; [subst v; apply read_write_eq|].
    apply read_write_ne. intros E'. by destruct (saddr_ne _ _ u v Hl Hu Hv).
  - intros v Hv Hr. cbn [ls_mem ram set_ram]. apply read_byte_write_word; [done|]. intros Hb.
    destruct (Hk (saddr pas v - saddr pas u)) as [E Hin]; [lia|].
    destruct (decide (v = u + (saddr pas v - saddr pas u))) as [Ev|Hne]; [lia|].
    apply (saddr_ne _ _ v (u + (saddr pas v - saddr pas u)) Hl Hv Hin Hne). lia.
Qed.

Lemma write_cells_run g l u vs : loading g0 s0 root ms g l → stack_bottom ≤ u → u mod 8 = 0 → u + 8 * vlen vs ≤ USER_STACK_TOP →
  ∃ l', write_cells pas u vs l = Ret (Ok tt, l') ∧ loading g0 s0 root ms g l' ∧
    (∀ i x, vs !! i = Some x → read_word (saddr pas (u + 8 * N.of_nat i)) (ram (ls_mem l')) = x) ∧
    (∀ v, in_stack v → v mod 8 = 0 → ¬ (u ≤ v < u + 8 * vlen vs) → read_word (saddr pas v) (ram (ls_mem l')) = read_word (saddr pas v) (ram (ls_mem l))) ∧
    (∀ v, in_stack v → ¬ (u ≤ v < u + 8 * vlen vs) → read_byte (saddr pas v) (ram (ls_mem l')) = read_byte (saddr pas v) (ram (ls_mem l))).
Proof.
  revert l u. induction vs as [|x vs IH]; intros l u Hl Hu Hm Ht; cbn [write_cells].
  { exists l. split_and!; done. }
  unfold vlen in *. cbn [length] in *. assert (Hin : in_stack u) by (split; lia).
  rewrite (try_ok _ _ _ _ _ (pa_at_run u l Hin)).
  destruct (put_usize_run g l u x Hl Hin Hm) as (l1 & E1 & Hl1 & W1 & B1). rewrite (bind_ret _ _ _ _ _ E1).
  destruct (IH l1 (u + 8) Hl1) as (l2 & E2 & Hl2 & C2 & W2 & B2); [lia|clear - Hm; dlia|lia|].
  exists l2. split_and!; [done..| | |].
  - intros [|i] y Hy.
    + injection Hy as <-. replace (u + 8 * N.of_nat 0) with u by lia. rewrite W2, W1, decide_True by (done || lia). done.
    + replace (u + 8 * N.of_nat (S i)) with (u + 8 + 8 * N.of_nat i) by lia. by apply C2.
  - intros v Hv Hvm Hr. rewrite W2, W1 by (done || lia). rewrite decide_False by lia. done.
  - intros v Hv Hr. rewrite B2, B1 by (done || lia). done.
Qed.
End stack.

(** ** The initial stack *)

(** What the program finds: [argc] at [sp], the array of argument pointers with its
    terminating null at [argv], the strings above it. *)
Record stack_image (pas : list N) (s : PMem) (args : list (list N)) (sp argv : N) : Prop := mkStackImage {
  si_sp : sp mod 16 = 0 ∧ stack_bottom ≤ sp ∧ sp + 8 ≤ argv;
  si_argv : argv mod 8 = 0 ∧ argv + 8 * (vlen args + 1) ≤ USER_STACK_TOP;
  si_argc : read_word (saddr pas sp) (ram s) = vlen args;
  si_null : read_word (saddr pas (argv + 8 * vlen args)) (ram s) = 0;
  si_args i a : args !! i = Some a → ∃ p, read_word (saddr pas (argv + 8 * N.of_nat i)) (ram s) = p ∧
    argv + 8 * (vlen args + 1) ≤ p ∧ p + vlen a + 1 ≤ USER_STACK_TOP ∧
    ∀ j b, (a ++ [0]) !! j = Some b → read_byte (saddr pas (p + N.of_nat j)) (ram s) = b
}.

Definition stack_vas : list N := map (λ i, stack_bottom + i * PAGE_SIZE) (nrange 0 (N.to_nat USER_STACK_PAGES)).

Lemma stack_vas_lookup i : i < 8 → stack_vas !! N.to_nat i = Some (stack_bottom + i * 4096).
Proof.
  intros Hi. assert (C : i = 0 ∨ i = 1 ∨ i = 2 ∨ i = 3 ∨ i = 4 ∨ i = 5 ∨ i = 6 ∨ i = 7) by lia.
  repeat destruct C as [C|C]; subst i; by vm_compute.
Qed.

Lemma stack_vas_ok va : va ∈ stack_vas → va mod 4096 = 0 ∧ va < USER_VA_LIMIT ∧ in_stack va.
Proof.
  intros (i & -> & Hi%elem_of_nrange)%list_elem_of_fmap. change (N.of_nat (N.to_nat USER_STACK_PAGES)) with 8 in Hi.
  unfold in_stack, PAGE_SIZE. rewrite stack_bottom_val, stack_top_val, USER_VA_LIMIT_val. clear - Hi. dlia.
Qed.

Lemma stack_of_zip ms pas : length pas = length stack_vas → stack_of pas (ms ++ zip_with stack_pg stack_vas pas).
Proof.
  intros Hl. assert (H8 : vlen pas = 8) by (unfold vlen; rewrite Hl; by vm_compute). split; [done|].
  intros i pa Hi. pose proof (vget_Some_lt _ _ _ Hi) as Hlt. apply elem_of_app. right. rewrite vget_lookup in Hi.
  apply list_elem_of_lookup. exists (N.to_nat i). rewrite lookup_zip_with, stack_vas_lookup, Hi by lia. done.
Qed.

Lemma ldiff_16 x : N.ldiff x 0xF = x / 16 * 16.
Proof. change 0xF with (N.ones 4). by rewrite N.ldiff_ones_r, N.shiftr_div_pow2, N.shiftl_mul_pow2. Qed.

Lemma stack_layout args : vlen args ≤ 16 → str_total args ≤ 32768 - (vlen args + 2) * 8 - 16 →
  let area := (USER_STACK_TOP - str_total args) / 16 * 16 in
  let argv := (area - (vlen args + 1) * 8) / 16 * 16 in
  stack_bottom ≤ area ∧ area + str_total args ≤ USER_STACK_TOP ∧ (vlen args + 1) * 8 ≤ area ∧
  argv + 8 * (vlen args + 1) ≤ area ∧ argv mod 16 = 0 ∧
  (stack_bottom + 16 ≤ argv → (argv - 8) / 16 * 16 = argv - 16).
Proof.
  intros Hn Ht. rewrite stack_bottom_val, stack_top_val. cbv zeta. set (n := vlen args) in *. set (t := str_total args) in *.
  clearbody n t. clear - Hn Ht. dlia.
Qed.

Lemma build_user_stack_run g0 s0 root ms g l args :
  loading g0 s0 root ms g l → Forall (Forall (λ b, b < 256)) args →
  ∃ r l', build_user_stack root args l = Ret (r, l') ∧
    match r with
    | Ok (sp, argv) => ∃ g' pas, length pas = length stack_vas ∧
        loading g0 s0 root (ms ++ zip_with stack_pg stack_vas pas) g' l' ∧ stack_image pas (ls_mem l') args sp argv
    | Err _ => ∃ g' new, loading g0 s0 root (ms ++ new) g' l'
    end.
Proof.
  intros Hl Hb. unfold build_user_stack. cbv zeta. fold stack_vas.
  destruct (MAX_ARGS <? vlen args) eqn:En; [|destruct (_ <? str_total args) eqn:Et].
  1,2: eexists _, _; split; [done|]; exists g, []; by rewrite app_nil_r.
  bool_to_prop. unfold MAX_ARGS in En. change (USER_STACK_PAGES * PAGE_SIZE) with 32768 in Et.
  destruct (map_stack_run g0 s0 root ms g l stack_vas Hl) as (r & l1 & E1 & H1).
  { intros va Hva. by destruct (stack_vas_ok va Hva) as (? & ? & _). }
  destruct r as [pas|e]; [|rewrite (try_err _ _ _ _ _ E1); by eexists _, _].
  rewrite (try_ok _ _ _ _ _ E1). destruct H1 as (Hlen & g1 & Hl1). pose proof (stack_of_zip ms pas Hlen) as Hst.
  destruct (stack_layout args En Et) as (L1 & L2 & L3 & L4 & L5 & L6). rewrite !ldiff_16.
  set (area := (USER_STACK_TOP - str_total args) / 16 * 16) in *. set (ms' := ms ++ _) in *.
  destruct (write_args_run g0 s0 root ms' pas Hst g1 l1 area args Hl1 L1 L2 Hb) as (starts & l2 & E2 & Hl2 & HA & _).
  rewrite (try_ok _ _ _ _ _ E2). unfold sub_. rewrite (proj2 (N.leb_le _ _)) by done. rewrite bind_mret_l. rewrite !ldiff_16.
  set (argv := (area - (vlen args + 1) * 8) / 16 * 16) in *.
  destruct (argv <? stack_bottom + 16) eqn:Ea; bool_to_prop.
  { eexists _, _. split; [done|]. by exists g1, (zip_with stack_pg stack_vas pas). }
  specialize (L6 Ea). rewrite L6. pose proof (proj1 HA) as Hsl.
  destruct (write_cells_run g0 s0 root ms' pas Hst g1 l2 argv (starts ++ [0]) Hl2) as (l3 & E3 & Hl3 & C3 & W3 & B3).
  { lia. } { clear - L5. dlia. } { unfold vlen in *. rewrite length_app, Hsl. cbn. lia. }
  rewrite (try_ok _ _ _ _ _ E3).
  assert (Hcl : vlen (starts ++ [0]) = vlen args + 1) by (unfold vlen in *; rewrite length_app, Hsl; cbn; lia).
  destruct (write_cells_run g0 s0 root ms' pas Hst g1 l3 (argv - 16) [vlen args] Hl3) as (l4 & E4 & Hl4 & C4 & W4 & B4).
  { lia. } { clear - L5 Ea. dlia. } { unfold vlen at 1. cbn. lia. }
  rewrite (try_ok _ _ _ _ _ E4). eexists _, _. split; [done|]. exists g1, pas. split_and!; [done..|].
  change (vlen [vlen args]) with 1 in *.
  assert (Hcell : ∀ i, i ≤ vlen args → in_stack (argv + 8 * i) ∧ (argv + 8 * i) mod 8 = 0).
  { intros i Hi. split; [split; lia|]. clear - L5. dlia. }
  assert (Hword : ∀ i, i ≤ vlen args → read_word (saddr pas (argv + 8 * i)) (ram (ls_mem l4)) = default 0 ((starts ++ [0]) !! N.to_nat i)).
  { intros i Hi. destruct (Hcell i Hi) as [Hin Hm]. rewrite W4 by (done || lia).
    destruct (lookup_lt_is_Some_2 (starts ++ [0]) (N.to_nat i)) as [x Hx]; [unfold vlen in *; lia|].
    rewrite Hx. cbn. rewrite <-(C3 _ _ Hx). by rewrite N2Nat.id. }
  split.
  - split_and!; [clear - L5 Ea; dlia|lia|lia].
  - split; [clear - L5; dlia|lia].
  - specialize (C4 0%nat _ eq_refl). by replace (argv - 16 + 8 * N.of_nat 0) with (argv - 16) in C4 by lia.
  - rewrite Hword, lookup_app_r by (unfold vlen in *; lia). by replace (N.to_nat (vlen args) - length starts)%nat with 0%nat by (unfold vlen; lia).
  - assert (HA' : args_at pas (ls_mem l4) starts args area (area + str_total args)).
    { eapply args_at_keep; [done|done| |exact HA]. intros v Hv Hr. rewrite B4, B3 by (done || lia). done. }
    intros i a Hi. destruct (proj2 HA' i a Hi) as (p & Hp & H1 & H2 & H3). exists p. split_and!; [|lia|lia|done].
    pose proof (lookup_lt_Some _ _ _ Hi). rewrite Hword by (unfold vlen; lia). rewrite Nat2N.id, lookup_app_l by (by eapply lookup_lt_Some).
    by rewrite Hp.
Qed.

(** ** The program's view *)

(** The byte and the word the program finds at [v] through its page table. *)
Definition user_byte (root v : N) (s : PMem) : option N :=
  match walk root v s with Some (0, e) => Some (read_byte (pte_addr e + v mod 4096) (ram s)) | _ => None end.
Definition user_word (root v : N) (s : PMem) : option N :=
  match walk root v s with Some (0, e) => Some (read_word (pte_addr e + v mod 4096) (ram s)) | _ => None end.

(** [v] was unmapped and is mapped with the flags [f] to a page nobody had. *)
Definition newly_mapped (g : G) (s s' : PMem) (root v f : N) : Prop :=
  walk root v s = None ∧ ∃ pa, walk root v s' = Some (0, pte pa (N.lor f PTE_U)) ∧ ¬ live g pa.

Record program_stack (root : N) (s : PMem) (args : list (list N)) (sp argv : N) : Prop := mkProgramStack {
  pst_sp : sp mod 16 = 0 ∧ stack_bottom ≤ sp ∧ sp + 8 ≤ argv;
  pst_argc : user_word root sp s = Some (vlen args);
  pst_null : user_word root (argv + 8 * vlen args) s = Some 0;
  pst_args i a : args !! i = Some a → ∃ p, user_word root (argv + 8 * N.of_nat i) s = Some p ∧
    ∀ j b, (a ++ [0]) !! j = Some b → user_byte root (p + N.of_nat j) s = Some b
}.

Lemma session_walk g0 s0 root ms g s m v : session g0 s0 root ms g s → m ∈ ms → q_f m < 1024 → v < 2 ^ 39 → v / 4096 * 4096 = q_va m →
  walk root v s0 = None ∧ walk root v s = Some (0, pte (q_pa m) (N.lor (q_f m) PTE_U)) ∧
  pte_addr (pte (q_pa m) (N.lor (q_f m) PTE_U)) = q_pa m.
Proof.
  intros Se Hm Hf Hv E. destruct (se_va _ _ _ _ _ _ Se m Hm) as [Ha Hl]. pose proof (session_wf _ _ _ _ _ _ Se) as W.
  assert (Hs : same_slot v (q_va m)).
  { apply same_slot_page; [done| |].
    - eapply N.lt_trans; [exact Hl|]. by vm_compute.
    - rewrite <-E. by rewrite N.div_mul. }
  rewrite (walk_same_slot root _ _ s0 Hs), (walk_same_slot root _ _ s Hs). split_and!.
  - by apply (se_old _ _ _ _ _ _ Se).
  - by apply (se_map _ _ _ _ _ _ Se).
  - destruct (live_phys g s (q_pa m) (pt_pinv _ _ _ W) (se_live _ _ _ _ _ _ Se m Hm) (pt_phys _ _ _ W)) as [Hal Hph].
    apply pte_addr_pte; [done|done|]. apply (lor_small (q_f m) PTE_U 10); done.
Qed.

(** What the loader has built, page by page, as the program sees it. *)
Lemma segment_view g0 s0 root ms g s bs segs new seg v :
  session g0 s0 root ms g s → covers bs segs new → (∀ m, m ∈ new → m ∈ ms) → seg ∈ segs → seg_ok bs seg →
  seg_start seg ≤ v < seg_end seg →
  newly_mapped g0 s0 s root v (segment_flags (g_flags seg)) ∧ user_byte root v s = Some (seg_byte bs seg v).
Proof.
  intros Se Hc Hsub Hin Hok Hv. pose proof (seg_end_limit bs seg Hok) as Hend.
  assert (Hpage : (v / 4096 * 4096) mod 4096 = 0 ∧ seg_start seg ≤ v / 4096 * 4096 < seg_end seg ∧ v = v / 4096 * 4096 + v mod 4096 ∧ v mod 4096 < 4096).
  { unfold seg_start, seg_end in *. clear - Hv. dlia. }
  destruct Hpage as (Hp1 & Hp2 & Hp3 & Hp4). destruct (cv_all _ _ _ Hc seg _ Hin Hp1 Hp2) as [pa Hpa%Hsub].
  destruct (segment_flags_ok (g_flags seg)) as [Hf _].
  assert (H39 : v < 2 ^ 39) by (rewrite USER_VA_LIMIT_val in Hend; change (2 ^ 39) with 549755813888; lia).
  destruct (session_walk _ _ _ _ _ _ _ v Se Hpa Hf H39 eq_refl) as (W0 & W1 & Ea). cbn [q_pa q_f seg_page] in *.
  split; [split; [done|]; exists pa; split; [done|]; by apply (se_fresh _ _ _ _ _ _ Se _ Hpa)|].
  unfold user_byte. rewrite W1, Ea. f_equal.
  pose proof (se_data _ _ _ _ _ _ Se _ _ (v mod 4096) Hpa eq_refl Hp4) as Hd. cbn [q_pa seg_page] in Hd. rewrite Hd. by rewrite <-Hp3.
Qed.

Lemma stack_view g0 s0 root ms g s pas v :
  session g0 s0 root ms g s → stack_of pas ms → in_stack v →
  newly_mapped g0 s0 s root v 0xC7 ∧ user_byte root v s = Some (read_byte (saddr pas v) (ram s)) ∧
  user_word root v s = Some (read_word (saddr pas v) (ram s)).
Proof.
  intros Se Hst Hv. destruct (in_stack_page v pas ms Hst Hv) as (pa & _ & Hpg & Es & Ev & Ho).
  assert (H39 : v < 2 ^ 39) by (destruct Hv as [_ Hv]; rewrite stack_top_val in Hv; change (2 ^ 39) with 549755813888; lia).
  assert (Epg : v / 4096 * 4096 = stack_bottom + stack_idx v * 4096) by (rewrite stack_bottom_val in *; clear - Ev Ho; dlia).
  destruct (session_walk _ _ _ _ _ _ _ v Se Hpg) as (W0 & W1 & Ea); [done..|]. cbn [q_pa q_f stack_pg] in *.
  split; [split; [done|]; exists pa; split; [done|]; by apply (se_fresh _ _ _ _ _ _ Se _ Hpg)|].
  unfold user_byte, user_word. by rewrite W1, Ea, Es.
Qed.

Lemma image_view g0 s0 root ms g s pas args sp argv :
  session g0 s0 root ms g s → stack_of pas ms → stack_image pas s args sp argv → program_stack root s args sp argv.
Proof.
  intros Se Hst [H1 H2 H3 H4 H5]. pose proof (λ v, stack_view _ _ _ _ _ _ pas v Se Hst) as V.
  split; [done|..].
  - destruct (V sp) as (_ & _ & ->); [split; lia|]. by rewrite H3.
  - destruct (V (argv + 8 * vlen args)) as (_ & _ & ->); [split; lia|]. by rewrite H4.
  - intros i a Hi. destruct (H5 i a Hi) as (p & Hp & Hlo & Hhi & Hb). exists p. pose proof (lookup_lt_Some _ _ _ Hi) as Hil.
    unfold vlen in *. split.
    + destruct (V (argv + 8 * N.of_nat i)) as (_ & _ & ->); [split; lia|]. by rewrite Hp.
    + intros j b Hj. pose proof (lookup_lt_Some _ _ _ Hj) as Hjl. rewrite length_app in Hjl. cbn in Hjl.
      destruct (V (p + N.of_nat j)) as (_ & -> & _); [split; lia|]. by rewrite (Hb j b Hj).
Qed.

Lemma rollback_run g0 s0 root ms g l : loading g0 s0 root ms g l →
  ∃ g' l', rollback root l = Ret (tt, l') ∧ session g0 s0 root [] g' (ls_mem l').
Proof.
  intros [Se Em]. unfold rollback. rewrite bind_get, Em. destruct l as [s mp]. cbn [ls_mem] in Se.
  destruct (session_rollback _ _ _ _ _ _ mp Se) as (g' & s' & E & Se'). by exists g', (mkLoad s' mp).
Qed.

(** [load] after [parse] has accepted. *)
Lemma load_image_run g s root bs args info :
  pt_wf g s root → Forall (λ b, b < 256) bs → vlen bs ≤ 0x7FFFFFFFFFFFFFFF → Forall (Forall (λ b, b < 256)) args →
  Forall (seg_ok bs) (ei_segments info) →
  ∃ r l' g', load_image root bs args info (mkLoad s []) = Ret (r, l') ∧
    match r with
    | Err _ => session g s root [] g' (ls_mem l')
    | Ok ld => ∃ ms new pas, session g s root ms g' (ls_mem l') ∧ ms = new ++ zip_with stack_pg stack_vas pas ∧
        covers bs (ei_segments info) new ∧ length pas = length stack_vas ∧
        le_entry ld = ei_entry info ∧ le_argc ld = vlen args ∧ stack_image pas (ls_mem l') args (le_stack_top ld) (le_argv ld)
    end.
Proof.
  intros W Hb Hlen Ha Hok. assert (L0 : loading g s root [] g (mkLoad s [])) by (split; [by apply session_start|done]).
  unfold load_image. destruct (map_segments_run g s root [] g _ (ei_segments info) bs L0 Hb Hlen Hok) as (r & l1 & E1 & H1).
  rewrite (bind_ret _ _ _ _ _ E1). destruct r as [[]|e].
  2:{ destruct H1 as (g1 & new & L1). destruct (rollback_run _ _ _ _ _ _ L1) as (g2 & l2 & E2 & Se2).
      rewrite (bind_ret _ _ _ _ _ E2). by eexists _, _, g2. }
  destruct H1 as (g1 & new & L1 & Hc). destruct (build_user_stack_run g s root _ g1 l1 args L1 Ha) as (r & l2 & E2 & H2).
  rewrite (bind_ret _ _ _ _ _ E2). destruct r as [[sp argv]|e].
  - destruct H2 as (g2 & pas & Hpl & [Se2 _] & Himg). eexists _, _, g2. split; [done|].
    exists (new ++ zip_with stack_pg stack_vas pas), new, pas. by split_and!.
  - destruct H2 as (g2 & nw & L2). destruct (rollback_run _ _ _ _ _ _ L2) as (g3 & l3 & E3 & Se3).
    rewrite (bind_ret _ _ _ _ _ E3). by eexists _, _, g3.
Qed.
End load.

(** C10: [load] returns on every file and leaves the rest of the machine alone: pages that
    were live and are not tables of the space keep their words.  On success the file was
    acceptable and the program is in place: every byte of every segment's pages holds the
    file's byte, or zero beyond it, behind entries with the segment's permissions and the
    user bit; the stack is mapped, [sp] is 16-byte aligned and points at [argc], the
    argument pointers and strings follow as the ABI wants them; all these addresses were
    unmapped before and lead to pages nobody had; and no other translation changed.  On
    failure no translation changed at all. *)
Theorem load_correct `{PageAllocator G} (g : G) (k : Kernel) (pid root : N) (bs : list N) (args : list (list N)) :
  pid_root pid k = Some root → pt_wf g (k_mem k) root → Forall (λ b, b < 256) bs → vlen bs ≤ 0x7FFFFFFFFFFFFFFF →
  Forall (Forall (λ b, b < 256)) args →
  ∃ r s' g', load pid bs args k = Ret (r, set_mem s' k) ∧ pt_step g g' (k_mem k) s' root ∧
    match r with
    | Err _ => ∀ va, walk root va s' = walk root va (k_mem k)
    | Ok l => ∃ info, acceptable bs info ∧ le_entry l = ei_entry info ∧ le_argc l = vlen args ∧
        (∀ seg v, seg ∈ ei_segments info → seg_start seg ≤ v < seg_end seg →
           newly_mapped g (k_mem k) s' root v (segment_flags (g_flags seg)) ∧ user_byte root v s' = Some (seg_byte bs seg v)) ∧
        (∀ v, in_stack v → newly_mapped g (k_mem k) s' root v 0xC7) ∧
        program_stack root s' args (le_stack_top l) (le_argv l) ∧
        (∀ va, va < 2 ^ 39 → (∀ seg, seg ∈ ei_segments info → ¬ (seg_start seg ≤ va < seg_end seg)) → ¬ in_stack va →
           walk root va s' = walk root va (k_mem k))
    end.
Proof.
  intros Hr W Hb Hlen Ha. unfold load. destruct (parse_run bs k Hb Hlen) as (r & E & Hp). destruct r as [info|e].
  2:{ rewrite (try_err _ _ _ _ _ E). exists (Err e), (k_mem k), g. split_and!; [by destruct k|by apply pt_step_refl|done]. }
  rewrite (try_ok _ _ _ _ _ E), bind_get, Hr. pose proof Hp as (_ & _ & Hok & _).
  destruct (load_image_run g (k_mem k) root bs args info W Hb Hlen Ha Hok) as (r & l' & g' & E' & H').
  exists r, (ls_mem l'), g'. unfold onmem, lift. rewrite E'. split; [done|].
  destruct r as [ld|e]; [|split; [apply (se_step _ _ _ _ _ _ H')|intros va; apply (se_rest _ _ _ _ _ _ H'); by intros m ?%elem_of_nil]].
  destruct H' as (ms & new & pas & Se & Ems & Hc & Hpl & He & Hargc & Himg). split; [apply (se_step _ _ _ _ _ _ Se)|].
  assert (Hst : stack_of pas ms) by (rewrite Ems; by apply stack_of_zip).
  assert (Hsub : ∀ m, m ∈ new → m ∈ ms) by (intros m Hm; rewrite Ems; apply elem_of_app; by left).
  exists info. split_and!; [done..| | | |].
  - intros seg v Hin Hv. eapply segment_view; [done..| |done]. by apply (proj1 (Forall_forall _ _) Hok).
  - intros v Hv. by apply (stack_view _ _ _ _ _ _ pas v Se Hst Hv).
  - by eapply image_view.
  - intros va Hva Hseg Hns. apply (se_rest _ _ _ _ _ _ Se). intros m Hm Hs.
    destruct (se_va _ _ _ _ _ _ Se m Hm) as [Hal Hlim]. rewrite USER_VA_LIMIT_val in Hlim.
    apply same_slot_page in Hs; [|done|change (2 ^ 39) with 549755813888; lia].
    rewrite Ems in Hm. apply elem_of_app in Hm as [Hm|Hm].
    + destruct (cv_only _ _ _ Hc m Hm) as (seg & pa & vb & Hin & Hvb & Hr' & ->). cbn [q_va seg_page] in *.
      apply (Hseg seg Hin). unfold seg_start, seg_end in *. clear - Hs Hvb Hr'. dlia.
    + apply elem_of_lookup_zip_with in Hm as (i & vb & pa & -> & Hvb & _). cbn [q_va stack_pg] in *.
      apply list_elem_of_lookup_2 in Hvb as (Hvm & _ & Hin)%stack_vas_ok. apply Hns. unfold in_stack in *.
      rewrite stack_bottom_val, stack_top_val in *. clear - Hs Hvm Hin. dlia.
Qed.

Definition one_process (s : PMem) (root : N) : Kernel :=
  mkKernel s (mkProcTable [mkProcess 0 root no_caps] []) (mkShmTable [] []) (mkPageTable [] [])
    (replicate 8 None) (replicate 8 None) true.

Definition is_loaded (o : outcome (result LoadedElf ElfError * Kernel)) : bool :=
  match o with Ret (Ok _, _) => true | _ => false end.

(** On a machine with 16 pages the small executable is loaded. *)
Lemma load_correct_witness :
  ∃ s (g : N * blocks) root, pt_wf g s root ∧
    ∃ l s' g', load 0 tiny_elf [[0x68; 0x69]] (one_process s root) = Ret (Ok l, set_mem s' (one_process s root)) ∧
      pt_step g g' s s' root ∧ le_entry l = 0x10078 ∧ user_word root (le_stack_top l) s' = Some 1.
Proof.
  destruct booted_root as (s & g & root & B & W & _). exists s, g, root. split; [exact W|].
  assert (T : test_ret boot_root (λ o s, match o with
      | Some root => is_loaded (load 0 tiny_elf [[0x68; 0x69]] (one_process s root)) | None => false end) = true)
    by (vm_compute; reflexivity).
  rewrite B in T. cbn [test_ret] in T.
  destruct (load_correct g (one_process s root) 0 root tiny_elf [[0x68; 0x69]]) as (r & s' & g' & E & P & Hr).
  - reflexivity.
  - exact W.
  - apply (bool_decide_eq_true (Forall (λ b, b < 256) tiny_elf)). by vm_compute.
  - by vm_compute.
  - by repeat constructor.
  - rewrite E in T. destruct r as [l|e]; [|discriminate T]. exists l, s', g'. split; [exact E|]. split; [exact P|].
    destruct Hr as (info & Ha & He & _ & _ & _ & Hst & _). split.
    + rewrite He. destruct Ha as (_ & Hent & _). rewrite Hent. by vm_compute.
    + exact (pst_argc _ _ _ _ _ Hst).
Defined.
