(* ===== verification/Fdt.v ===== *)
(** * The device tree and the board: kernel/src/fdt.rs, kernel/src/board.rs

    [Fdt::new] and [Fdt::parse] on the memory the firmware hands over, as the list of the
    bytes that can be read from the given address on: reading past it is [Panic] here, so
    that the absence of stray reads is a theorem.  [board::init_from_fdt] and the
    accessors follow, and [mem::init], which computes the allocator's area. *)

From Stdlib Require Import ZifyN ZifyNat String Ascii.
From stdpp Require Import base gmap numbers functions list.
From S2P Require Import Prelude Mem.

Definition str (s : string) : list N := map N_of_ascii (list_ascii_of_string s).
Arguments str _%_string.

(** ** Parameters *)

Definition FDT_MAGIC : N := 0xD00DFEED.
Definition FDT_BEGIN_NODE : N := 1.
Definition FDT_END_NODE : N := 2.
Definition FDT_PROP : N := 3.
Definition FDT_NOP : N := 4.
Definition FDT_END : N := 9.

(** [BoardParams]; the list is [reserved] up to [reserved_count]. *)
Record BoardParams := mkParams {
  bp_ram_start : N; bp_ram_size : N; bp_timebase_freq : N; bp_uart_base : N; bp_uart_clock : N;
  bp_isa : list N; bp_cpu_count : N; bp_reserved : list (N * N) }.
Definition params0 : BoardParams := mkParams 0 0 0 0 0 [] 0 [].

Definition set_ram_area (a z : N) (p : BoardParams) : BoardParams :=
  mkParams a z (bp_timebase_freq p) (bp_uart_base p) (bp_uart_clock p) (bp_isa p) (bp_cpu_count p) (bp_reserved p).
Definition set_timebase (v : N) (p : BoardParams) : BoardParams :=
  mkParams (bp_ram_start p) (bp_ram_size p) v (bp_uart_base p) (bp_uart_clock p) (bp_isa p) (bp_cpu_count p) (bp_reserved p).
Definition set_uart_base (v : N) (p : BoardParams) : BoardParams :=
  mkParams (bp_ram_start p) (bp_ram_size p) (bp_timebase_freq p) v (bp_uart_clock p) (bp_isa p) (bp_cpu_count p) (bp_reserved p).
Definition set_uart_clock (v : N) (p : BoardParams) : BoardParams :=
  mkParams (bp_ram_start p) (bp_ram_size p) (bp_timebase_freq p) (bp_uart_base p) v (bp_isa p) (bp_cpu_count p) (bp_reserved p).
Definition set_isa (v : list N) (p : BoardParams) : BoardParams :=
  mkParams (bp_ram_start p) (bp_ram_size p) (bp_timebase_freq p) (bp_uart_base p) (bp_uart_clock p) v (bp_cpu_count p) (bp_reserved p).
Definition set_cpu_count (v : N) (p : BoardParams) : BoardParams :=
  mkParams (bp_ram_start p) (bp_ram_size p) (bp_timebase_freq p) (bp_uart_base p) (bp_uart_clock p) (bp_isa p) v (bp_reserved p).
Definition set_reserved (v : list (N * N)) (p : BoardParams) : BoardParams :=
  mkParams (bp_ram_start p) (bp_ram_size p) (bp_timebase_freq p) (bp_uart_base p) (bp_uart_clock p) (bp_isa p) (bp_cpu_count p) v.

(** The loop of [add_reserved]: [size] is [end - addr] once something was merged.  Each
    turn advances [i] or shortens the list, so [fuel] is the number of entries. *)
Fixpoint merge_reserved (fuel i : nat) (l : list (N * N)) (addr size end_ : N) : list (N * N) * N * N :=
  match fuel with
  | O => (l, addr, size)
  | S fuel =>
      match l !! i with
      | None => (l, addr, size)
      | Some (r_addr, r_size) =>
          let r_end := saturating_add r_addr r_size in
          if (addr <? r_end) && (r_addr <? end_) then
            let addr := N.min addr r_addr in
            let end_ := N.max end_ r_end in
            merge_reserved fuel i (take (length l - 1) (<[i := default (0, 0) (last l)]> l)) addr (end_ - addr) end_
          else merge_reserved fuel (S i) l addr size end_
      end
  end.
Definition add_reserved (addr size : N) (p : BoardParams) : BoardParams :=
  if (addr =? 0) || (size =? 0) then p
  else
    let '(l, addr, size) :=
      merge_reserved (length (bp_reserved p)) 0 (bp_reserved p) addr size (saturating_add addr size) in
    set_reserved (if vlen l <? 8 then l ++ [(addr, size)] else l) p.

(** ** [Fdt::new] *)

Record Fdt := mkFdt {
  fd_total : N; fd_off_struct : N; fd_off_strings : N; fd_off_rsvmap : N;
  fd_size_struct : N; fd_size_strings : N; fd_addr : N }.

Notation MF := (M ()).

(** [be32] and one byte, at an offset from the start. *)
Definition rd8 (bs : list N) (off : N) : MF N := expect (vget bs off).
Definition be32 (bs : list N) (off : N) : MF N :=
  b0 ← rd8 bs off; b1 ← rd8 bs (off + 1); b2 ← rd8 bs (off + 2); b3 ← rd8 bs (off + 3);
  mret (N.lor (N.lor (N.lor (N.shiftl b0 24) (N.shiftl b1 16)) (N.shiftl b2 8)) b3).

Definition HEADER_SIZE : N := 40.
Definition MAX_PHYS : N := N.shiftl 1 56 - 1.

Definition fdt_new (bs : list N) (fdt : N) : MF (option Fdt) :=
  if (fdt =? 0) || negb (is_multiple_of fdt 8) then mret None
  else if none_or_gt (checked_add fdt HEADER_SIZE) MAX_PHYS then mret None
  else
    magic ← be32 bs 0;
    if negb (magic =? FDT_MAGIC) then mret None
    else
      total ← be32 bs 4;
      off_struct ← be32 bs 8;
      off_strings ← be32 bs 12;
      off_rsvmap ← be32 bs 16;
      size_struct ← be32 bs 36;
      size_strings ← be32 bs 32;
      if (total <? HEADER_SIZE) || (16 * 1024 * 1024 <? total) || none_or_gt (checked_add fdt total) MAX_PHYS
      then mret None
      else if (total <? saturating_add off_struct size_struct) || (total <? saturating_add off_strings size_strings) ||
              none_or_gt (checked_add off_rsvmap 16) total
      then mret None
      else mret (Some (mkFdt total off_struct off_strings off_rsvmap size_struct size_strings fdt)).

(** ** Properties *)

(** [parse_hex]. *)
Definition hex_digit (c : N) : option N :=
  if (48 <=? c) && (c <=? 57) then Some (c - 48)
  else if (97 <=? c) && (c <=? 102) then Some (c - 97 + 10)
  else if (65 <=? c) && (c <=? 70) then Some (c - 65 + 10)
  else None.
Fixpoint hex_loop (s : list N) (val : N) : result N () :=
  match s with
  | [] => Ok val
  | c :: s =>
      match hex_digit c with
      | None => Err tt
      | Some digit =>
          match checked_mul val 16 with
          | None => Err tt
          | Some v => match checked_add v digit with None => Err tt | Some v => hex_loop s v end
          end
      end
  end.
Definition parse_hex (s : list N) : result N () :=
  if (vlen s =? 0) || (16 <? vlen s) then Err tt else hex_loop s 0.

Definition starts_with (pat s : list N) : bool := bool_decide (take (length pat) s = pat).
(** [s.windows(n).any(|w| w == pat)] with [n] the length of [pat]. *)
Fixpoint has_window (pat s : list N) : bool :=
  starts_with pat s || match s with [] => false | _ :: s => has_window pat s end.

(** The bytes from [off] up to a zero, at most [n]. *)
Fixpoint read_until0 (bs : list N) (off : N) (n : nat) : MF (list N) :=
  match n with
  | O => mret []
  | S n => c ← rd8 bs off; if c =? 0 then mret [] else l ← read_until0 bs (off + 1) n; mret (c :: l)
  end.

(** [from_utf8(s).is_ok()]. *)
Definition cont (c : N) : bool := (0x80 <=? c) && (c <=? 0xBF).
Fixpoint utf8 (fuel : nat) (s : list N) : bool :=
  match fuel, s with
  | _, [] => true
  | O, _ => false
  | S fuel, c :: s =>
      if c <? 0x80 then utf8 fuel s
      else if (0xC2 <=? c) && (c <=? 0xDF) then
        match s with c1 :: s => cont c1 && utf8 fuel s | _ => false end
      else if (0xE0 <=? c) && (c <=? 0xEF) then
        match s with
        | c1 :: c2 :: s =>
            cont c1 && cont c2 && negb ((c =? 0xE0) && (c1 <? 0xA0)) && negb ((c =? 0xED) && (0x9F <? c1)) && utf8 fuel s
        | _ => false
        end
      else if (0xF0 <=? c) && (c <=? 0xF4) then
        match s with
        | c1 :: c2 :: c3 :: s =>
            cont c1 && cont c2 && cont c3 && negb ((c =? 0xF0) && (c1 <? 0x90)) && negb ((c =? 0xF4) && (0x8F <? c1)) && utf8 fuel s
        | _ => false
        end
      else false
  end.
Definition is_utf8 (s : list N) : bool := utf8 (length s) s.

Definition read_string (bs : list N) (f : Fdt) (offset : N) : MF (option (list N)) :=
  if fd_size_strings f <=? offset then mret None
  else
    s ← read_until0 bs (fd_off_strings f + offset) (N.to_nat (fd_size_strings f - offset));
    mret (if (vlen s =? 0) || negb (is_utf8 s) then None else Some s).

(** A node called [name], with or without a unit address. *)
Definition named (name : string) (node : list N) : bool :=
  bool_decide (node = str name) || starts_with (str name ++ str "@") node.
Arguments named _%_string _.
Definition is_uart (node : list N) : bool := named "uart" node || named "serial" node.

Definition two_cells (bs : list N) (off : N) : MF N :=
  hi ← be32 bs off; lo ← be32 bs (off + 4); mret (N.lor (N.shiftl hi 32) lo).

Definition prop_memory_reg (bs : list N) (val prop_len : N) (p : BoardParams) : MF BoardParams :=
  if 16 <=? prop_len then
    a ← two_cells bs val; z ← two_cells bs (val + 8); mret (set_ram_area a z p)
  else if 8 <=? prop_len then
    a ← be32 bs val; z ← be32 bs (val + 4); mret (set_ram_area a z p)
  else mret p.

Definition prop_compatible (bs : list N) (node : list N) (val prop_len : N) (p : BoardParams) : MF BoardParams :=
  if is_uart node && (bp_uart_base p =? 0) then
    assert_ (val + prop_len <=? vlen bs);;
    let compat := take (N.to_nat prop_len) (drop (N.to_nat val) bs) in
    if has_window (str "ns16550") compat || has_window (str "ns16550a") compat then
      match list_find (.= 64) node with
      | Some (at_pos, _) =>
          match parse_hex (drop (S at_pos) node) with
          | Ok addr => mret (set_uart_base addr p)
          | Err _ => mret p
          end
      | None => mret p
      end
    else mret p
  else mret p.

Definition prop_uart_reg (bs : list N) (val prop_len : N) (p : BoardParams) : MF BoardParams :=
  if 8 <=? prop_len then
    addr ← two_cells bs val; mret (if negb (addr =? 0) then set_uart_base addr p else p)
  else if 4 <=? prop_len then
    addr ← be32 bs val; mret (if negb (addr =? 0) then set_uart_base addr p else p)
  else mret p.

Definition prop_isa (bs : list N) (val prop_len : N) (p : BoardParams) : MF BoardParams :=
  let p := set_cpu_count (saturating_add (bp_cpu_count p) 1) p in
  if negb (vlen (bp_isa p) =? 0) then mret p
  else if (0 <? prop_len) && (prop_len <? 128) then
    s ← read_until0 bs val (N.to_nat prop_len);
    mret (if (0 <? vlen s) && is_utf8 s then set_isa s p else p)
  else mret p.

(** [handle_prop]: the arms in their order, a guard that fails passing to the next. *)
Definition handle_prop (bs : list N) (f : Fdt) (node : list N) (name_off val prop_len : N) (p : BoardParams) : MF BoardParams :=
  name ← read_string bs f name_off;
  match name with
  | None => mret p
  | Some name =>
      let nm s := bool_decide (name = s) in
      if nm (str "reg") && named "memory" node then prop_memory_reg bs val prop_len p
      else if nm (str "timebase-frequency") && named "cpus" node then
        if 4 <=? prop_len then v ← be32 bs val; mret (set_timebase v p) else mret p
      else if nm (str "clock-frequency") && is_uart node && (bp_uart_clock p =? 0) then
        if 4 <=? prop_len then v ← be32 bs val; mret (set_uart_clock v p) else mret p
      else if nm (str "compatible") then prop_compatible bs node val prop_len p
      else if nm (str "reg") && is_uart node && (bp_uart_base p =? 0) then prop_uart_reg bs val prop_len p
      else if nm (str "riscv,isa") && starts_with (str "cpu@") node then prop_isa bs val prop_len p
      else mret p
  end.

(** ** [Fdt::parse] *)

(** The reserve map: [fuel] turns of 16 bytes each. *)
Fixpoint read_rsvmap (fuel : nat) (bs : list N) (total off : N) (p : BoardParams) : MF BoardParams :=
  match fuel with
  | O => timeout
  | S fuel =>
      if none_or_gt (checked_add off 16) total then mret p
      else
        addr ← two_cells bs off; size ← two_cells bs (off + 8);
        if (addr =? 0) && (size =? 0) then mret p
        else read_rsvmap fuel bs total (off + 16) (add_reserved addr size p)
  end.

(** The variables of the loop over the structure block: the position, the name of the
    current node, the names saved for its ancestors, the depth and whether it is too
    deep for the names to be kept. *)
Record Walk := mkWalk {
  w_pos : N; w_node : list N; w_stack : list (list N); w_depth : N; w_exceeded : bool; w_params : BoardParams }.

(** At most [n] bytes of a name; the position is left at the byte that ends it. *)
Fixpoint read_name (n : nat) (bs : list N) (pos end_ : N) : MF (list N * N) :=
  match n with
  | O => mret ([], pos)
  | S n =>
      if pos <? end_ then
        c ← rd8 bs pos;
        if c =? 0 then mret ([], pos) else r ← read_name n bs (pos + 1) end_; mret (c :: r.1, r.2)
      else mret ([], pos)
  end.
Fixpoint skip_name (fuel : nat) (bs : list N) (pos end_ : N) : MF N :=
  match fuel with
  | O => mret pos
  | S fuel =>
      if pos <? end_ then c ← rd8 bs pos; if c =? 0 then mret (pos + 1) else skip_name fuel bs (pos + 1) end_
      else mret pos
  end.
Definition align4 (x : N) : N := N.ldiff (x + 3) 3.

Definition begin_node (bs : list N) (end_ : N) (w : Walk) : MF Walk :=
  let stack := if w_depth w <? vlen (w_stack w) then vset (w_stack w) (w_depth w) (w_node w) else w_stack w in
  depth ← add_ (w_depth w) 1;
  let exceeded := if vlen (w_stack w) <? depth then true else w_exceeded w in
  r ← read_name 63 bs (w_pos w) end_;
  let '(name, pos) := r in
  pos ← (if 63 <=? vlen name then skip_name (N.to_nat (end_ - pos)) bs pos end_ else mret (pos + 1));
  mret (mkWalk (align4 pos) name stack depth exceeded (w_params w)).

Definition end_node (w : Walk) : Walk :=
  let depth := w_depth w - 1 in
  let node := if depth <? vlen (w_stack w) then default [] (vget (w_stack w) depth) else w_node w in
  mkWalk (w_pos w) node (w_stack w) depth (vlen (w_stack w) <? depth) (w_params w).

(** [None] is [break]. *)
Definition prop_node (bs : list N) (f : Fdt) (end_ : N) (w : Walk) : MF (option Walk) :=
  if end_ <? w_pos w + 8 then mret None
  else
    let val := w_pos w + 8 in
    if negb (w_exceeded w) then
      prop_len ← be32 bs (w_pos w);
      name_off ← be32 bs (w_pos w + 4);
      let padded := align4 prop_len in
      if none_or_gt (checked_add val padded) end_ then mret None
      else
        p ← handle_prop bs f (w_node w) name_off val prop_len (w_params w);
        mret (Some (mkWalk (val + padded) (w_node w) (w_stack w) (w_depth w) (w_exceeded w) p))
    else
      prop_len ← be32 bs (w_pos w);
      let padded := align4 prop_len in
      if none_or_gt (checked_add val padded) end_ then mret None
      else mret (Some (mkWalk (val + padded) (w_node w) (w_stack w) (w_depth w) (w_exceeded w) (w_params w))).

Fixpoint walk_struct (fuel : nat) (bs : list N) (f : Fdt) (end_ : N) (w : Walk) : MF BoardParams :=
  match fuel with
  | O => timeout
  | S fuel =>
      if w_pos w + 4 <=? end_ then
        token ← be32 bs (w_pos w);
        let w := mkWalk (w_pos w + 4) (w_node w) (w_stack w) (w_depth w) (w_exceeded w) (w_params w) in
        if token =? FDT_BEGIN_NODE then w ← begin_node bs end_ w; walk_struct fuel bs f end_ w
        else if token =? FDT_END_NODE then walk_struct fuel bs f end_ (end_node w)
        else if token =? FDT_PROP then
          o ← prop_node bs f end_ w;
          match o with Some w => walk_struct fuel bs f end_ w | None => mret (w_params w) end
        else if token =? FDT_NOP then walk_struct fuel bs f end_ w
        else mret (w_params w)
      else mret (w_params w)
  end.

Definition fdt_parse (bs : list N) (f : Fdt) : MF BoardParams :=
  let p := add_reserved (fd_addr f) (fd_total f) params0 in
  p ← read_rsvmap (S (N.to_nat (fd_total f / 16))) bs (fd_total f) (fd_off_rsvmap f) p;
  let end_ := N.min (saturating_add (fd_off_struct f) (fd_size_struct f)) (fd_total f) in
  walk_struct (S (N.to_nat (fd_total f / 4))) bs f end_
    (mkWalk (fd_off_struct f) [] (replicate 8 []) 0 false p).

(** ** The board *)

Definition DEFAULT_RAM_START : N := 0x80000000.
Definition DEFAULT_RAM_SIZE : N := 128 * 1024 * 1024.
Definition DEFAULT_UART_BASE : N := 0x10000000.
Definition DEFAULT_UART_CLOCK : N := 3686400.
Definition DEFAULT_TIMER_FREQ : N := 10000000.
Definition SUPER_PAGE : N := 2 * 1024 * 1024.
Definition KERNEL_LINK_BASE : N := 0x80200000.
Definition SV39_MAX_PHYS : N := N.shiftl 1 39.

(** The atomics of board.rs. *)
Record Board := mkBoard {
  bd_ram_start : N; bd_ram_size : N; bd_uart_base : N; bd_uart_clock : N; bd_timer_freq : N; bd_cpu_count : N }.
Definition board0 : Board := mkBoard 0 0 0 0 0 0.

(** [init_from_fdt], with the linker's [_kernel_start] and [_kernel_end]. *)
Definition init_from_fdt (kernel_start kernel_end : N) (p : BoardParams) : M Board () :=
  assert_ (kernel_start =? KERNEL_LINK_BASE);;
  let cand_start := if negb (bp_ram_start p =? 0) && is_multiple_of (bp_ram_start p) SUPER_PAGE
                    then bp_ram_start p else DEFAULT_RAM_START in
  let cand_size := if (1024 * 1024 <=? bp_ram_size p) && (bp_ram_size p <=? MAX_PAGES * 4096) &&
                      is_multiple_of (bp_ram_size p) SUPER_PAGE
                   then bp_ram_size p else DEFAULT_RAM_SIZE in
  let cand_end := saturating_add cand_start cand_size in
  let ram_valid := (DEFAULT_RAM_START <=? cand_start) && is_multiple_of cand_end SUPER_PAGE &&
    (cand_end <=? SV39_MAX_PHYS) && (cand_start <=? KERNEL_LINK_BASE) && (kernel_end <? cand_end) in
  let ram_start := if ram_valid then cand_start else DEFAULT_RAM_START in
  let ram_size := if ram_valid then cand_size else DEFAULT_RAM_SIZE in
  let ram_end := saturating_add ram_start ram_size in
  let uart_base := if negb (bp_uart_base p =? 0) && is_multiple_of (bp_uart_base p) 4 &&
                      ((bp_uart_base p <? ram_start) || (ram_end <=? bp_uart_base p))
                   then bp_uart_base p else DEFAULT_UART_BASE in
  let timer_freq := if (1000 <=? bp_timebase_freq p) && (bp_timebase_freq p <=? 1000000000)
                    then bp_timebase_freq p else DEFAULT_TIMER_FREQ in
  let uart_clock := if (1000000 <=? bp_uart_clock p) && (bp_uart_clock p <=? 100000000)
                    then bp_uart_clock p else DEFAULT_UART_CLOCK in
  let cpu_count := if 1 <=? bp_cpu_count p then bp_cpu_count p else 1 in
  put (mkBoard ram_start ram_size uart_base uart_clock timer_freq cpu_count).

(** The accessors. *)
Definition or_default (v d : N) : N := if negb (v =? 0) then v else d.
Definition ram_start (b : Board) : N := or_default (bd_ram_start b) DEFAULT_RAM_START.
Definition ram_size (b : Board) : N := or_default (bd_ram_size b) DEFAULT_RAM_SIZE.
Definition ram_end {S} (b : Board) : M S N := add_ (ram_start b) (ram_size b).
Definition uart_base (b : Board) : N := or_default (bd_uart_base b) DEFAULT_UART_BASE.
Definition uart_clock (b : Board) : N := or_default (bd_uart_clock b) DEFAULT_UART_CLOCK.
Definition timer_freq (b : Board) : N := or_default (bd_timer_freq b) DEFAULT_TIMER_FREQ.
Definition timer_interval (b : Board) : N := timer_freq b / 100.
Definition cpu_count (b : Board) : N := or_default (bd_cpu_count b) 1.

(** ** [mem::init] *)

(** One turn of the loop over the reserved areas: the page range it stands for. *)
Definition reserved_pages (base ram_end count : N) (r : N * N) : option (N * N) :=
  let '(r_addr, r_size) := r in
  if r_size =? 0 then None
  else
    let r_start := r_addr / PAGE_SIZE * PAGE_SIZE in
    let r_end := N.min (default ram_end (checked_add r_addr r_size)) ram_end in
    let r_end := default ram_end (checked_mul (div_ceil r_end PAGE_SIZE) PAGE_SIZE) in
    if (r_end <=? base) || (ram_end <=? r_start) then None
    else
      let idx_start := (r_start - base) / PAGE_SIZE in
      let idx_end := div_ceil (r_end - base) PAGE_SIZE in
      if idx_start <? idx_end then Some (N.min idx_start count, N.min idx_end count) else None.

Definition mem_init (b : Board) (alloc_start : N) (p : BoardParams) : M PMem () :=
  let max_block := bsize MAX_ORDER * PAGE_SIZE in
  base ← mul_ (div_ceil alloc_start max_block) max_block;
  ram_end ← ram_end b;
  if ram_end <=? base then panic
  else
    let count := (ram_end - base) / PAGE_SIZE in
    assert_ (count <=? MAX_PAGES);;
    buddy_init base count (omap (reserved_pages base ram_end count) (take 8 (bp_reserved p))).

(** ** The boot sequence *)

(** [kernel_main] from the pointer to the parameters: no device tree is no parameters. *)
Definition boot_params (bs : list N) (fdt : N) : MF BoardParams :=
  o ← fdt_new bs fdt;
  match o with Some f => fdt_parse bs f | None => mret params0 end.

(** [cpu::init_from_fdt]: whether the timer may be programmed directly. *)
Definition detect_from_fdt (p : BoardParams) : option (list N) :=
  if vlen (bp_isa p) =? 0 then None else Some (bp_isa p).
Definition cpu_init_from_fdt (p : BoardParams) : bool :=
  match detect_from_fdt p with Some isa => has_window (str "sstc") isa | None => false end.
