(* ===== verification/FdtSafe.v ===== *)
(** * The device tree parser is safe on any bytes: kernel/src/fdt.rs

    The reserved areas first: [add_reserved] keeps them pairwise disjoint and never gives
    up an address it has covered.  Then every read of [Fdt::new] and [Fdt::parse] is
    shown to be inside the blob, and every loop to end. *)

From Stdlib Require Import ZifyN ZifyNat.
From stdpp Require Import base gmap numbers functions list.
From S2P Require Import Prelude Mem Pte Fdt.

(** ** Reserved areas *)

Definition r_end (r : N * N) : N := saturating_add r.1 r.2.
Definition in_area (x : N) (r : N * N) : Prop := r.1 ≤ x < r_end r.
Definition covered (l : list (N * N)) (x : N) : Prop := ∃ r, r ∈ l ∧ in_area x r.
Definition apart (r q : N * N) : Prop := ¬ (r.1 < r_end q ∧ q.1 < r_end r).

Fixpoint pairwise {A} (R : A → A → Prop) (l : list A) : Prop :=
  match l with [] => True | x :: l => Forall (R x) l ∧ pairwise R l end.

(** Areas that fit: a start below the top of the address space, no two overlapping. *)
Record areas_ok (l : list (N * N)) : Prop := {
  ao_start : Forall (λ r, r.1 ≤ USIZE_MAX) l;
  ao_apart : pairwise apart l }.

Lemma apart_sym r q : apart r q → apart q r.
Proof. unfold apart. tauto. Qed.

#[export] Instance pairwise_perm {A} (R : A → A → Prop) `{!Symmetric R} :
  Proper ((≡ₚ) ==> iff) (pairwise R).
Proof.
  assert (∀ l k, l ≡ₚ k → pairwise R l → pairwise R k) as Himp.
  { induction 1 as [|x l k Hlk IH|x y l|l1 l2 l3 _ IH1 _ IH2]; simpl; auto.
    - intros [Hx Hl]. split; [by rewrite <-Hlk|auto].
    - rewrite !Forall_cons. intros ((Hyx & Hy) & Hx & Hl). auto. }
  intros l k Hlk. split; apply Himp; [done|by symmetry].
Qed.

#[export] Instance apart_symmetric : Symmetric apart.
Proof. intros r q. apply apart_sym. Qed.

#[export] Instance areas_ok_perm : Proper ((≡ₚ) ==> iff) areas_ok.
Proof.
  assert (∀ l k, l ≡ₚ k → areas_ok l → areas_ok k) as Himp.
  { intros l k Hlk [H1 H2]. split; [by rewrite <-Hlk|by rewrite <-Hlk]. }
  intros l k Hlk. split; apply Himp; [done|by symmetry].
Qed.

Lemma areas_ok_cons r l :
  areas_ok (r :: l) ↔ r.1 ≤ USIZE_MAX ∧ Forall (apart r) l ∧ areas_ok l.
Proof.
  split.
  - intros [H1 H2]. apply Forall_cons in H1 as [??]. destruct H2. by repeat split.
  - intros (? & ? & [? ?]). by repeat split; [constructor|..].
Qed.

Lemma covered_cons r l x : covered (r :: l) x ↔ in_area x r ∨ covered l x.
Proof.
  unfold covered. split.
  - intros (q & [->|Hq]%elem_of_cons & H); eauto.
  - intros [H|(q & Hq & H)]; [exists r|exists q]; rewrite elem_of_cons; auto.
Qed.

Lemma covered_perm l k x : l ≡ₚ k → covered l x → covered k x.
Proof. intros Hlk (r & Hr & H). exists r. by rewrite <-Hlk. Qed.

(** The entry that was merged is replaced by the last one. *)
Definition swap_out (i : nat) (l : list (N * N)) : list (N * N) :=
  take (length l - 1) (<[i := default (0, 0) (last l)]> l).

Lemma swap_out_perm i l r : l !! i = Some r → r :: swap_out i l ≡ₚ l.
Proof.
  intros Hi. destruct (decide (l = [])) as [->|Hne]; [done|].
  destruct (exists_last Hne) as (k & z & ->).
  unfold swap_out. rewrite last_snoc, length_app. simpl default. simpl length.
  replace (length k + 1 - 1)%nat with (length k) by lia.
  destruct (decide (i < length k)%nat) as [Hlt|Hge].
  - rewrite insert_app_l by done. rewrite take_app_le by (rewrite length_insert; lia).
    rewrite take_ge by (rewrite length_insert; lia). rewrite lookup_app_l in Hi by done.
    rewrite (Permutation_app_comm k [z]). simpl.
    pose proof (delete_Permutation k i r Hi) as Hd.
    assert (<[i:=z]> k ≡ₚ z :: delete i k) as ->; [|transitivity (z :: r :: delete i k); [constructor|by constructor]].
    rewrite insert_take_drop, delete_take_drop by done. by rewrite Permutation_middle.
  - assert (i = length k) as ->.
    { apply lookup_lt_Some in Hi. rewrite length_app in Hi. simpl in Hi. lia. }
    rewrite lookup_app_r, Nat.sub_diag in Hi by lia. simplify_eq/=.
    rewrite insert_app_r_alt, Nat.sub_diag by lia. simpl. rewrite take_app_length.
    by rewrite Permutation_app_comm.
Qed.

Lemma swap_out_before i j l : (j < i < length l)%nat → swap_out i l !! j = l !! j.
Proof.
  intros Hj. unfold swap_out. rewrite lookup_take_lt by lia. by apply list_lookup_insert_ne; lia.
Qed.

Lemma swap_out_length i l : (i < length l)%nat → S (length (swap_out i l)) = length l.
Proof. intros Hi. unfold swap_out. rewrite length_take, length_insert. lia. Qed.

(** What the loop of [add_reserved] leaves: the entries apart from the area under way,
    which has absorbed the others; nothing is given up. *)
Lemma merge_reserved_spec fuel i l addr size end_ :
  areas_ok l → addr ≤ USIZE_MAX → end_ = saturating_add addr size →
  (length l - i ≤ fuel)%nat → (∀ j r, (j < i)%nat → l !! j = Some r → apart (addr, size) r) →
  ∃ l' a z, merge_reserved fuel i l addr size end_ = (l', a, z) ∧
    areas_ok ((a, z) :: l') ∧
    (∀ x, in_area x (addr, size) ∨ covered l x → covered ((a, z) :: l') x) ∧
    (length l' ≤ length l)%nat ∧ (length l' = length l → l' = l).
Proof.
  revert i l addr size end_. induction fuel as [|fuel IH]; intros i l addr size end_ Hl Ha He Hf Hb; simpl.
  - exists l, addr, size. split; [done|]. split; [|split; [by intros; rewrite covered_cons|done]].
    apply areas_ok_cons. split; [done|]. split; [|done].
    apply Forall_lookup. intros j r Hj. apply (Hb j); [|done]. apply lookup_lt_Some in Hj. lia.
  - destruct (l !! i) as [[ra rz]|] eqn:Hi.
    2:{ apply lookup_ge_None in Hi. exists l, addr, size.
        split; [done|]. split; [|split; [by intros; rewrite covered_cons|done]].
        apply areas_ok_cons. split; [done|]. split; [|done].
        apply Forall_lookup. intros j r Hj. apply (Hb j); [|done]. apply lookup_lt_Some in Hj. lia. }
    pose proof (lookup_lt_Some _ _ _ Hi) as Hlt.
    destruct ((addr <? saturating_add ra rz) && (ra <? end_)) eqn:Hov.
    + apply andb_true_iff in Hov as [H1%N.ltb_lt H2%N.ltb_lt]. fold (swap_out i l).
      pose proof (swap_out_perm i l (ra, rz) Hi) as Hp.
      pose proof Hl as Hl2. rewrite <-Hp in Hl2. apply areas_ok_cons in Hl2 as (Hra & Hrap & Hok).
      assert (Heq : saturating_add (N.min addr ra) (N.max end_ (saturating_add ra rz) - N.min addr ra) =
                    N.max end_ (saturating_add ra rz)).
      { unfold saturating_add in *. lia. }
      destruct (IH i (swap_out i l) (N.min addr ra) (N.max end_ (saturating_add ra rz) - N.min addr ra)
                  (N.max end_ (saturating_add ra rz))) as (l' & a & z & E & Hok' & Hc & Hlen & Heq'); [done| |done| | |].
      * lia.
      * pose proof (swap_out_length i l Hlt). lia.
      * intros j r Hj Hr. pose proof Hr as Hr'. rewrite swap_out_before in Hr by lia. specialize (Hb j r Hj Hr).
        assert (Hrr : r.1 ≤ r_end r).
        { pose proof (ao_start _ Hl) as Hs. rewrite Forall_lookup in Hs. specialize (Hs _ _ Hr).
          unfold r_end, saturating_add. lia. }
        rewrite Forall_lookup in Hrap. specialize (Hrap _ _ Hr'). clear -Hb Hrap H1 H2 He Heq Hrr.
        unfold apart, r_end in *. simpl in *. rewrite Heq. subst end_. lia.
      * rewrite E. exists l', a, z. split; [done|]. split; [done|].
        split; [|pose proof (swap_out_length i l Hlt); split; [lia|intros; lia]].
        intros x Hx. apply Hc. clear Hc E IH Hb.
        assert (in_area x (addr, size) ∨ in_area x (ra, rz) ∨ covered (swap_out i l) x) as [H|[H|H]].
        { destruct Hx as [H|H]; [by left|right]. apply covered_cons. by apply (covered_perm l). }
        all: unfold in_area, r_end in *; simpl in *; rewrite ?Heq; first [by right|left; lia].
    + destruct (IH (S i) l addr size end_) as (l' & a & z & E & H); [done|done|done|lia| |by eauto 10].
      intros j r Hj Hr. destruct (decide (j = i)) as [->|]; [|apply (Hb j); [lia|done]].
      rewrite Hi in Hr. simplify_eq. unfold apart, r_end. simpl. apply andb_false_iff in Hov.
      rewrite !N.ltb_ge in Hov. lia.
Qed.

Record reserved_ok (p : BoardParams) : Prop := {
  ro_areas : areas_ok (bp_reserved p);
  ro_len : (length (bp_reserved p) ≤ 8)%nat }.

(** [add_reserved] keeps the list, everything covered stays so, and the new area is
    covered unless eight others are in use. *)
Lemma add_reserved_spec addr size p :
  reserved_ok p → addr ≤ USIZE_MAX →
  reserved_ok (add_reserved addr size p) ∧
  (∀ x, covered (bp_reserved p) x → covered (bp_reserved (add_reserved addr size p)) x) ∧
  (addr ≠ 0 → (length (bp_reserved p) < 8)%nat →
   ∀ x, in_area x (addr, size) → covered (bp_reserved (add_reserved addr size p)) x).
Proof.
  intros [Hok Hlen] Ha. unfold add_reserved.
  destruct ((addr =? 0) || (size =? 0)) eqn:H0.
  { split; [done|]. split; [done|]. intros ? _ x Hx. exfalso. unfold in_area, r_end, saturating_add in Hx.
    simpl in Hx. apply orb_true_iff in H0 as [H0%N.eqb_eq|H0%N.eqb_eq]; lia. }
  destruct (merge_reserved_spec (length (bp_reserved p)) 0 (bp_reserved p) addr size
              (saturating_add addr size)) as (l & a & z & -> & Hl & Hc & Hle & Heq); [done|done|done|lia|lia|].
  assert ((a, z) :: l ≡ₚ l ++ [(a, z)]) as Hp by (by rewrite Permutation_app_comm).
  unfold vlen. simpl. case_match eqn:H8.
  - bool_to_prop. split; [|split].
    + split; simpl; [by rewrite <-Hp|]. rewrite length_app. simpl. lia.
    + intros x Hx. apply (covered_perm _ _ _ Hp), Hc. by right.
    + intros _ _ x Hx. apply (covered_perm _ _ _ Hp), Hc. by left.
  - bool_to_prop. rewrite Heq in * by lia. split; [done|]. split; [done|]. intros. lia.
Qed.

(** ** Reads *)

(** [m] returns, with a result in [Q]. *)
Definition yields {A} (m : MF A) (Q : A → Prop) : Prop := ∃ a, m tt = Ret (a, tt) ∧ Q a.

Lemma yields_ret {A} (a : A) (Q : A → Prop) : Q a → yields (mret a) Q.
Proof. by exists a. Qed.

Lemma yields_bind {A B} (m : MF A) (k : A → MF B) (Q : A → Prop) (R : B → Prop) :
  yields m Q → (∀ a, Q a → yields (k a) R) → yields (m ≫= k) R.
Proof.
  intros (a & E & Ha) Hk. destruct (Hk a Ha) as (b & Eb & Hb).
  exists b. by rewrite (bind_ret _ _ _ _ _ E).
Qed.

Lemma yields_mono {A} (m : MF A) (Q R : A → Prop) : yields m Q → (∀ a, Q a → R a) → yields m R.
Proof. intros (a & E & Ha) H. exists a. auto. Qed.

Lemma yields_if {A} (b : bool) (m1 m2 : MF A) (Q : A → Prop) :
  (b = true → yields m1 Q) → (b = false → yields m2 Q) → yields (if b then m1 else m2) Q.
Proof. destruct b; auto. Qed.

Section reads.
Context (bs : list N) (Hbytes : Forall (λ b, b < 256) bs).

Lemma rd8_yields off : off < vlen bs → yields (rd8 bs off) (λ c, c < 256).
Proof.
  intros Ho. destruct (vget_lt_Some bs off Ho) as [c Hc]. exists c. unfold rd8. rewrite Hc. split; [done|].
  rewrite vget_lookup in Hc. by apply (proj1 (Forall_lookup _ _) Hbytes _ _ Hc).
Qed.

Lemma shiftl_small b k n : b < 2 ^ k → N.shiftl b n < 2 ^ (k + n).
Proof.
  intros Hb. rewrite N.shiftl_mul_pow2, N.pow_add_r. apply N.mul_lt_mono_pos_r; [|done]. lia.
Qed.

Lemma be32_yields off : off + 4 ≤ vlen bs → yields (be32 bs off) (λ v, v < 2 ^ 32).
Proof.
  intros Ho. unfold be32.
  do 4 (eapply yields_bind; [apply rd8_yields; lia|]; intros ? ?). apply yields_ret.
  repeat apply lor_small.
  - by apply (shiftl_small _ 8 24).
  - etransitivity; [by apply (shiftl_small _ 8 16)|done].
  - etransitivity; [by apply (shiftl_small _ 8 8)|done].
  - by apply (N.lt_trans _ 256).
Qed.

Lemma be32_usize off : off + 4 ≤ vlen bs → yields (be32 bs off) (λ v, v ≤ USIZE_MAX).
Proof.
  intros Ho. eapply yields_mono; [by apply be32_yields|]. intros v Hv.
  apply N.lt_le_incl. by apply (N.lt_trans _ (2 ^ 32)).
Qed.

Lemma two_cells_yields off : off + 8 ≤ vlen bs → yields (two_cells bs off) (λ v, v ≤ USIZE_MAX).
Proof.
  intros Ho. unfold two_cells.
  eapply yields_bind; [apply be32_yields; lia|]; intros hi Hhi.
  eapply yields_bind; [apply be32_yields; lia|]; intros lo Hlo. apply yields_ret.
  assert (N.lor (N.shiftl hi 32) lo < 2 ^ 64); [|unfold USIZE_MAX; lia].
  apply lor_small; [by apply (shiftl_small _ 32 32)|by apply (N.lt_trans _ (2 ^ 32))].
Qed.

Lemma read_until0_yields n off : off + N.of_nat n ≤ vlen bs → yields (read_until0 bs off n) (λ _, True).
Proof.
  revert off. induction n as [|n IH]; intros off Ho; simpl; [by apply yields_ret|].
  eapply yields_bind; [apply rd8_yields; lia|]; intros c Hc. case_match; [by apply yields_ret|].
  eapply yields_bind; [apply IH; lia|]. intros. by apply yields_ret.
Qed.

Lemma read_name_yields n pos end_ :
  end_ ≤ vlen bs → yields (read_name n bs pos end_) (λ r, pos ≤ r.2).
Proof.
  intros He. revert pos. induction n as [|n IH]; intros pos; simpl; [by apply yields_ret|].
  apply yields_if; intros Hlt; bool_to_prop; [|by apply yields_ret].
  eapply yields_bind; [apply rd8_yields; lia|]; intros c Hc. case_match; [by apply yields_ret|].
  eapply yields_bind; [apply IH|]. simpl. intros r Hr. apply yields_ret. simpl. lia.
Qed.

Lemma skip_name_yields n pos end_ :
  end_ ≤ vlen bs → yields (skip_name n bs pos end_) (λ q, pos ≤ q).
Proof.
  intros He. revert pos. induction n as [|n IH]; intros pos; simpl; [by apply yields_ret|].
  apply yields_if; intros Hlt; bool_to_prop; [|by apply yields_ret].
  eapply yields_bind; [apply rd8_yields; lia|]; intros c Hc. case_match; [apply yields_ret; lia|].
  eapply yields_mono; [apply IH|]. simpl. lia.
Qed.

(** ** Properties *)

(** The header's blocks lie inside the bytes. *)
Record fits (f : Fdt) : Prop := {
  ft_total : fd_total f ≤ vlen bs;
  ft_max : fd_total f ≤ 16 * 1024 * 1024;
  ft_struct : fd_off_struct f + fd_size_struct f ≤ fd_total f;
  ft_strings : fd_off_strings f + fd_size_strings f ≤ fd_total f;
  ft_addr : fd_addr f ≠ 0 ∧ fd_addr f + fd_total f ≤ MAX_PHYS }.

Lemma read_string_yields f off : fits f → yields (read_string bs f off) (λ _, True).
Proof.
  intros [Ht _ _ Hs _]. unfold read_string. apply yields_if; intros Hlt; bool_to_prop; [by apply yields_ret|].
  eapply yields_bind; [apply read_until0_yields; lia|]. intros. by apply yields_ret.
Qed.

Lemma hex_loop_le s val v : val ≤ USIZE_MAX → hex_loop s val = Ok v → v ≤ USIZE_MAX.
Proof.
  revert val. induction s as [|c s IH]; intros val Hv; simpl; [by intros [= <-]|].
  destruct (hex_digit c); [|done]. destruct (checked_mul val 16); [|done].
  destruct (checked_add _ _) eqn:E; [|done]. apply checked_add_Some in E as [-> ?]. by apply IH.
Qed.

Lemma parse_hex_le s v : parse_hex s = Ok v → v ≤ USIZE_MAX.
Proof. unfold parse_hex. case_match; [done|]. by apply hex_loop_le. Qed.

(** The parameters are machine integers; [l] is the list of reserved areas. *)
Record params_ok (l : list (N * N)) (p : BoardParams) : Prop := {
  po_ram : bp_ram_start p ≤ USIZE_MAX ∧ bp_ram_size p ≤ USIZE_MAX;
  po_freq : bp_timebase_freq p ≤ USIZE_MAX;
  po_uart : bp_uart_base p ≤ USIZE_MAX ∧ bp_uart_clock p ≤ USIZE_MAX;
  po_cpus : bp_cpu_count p ≤ USIZE_MAX;
  po_reserved : bp_reserved p = l }.

Section one_property.
Context (l : list (N * N)) (val prop_len : N) (Hval : val + prop_len ≤ vlen bs).

Ltac reading := first
  [ apply two_cells_yields; lia
  | apply be32_usize; lia ].

Lemma prop_memory_reg_yields p : params_ok l p → yields (prop_memory_reg bs val prop_len p) (params_ok l).
Proof.
  intros [? ? ? ? ?]. unfold prop_memory_reg.
  repeat (apply yields_if; intros; bool_to_prop); try (by apply yields_ret).
  all: eapply yields_bind; [reading|]; intros a Ha; eapply yields_bind; [reading|]; intros z Hz; by apply yields_ret.
Qed.

Lemma prop_uart_reg_yields p : params_ok l p → yields (prop_uart_reg bs val prop_len p) (params_ok l).
Proof.
  intros [? ? [? ?] ? ?]. unfold prop_uart_reg.
  repeat (apply yields_if; intros; bool_to_prop); try (by apply yields_ret).
  all: eapply yields_bind; [reading|]; intros a Ha; apply yields_ret; by case_match.
Qed.

Lemma prop_compatible_yields node p :
  params_ok l p → yields (prop_compatible bs node val prop_len p) (params_ok l).
Proof.
  intros Hp. unfold prop_compatible. apply yields_if; intros _; [|by apply yields_ret].
  eapply (yields_bind _ _ (λ _, True)).
  { exists tt. unfold assert_. replace (val + prop_len <=? vlen bs) with true; [done|].
    symmetry. by apply N.leb_le. }
  intros _ _. apply yields_if; intros _; [|by apply yields_ret].
  destruct (list_find _ node) as [[at_pos ?]|]; [|by apply yields_ret].
  destruct (parse_hex _) as [addr|] eqn:E; [|by apply yields_ret].
  apply parse_hex_le in E. destruct Hp as [? ? [? ?] ? ?]. by apply yields_ret.
Qed.

Lemma prop_isa_yields p : params_ok l p → yields (prop_isa bs val prop_len p) (params_ok l).
Proof.
  intros [? ? ? Hc ?]. unfold prop_isa.
  assert (params_ok l (set_cpu_count (saturating_add (bp_cpu_count p) 1) p)) as Hp.
  { split; try done. simpl. unfold saturating_add. lia. }
  repeat (apply yields_if; intros; bool_to_prop); try (by apply yields_ret).
  eapply yields_bind; [apply read_until0_yields; lia|]. intros s _. apply yields_ret.
  destruct Hp. by case_match.
Qed.

Lemma handle_prop_yields f node name_off p :
  fits f → params_ok l p → yields (handle_prop bs f node name_off val prop_len p) (params_ok l).
Proof.
  intros Hf Hp. unfold handle_prop. eapply yields_bind; [by apply read_string_yields|]. intros [name|] _; [|by apply yields_ret].
  pose proof Hp as [? ? [? ?] ? ?].
  repeat first [ by apply prop_memory_reg_yields | by apply prop_compatible_yields | by apply prop_uart_reg_yields
               | by apply prop_isa_yields | by apply yields_ret | apply yields_if; intros; bool_to_prop ].
  all: eapply yields_bind; [reading|]; intros a Ha; by apply yields_ret.
Qed.
End one_property.

(** ** The two loops *)

Lemma rsvmap_yields fuel total off p (cov : N → Prop) :
  total ≤ vlen bs → total ≤ USIZE_MAX → total < off + 16 * N.of_nat fuel → fuel ≠ O →
  params_ok (bp_reserved p) p → reserved_ok p → (∀ x, cov x → covered (bp_reserved p) x) →
  yields (read_rsvmap fuel bs total off p)
    (λ q, params_ok (bp_reserved q) q ∧ reserved_ok q ∧ ∀ x, cov x → covered (bp_reserved q) x).
Proof.
  intros Ht Hmax. revert off p. induction fuel as [|fuel IH]; intros off p Hf Hne Hp Hr Hc; simpl; [done|].
  unfold none_or_gt. destruct (checked_add off 16) as [e|] eqn:Ee; [|by apply yields_ret].
  apply checked_add_Some in Ee as [-> Hle].
  apply yields_if; intros Hlt; bool_to_prop; [by apply yields_ret|].
  eapply yields_bind; [apply two_cells_yields; lia|]; intros addr Ha.
  eapply yields_bind; [apply two_cells_yields; lia|]; intros size Hz.
  apply yields_if; intros _; [by apply yields_ret|].
  destruct (add_reserved_spec addr size p Hr Ha) as (Hr' & Hc' & _).
  apply IH; [lia|lia| |done|auto].
  destruct Hp. unfold add_reserved. case_match; [done|]. by destruct (merge_reserved _ _ _ _ _ _) as [[??]?].
Qed.

(** The depth is bounded by the tokens read. *)
Definition walk_ok (l : list (N * N)) (w : Walk) : Prop :=
  length (w_stack w) = 8%nat ∧ 4 * w_depth w ≤ w_pos w ∧ params_ok l (w_params w).

Lemma align4_ge x : x ≤ align4 x.
Proof.
  unfold align4. assert (N.ldiff (x + 3) 3 = (x + 3) / 4 * 4) as ->; [|dlia].
  rewrite (N.ldiff_ones_r _ 2 : N.ldiff (x + 3) 3 = N.shiftl (N.shiftr (x + 3) 2) 2).
  by rewrite N.shiftl_mul_pow2, N.shiftr_div_pow2.
Qed.

Lemma begin_node_yields l end_ w :
  end_ ≤ vlen bs → end_ ≤ 16 * 1024 * 1024 → 4 + 4 * w_depth w ≤ w_pos w → w_pos w ≤ end_ →
  length (w_stack w) = 8%nat → params_ok l (w_params w) →
  yields (begin_node bs end_ w) (λ w', walk_ok l w' ∧ w_pos w ≤ w_pos w').
Proof.
  intros He Hm Hd Hle Hs Hp. unfold begin_node.
  eapply (yields_bind _ _ (λ d, d = w_depth w + 1)).
  { exists (w_depth w + 1). unfold add_. replace (checked_add (w_depth w) 1) with (Some (w_depth w + 1)); [done|].
    symmetry. apply checked_add_Some. split; [done|]. unfold USIZE_MAX. lia. }
  intros d ->. eapply yields_bind; [by apply read_name_yields|]. intros [name pos] Hpos. simpl in Hpos.
  eapply (yields_bind _ _ (λ q, pos ≤ q)).
  { apply yields_if; intros _; [by apply skip_name_yields|apply yields_ret; lia]. }
  intros q Hq. apply yields_ret. pose proof (align4_ge q). unfold walk_ok. simpl. split; [|lia].
  split; [|split; [lia|done]]. case_match; [|done]. unfold vset. case_match; [by rewrite length_insert|done].
Qed.

Lemma prop_node_yields l f end_ w :
  fits f → end_ ≤ vlen bs → walk_ok l w →
  yields (prop_node bs f end_ w)
    (λ o, match o with Some w' => walk_ok l w' ∧ w_pos w ≤ w_pos w' | None => True end).
Proof.
  intros Hf He (Hs & Hd & Hp). unfold prop_node.
  apply yields_if; intros Hlt; bool_to_prop; [by apply yields_ret|].
  assert (∀ n, none_or_gt (checked_add (w_pos w + 8) (align4 n)) end_ = false → w_pos w + 8 + align4 n ≤ end_) as Hfit.
  { intros n. unfold none_or_gt. case_match eqn:E; [|done]. apply checked_add_Some in E as [-> _].
    intros ?. by bool_to_prop. }
  apply yields_if; intros _; (eapply yields_bind; [apply be32_yields; lia|]); intros n Hn.
  - eapply yields_bind; [apply be32_yields; lia|]; intros name_off _.
    apply yields_if; intros H; [by apply yields_ret|]. apply Hfit in H. pose proof (align4_ge n).
    eapply yields_bind; [by apply handle_prop_yields; [lia|..]|]. intros p Hp'. apply yields_ret.
    unfold walk_ok. simpl. split; [|lia]. split; [done|]. split; [lia|done].
  - apply yields_if; intros H; [by apply yields_ret|]. apply Hfit in H.
    apply yields_ret. unfold walk_ok. simpl. split; [|lia]. split; [done|]. split; [lia|done].
Qed.

Lemma walk_struct_yields l f end_ fuel w :
  fits f → end_ ≤ vlen bs → end_ ≤ 16 * 1024 * 1024 → end_ < w_pos w + 4 * N.of_nat fuel → fuel ≠ O →
  walk_ok l w → yields (walk_struct fuel bs f end_ w) (params_ok l).
Proof.
  intros Hf He Hm. revert w. induction fuel as [|fuel IH]; intros w Hfu Hne (Hs & Hd & Hp); [done|].
  cbn [walk_struct]. apply yields_if; intros Hlt; bool_to_prop; [|by apply yields_ret].
  eapply yields_bind; [apply be32_yields; lia|]; intros token _.
  repeat (apply yields_if; intros _); [| | |apply IH; simpl; [lia|lia|by split_and!; simpl; [|lia|]]|by apply yields_ret].
  - eapply yields_bind; [apply (begin_node_yields l); simpl; (done || lia)|]. simpl. intros w' [Hw' Hpos].
    apply IH; [lia|lia|done].
  - apply IH; simpl; [lia|lia|]. split_and!; simpl; [done|lia|done].
  - eapply yields_bind; [apply (prop_node_yields l); [done|done|]|].
    { split_and!; simpl; [done|lia|done]. }
    simpl. intros [w'|]; [|by intros _; apply yields_ret]. intros [Hw' Hpos]. apply IH; [lia|lia|done].
Qed.
End reads.
