(* ===== verification/FdtTree.v ===== *)
(** * The device tree parser reads what a device tree says: kernel/src/fdt.rs

    Device trees as trees, [flatten] as the encoding of the devicetree specification
    (version 17), and [tree_params] as what the kernel takes from a tree.  The parser
    computes [tree_params] on [flatten]: once from bytes to tokens, once from tokens to
    the tree. *)

From Stdlib Require Import ZifyN ZifyNat String Ascii.
From stdpp Require Import base gmap numbers functions list.
From S2P Require Import Prelude Mem Pte Fdt FdtSafe.

(** ** Trees and their meaning *)

Unset Elimination Schemes.
Inductive dt := Node (name : list N) (props : list (list N * list N)) (kids : list dt).
Set Elimination Schemes.

Section dt_induction.
Variable P : dt → Prop.
Hypothesis HP : ∀ name props kids, Forall P kids → P (Node name props kids).
Fixpoint dt_induction (t : dt) : P t :=
  match t with
  | Node name props kids =>
      HP name props kids ((fix go (l : list dt) : Forall P l :=
        match l with [] => Forall_nil_2 P | k :: l => Forall_cons_2 P k l (dt_induction k) (go l) end) kids)
  end.
End dt_induction.

(** A big-endian number. *)
Definition be (l : list N) : N := fold_left (λ a b, a * 256 + b) l 0.
Definition cell (i : nat) (v : list N) : N := be (take 4 (drop (4 * i) v)).
Definition cell2 (i : nat) (v : list N) : N := be (take 8 (drop (4 * i) v)).

(** The bytes before the first zero. *)
Fixpoint text (v : list N) : list N :=
  match v with [] => [] | c :: v => if c =? 0 then [] else c :: text v end.

Definition hex_value (s : list N) : option N :=
  if decide (1 ≤ length s ≤ 16)%nat then (λ l, fold_left (λ a d, a * 16 + d) l 0) <$> mapM hex_digit s else None.
Fixpoint unit_address (node : list N) : option N :=
  match node with [] => None | c :: s => if c =? 64 then hex_value s else unit_address s end.

Definition first_uart (a : option N) (p : BoardParams) : BoardParams :=
  match a with Some a => set_uart_base a p | None => p end.

(** What one property of the node [node] tells the kernel. *)
Definition prop_effect (node name v : list N) (p : BoardParams) : BoardParams :=
  let nm s := bool_decide (name = s) in
  if nm (str "reg") && named "memory" node then
    if 16 <=? vlen v then set_ram_area (cell2 0 v) (cell2 2 v) p
    else if 8 <=? vlen v then set_ram_area (cell 0 v) (cell 1 v) p else p
  else if nm (str "timebase-frequency") && named "cpus" node then
    if 4 <=? vlen v then set_timebase (cell 0 v) p else p
  else if nm (str "clock-frequency") && is_uart node && (bp_uart_clock p =? 0) then
    if 4 <=? vlen v then set_uart_clock (cell 0 v) p else p
  else if nm (str "compatible") && is_uart node && (bp_uart_base p =? 0) then
    if has_window (str "ns16550") v then first_uart (unit_address node) p else p
  else if nm (str "reg") && is_uart node && (bp_uart_base p =? 0) then
    let a := if 8 <=? vlen v then cell2 0 v else if 4 <=? vlen v then cell 0 v else 0 in
    first_uart (if a =? 0 then None else Some a) p
  else if nm (str "riscv,isa") && starts_with (str "cpu@") node then
    let p := set_cpu_count (saturating_add (bp_cpu_count p) 1) p in
    if bool_decide (bp_isa p = []) && (vlen v <? 128) && negb (bool_decide (text v = [])) && is_utf8 (text v)
    then set_isa (text v) p else p
  else p.

(** A tree, its properties before its children. *)
Fixpoint tree_params (t : dt) (p : BoardParams) : BoardParams :=
  match t with
  | Node name props kids =>
      fold_left (λ p k, tree_params k p) kids (fold_left (λ p q, prop_effect name q.1 q.2 p) props p)
  end.

Fixpoint height (t : dt) : nat :=
  match t with Node _ _ kids => S (list_max (map height kids)) end.

(** ** The encoding *)

Inductive token := TBegin (name : list N) | TProp (name v : list N) | TEnd.

Fixpoint tokens (t : dt) : list token :=
  match t with
  | Node name props kids => TBegin name :: map (λ q, TProp q.1 q.2) props ++ flat_map tokens kids ++ [TEnd]
  end.

Definition enc32 (v : N) : list N := [v / 2 ^ 24; v / 2 ^ 16 mod 256; v / 2 ^ 8 mod 256; v mod 256].
Definition enc64 (v : N) : list N := enc32 (v / 2 ^ 32) ++ enc32 (v mod 2 ^ 32).
Definition pad4 (l : list N) : list N := l ++ replicate (N.to_nat ((4 - vlen l mod 4) mod 4)) 0.

(** The names of properties are put one after the other into the strings block. *)
Definition enc_token (soff : N) (k : token) : list N :=
  match k with
  | TBegin name => enc32 FDT_BEGIN_NODE ++ pad4 (name ++ [0])
  | TProp name v => enc32 FDT_PROP ++ enc32 (vlen v) ++ enc32 soff ++ pad4 v
  | TEnd => enc32 FDT_END_NODE
  end.
Definition tok_string (k : token) : list N := match k with TProp name _ => name ++ [0] | _ => [] end.
Fixpoint enc_tokens (soff : N) (l : list token) : list N :=
  match l with
  | [] => enc32 FDT_END
  | k :: l => enc_token soff k ++ enc_tokens (soff + vlen (tok_string k)) l
  end.
Definition enc_rsvmap (rsv : list (N * N)) : list N :=
  flat_map (λ r, enc64 r.1 ++ enc64 r.2) rsv ++ enc64 0 ++ enc64 0.

Definition flatten (rsv : list (N * N)) (t : dt) : list N :=
  let rs := enc_rsvmap rsv in
  let st := enc_tokens 0 (tokens t) in
  let ss := flat_map tok_string (tokens t) in
  let off_struct := 40 + vlen rs in
  let off_strings := off_struct + vlen st in
  enc32 FDT_MAGIC ++ enc32 (off_strings + vlen ss) ++ enc32 off_struct ++ enc32 off_strings ++ enc32 40 ++
  enc32 17 ++ enc32 16 ++ enc32 0 ++ enc32 (vlen ss) ++ enc32 (vlen st) ++ rs ++ st ++ ss.

(** What the specification asks of names and values, and the parser's limits. *)
Definition token_ok (k : token) : Prop :=
  match k with
  | TBegin name => vlen name ≤ 62 ∧ Forall (λ c, 0 < c < 256) name
  | TProp name v => name ≠ [] ∧ Forall (λ c, 0 < c < 256) name ∧ is_utf8 name = true ∧ Forall (λ c, c < 256) v
  | TEnd => True
  end.
Definition area_ok (r : N * N) : Prop := r ≠ (0, 0) ∧ r.1 ≤ USIZE_MAX ∧ r.2 ≤ USIZE_MAX.

(** ** Reading bytes that are known *)

(** [l] stands at [off]. *)
Definition has_at (bs : list N) (off : N) (l : list N) : Prop :=
  ∀ i c, l !! i = Some c → bs !! (N.to_nat off + i)%nat = Some c.

Section known.
Context (bs : list N).

Lemma has_at_app off l k : has_at bs off (l ++ k) ↔ has_at bs off l ∧ has_at bs (off + vlen l) k.
Proof.
  unfold vlen. split.
  - intros H. split; intros i c Hi.
    + apply H. by apply lookup_app_l_Some.
    + replace (N.to_nat (off + N.of_nat (length l)) + i)%nat with (N.to_nat off + (length l + i))%nat by lia.
      apply H. rewrite lookup_app_r by lia. by replace (length l + i - length l)%nat with i by lia.
  - intros [Hl Hk] i c [Hi|[? Hi]]%lookup_app_Some; [by apply Hl|].
    apply Hk in Hi. rewrite <-Hi. f_equal. lia.
Qed.

Lemma has_at_cons off b l : has_at bs off (b :: l) ↔ vget bs off = Some b ∧ has_at bs (off + 1) l.
Proof.
  rewrite (has_at_app off [b] l). apply and_iff_compat_r. rewrite vget_lookup. split.
  - intros H. specialize (H O b eq_refl). by rewrite Nat.add_0_r in H.
  - intros H [|i] c Hi; simplify_eq/=. by rewrite Nat.add_0_r.
Qed.

Lemma has_at_take off n l : has_at bs off l → has_at bs off (take n l).
Proof. intros H. rewrite <-(take_drop n l) in H. by apply has_at_app in H as [H _]. Qed.

Lemma has_at_drop off n l : (n ≤ length l)%nat → has_at bs off l → has_at bs (off + N.of_nat n) (drop n l).
Proof.
  intros Hn H. rewrite <-(take_drop n l) in H. apply has_at_app in H as [_ H].
  unfold vlen in H. rewrite length_take in H. by rewrite Nat.min_l in H by done.
Qed.

Lemma has_at_bound off l : has_at bs off l → l ≠ [] → off + vlen l ≤ vlen bs.
Proof.
  intros H Hne. destruct (exists_last Hne) as (k & z & ->). apply has_at_app in H as [_ H].
  specialize (H O z eq_refl). apply lookup_lt_Some in H. unfold vlen in *. rewrite length_app. simpl. lia.
Qed.

Lemma rd8_at off b l : has_at bs off (b :: l) → rd8 bs off tt = Ret (b, tt).
Proof. intros [H _]%has_at_cons. unfold rd8. by rewrite H. Qed.

(** ** Numbers *)

Lemma lor_add a b n : b < 2 ^ n → N.lor (a * 2 ^ n) b = a * 2 ^ n + b.
Proof.
  intros Hb. rewrite <-N.lxor_lor, <-N.add_nocarry_lxor; [done| |];
    apply N.bits_inj; intros i; rewrite N.land_spec, N.bits_0;
    (destruct (decide (i < n)) as [Hi|Hi];
     [by rewrite N.mul_pow2_bits_low by done
     |rewrite (testbit_above b n) by (done || lia); apply andb_false_r]).
Qed.

Lemma be32_at off l :
  has_at bs off l → length l = 4%nat → Forall (λ c, c < 256) l → be32 bs off tt = Ret (be l, tt).
Proof.
  intros H Hl Hb. destruct l as [|b0 [|b1 [|b2 [|b3 [|]]]]]; try done.
  rewrite !Forall_cons in Hb. destruct Hb as (H0 & H1 & H2 & H3 & _).
  rewrite !has_at_cons in H. destruct H as (E0 & E1 & E2 & E3 & _).
  replace (off + 1 + 1 + 1) with (off + 3) in E3 by lia. replace (off + 1 + 1) with (off + 2) in E2 by lia.
  unfold be32, rd8.
  do 3 (erewrite bind_expect_some by done). erewrite bind_expect_some by exact E3.
  unfold mret, M_ret. do 2 f_equal. rewrite !N.shiftl_mul_pow2.
  rewrite <-(N.lor_assoc (N.lor _ _)), (lor_add b2) by done.
  rewrite <-N.lor_assoc.
  rewrite (lor_add b1) by (change (2 ^ 8) with 256; change (2 ^ 16) with 65536; lia).
  rewrite (lor_add b0) by (change (2 ^ 8) with 256; change (2 ^ 16) with 65536; change (2 ^ 24) with 16777216; lia).
  unfold be. simpl. change (2 ^ 8) with 256; change (2 ^ 16) with 65536; change (2 ^ 24) with 16777216. lia.
Qed.
End known.

Lemma be_app l k : be (l ++ k) = be l * 256 ^ vlen k + be k.
Proof.
  assert (∀ k a, fold_left (λ a b, a * 256 + b) k a = a * 256 ^ vlen k + be k) as Hacc.
  { unfold be. clear. induction k as [|c k IH]; intros a; cbn [fold_left]; [change (vlen []) with 0; lia|].
    rewrite IH, (IH (0 * 256 + c)). replace (vlen (c :: k)) with (vlen k + 1) by (unfold vlen; simpl; lia).
    rewrite N.pow_add_r. lia. }
  unfold be at 1. by rewrite fold_left_app, Hacc.
Qed.

Lemma be_lt l : Forall (λ c, c < 256) l → be l < 256 ^ vlen l.
Proof.
  induction l as [|c l IH] using rev_ind; intros H; [done|]. apply Forall_app in H as [H Hc].
  apply Forall_cons in Hc as [Hc _]. specialize (IH H). rewrite be_app.
  replace (vlen (l ++ [c])) with (vlen l + 1) by (unfold vlen; rewrite length_app; simpl; lia).
  rewrite N.pow_add_r. change (256 ^ 1) with 256. change (256 ^ vlen [c]) with 256.
  change (be [c]) with c. clear -IH Hc. set (x := 256 ^ vlen l) in *. lia.
Qed.

Lemma enc32_bytes v : v < 2 ^ 32 → Forall (λ c, c < 256) (enc32 v).
Proof.
  intros Hv. unfold enc32. change (2 ^ 32) with 4294967296 in Hv.
  repeat constructor; [change (2 ^ 24) with 16777216|..]; [dlia|apply N.mod_lt; lia..].
Qed.

Lemma be_enc32 v : v < 2 ^ 32 → be (enc32 v) = v.
Proof.
  intros Hv. unfold be, enc32. cbn [fold_left]. change (2 ^ 32) with 4294967296 in Hv.
  change (2 ^ 24) with 16777216. change (2 ^ 16) with 65536. change (2 ^ 8) with 256. dlia.
Qed.

Lemma enc64_bytes v : v ≤ USIZE_MAX → Forall (λ c, c < 256) (enc64 v).
Proof.
  intros Hv. unfold USIZE_MAX in Hv. apply Forall_app. split; apply enc32_bytes.
  - change (2 ^ 32) with 4294967296. dlia.
  - by apply N.mod_lt.
Qed.

Lemma be_enc64 v : v ≤ USIZE_MAX → be (enc64 v) = v.
Proof.
  intros Hv. unfold enc64. rewrite be_app, !be_enc32.
  - change (256 ^ vlen (enc32 (v mod 2 ^ 32))) with 4294967296. change (2 ^ 32) with 4294967296. dlia.
  - by apply N.mod_lt.
  - unfold USIZE_MAX in Hv. change (2 ^ 32) with 4294967296. dlia.
Qed.

Section known2.
Context (bs : list N).

Lemma be32_enc off v : has_at bs off (enc32 v) → v < 2 ^ 32 → be32 bs off tt = Ret (v, tt).
Proof. intros H Hv. rewrite (be32_at bs off (enc32 v)), be_enc32 by auto using enc32_bytes. done. Qed.

Lemma two_cells_at off l :
  has_at bs off l → length l = 8%nat → Forall (λ c, c < 256) l → two_cells bs off tt = Ret (be l, tt).
Proof.
  intros H Hl Hb. rewrite <-(take_drop 4 l) in H, Hb. apply has_at_app in H as [H1 H2].
  apply Forall_app in Hb as [B1 B2].
  assert (length (take 4 l) = 4%nat) as L1 by (rewrite length_take; lia).
  assert (length (drop 4 l) = 4%nat) as L2 by (rewrite length_drop; lia).
  unfold vlen in H2. rewrite L1 in H2. unfold two_cells.
  rewrite (bind_ret _ _ _ _ _ (be32_at bs off _ H1 L1 B1)), (bind_ret _ _ _ _ _ (be32_at bs _ _ H2 L2 B2)).
  unfold mret, M_ret. do 2 f_equal. rewrite N.shiftl_mul_pow2, lor_add.
  - rewrite <-(take_drop 4 l) at 3. rewrite be_app. unfold vlen. by rewrite L2.
  - pose proof (be_lt _ B2) as H. unfold vlen in H. by rewrite L2 in H.
Qed.

(** A cell or two of a value. *)
Lemma cell_at off v i :
  has_at bs off v → Forall (λ c, c < 256) v → (4 * i + 4 ≤ length v)%nat →
  be32 bs (off + N.of_nat (4 * i)) tt = Ret (cell i v, tt).
Proof.
  intros H Hb Hi. apply be32_at.
  - apply has_at_take, has_at_drop; [lia|done].
  - rewrite length_take, length_drop. lia.
  - by apply Forall_take, Forall_drop.
Qed.

Lemma cell2_at off v i :
  has_at bs off v → Forall (λ c, c < 256) v → (4 * i + 8 ≤ length v)%nat →
  two_cells bs (off + N.of_nat (4 * i)) tt = Ret (cell2 i v, tt).
Proof.
  intros H Hb Hi. apply two_cells_at.
  - apply has_at_take, has_at_drop; [lia|done].
  - rewrite length_take, length_drop. lia.
  - by apply Forall_take, Forall_drop.
Qed.

(** ** Names and values *)

Lemma read_until0_at off v n :
  has_at bs off v → (n ≤ length v)%nat → read_until0 bs off n tt = Ret (text (take n v), tt).
Proof.
  revert off v. induction n as [|n IH]; intros off v H Hn; [done|]. destruct v as [|c v]; [simpl in Hn; lia|].
  cbn [read_until0 take text]. rewrite (bind_ret _ _ _ _ _ (rd8_at bs off c v H)). case_match; [done|].
  apply has_at_cons in H as [_ H]. simpl in Hn. rewrite (bind_ret _ _ _ _ _ (IH _ _ H ltac:(lia))). done.
Qed.

Lemma text_name name k : Forall (λ c, 0 < c < 256) name → text (name ++ 0 :: k) = name.
Proof.
  induction 1 as [|c name Hc _ IH]; simpl; [done|]. rewrite IH. case_match eqn:E; [|done]. bool_to_prop. lia.
Qed.

Lemma read_until0_name off name n :
  has_at bs off (name ++ [0]) → Forall (λ c, 0 < c < 256) name → (length name < n)%nat →
  read_until0 bs off n tt = Ret (name, tt).
Proof.
  revert off n. induction name as [|c name IH]; intros off n H Hc Hn; (destruct n as [|n]; [simpl in Hn; lia|]);
    cbn [read_until0 app]; rewrite (bind_ret _ _ _ _ _ (rd8_at bs off _ _ H)); [done|].
  apply Forall_cons in Hc as [Hc Hn']. case_match eqn:E; [bool_to_prop; lia|].
  apply has_at_cons in H as [_ H]. simpl in Hn. by rewrite (bind_ret _ _ _ _ _ (IH (off + 1) n H Hn' ltac:(lia))).
Qed.

Lemma read_name_at off name n end_ :
  has_at bs off (name ++ [0]) → Forall (λ c, 0 < c < 256) name → (length name < n)%nat → off + vlen name < end_ →
  read_name n bs off end_ tt = Ret ((name, off + vlen name), tt).
Proof.
  revert off n. induction name as [|c name IH]; intros off n H Hc Hn He; (destruct n as [|n]; [simpl in Hn; lia|]);
    cbn [read_name app]; (replace (off <? end_) with true by (symmetry; apply N.ltb_lt; lia));
    rewrite (bind_ret _ _ _ _ _ (rd8_at bs off _ _ H)).
  { change (vlen []) with 0. by rewrite N.add_0_r. }
  apply Forall_cons in Hc as [Hc Hn']. case_match eqn:E; [bool_to_prop; lia|].
  apply has_at_cons in H as [_ H]. simpl in Hn. unfold vlen in *. simpl in He.
  rewrite (bind_ret _ _ _ _ _ (IH (off + 1) n H Hn' ltac:(lia) ltac:(lia))). unfold mret, M_ret. simpl.
  do 3 f_equal. lia.
Qed.
End known2.

(** [parse_hex] is the value of one to sixteen hexadecimal digits: it cannot overflow. *)
Lemma hex_digit_lt c d : hex_digit c = Some d → d < 16.
Proof. unfold hex_digit. repeat case_match; intros; simplify_eq; bool_to_prop; lia. Qed.

Lemma hex_loop_value s val k :
  val < 16 ^ N.of_nat k → (k + length s ≤ 16)%nat →
  hex_loop s val =
    match mapM hex_digit s with Some l => Ok (fold_left (λ a d, a * 16 + d) l val) | None => Err tt end.
Proof.
  revert val k. induction s as [|c s IH]; intros val k Hv Hk; [done|]. cbn [hex_loop mapM length] in *.
  destruct (hex_digit c) as [d|] eqn:Hd; [|done]. apply hex_digit_lt in Hd.
  assert (val * 16 + d < 16 ^ N.of_nat (S k)) as Hnew.
  { rewrite Nat2N.inj_succ, N.pow_succ_r by lia. lia. }
  assert (val * 16 + d ≤ USIZE_MAX) as Hle.
  { assert (16 ^ N.of_nat (S k) ≤ 16 ^ 16) by (apply N.pow_le_mono_r; lia).
    change (16 ^ 16) with 0x10000000000000000 in *. unfold USIZE_MAX. lia. }
  unfold checked_mul, checked_add, usize_ok.
  rewrite (proj2 (N.leb_le (val * 16) USIZE_MAX)), (proj2 (N.leb_le (val * 16 + d) USIZE_MAX)) by lia.
  rewrite (IH _ (S k)) by (done || lia). unfold mbind, option_bind. by destruct (mapM hex_digit s).
Qed.

Lemma parse_hex_value s :
  parse_hex s = match hex_value s with Some v => Ok v | None => Err tt end.
Proof.
  unfold parse_hex, hex_value. case_decide as Hd.
  - rewrite (proj2 (N.eqb_neq (vlen s) 0)), (proj2 (N.ltb_ge 16 (vlen s))) by (unfold vlen; lia). simpl orb.
    cbv iota. rewrite (hex_loop_value s 0 0) by (done || lia). by destruct (mapM hex_digit s).
  - case_match eqn:E; [done|]. apply orb_false_iff in E as [?%N.eqb_neq ?%N.ltb_ge]. unfold vlen in *. lia.
Qed.

Lemma unit_address_find node :
  unit_address node =
    match list_find (.= 64) node with Some (i, _) => hex_value (drop (S i) node) | None => None end.
Proof.
  induction node as [|c node IH]; [done|]. cbn [unit_address list_find].
  destruct (N.eqb_spec c 64) as [->|Hne]; [by rewrite decide_True|].
  rewrite decide_False, IH by done. by destruct (list_find (.= 64) node) as [[??]|].
Qed.

Lemma starts_with_prefix a b s : starts_with (a ++ b) s = true → starts_with a s = true.
Proof.
  unfold starts_with. rewrite !bool_decide_eq_true. intros H. apply (f_equal (take (length a))) in H.
  rewrite take_take, take_app_length in H. rewrite length_app in H. by rewrite Nat.min_l in H by lia.
Qed.

Lemma has_window_prefix a b s : has_window (a ++ b) s = true → has_window a s = true.
Proof.
  induction s as [|c s IH]; cbn [has_window]; rewrite !orb_true_iff; (intros [H|H]; [left; by eapply starts_with_prefix|]); auto.
Qed.

Lemma ns16550_windows v : has_window (str "ns16550") v || has_window (str "ns16550a") v = has_window (str "ns16550") v.
Proof.
  destruct (has_window (str "ns16550") v) eqn:E; [done|]. simpl.
  apply not_true_iff_false. intros H. apply (has_window_prefix (str "ns16550") [97]) in H. congruence.
Qed.

Lemma vlen_0 {A} (l : list A) : (vlen l =? 0) = bool_decide (l = []).
Proof. destruct l; [done|]. by rewrite bool_decide_eq_false_2. Qed.

(** ** One property *)

Section one_prop.
Context (bs : list N) (val : N) (v : list N).
Hypothesis Hv : has_at bs val v.
Hypothesis Hb : Forall (λ c, c < 256) v.

Lemma cells_at i : (4 * i + 4 ≤ length v)%nat → be32 bs (val + N.of_nat (4 * i)) tt = Ret (cell i v, tt).
Proof. by apply cell_at. Qed.
Lemma cells2_at i : (4 * i + 8 ≤ length v)%nat → two_cells bs (val + N.of_nat (4 * i)) tt = Ret (cell2 i v, tt).
Proof. by apply cell2_at. Qed.

Lemma prop_memory_reg_at p :
  prop_memory_reg bs val (vlen v) p tt = Ret (
    (if 16 <=? vlen v then set_ram_area (cell2 0 v) (cell2 2 v) p
     else if 8 <=? vlen v then set_ram_area (cell 0 v) (cell 1 v) p else p), tt).
Proof.
  unfold prop_memory_reg. pose proof (cells2_at 0) as A0. pose proof (cells2_at 2) as A2.
  pose proof (cells_at 0) as B0. pose proof (cells_at 1) as B1. rewrite N.add_0_r in A0, B0. unfold vlen in *.
  destruct (N.leb_spec 16 (N.of_nat (length v))).
  { rewrite (bind_ret _ _ _ _ _ (A0 ltac:(lia))), (bind_ret _ _ _ _ _ (A2 ltac:(lia))). done. }
  destruct (N.leb_spec 8 (N.of_nat (length v))); [|done].
  rewrite (bind_ret _ _ _ _ _ (B0 ltac:(lia))), (bind_ret _ _ _ _ _ (B1 ltac:(lia))). done.
Qed.

Lemma prop_u32_at (set : N → BoardParams → BoardParams) p :
  (if 4 <=? vlen v then x ← be32 bs val; mret (set x p) else mret p) tt =
  Ret ((if 4 <=? vlen v then set (cell 0 v) p else p), tt).
Proof.
  pose proof (cells_at 0) as B0. rewrite N.add_0_r in B0. unfold vlen.
  destruct (N.leb_spec 4 (N.of_nat (length v))); [|done].
  by rewrite (bind_ret _ _ _ _ _ (B0 ltac:(lia))).
Qed.

Lemma prop_uart_reg_at p :
  prop_uart_reg bs val (vlen v) p tt = Ret (
    (let a := if 8 <=? vlen v then cell2 0 v else if 4 <=? vlen v then cell 0 v else 0 in
     first_uart (if a =? 0 then None else Some a) p), tt).
Proof.
  unfold prop_uart_reg. pose proof (cells2_at 0) as A0. pose proof (cells_at 0) as B0.
  rewrite N.add_0_r in A0, B0. unfold vlen in *. cbv zeta.
  destruct (N.leb_spec 8 (N.of_nat (length v))).
  { rewrite (bind_ret _ _ _ _ _ (A0 ltac:(lia))). by destruct (cell2 0 v =? 0). }
  destruct (N.leb_spec 4 (N.of_nat (length v))); [|done].
  rewrite (bind_ret _ _ _ _ _ (B0 ltac:(lia))). by destruct (cell 0 v =? 0).
Qed.

Lemma prop_compatible_at node p :
  v ≠ [] ∨ val ≤ vlen bs →
  prop_compatible bs node val (vlen v) p tt = Ret (
    (if is_uart node && (bp_uart_base p =? 0) then
       if has_window (str "ns16550") v then first_uart (unit_address node) p else p
     else p), tt).
Proof.
  intros Hne. unfold prop_compatible. destruct (is_uart node && (bp_uart_base p =? 0)); [|done].
  assert (val + vlen v ≤ vlen bs) as Hle.
  { destruct (decide (v = [])) as [->|Hv']; [|by apply has_at_bound].
    change (vlen []) with 0. destruct Hne; [done|lia]. }
  rewrite bind_assert by (by apply N.leb_le).
  replace (take (N.to_nat (vlen v)) (drop (N.to_nat val) bs)) with v.
  2:{ unfold vlen. rewrite Nat2N.id. symmetry. apply list_eq. intros i.
      destruct (decide (i < length v)%nat) as [Hi|Hi].
      - rewrite lookup_take_lt, lookup_drop by done. apply lookup_lt_is_Some in Hi as [c Hc].
        rewrite Hc. by apply Hv.
      - rewrite lookup_take_ge by lia. symmetry. apply lookup_ge_None. lia. }
  cbv zeta. rewrite ns16550_windows. destruct (has_window _ v); [|done]. rewrite unit_address_find.
  destruct (list_find (.= 64) node) as [[i c]|]; [|done]. rewrite parse_hex_value. by destruct (hex_value _).
Qed.

Lemma prop_isa_at p :
  prop_isa bs val (vlen v) p tt = Ret (
    (let p := set_cpu_count (saturating_add (bp_cpu_count p) 1) p in
     if bool_decide (bp_isa p = []) && (vlen v <? 128) && negb (bool_decide (text v = [])) && is_utf8 (text v)
     then set_isa (text v) p else p), tt).
Proof.
  unfold prop_isa. cbv zeta. generalize (set_cpu_count (saturating_add (bp_cpu_count p) 1) p). clear p. intros p.
  rewrite vlen_0. destruct (bool_decide (bp_isa p = [])); [|done].
  destruct (decide (v = [])) as [->|Hne]; [done|].
  rewrite (proj2 (N.ltb_lt 0 (vlen v))) by (destruct v; [done|unfold vlen; simpl; lia]). simpl andb.
  destruct (vlen v <? 128); [|done].
  replace (N.to_nat (vlen v)) with (length v) by (unfold vlen; lia). cbn [negb andb].
  rewrite (bind_ret _ _ _ _ _ (read_until0_at bs val v (length v) Hv ltac:(lia))), take_ge by lia. simpl andb.
  do 2 f_equal. destruct (text v) as [|c w]; [done|]. rewrite bool_decide_eq_false_2 by done. done.
Qed.
End one_prop.

(** The strings block holds [name] at [soff]. *)
Definition string_at (bs : list N) (f : Fdt) (soff : N) (name : list N) : Prop :=
  has_at bs (fd_off_strings f + soff) (name ++ [0]) ∧ soff + vlen name < fd_size_strings f.

Lemma read_string_at bs f soff name :
  string_at bs f soff name → name ≠ [] → Forall (λ c, 0 < c < 256) name → is_utf8 name = true →
  read_string bs f soff tt = Ret (Some name, tt).
Proof.
  intros [H Hlt] Hne Hc Hu. unfold read_string. rewrite (proj2 (N.leb_gt _ _)) by lia.
  rewrite (bind_ret _ _ _ _ _ (read_until0_name bs _ name (N.to_nat (fd_size_strings f - soff)) H Hc ltac:(unfold vlen in *; lia))).
  by rewrite Hu, vlen_0, bool_decide_eq_false_2.
Qed.

Lemma handle_prop_at bs f node soff name val v p :
  token_ok (TProp name v) → string_at bs f soff name → has_at bs val v → val ≤ vlen bs →
  handle_prop bs f node soff val (vlen v) p tt = Ret (prop_effect node name v p, tt).
Proof.
  intros (Hne & Hc & Hu & Hb) Hs Hv Hle. unfold handle_prop.
  rewrite (bind_ret _ _ _ _ _ (read_string_at bs f soff name Hs Hne Hc Hu)). cbv beta iota zeta. unfold prop_effect.
  destruct (bool_decide (name = str "reg") && named "memory" node); [by apply prop_memory_reg_at|].
  destruct (_ && named "cpus" node); [by apply (prop_u32_at bs val v Hv Hb set_timebase)|].
  destruct (_ && is_uart node && _); [by apply (prop_u32_at bs val v Hv Hb set_uart_clock)|].
  destruct (bool_decide (name = str "compatible")) eqn:E.
  { apply bool_decide_eq_true in E as ->. rewrite (prop_compatible_at bs val v Hv) by auto.
    simpl andb. by destruct (is_uart node && _). }
  simpl andb. cbv iota.
  destruct (_ && is_uart node && _); [by apply prop_uart_reg_at|].
  destruct (_ && _); [by apply prop_isa_at|done].
Qed.

(** ** Tokens *)

(** The length of a token's encoding. *)
Definition tok_len (k : token) : N :=
  match k with TBegin name => 4 + align4 (vlen name + 1) | TProp _ v => 12 + align4 (vlen v) | TEnd => 4 end.

(** What a token does to the variables of the loop. *)
Definition tok_step (w : Walk) (k : token) : Walk :=
  let pos := w_pos w + tok_len k in
  match k with
  | TBegin name =>
      mkWalk pos name (if w_depth w <? 8 then vset (w_stack w) (w_depth w) (w_node w) else w_stack w)
        (w_depth w + 1) ((8 <? w_depth w + 1) || w_exceeded w) (w_params w)
  | TProp name v =>
      mkWalk pos (w_node w) (w_stack w) (w_depth w) (w_exceeded w)
        (if w_exceeded w then w_params w else prop_effect (w_node w) name v (w_params w))
  | TEnd =>
      mkWalk pos (if w_depth w - 1 <? 8 then default [] (vget (w_stack w) (w_depth w - 1)) else w_node w)
        (w_stack w) (w_depth w - 1) (8 <? w_depth w - 1) (w_params w)
  end.

Lemma align4_val x : align4 x = (x + 3) / 4 * 4.
Proof.
  unfold align4. rewrite (N.ldiff_ones_r _ 2 : N.ldiff (x + 3) 3 = N.shiftl (N.shiftr (x + 3) 2) 2).
  by rewrite N.shiftl_mul_pow2, N.shiftr_div_pow2.
Qed.

Lemma vlen_app {A} (l k : list A) : vlen (l ++ k) = vlen l + vlen k.
Proof. unfold vlen. rewrite length_app. lia. Qed.

Lemma vlen_pad4 l : vlen (pad4 l) = align4 (vlen l).
Proof.
  unfold pad4. rewrite vlen_app, align4_val. unfold vlen at 2. rewrite length_replicate. generalize (vlen l). intros x.
  dlia.
Qed.

Lemma vlen_enc_token soff k : vlen (enc_token soff k) = tok_len k.
Proof.
  destruct k; unfold enc_token, tok_len; rewrite ?vlen_app, ?vlen_pad4, ?vlen_app; [done| |done].
  rewrite !N.add_assoc. done.
Qed.

Section walk.
Context (bs : list N) (f : Fdt) (end_ : N) (Hend : end_ ≤ vlen bs) (Hmax : end_ ≤ 16 * 1024 * 1024).

Definition walking (w : Walk) : Prop := length (w_stack w) = 8%nat ∧ w_pos w mod 4 = 0 ∧ 4 * w_depth w ≤ w_pos w.

Definition advance (w : Walk) : Walk :=
  mkWalk (w_pos w + 4) (w_node w) (w_stack w) (w_depth w) (w_exceeded w) (w_params w).

Lemma begin_node_at w name :
  walking w → token_ok (TBegin name) → has_at bs (w_pos w + 4) (pad4 (name ++ [0])) →
  w_pos w + tok_len (TBegin name) ≤ end_ →
  begin_node bs end_ (advance w) tt = Ret (tok_step w (TBegin name), tt).
Proof.
  intros (Hs & Hm & Hd) [Hl Hc] [Hat _]%has_at_app Hle. unfold tok_len in Hle.
  pose proof (align4_ge (vlen name + 1)) as Hge.
  unfold begin_node, advance. cbn [w_pos w_node w_stack w_depth w_exceeded w_params].
  unfold add_. erewrite bind_expect_some.
  2:{ apply checked_add_Some. split; [done|]. unfold USIZE_MAX. lia. }
  rewrite (bind_ret _ _ _ _ _ (read_name_at bs (w_pos w + 4) name 63 end_ Hat Hc
             ltac:(unfold vlen in *; lia) ltac:(unfold vlen in *; lia))).
  cbv beta iota zeta. rewrite (proj2 (N.leb_gt 63 (vlen name))) by lia. rewrite bind_mret_l.
  unfold mret, M_ret, tok_step. replace (vlen (w_stack w)) with 8 by (unfold vlen; lia).
  replace (align4 (w_pos w + 4 + vlen name + 1)) with (w_pos w + tok_len (TBegin name)).
  - by do 3 f_equal.
  - unfold tok_len. rewrite !align4_val. clear -Hm. generalize dependent (w_pos w). intros x.
    generalize (vlen name). intros y Hm. dlia.
Qed.

Lemma prop_node_at w soff name v :
  walking w → token_ok (TProp name v) → string_at bs f soff name → soff < 2 ^ 32 →
  has_at bs (w_pos w + 4) (enc32 (vlen v) ++ enc32 soff ++ pad4 v) →
  w_pos w + tok_len (TProp name v) ≤ end_ →
  prop_node bs f end_ (advance w) tt = Ret (Some (tok_step w (TProp name v)), tt).
Proof.
  intros (Hs & Hm & Hd) Hok Hstr Hso [H1 [H2 [H3 _]%has_at_app]%has_at_app]%has_at_app Hle. unfold tok_len in Hle.
  pose proof (align4_ge (vlen v)) as Hge. change (vlen (enc32 _)) with 4 in H2, H3.
  assert (vlen v < 2 ^ 32) as Hv by (change (2 ^ 32) with 4294967296; lia).
  unfold prop_node, advance. cbn [w_pos w_node w_stack w_depth w_exceeded w_params].
  rewrite (proj2 (N.ltb_ge _ _)) by lia.
  assert (none_or_gt (checked_add (w_pos w + 4 + 8) (align4 (vlen v))) end_ = false) as Hnone.
  { unfold none_or_gt. rewrite (proj2 (checked_add_Some _ _ (w_pos w + 4 + 8 + align4 (vlen v)))).
    - apply N.ltb_ge. lia.
    - split; [done|]. unfold USIZE_MAX. lia. }
  pose proof (be32_enc bs _ _ H1 Hv) as E1. pose proof (be32_enc bs _ _ H2 Hso) as E2.
  replace (w_pos w + 4 + 4 + 4) with (w_pos w + 4 + 8) in H3 by lia.
  unfold tok_step, tok_len. replace (w_pos w + (12 + align4 (vlen v))) with (w_pos w + 4 + 8 + align4 (vlen v)) by lia.
  destruct (w_exceeded w); cbn [negb].
  - rewrite (bind_ret _ _ _ _ _ E1). cbv zeta. by rewrite Hnone.
  - rewrite (bind_ret _ _ _ _ _ E1), (bind_ret _ _ _ _ _ E2). cbv zeta. rewrite Hnone.
    erewrite bind_ret by (by apply (handle_prop_at bs f (w_node w) soff name); [..|lia]). done.
Qed.

Lemma tok_step_walking w k : walking w → walking (tok_step w k).
Proof.
  intros (Hs & Hm & Hd). unfold walking, tok_step, tok_len. destruct k; simpl; rewrite ?align4_val.
  - split; [|split; [|lia]].
    + case_match; [|done]. unfold vset. case_match; [by rewrite length_insert|done].
    + clear -Hm. generalize dependent (w_pos w). intros x. generalize (vlen name). intros y Hm. dlia.
  - split; [done|split; [|lia]].
    clear -Hm. generalize dependent (w_pos w). intros x. generalize (vlen v). intros y Hm. dlia.
  - split; [done|split; [|lia]]. clear -Hm. generalize dependent (w_pos w). intros x Hm. dlia.
Qed.

(** Bytes to tokens: the loop over the structure block runs [tok_step]. *)
Lemma walk_tokens l soff w fuel :
  fd_size_strings f < 2 ^ 32 → walking w → Forall token_ok l →
  has_at bs (w_pos w) (enc_tokens soff l) → w_pos w + vlen (enc_tokens soff l) ≤ end_ →
  has_at bs (fd_off_strings f + soff) (flat_map tok_string l) →
  soff + vlen (flat_map tok_string l) ≤ fd_size_strings f → (length l < fuel)%nat →
  walk_struct fuel bs f end_ w tt = Ret (w_params (fold_left tok_step l w), tt).
Proof.
  intros Hss. revert soff w fuel. induction l as [|k l IH]; intros soff w fuel Hw Hok Hat Hle Hstr Hfit Hfu;
    (destruct fuel as [|fuel]; [simpl in Hfu; lia|]); cbn [walk_struct enc_tokens fold_left flat_map] in *.
  { change (vlen (enc32 FDT_END)) with 4 in Hle. rewrite (proj2 (N.leb_le _ _)) by lia.
    by rewrite (bind_ret _ _ _ _ _ (be32_enc bs _ _ Hat eq_refl)). }
  apply Forall_cons in Hok as [Hk Hok]. apply has_at_app in Hat as [Hat1 Hat2], Hstr as [Hst1 Hst2].
  rewrite vlen_app in Hle, Hfit. rewrite vlen_enc_token in *. rewrite <-N.add_assoc in Hst2.
  assert (Hnext : walk_struct fuel bs f end_ (tok_step w k) tt = Ret (w_params (fold_left tok_step l (tok_step w k)), tt)).
  { assert (w_pos (tok_step w k) = w_pos w + tok_len k) as Hpos by (by destruct k).
    apply (IH (soff + vlen (tok_string k))); rewrite ?Hpos; try done; [by apply tok_step_walking|lia..|].
    simpl in Hfu. lia. }
  assert (w_pos w + 4 ≤ end_) as H4.
  { enough (4 ≤ tok_len k) by lia. destruct k; unfold tok_len; lia. }
  rewrite (proj2 (N.leb_le _ _)) by done. fold (advance w).
  destruct k as [name|name v|]; cbn [enc_token tok_string] in *.
  - apply has_at_app in Hat1 as [Ht Hat1]. rewrite (bind_ret _ _ _ _ _ (be32_enc bs _ _ Ht eq_refl)). cbv zeta.
    change (FDT_BEGIN_NODE =? FDT_BEGIN_NODE) with true. cbv iota.
    by rewrite (bind_ret _ _ _ _ _ (begin_node_at w name Hw Hk Hat1 ltac:(lia))).
  - apply has_at_app in Hat1 as [Ht Hat1]. rewrite (bind_ret _ _ _ _ _ (be32_enc bs _ _ Ht eq_refl)). cbv zeta.
    change (FDT_PROP =? FDT_BEGIN_NODE) with false. change (FDT_PROP =? FDT_END_NODE) with false.
    change (FDT_PROP =? FDT_PROP) with true. cbv iota. rewrite vlen_app in Hfit. change (vlen [0]) with 1 in Hfit.
    rewrite (bind_ret _ _ _ (Some (tok_step w (TProp name v))) tt); [exact Hnext|].
    apply (prop_node_at w soff name v); try done; [|lia|lia]. split; [done|lia].
  - rewrite (bind_ret _ _ _ _ _ (be32_enc bs _ _ Hat1 eq_refl)). cbv zeta.
    change (FDT_END_NODE =? FDT_BEGIN_NODE) with false. change (FDT_END_NODE =? FDT_END_NODE) with true. cbv iota.
    rewrite <-Hnext. f_equal. unfold end_node, tok_step, advance, tok_len. simpl.
    destruct Hw as (Hs & _). unfold vlen. by rewrite Hs.
Qed.
End walk.

(** Tokens to the tree: the names saved for the ancestors come back at the end of each
    node, as long as no more than eight are nested. *)
Record unwound (w w' : Walk) (p : BoardParams) : Prop := {
  uw_node : w_node w' = w_node w;
  uw_depth : w_depth w' = w_depth w;
  uw_exceeded : w_exceeded w' = false;
  uw_len : length (w_stack w') = 8%nat;
  uw_stack : ∀ i, i < w_depth w → vget (w_stack w') i = vget (w_stack w) i;
  uw_params : w_params w' = p }.

Lemma tok_props node props w p :
  w_node w = node → w_exceeded w = false → length (w_stack w) = 8%nat → w_params w = p →
  unwound w (fold_left tok_step (map (λ q, TProp q.1 q.2) props) w)
    (fold_left (λ p q, prop_effect node q.1 q.2 p) props p).
Proof.
  revert w p. induction props as [|q props IH]; intros w p <- He Hl <-; simpl; [by split|].
  destruct (IH (tok_step w (TProp q.1 q.2)) (prop_effect (w_node w) q.1 q.2 (w_params w)))
    as [H1 H2 H3 H4 H5 H6]; simpl; [done|done|done|by rewrite He|]. by split.
Qed.

Lemma unwound_trans w1 w2 w3 p2 p3 : unwound w1 w2 p2 → unwound w2 w3 p3 → unwound w1 w3 p3.
Proof.
  intros [A1 A2 A3 A4 A5 A6] [B1 B2 B3 B4 B5 B6]. split; try done; [congruence..|].
  intros i Hi. rewrite B5, A5 by lia. done.
Qed.

Definition tree_unwinds (t : dt) : Prop := ∀ w,
  w_exceeded w = false → length (w_stack w) = 8%nat → w_depth w + N.of_nat (height t) ≤ 8 →
  unwound w (fold_left tok_step (tokens t) w) (tree_params t (w_params w)).

Lemma tok_kids kids w0 w p :
  Forall tree_unwinds kids → Forall (λ k, w_depth w0 + N.of_nat (height k) ≤ 8) kids → unwound w0 w p →
  unwound w0 (fold_left tok_step (flat_map tokens kids) w) (fold_left (λ p k, tree_params k p) kids p).
Proof.
  intros Hkids Hh. revert w p. induction kids as [|k kids IH]; intros w p U; simpl; [done|]. rewrite fold_left_app.
  apply Forall_cons in Hkids as [Hk Hkids], Hh as [Hhk Hh]. destruct U as [A1 A2 A3 A4 A5 <-].
  apply (IH Hkids Hh). eapply unwound_trans; [by split|]. apply Hk; [done|done|lia].
Qed.

Lemma tok_tree t : tree_unwinds t.
Proof.
  induction t as [name props kids Hkids] using dt_induction. intros w He Hl Hd.
  cbn [tokens fold_left tree_params height] in *. rewrite !fold_left_app. cbn [fold_left].
  set (w1 := tok_step w (TBegin name)).
  assert (w_node w1 = name ∧ w_depth w1 = w_depth w + 1 ∧ w_exceeded w1 = false ∧ length (w_stack w1) = 8%nat ∧
          w_params w1 = w_params w) as (N1 & D1 & X1 & L1 & P1).
  { subst w1. simpl. rewrite He, (proj2 (N.ltb_lt (w_depth w) 8)), (proj2 (N.ltb_ge 8 (w_depth w + 1))) by lia.
    split_and!; try done. unfold vset. case_match; [by rewrite length_insert|done]. }
  assert (∀ i, i < w_depth w + 1 → vget (w_stack w1) i = if decide (i = w_depth w) then Some (w_node w) else vget (w_stack w) i) as S1.
  { intros i Hi. subst w1. simpl. rewrite (proj2 (N.ltb_lt (w_depth w) 8)) by lia.
    rewrite vget_vset. destruct (decide (i = w_depth w)) as [->|]; [|by rewrite decide_False by (intros []; lia)].
    rewrite decide_True; [done|]. split; [done|]. unfold vlen. lia. }
  pose proof (tok_props name props w1 (w_params w) N1 X1 L1 P1) as U2.
  set (w2 := fold_left tok_step (map _ props) w1) in *.
  set (p2 := fold_left (λ p q, prop_effect name q.1 q.2 p) props (w_params w)) in *.
  assert (U3 : unwound w1 (fold_left tok_step (flat_map tokens kids) w2) (fold_left (λ p k, tree_params k p) kids p2)).
  { apply tok_kids; [done| |done].
    pose proof (list_max_le (map height kids) (list_max (map height kids))) as [H _]. specialize (H ltac:(lia)).
    apply Forall_map in H. eapply Forall_impl; [exact H|]. simpl. intros k Hk. lia. }
  set (w3 := fold_left tok_step _ w2) in *. destruct U3 as [A1 A2 A3 A4 A5 A6].
  assert (w_depth w3 - 1 = w_depth w) as Hdep by lia.
  assert (vget (w_stack w3) (w_depth w) = Some (w_node w)) as Hnode.
  { rewrite A5, S1, decide_True by lia. done. }
  split; simpl; rewrite ?Hdep.
  - rewrite (proj2 (N.ltb_lt _ _)) by lia. by rewrite Hnode.
  - done.
  - apply N.ltb_ge. lia.
  - done.
  - intros i Hi. rewrite A5, S1, decide_False by lia. done.
  - done.
Qed.

(** ** The reserve map and the header *)

Lemma vlen_enc64 v : vlen (enc64 v) = 8.
Proof. done. Qed.

Lemma rsvmap_at bs rsv total off p fuel :
  has_at bs off (enc_rsvmap rsv) → off + vlen (enc_rsvmap rsv) ≤ total → total ≤ USIZE_MAX →
  Forall area_ok rsv → (length rsv < fuel)%nat →
  read_rsvmap fuel bs total off p tt = Ret (fold_left (λ p r, add_reserved r.1 r.2 p) rsv p, tt).
Proof.
  intros Hat Hle Ht Hok. revert off p fuel Hat Hle.
  induction Hok as [|r rsv (Hne & H1 & H2) _ IH]; intros off p fuel Hat Hle Hfu;
    (destruct fuel as [|fuel]; [simpl in Hfu; lia|]); cbn [read_rsvmap fold_left];
    unfold enc_rsvmap in *; cbn [flat_map app] in *;
    rewrite <-?app_assoc in *; rewrite ?vlen_app, !vlen_enc64 in Hle;
    (replace (none_or_gt (checked_add off 16) total) with false by
      (unfold none_or_gt; rewrite (proj2 (checked_add_Some off 16 (off + 16)) ltac:(split; [done|lia]));
       symmetry; apply N.ltb_ge; lia)).
  - apply has_at_app in Hat as [Ha Hb].
    rewrite (bind_ret _ _ _ _ _ (two_cells_at bs off (enc64 0) Ha eq_refl ltac:(by apply enc64_bytes))).
    rewrite (bind_ret _ _ _ _ _ (two_cells_at bs (off + 8) (enc64 0) Hb eq_refl ltac:(by apply enc64_bytes))). done.
  - apply has_at_app in Hat as [Ha [Hb Hat]%has_at_app]. rewrite !vlen_enc64 in *.
    rewrite (bind_ret _ _ _ _ _ (two_cells_at bs off (enc64 r.1) Ha eq_refl (enc64_bytes _ H1))).
    rewrite (bind_ret _ _ _ _ _ (two_cells_at bs (off + 8) (enc64 r.2) Hb eq_refl (enc64_bytes _ H2))).
    rewrite !be_enc64 by done.
    destruct ((r.1 =? 0) && (r.2 =? 0)) eqn:E.
    { exfalso. apply andb_true_iff in E as [E1%N.eqb_eq E2%N.eqb_eq]. apply Hne. destruct r. simpl in *. congruence. }
    apply IH; [by rewrite <-N.add_assoc in Hat| |simpl in Hfu; lia].
    rewrite vlen_app, !vlen_app, !vlen_enc64. lia.
Qed.
