(* ===== verification/FdtProps.v ===== *)
(** * What holds of the device tree, the board and the allocator's area

    [fdt_parse_safe] and [fdt_roundtrip] for the parser, [board_sane] for the parameters
    the rest of the kernel uses, [mem_init_correct] for the area the page allocator gets. *)

From Stdlib Require Import ZifyN ZifyNat String Ascii.
From stdpp Require Import base gmap numbers functions list.
From S2P Require Import Prelude Mem MemInv MemSpec MemInit Pte Fdt FdtSafe FdtTree.

(** ** The parser *)

Lemma fdt_new_yields bs addr :
  Forall (λ b, b < 256) bs → 40 ≤ vlen bs →
  yields (fdt_new bs addr) (λ o, ∀ f, o = Some f → fd_total f ≤ vlen bs → fits bs f ∧ fd_addr f = addr).
Proof.
  intros Hb Hl. unfold fdt_new.
  apply yields_if; intros E1; [by apply yields_ret|]. apply yields_if; intros E2; [by apply yields_ret|].
  eapply yields_bind; [apply be32_yields; [done|lia]|]; intros magic _.
  apply yields_if; intros E3; [by apply yields_ret|].
  do 6 (eapply yields_bind; [apply be32_yields; [done|lia]|]; intros ? ?).
  apply yields_if; intros E4; [by apply yields_ret|]. apply yields_if; intros E5; [by apply yields_ret|].
  apply yields_ret. intros f [= <-] Ht. simpl in Ht. split; [|done].
  rewrite !orb_false_iff, none_or_gt_false, !N.ltb_ge in E4, E5.
  destruct E4 as ((T1 & T2) & e & [-> _]%checked_add_Some & T3), E5 as ((T4 & T5) & _).
  apply orb_false_iff in E1 as [E1%N.eqb_neq _].
  assert (∀ a b c, c ≤ 16 * 1024 * 1024 → saturating_add a b ≤ c → a + b ≤ c) as Hsat.
  { unfold saturating_add, USIZE_MAX. intros. lia. }
  split; simpl; auto.
Qed.

Lemma fdt_parse_yields bs f :
  Forall (λ b, b < 256) bs → fits bs f →
  yields (fdt_parse bs f) (λ p, params_ok (bp_reserved p) p ∧ reserved_ok p ∧
    ∀ x, fd_addr f ≤ x < fd_addr f + fd_total f → covered (bp_reserved p) x).
Proof.
  intros Hb Hf. pose proof Hf as [Ht Hm Hst _ [Ha0 Ha]]. unfold fdt_parse.
  assert (MAX_PHYS ≤ USIZE_MAX) as Hph by (vm_compute; discriminate).
  destruct (add_reserved_spec (fd_addr f) (fd_total f) params0) as (R0 & _ & C0); [|lia|].
  { split; simpl; [|lia]. split; constructor. }
  eapply yields_bind; [apply (rsvmap_yields bs Hb _ _ _ _ (λ x, fd_addr f ≤ x < fd_addr f + fd_total f))|].
  - done.
  - unfold USIZE_MAX. lia.
  - clear. generalize (fd_total f). intros t. dlia.
  - done.
  - unfold add_reserved. case_match; [by split|]. destruct (merge_reserved _ _ _ _ _ _) as [[??]?].
    by split.
  - done.
  - intros x Hx. apply C0; [done|simpl; lia|]. unfold in_area, r_end, saturating_add. simpl. lia.
  - intros p (Hp & Hr & Hc). set (end_ := N.min _ _).
    assert (end_ ≤ fd_total f) as He by (subst end_; lia).
    eapply yields_mono; [apply (walk_struct_yields bs Hb (bp_reserved p)); [done|lia|lia| |done|]|].
    + simpl. clear -He. generalize dependent (fd_total f). intros t He. dlia.
    + split; [done|]. simpl. split; [lia|done].
    + intros q Hq. pose proof (po_reserved _ _ Hq) as Hres. destruct Hr as [Hr1 Hr2].
      rewrite <-Hres in *. split; [done|]. split; [by split|done].
Qed.

(** C25: Whatever bytes the firmware leaves behind the pointer, [Fdt::new] returns, and
    when the length it accepted is readable [parse] returns too: no read leaves the
    blob, no sum overflows, no loop runs on.  The reserved areas are at most eight, do
    not overlap, and cover the blob itself. *)
Theorem fdt_parse_safe (bs : list N) (addr : N) :
  Forall (λ b, b < 256) bs → 40 ≤ vlen bs →
  ∃ o, fdt_new bs addr tt = Ret (o, tt) ∧
    ∀ f, o = Some f → fd_total f ≤ vlen bs →
      ∃ p, fdt_parse bs f tt = Ret (p, tt) ∧ params_ok (bp_reserved p) p ∧ reserved_ok p ∧
        ∀ x, addr ≤ x < addr + fd_total f → covered (bp_reserved p) x.
Proof.
  intros Hb Hl. destruct (fdt_new_yields bs addr Hb Hl) as (o & E & Ho). exists o. split; [done|].
  intros f Hf Ht. destruct (Ho f Hf Ht) as [Hfit <-].
  destruct (fdt_parse_yields bs f Hb Hfit) as (p & Ep & H). by exists p.
Qed.

(** A blob whose structure block is cut short: a node begins and nothing follows. *)
Definition short_blob : list N :=
  enc32 FDT_MAGIC ++ enc32 80 ++ enc32 72 ++ enc32 80 ++ enc32 40 ++ enc32 17 ++ enc32 16 ++ enc32 0 ++
  enc32 0 ++ enc32 8 ++ enc64 0x80000000 ++ enc64 0x40000 ++ enc64 0x80000000 ++ enc64 0x80000 ++
  enc32 FDT_BEGIN_NODE ++ [65; 66; 67; 68].

Lemma fdt_parse_safe_witness :
  ∃ p, fdt_parse short_blob (mkFdt 80 72 80 40 8 0 0x87000000) tt = Ret (p, tt) ∧
    ∀ x, 0x87000000 ≤ x < 0x87000000 + 80 → covered (bp_reserved p) x.
Proof.
  destruct (fdt_parse_safe short_blob 0x87000000) as (o & E & H).
  - vm_compute. repeat constructor.
  - vm_compute. discriminate.
  - destruct (H (mkFdt 80 72 80 40 8 0 0x87000000)) as (p & Ep & _ & _ & Hc).
    + assert (fdt_new short_blob 0x87000000 tt = Ret (Some (mkFdt 80 72 80 40 8 0 0x87000000), tt)) as E'
        by (vm_compute; reflexivity). congruence.
    + vm_compute. discriminate.
    + exists p. split; [exact Ep|exact Hc].
Defined.

(** ** The round trip *)

Lemma has_at_self l k : has_at (l ++ k) 0 l.
Proof. intros i c Hi. by apply lookup_app_l_Some. Qed.

(** The header that [flatten] writes. *)
Definition flat_fdt (rsv : list (N * N)) (t : dt) (addr : N) : Fdt :=
  let rs := vlen (enc_rsvmap rsv) in
  let st := vlen (enc_tokens 0 (tokens t)) in
  let ss := vlen (flat_map tok_string (tokens t)) in
  mkFdt (40 + rs + st + ss) (40 + rs) (40 + rs + st) 40 st ss addr.

Record flat_layout (bs : list N) (rsv : list (N * N)) (t : dt) : Prop := {
  fl_magic : has_at bs 0 (enc32 FDT_MAGIC);
  fl_total : has_at bs 4 (enc32 (fd_total (flat_fdt rsv t 0)));
  fl_off_struct : has_at bs 8 (enc32 (fd_off_struct (flat_fdt rsv t 0)));
  fl_off_strings : has_at bs 12 (enc32 (fd_off_strings (flat_fdt rsv t 0)));
  fl_off_rsvmap : has_at bs 16 (enc32 40);
  fl_size_strings : has_at bs 32 (enc32 (fd_size_strings (flat_fdt rsv t 0)));
  fl_size_struct : has_at bs 36 (enc32 (fd_size_struct (flat_fdt rsv t 0)));
  fl_rsvmap : has_at bs 40 (enc_rsvmap rsv);
  fl_struct : has_at bs (fd_off_struct (flat_fdt rsv t 0)) (enc_tokens 0 (tokens t));
  fl_strings : has_at bs (fd_off_strings (flat_fdt rsv t 0)) (flat_map tok_string (tokens t)) }.

Lemma flatten_layout rsv t rest : flat_layout (flatten rsv t ++ rest) rsv t.
Proof.
  pose proof (has_at_self (flatten rsv t) rest) as H. unfold flatten in H at 2. cbv zeta in H.
  do 10 (apply has_at_app in H as [? H]). apply has_at_app in H as [? H]. apply has_at_app in H as [? ?].
  split; try done; unfold flat_fdt; cbn [fd_total fd_off_struct fd_off_strings fd_size_strings fd_size_struct]; done.
Qed.

Lemma vlen_flatten rsv t : vlen (flatten rsv t) = fd_total (flat_fdt rsv t 0).
Proof.
  unfold flatten, flat_fdt. cbv zeta. cbn [fd_total]. rewrite !vlen_app. change (vlen (enc32 _)) with 4.
  repeat match goal with |- context [vlen (enc32 ?x)] => change (vlen (enc32 x)) with 4 end. lia.
Qed.

Lemma fdt_new_flat bs rsv t addr :
  flat_layout bs rsv t → addr ≠ 0 → addr mod 8 = 0 →
  fd_total (flat_fdt rsv t addr) ≤ 16 * 1024 * 1024 → addr + fd_total (flat_fdt rsv t addr) ≤ MAX_PHYS →
  fdt_new bs addr tt = Ret (Some (flat_fdt rsv t addr), tt).
Proof.
  intros L Ha Hal Ht Hph. set (f := flat_fdt rsv t addr) in *.
  assert (40 + 16 ≤ fd_total f) as H56.
  { unfold f, flat_fdt. cbn [fd_total]. unfold enc_rsvmap. rewrite !vlen_app, !vlen_enc64. lia. }
  assert (fd_off_struct f + fd_size_struct f ≤ fd_total f) as H1 by (unfold f, flat_fdt; simpl; lia).
  assert (fd_off_strings f + fd_size_strings f ≤ fd_total f) as H2 by (unfold f, flat_fdt; simpl; lia).
  assert (∀ x, x ≤ fd_total f → x < 2 ^ 32) as H32 by (intros; change (2 ^ 32) with 4294967296; lia).
  assert (MAX_PHYS ≤ USIZE_MAX) as HM by (vm_compute; discriminate).
  assert (∀ a b lim, a + b ≤ lim → lim ≤ USIZE_MAX → none_or_gt (checked_add a b) lim = false) as Hno.
  { intros a b lim ? ?. apply none_or_gt_false. exists (a + b). split; [|done]. apply checked_add_Some. lia. }
  unfold fdt_new. rewrite (proj2 (N.eqb_neq addr 0) Ha), (proj2 (is_multiple_of_spec addr 8) Hal). cbn [orb negb].
  rewrite Hno by (unfold HEADER_SIZE; lia).
  rewrite (bind_ret _ _ _ _ _ (be32_enc bs 0 _ (fl_magic _ _ _ L) eq_refl)).
  change (negb (FDT_MAGIC =? FDT_MAGIC)) with false. cbv iota.
  rewrite (bind_ret _ _ _ _ _ (be32_enc bs 4 _ (fl_total _ _ _ L) (H32 _ ltac:(done)))).
  rewrite (bind_ret _ _ _ _ _ (be32_enc bs 8 _ (fl_off_struct _ _ _ L) (H32 (fd_off_struct f) ltac:(lia)))).
  rewrite (bind_ret _ _ _ _ _ (be32_enc bs 12 _ (fl_off_strings _ _ _ L) (H32 (fd_off_strings f) ltac:(lia)))).
  rewrite (bind_ret _ _ _ _ _ (be32_enc bs 16 _ (fl_off_rsvmap _ _ _ L) eq_refl)).
  rewrite (bind_ret _ _ _ _ _ (be32_enc bs 36 _ (fl_size_struct _ _ _ L) (H32 (fd_size_struct f) ltac:(lia)))).
  rewrite (bind_ret _ _ _ _ _ (be32_enc bs 32 _ (fl_size_strings _ _ _ L) (H32 (fd_size_strings f) ltac:(lia)))).
  change (flat_fdt rsv t 0) with (mkFdt (fd_total f) (fd_off_struct f) (fd_off_strings f) 40 (fd_size_struct f) (fd_size_strings f) 0).
  cbn [fd_total fd_off_struct fd_off_strings fd_size_strings fd_size_struct].
  rewrite (proj2 (N.ltb_ge (fd_total f) HEADER_SIZE)), (proj2 (N.ltb_ge (16 * 1024 * 1024) (fd_total f))),
    Hno by (unfold HEADER_SIZE, USIZE_MAX in *; lia).
  cbn [orb]. rewrite Hno by (unfold USIZE_MAX in *; lia).
  rewrite !(proj2 (N.ltb_ge (fd_total f) _)) by (unfold saturating_add; lia). done.
Qed.

Lemma vlen_rsvmap rsv : vlen (enc_rsvmap rsv) = 16 * N.of_nat (length rsv) + 16.
Proof.
  unfold enc_rsvmap. rewrite !vlen_app, !vlen_enc64.
  enough (vlen (flat_map (λ r, enc64 r.1 ++ enc64 r.2) rsv) = 16 * N.of_nat (length rsv)) by lia.
  induction rsv as [|r rsv IH]; [done|]. cbn [flat_map length]. rewrite !vlen_app, !vlen_enc64, IH. lia.
Qed.

Lemma vlen_tokens_ge l soff : 4 * N.of_nat (length l) ≤ vlen (enc_tokens soff l).
Proof.
  revert soff. induction l as [|k l IH]; intros soff; cbn [enc_tokens length]; [lia|].
  rewrite vlen_app, vlen_enc_token. specialize (IH (soff + vlen (tok_string k))).
  assert (4 ≤ tok_len k) by (destruct k; unfold tok_len; lia). lia.
Qed.

(** C24: The parser reads a device tree as the specification encodes it: on [flatten rsv t],
    whatever follows it in memory, [Fdt::new] accepts the header and [parse] gives
    exactly what [tree_params] takes from the tree, after the blob and the reserve map
    have become reserved areas.  The limits are the parser's: names of at most 62 bytes,
    eight nested nodes, 16 MiB. *)
Theorem fdt_roundtrip (rsv : list (N * N)) (t : dt) (rest : list N) (addr : N) :
  Forall area_ok rsv → Forall token_ok (tokens t) → (height t ≤ 8)%nat →
  addr ≠ 0 → addr mod 8 = 0 → vlen (flatten rsv t) ≤ 16 * 1024 * 1024 →
  addr + vlen (flatten rsv t) ≤ MAX_PHYS →
  boot_params (flatten rsv t ++ rest) addr tt =
    Ret (tree_params t (fold_left (λ p r, add_reserved r.1 r.2 p) rsv
           (add_reserved addr (vlen (flatten rsv t)) params0)), tt).
Proof.
  intros Hrsv Htok Hh Ha Hal Ht Hph. pose proof (flatten_layout rsv t rest) as L.
  set (bs := flatten rsv t ++ rest) in *. rewrite vlen_flatten in *.
  assert (fd_total (flat_fdt rsv t 0) ≤ vlen bs) as Hle.
  { rewrite <-vlen_flatten. unfold bs. rewrite vlen_app. lia. }
  unfold boot_params. rewrite (bind_ret _ _ _ _ _ (fdt_new_flat bs rsv t addr L Ha Hal Ht Hph)). cbv iota.
  unfold fdt_parse. change (fd_off_rsvmap (flat_fdt rsv t addr)) with 40.
  change (fd_total (flat_fdt rsv t addr)) with (fd_total (flat_fdt rsv t 0)).
  change (fd_addr (flat_fdt rsv t addr)) with addr.
  set (f := flat_fdt rsv t addr) in *. set (tot := fd_total (flat_fdt rsv t 0)) in *.
  pose proof (vlen_rsvmap rsv) as Hrs. pose proof (vlen_tokens_ge (tokens t) 0) as Hts.
  assert (fd_off_struct f = 40 + vlen (enc_rsvmap rsv) ∧ fd_size_struct f = vlen (enc_tokens 0 (tokens t)) ∧
          fd_size_strings f = vlen (flat_map tok_string (tokens t)) ∧
          fd_off_struct f + fd_size_struct f + fd_size_strings f = tot) as (F1 & F2 & F3 & F4) by done.
  rewrite (bind_ret _ _ _ _ _ (rsvmap_at bs rsv tot 40 _ (S (N.to_nat (tot / 16))) (fl_rsvmap _ _ _ L) ltac:(lia)
             ltac:(unfold USIZE_MAX; lia) Hrsv ltac:(clear -F1 F4 Hrs; dlia))).
  set (p := fold_left _ rsv _). set (end_ := N.min _ _).
  assert (end_ = fd_off_struct f + fd_size_struct f) as Hend.
  { subst end_. unfold saturating_add, USIZE_MAX. lia. }
  rewrite (walk_tokens bs f end_ ltac:(lia) ltac:(lia) (tokens t) 0 _ (S (N.to_nat (tot / 4)))); cbn [w_pos].
  - do 2 f_equal. eapply uw_params, (tok_tree t (mkWalk _ _ _ _ _ _)); [done|done|]. simpl. lia.
  - change (2 ^ 32) with 4294967296. lia.
  - split; [done|]. change (fd_off_struct f mod 4 = 0 ∧ 4 * 0 ≤ fd_off_struct f). split; [|lia].
    rewrite F1, Hrs. clear. dlia.
  - done.
  - exact (fl_struct _ _ _ L).
  - lia.
  - rewrite N.add_0_r. exact (fl_strings _ _ _ L).
  - lia.
  - clear -F1 F2 F4 Hrs Hts. generalize dependent (length (tokens t)). intros n Hts.
    enough (N.of_nat n ≤ tot / 4) by lia. apply N.div_le_lower_bound; lia.
Qed.

Definition virt_tree : dt :=
  Node [] [(str "compatible", str "riscv-virtio" ++ [0])]
    [Node (str "memory@80000000") [(str "reg", enc64 0x80000000 ++ enc64 0x8000000)] [];
     Node (str "cpus") [(str "timebase-frequency", enc32 10000000)]
       [Node (str "cpu@0") [(str "riscv,isa", str "rv64imafdc_sstc" ++ [0])] [];
        Node (str "cpu@1") [(str "riscv,isa", str "rv64imafdc_sstc" ++ [0])] []];
     Node (str "soc") []
       [Node (str "serial@10000000")
          [(str "clock-frequency", enc32 3686400); (str "reg", enc64 0x10000000 ++ enc64 0x100);
           (str "compatible", str "ns16550a" ++ [0])] []]].
Definition virt_params : BoardParams :=
  mkParams 0x80000000 0x8000000 10000000 0x10000000 3686400 (str "rv64imafdc_sstc") 2
    [(0x87000000, 477); (0x80000000, 0x40000)].

Lemma fdt_roundtrip_witness :
  boot_params (flatten [(0x80000000, 0x40000)] virt_tree ++ [255]) 0x87000000 tt = Ret (virt_params, tt).
Proof.
  rewrite (fdt_roundtrip [(0x80000000, 0x40000)] virt_tree [255] 0x87000000).
  - vm_compute. reflexivity.
  - repeat constructor; vm_compute; discriminate.
  - vm_compute. repeat constructor; discriminate.
  - vm_compute. lia.
  - discriminate.
  - reflexivity.
  - vm_compute. discriminate.
  - vm_compute. discriminate.
Defined.

(** ** The board *)

(** What the rest of the kernel relies on: RAM in whole super pages around the image, below
    the Sv39 limit and not larger than the allocator's tables; a device outside RAM; a
    timer that ticks. *)
Record board_ok (kernel_end : N) (b : Board) : Prop := {
  bo_start : DEFAULT_RAM_START ≤ ram_start b ≤ KERNEL_LINK_BASE;
  bo_end : kernel_end < ram_start b + ram_size b ≤ SV39_MAX_PHYS;
  bo_size : ram_size b ≤ MAX_PAGES * 4096;
  bo_aligned : ram_start b mod SUPER_PAGE = 0 ∧ (ram_start b + ram_size b) mod SUPER_PAGE = 0;
  bo_uart : uart_base b mod 4 = 0 ∧ ¬ (ram_start b ≤ uart_base b < ram_start b + ram_size b);
  bo_timer : 10 ≤ timer_interval b ≤ 10000000;
  bo_cpus : 1 ≤ cpu_count b }.

(** The parameters [init_from_fdt] takes over unchanged. *)
Record params_sane (kernel_end : N) (p : BoardParams) : Prop := {
  ps_start : DEFAULT_RAM_START ≤ bp_ram_start p ≤ KERNEL_LINK_BASE ∧ bp_ram_start p mod SUPER_PAGE = 0;
  ps_size : 1024 * 1024 ≤ bp_ram_size p ≤ MAX_PAGES * 4096 ∧ bp_ram_size p mod SUPER_PAGE = 0;
  ps_end : kernel_end < bp_ram_start p + bp_ram_size p;
  ps_uart : bp_uart_base p ≠ 0 ∧ bp_uart_base p mod 4 = 0 ∧
    ¬ (bp_ram_start p ≤ bp_uart_base p < bp_ram_start p + bp_ram_size p);
  ps_freq : 1000 ≤ bp_timebase_freq p ≤ 1000000000;
  ps_clock : 1000000 ≤ bp_uart_clock p ≤ 100000000;
  ps_cpus : 1 ≤ bp_cpu_count p }.

Lemma or_default_pos v d : v ≠ 0 → or_default v d = v.
Proof. intros Hv. unfold or_default. by rewrite (proj2 (N.eqb_neq v 0) Hv). Qed.

(** The area [init_from_fdt] settles on. *)
Definition cand_start (p : BoardParams) : N :=
  if negb (bp_ram_start p =? 0) && is_multiple_of (bp_ram_start p) SUPER_PAGE
  then bp_ram_start p else DEFAULT_RAM_START.
Definition cand_size (p : BoardParams) : N :=
  if (1024 * 1024 <=? bp_ram_size p) && (bp_ram_size p <=? MAX_PAGES * 4096) &&
     is_multiple_of (bp_ram_size p) SUPER_PAGE
  then bp_ram_size p else DEFAULT_RAM_SIZE.
Definition area_valid (kernel_end ca cz : N) : bool :=
  (DEFAULT_RAM_START <=? ca) && is_multiple_of (saturating_add ca cz) SUPER_PAGE &&
  (saturating_add ca cz <=? SV39_MAX_PHYS) && (ca <=? KERNEL_LINK_BASE) && (kernel_end <? saturating_add ca cz).
Definition ram_area (kernel_end : N) (p : BoardParams) : N * N :=
  if area_valid kernel_end (cand_start p) (cand_size p) then (cand_start p, cand_size p)
  else (DEFAULT_RAM_START, DEFAULT_RAM_SIZE).

Lemma default_area_ok kernel_end :
  kernel_end < DEFAULT_RAM_START + DEFAULT_RAM_SIZE →
  DEFAULT_RAM_START ≤ DEFAULT_RAM_START ≤ KERNEL_LINK_BASE ∧
  kernel_end < DEFAULT_RAM_START + DEFAULT_RAM_SIZE ≤ SV39_MAX_PHYS ∧
  1024 * 1024 ≤ DEFAULT_RAM_SIZE ≤ MAX_PAGES * 4096 ∧ DEFAULT_RAM_START mod SUPER_PAGE = 0 ∧
  (DEFAULT_RAM_START + DEFAULT_RAM_SIZE) mod SUPER_PAGE = 0.
Proof.
  intros Hk. split; [by vm_compute|]. split; [split; [exact Hk|by vm_compute]|]. split; [by vm_compute|]. by split.
Qed.

Lemma cand_size_ok p : 1024 * 1024 ≤ cand_size p ≤ MAX_PAGES * 4096.
Proof.
  unfold cand_size. case_match eqn:E; [|by vm_compute]. apply andb_true_iff in E as [[E1 E2]%andb_true_iff _].
  apply N.leb_le in E1, E2. by split.
Qed.

Lemma cand_start_ok p : cand_start p mod SUPER_PAGE = 0.
Proof.
  unfold cand_start. case_match eqn:E; [|done]. apply andb_true_iff in E as [_ E]. by apply is_multiple_of_spec.
Qed.

Lemma sv39_below : SV39_MAX_PHYS < USIZE_MAX.
Proof. by vm_compute. Qed.

Lemma sat_below a b lim : lim < USIZE_MAX → saturating_add a b ≤ lim → saturating_add a b = a + b.
Proof. unfold saturating_add. lia. Qed.

Lemma ram_area_ok kernel_end p a z :
  kernel_end < DEFAULT_RAM_START + DEFAULT_RAM_SIZE → ram_area kernel_end p = (a, z) →
  DEFAULT_RAM_START ≤ a ≤ KERNEL_LINK_BASE ∧ kernel_end < a + z ≤ SV39_MAX_PHYS ∧
  1024 * 1024 ≤ z ≤ MAX_PAGES * 4096 ∧ a mod SUPER_PAGE = 0 ∧ (a + z) mod SUPER_PAGE = 0.
Proof.
  intros Hk. unfold ram_area. pose proof (cand_start_ok p) as Hca. pose proof (cand_size_ok p) as Hcz.
  revert Hca Hcz. generalize (cand_start p), (cand_size p). intros ca cz Hca Hcz.
  case_match eqn:E; intros [= <- <-]; [|exact (default_area_ok kernel_end Hk)].
  apply andb_true_iff in E as [[[[E1 E2]%andb_true_iff E3]%andb_true_iff E4]%andb_true_iff E5].
  apply N.leb_le in E1, E3, E4. apply N.ltb_lt in E5. apply is_multiple_of_spec in E2.
  pose proof (sat_below ca cz SV39_MAX_PHYS sv39_below E3) as Hs. rewrite Hs in E2, E3, E5.
  exact (conj (conj E1 E4) (conj (conj E5 E3) (conj Hcz (conj Hca E2)))).
Qed.

Definition uart_of (a z : N) (p : BoardParams) : N :=
  if negb (bp_uart_base p =? 0) && is_multiple_of (bp_uart_base p) 4 &&
     ((bp_uart_base p <? a) || (saturating_add a z <=? bp_uart_base p))
  then bp_uart_base p else DEFAULT_UART_BASE.
Definition freq_of (p : BoardParams) : N :=
  if (1000 <=? bp_timebase_freq p) && (bp_timebase_freq p <=? 1000000000)
  then bp_timebase_freq p else DEFAULT_TIMER_FREQ.

Lemma init_from_fdt_area kernel_end p b0 a z :
  ram_area kernel_end p = (a, z) →
  init_from_fdt KERNEL_LINK_BASE kernel_end p b0 =
    Ret (tt, mkBoard a z (uart_of a z p)
      (if (1000000 <=? bp_uart_clock p) && (bp_uart_clock p <=? 100000000)
       then bp_uart_clock p else DEFAULT_UART_CLOCK)
      (freq_of p) (if 1 <=? bp_cpu_count p then bp_cpu_count p else 1)).
Proof.
  unfold init_from_fdt, ram_area. rewrite bind_assert by apply N.eqb_refl. cbv zeta.
  fold (cand_start p) (cand_size p). fold (area_valid kernel_end (cand_start p) (cand_size p)).
  destruct (area_valid _ _ _); by intros [= <- <-].
Qed.

Lemma uart_of_ok a z p :
  DEFAULT_RAM_START ≤ a → a + z < USIZE_MAX →
  uart_of a z p ≠ 0 ∧ uart_of a z p mod 4 = 0 ∧ ¬ (a ≤ uart_of a z p < a + z).
Proof.
  intros Ha Hz. unfold uart_of. case_match eqn:E.
  - apply andb_true_iff in E as [[E1 E2]%andb_true_iff E3]. apply negb_true_iff, N.eqb_neq in E1.
    apply is_multiple_of_spec in E2. apply orb_true_iff in E3. rewrite N.ltb_lt, N.leb_le in E3.
    unfold saturating_add in E3. split; [done|]. split; [done|]. lia.
  - split; [done|]. split; [done|]. unfold DEFAULT_RAM_START, DEFAULT_UART_BASE in *. lia.
Qed.

Lemma freq_of_ok p : 1000 ≤ freq_of p ≤ 1000000000.
Proof.
  unfold freq_of. case_match eqn:E; [|by vm_compute].
  apply andb_true_iff in E as [E1%N.leb_le E2%N.leb_le]. by split.
Qed.

Lemma sane_area kernel_end p : params_sane kernel_end p → ram_area kernel_end p = (bp_ram_start p, bp_ram_size p).
Proof.
  intros [[H1 H2] [H3 H4] H5 _ _ _ _].
  assert (bp_ram_start p ≠ 0) as H0 by (unfold DEFAULT_RAM_START in H1; lia).
  assert (cand_start p = bp_ram_start p) as Ea.
  { unfold cand_start. by rewrite (proj2 (N.eqb_neq _ _) H0), (proj2 (is_multiple_of_spec _ _) H2). }
  assert (cand_size p = bp_ram_size p) as Ez.
  { unfold cand_size. by rewrite (proj2 (N.leb_le _ _) (proj1 H3)), (proj2 (N.leb_le _ _) (proj2 H3)),
      (proj2 (is_multiple_of_spec _ _) H4). }
  assert (bp_ram_start p + bp_ram_size p ≤ SV39_MAX_PHYS) as Hlim.
  { change SV39_MAX_PHYS with 0x8000000000. unfold KERNEL_LINK_BASE, MAX_PAGES in *. lia. }
  assert (saturating_add (bp_ram_start p) (bp_ram_size p) = bp_ram_start p + bp_ram_size p) as Hs.
  { pose proof (N.le_lt_trans _ _ _ Hlim sv39_below). unfold saturating_add. lia. }
  unfold ram_area, area_valid. rewrite Ea, Ez, Hs.
  rewrite (proj2 (N.leb_le _ _) (proj1 H1)), (proj2 (N.leb_le _ _) (proj2 H1)), (proj2 (N.leb_le _ _) Hlim),
    (proj2 (N.ltb_lt _ _) H5), (proj2 (is_multiple_of_spec _ _)); [done|].
  rewrite N.Div0.add_mod, H2, H4. done.
Qed.

Lemma sane_uart a z p :
  bp_uart_base p ≠ 0 → bp_uart_base p mod 4 = 0 → ¬ (a ≤ bp_uart_base p < a + z) → uart_of a z p = bp_uart_base p.
Proof.
  intros H1 H2 H3. unfold uart_of. rewrite (proj2 (N.eqb_neq _ _) H1), (proj2 (is_multiple_of_spec _ _) H2).
  destruct (N.ltb_spec (bp_uart_base p) a); [done|]. rewrite (proj2 (N.leb_le _ _)); [done|].
  unfold saturating_add. lia.
Qed.

(** Whatever the device tree says, [init_from_fdt] leaves a board the kernel can run
    on, given an image that was linked where the kernel expects it and fits the default
    RAM; parameters that make sense are taken over as they are. *)
Theorem board_sane (kernel_end : N) (p : BoardParams) (b0 : Board) :
  kernel_end < DEFAULT_RAM_START + DEFAULT_RAM_SIZE →
  ∃ b, init_from_fdt KERNEL_LINK_BASE kernel_end p b0 = Ret (tt, b) ∧ board_ok kernel_end b ∧
    (params_sane kernel_end p →
     ram_start b = bp_ram_start p ∧ ram_size b = bp_ram_size p ∧ uart_base b = bp_uart_base p ∧
     timer_freq b = bp_timebase_freq p ∧ uart_clock b = bp_uart_clock p ∧ cpu_count b = bp_cpu_count p).
Proof.
  intros Hk. destruct (ram_area kernel_end p) as [a z] eqn:Ea.
  pose proof (ram_area_ok kernel_end p a z Hk Ea) as (H1 & H2 & H3 & H4 & H5).
  eexists. split; [exact (init_from_fdt_area kernel_end p b0 a z Ea)|].
  destruct (uart_of_ok a z p) as (U1 & U2 & U3);
    [exact (proj1 H1)|exact (N.le_lt_trans _ _ _ (proj2 H2) sv39_below)|].
  pose proof (freq_of_ok p) as Hf.
  set (cpus := if 1 <=? bp_cpu_count p then bp_cpu_count p else 1).
  assert (1 ≤ cpus) as Hcpu by (subst cpus; destruct (N.leb_spec 1 (bp_cpu_count p)); lia).
  set (clock := if _ && _ then bp_uart_clock p else _).
  assert (a ≠ 0) as Ha by (unfold DEFAULT_RAM_START in H1; lia). assert (z ≠ 0) as Hz by lia.
  unfold ram_start, ram_size, uart_base, timer_freq, uart_clock, cpu_count.
  split.
  - split; unfold ram_start, ram_size, uart_base, timer_interval, timer_freq, cpu_count; cbn [bd_ram_start bd_ram_size bd_uart_base bd_timer_freq bd_cpu_count];
      rewrite ?or_default_pos by (done || lia); try done.
    + exact (proj2 H3).
    + clear -Hf. dlia.
  - intros Hs. pose proof (sane_area kernel_end p Hs) as Es. rewrite Es in Ea. injection Ea as <- <-.
    destruct Hs as [_ _ _ (V1 & V2 & V3) V4 V5 V6].
    cbn [bd_ram_start bd_ram_size bd_uart_base bd_timer_freq bd_uart_clock bd_cpu_count].
    assert (clock = bp_uart_clock p) as ->.
    { subst clock. by rewrite (proj2 (N.leb_le _ _) (proj1 V5)), (proj2 (N.leb_le _ _) (proj2 V5)). }
    assert (cpus = bp_cpu_count p) as Ecpu by (subst cpus; by rewrite (proj2 (N.leb_le _ _) V6)). rewrite Ecpu in *.
    assert (freq_of p = bp_timebase_freq p) as Ef.
    { unfold freq_of. by rewrite (proj2 (N.leb_le _ _) (proj1 V4)), (proj2 (N.leb_le _ _) (proj2 V4)). }
    rewrite Ef in *. rewrite (sane_uart _ _ _ V1 V2 V3) in *. rewrite !or_default_pos by (done || lia). done.
Qed.

Lemma board_sane_witness :
  ∃ b, init_from_fdt KERNEL_LINK_BASE 0x80300000 virt_params board0 = Ret (tt, b) ∧ board_ok 0x80300000 b ∧
    ram_size b = 0x8000000.
Proof.
  destruct (board_sane 0x80300000 virt_params board0) as (b & E & Hb & Hs); [reflexivity|].
  exists b. split; [exact E|]. split; [exact Hb|]. apply Hs.
  split; vm_compute; intuition discriminate.
Defined.

(** ** The allocator's area *)

Definition max_block : N := bsize MAX_ORDER * PAGE_SIZE.
Definition alloc_base (alloc_start : N) : N := div_ceil alloc_start max_block * max_block.

(** Every address of a reserved area that lies in the managed memory is in the range of
    pages the area is turned into. *)
Lemma reserved_pages_cover base ram_end r x :
  base mod PAGE_SIZE = 0 → ram_end mod PAGE_SIZE = 0 → ram_end + PAGE_SIZE ≤ USIZE_MAX →
  base ≤ x < ram_end → r.1 ≤ x < r.1 + r.2 →
  ∃ i j, reserved_pages base ram_end ((ram_end - base) / PAGE_SIZE) r = Some (i, j) ∧
    i ≤ (x - base) / PAGE_SIZE < j.
Proof.
  destruct r as [ra rz]. cbn [fst snd]. intros Hb He Hmax Hx Hr. unfold reserved_pages.
  rewrite (proj2 (N.eqb_neq rz 0)) by lia. cbv zeta.
  set (e := N.min _ ram_end). assert (x < e ≤ ram_end) as Hel.
  { subst e. destruct (checked_add ra rz) as [q|] eqn:E; simpl; [|lia]. apply checked_add_Some in E as [-> _]. lia. }
  clearbody e. change PAGE_SIZE with 4096 in *.
  assert (e ≤ div_ceil e 4096 * 4096 ≤ ram_end) as Hc by (unfold div_ceil; clear -Hel He; dlia).
  assert (checked_mul (div_ceil e 4096) 4096 = Some (div_ceil e 4096 * 4096)) as ->.
  { unfold checked_mul, usize_ok. by rewrite (proj2 (N.leb_le _ _)) by lia. }
  simpl default. assert (div_ceil e 4096 * 4096 mod 4096 = 0) as Hm by apply N.Div0.mod_mul.
  generalize dependent (div_ceil e 4096 * 4096). intros e' Hc Hm.
  rewrite (proj2 (N.leb_gt e' base)), (proj2 (N.leb_gt ram_end (ra / 4096 * 4096))) by (clear -Hc Hel Hx Hr; dlia).
  cbn [orb]. unfold div_ceil.
  assert ((ra / 4096 * 4096 - base) / 4096 ≤ (x - base) / 4096) as H1 by (clear -Hr Hx; dlia).
  assert ((x - base) / 4096 < (e' - base + (4096 - 1)) / 4096) as H2 by (clear -Hc Hel Hx; dlia).
  assert ((x - base) / 4096 < (ram_end - base) / 4096) as H3 by (clear -Hb He Hx; dlia).
  clear -H1 H2 H3. rewrite (proj2 (N.ltb_lt _ _)) by lia. eexists _, _. split; [done|]. lia.
Qed.

Lemma alloc_base_ok alloc_start :
  alloc_start ≤ SV39_MAX_PHYS →
  alloc_start ≤ alloc_base alloc_start ∧ alloc_base alloc_start mod max_block = 0 ∧
  alloc_base alloc_start mod PAGE_SIZE = 0 ∧ alloc_base alloc_start ≤ USIZE_MAX.
Proof.
  intros Ha. change SV39_MAX_PHYS with 0x8000000000 in Ha. unfold alloc_base, div_ceil.
  change max_block with 16777216. change PAGE_SIZE with 4096. unfold USIZE_MAX.
  split; [clear; dlia|]. split; [apply N.Div0.mod_mul|]. split; [clear; dlia|clear -Ha; dlia].
Qed.

(** The managed area and its ranges are computed without overflow. *)
Lemma mem_init_eq (kernel_end alloc_start : N) (b : Board) (p : BoardParams) (s : PMem) :
  board_ok kernel_end b → KERNEL_LINK_BASE ≤ alloc_start ≤ SV39_MAX_PHYS →
  let base := alloc_base alloc_start in
  let re := ram_start b + ram_size b in
  re < USIZE_MAX - PAGE_SIZE ∧ re mod PAGE_SIZE = 0 ∧ (base < re → (re - base) / PAGE_SIZE ≤ MAX_PAGES) ∧
  mem_init b alloc_start p s =
    (if re <=? base then panic
     else assert_ ((re - base) / PAGE_SIZE <=? MAX_PAGES);;
          buddy_init base ((re - base) / PAGE_SIZE)
            (omap (reserved_pages base re ((re - base) / PAGE_SIZE)) (take 8 (bp_reserved p)))) s.
Proof.
  intros Hb [Ha1 Ha2]. destruct (alloc_base_ok alloc_start Ha2) as (B1 & B2 & B3 & B4). cbv zeta.
  destruct Hb as [H1 H2 H3 [H4 H5] _ _ _].
  set (base := alloc_base alloc_start) in *. set (re := ram_start b + ram_size b) in *.
  assert (re < USIZE_MAX - PAGE_SIZE) as Hre.
  { apply (N.le_lt_trans _ _ _ (proj2 H2)). by vm_compute. }
  split; [done|]. split; [|split].
  - change SUPER_PAGE with (512 * 4096) in H5. change PAGE_SIZE with 4096. clear -H5. dlia.
  - intros _. apply N.Div0.div_le_upper_bound. change PAGE_SIZE with 4096. clear -H1 H3 B1 Ha1. subst re. lia.
  - unfold mem_init. cbv zeta. unfold mul_, ram_end, add_.
    assert (checked_mul (div_ceil alloc_start (bsize MAX_ORDER * PAGE_SIZE)) (bsize MAX_ORDER * PAGE_SIZE) = Some base) as ->.
    { unfold checked_mul, usize_ok. fold max_block. fold (alloc_base alloc_start). fold base.
      by rewrite (proj2 (N.leb_le _ _) B4). }
    rewrite (bind_expect_some _ base) by done.
    rewrite (bind_expect_some _ re); [done|]. apply checked_add_Some. split; [done|]. fold re. clear -Hre. clearbody re. lia.
Qed.

Lemma mem_init_run (kernel_end alloc_start : N) (b : Board) (p : BoardParams) (s : PMem) :
  board_ok kernel_end b → KERNEL_LINK_BASE ≤ alloc_start ≤ SV39_MAX_PHYS → fresh s →
  let base := alloc_base alloc_start in
  let re := ram_start b + ram_size b in
  let ranges := omap (reserved_pages base re ((re - base) / PAGE_SIZE)) (take 8 (bp_reserved p)) in
  base < re →
  ∃ s' bl, mem_init b alloc_start p s = Ret (tt, s') ∧ Inv s' bl ∧ none_used bl ∧
    base mod max_block = 0 ∧ b_base (buddy s') = base ∧ base + b_real_count (buddy s') * PAGE_SIZE = re ∧
    mem_init b alloc_start p s = buddy_init base (b_real_count (buddy s')) ranges s.
Proof.
  intros Hb Ha Hf base re ranges Hlt. destruct (alloc_base_ok alloc_start (proj2 Ha)) as (_ & B2 & B3 & _).
  destruct (mem_init_eq kernel_end alloc_start b p s Hb Ha) as (Hre & Hrp & Hc & Hrun). fold base re in Hre, Hrp, Hc, Hrun.
  specialize (Hc Hlt). rewrite (proj2 (N.leb_gt _ _) Hlt), bind_assert in Hrun by (by apply N.leb_le).
  edestruct (buddy_init_spec s base _ ranges Hf B3 Hc) as (s' & bl & E & I & Hn & _ & Hbase & Hreal).
  exists s', bl. rewrite Hrun, Hreal. split; [exact E|]. split; [exact I|]. split; [exact Hn|]. split; [exact B2|].
  split; [exact Hbase|]. split; [|done]. fold base in B3. change PAGE_SIZE with 4096 in *. clear -B3 Hrp Hlt. dlia.
Qed.

(** On a board that [init_from_fdt] left, [mem::init] gives the page allocator the
    memory from the first 16 MiB boundary after the kernel up to the end of RAM, every
    free list and count in order and nothing handed out, with page ranges that cover
    every reserved area of the parameters; it stops when no such memory is left. *)
Theorem mem_init_correct (kernel_end alloc_start : N) (b : Board) (p : BoardParams) (s : PMem) :
  board_ok kernel_end b → KERNEL_LINK_BASE ≤ alloc_start ≤ SV39_MAX_PHYS → fresh s →
  let base := alloc_base alloc_start in
  let ram_end := ram_start b + ram_size b in
  let ranges := omap (reserved_pages base ram_end ((ram_end - base) / PAGE_SIZE)) (take 8 (bp_reserved p)) in
  (base < ram_end →
   ∃ s' bl, mem_init b alloc_start p s = Ret (tt, s') ∧ Inv s' bl ∧ none_used bl ∧
     base mod max_block = 0 ∧ b_base (buddy s') = base ∧
     base + b_real_count (buddy s') * PAGE_SIZE = ram_end ∧
     mem_init b alloc_start p s = buddy_init base (b_real_count (buddy s')) ranges s) ∧
  (∀ x, base ≤ x < ram_end → (∃ r, r ∈ take 8 (bp_reserved p) ∧ r.1 ≤ x < r.1 + r.2) →
     ∃ i j, (i, j) ∈ ranges ∧ i ≤ (x - base) / PAGE_SIZE < j) ∧
  (ram_end ≤ base → mem_init b alloc_start p s = Panic).
Proof.
  intros Hb Ha Hf. destruct (alloc_base_ok alloc_start (proj2 Ha)) as (_ & _ & B3 & _).
  destruct (mem_init_eq kernel_end alloc_start b p s Hb Ha) as (Hre & Hrp & _ & Hrun). cbv zeta in *.
  split; [|split].
  - by apply (mem_init_run kernel_end).
  - intros x Hx (r & Hr & Hrx). edestruct (reserved_pages_cover (alloc_base alloc_start) (ram_start b + ram_size b) r x) as (i & j & Eij & Hij);
      [done|done|clear -Hre; lia|done|done|].
    exists i, j. split; [|done]. apply list_elem_of_omap. eauto.
  - intros Hle. by rewrite Hrun, (proj2 (N.leb_le _ _) Hle).
Qed.

Lemma mem_init_correct_witness :
  let b := mkBoard 0x80000000 0x8000000 0x10000000 3686400 10000000 2 in
  board_ok 0x80300000 b ∧
  ∃ s' bl, mem_init b 0x80320000 virt_params (mkPMem allocator0 ∅) = Ret (tt, s') ∧ Inv s' bl ∧
    b_base (buddy s') = 0x81000000.
Proof.
  cbv zeta. assert (board_ok 0x80300000 (mkBoard 0x80000000 0x8000000 0x10000000 3686400 10000000 2)) as Hb
    by (split; vm_compute; intuition discriminate).
  split; [exact Hb|].
  destruct (mem_init_correct 0x80300000 0x80320000 _ virt_params (mkPMem allocator0 ∅) Hb) as (H & _).
  - vm_compute. split; discriminate.
  - reflexivity.
  - destruct H as (s' & bl & E & I & _ & _ & Hbase & _); [vm_compute; reflexivity|].
    exists s', bl. split; [exact E|]. split; [exact I|exact Hbase].
Defined.

(** A board with little memory passes the check for "pages for the allocator" (the end of
    RAM is behind the image), but the allocator starts at the next 16 MiB boundary. *)
Example small_ram_stops_boot :
  let p := set_ram_area 0x80000000 0x400000 virt_params in
  match init_from_fdt KERNEL_LINK_BASE 0x80300000 p board0 with
  | Ret (_, b) => ram_size b = 0x400000 ∧ mem_init b 0x80320000 p (mkPMem allocator0 ∅) = Panic
  | _ => False
  end.
Proof. vm_compute. split; reflexivity. Qed.

(** A serial port whose [reg] is one cell of address and one of size is read as an address
    of two cells. *)
Example uart_one_cell_misread :
  bp_uart_base (tree_params (Node (str "uart") [(str "reg", enc32 0x10000000 ++ enc32 0x100)] []) params0) =
    0x1000000000000100.
Proof. vm_compute. reflexivity. Qed.
