(* ===== verification/Heap.v ===== *)
(** * The kernel heap: kernel/src/heap.rs

    Slab classes of 16 to 2048 bytes over single pages and whole blocks for what is
    larger, on the memory of the page allocator: the headers, the chains of pages, the
    chains of free slots and the address stored in front of a large object are words of
    that memory.  The global lock makes each call one step. *)

From Stdlib Require Import ZifyN ZifyNat.
From stdpp Require Import base gmap numbers functions list.
From S2P Require Import Prelude Mem.

Definition SLAB_SIZES : list N := [16; 32; 64; 128; 256; 512; 1024; 2048].
Definition NOT_SLAB : N := 0xFF.

(** [KernelHeap] with the statics it works on: the heads of the page chains (0 is null),
    the class of every page, the cached area, and the memory. *)
Record KernelHeap := mkHeap {
  hp_heads : list N; hp_page_class : gmap N N; hp_base : N; hp_bytes : N; hp_mem : PMem }.

Definition set_hp_heads (v : list N) (h : KernelHeap) : KernelHeap :=
  mkHeap v (hp_page_class h) (hp_base h) (hp_bytes h) (hp_mem h).
Definition set_hp_page_class (v : gmap N N) (h : KernelHeap) : KernelHeap :=
  mkHeap (hp_heads h) v (hp_base h) (hp_bytes h) (hp_mem h).
Definition set_hp_area (b n : N) (h : KernelHeap) : KernelHeap :=
  mkHeap (hp_heads h) (hp_page_class h) b n (hp_mem h).
Definition set_hp_mem (m : PMem) (h : KernelHeap) : KernelHeap :=
  mkHeap (hp_heads h) (hp_page_class h) (hp_base h) (hp_bytes h) m.

(** [KernelHeap::new] and the statics before [init]. *)
Definition heap0 (m : PMem) : KernelHeap := mkHeap (replicate 8 0) ∅ 0 0 m.

Notation MH := (M KernelHeap).
Definition onm {A} (m : M PMem A) : MH A := lift hp_mem set_hp_mem m.

Definition rd (a : N) : MH N := gets (λ h, read_word a (ram (hp_mem h))).
Definition wr (a v : N) : MH () :=
  modify (λ h, set_hp_mem (set_ram (write_word a v (ram (hp_mem h))) (hp_mem h)) h).

(** [init]. *)
Definition heap_init : MH () :=
  h ← get;
  bytes ← mul_ (page_count (hp_mem h)) PAGE_SIZE;
  modify (set_hp_area (mem_base (hp_mem h)) bytes).

Definition slab_class_of (page : N) : MH N :=
  h ← get;
  off ← sub_ page (hp_base h);
  mret (default NOT_SLAB (hp_page_class h !! (off / PAGE_SIZE))).
Definition slab_class_set (page class : N) : MH () :=
  h ← get;
  off ← sub_ page (hp_base h);
  modify (λ h, set_hp_page_class (<[off / PAGE_SIZE := class]> (hp_page_class h)) h).

(** [class_index]. *)
Fixpoint class_from (i : nat) (l : list N) (size : N) : option nat :=
  match l with
  | [] => None
  | s :: l => if size <=? s then Some i else class_from (S i) l size
  end.
Definition class_index (size : N) : option nat := class_from 0 SLAB_SIZES (N.max size 8).

(** ** Slabs *)

(** The fields of a [SlabHeader]. *)
Definition nextp (page : N) : N := page.
Definition flist (page : N) : N := page + 8.

(** The number of pages of the area bounds the walks along a chain of pages. *)
Definition page_fuel (h : KernelHeap) : nat := S (N.to_nat (hp_bytes h / PAGE_SIZE)).

(** The first page of the chain with a free slot, and the slot taken from it. *)
Fixpoint find_slot (fuel : nat) (page : N) : MH (option N) :=
  match fuel with
  | O => timeout
  | S fuel =>
      if page =? 0 then mret None
      else
        slot ← rd (flist page);
        if negb (slot =? USIZE_MAX) then
          next ← rd slot;
          wr (flist page) next;;
          mret (Some slot)
        else next ← rd (nextp page); find_slot fuel next
  end.

(** [slab_page_empty]: the free slots are counted up to the capacity. *)
Fixpoint count_free (fuel : nat) (capacity n slot : N) : MH bool :=
  match fuel with
  | O => timeout
  | S fuel =>
      if slot =? USIZE_MAX then mret (n =? capacity)
      else if capacity <? n + 1 then mret false
      else next ← rd slot; count_free fuel capacity (n + 1) next
  end.
Definition slab_page_empty (page : N) (idx : nat) : MH bool :=
  size ← expect (SLAB_SIZES !! idx);
  let capacity := (PAGE_SIZE - size) / size in
  slot ← rd (flist page);
  count_free (S (S (N.to_nat capacity))) capacity 0 slot.

(** [sweep_empty_pages]: the pages of one chain behind its head, then all chains. *)
Fixpoint sweep_chain (fuel : nat) (idx : nat) (prev page : N) : MH () :=
  match fuel with
  | O => timeout
  | S fuel =>
      if page =? 0 then mret tt
      else
        next ← rd (nextp page);
        e ← slab_page_empty page idx;
        if e : bool then
          wr (nextp prev) next;;
          slab_class_set page NOT_SLAB;;
          expect_ok (onm (free_pages page));;
          sweep_chain fuel idx prev next
        else sweep_chain fuel idx page next
  end.
Definition sweep_class (idx : nat) : MH () :=
  h ← get;
  head ← expect (hp_heads h !! idx);
  if head =? 0 then mret tt
  else next ← rd (nextp head); sweep_chain (page_fuel h) idx head next.
Definition sweep_empty_pages : MH () := for_each sweep_class (seq 0 8).

(** The loop of [new_slab] that links the slots; the result is the last slot. *)
Fixpoint link_slots (fuel : nat) (size end_ prev slot : N) : MH N :=
  match fuel with
  | O => timeout
  | S fuel =>
      if slot + size <=? end_ then
        (if negb (prev =? 0) then wr prev slot else mret tt);;
        link_slots fuel size end_ slot (slot + size)
      else mret prev
  end.

(** The slots and the header of a fresh page. *)
Definition init_slab (page size : N) : MH () :=
  prev ← link_slots (S (N.to_nat PAGE_SIZE)) size (page + PAGE_SIZE) 0 (page + size);
  (if negb (prev =? 0) then wr prev USIZE_MAX else mret tt);;
  wr (nextp page) 0;;
  wr (flist page) (page + size).

Definition new_slab (idx : nat) : MH N :=
  sweep_empty_pages;;
  o ← onm (alloc_pages 0);
  page ← expect o;
  size ← expect (SLAB_SIZES !! idx);
  init_slab page size;;
  slab_class_set page (N.of_nat idx);;
  mret page.

Definition slab_alloc (idx : nat) : MH N :=
  h ← get;
  head ← expect (hp_heads h !! idx);
  o ← find_slot (page_fuel h) head;
  match o with
  | Some slot => mret slot
  | None =>
      nh ← new_slab idx;
      h ← get;
      head ← expect (hp_heads h !! idx);
      wr (nextp nh) head;;
      modify (λ h, set_hp_heads (<[idx := nh]> (hp_heads h)) h);;
      slot ← rd (flist nh);
      next ← rd slot;
      wr (flist nh) next;;
      mret slot
  end.

(** ** Large objects *)

(** [pages.next_power_of_two().trailing_zeros()]. *)
Definition order_of (pages : N) : nat := N.to_nat (N.log2_up pages).

Definition page_alloc (size align : N) : MH N :=
  a1 ← sub_ align 1;
  match checked_add size 8 ≫= λ v, checked_add v a1 with
  | None => panic
  | Some needed =>
      let order := order_of (div_ceil needed PAGE_SIZE) in
      if (MAX_ORDER <? order)%nat then panic
      else
        o ← onm (alloc_pages order);
        block ← expect o;
        b8 ← add_ block 8;
        aligned ← mul_ (div_ceil b8 align) align;
        p ← sub_ aligned 8;
        wr p block;;
        mret aligned
  end.

(** ** The entry points *)

Definition heap_alloc (size align : N) : MH N :=
  if size =? 0 then mret align
  else
    match class_index size with
    | Some idx =>
        s ← expect (SLAB_SIZES !! idx);
        if align <=? s then slab_alloc idx else page_alloc size align
    | None => page_alloc size align
    end.

Definition heap_dealloc (ptr size : N) : MH () :=
  if size =? 0 then mret tt
  else
    let page := N.ldiff ptr (PAGE_SIZE - 1) in
    h ← get;
    if (page <? hp_base h) || (hp_bytes h <=? page - hp_base h) then panic
    else
      class ← slab_class_of page;
      if negb (class =? NOT_SLAB) then
        class_size ← expect (SLAB_SIZES !! N.to_nat class);
        let offset := ptr - page in
        if (offset <? class_size) || negb (is_multiple_of offset class_size) || (PAGE_SIZE <? offset + class_size)
        then panic
        else
          head ← rd (flist page);
          wr ptr head;;
          wr (flist page) ptr
      else
        p ← sub_ ptr 8;
        base ← rd p;
        expect_ok (onm (free_pages base)).
