(* ===== verification/HeapInv.v ===== *)
(** * Invariant of the kernel heap

    [HInv h g]: the ghost state [g] says which blocks the page allocator has given out,
    which pages each slab class holds in which order, which slots of a page are free in
    which order, and which objects are live.  The invariant ties them to the words in
    memory. *)

From Stdlib Require Import ZifyN ZifyNat.
From stdpp Require Import base gmap numbers functions list.
From S2P Require Import Prelude Mem Dyadic MemInv MemSpec MemProps PageAlloc Heap.

(** A live object: a slot of a class, or [n] bytes in the block [i] of order [o]. *)
Inductive obj := Slot (c : nat) | Large (i : N) (o : nat) (n : N).

Record HG := mkHG {
  hg_bl : blocks; hg_pages : nat → list N; hg_free : N → list N; hg_live : gmap N obj }.

(** ** Geometry *)

Definition ssize (c : nat) : N := 16 * 2 ^ N.of_nat c.
Definition ad (h : KernelHeap) (i : N) : N := hp_base h + i * PAGE_SIZE.
(** The offsets of the slots of a page of class [c]. *)
Definition slot_off (c : nat) (u : N) : Prop := ∃ k, 1 ≤ k ∧ u = k * ssize c ∧ u + ssize c ≤ PAGE_SIZE.
Definition slot_at (h : KernelHeap) (c : nat) (i x : N) : Prop := ∃ u, slot_off c u ∧ x = ad h i + u.

Definition obj_size (o : obj) : N := match o with Slot c => ssize c | Large _ _ n => n end.
Definition in_obj (x : N) (o : obj) (a : N) : Prop := x ≤ a < x + obj_size o.

Lemma ssize_lookup c : (c < 8)%nat → SLAB_SIZES !! c = Some (ssize c).
Proof. intros Hc. do 8 (destruct c as [|c]; [done|]). lia. Qed.

Lemma ssize_divides c : (c < 8)%nat → ∃ k, 2 ≤ k ∧ PAGE_SIZE = k * ssize c ∧ 16 ≤ ssize c ∧ ssize c mod 8 = 0.
Proof.
  intros Hc. unfold PAGE_SIZE.
  destruct c as [|[|[|[|[|[|[|[|c]]]]]]]];
    [exists 256|exists 128|exists 64|exists 32|exists 16|exists 8|exists 4|exists 2|lia]; vm_compute; intuition discriminate.
Qed.

Lemma slot_off_bounds c u : (c < 8)%nat → slot_off c u → 16 ≤ u ∧ u + ssize c ≤ PAGE_SIZE ∧ 16 ≤ ssize c.
Proof.
  intros Hc (k & Hk & -> & Hle). destruct (ssize_divides c Hc) as (_ & _ & _ & Hs & _). nia.
Qed.

(** Two slots of a class are equal or do not overlap. *)
Lemma slot_off_apart c u v : slot_off c u → slot_off c v → u = v ∨ u + ssize c ≤ v ∨ v + ssize c ≤ u.
Proof. intros (k & _ & -> & _) (j & _ & -> & _). destruct (N.lt_total k j) as [?|[->|?]]; [right; left|by left|right; right]; nia. Qed.

(** Words of different pages differ. *)
Lemma ad_inj h i j u v : u < PAGE_SIZE → v < PAGE_SIZE → ad h i + u = ad h j + v → i = j ∧ u = v.
Proof. unfold ad, PAGE_SIZE. intros. lia. Qed.

Lemma slot_at_inj h c c' i j x :
  (c < 8)%nat → (c' < 8)%nat → slot_at h c i x → slot_at h c' j x → i = j.
Proof.
  intros Hc Hc' (u & Hu & ->) (v & Hv & E). apply slot_off_bounds in Hu, Hv; [|done..].
  apply (ad_inj h i j u v) in E; [tauto|lia|lia].
Qed.

(** ** The invariant *)

Definition class_at (h : KernelHeap) (i : N) : option nat :=
  let v := default NOT_SLAB (hp_page_class h !! i) in
  if v =? NOT_SLAB then None else Some (N.to_nat v).

Definition hram (h : KernelHeap) : gmap N N := ram (hp_mem h).
Definition rdw (h : KernelHeap) (a : N) : N := read_word a (hram h).

(** The chain of pages of a class, and the chain of free slots of a page. *)
Fixpoint pages_from (h : KernelHeap) (hd : N) (l : list N) : Prop :=
  match l with
  | [] => hd = 0
  | i :: l => hd = ad h i ∧ pages_from h (rdw h (nextp (ad h i))) l
  end.
Fixpoint slots_from (h : KernelHeap) (hd : N) (l : list N) : Prop :=
  match l with
  | [] => hd = USIZE_MAX
  | x :: l => hd = x ∧ slots_from h (rdw h x) l
  end.

(** A page of class [c]: its free slots are chained from its header, every other slot is
    a live object. *)
Record slab_ok (h : KernelHeap) (lv : gmap N obj) (c : nat) (i : N) (fs : list N) : Prop := {
  so_chain : slots_from h (rdw h (flist (ad h i))) fs;
  so_nodup : NoDup fs;
  so_sub x : x ∈ fs → slot_at h c i x;
  so_live x : slot_at h c i x → ((x ∈ fs) ∧ lv !! x = None) ∨ ((x ∉ fs) ∧ lv !! x = Some (Slot c)) }.

(** A live object: a slot of a page of its class, or memory inside a block of its own
    whose address stands in front of it. *)
Definition obj_ok (h : KernelHeap) (g : HG) (x : N) (o : obj) : Prop :=
  match o with
  | Slot c => (c < 8)%nat ∧ ∃ i, i ∈ hg_pages g c ∧ slot_at h c i x
  | Large i p n =>
      allocated (hg_bl g) i p ∧ class_at h i = None ∧ 0 < n ∧ x mod 8 = 0 ∧
      ad h i + 8 ≤ x ∧ x + n ≤ ad h i + bsize p * PAGE_SIZE ∧ rdw h (x - 8) = ad h i
  end.

Record HInv (h : KernelHeap) (g : HG) : Prop := mkHInv {
  hi_inv : Inv (hp_mem h) (hg_bl g);
  hi_base : hp_base h = b_base (buddy (hp_mem h));
  hi_bytes : hp_bytes h = b_real_count (buddy (hp_mem h)) * PAGE_SIZE;
  hi_lim : 0 < hp_base h ∧ hp_base h + hp_bytes h < USIZE_MAX;
  hi_len : length (hp_heads h) = 8%nat;
  hi_heads c hd : hp_heads h !! c = Some hd → pages_from h hd (hg_pages g c);
  hi_class i c : class_at h i = Some c ↔ (c < 8)%nat ∧ i ∈ hg_pages g c;
  hi_nodup c : (c < 8)%nat → NoDup (hg_pages g c);
  hi_alloc c i : (c < 8)%nat → i ∈ hg_pages g c → allocated (hg_bl g) i 0;
  hi_slab c i : (c < 8)%nat → i ∈ hg_pages g c → slab_ok h (hg_live g) c i (hg_free g i);
  hi_live x o : hg_live g !! x = Some o → obj_ok h g x o;
  hi_large x y i p n p' n' : hg_live g !! x = Some (Large i p n) → hg_live g !! y = Some (Large i p' n') → x = y }.

(** Memory the heap does not touch: the bytes of live objects, and allocated blocks that
    belong to others. *)
Definition owned (h : KernelHeap) (g : HG) (i : N) : Prop :=
  class_at h i ≠ None ∨ ∃ x p n, hg_live g !! x = Some (Large i p n).
Definition in_range (h : KernelHeap) (i : N) (p : nat) (a : N) : Prop :=
  ad h i ≤ a < ad h i + bsize p * PAGE_SIZE.
Definition kept (h : KernelHeap) (g : HG) (a : N) : Prop :=
  (∃ x o, hg_live g !! x = Some o ∧ in_obj x o a) ∨
  (∃ i p, allocated (hg_bl g) i p ∧ ¬ owned h g i ∧ in_range h i p a).

(** ** What lies where *)

Lemma area_allocated h g i p :
  HInv h g → allocated (hg_bl g) i p → ad h i + bsize p * PAGE_SIZE ≤ hp_base h + hp_bytes h.
Proof.
  intros I Ha. destruct (hi_inv _ _ I) as [_ [fl W]].
  destruct (t_block _ _ _ (w_tiling _ _ _ _ W) _ _ _ Ha) as (_ & _ & Hle).
  rewrite (hi_bytes _ _ I). unfold ad, PAGE_SIZE. lia.
Qed.

(** An address is in one page of the area. *)
Lemma in_range_page h i p a : in_range h i p a → ∃ j u, in_block i p j ∧ u < PAGE_SIZE ∧ a = ad h j + u.
Proof.
  unfold in_range, ad, in_block, PAGE_SIZE. intros H.
  exists ((a - hp_base h) / 4096), ((a - hp_base h) mod 4096).
  split; [|split]; [clear -H; dlia|by apply N.mod_lt|clear -H; dlia].
Qed.

Lemma blocks_apart h g i p j q a :
  HInv h g → allocated (hg_bl g) i p → allocated (hg_bl g) j q →
  in_range h i p a → in_range h j q a → i = j ∧ p = q.
Proof.
  intros I Hi Hj Ha Hb. destruct (hi_inv _ _ I) as [_ [fl W]].
  destruct (in_range_page h i p a Ha) as (k & u & Hk & Hu & ->).
  destruct (in_range_page h j q _ Hb) as (k' & u' & Hk' & Hu' & E).
  apply ad_inj in E as [<- _]; [|done..].
  pose proof (t_disj _ _ _ (w_tiling _ _ _ _ W) _ _ _ _ _ _ k Hi Hj Hk Hk') as <-.
  unfold allocated in *. rewrite Hi in Hj. by simplify_eq.
Qed.

Lemma range_not_free h g i p x u :
  HInv h g → allocated (hg_bl g) i p → free_page (hg_bl g) x → u < PAGE_SIZE → ¬ in_range h i p (ad h x + u).
Proof.
  intros I Ha Hf Hu Hr. destruct (in_range_page h i p _ Hr) as (k & v & Hk & Hv & E).
  apply ad_inj in E as [<- _]; [|done..]. by apply (allocated_not_free _ _ i p x (hi_inv _ _ I)).
Qed.

Lemma slot_in_page h c i x a :
  (c < 8)%nat → slot_at h c i x → in_obj x (Slot c) a → in_range h i 0 a.
Proof.
  intros Hc (u & Hu & ->) Ha. apply slot_off_bounds in Hu; [|done].
  unfold in_obj, in_range in *. simpl in Ha. change (bsize 0) with 1. lia.
Qed.

Lemma page_range h i u : u < PAGE_SIZE → in_range h i 0 (ad h i + u).
Proof. unfold in_range. change (bsize 0) with 1. lia. Qed.

Lemma hi_class_unique h g c c' i :
  HInv h g → (c < 8)%nat → (c' < 8)%nat → i ∈ hg_pages g c → i ∈ hg_pages g c' → c = c'.
Proof.
  intros I Hc Hc' Hi Hi'. pose proof (proj2 (hi_class _ _ I i c) (conj Hc Hi)) as E.
  rewrite (proj2 (hi_class _ _ I i c') (conj Hc' Hi')) in E. congruence.
Qed.

(** A kept word in a slab page belongs to a live slot of it. *)
Lemma kept_in_slab h g c i a :
  HInv h g → (c < 8)%nat → i ∈ hg_pages g c → kept h g a → in_range h i 0 a →
  ∃ x, slot_at h c i x ∧ hg_live g !! x = Some (Slot c) ∧ in_obj x (Slot c) a.
Proof.
  intros I Hc Hi [(x & o & Hx & Ha)|(j & p & Hj & Ho & Ha)] Hr.
  - pose proof (hi_live _ _ I _ _ Hx) as Hok. destruct o as [c'|j p n].
    + destruct Hok as (Hc' & j & Hj & Hs). pose proof (slot_in_page h c' j x a Hc' Hs Ha) as Hr'.
      destruct (blocks_apart h g i 0 j 0 a I) as [<- _]; [exact (hi_alloc _ _ I c i Hc Hi)|exact (hi_alloc _ _ I c' j Hc' Hj)|done|done|].
      rewrite (hi_class_unique h g c c' i) by done. eauto.
    + destruct Hok as (Hal & Hcl & _ & _ & H1 & H2 & _).
      destruct (blocks_apart h g i 0 j p a I) as [<- _]; [exact (hi_alloc _ _ I c i Hc Hi)|done|done|unfold in_obj, in_range in *; simpl in Ha; lia|].
      rewrite (proj2 (hi_class _ _ I i c)) in Hcl by done. done.
  - destruct (blocks_apart h g i 0 j p a I) as [<- _]; [exact (hi_alloc _ _ I c i Hc Hi)|done|done|done|].
    destruct Ho. left. by rewrite (proj2 (hi_class _ _ I i c)).
Qed.

Lemma kept_not_header h g c i a u :
  HInv h g → (c < 8)%nat → i ∈ hg_pages g c → kept h g a → u < 16 → a ≠ ad h i + u.
Proof.
  intros I Hc Hi Hk Hu ->. destruct (kept_in_slab h g c i _ I Hc Hi Hk) as (x & (v & Hv & ->) & _ & Ha).
  { apply page_range. unfold PAGE_SIZE. lia. }
  apply slot_off_bounds in Hv; [|done]. unfold in_obj in Ha. lia.
Qed.

Lemma kept_not_free_slot h g c i a :
  HInv h g → (c < 8)%nat → i ∈ hg_pages g c → kept h g a → a ∉ hg_free g i.
Proof.
  intros I Hc Hi Hk Ha. pose proof (hi_slab _ _ I c i Hc Hi) as Hs.
  pose proof (so_sub _ _ _ _ _ Hs a Ha) as (u & Hu & ->). pose proof (slot_off_bounds c u Hc Hu) as Hb.
  destruct (kept_in_slab h g c i _ I Hc Hi Hk) as (x & (v & Hv & ->) & Hl & Hin).
  { apply page_range. lia. }
  pose proof (slot_off_bounds c v Hc Hv). unfold in_obj in Hin. simpl in Hin.
  destruct (slot_off_apart c u v Hu Hv) as [->|?]; [|lia].
  destruct (so_live _ _ _ _ _ Hs (ad h i + v)) as [[_ E]|[? _]]; [by exists v|congruence|done].
Qed.

Lemma kept_not_free_page h g x u a :
  HInv h g → free_page (hg_bl g) x → u < PAGE_SIZE → kept h g a → a ≠ ad h x + u.
Proof.
  intros I Hf Hu [(y & o & Hy & Ha)|(j & p & Hj & _ & Ha)] ->; [|by apply (range_not_free h g j p x u)].
  pose proof (hi_live _ _ I _ _ Hy) as Hok. destruct o as [c|j p n].
  - destruct Hok as (Hc & j & Hj & Hs). eapply (range_not_free h g j 0 x u); eauto using hi_alloc, slot_in_page.
  - destruct Hok as (Hal & _ & _ & _ & H1 & H2 & _). apply (range_not_free h g j p x u); [done..|].
    unfold in_obj, in_range in *. simpl in Ha. lia.
Qed.
