(* ===== verification/HeapSteps.v ===== *)
(** * How the heap's steps keep its invariant

    Memory may change where the heap keeps nothing ([HInv_mem]), one slab page may be
    rewritten ([HInv_slab]), a page may join or leave a class, a block may become a large
    object or stop being one.  The operations are put together from these. *)

From Stdlib Require Import ZifyN ZifyNat.
From stdpp Require Import base gmap numbers functions list.
From S2P Require Import Prelude Mem Dyadic MemInv MemSpec MemProps PageAlloc Heap HeapInv.

Lemma pages_from_ext h h' hd l :
  hp_base h' = hp_base h → (∀ i, i ∈ l → rdw h' (nextp (ad h i)) = rdw h (nextp (ad h i))) →
  pages_from h hd l → pages_from h' hd l.
Proof.
  intros Hb. revert hd. induction l as [|i l IH]; intros hd Hw; simpl; [done|].
  intros [-> Hl]. unfold ad in *. rewrite Hb. split; [done|]. rewrite Hw by (by left).
  apply IH; [|done]. intros j Hj. apply Hw. by right.
Qed.

Lemma slots_from_ext h h' hd l :
  (∀ x, x ∈ l → rdw h' x = rdw h x) → slots_from h hd l → slots_from h' hd l.
Proof.
  revert hd. induction l as [|x l IH]; intros hd Hw; simpl; [done|].
  intros [-> Hl]. split; [done|]. rewrite Hw by (by left). apply IH; [|done]. intros y Hy. apply Hw. by right.
Qed.

(** The words that the invariant reads. *)
Definition heap_word (h : KernelHeap) (g : HG) (a : N) : Prop :=
  (∃ c i u, (c < 8)%nat ∧ i ∈ hg_pages g c ∧ (a = ad h i + u) ∧ (u = 0 ∨ u = 8 ∨ (a ∈ hg_free g i) ∧ u < PAGE_SIZE)) ∨
  (∃ x i p n, hg_live g !! x = Some (Large i p n) ∧ a = x - 8).

(** They lie in blocks that the heap owns. *)
Lemma heap_word_owned h g a :
  HInv h g → heap_word h g a → ∃ i p, allocated (hg_bl g) i p ∧ owned h g i ∧ in_range h i p a.
Proof.
  intros I [(c & i & u & Hc & Hi & -> & Hu)|(x & i & p & n & Hx & ->)].
  - exists i, O. split; [exact (hi_alloc _ _ I c i Hc Hi)|]. split.
    + left. by rewrite (proj2 (hi_class _ _ I i c)).
    + apply page_range. unfold PAGE_SIZE in *. lia.
  - pose proof (hi_live _ _ I _ _ Hx) as (Ha & _ & Hn & Hm & H1 & H2 & _).
    exists i, p. split; [done|]. split; [right; eauto|]. unfold in_range. lia.
Qed.

Lemma free_slot_word h g c i x :
  HInv h g → (c < 8)%nat → i ∈ hg_pages g c → x ∈ hg_free g i → heap_word h g x.
Proof.
  intros I Hc Hi Hx. destruct (so_sub _ _ _ _ _ (hi_slab _ _ I c i Hc Hi) x Hx) as (u & Hu & ->).
  left. exists c, i, u. pose proof (slot_off_bounds c u Hc Hu). repeat split; try done. right; right. split; [done|lia].
Qed.

Lemma HInv_mem h g m' bl' :
  HInv h g → Inv m' bl' → same_area (hp_mem h) m' →
  (∀ i p, allocated (hg_bl g) i p → owned h g i → allocated bl' i p) →
  (∀ a, heap_word h g a → read_word a (ram m') = rdw h a) →
  HInv (set_hp_mem m' h) (mkHG bl' (hg_pages g) (hg_free g) (hg_live g)).
Proof.
  intros I I' [A1 A2] Hal Hw. pose proof I as [i1 i2 i3 i4 i5 i6 i7 i8 i9 i10 i11 i12].
  assert (∀ c i u, (c < 8)%nat → i ∈ hg_pages g c → (u = 0 ∨ u = 8) → rdw (set_hp_mem m' h) (ad h i + u) = rdw h (ad h i + u)) as Hhd.
  { intros c i u Hc Hi Hu. apply Hw. left. exists c, i, u. tauto. }
  split; try done.
  - simpl. by rewrite A1.
  - simpl. by rewrite A2.
  - intros c hd Hhd'. apply (pages_from_ext h); [done| |by apply i6]. intros i Hi. unfold nextp.
    rewrite <-(N.add_0_r (ad h i)). apply (Hhd c); [|done|by left]. apply lookup_lt_Some in Hhd'. simpl in Hhd'. lia.
  - intros c i Hc Hi. apply Hal; [by apply (i9 c)|]. left. simpl. by rewrite (proj2 (i7 i c)).
  - intros c i Hc Hi. destruct (i10 c i Hc Hi) as [S1 S2 S3 S4]. split; try done. simpl.
    change (ad (set_hp_mem m' h) i) with (ad h i). unfold flist in *. rewrite (Hhd c) by (done || by right).
    apply (slots_from_ext h); [|done]. intros x Hx. apply Hw. by apply (free_slot_word h g c i).
  - intros x [c|i p n] Hx; pose proof (i11 x _ Hx) as Hok; [done|].
    destruct Hok as (H1 & H2 & H3 & H4 & H5 & H6 & H7). repeat split; try done.
    + simpl. apply Hal; [done|]. right. eauto.
    + change (ad (set_hp_mem m' h) i) with (ad h i). rewrite <-H7. apply Hw. right. eauto 10.
Qed.

(** ** Rewriting one slab page *)

(** A word written into an allocated block leaves the page allocator alone. *)
Lemma Inv_write h g i p a v :
  HInv h g → allocated (hg_bl g) i p → in_range h i p a →
  Inv (set_ram (write_word a v (ram (hp_mem h))) (hp_mem h)) (hg_bl g).
Proof.
  intros I Ha Hr. apply Inv_ram; [apply I|]. intros j Hj. apply lookup_insert_ne. intros ->.
  rewrite <-(hi_base _ _ I) in Hr.
  apply (range_not_free h g i p j 0 I Ha Hj); [done|]. unfold ad. by rewrite N.add_0_r.
Qed.

Definition upd {K A} `{EqDecision K} (f : K → A) (i : K) (v : A) : K → A := λ j, if decide (j = i) then v else f j.
Lemma upd_eq {K A} `{EqDecision K} (f : K → A) i v : upd f i v i = v.
Proof. unfold upd. by rewrite decide_True. Qed.
Lemma upd_ne {K A} `{EqDecision K} (f : K → A) i v j : j ≠ i → upd f i v j = f j.
Proof. intros. unfold upd. by rewrite decide_False. Qed.

(** The heap after [a := v]. *)
Definition hwrite (a v : N) (h : KernelHeap) : KernelHeap :=
  set_hp_mem (set_ram (write_word a v (ram (hp_mem h))) (hp_mem h)) h.

Lemma rdw_eq a v h : rdw (hwrite a v h) a = v.
Proof. apply read_write_eq. Qed.
Lemma rdw_ne a v h b : a ≠ b → rdw (hwrite a v h) b = rdw h b.
Proof. apply read_write_ne. Qed.

(** [h'] is [h] with words of page [i] changed, its link to the next page not among them. *)
Record page_rewrite (h h' : KernelHeap) (i : N) : Prop := {
  pr_heads : hp_heads h' = hp_heads h;
  pr_class : hp_page_class h' = hp_page_class h;
  pr_area : hp_base h' = hp_base h ∧ hp_bytes h' = hp_bytes h;
  pr_buddy : buddy (hp_mem h') = buddy (hp_mem h);
  pr_next : rdw h' (nextp (ad h i)) = rdw h (nextp (ad h i));
  pr_words a : ¬ in_range h i 0 a → hram h' !! a = hram h !! a }.

Lemma page_rewrite_write h h' i u v :
  page_rewrite h h' i → 0 < u < PAGE_SIZE → page_rewrite h (hwrite (ad h i + u) v h') i.
Proof.
  intros [P1 P2 P3 P4 P5 P6] Hu. split; try done.
  - rewrite rdw_ne; [done|]. unfold nextp. lia.
  - intros a Ha. rewrite <-(P6 a Ha). apply lookup_insert_ne. intros <-. apply Ha, page_range. lia.
Qed.

Lemma page_rewrite_refl h i : page_rewrite h h i.
Proof. by split. Qed.

Lemma page_rewrite_rdw h h' i a : page_rewrite h h' i → ¬ in_range h i 0 a → rdw h' a = rdw h a.
Proof. intros P Ha. unfold rdw, read_word. by rewrite (pr_words _ _ _ P a Ha). Qed.

Lemma HInv_slab h g h' c i fs' lv' :
  HInv h g → (c < 8)%nat → i ∈ hg_pages g c → page_rewrite h h' i →
  slab_ok h' lv' c i fs' → (∀ y, slot_at h c i y ∨ lv' !! y = hg_live g !! y) →
  HInv h' (mkHG (hg_bl g) (hg_pages g) (upd (hg_free g) i fs') lv').
Proof.
  intros I Hc Hi P Hs Hlv. pose proof I as [i1 i2 i3 i4 i5 i6 i7 i8 i9 i10 i11 i12].
  destruct P as [p1 p2 [p3 p3'] p4 p5 p6].
  assert (P : page_rewrite h h' i) by done.
  assert (∀ j, ad h' j = ad h j) as Ead by (intros; unfold ad; by rewrite p3).
  assert (∀ c j x, slot_at h' c j x ↔ slot_at h c j x) as Eslot by (intros; unfold slot_at; by rewrite Ead).
  assert (∀ j, class_at h' j = class_at h j) as Ecl by (intros; unfold class_at; by rewrite p2).
  assert (∀ c' j u, (c' < 8)%nat → j ∈ hg_pages g c' → j ≠ i → u < PAGE_SIZE → rdw h' (ad h j + u) = rdw h (ad h j + u)) as Hother.
  { intros c' j u Hc' Hj Hne Hu. apply (page_rewrite_rdw h h' i); [done|]. intros Hr. apply Hne.
    by apply (blocks_apart h g j 0 i 0 (ad h j + u) I (i9 c' j Hc' Hj) (i9 c i Hc Hi) (page_range h j u Hu)). }
  split; simpl; try (rewrite ?p1, ?p3, ?p3', ?p4; done).
  - destruct i1 as [Hb W]. split; [by rewrite p4|]. destruct (Inv_ram (hp_mem h) (hg_bl g) (hram h') (conj Hb W)) as [_ W'].
    + intros j Hj. rewrite <-i2. apply p6. fold (ad h j). rewrite <-(N.add_0_r (ad h j)).
      by apply (range_not_free h g i 0 j 0 I (i9 c i Hc Hi) Hj).
    + destruct W' as [fl W']. exists fl. destruct (hp_mem h') as [b' r'] eqn:Em. simpl in *. subst b'.
      unfold hram in W'. rewrite Em in W'. done.
  - rewrite p1. intros c' hd Hhd. apply (pages_from_ext h); [done| |by apply i6]. intros j Hj.
    destruct (decide (j = i)) as [->|Hne]; [done|]. unfold nextp. rewrite <-(N.add_0_r (ad h j)).
    apply (Hother c'); try done. apply lookup_lt_Some in Hhd. lia.
  - intros j c'. rewrite Ecl. apply i7.
  - intros c' j Hc' Hj. destruct (decide (j = i)) as [->|Hne].
    + rewrite upd_eq. by rewrite (hi_class_unique h g c' c i I).
    + rewrite upd_ne by done. destruct (i10 c' j Hc' Hj) as [S1 S2 S3 S4].
      split; [|done|intros x Hx; by apply Eslot, S3|].
      * rewrite Ead. unfold flist in *. rewrite (Hother c') by (done || (unfold PAGE_SIZE; lia)).
        apply (slots_from_ext h); [|done]. intros x Hx. destruct (S3 x Hx) as (u & Hu & ->).
        apply slot_off_bounds in Hu; [|done]. apply (Hother c'); try done. lia.
      * intros x Hx%Eslot. destruct (Hlv x) as [Hx'|El]; [|rewrite El; by apply S4].
        destruct Hne. by apply (slot_at_inj h c' c j i x).
  - intros x o Hx. destruct (Hlv x) as [Hsl|El].
    { destruct (so_live _ _ _ _ _ Hs x) as [[_ E]|[_ E]]; [by apply Eslot|congruence|].
      rewrite Hx in E. injection E as ->. split; [done|]. exists i. split; [done|]. by apply Eslot. }
    rewrite El in Hx. pose proof (i11 x o Hx) as Hok. destruct o as [c'|j p n].
    + destruct Hok as (Hc' & j & Hj & Hsl). split; [done|]. exists j. split; [done|]. by apply Eslot.
    + destruct Hok as (H1 & H2 & H3 & H4 & H5 & H6 & H7). unfold obj_ok. rewrite Ead, Ecl. repeat split; try done.
      rewrite <-H7. apply (page_rewrite_rdw h h' i); [done|]. intros Hr.
      destruct (blocks_apart h g j p i 0 (x - 8) I H1 (i9 c i Hc Hi)) as [-> _];
        [unfold in_range; lia|done|]. by rewrite (proj2 (i7 i c)) in H2.
  - intros x y j p n p' n' Hx Hy. apply (i12 x y j p n p' n').
    + destruct (Hlv x) as [Hsl|<-]; [|done]. exfalso. destruct (so_live _ _ _ _ _ Hs x) as [[_ E]|[_ E]]; [by apply Eslot|congruence..].
    + destruct (Hlv y) as [Hsl|<-]; [|done]. exfalso. destruct (so_live _ _ _ _ _ Hs y) as [[_ E]|[_ E]]; [by apply Eslot|congruence..].
Qed.

(** A block that others have allocated. *)
Definition others (h : KernelHeap) (g : HG) (i : N) (p : nat) : Prop :=
  allocated (hg_bl g) i p ∧ ¬ owned h g i.

(** A step: the invariant again, the same area, nothing kept is lost or changed, and the
    blocks of others stay theirs. *)
Record hstep (h : KernelHeap) (g : HG) (h' : KernelHeap) (g' : HG) : Prop := {
  hs_inv : HInv h' g';
  hs_area : hp_base h' = hp_base h ∧ hp_bytes h' = hp_bytes h;
  hs_kept a : kept h g a → kept h' g' a ∧ rdw h' a = rdw h a;
  hs_others i p : others h g i p → others h' g' i p }.

Lemma hstep_refl h g : HInv h g → hstep h g h g.
Proof. by split. Qed.

Lemma hstep_trans h1 g1 h2 g2 h3 g3 : hstep h1 g1 h2 g2 → hstep h2 g2 h3 g3 → hstep h1 g1 h3 g3.
Proof.
  intros [I1 [A1 B1] K1 O1] [I2 [A2 B2] K2 O2]. split; [done|split; congruence| |auto].
  intros a Ha. destruct (K1 a Ha) as [Ha' E1]. destruct (K2 a Ha') as [Ha'' E2]. split; congruence.
Qed.

(** What is kept stays kept when blocks, classes and the objects holding it do. *)
Lemma kept_mono h g h' g' a :
  hp_base h' = hp_base h →
  (∀ x o, hg_live g !! x = Some o → in_obj x o a → hg_live g' !! x = Some o) →
  (∀ i p, allocated (hg_bl g) i p → ¬ owned h g i → in_range h i p a → allocated (hg_bl g') i p ∧ ¬ owned h' g' i) →
  kept h g a → kept h' g' a.
Proof.
  intros Hb Hl Hu [(x & o & Hx & Ha)|(i & p & Hi & Ho & Ha)].
  - left. exists x, o. auto.
  - right. destruct (Hu i p Hi Ho Ha) as [Hi' Ho']. exists i, p. split; [done|]. split; [done|].
    unfold in_range, ad in *. by rewrite Hb.
Qed.

(** The blocks of others depend on the classes, the objects and the blocks. *)
Lemma others_mono h g h' g' i p :
  (∀ j q, allocated (hg_bl g) j q → ¬ owned h g j → allocated (hg_bl g') j q) →
  (owned h' g' i → owned h g i) → others h g i p → others h' g' i p.
Proof. intros Ha Ho [H1 H2]. split; [by apply Ha|tauto]. Qed.

(** Taking the first free slot of a page. *)
Lemma pop_slot h g c i x l :
  HInv h g → (c < 8)%nat → i ∈ hg_pages g c → hg_free g i = x :: l →
  hstep h g (hwrite (flist (ad h i)) (rdw h x) h)
    (mkHG (hg_bl g) (hg_pages g) (upd (hg_free g) i l) (<[x := Slot c]> (hg_live g))).
Proof.
  intros I Hc Hi Hf. pose proof (hi_slab _ _ I c i Hc Hi) as [S1 S2 S3 S4]. rewrite Hf in *.
  assert (page_rewrite h (hwrite (flist (ad h i)) (rdw h x) h) i) as P.
  { apply page_rewrite_write; [apply page_rewrite_refl|unfold PAGE_SIZE; lia]. }
  assert (∀ y, y ∈ x :: l → y ≠ flist (ad h i)) as Hny.
  { intros y Hy. destruct (S3 y Hy) as (u & Hu & ->). apply slot_off_bounds in Hu; [|done]. unfold flist. lia. }
  apply NoDup_cons in S2 as [Hxl S2].
  assert (hg_live g !! x = None) as Hxn.
  { destruct (S4 x) as [[_ ?]|[Hn _]]; [apply S3; by left|done|]. destruct Hn. by left. }
  assert (∀ j, owned (hwrite (flist (ad h i)) (rdw h x) h)
    (mkHG (hg_bl g) (hg_pages g) (upd (hg_free g) i l) (<[x := Slot c]> (hg_live g))) j → owned h g j) as Hown.
  { intros j [Ho|(y & q & n & Hy)]; [by left|right].
    simpl in Hy. apply lookup_insert_Some in Hy as [[_ Hy]|[_ Hy]]; [done|eauto]. }
  split; [|done| |intros j p; apply others_mono; [done|apply Hown]].
  - apply (HInv_slab h g _ c i); try done.
    + split; [|done|intros y Hy; apply S3; by right|].
      * change (ad (hwrite (flist (ad h i)) (rdw h x) h) i) with (ad h i). rewrite rdw_eq.
        destruct S1 as [_ S1]. apply (slots_from_ext h); [|done]. intros y Hy. apply rdw_ne. symmetry. apply Hny. by right.
      * intros y Hy. destruct (decide (y = x)) as [->|Hne]; [right; by rewrite lookup_insert_eq|].
        rewrite lookup_insert_ne by done. destruct (S4 y Hy) as [[[?|?]%elem_of_cons ?]|[Hn ?]]; [done|by left|right].
        split; [|done]. contradict Hn. by right.
    + intros y. destruct (decide (y = x)) as [->|Hne]; [left; apply S3; by left|right]. by rewrite lookup_insert_ne.
  - intros a Ha. split.
    + revert Ha. apply kept_mono; [done| |].
      * intros y o Hy _. simpl. rewrite lookup_insert_ne; [done|]. intros ->. congruence.
      * intros j p Hj Ho _. split; [done|]. contradict Ho. by apply Hown.
    + apply rdw_ne. intros <-. by apply (kept_not_header h g c i _ 8 I Hc Hi Ha).
Qed.

(** Giving a slot back. *)
Lemma push_slot h g c i x :
  HInv h g → (c < 8)%nat → i ∈ hg_pages g c → slot_at h c i x → hg_live g !! x = Some (Slot c) →
  let h' := hwrite (flist (ad h i)) x (hwrite x (rdw h (flist (ad h i))) h) in
  let g' := mkHG (hg_bl g) (hg_pages g) (upd (hg_free g) i (x :: hg_free g i)) (delete x (hg_live g)) in
  HInv h' g' ∧ (∀ a, kept h g a → ¬ in_obj x (Slot c) a → kept h' g' a ∧ rdw h' a = rdw h a) ∧
  ∀ j p, others h g j p → others h' g' j p.
Proof.
  intros I Hc Hi Hx Hl. pose proof (hi_slab _ _ I c i Hc Hi) as [S1 S2 S3 S4]. cbv zeta.
  destruct Hx as (u & Hu & ->). pose proof (slot_off_bounds c u Hc Hu) as Hb.
  set (x := ad h i + u) in *. assert (slot_at h c i x) as Hx by (by exists u).
  assert (x ∉ hg_free g i) as Hnf by (destruct (S4 x Hx) as [[_ ?]|[? _]]; [congruence|done]).
  set (h' := hwrite (flist (ad h i)) x (hwrite x (rdw h (flist (ad h i))) h)).
  assert (page_rewrite h h' i) as P.
  { apply (page_rewrite_write h _ i 8); [|unfold PAGE_SIZE; lia].
    apply (page_rewrite_write h h i u); [apply page_rewrite_refl|lia]. }
  assert (∀ y v, slot_off c v → y = ad h i + v → y ≠ x → rdw h' y = rdw h y) as Hsame.
  { intros y v Hv -> Hne. apply slot_off_bounds in Hv; [|done]. unfold h'. rewrite !rdw_ne; [done|congruence|].
    unfold flist. lia. }
  assert (rdw h' x = rdw h (flist (ad h i))) as Ex.
  { unfold h'. rewrite rdw_ne by (unfold flist, x; lia). apply rdw_eq. }
  assert (∀ j, owned h' (mkHG (hg_bl g) (hg_pages g) (upd (hg_free g) i (x :: hg_free g i)) (delete x (hg_live g))) j →
    owned h g j) as Hown.
  { intros j [Ho|(y & q & n & Hy)]; [by left|right]. simpl in Hy. apply lookup_delete_Some in Hy as [_ Hy]. eauto. }
  split; [|split; [|intros j p; apply others_mono; [done|apply Hown]]].
  - apply (HInv_slab h g h' c i); try done.
    + split.
      * change (ad h' i) with (ad h i). unfold h' at 2. rewrite rdw_eq. split; [done|]. rewrite Ex.
        apply (slots_from_ext h); [|done]. intros y Hy. destruct (S3 y Hy) as (v & Hv & E).
        apply (Hsame y v); [done|done|]. by intros ->.
      * by constructor.
      * intros y [->|Hy]%elem_of_cons; [done|by apply S3].
      * intros y Hy. destruct (decide (y = x)) as [->|Hne]; [left; split; [by left|by rewrite lookup_delete_eq]|].
        rewrite lookup_delete_ne by done. destruct (S4 y Hy) as [[? ?]|[Hn ?]]; [left; split; [by right|done]|right].
        split; [|done]. by intros [?|?]%elem_of_cons.
    + intros y. destruct (decide (y = x)) as [->|Hne]; [by left|right]. by rewrite lookup_delete_ne.
  - intros a Ha Hna. split.
    + revert Ha. apply kept_mono; [done| |].
      * intros y o Hy Ho. simpl. rewrite lookup_delete_ne; [done|]. intros ->. rewrite Hl in Hy. by simplify_eq.
      * intros j p Hj Ho _. split; [done|]. contradict Ho. by apply Hown.
    + unfold h'. rewrite !rdw_ne; [done| |].
      * intros <-. apply Hna. unfold in_obj. simpl. lia.
      * intros <-. by apply (kept_not_header h g c i _ 8 I Hc Hi Ha).
Qed.

(** ** The page allocator underneath *)

Definition with_bl (bl : blocks) (g : HG) : HG := mkHG bl (hg_pages g) (hg_free g) (hg_live g).

Lemma frame_rdw h g (P : N → Prop) m' a :
  HInv h g → frame P (hp_mem h) m' → (∀ i, P i → a ≠ ad h i) → read_word a (ram m') = rdw h a.
Proof.
  intros I F Ha. unfold rdw, hram, read_word. rewrite (f_ram _ _ _ F); [done|].
  intros i Hi. rewrite <-(hi_base _ _ I). by apply Ha.
Qed.

Lemma heap_word_not_free h g a x :
  HInv h g → heap_word h g a → free_page (hg_bl g) x → a ≠ ad h x.
Proof.
  intros I Hw Hf ->. destruct (heap_word_owned h g _ I Hw) as (i & p & Ha & _ & Hr).
  apply (range_not_free h g i p x 0 I Ha Hf); [done|]. by rewrite N.add_0_r.
Qed.

(** A block the heap takes from the page allocator is nobody's yet. *)
Record taken (h : KernelHeap) (g : HG) (m' : PMem) (bl' : blocks) (i : N) (o : nat) : Prop := {
  tk_step : hstep h g (set_hp_mem m' h) (with_bl bl' g);
  tk_alloc : allocated bl' i o;
  tk_unowned : ¬ owned (set_hp_mem m' h) (with_bl bl' g) i;
  tk_apart a : kept h g a → ¬ in_range h i o a;
  tk_align : aligned i o;
  tk_new p : ¬ allocated (hg_bl g) i p;
  tk_blocks j q : allocated bl' j q ↔ allocated (hg_bl g) j q ∨ (j = i ∧ q = o);
  tk_area : same_area (hp_mem h) m' }.

Lemma heap_take h g o :
  HInv h g → (o ≤ MAX_ORDER)%nat →
  (onm (alloc_pages o) h = Ret (None, h) ∧ ∀ i p, hg_bl g !! i = Some (p, Free) → (p < o)%nat) ∨
  ∃ i m' bl', onm (alloc_pages o) h = Ret (Some (ad h i), set_hp_mem m' h) ∧ taken h g m' bl' i o.
Proof.
  intros I Ho. unfold onm, lift, alloc_pages.
  destruct (buddy_alloc_cases (hp_mem h) (hg_bl g) o (hi_inv _ _ I) Ho) as [[E Hn]|(i & m' & bl' & E & [q1 q2 q3 q4 q5 q6])]; rewrite E.
  { left. split; [by destruct h|done]. }
  right. exists i, m', bl'. rewrite <-(hi_base _ _ I). split; [done|].
  assert (¬ ∃ p, allocated (hg_bl g) i p) as Hnew.
  { intros [p Hp]. apply (allocated_not_free _ _ i p i (hi_inv _ _ I) Hp (in_block_head i p)). apply q3, in_block_head. }
  assert (¬ owned h g i) as Hun.
  { intros [Hcl|(x & p & n & Hx)].
    - destruct (class_at h i) as [c|] eqn:E'; [|done]. apply (hi_class _ _ I) in E' as [Hc Hi].
      apply Hnew. exists O. exact (hi_alloc _ _ I c i Hc Hi).
    - pose proof (hi_live _ _ I _ _ Hx) as (Ha & _). eauto. }
  assert (∀ a, kept h g a → ∀ x, free_page (hg_bl g) x → a ≠ ad h x) as Hkf.
  { intros a Ha x Hx. rewrite <-(N.add_0_r (ad h x)). by apply (kept_not_free_page h g x 0 a I Hx). }
  split; [split|..].
  - apply HInv_mem; [done|done|split; apply q6| |].
    + intros j p Hj _. apply q5. by left.
    + intros a Ha. apply (frame_rdw h g _ m' a I q6). intros x Hx. by apply (heap_word_not_free h g a x I).
  - done.
  - intros a Ha. split.
    + revert Ha. apply kept_mono; [done|done|]. intros j p Hj Hoj _. split; [apply q5; by left|done].
    + apply (frame_rdw h g _ m' a I q6). intros x Hx. by apply Hkf.
  - intros j p. apply others_mono; [|done]. intros k q Hk _. apply q5. by left.
  - apply q5. by right.
  - done.
  - intros a Ha Hr. destruct (in_range_page h i o a Hr) as (j & u & Hj & Hu & ->).
    by apply (kept_not_free_page h g j u _ I (q3 j Hj) Hu Ha).
  - apply q2.
  - intros p Hp. by apply Hnew; exists p.
  - intros j q. rewrite q5. naive_solver.
  - split; apply q6.
Qed.

(** A block that is not the heap's any more goes back. *)
Lemma heap_release h g i p :
  HInv h g → allocated (hg_bl g) i p → ¬ owned h g i →
  ∃ m' bl', onm (free_pages (ad h i)) h = Ret (Ok tt, set_hp_mem m' h) ∧
    HInv (set_hp_mem m' h) (with_bl bl' g) ∧
    (∀ j q, allocated bl' j q ↔ allocated (hg_bl g) j q ∧ j ≠ i) ∧
    (∀ x, free_page bl' x ↔ free_page (hg_bl g) x ∨ in_block i p x) ∧ same_area (hp_mem h) m' ∧
    ∀ a, kept h g a → ¬ in_range h i p a → kept (set_hp_mem m' h) (with_bl bl' g) a ∧ rdw (set_hp_mem m' h) a = rdw h a.
Proof.
  intros I Ha Hun. unfold onm, lift, free_pages, ad. rewrite (hi_base _ _ I).
  destruct (buddy_free_used (hp_mem h) (hg_bl g) i p (hi_inv _ _ I) Ha) as (m' & bl' & E & [q1 q2 q3 q4 q5]). rewrite E.
  exists m', bl'. split; [done|]. split; [|split; [done|split; [done|split; [split; apply q4|]]]].
  - apply HInv_mem; [done|done|split; apply q4| |].
    + intros j q Hj Ho. apply q3. split; [done|]. by intros ->.
    + intros a Hw. apply (frame_rdw h g _ m' a I q4). intros x [Hx|Hx]; [by apply (heap_word_not_free h g a x I)|].
      intros ->. destruct (heap_word_owned h g _ I Hw) as (j & q & Hj & Ho & Hr).
      destruct (blocks_apart h g i p j q (ad h x) I Ha Hj) as [<- _]; [|done|done].
      unfold in_range, ad, in_block, PAGE_SIZE in *. lia.
  - intros a Hk Hn. split.
    + revert Hk. apply kept_mono; [done|done|]. intros j q Hj Ho Hr. split; [|done]. apply q3. split; [done|].
      intros ->. apply Hn. unfold allocated in *. rewrite Ha in Hj. by simplify_eq.
    + apply (frame_rdw h g _ m' a I q4). intros x [Hx|Hx].
      * rewrite <-(N.add_0_r (ad h x)). by apply (kept_not_free_page h g x 0 a I Hx).
      * intros ->. apply Hn. unfold in_range, ad, in_block, PAGE_SIZE in *. lia.
Qed.

(** ** Blocks in transit *)

(** [h'] is [h] with words of the block changed. *)
Record block_rewrite (h h' : KernelHeap) (i : N) (p : nat) : Prop := {
  br_heads : hp_heads h' = hp_heads h;
  br_class : hp_page_class h' = hp_page_class h;
  br_area : hp_base h' = hp_base h ∧ hp_bytes h' = hp_bytes h;
  br_buddy : buddy (hp_mem h') = buddy (hp_mem h);
  br_words a : ¬ in_range h i p a → hram h' !! a = hram h !! a }.

Lemma block_rewrite_refl h i p : block_rewrite h h i p.
Proof. by split. Qed.

Lemma block_rewrite_write h h' i p a v :
  block_rewrite h h' i p → in_range h i p a → block_rewrite h (hwrite a v h') i p.
Proof.
  intros [P1 P2 P3 P4 P5] Ha. split; try done. intros b Hb. rewrite <-(P5 b Hb). apply lookup_insert_ne. by intros ->.
Qed.

Lemma block_rewrite_rdw h h' i p a : block_rewrite h h' i p → ¬ in_range h i p a → rdw h' a = rdw h a.
Proof. intros P Ha. unfold rdw, read_word. by rewrite (br_words _ _ _ _ P a Ha). Qed.

Lemma block_rewrite_owned h h' g i p j : block_rewrite h h' i p → owned h' g j ↔ owned h g j.
Proof. intros B. unfold owned, class_at. by rewrite (br_class _ _ _ _ B). Qed.

Lemma HInv_unowned h g h' i p :
  HInv h g → allocated (hg_bl g) i p → ¬ owned h g i → block_rewrite h h' i p →
  HInv h' g ∧ ¬ owned h' g i ∧
  ∀ a, kept h g a → ¬ in_range h i p a → kept h' g a ∧ rdw h' a = rdw h a.
Proof.
  intros I Ha Hun B. pose proof B as [b1 b2 [b3 b3'] b4 b5].
  assert (h' = set_hp_mem (hp_mem h') h) as Eh.
  { destruct h', h. simpl in *. by subst. }
  split; [|split; [by rewrite (block_rewrite_owned _ _ _ _ _ _ B)|]].
  - rewrite Eh. destruct g as [bl pg fr lv]. apply (HInv_mem h (mkHG bl pg fr lv)); [done| | |done|].
    + destruct (hi_inv _ _ I) as [Hb W].
      destruct (Inv_ram (hp_mem h) bl (hram h') (conj Hb W)) as [Hb' [fl W']].
      * intros j Hj. rewrite <-(hi_base _ _ I). apply b5. fold (ad h j). rewrite <-(N.add_0_r (ad h j)).
        by apply (range_not_free h _ i p j 0 I Ha Hj).
      * split; [by rewrite b4|]. exists fl. unfold hram in W'.
        destruct (hp_mem h') as [bb rr]. simpl in *. by subst.
    + split; by rewrite b4.
    + intros a Hw. apply (block_rewrite_rdw h h' i p); [done|]. intros Hr.
      destruct (heap_word_owned h _ a I Hw) as (j & q & Hj & Ho & Hr').
      by destruct (blocks_apart h _ i p j q a I Ha Hj Hr Hr') as [<- _].
  - intros a Hk Hn. split; [|by apply (block_rewrite_rdw h h' i p)].
    revert Hk. apply kept_mono; [done|done|]. intros j q Hj Ho _. split; [done|].
    unfold owned, class_at in *. by rewrite b2.
Qed.

(** No object lives in a block that the heap does not own. *)
Lemma unowned_no_obj h g i p x :
  HInv h g → allocated (hg_bl g) i p → ¬ owned h g i → in_range h i p x → hg_live g !! x = None.
Proof.
  intros I Ha Hun Hr. destruct (hg_live g !! x) as [o|] eqn:E; [|done]. destruct Hun.
  pose proof (hi_live _ _ I _ _ E) as Hok. destruct o as [c|j q n].
  - destruct Hok as (Hc & j & Hj & Hs).
    destruct (blocks_apart h g i p j 0 x I Ha (hi_alloc _ _ I c j Hc Hj) Hr) as [-> _].
    { apply (slot_in_page h c j x x Hc Hs). destruct Hs as (u & Hu & ->). apply slot_off_bounds in Hu; [|done].
      unfold in_obj. simpl. lia. }
    left. by rewrite (proj2 (hi_class _ _ I j c)).
  - destruct Hok as (Hj & _ & Hn & _ & H1 & H2 & _).
    destruct (blocks_apart h g i p j q x I Ha Hj Hr) as [-> _]; [unfold in_range; lia|]. right. eauto.
Qed.
