(* ===== verification/HeapPages.v ===== *)
(** * Slab pages: how a page joins a class and how it leaves

    [new_slab] with its loop over the slots, and [sweep_empty_pages] with its walk along
    the chains. *)

From Stdlib Require Import ZifyN ZifyNat.
From stdpp Require Import base gmap numbers functions list.
From S2P Require Import Prelude Mem Dyadic MemInv MemSpec MemProps PageAlloc Heap HeapInv HeapSteps.

(** ** A page joins *)

Definition join (h : KernelHeap) (c : nat) (i : N) : KernelHeap :=
  set_hp_heads (<[c := ad h i]> (hp_heads h)) (set_hp_page_class (<[i := N.of_nat c]> (hp_page_class h)) h).

Lemma class_at_insert h i c j :
  (c < 8)%nat →
  class_at (set_hp_page_class (<[i := N.of_nat c]> (hp_page_class h)) h) j =
    if decide (j = i) then Some c else class_at h j.
Proof.
  intros Hc. unfold class_at. simpl. case_decide as Hj; [subst j; rewrite lookup_insert_eq|by rewrite lookup_insert_ne].
  simpl. unfold NOT_SLAB. rewrite (proj2 (N.eqb_neq _ _)) by lia. by rewrite Nat2N.id.
Qed.

Lemma slab_ok_same h h' lv c i fs :
  hp_base h' = hp_base h → hp_mem h' = hp_mem h → slab_ok h lv c i fs → slab_ok h' lv c i fs.
Proof.
  intros Hb Hm [S1 S2 S3 S4].
  assert (∀ x, slot_at h' c i x ↔ slot_at h c i x) as Es by (intros; unfold slot_at, ad; by rewrite Hb).
  assert (∀ a, rdw h' a = rdw h a) as Er by (intros; unfold rdw, hram; by rewrite Hm).
  split; [|done|intros x Hx; by apply Es, S3|intros x Hx; by apply S4, Es].
  unfold ad. rewrite Hb, Er. apply (slots_from_ext h); [|done]. intros; apply Er.
Qed.

Lemma claim_page h g c i hd fs :
  HInv h g → (c < 8)%nat → allocated (hg_bl g) i 0 → ¬ owned h g i →
  hp_heads h !! c = Some hd → rdw h (nextp (ad h i)) = hd →
  slots_from h (rdw h (flist (ad h i))) fs → NoDup fs → (∀ x, x ∈ fs ↔ slot_at h c i x) →
  let g' := mkHG (hg_bl g) (upd (hg_pages g) c (i :: hg_pages g c)) (upd (hg_free g) i fs) (hg_live g) in
  HInv (join h c i) g' ∧ (∀ a, kept h g a → ¬ in_range h i 0 a → kept (join h c i) g' a) ∧
  ∀ j p, others h g j p → j ≠ i → others (join h c i) g' j p.
Proof.
  intros I Hc Ha Hun Hhd Hnx Hch Hnd Hfs. cbv zeta. pose proof I as [i1 i2 i3 i4 i5 i6 i7 i8 i9 i10 i11 i12].
  assert (∀ c', (c' < 8)%nat → i ∉ hg_pages g c') as Hnew.
  { intros c' Hc' Hi. apply Hun. left. by rewrite (proj2 (i7 i c')). }
  assert (∀ j, class_at (join h c i) j = if decide (j = i) then Some c else class_at h j) as Ecl
    by (intros j; by apply (class_at_insert h i c j)).
  assert (∀ j, j ≠ i → owned (join h c i) (mkHG (hg_bl g) (upd (hg_pages g) c (i :: hg_pages g c)) (upd (hg_free g) i fs) (hg_live g)) j →
    owned h g j) as Hown.
  { intros j Hj [Ho|Ho]; [left|by right]. by rewrite Ecl, decide_False in Ho. }
  split; [|split].
  - split; simpl; try done.
    + by rewrite length_insert.
    + intros c' hd' Hl. apply list_lookup_insert_Some in Hl as [(<- & <- & _)|(Hne & Hl)].
      * rewrite upd_eq. split; [done|]. apply (pages_from_ext h); [done|done|].
        change (rdw (join h c i) (nextp (ad (join h c i) i))) with (rdw h (nextp (ad h i))). rewrite Hnx. by apply i6.
      * rewrite upd_ne by done. apply (pages_from_ext h); [done|done|]. by apply i6.
    + intros j c'. rewrite Ecl. destruct (decide (c' = c)) as [->|Hne].
      * rewrite upd_eq, elem_of_cons. case_decide as Hj; [naive_solver|]. rewrite i7. naive_solver.
      * rewrite upd_ne by done. case_decide as Hj; [|by rewrite i7]. subst j.
        split; [congruence|]. intros [Hc' Hi]. by apply Hnew in Hi.
    + intros c' Hc'. destruct (decide (c' = c)) as [->|Hne]; [|rewrite upd_ne by done; by apply i8].
      rewrite upd_eq. constructor; [by apply Hnew|by apply i8].
    + intros c' j Hc'. destruct (decide (c' = c)) as [->|Hne]; [|rewrite upd_ne by done; by apply i9].
      rewrite upd_eq. intros [->|Hj]%elem_of_cons; [done|by apply (i9 c)].
    + intros c' j Hc' Hj. destruct (decide (j = i)) as [->|Hji].
      * rewrite upd_eq. assert (c' = c) as ->.
        { destruct (decide (c' = c)) as [|Hne]; [done|]. rewrite upd_ne in Hj by done. by apply Hnew in Hj. }
        split; [by apply (slots_from_ext h)|done|intros x Hx; by apply Hfs|]. intros x Hx. left. split; [by apply Hfs|].
        apply (unowned_no_obj h g i 0 x I Ha Hun). destruct Hx as (u & Hu & ->).
        apply slot_off_bounds in Hu; [|done].
        apply (page_range h i u). lia.
      * rewrite upd_ne by done. apply (slab_ok_same h); [done|done|]. apply (i10 c'); [done|]. destruct (decide (c' = c)) as [->|Hne]; [|by rewrite upd_ne in Hj].
        rewrite upd_eq in Hj. by apply elem_of_cons in Hj as [?|?].
    + intros x [c'|j p n] Hx; pose proof (i11 x _ Hx) as Hok; simpl in Hok.
      * destruct Hok as (Hc' & j & Hj & Hs). split; [done|]. exists j. split; [|done]. simpl.
        destruct (decide (c' = c)) as [->|Hne]; [rewrite upd_eq; by right|by rewrite upd_ne].
      * destruct Hok as (H1 & H2 & H3). unfold obj_ok. split; [done|]. split; [|done].
        rewrite Ecl, decide_False; [done|]. intros ->. apply Hun. right. eauto.
  - intros a Hk Hn. revert Hk. apply kept_mono; [done|done|]. intros j p Hj Ho Hr. split; [done|].
    contradict Ho. destruct (decide (j = i)) as [->|Hji]; [|by apply Hown].
    exfalso. apply Hn. unfold allocated in *. rewrite Ha in Hj. by simplify_eq.
  - intros j p Ho Hj. revert Ho. apply others_mono; [done|by apply Hown].
Qed.

(** ** The slots of a new page *)

Definition slot_no (h : KernelHeap) (c : nat) (i k : N) : N := ad h i + k * ssize c.
Definition slot_count (c : nat) : N := PAGE_SIZE / ssize c.
Definition slots (h : KernelHeap) (c : nat) (i : N) : list N :=
  map (slot_no h c i) (nrange 1 (N.to_nat (slot_count c - 1))).

Lemma slot_count_spec c : (c < 8)%nat → PAGE_SIZE = slot_count c * ssize c ∧ 2 ≤ slot_count c ≤ 256 ∧ 16 ≤ ssize c.
Proof.
  intros Hc. destruct (ssize_divides c Hc) as (k & Hk & E & Hs & _).
  assert (slot_count c = k) as Ek by (unfold slot_count; rewrite E; apply N.div_mul; lia).
  rewrite Ek. split; [done|]. split; [|done]. unfold PAGE_SIZE in E. nia.
Qed.

Lemma elem_of_slots h c i x : (c < 8)%nat → x ∈ slots h c i ↔ slot_at h c i x.
Proof.
  intros Hc. destruct (slot_count_spec c Hc) as (E & Hn & Hs). unfold slots, slot_at, slot_off, slot_no.
  rewrite list_elem_of_fmap. setoid_rewrite elem_of_nrange. split.
  - intros (k & -> & Hk). exists (k * ssize c). split; [|done]. exists k. split; [lia|]. split; [done|]. rewrite E. nia.
  - intros (u & (k & Hk & -> & Hle) & ->). exists k. split; [done|]. rewrite E in Hle. split; [done|].
    enough (k < slot_count c) by lia. nia.
Qed.

Lemma slot_no_inj h c i j k : (c < 8)%nat → slot_no h c i j = slot_no h c i k → j = k.
Proof. intros Hc. destruct (slot_count_spec c Hc) as (_ & _ & Hs). unfold slot_no. nia. Qed.

Lemma NoDup_slots h c i : (c < 8)%nat → NoDup (slots h c i).
Proof.
  intros Hc. apply NoDup_fmap_2_strong; [|apply NoDup_nrange]. intros j k _ _. by apply slot_no_inj.
Qed.

Lemma slots_from_count h h' c i k n :
  (∀ j, k ≤ j < k + N.of_nat n → rdw h' (slot_no h c i j) = slot_no h c i (j + 1)) →
  rdw h' (slot_no h c i (k + N.of_nat n)) = USIZE_MAX →
  slots_from h' (slot_no h c i k) (map (slot_no h c i) (nrange k (S n))).
Proof.
  revert k. induction n as [|n IH]; intros k Hl Hz; cbn [nrange map slots_from]; (split; [done|]).
  { by rewrite N.add_0_r in Hz. }
  rewrite Hl by lia. apply IH.
  - intros j Hj. apply Hl. lia.
  - by replace (k + 1 + N.of_nat n) with (k + N.of_nat (S n)) by lia.
Qed.

(** Every slot but the last of the page. *)
Lemma link_slots_run h0 c i n :
  (c < 8)%nat → ∀ h k fuel, 2 ≤ k → k + N.of_nat n = slot_count c → (n < fuel)%nat → hp_base h = hp_base h0 → 0 < hp_base h →
  ∃ h', link_slots fuel (ssize c) (ad h0 i + PAGE_SIZE) (slot_no h0 c i (k - 1)) (slot_no h0 c i k) h =
      Ret (slot_no h0 c i (slot_count c - 1), h') ∧ block_rewrite h h' i 0 ∧
    (∀ j, k - 1 ≤ j < slot_count c - 1 → rdw h' (slot_no h0 c i j) = slot_no h0 c i (j + 1)) ∧
    (∀ a, (∀ j, k - 1 ≤ j < slot_count c - 1 → a ≠ slot_no h0 c i j) → rdw h' a = rdw h a).
Proof.
  intros Hc. destruct (slot_count_spec c Hc) as (E & HK & Hs). induction n as [|n IH]; intros h k fuel Hk Hn Hf Hb H0;
    (destruct fuel as [|fuel]; [lia|]); cbn [link_slots].
  - rewrite (proj2 (N.leb_gt _ _)) by (unfold slot_no; nia). replace (slot_count c) with k by lia.
    exists h. split; [done|]. split; [apply block_rewrite_refl|]. split; [lia|done].
  - rewrite (proj2 (N.leb_le _ _)) by (unfold slot_no; rewrite E; nia).
    rewrite (proj2 (N.eqb_neq _ _)) by (unfold slot_no, ad; rewrite <-Hb; clear -H0; nia). cbn [negb].
    change (wr (slot_no h0 c i (k - 1)) (slot_no h0 c i k)) with (modify (hwrite (slot_no h0 c i (k - 1)) (slot_no h0 c i k))).
    rewrite bind_modify. set (h1 := hwrite _ _ h).
    replace (slot_no h0 c i k + ssize c) with (slot_no h0 c i (k + 1)) by (unfold slot_no; lia).
    destruct (IH h1 (k + 1) fuel) as (h' & Eh & B & Hl & Ho); [lia|lia|lia|done|done|].
    replace (k + 1 - 1) with k in * by lia. exists h'. split; [done|].
    assert (block_rewrite h h1 i 0) as B1.
    { apply block_rewrite_write; [apply block_rewrite_refl|]. unfold slot_no.
      replace (ad h0 i) with (ad h i) by (unfold ad; by rewrite Hb). apply page_range. rewrite E. nia. }
    split; [|split].
    + destruct B as [x1 x2 [x3 x3'] x4 x5], B1 as [y1 y2 [y3 y3'] y4 y5]. split; [congruence|congruence|split; congruence|congruence|].
      intros a Ha. rewrite x5, y5; [done|done|]. unfold in_range, ad in *. by rewrite y3.
    + intros j Hj. destruct (decide (j = k - 1)) as [->|Hne]; [|apply Hl; lia].
      rewrite Ho; [unfold h1; rewrite rdw_eq; f_equal; lia|].
      intros j' Hj' Ej. apply slot_no_inj in Ej; [lia|done].
    + intros a Ha. rewrite Ho; [|intros j Hj; apply Ha; lia]. apply rdw_ne. symmetry. apply Ha. lia.
Qed.

Lemma wr_eq a v h : wr a v h = Ret (tt, hwrite a v h).
Proof. done. Qed.

Lemma link_all_run h c i fuel :
  (c < 8)%nat → 0 < hp_base h → (256 ≤ fuel)%nat →
  ∃ h1, link_slots (S fuel) (ssize c) (ad h i + PAGE_SIZE) 0 (slot_no h c i 1) h =
      Ret (slot_no h c i (slot_count c - 1), h1) ∧ block_rewrite h h1 i 0 ∧
    ∀ j, 1 ≤ j < slot_count c - 1 → rdw h1 (slot_no h c i j) = slot_no h c i (j + 1).
Proof.
  intros Hc H0 Hf. destruct (slot_count_spec c Hc) as (E & HK & Hs).
  cbn [link_slots]. rewrite (proj2 (N.leb_le _ _)) by (unfold slot_no; rewrite E; nia).
  change (negb (0 =? 0)) with false. cbv iota. rewrite bind_mret_l.
  replace (slot_no h c i 1 + ssize c) with (slot_no h c i 2) by (unfold slot_no; lia).
  destruct (link_slots_run h c i (N.to_nat (slot_count c - 2)) Hc h 2 fuel) as (h1 & E1 & B1 & L1 & _);
    [lia|lia|lia|done|done|]. exists h1. by split.
Qed.

Lemma init_slab_run h c i :
  (c < 8)%nat → 0 < hp_base h →
  ∃ h', init_slab (ad h i) (ssize c) h = Ret (tt, h') ∧ block_rewrite h h' i 0 ∧
    slots_from h' (rdw h' (flist (ad h i))) (slots h c i).
Proof.
  intros Hc H0. destruct (slot_count_spec c Hc) as (E & HK & Hs). unfold init_slab.
  replace (ad h i + ssize c) with (slot_no h c i 1) by (unfold slot_no; lia).
  destruct (link_all_run h c i (N.to_nat PAGE_SIZE) Hc H0) as (h1 & E1 & B1 & L1); [unfold PAGE_SIZE; lia|].
  rewrite (bind_ret _ _ _ _ _ E1).
  set (z := slot_no h c i (slot_count c - 1)).
  assert (z = ad h i + (slot_count c - 1) * ssize c) as Ez by done.
  assert (16 ≤ (slot_count c - 1) * ssize c < PAGE_SIZE) as Hz by (rewrite E; nia).
  rewrite (proj2 (N.eqb_neq z 0)) by (rewrite Ez; unfold ad; lia). cbn [negb].
  rewrite (bind_ret _ _ _ _ _ (wr_eq z _ h1)), (bind_ret _ _ _ _ _ (wr_eq (nextp (ad h i)) _ _)).
  rewrite (wr_eq (flist (ad h i))). eexists. split; [done|]. split.
  - repeat apply block_rewrite_write; try done.
    + rewrite Ez. apply page_range. lia.
    + unfold nextp. rewrite <-(N.add_0_r (ad h i)). by apply page_range.
    + apply page_range. unfold PAGE_SIZE. lia.
  - rewrite rdw_eq. unfold slots. replace (N.to_nat (slot_count c - 1)) with (S (N.to_nat (slot_count c - 2))) by lia.
    assert (∀ j, 1 ≤ j → slot_no h c i j ≠ ad h i ∧ slot_no h c i j ≠ ad h i + 8) as Hoff.
    { intros j Hj. unfold slot_no. assert (16 ≤ j * ssize c) by nia. lia. }
    apply slots_from_count.
    + intros j Hj. destruct (Hoff j) as [O1 O2]; [lia|]. rewrite !rdw_ne; [apply L1; lia| | |].
      * intros Ej. apply slot_no_inj in Ej; [lia|done].
      * unfold nextp. congruence.
      * unfold flist. congruence.
    + replace (1 + N.of_nat (N.to_nat (slot_count c - 2))) with (slot_count c - 1) by lia.
      destruct (Hoff (slot_count c - 1)) as [O1 O2]; [lia|].
      rewrite rdw_ne, rdw_ne by (unfold nextp, flist; congruence). apply rdw_eq.
Qed.

Lemma class_index_ad h i : (ad h i - hp_base h) / PAGE_SIZE = i.
Proof. unfold ad. replace (hp_base h + i * PAGE_SIZE - hp_base h) with (i * PAGE_SIZE) by lia. by apply N.div_mul. Qed.

Lemma class_set_run h i v :
  slab_class_set (ad h i) v h = Ret (tt, set_hp_page_class (<[i := v]> (hp_page_class h)) h).
Proof.
  unfold slab_class_set. rewrite bind_get. unfold sub_. rewrite (proj2 (N.leb_le _ _)) by (unfold ad; lia).
  rewrite bind_mret_l, class_index_ad. done.
Qed.

(** ** A page leaves *)

Lemma pages_from_unlink h hd l1 k j l2 :
  NoDup (l1 ++ k :: j :: l2) → pages_from h hd (l1 ++ k :: j :: l2) →
  pages_from (hwrite (nextp (ad h k)) (rdw h (nextp (ad h j))) h) hd (l1 ++ k :: l2).
Proof.
  revert hd. induction l1 as [|i l1 IH]; intros hd Hnd; cbn [app pages_from].
  - intros (-> & Hj & Hl). split; [done|]. change (ad (hwrite _ _ h) k) with (ad h k). rewrite rdw_eq.
    apply (pages_from_ext h); [done| |done]. intros i Hi. apply rdw_ne. unfold nextp.
    rewrite <-(N.add_0_r (ad h k)), <-(N.add_0_r (ad h i)). intros [<- _]%ad_inj; [|done..].
    apply NoDup_cons in Hnd as [Hnd _]. apply Hnd. by right.
  - intros (-> & Hl). split; [done|]. apply NoDup_cons in Hnd as [Hi Hnd]. change (ad (hwrite _ _ h) i) with (ad h i).
    rewrite rdw_ne; [by apply IH|]. unfold nextp. rewrite <-(N.add_0_r (ad h k)), <-(N.add_0_r (ad h i)).
    intros [<- _]%ad_inj; [|done..]. apply Hi. apply elem_of_app. right. by left.
Qed.

Definition leave (h : KernelHeap) (k j : N) : KernelHeap :=
  set_hp_page_class (<[j := NOT_SLAB]> (hp_page_class h)) (hwrite (nextp (ad h k)) (rdw h (nextp (ad h j))) h).

Lemma class_at_leave h k j i : class_at (leave h k j) i = if decide (i = j) then None else class_at h i.
Proof.
  unfold class_at. simpl. case_decide as Hj; [subst i; by rewrite lookup_insert_eq|by rewrite lookup_insert_ne].
Qed.

Section unlink.
Context (h : KernelHeap) (g : HG) (c : nat) (l1 : list N) (k j : N) (l2 : list N).
Hypothesis I : HInv h g.
Hypothesis Hc : (c < 8)%nat.
Hypothesis Hpg : hg_pages g c = l1 ++ k :: j :: l2.
Hypothesis Hempty : ∀ x, slot_at h c j x → hg_live g !! x = None.
Let h' : KernelHeap := leave h k j.
Let g' : HG := mkHG (hg_bl g) (upd (hg_pages g) c (l1 ++ k :: l2)) (hg_free g) (hg_live g).

Lemma unlink_ends : k ∈ hg_pages g c ∧ j ∈ hg_pages g c.
Proof. rewrite Hpg, !elem_of_app, !elem_of_cons. tauto. Qed.

Lemma unlink_nodup : (j ∉ l1 ++ k :: l2) ∧ NoDup (l1 ++ k :: l2).
Proof.
  pose proof (hi_nodup _ _ I c Hc) as Hnd. rewrite Hpg in Hnd.
  assert (l1 ++ k :: j :: l2 ≡ₚ j :: l1 ++ k :: l2) as Hp by solve_Permutation.
  rewrite Hp in Hnd. by apply NoDup_cons in Hnd.
Qed.

Lemma unlink_pages c' i : (c' < 8)%nat → i ∈ hg_pages g' c' ↔ i ∈ hg_pages g c' ∧ i ≠ j.
Proof.
  intros Hc'. simpl. destruct (decide (c' = c)) as [->|Hne].
  - rewrite upd_eq, Hpg. destruct unlink_nodup as [Hjn _].
    rewrite !elem_of_app, !elem_of_cons in *. split; [|tauto]. intros H. split; [tauto|]. intros ->. tauto.
  - rewrite upd_ne by done. split; [|tauto]. intros Hi. split; [done|]. intros ->.
    apply Hne, (hi_class_unique h g c' c j I Hc' Hc Hi). apply unlink_ends.
Qed.

Lemma unlink_rdw a : a ≠ ad h k → rdw h' a = rdw h a.
Proof. intros Ha. by apply rdw_ne. Qed.

Lemma unlink_rdw_page i u : u < PAGE_SIZE → i ≠ k ∨ u ≠ 0 → rdw h' (ad h i + u) = rdw h (ad h i + u).
Proof.
  intros Hu Hne. apply unlink_rdw. rewrite <-(N.add_0_r (ad h k)). intros [-> ->]%ad_inj; [|done..]. tauto.
Qed.

Lemma unlink_heads c' hd : hp_heads h !! c' = Some hd → pages_from h' hd (hg_pages g' c').
Proof.
  intros Hhd. simpl. destruct (decide (c' = c)) as [->|Hne].
  - rewrite upd_eq. apply (pages_from_ext (hwrite (nextp (ad h k)) (rdw h (nextp (ad h j))) h)); [done|done|].
    pose proof (hi_nodup _ _ I c Hc) as Hnd. rewrite Hpg in Hnd.
    apply pages_from_unlink; [done|]. rewrite <-Hpg. by apply (hi_heads _ _ I).
  - rewrite upd_ne by done. apply (pages_from_ext h); [done| |by apply (hi_heads _ _ I)]. intros i Hi. unfold nextp.
    rewrite <-(N.add_0_r (ad h i)). apply unlink_rdw_page; [done|]. left. intros ->. apply Hne.
    apply lookup_lt_Some in Hhd. rewrite (hi_len _ _ I) in Hhd.
    apply (hi_class_unique h g c' c k I); [lia|done|done|apply unlink_ends].
Qed.

Lemma unlink_slab c' i : (c' < 8)%nat → i ∈ hg_pages g c' → slab_ok h' (hg_live g) c' i (hg_free g i).
Proof.
  intros Hc' Hi. destruct (hi_slab _ _ I c' i Hc' Hi) as [S1 S2 S3 S4].
  split; [|done..]. change (ad h' i) with (ad h i). unfold flist in *. rewrite unlink_rdw_page by (done || by right).
  apply (slots_from_ext h); [|done]. intros x Hx. destruct (S3 x Hx) as (u & Hu & ->).
  apply slot_off_bounds in Hu; [|done]. apply unlink_rdw_page; [lia|right; lia].
Qed.

Lemma unlink_live x o : hg_live g !! x = Some o → obj_ok h' g' x o.
Proof.
  intros Hx. pose proof (hi_live _ _ I x o Hx) as Hok. destruct unlink_ends as [Hk Hj]. destruct o as [c'|i p n].
  - destruct Hok as (Hc' & i & Hi & Hs). split; [done|]. exists i. split; [|done]. apply unlink_pages; [done|].
    split; [done|]. intros ->. assert (c' = c) as -> by by apply (hi_class_unique h g c' c j I).
    rewrite Hempty in Hx by done. done.
  - destruct Hok as (H1 & H2 & H3 & H4 & H5 & H6 & H7). repeat split; try done.
    { unfold h'. rewrite class_at_leave. by case_decide. }
    change (ad h' i) with (ad h i). rewrite <-H7. apply unlink_rdw. intros E.
    destruct (blocks_apart h g i p k 0 (x - 8) I H1 (hi_alloc _ _ I c k Hc Hk)) as [-> _].
    { unfold in_range. lia. } { rewrite E, <-(N.add_0_r (ad h k)). by apply page_range. }
    by rewrite (proj2 (hi_class _ _ I k c)) in H2.
Qed.

Lemma unlink_inv : HInv h' g'.
Proof.
  pose proof I as [i1 i2 i3 i4 i5 i6 i7 i8 i9 i10 i11 i12]. destruct unlink_ends as [Hk Hj].
  split; try done.
  - apply (Inv_write h g k 0); [done|exact (i9 c k Hc Hk)|]. unfold nextp. rewrite <-(N.add_0_r (ad h k)).
    by apply page_range.
  - apply unlink_heads.
  - intros i c'. unfold h'. rewrite class_at_leave. case_decide as Hij.
    { subst i. split; [done|]. intros [Hc' [_ ?]%unlink_pages]; done. }
    rewrite i7. split; intros [Hc' Hi]; (split; [done|]); [by apply unlink_pages|]. by apply unlink_pages in Hi as [? _].
  - intros c' Hc'. simpl. destruct (decide (c' = c)) as [->|Hne]; [|rewrite upd_ne by done; by apply i8].
    rewrite upd_eq. apply unlink_nodup.
  - intros c' i Hc' [Hi _]%unlink_pages; [|done]. by apply (i9 c').
  - intros c' i Hc' [Hi _]%unlink_pages; [|done]. by apply unlink_slab.
  - apply unlink_live.
Qed.

Lemma unlink_page :
  hstep h g h' g' ∧ ¬ owned h' g' j ∧ ∀ a, kept h g a → ¬ in_range h j 0 a.
Proof.
  destruct unlink_ends as [Hk Hj].
  assert (∀ i, owned h' g' i → owned h g i) as Hown.
  { intros i [Ho|Ho]; [left|by right]. unfold h' in Ho. rewrite class_at_leave in Ho. by case_decide. }
  split; [split; [apply unlink_inv|done| |intros i p; apply others_mono; [done|apply Hown]]|split].
  - intros a Ha. split.
    + revert Ha. apply kept_mono; [done|done|]. intros i p Hi Ho _. split; [done|]. contradict Ho. by apply Hown.
    + apply unlink_rdw. rewrite <-(N.add_0_r (ad h k)). by apply (kept_not_header h g c k a 0 I Hc Hk).
  - intros [Ho|(x & p & n & Hx)]; [unfold h' in Ho; by rewrite class_at_leave, decide_True in Ho|].
    pose proof (hi_live _ _ I x _ Hx) as (_ & Hn & _). by rewrite (proj2 (hi_class _ _ I j c)) in Hn.
  - intros a Ha Hra. destruct (kept_in_slab h g c j a I Hc Hj Ha Hra) as (x & Hx & Hlx & _).
    by rewrite Hempty in Hlx.
Qed.
End unlink.

(** ** The sweep *)

Definition hd_of (h : KernelHeap) (l : list N) : N := match l with [] => 0 | i :: _ => ad h i end.

Lemma pages_from_hd h hd l : pages_from h hd l → hd = hd_of h l.
Proof. destruct l; simpl; [done|]. by intros [-> _]. Qed.

Lemma pages_from_suffix h hd l1 k l : pages_from h hd (l1 ++ k :: l) → pages_from h (rdw h (nextp (ad h k))) l.
Proof. revert hd. induction l1 as [|i l1 IH]; intros hd; cbn [app pages_from]; intros [_ H]; eauto. Qed.

Lemma hi_next h g c l1 k l :
  HInv h g → (c < 8)%nat → hg_pages g c = l1 ++ k :: l → rdw h (nextp (ad h k)) = hd_of h l.
Proof.
  intros I Hc E. destruct (lookup_lt_is_Some_2 (hp_heads h) c) as [hd Hhd]; [rewrite (hi_len _ _ I); lia|].
  pose proof (hi_heads _ _ I c hd Hhd) as H. rewrite E in H. by apply pages_from_hd, (pages_from_suffix _ hd l1).
Qed.

Lemma page_not_end h g c i : HInv h g → (c < 8)%nat → i ∈ hg_pages g c → ad h i ≠ 0 ∧ ad h i + PAGE_SIZE < USIZE_MAX.
Proof.
  intros I Hc Hi. pose proof (area_allocated h g i 0 I (hi_alloc _ _ I c i Hc Hi)) as H.
  change (bsize 0) with 1 in H. destruct (hi_lim _ _ I). unfold ad in *. lia.
Qed.

Lemma free_slot_not_end h g c i x : HInv h g → (c < 8)%nat → i ∈ hg_pages g c → slot_at h c i x → x ≠ USIZE_MAX.
Proof.
  intros I Hc Hi (u & Hu & ->). apply slot_off_bounds in Hu; [|done].
  pose proof (page_not_end h g c i I Hc Hi). lia.
Qed.

Lemma count_free_run h cap l : ∀ hd n fuel,
  slots_from h hd l → (∀ x, x ∈ l → x ≠ USIZE_MAX) → (length l < fuel)%nat → n + N.of_nat (length l) ≤ cap →
  count_free fuel cap n hd h = Ret (n + N.of_nat (length l) =? cap, h).
Proof.
  induction l as [|x l IH]; intros hd n fuel Hl Hx Hf Hc; (destruct fuel as [|fuel]; [simpl in Hf; lia|]);
    cbn [count_free slots_from length] in *.
  - subst hd. rewrite N.eqb_refl. by rewrite N.add_0_r.
  - destruct Hl as [-> Hl]. rewrite (proj2 (N.eqb_neq _ _)) by (apply Hx; by left).
    rewrite (proj2 (N.ltb_ge _ _)) by lia. unfold rd. rewrite bind_gets. change (read_word x (ram (hp_mem h))) with (rdw h x).
    rewrite IH; [do 3 f_equal; lia|done| |lia|lia]. intros y Hy. apply Hx. by right.
Qed.

(** A page is empty when all its slots are free. *)
Lemma page_empty_run h g c i :
  HInv h g → (c < 8)%nat → i ∈ hg_pages g c →
  ∃ b, slab_page_empty (ad h i) c h = Ret (b, h) ∧ (b = true → ∀ x, slot_at h c i x → hg_live g !! x = None).
Proof.
  intros I Hc Hi. destruct (slot_count_spec c Hc) as (E & HK & Hs). pose proof (hi_slab _ _ I c i Hc Hi) as [S1 S2 S3 S4].
  unfold slab_page_empty. rewrite (bind_expect_some _ (ssize c)) by (by apply ssize_lookup). cbv zeta.
  assert ((PAGE_SIZE - ssize c) / ssize c = slot_count c - 1) as ->.
  { rewrite E. replace (slot_count c * ssize c - ssize c) with ((slot_count c - 1) * ssize c) by nia. apply N.div_mul. lia. }
  assert (hg_free g i ⊆+ slots h c i) as Hsub.
  { apply NoDup_submseteq; [done|]. intros x Hx. by apply elem_of_slots, S3. }
  assert (length (slots h c i) = N.to_nat (slot_count c - 1)) as Hlen.
  { unfold slots. by rewrite length_map, length_nrange. }
  pose proof (submseteq_length _ _ Hsub) as Hle. rewrite Hlen in Hle.
  unfold rd. rewrite bind_gets. change (read_word (flist (ad h i)) (ram (hp_mem h))) with (rdw h (flist (ad h i))).
  rewrite (count_free_run h _ (hg_free g i)); [|done| |lia|lia].
  2:{ intros x Hx. by apply (free_slot_not_end h g c i x I Hc Hi), S3. }
  eexists. split; [done|]. intros Hb%N.eqb_eq x Hx. destruct (S4 x Hx) as [[_ ?]|[Hn _]]; [done|]. destruct Hn.
  rewrite (submseteq_length_Permutation _ _ Hsub); [by apply elem_of_slots|]. rewrite Hlen. lia.
Qed.

(** What the sweep leaves: the objects, the heads, and at least as many free pages. *)
Record swept (h : KernelHeap) (g : HG) (h' : KernelHeap) (g' : HG) : Prop := {
  sw_step : hstep h g h' g';
  sw_live : hg_live g' = hg_live g;
  sw_heads : hp_heads h' = hp_heads h;
  sw_free x : free_page (hg_bl g) x → free_page (hg_bl g') x }.

Lemma swept_refl h g : HInv h g → swept h g h g.
Proof. intros I. by split; [apply hstep_refl|..]. Qed.

Lemma swept_trans h1 g1 h2 g2 h3 g3 : swept h1 g1 h2 g2 → swept h2 g2 h3 g3 → swept h1 g1 h3 g3.
Proof.
  intros [A1 A2 A3 A4] [B1 B2 B3 B4]. split; [by eapply hstep_trans|congruence|congruence|auto].
Qed.

(** One empty page goes back to the page allocator. *)
Lemma drop_page h g c l1 k j l2 :
  HInv h g → (c < 8)%nat → hg_pages g c = l1 ++ k :: j :: l2 → (∀ x, slot_at h c j x → hg_live g !! x = None) →
  ∃ h' g', (wr (nextp (ad h k)) (rdw h (nextp (ad h j)));; slab_class_set (ad h j) NOT_SLAB;;
            expect_ok (onm (free_pages (ad h j)))) h = Ret (tt, h') ∧
    swept h g h' g' ∧ hg_pages g' c = l1 ++ k :: l2.
Proof.
  intros I Hc Hpg Hempty. destruct (unlink_page h g c l1 k j l2 I Hc Hpg Hempty) as (St & Hun & Hap).
  set (g1 := mkHG _ _ _ _) in *. assert (j ∈ hg_pages g c) as Hj by (rewrite Hpg, elem_of_app, !elem_of_cons; tauto).
  assert (allocated (hg_bl g1) j 0) as Ha by exact (hi_alloc _ _ I c j Hc Hj).
  destruct (heap_release (leave h k j) g1 j 0 (hs_inv _ _ _ _ St) Ha Hun) as (m' & bl' & E & I' & Hb & Hf & _ & K').
  exists (set_hp_mem m' (leave h k j)), (with_bl bl' g1). split; [|split].
  - rewrite (bind_ret _ _ _ _ _ (wr_eq _ _ h)).
    change (ad h j) with (ad (hwrite (nextp (ad h k)) (rdw h (nextp (ad h j))) h) j) at 2.
    rewrite (bind_ret _ _ _ _ _ (class_set_run _ j NOT_SLAB)). by apply expect_ok_ok.
  - split; [|done|done|].
    + split; [done|done|..]. { intros a Hk. destruct (hs_kept _ _ _ _ St a Hk) as [Hk1 E1].
      destruct (K' a Hk1) as [Hk2 E2]; [by apply Hap|]. split; [done|congruence]. }
      intros i p Ho. pose proof (hs_others _ _ _ _ St i p Ho) as [H1 H2]. split; [|done]. apply Hb. split; [done|].
      intros ->. destruct Ho as [_ Ho]. apply Ho. left. by rewrite (proj2 (hi_class _ _ I j c)).
    + intros x Hx. apply Hf. by left.
  - simpl. by rewrite upd_eq.
Qed.

Lemma sweep_chain_run c l : (c < 8)%nat → ∀ h g l1 k fuel,
  HInv h g → hg_pages g c = l1 ++ k :: l → (length l < fuel)%nat →
  ∃ h' g', sweep_chain fuel c (ad h k) (hd_of h l) h = Ret (tt, h') ∧ swept h g h' g'.
Proof.
  intros Hc. induction l as [|j l IH]; intros h g l1 k fuel I Hpg Hf;
    (destruct fuel as [|fuel]; [simpl in Hf; lia|]); cbn [sweep_chain hd_of].
  { exists h, g. split; [done|by apply swept_refl]. }
  assert (j ∈ hg_pages g c) as Hj by (rewrite Hpg, elem_of_app, !elem_of_cons; tauto).
  pose proof (page_not_end h g c j I Hc Hj) as [Hj0 _]. rewrite (proj2 (N.eqb_neq _ _) Hj0).
  assert (hg_pages g c = (l1 ++ [k]) ++ j :: l) as Hpg' by (by rewrite Hpg, <-app_assoc).
  unfold rd. rewrite bind_gets. change (read_word (nextp (ad h j)) (ram (hp_mem h))) with (rdw h (nextp (ad h j))).
  destruct (page_empty_run h g c j I Hc Hj) as (b & Eb & Hb). rewrite (bind_ret _ _ _ _ _ Eb).
  simpl in Hf. destruct b.
  - destruct (drop_page h g c l1 k j l I Hc Hpg (Hb eq_refl)) as (h1 & g1 & E1 & S1 & P1).
    assert (ad h1 k = ad h k ∧ hd_of h1 l = hd_of h l) as [Ek El].
    { pose proof (proj1 (hs_area _ _ _ _ (sw_step _ _ _ _ S1))) as Hbase. unfold ad, hd_of, ad. rewrite Hbase. by destruct l. }
    destruct (IH h1 g1 l1 k fuel) as (h2 & g2 & E2 & S2); [apply S1|done|lia|].
    exists h2, g2. split; [|by eapply swept_trans].
    apply bind_ret_inv in E1 as ([] & ha & Ea & E1). apply bind_ret_inv in E1 as ([] & hb & Eb' & E1).
    rewrite (bind_ret _ _ _ _ _ Ea), (bind_ret _ _ _ _ _ Eb'), (bind_ret _ _ _ _ _ E1).
    rewrite (hi_next h g c _ j l I Hc Hpg'), <-Ek, <-El. done.
  - rewrite (hi_next h g c _ j l I Hc Hpg'). apply (IH h g (l1 ++ [k]) j fuel); [done|done|lia].
Qed.

(** A chain is no longer than the area has pages. *)
Lemma chain_fuel h g c : HInv h g → (c < 8)%nat → (length (hg_pages g c) < page_fuel h)%nat.
Proof.
  intros I Hc. unfold page_fuel. rewrite (hi_bytes _ _ I), N.div_mul by done.
  set (n := b_real_count (buddy (hp_mem h))). enough (length (hg_pages g c) ≤ N.to_nat n)%nat by lia.
  rewrite <-(length_nrange 0 (N.to_nat n)). apply submseteq_length, NoDup_submseteq; [by apply (hi_nodup _ _ I)|].
  intros i Hi. apply elem_of_nrange. pose proof (area_allocated h g i 0 I (hi_alloc _ _ I c i Hc Hi)) as H.
  rewrite (hi_bytes _ _ I) in H. change (bsize 0) with 1 in H. unfold ad, PAGE_SIZE in H. subst n. lia.
Qed.

Lemma sweep_class_run h g c :
  HInv h g → (c < 8)%nat → ∃ h' g', sweep_class c h = Ret (tt, h') ∧ swept h g h' g'.
Proof.
  intros I Hc. unfold sweep_class. rewrite bind_get.
  destruct (lookup_lt_is_Some_2 (hp_heads h) c) as [hd Hhd]; [rewrite (hi_len _ _ I); lia|].
  rewrite (bind_expect_some _ _ _ _ Hhd). pose proof (hi_heads _ _ I c hd Hhd) as Hp.
  destruct (hg_pages g c) as [|k l] eqn:Epg.
  - simpl in Hp. subst hd. exists h, g. split; [done|by apply swept_refl].
  - destruct Hp as [-> _]. destruct (page_not_end h g c k I Hc) as [Hk0 _]; [rewrite Epg; by left|].
    rewrite (proj2 (N.eqb_neq _ _) Hk0). unfold rd. rewrite bind_gets.
    change (read_word (nextp (ad h k)) (ram (hp_mem h))) with (rdw h (nextp (ad h k))).
    rewrite (hi_next h g c [] k l I Hc Epg). apply (sweep_chain_run c l Hc h g []); [done|done|].
    pose proof (chain_fuel h g c I Hc) as H. rewrite Epg in H. simpl in H. lia.
Qed.

Lemma sweep_run h g : HInv h g → ∃ h' g', sweep_empty_pages h = Ret (tt, h') ∧ swept h g h' g'.
Proof.
  intros I. unfold sweep_empty_pages.
  assert (∀ c, c ∈ seq 0 8 → (c < 8)%nat) as Hall by (intros c Hc%elem_of_seq; lia).
  revert h g I Hall. generalize (seq 0 8). intros cs. induction cs as [|c cs IH]; intros h g I Hall; cbn [for_each].
  { exists h, g. split; [done|by apply swept_refl]. }
  destruct (sweep_class_run h g c I) as (h1 & g1 & E1 & S1); [apply Hall; by left|].
  destruct (IH h1 g1) as (h2 & g2 & E2 & S2); [apply S1|intros c' Hc'; apply Hall; by right|].
  exists h2, g2. rewrite (bind_ret _ _ _ _ _ E1). split; [done|by eapply swept_trans].
Qed.
