(* ===== verification/HeapOps.v ===== *)
(** * The operations of the kernel heap

    [slab_alloc] and [page_alloc] with their failures, [dealloc] of a slot and of a large
    object, and the writes of a client to memory that is kept for it. *)

From Stdlib Require Import ZifyN ZifyNat.
From stdpp Require Import base gmap numbers functions list.
From S2P Require Import Prelude Mem Dyadic MemInv MemSpec MemProps PageAlloc Heap HeapInv HeapSteps HeapPages.

(** ** Slots *)

Lemma find_slot_run h g c l : (c < 8)%nat → HInv h g → ∀ hd fuel,
  (∀ i, i ∈ l → i ∈ hg_pages g c) → pages_from h hd l → (length l < fuel)%nat →
  (find_slot fuel hd h = Ret (None, h) ∧ ∀ i, i ∈ l → hg_free g i = []) ∨
  ∃ i x fs, i ∈ l ∧ hg_free g i = x :: fs ∧
    find_slot fuel hd h = Ret (Some x, hwrite (flist (ad h i)) (rdw h x) h).
Proof.
  intros Hc I. induction l as [|i l IH]; intros hd fuel Hl Hp Hf;
    (destruct fuel as [|fuel]; [simpl in Hf; lia|]); cbn [find_slot pages_from] in *.
  { subst hd. left. split; [done|]. by intros i ?%not_elem_of_nil. }
  destruct Hp as [-> Hp]. assert (i ∈ hg_pages g c) as Hi by (apply Hl; by left).
  destruct (page_not_end h g c i I Hc Hi) as [Hi0 _]. rewrite (proj2 (N.eqb_neq _ _) Hi0). unfold rd. rewrite bind_gets.
  change (read_word (flist (ad h i)) (ram (hp_mem h))) with (rdw h (flist (ad h i))).
  pose proof (hi_slab _ _ I c i Hc Hi) as [S1 S2 S3 S4]. destruct (hg_free g i) as [|x fs] eqn:Ef.
  - simpl in S1. rewrite S1, N.eqb_refl. cbn [negb]. rewrite bind_gets.
    destruct (IH (rdw h (nextp (ad h i))) fuel) as [[E Hn]|(j & x & fs & Hj & Hfj & E)]; [|done|simpl in Hf; lia| |].
    + intros j Hj. apply Hl. by right.
    + left. split; [done|]. intros j [->|Hj]%elem_of_cons; [done|auto].
    + right. exists j, x, fs. split; [by right|done].
  - destruct S1 as [-> _]. right. exists i, x, fs. split; [by left|]. split; [done|].
    assert (x ≠ USIZE_MAX) as Hx by (apply (free_slot_not_end h g c i x I Hc Hi), S3; by left).
    rewrite (proj2 (N.eqb_neq _ _) Hx). done.
Qed.

(** An object comes into being: the step, its place, and that it overlaps nothing kept. *)
Record born (h : KernelHeap) (g : HG) (h' : KernelHeap) (g' : HG) (x : N) (o : obj) : Prop := {
  bn_step : hstep h g h' g';
  bn_live : hg_live g' = <[x := o]> (hg_live g);
  bn_new : hg_live g !! x = None;
  bn_area : hp_base h ≤ x ∧ x + obj_size o ≤ hp_base h + hp_bytes h;
  bn_apart a : kept h g a → ¬ in_obj x o a }.

Lemma pop_born h g c i x fs :
  HInv h g → (c < 8)%nat → i ∈ hg_pages g c → hg_free g i = x :: fs →
  ∃ g', born h g (hwrite (flist (ad h i)) (rdw h x) h) g' x (Slot c) ∧ x mod ssize c = 0.
Proof.
  intros I Hc Hi Hf. pose proof (pop_slot h g c i x fs I Hc Hi Hf) as St. eexists. split.
  - pose proof (hi_slab _ _ I c i Hc Hi) as [S1 S2 S3 S4]. rewrite Hf in *.
    assert (slot_at h c i x) as Hs by (apply S3; by left).
    assert (hg_live g !! x = None) as Hn.
    { destruct (S4 x Hs) as [[_ ?]|[Hn _]]; [done|]. destruct Hn. by left. }
    split; [exact St|done|done| |].
    + destruct Hs as (u & Hu & ->). apply slot_off_bounds in Hu; [|done].
      pose proof (area_allocated h g i 0 I (hi_alloc _ _ I c i Hc Hi)) as H. change (bsize 0) with 1 in H.
      unfold ad in *. simpl. lia.
    + intros a Hk Ha. destruct (kept_in_slab h g c i a I Hc Hi Hk (slot_in_page h c i x a Hc Hs Ha)) as (y & Hy & Hl & Hay).
      destruct Hs as (u & Hu & ->), Hy as (v & Hv & ->). unfold in_obj in *. simpl in *.
      destruct (slot_off_apart c u v Hu Hv) as [->|?]; [congruence|lia].
  - destruct (so_sub _ _ _ _ _ (hi_slab _ _ I c i Hc Hi) x) as (u & (k & _ & -> & _) & ->); [rewrite Hf; by left|].
    destruct (hi_inv _ _ I) as [Hb _]. rewrite <-(hi_base _ _ I) in Hb.
    destruct (ssize_divides c Hc) as (q & _ & Eq & Hs & _). apply N.Div0.mod_divides in Hb as [b Hb].
    unfold ad. rewrite Hb, Eq. apply N.Div0.mod_divides. exists (q * b + i * q + k). lia.
Qed.

(** A fresh page with its slots chained, not yet in a class. *)
Record fresh_slab (h : KernelHeap) (g : HG) (h2 : KernelHeap) (g2 : HG) (c : nat) (i : N) : Prop := {
  fs_inv : HInv h2 g2;
  fs_alloc : allocated (hg_bl g2) i 0;
  fs_unowned : ¬ owned h2 g2 i;
  fs_live : hg_live g2 = hg_live g;
  fs_heads : hp_heads h2 = hp_heads h;
  fs_area : hp_base h2 = hp_base h ∧ hp_bytes h2 = hp_bytes h;
  fs_chain : slots_from h2 (rdw h2 (flist (ad h2 i))) (slots h2 c i);
  fs_kept a : kept h g a → (kept h2 g2 a ∧ rdw h2 a = rdw h a) ∧ ¬ in_range h2 i 0 a;
  fs_others j p : others h g j p → others h2 g2 j p ∧ j ≠ i }.

Lemma new_slab_run h g c :
  HInv h g → (c < 8)%nat →
  (new_slab c h = Panic ∧ ∀ x, ¬ free_page (hg_bl g) x) ∨
  ∃ i h2 g2, new_slab c h = Ret (ad h2 i, set_hp_page_class (<[i := N.of_nat c]> (hp_page_class h2)) h2) ∧
    fresh_slab h g h2 g2 c i.
Proof.
  intros I Hc. unfold new_slab. destruct (sweep_run h g I) as (h1 & g1 & E1 & [St1 Lv1 Hd1 Fr1]).
  rewrite (bind_ret _ _ _ _ _ E1). pose proof (hs_inv _ _ _ _ St1) as I1.
  destruct (heap_take h1 g1 0 I1) as [[E2 Hn]|(i & m' & bl' & E2 & [T1 T2 T3 T4 _ Tn _ _])]; [unfold MAX_ORDER; lia| |].
  { left. rewrite (bind_ret _ _ _ _ _ E2). split; [done|]. intros x (j & p & Hj & _)%Fr1. apply Hn in Hj. lia. }
  right. rewrite (bind_ret _ _ _ _ _ E2), (bind_expect_some _ (ad h1 i)) by done.
  rewrite (bind_expect_some _ (ssize c)) by (by apply ssize_lookup).
  set (h2 := set_hp_mem m' h1) in *. pose proof (hs_inv _ _ _ _ T1) as I2.
  destruct (init_slab_run h2 c i Hc) as (h3 & E3 & B3 & C3); [apply I2|].
  change (ad h1 i) with (ad h2 i). rewrite (bind_ret _ _ _ _ _ E3).
  assert (hp_base h3 = hp_base h2) as Eb by apply (br_area _ _ _ _ B3).
  assert (ad h3 i = ad h2 i) as Ead by (unfold ad; by rewrite Eb).
  destruct (HInv_unowned h2 _ h3 i 0 I2 T2 T3 B3) as (I3 & U3 & K3).
  exists i, h3, (with_bl bl' g1). rewrite <-Ead. rewrite (bind_ret _ _ _ _ _ (class_set_run h3 i _)). split; [done|].
  split; try done.
  - by rewrite (br_heads _ _ _ _ B3).
  - pose proof (br_area _ _ _ _ B3) as [X1 X2]. pose proof (hs_area _ _ _ _ St1) as [Y1 Y2]. simpl in *. split; congruence.
  - rewrite Ead. unfold slots, slot_no. rewrite Ead. exact C3.
  - intros a Ha. destruct (hs_kept _ _ _ _ St1 a Ha) as [Ha1 X1]. destruct (hs_kept _ _ _ _ T1 a Ha1) as [Ha2 X2].
    assert (¬ in_range h2 i 0 a) as Hr by (by apply (T4 a Ha1)).
    destruct (K3 a Ha2 Hr) as [Ha3 X3]. split; [split; [done|congruence]|]. unfold in_range in *. by rewrite Ead.
  - intros j p Ho. apply (hs_others _ _ _ _ St1) in Ho. split; [|intros ->; by apply (Tn p), Ho].
    apply (hs_others _ _ _ _ T1) in Ho. revert Ho. apply others_mono; [done|]. apply (block_rewrite_owned _ _ _ _ _ _ B3).
Qed.

(** The page joins its class. *)
Lemma join_fresh h g h2 g2 c i hd :
  fresh_slab h g h2 g2 c i → (c < 8)%nat → hp_heads h2 !! c = Some hd →
  let h3 := join (hwrite (nextp (ad h2 i)) hd h2) c i in
  ∃ g3, hstep h g h3 g3 ∧ hg_live g3 = hg_live g ∧ i ∈ hg_pages g3 c ∧ hg_free g3 i = slots h2 c i.
Proof.
  intros F Hc Hhd. cbv zeta. pose proof F as [I2 A2 U2 L2 _ Ar2 C2 K2 O2].
  set (h3 := hwrite (nextp (ad h2 i)) hd h2). set (h4 := join h3 c i).
  assert (block_rewrite h2 h3 i 0) as B3.
  { apply block_rewrite_write; [apply block_rewrite_refl|]. unfold nextp. rewrite <-(N.add_0_r (ad h2 i)). by apply page_range. }
  destruct (HInv_unowned h2 g2 h3 i 0 I2 A2 U2 B3) as (I3 & U3 & K3).
  destruct (claim_page h3 g2 c i hd (slots h2 c i) I3 Hc A2 U3 Hhd) as (I4 & K4 & O4).
  { apply rdw_eq. }
  { change (ad h3 i) with (ad h2 i). unfold h3. rewrite rdw_ne by (unfold nextp, flist; lia).
    apply (slots_from_ext h2); [|done]. intros x Hx. apply rdw_ne.
    apply elem_of_slots in Hx as (u & Hu & ->); [|done]. apply slot_off_bounds in Hu; [|done]. unfold nextp. lia. }
  { by apply NoDup_slots. }
  { intros x. apply (elem_of_slots h2 c i x Hc). }
  fold h4 in I4, K4, O4. eexists. split; [split; [exact I4|exact Ar2| |]|split; [done|]].
  - intros a Ha. destruct (K2 a Ha) as [[Ha2 X2] Hr]. destruct (K3 a Ha2 Hr) as [Ha3 X3].
    split; [by apply K4|]. change (rdw h4 a) with (rdw h3 a). congruence.
  - intros j p Ho. destruct (O2 j p Ho) as [Ho2 Hj]. by apply O4.
  - simpl. rewrite !upd_eq. split; [by left|done].
Qed.

Lemma slab_alloc_run h g c :
  HInv h g → (c < 8)%nat →
  (slab_alloc c h = Panic ∧ ∀ x, ¬ free_page (hg_bl g) x) ∨
  ∃ x h' g', slab_alloc c h = Ret (x, h') ∧ born h g h' g' x (Slot c) ∧ x mod ssize c = 0.
Proof.
  intros I Hc. unfold slab_alloc. rewrite bind_get.
  destruct (lookup_lt_is_Some_2 (hp_heads h) c) as [hd Hhd]; [rewrite (hi_len _ _ I); lia|].
  rewrite (bind_expect_some _ _ _ _ Hhd).
  destruct (find_slot_run h g c (hg_pages g c) Hc I hd (page_fuel h)) as [[E _]|(i & x & fs & Hi & Hf & E)];
    [done|by apply (hi_heads _ _ I)|by apply chain_fuel| |].
  2:{ rewrite (bind_ret _ _ _ _ _ E). right. destruct (pop_born h g c i x fs I Hc Hi Hf) as (g' & B & Hm). eauto 10. }
  rewrite (bind_ret _ _ _ _ _ E).
  destruct (new_slab_run h g c I Hc) as [[E2 Hn]|(i & h2 & g2 & E2 & F)].
  { left. split; [|done]. unfold mbind, M_bind. by rewrite E2. }
  right. rewrite (bind_ret _ _ _ _ _ E2), bind_get. simpl hp_heads. pose proof Hhd as Hhd2. rewrite <-(fs_heads _ _ _ _ _ _ F) in Hhd2.
  rewrite (bind_expect_some _ _ _ _ Hhd2), (bind_ret _ _ _ _ _ (wr_eq _ _ _)), bind_modify.
  destruct (join_fresh h g h2 g2 c i hd F Hc Hhd2) as (g3 & S3 & L3 & P3 & F3).
  set (h3 := join (hwrite (nextp (ad h2 i)) hd h2) c i) in *.
  change (set_hp_heads _ _) with h3. change (ad h2 i) with (ad h3 i).
  destruct (slot_count_spec c Hc) as (_ & HK & _).
  assert (∃ x fs, slots h2 c i = x :: fs) as (x & fs & Es).
  { unfold slots. destruct (N.to_nat (slot_count c - 1)) eqn:En; [lia|]. simpl. eauto. }
  rewrite Es in F3. pose proof (hs_inv _ _ _ _ S3) as I3.
  assert (rdw h3 (flist (ad h3 i)) = x) as Ex.
  { pose proof (so_chain _ _ _ _ _ (hi_slab _ _ I3 c i Hc P3)) as H. rewrite F3 in H. apply H. }
  destruct (pop_born h3 g3 c i x fs I3 Hc P3 F3) as (g4 & [B1 B2 B3 B4 B5] & Hm).
  exists x, (hwrite (flist (ad h3 i)) (rdw h3 x) h3), g4. split; [|split; [|done]].
  - unfold rd. rewrite bind_gets. change (read_word (flist (ad h3 i)) (ram (hp_mem h3))) with (rdw h3 (flist (ad h3 i))).
    rewrite Ex, bind_gets. done.
  - split; [by eapply hstep_trans|congruence|congruence| |].
    + destruct (hs_area _ _ _ _ S3) as [<- <-]. done.
    + intros a Ha. apply B5. by apply (hs_kept _ _ _ _ S3).
Qed.

(** ** Large objects *)

(** A block becomes a large object, and a large object a block again. *)
Lemma claim_large h g i p x n :
  HInv h g → allocated (hg_bl g) i p → ¬ owned h g i → 0 < n → x mod 8 = 0 → ad h i + 8 ≤ x →
  x + n ≤ ad h i + bsize p * PAGE_SIZE → rdw h (x - 8) = ad h i →
  let g' := mkHG (hg_bl g) (hg_pages g) (hg_free g) (<[x := Large i p n]> (hg_live g)) in
  HInv h g' ∧ hg_live g !! x = None ∧ (∀ a, kept h g a → ¬ in_range h i p a → kept h g' a) ∧
  ∀ j q, others h g j q → j ≠ i → others h g' j q.
Proof.
  intros I Ha Hun Hn Hm H1 H2 Hw. cbv zeta. pose proof I as [i1 i2 i3 i4 i5 i6 i7 i8 i9 i10 i11 i12].
  assert (in_range h i p x) as Hr by (unfold in_range; lia).
  pose proof (unowned_no_obj h g i p x I Ha Hun Hr) as Hx.
  assert (class_at h i = None) as Hcl.
  { destruct (class_at h i) as [c|] eqn:E; [|done]. destruct Hun. left. congruence. }
  assert (∀ c j y, (c < 8)%nat → j ∈ hg_pages g c → slot_at h c j y → y ≠ x) as Hslot.
  { intros c j y Hc Hj Hs ->. destruct (blocks_apart h g i p j 0 x I Ha (i9 c j Hc Hj) Hr) as [-> _].
    - apply (slot_in_page h c j x x Hc Hs). destruct Hs as (u & Hu & ->). apply slot_off_bounds in Hu; [|done].
      unfold in_obj. simpl. lia.
    - by rewrite (proj2 (i7 j c)) in Hcl. }
  assert (∀ j, j ≠ i → owned h (mkHG (hg_bl g) (hg_pages g) (hg_free g) (<[x := Large i p n]> (hg_live g))) j → owned h g j) as Hown.
  { intros j Hji [Ho|(y & q' & n' & Hy)]; [by left|]. simpl in Hy.
    apply lookup_insert_Some in Hy as [[_ [= <- <- <-]]|[_ Hy]]; [done|right; eauto]. }
  split; [|split; [done|split; [|intros j q Ho Hji; revert Ho; apply others_mono; [done|by apply Hown]]]].
  - split; try done; simpl.
    + intros c j Hc Hj. destruct (i10 c j Hc Hj) as [S1 S2 S3 S4]. split; try done.
      intros y Hy. rewrite lookup_insert_ne; [by apply S4|]. symmetry. by apply (Hslot c j).
    + intros y o [[<- <-]|[_ Hy]]%lookup_insert_Some; [done|]. exact (i11 y o Hy).
    + intros y z j q n1 q' n2 [[<- E1]|[Hy1 Hy2]]%lookup_insert_Some [[<- E2]|[Hz1 Hz2]]%lookup_insert_Some; [done| | |by eapply i12].
      * injection E1 as <- <- <-. destruct Hun. right. eauto.
      * injection E2 as <- <- <-. destruct Hun. right. eauto.
  - intros a Hk Hna. revert Hk. apply kept_mono; [done| |].
    + intros y o Hy _. simpl. rewrite lookup_insert_ne; [done|]. congruence.
    + intros j q Hj Ho Hrj. split; [done|]. contradict Ho. destruct (decide (j = i)) as [->|Hji]; [|by apply Hown].
      exfalso. apply Hna. unfold allocated in *. rewrite Ha in Hj. by simplify_eq.
Qed.

Lemma unclaim_large h g i p x n :
  HInv h g → hg_live g !! x = Some (Large i p n) →
  let g' := mkHG (hg_bl g) (hg_pages g) (hg_free g) (delete x (hg_live g)) in
  HInv h g' ∧ ¬ owned h g' i ∧ (∀ j q, others h g j q → others h g' j q) ∧
  ∀ a, kept h g a → ¬ in_obj x (Large i p n) a → kept h g' a ∧ ¬ in_range h i p a.
Proof.
  intros I Hx. cbv zeta. pose proof I as [i1 i2 i3 i4 i5 i6 i7 i8 i9 i10 i11 i12].
  pose proof (i11 x _ Hx) as (Ha & Hcl & Hn & Hm & H1 & H2 & Hw).
  assert (∀ j, owned h (mkHG (hg_bl g) (hg_pages g) (hg_free g) (delete x (hg_live g))) j → owned h g j) as Hown.
  { intros j [Ho|(y & q & n' & Hy)]; [by left|right]. simpl in Hy. apply lookup_delete_Some in Hy as [_ Hy]. eauto. }
  split; [|split; [|split; [intros j q; apply others_mono; [done|apply Hown]|]]].
  - split; try done; simpl.
    + intros c j Hc Hj. destruct (i10 c j Hc Hj) as [S1 S2 S3 S4]. split; try done.
      intros y Hy. rewrite lookup_delete_ne; [by apply S4|]. intros <-.
      destruct (S4 x Hy) as [[_ E]|[_ E]]; congruence.
    + intros y o [_ Hy]%lookup_delete_Some. exact (i11 y o Hy).
    + intros y z j q n1 q' n2 [_ Hy]%lookup_delete_Some [_ Hz]%lookup_delete_Some. by eapply i12.
  - intros [Ho|(y & q & n' & Hy)]; [done|]. simpl in Hy; apply lookup_delete_Some in Hy as [Hne Hy]. by apply Hne, (i12 x y i p n q n').
  - intros a Hk Hna. split.
    + revert Hk. apply kept_mono; [done| |].
      * intros y o Hy Hya. simpl. rewrite lookup_delete_ne; [done|]. intros <-. rewrite Hx in Hy. by simplify_eq.
      * intros j q Hj Ho _. split; [done|]. contradict Ho. by apply Hown.
    + intros Hr. destruct Hk as [(y & o & Hy & Hya)|(j & q & Hj & Ho & Hrj)].
      * pose proof (i11 y o Hy) as Hok. destruct o as [c|j q n'].
        { destruct Hok as (Hc & j & Hj & Hs).
          destruct (blocks_apart h g i p j 0 a I Ha (i9 c j Hc Hj) Hr (slot_in_page h c j y a Hc Hs Hya)) as [-> _].
          by rewrite (proj2 (i7 j c)) in Hcl. }
        destruct Hok as (Hj & _ & _ & _ & G1 & G2 & _).
        destruct (blocks_apart h g i p j q a I Ha Hj Hr) as [<- <-]; [unfold in_range, in_obj in *; simpl in *; lia|].
        assert (x = y) as <- by (by eapply i12). rewrite Hx in Hy. by simplify_eq.
      * destruct (blocks_apart h g i p j q a I Ha Hj Hr Hrj) as [<- _]. destruct Ho. right. eauto.
Qed.

(** Rounding up to a multiple. *)
Lemma round_up_bounds a m : 0 < m → a ≤ div_ceil a m * m ≤ a + (m - 1) ∧ div_ceil a m * m mod m = 0.
Proof.
  intros Hm. unfold div_ceil. pose proof (N.div_mod (a + (m - 1)) m ltac:(lia)) as E.
  pose proof (N.mod_lt (a + (m - 1)) m ltac:(lia)) as L. split; [|by apply N.Div0.mod_mul].
  rewrite (N.mul_comm m) in E. lia.
Qed.

Lemma round_up_mult8 b k : b mod 8 = 0 → div_ceil b (2 ^ k) * 2 ^ k mod 8 = 0.
Proof.
  intros Hb. destruct (decide (k < 3)) as [Hk|Hk].
  - assert (k = 0 ∨ k = 1 ∨ k = 2) as [->|[->| ->]] by lia; unfold div_ceil;
      [change (2 ^ 0) with 1|change (2 ^ 1) with 2|change (2 ^ 2) with 4]; clear -Hb; dlia.
  - replace k with (3 + (k - 3)) by lia. rewrite N.pow_add_r. change (2 ^ 3) with 8.
    rewrite (N.mul_comm 8), N.mul_assoc. apply N.Div0.mod_mul.
Qed.

Lemma order_of_fits n : n ≤ bsize (order_of n).
Proof.
  unfold order_of, bsize. rewrite N2Nat.id. destruct (N.le_gt_cases n 1) as [Hn|Hn].
  - pose proof (N.pow_nonzero 2 (N.log2_up n)). lia.
  - by apply N.log2_up_spec.
Qed.

Definition needed (size align : N) : N := size + 8 + (align - 1).
Definition large_order (size align : N) : nat := order_of (div_ceil (needed size align) PAGE_SIZE).

(** Why a large object cannot be had. *)
Definition no_block (g : HG) (size align : N) : Prop :=
  USIZE_MAX < needed size align ∨ (MAX_ORDER < large_order size align)%nat ∨
  ∀ i p, hg_bl g !! i = Some (p, Free) → (p < large_order size align)%nat.

Lemma large_place b size k :
  b mod PAGE_SIZE = 0 → let x := div_ceil (b + 8) (2 ^ k) * 2 ^ k in
  x mod 2 ^ k = 0 ∧ x mod 8 = 0 ∧ b + 8 ≤ x ∧ x + size ≤ b + bsize (large_order size (2 ^ k)) * PAGE_SIZE.
Proof.
  intros Hb. cbv zeta. pose proof (N.pow_nonzero 2 k ltac:(lia)) as Hp.
  destruct (round_up_bounds (b + 8) (2 ^ k)) as [[H1 H2] H3]; [lia|]. split; [done|]. split.
  { apply round_up_mult8. change PAGE_SIZE with 4096 in Hb. clear -Hb. dlia. }
  split; [done|]. unfold large_order. set (n := needed size (2 ^ k)).
  pose proof (order_of_fits (div_ceil n PAGE_SIZE)) as Ho. destruct (round_up_bounds n PAGE_SIZE) as [[H4 _] _]; [done|].
  assert (x0 : div_ceil n PAGE_SIZE * PAGE_SIZE ≤ bsize (order_of (div_ceil n PAGE_SIZE)) * PAGE_SIZE) by (by apply N.mul_le_mono_r).
  assert (n = size + 8 + (2 ^ k - 1)) as En by done. rewrite En in H4 at 1. lia.
Qed.

Lemma page_alloc_run h g size k :
  HInv h g → 0 < size →
  (page_alloc size (2 ^ k) h = Panic ∧ no_block g size (2 ^ k)) ∨
  ∃ x i h' g', page_alloc size (2 ^ k) h = Ret (x, h') ∧ x mod 2 ^ k = 0 ∧
    born h g h' g' x (Large i (large_order size (2 ^ k)) size).
Proof.
  intros I Hsz. pose proof (N.pow_nonzero 2 k ltac:(lia)) as Hp. unfold page_alloc.
  assert (sub_ (2 ^ k) 1 h = Ret (2 ^ k - 1, h)) as E0 by (unfold sub_; by rewrite (proj2 (N.leb_le 1 _)) by lia).
  rewrite (bind_ret _ _ _ _ _ E0). clear E0.
  destruct (checked_add size 8 ≫= λ v, checked_add v (2 ^ k - 1)) as [n|] eqn:En.
  2:{ left. split; [done|]. left. unfold needed. destruct (checked_add size 8) as [v|] eqn:E1; simpl in En.
      - apply checked_add_Some in E1 as [-> _]. by apply checked_add_None in En.
      - apply checked_add_None in E1. lia. }
  apply bind_Some in En as (v & [-> _]%checked_add_Some & [-> Hmax]%checked_add_Some).
  fold (needed size (2 ^ k)). cbv zeta. fold (large_order size (2 ^ k)). set (o := large_order size (2 ^ k)).
  destruct (MAX_ORDER <? o)%nat eqn:Eo; [apply Nat.ltb_lt in Eo; left; split; [done|by right; left]|]. apply Nat.ltb_ge in Eo.
  destruct (heap_take h g o I Eo) as [[E Hn]|(i & m' & bl' & E & [T1 T2 T3 T4 _ Tn _ _])]; rewrite (bind_ret _ _ _ _ _ E).
  { left. split; [done|]. by right; right. }
  right. rewrite (bind_expect_some _ (ad h i)) by done. set (h1 := set_hp_mem m' h) in *.
  pose proof (hs_inv _ _ _ _ T1) as I1. pose proof (area_allocated h1 _ i o I1 T2) as Har. destruct (hi_lim _ _ I1) as [Hl0 Hlim].
  assert (ad h1 i mod PAGE_SIZE = 0) as Hal.
  { destruct (hi_inv _ _ I1) as [Hb _]. rewrite <-(hi_base _ _ I1) in Hb. unfold ad.
    apply is_multiple_of_spec, page_aligned. done. }
  destruct (large_place (ad h1 i) size k Hal) as (X1 & X2 & X3 & X4). fold o in X4.
  set (x := div_ceil (ad h1 i + 8) (2 ^ k) * 2 ^ k) in *.
  assert (add_ (ad h i) 8 h1 = Ret (ad h1 i + 8, h1)) as E1.
  { unfold add_. assert (checked_add (ad h i) 8 = Some (ad h1 i + 8)) as ->; [|done].
    apply checked_add_Some. change (ad h i) with (ad h1 i). split; [done|lia]. }
  assert (mul_ (div_ceil (ad h1 i + 8) (2 ^ k)) (2 ^ k) h1 = Ret (x, h1)) as E2.
  { unfold mul_, checked_mul, usize_ok. fold x. by rewrite (proj2 (N.leb_le _ _)) by lia. }
  rewrite (bind_ret _ _ _ _ _ E1), (bind_ret _ _ _ _ _ E2). unfold sub_. rewrite (proj2 (N.leb_le 8 x)) by lia.
  rewrite bind_mret_l, (bind_ret _ _ _ _ _ (wr_eq _ _ h1)). set (h2 := hwrite (x - 8) (ad h i) h1).
  assert (block_rewrite h1 h2 i o) as B2.
  { apply block_rewrite_write; [apply block_rewrite_refl|]. unfold in_range. lia. }
  destruct (HInv_unowned h1 _ h2 i o I1 T2 T3 B2) as (I2 & U2 & K2).
  destruct (claim_large h2 _ i o x size I2 T2 U2 Hsz X2 X3 X4) as (I3 & N3 & K3 & O3); [apply rdw_eq|].
  exists x, i, h2. eexists. split; [done|]. split; [done|]. split; [split; [exact I3|done| |]|done|done| |].
  - intros a Ha. destruct (hs_kept _ _ _ _ T1 a Ha) as [Ha1 Y1]. destruct (K2 a Ha1 (T4 a Ha)) as [Ha2 Y2].
    split; [apply K3; [done|exact (T4 a Ha)]|congruence].
  - intros j q Ho. apply O3; [|intros ->; by apply (Tn q), Ho]. apply (hs_others _ _ _ _ T1) in Ho. revert Ho.
    apply others_mono; [done|]. apply (block_rewrite_owned _ _ _ _ _ _ B2).
  - simpl. change (hp_base h) with (hp_base h1). change (hp_bytes h) with (hp_bytes h1).
    split; [|lia]. unfold ad in X3. lia.
  - intros a Ha Hin. apply (T4 a Ha). change (in_range h1 i o a). unfold in_range, in_obj in *. simpl in Hin. lia.
Qed.

(** ** Giving memory back *)

Lemma ldiff_page p u : p mod PAGE_SIZE = 0 → u < PAGE_SIZE → N.ldiff (p + u) (PAGE_SIZE - 1) = p.
Proof.
  intros Hp Hu. rewrite (N.ldiff_ones_r _ 12 : N.ldiff (p + u) (PAGE_SIZE - 1) = N.shiftl (N.shiftr (p + u) 12) 12).
  rewrite N.shiftl_mul_pow2, N.shiftr_div_pow2. change (2 ^ 12) with 4096. change PAGE_SIZE with 4096 in *. dlia.
Qed.

Lemma ad_aligned h g i : HInv h g → ad h i mod PAGE_SIZE = 0.
Proof.
  intros I. destruct (hi_inv _ _ I) as [Hb _]. rewrite <-(hi_base _ _ I) in Hb.
  apply is_multiple_of_spec, page_aligned. done.
Qed.

Lemma class_of_run h i :
  slab_class_of (ad h i) h = Ret (default NOT_SLAB (hp_page_class h !! i), h).
Proof.
  unfold slab_class_of. rewrite bind_get. unfold sub_. rewrite (proj2 (N.leb_le _ _)) by (unfold ad; lia).
  by rewrite bind_mret_l, class_index_ad.
Qed.

Lemma class_at_value h i v : default NOT_SLAB (hp_page_class h !! i) = v →
  class_at h i = if v =? NOT_SLAB then None else Some (N.to_nat v).
Proof. intros <-. done. Qed.

(** The checks in front of both branches. *)
Lemma dealloc_page h g i p ptr size :
  HInv h g → allocated (hg_bl g) i p → in_range h i p ptr → size ≠ 0 →
  ∃ j u, in_block i p j ∧ u < PAGE_SIZE ∧ ptr = ad h j + u ∧
    heap_dealloc ptr size h =
      (class ← slab_class_of (ad h j);
       if negb (class =? NOT_SLAB) then
         class_size ← expect (SLAB_SIZES !! N.to_nat class);
         if (u <? class_size) || negb (is_multiple_of u class_size) || (PAGE_SIZE <? u + class_size) then panic
         else head ← rd (flist (ad h j)); wr ptr head;; wr (flist (ad h j)) ptr
       else p ← sub_ ptr 8; base ← rd p; expect_ok (onm (free_pages base))) h.
Proof.
  intros I Ha Hr Hs. destruct (in_range_page h i p ptr Hr) as (j & u & Hj & Hu & ->). exists j, u.
  split; [done|]. split; [done|]. split; [done|]. unfold heap_dealloc. rewrite (proj2 (N.eqb_neq _ _) Hs).
  rewrite (ldiff_page (ad h j) u (ad_aligned h g j I) Hu). rewrite bind_get.
  pose proof (area_allocated h g i p I Ha) as Har.
  rewrite (proj2 (N.ltb_ge (ad h j) (hp_base h))), (proj2 (N.leb_gt (hp_bytes h) (ad h j - hp_base h)));
    [|unfold ad, in_block, PAGE_SIZE in *; lia..].
  cbn [orb]. by replace (ad h j + u - ad h j) with u by lia.
Qed.

Record gone (h : KernelHeap) (g : HG) (h' : KernelHeap) (g' : HG) (x : N) (o : obj) : Prop := {
  gn_inv : HInv h' g';
  gn_area : hp_base h' = hp_base h ∧ hp_bytes h' = hp_bytes h;
  gn_live : hg_live g' = delete x (hg_live g);
  gn_kept a : kept h g a → ¬ in_obj x o a → kept h' g' a ∧ rdw h' a = rdw h a;
  gn_others i p : others h g i p → others h' g' i p }.

Lemma dealloc_slot h g c x size :
  HInv h g → hg_live g !! x = Some (Slot c) → size ≠ 0 →
  ∃ h' g', heap_dealloc x size h = Ret (tt, h') ∧ gone h g h' g' x (Slot c).
Proof.
  intros I Hx Hs. destruct (hi_live _ _ I _ _ Hx) as (Hc & i & Hi & Hsl). pose proof Hsl as (u & Hu & Ex).
  pose proof (slot_off_bounds c u Hc Hu) as Hb.
  destruct (dealloc_page h g i 0 x size I (hi_alloc _ _ I c i Hc Hi)) as (j & v & Hj & Hv & Ev & E); [|done|].
  { rewrite Ex. apply page_range. lia. }
  assert (j = i ∧ v = u) as [-> ->].
  { rewrite Ex in Ev. apply ad_inj in Ev as [-> ->]; [done|lia|done]. }
  rewrite E, (bind_ret _ _ _ _ _ (class_of_run h i)). clear E.
  pose proof (proj2 (hi_class _ _ I i c) (conj Hc Hi)) as Hcl. unfold class_at in Hcl.
  destruct (default NOT_SLAB (hp_page_class h !! i) =? NOT_SLAB); [done|]. injection Hcl as Hcl. cbn [negb].
  rewrite Hcl, (bind_expect_some _ _ _ _ (ssize_lookup c Hc)).
  rewrite (proj2 (N.ltb_ge u (ssize c))), (proj2 (N.ltb_ge PAGE_SIZE _)) by (destruct Hu as (k & ? & -> & ?); lia || nia).
  assert (is_multiple_of u (ssize c) = true) as ->.
  { destruct Hu as (k & _ & -> & _). apply is_multiple_of_spec. apply N.Div0.mod_mul. }
  cbn [negb orb]. destruct (push_slot h g c i x I Hc Hi Hsl Hx) as (I' & K' & O').
  eexists _, _. split; [reflexivity|]. by split.
Qed.

Lemma dealloc_large h g i p n x size :
  HInv h g → hg_live g !! x = Some (Large i p n) → size ≠ 0 →
  ∃ h' g', heap_dealloc x size h = Ret (tt, h') ∧ gone h g h' g' x (Large i p n).
Proof.
  intros I Hx Hs. destruct (hi_live _ _ I _ _ Hx) as (Ha & Hcl & Hn & Hm & H1 & H2 & Hw).
  assert (in_range h i p x) as Hr by (unfold in_range; lia).
  destruct (dealloc_page h g i p x size I Ha Hr Hs) as (j & v & Hj & Hv & Ev & E).
  assert (class_at h j = None) as Hclj.
  { destruct (class_at h j) as [c|] eqn:Ec; [|done]. apply (hi_class _ _ I) in Ec as [Hc Hjp].
    destruct (blocks_apart h g i p j 0 x I Ha (hi_alloc _ _ I c j Hc Hjp) Hr) as [-> _]; [rewrite Ev; by apply page_range|].
    by rewrite (proj2 (hi_class _ _ I j c)) in Hcl. }
  rewrite E, (bind_ret _ _ _ _ _ (class_of_run h j)). clear E. unfold class_at in Hclj.
  destruct (default NOT_SLAB (hp_page_class h !! j) =? NOT_SLAB); [|done]. cbn [negb].
  unfold sub_. rewrite (proj2 (N.leb_le 8 x)) by lia. rewrite bind_mret_l. unfold rd. rewrite bind_gets.
  change (read_word (x - 8) (ram (hp_mem h))) with (rdw h (x - 8)). rewrite Hw.
  destruct (unclaim_large h g i p x n I Hx) as (I1 & U1 & O1 & K1). set (g1 := mkHG _ _ _ _) in *.
  destruct (heap_release h g1 i p I1 Ha U1) as (m' & bl' & E & I2 & Hb & _ & _ & K2).
  exists (set_hp_mem m' h), (with_bl bl' g1). split; [by apply expect_ok_ok|].
  split; [done|done|done| |].
  - intros a Hk Hna. destruct (K1 a Hk Hna) as [Hk1 Hr1]. by apply K2.
  - intros k q Ho. pose proof (O1 k q Ho) as [H3 H4]. split; [|done]. apply Hb. split; [done|]. intros ->.
    destruct Ho as [_ Ho]. apply Ho. right. eauto.
Qed.

(** ** Writes of a client *)

Lemma kept_write h g a v :
  HInv h g → kept h g a → HInv (hwrite a v h) g.
Proof.
  intros I Hk. assert (∃ i p, allocated (hg_bl g) i p ∧ in_range h i p a) as (i & p & Ha & Hr).
  { destruct Hk as [(x & o & Hx & Hin)|(i & p & Ha & _ & Hr)]; [|by eauto].
    pose proof (hi_live _ _ I _ _ Hx) as Hok. destruct o as [c|i p n].
    - destruct Hok as (Hc & i & Hi & Hs). exists i, O. eauto using hi_alloc, slot_in_page.
    - destruct Hok as (Ha & _ & _ & _ & H1 & H2 & _). exists i, p. split; [done|].
      unfold in_range, in_obj in *. simpl in Hin. lia. }
  destruct g as [bl pg fr lv]. apply (HInv_mem h (mkHG bl pg fr lv)); [done|exact (Inv_write h _ i p a v I Ha Hr)|done|done|].
  intros b Hw. apply read_write_ne. intros <-. destruct Hw as [(c & j & u & Hc & Hj & Eu & Hu)|(x & j & q & n & Hx & Ex)].
  - destruct Hu as [->|[->|[Hf _]]].
    + by apply (kept_not_header h _ c j a 0 I Hc Hj Hk).
    + by apply (kept_not_header h _ c j a 8 I Hc Hj Hk).
    + by apply (kept_not_free_slot h _ c j a I Hc Hj Hk).
  - destruct (hi_live _ _ I _ _ Hx) as (Hjal & _ & Hn & _ & H1 & H2 & _).
    destruct (unclaim_large h _ j q x n I Hx) as (_ & _ & _ & K). destruct (K a Hk) as [_ Hnr].
    + unfold in_obj. simpl. lia.
    + apply Hnr. unfold in_range. lia.
Qed.
