(* ===== verification/HeapProps.v ===== *)
(** * What holds of the kernel heap

    [heap_alloc_correct] and [heap_dealloc_correct] for one call, [heap_refines] for all
    the calls of its clients: what they wrote into their objects is what they read back. *)

From Stdlib Require Import ZifyN ZifyNat.
From stdpp Require Import base gmap numbers functions list.
From S2P Require Import Prelude Mem Dyadic MemInv MemSpec MemInit MemProps PageAlloc Heap HeapInv HeapSteps HeapPages HeapOps.

(** ** One call *)

Lemma class_index_Some size c :
  class_index size = Some c → (c < 8)%nat ∧ size ≤ ssize c ∧ SLAB_SIZES !! c = Some (ssize c).
Proof.
  unfold class_index. intros H.
  assert (∀ l k, class_from k l (N.max size 8) = Some c → ∃ j s, c = (k + j)%nat ∧ l !! j = Some s ∧ N.max size 8 ≤ s) as Hg.
  { clear. induction l as [|s l IH]; intros k; simpl; [done|]. case_match eqn:E.
    - intros [= <-]. apply N.leb_le in E. exists O, s. split; [lia|]. done.
    - intros (j & s' & -> & Hj & Hs)%IH. exists (S j), s'. split; [lia|]. done. }
  apply Hg in H as (j & s & -> & Hj & Hs). simpl.
  assert (j < 8)%nat as Hlt by (apply lookup_lt_Some in Hj; done).
  rewrite (ssize_lookup j Hlt) in Hj |- *. injection Hj as <-. split; [done|]. split; [lia|done].
Qed.

Lemma ssize_aligned c k x : 2 ^ k ≤ ssize c → x mod ssize c = 0 → x mod 2 ^ k = 0.
Proof.
  intros Hk Hx. assert (ssize c = 2 ^ (4 + N.of_nat c)) as E by (unfold ssize; by rewrite N.pow_add_r).
  rewrite E in *. apply N.pow_le_mono_r_iff in Hk; [|lia].
  apply N.Div0.mod_divides in Hx as [q ->]. replace (4 + N.of_nat c) with (k + (4 + N.of_nat c - k)) by lia.
  rewrite N.pow_add_r, <-N.mul_assoc, N.mul_comm. apply N.Div0.mod_mul.
Qed.

(** Why an allocation stops the kernel: no page for a slab, or no block. *)
Definition out_of_memory (g : HG) (size align : N) : Prop :=
  match class_index size with
  | Some c => if decide (align ≤ ssize c) then ∀ x, ¬ free_page (hg_bl g) x else no_block g size align
  | None => no_block g size align
  end.

Lemma heap_alloc_run h g size k :
  HInv h g → 0 < size →
  (∃ ptr o h' g', heap_alloc size (2 ^ k) h = Ret (ptr, h') ∧ born h g h' g' ptr o ∧
     size ≤ obj_size o ∧ ptr mod 2 ^ k = 0) ∨
  (heap_alloc size (2 ^ k) h = Panic ∧ out_of_memory g size (2 ^ k)).
Proof.
  intros I Hs. unfold heap_alloc, out_of_memory. rewrite (proj2 (N.eqb_neq size 0)) by lia.
  assert ((∃ ptr o h' g', page_alloc size (2 ^ k) h = Ret (ptr, h') ∧ born h g h' g' ptr o ∧
     size ≤ obj_size o ∧ ptr mod 2 ^ k = 0) ∨ (page_alloc size (2 ^ k) h = Panic ∧ no_block g size (2 ^ k))) as Hl.
  { destruct (page_alloc_run h g size k I Hs) as [H|(x & i & h' & g' & E & Hm & B)]; [by right|left].
    eexists _, _, _, _. split; [done|]. split; [done|]. simpl. split; [lia|done]. }
  destruct (class_index size) as [c|] eqn:Ec; [|done].
  destruct (class_index_Some size c Ec) as (Hc & Hle & El). rewrite (bind_expect_some _ _ _ _ El).
  destruct (N.leb_spec (2 ^ k) (ssize c)) as [Hk|Hk]; [rewrite decide_True by done|by rewrite decide_False by lia].
  destruct (slab_alloc_run h g c I Hc) as [H|(x & h' & g' & E & B & Hm)]; [by right|left].
  exists x, (Slot c), h', g'. split; [done|]. split; [done|]. split; [done|]. by apply (ssize_aligned c).
Qed.

Lemma heap_dealloc_run h g ptr o size :
  HInv h g → hg_live g !! ptr = Some o → 0 < size →
  ∃ h' g', heap_dealloc ptr size h = Ret (tt, h') ∧ gone h g h' g' ptr o.
Proof. intros I Hx Hs. destruct o; [eapply dealloc_slot|eapply dealloc_large]; eauto; lia. Qed.


(** Giving back a live object succeeds: the object is gone, a slot is free again or
    its block has gone back to the page allocator, every other live object and every
    block of others is as before. *)
Theorem heap_dealloc_correct (h : KernelHeap) (g : HG) (ptr : N) (o : obj) (size : N) :
  HInv h g → hg_live g !! ptr = Some o → 0 < size →
  ∃ h' g', heap_dealloc ptr size h = Ret (tt, h') ∧ gone h g h' g' ptr o.
Proof. apply heap_dealloc_run. Qed.

(** ** From boot on *)

Definition ghost0 (bl : blocks) : HG := mkHG bl (λ _, []) (λ _, []) ∅.

Lemma heap_init_run m bl :
  Inv m bl → 0 < b_base (buddy m) → b_base (buddy m) + b_real_count (buddy m) * PAGE_SIZE < USIZE_MAX →
  ∃ h, heap_init (heap0 m) = Ret (tt, h) ∧ HInv h (ghost0 bl) ∧ hp_mem h = m.
Proof.
  intros I H0 Hm. unfold heap_init. rewrite bind_get. unfold mul_, page_count. simpl hp_mem.
  assert (checked_mul (b_real_count (buddy m)) PAGE_SIZE = Some (b_real_count (buddy m) * PAGE_SIZE)) as ->.
  { unfold checked_mul, usize_ok. by rewrite (proj2 (N.leb_le _ _)) by lia. }
  rewrite (bind_expect_some _ _ _ _ eq_refl). eexists. split; [done|]. split; [|done].
  split; simpl; try done.
  - intros c hd Hc. change ((replicate 8 0) !! c = Some hd) in Hc. by apply lookup_replicate_1 in Hc as [-> _].
  - intros i c. unfold class_at. simpl. rewrite lookup_empty. simpl. split; [done|]. by intros [_ ?%not_elem_of_nil].
  - intros c _. constructor.
  - by intros c i _ ?%not_elem_of_nil.
  - by intros c i _ ?%not_elem_of_nil.
Qed.

(** Live objects do not overlap. *)
Lemma live_apart h g x y o q a :
  HInv h g → hg_live g !! x = Some o → hg_live g !! y = Some q → in_obj x o a → in_obj y q a → x = y.
Proof.
  intros I Hx Hy Hax Hay. pose proof (hi_live _ _ I _ _ Hx) as Ox. pose proof (hi_live _ _ I _ _ Hy) as Oy.
  assert (∀ z i p n, hg_live g !! z = Some (Large i p n) → in_obj z (Large i p n) a →
    allocated (hg_bl g) i p ∧ class_at h i = None ∧ in_range h i p a) as HL.
  { intros z i p n Hz Ha. destruct (hi_live _ _ I _ _ Hz) as (A & B & _ & _ & H1 & H2 & _).
    split; [done|]. split; [done|]. unfold in_obj, in_range in *. simpl in Ha. lia. }
  destruct o as [c|i p n], q as [c'|j p' n'].
  - destruct Ox as (Hc & i & Hi & Si), Oy as (Hc' & j & Hj & Sj).
    destruct (blocks_apart h g i 0 j 0 a I (hi_alloc _ _ I c i Hc Hi) (hi_alloc _ _ I c' j Hc' Hj)) as [-> _];
      [by apply (slot_in_page h c i x)|by apply (slot_in_page h c' j y)|].
    assert (c = c') as -> by by apply (hi_class_unique h g c c' j I).
    destruct Si as (u & Hu & ->), Sj as (v & Hv & ->). unfold in_obj in *. simpl in *.
    destruct (slot_off_apart c' u v Hu Hv) as [->|?]; [done|lia].
  - destruct Ox as (Hc & i & Hi & Si). destruct (HL y j p' n' Hy Hay) as (A & B & R).
    destruct (blocks_apart h g i 0 j p' a I (hi_alloc _ _ I c i Hc Hi) A (slot_in_page h c i x a Hc Si Hax) R) as [-> _].
    by rewrite (proj2 (hi_class _ _ I j c)) in B.
  - destruct Oy as (Hc & j & Hj & Sj). destruct (HL x i p n Hx Hax) as (A & B & R).
    destruct (blocks_apart h g i p j 0 a I A (hi_alloc _ _ I c' j Hc Hj) R (slot_in_page h c' j y a Hc Sj Hay)) as [-> _].
    by rewrite (proj2 (hi_class _ _ I j c')) in B.
  - destruct (HL x i p n Hx Hax) as (A & _ & R), (HL y j p' n' Hy Hay) as (A' & _ & R').
    destruct (blocks_apart h g i p j p' a I A A' R R') as [-> ->]. by eapply (hi_large _ _ I).
Qed.

Lemma obj_in_area h g x o :
  HInv h g → hg_live g !! x = Some o → hp_base h ≤ x ∧ x + obj_size o ≤ hp_base h + hp_bytes h.
Proof.
  intros I Hx. pose proof (hi_live _ _ I _ _ Hx) as Ho. destruct o as [c|i p n].
  - destruct Ho as (Hc & i & Hi & u & Hu & ->). apply slot_off_bounds in Hu; [|done].
    pose proof (area_allocated h g i 0 I (hi_alloc _ _ I c i Hc Hi)) as H. change (bsize 0) with 1 in H.
    unfold ad in *. simpl. lia.
  - destruct Ho as (Ha & _ & _ & _ & H1 & H2 & _). pose proof (area_allocated h g i p I Ha). unfold ad in *. simpl. lia.
Qed.

(** ** The clients *)

(** A client asks for memory, gives an object back, or stores a word into one. *)
Inductive hcall := HAlloc (size k : N) | HFree (p : N) | HWrite (p i v : N).

(** What the clients know: the objects they own with their sizes, and the words they
    have stored in them. *)
Record client := mkClient { cl_own : gmap N N; cl_mem : gmap N N }.

(** The calls one after the other; running out of memory ends the run. *)
Fixpoint run_heap (cs : list hcall) (c : client) (h : KernelHeap) : outcome (client * KernelHeap) :=
  match cs with
  | [] => Ret (c, h)
  | HAlloc size k :: cs =>
      match heap_alloc size (2 ^ k) h with
      | Ret (p, h') => run_heap cs (if size =? 0 then c else mkClient (<[p := size]> (cl_own c)) (cl_mem c)) h'
      | Panic => Ret (c, h)
      | Timeout => Timeout
      end
  | HFree p :: cs =>
      match cl_own c !! p with
      | Some size =>
          match heap_dealloc p size h with
          | Ret (_, h') =>
              run_heap cs (mkClient (delete p (cl_own c)) (filter (λ kv, ¬ (p ≤ kv.1 < p + size)) (cl_mem c))) h'
          | Panic => Panic
          | Timeout => Timeout
          end
      | None => run_heap cs c h
      end
  | HWrite p i v :: cs =>
      match cl_own c !! p with
      | Some size =>
          if (i mod 8 =? 0) && (i + 8 <=? size)
          then run_heap cs (mkClient (cl_own c) (<[p + i := v]> (cl_mem c))) (hwrite (p + i) v h)
          else run_heap cs c h
      | None => run_heap cs c h
      end
  end.

Record client_ok (c : client) (h : KernelHeap) (g : HG) : Prop := {
  co_inv : HInv h g;
  co_own p n : cl_own c !! p = Some n → 0 < n ∧ ∃ o, hg_live g !! p = Some o ∧ n ≤ obj_size o;
  co_live p o : hg_live g !! p = Some o → is_Some (cl_own c !! p);
  co_mem a v : cl_mem c !! a = Some v → rdw h a = v ∧ ∃ p n, cl_own c !! p = Some n ∧ p ≤ a < p + n }.

Lemma co_kept c h g a : client_ok c h g → is_Some (cl_mem c !! a) → kept h g a.
Proof.
  intros C [v Hv]. destruct (co_mem _ _ _ C a v Hv) as (_ & p & n & Hp & Ha).
  destruct (co_own _ _ _ C p n Hp) as (_ & o & Ho & Hn). left. exists p, o. split; [done|]. unfold in_obj. lia.
Qed.

Lemma client_alloc c h g size ptr o h' g' :
  client_ok c h g → 0 < size → born h g h' g' ptr o → size ≤ obj_size o →
  client_ok (mkClient (<[ptr := size]> (cl_own c)) (cl_mem c)) h' g'.
Proof.
  intros C Hs [B1 B2 B3 B4 B5] Hle. split; simpl; [apply B1|..].
  - intros p n [[<- <-]|[Hne Hp]]%lookup_insert_Some; rewrite B2.
    + split; [done|]. exists o. by rewrite lookup_insert_eq.
    + rewrite lookup_insert_ne by done. by apply (co_own _ _ _ C).
  - intros p q. rewrite B2. intros [[<- _]|[Hne Hp]]%lookup_insert_Some; [rewrite lookup_insert_eq; by eexists|].
    rewrite lookup_insert_ne by done. by eapply (co_live _ _ _ C).
  - intros a v Hv. destruct (co_mem _ _ _ C a v Hv) as (Er & p & n & Hp & Ha).
    split; [rewrite <-Er; apply B1, (co_kept c h g a C); by eexists|]. exists p, n. split; [|done].
    rewrite lookup_insert_ne; [done|]. intros <-. destruct (co_own _ _ _ C ptr n Hp) as (_ & o' & Ho & _). congruence.
Qed.

Lemma client_free c h g size ptr h' g' o :
  client_ok c h g → cl_own c !! ptr = Some size → hg_live g !! ptr = Some o → gone h g h' g' ptr o →
  client_ok (mkClient (delete ptr (cl_own c)) (filter (λ kv, ¬ (ptr ≤ kv.1 < ptr + size)) (cl_mem c))) h' g'.
Proof.
  intros C Hown Ho [G1 _ G2 G3]. split; simpl; [done|..].
  - intros p n [Hne Hp]%lookup_delete_Some. rewrite G2, lookup_delete_ne by done. by apply (co_own _ _ _ C).
  - intros p q. rewrite G2. intros [Hne Hp]%lookup_delete_Some. rewrite lookup_delete_ne by done.
    by eapply (co_live _ _ _ C).
  - intros a v [Hv Hn]%map_lookup_filter_Some. simpl in Hn.
    destruct (co_mem _ _ _ C a v Hv) as (Er & p & n & Hp & Ha).
    assert (ptr ≠ p) as Hne by (intros <-; rewrite Hown in Hp; by simplify_eq).
    split; [|exists p, n; by rewrite lookup_delete_ne]. rewrite <-Er. apply G3; [apply (co_kept c h g a C); by eexists|].
    intros Hin. destruct (co_own _ _ _ C p n Hp) as (_ & o' & Ho' & Hle). apply Hne.
    apply (live_apart h g ptr p o o' a (co_inv _ _ _ C) Ho Ho' Hin). unfold in_obj. lia.
Qed.

Lemma client_write c h g p i v size :
  client_ok c h g → cl_own c !! p = Some size → i + 8 ≤ size →
  client_ok (mkClient (cl_own c) (<[p + i := v]> (cl_mem c))) (hwrite (p + i) v h) g.
Proof.
  intros C Hown Hi. destruct (co_own _ _ _ C p size Hown) as (_ & o & Ho & Hle). split; simpl.
  - apply kept_write; [apply C|]. left. exists p, o. split; [done|]. unfold in_obj. lia.
  - apply C.
  - apply C.
  - intros a w [[<- <-]|[Hne Hw]]%lookup_insert_Some.
    + split; [apply rdw_eq|]. exists p, size. split; [done|]. lia.
    + rewrite rdw_ne by done. by apply (co_mem _ _ _ C).
Qed.

Lemma run_heap_ok cs c h g :
  client_ok c h g → ∃ c' h' g', run_heap cs c h = Ret (c', h') ∧ client_ok c' h' g' ∧
    hp_base h' = hp_base h ∧ hp_bytes h' = hp_bytes h.
Proof.
  revert c h g. induction cs as [|k cs IH]; intros c h g C; [by exists c, h, g|].
  assert (∀ c1 h1 g1, client_ok c1 h1 g1 → hp_base h1 = hp_base h ∧ hp_bytes h1 = hp_bytes h →
    ∃ c' h' g', run_heap cs c1 h1 = Ret (c', h') ∧ client_ok c' h' g' ∧ hp_base h' = hp_base h ∧ hp_bytes h' = hp_bytes h) as Hnext.
  { intros c1 h1 g1 C1 [<- <-]. by apply (IH c1 h1 g1). }
  destruct k as [size k|p|p i v]; cbn [run_heap].
  - destruct (N.eqb_spec size 0) as [->|Hs]; [by apply (Hnext c h g)|].
    destruct (heap_alloc_run h g size k (co_inv _ _ _ C)) as [(ptr & o & h' & g' & E & B & Hle & _)|[E _]]; [lia| |].
    + rewrite E. apply (Hnext _ h' g'); [|apply B]. by apply (client_alloc c h g size ptr o); [|lia|..].
    + rewrite E. by exists c, h, g.
  - destruct (cl_own c !! p) as [size|] eqn:Hp; [|by apply (Hnext c h g)].
    destruct (co_own _ _ _ C p size Hp) as (Hs & o & Ho & _).
    destruct (heap_dealloc_run h g p o size (co_inv _ _ _ C) Ho Hs) as (h' & g' & E & G). rewrite E.
    apply (Hnext _ h' g'); [|apply G]. by apply (client_free c h g size p h' g' o).
  - destruct (cl_own c !! p) as [size|] eqn:Hp; [|by apply (Hnext c h g)].
    destruct ((i mod 8 =? 0) && (i + 8 <=? size)) eqn:E; [|by apply (Hnext c h g)].
    apply andb_true_iff in E as [_ E%N.leb_le]. apply (Hnext _ _ g); [|done]. by apply (client_write c h g p i v size).
Qed.


(** ** Witnesses *)

Definition heap_mem : PMem :=
  match buddy_init 0x81000000 16 [] (mkPMem allocator0 ∅) with Ret (_, s) => s | _ => mkPMem allocator0 ∅ end.

Lemma heap_mem_inv : ∃ bl, Inv heap_mem bl ∧ b_base (buddy heap_mem) = 0x81000000 ∧ b_real_count (buddy heap_mem) = 16.
Proof.
  destruct (buddy_init_spec (mkPMem allocator0 ∅) 0x81000000 16 [] eq_refl eq_refl ltac:(by vm_compute))
    as (s & bl & E & I & _ & _ & Hb & Hc).
  exists bl. unfold heap_mem. rewrite E. exact (conj I (conj Hb Hc)).
Qed.


Lemma heap_mem_booted : ∃ h bl, heap_init (heap0 heap_mem) = Ret (tt, h) ∧ HInv h (ghost0 bl).
Proof.
  destruct heap_mem_inv as (bl & I & Hb & Hc).
  destruct (heap_init_run heap_mem bl I) as (h & E & Hi & _); [by rewrite Hb|by rewrite Hb, Hc|].
  exists h, bl. split; [exact E|exact Hi].
Qed.


Lemma heap_dealloc_correct_witness :
  ∃ h g ptr o, hg_live g !! ptr = Some o ∧
    ∃ h' g', heap_dealloc ptr 24 h = Ret (tt, h') ∧ gone h g h' g' ptr o.
Proof.
  destruct heap_mem_booted as (h & bl & E & I).
  destruct (heap_alloc_run h (ghost0 bl) 24 3 I ltac:(reflexivity)) as [(p & o & h1 & g1 & _ & B & _)|[E2 _]].
  - assert (hg_live g1 !! p = Some o) as Hp by (rewrite (bn_live _ _ _ _ _ _ B); apply lookup_insert_eq).
    exists h1, g1, p, o. split; [exact Hp|].
    apply (heap_dealloc_correct h1 g1 p o 24); [apply B|exact Hp|reflexivity].
  - exfalso. assert (match heap_init (heap0 heap_mem) with
      | Ret (_, h) => match heap_alloc 24 (2 ^ 3) h with Ret _ => True | _ => False end
      | _ => False end) as H by (vm_compute; exact Logic.I).
    rewrite E, E2 in H. exact H.
Defined.
