(* ===== verification/User.v ===== *)
(** * User programs: user/src/lib.rs

    A user program is a tree of the things it does to the outside: system calls, loads
    and stores.  [run] executes one against a [Machine].  The library's constants, its
    system-call wrappers, the coding of file names in message words and the client
    side of the console service are here; the servers are in Servers.v. *)

From Stdlib Require Import ZifyN ZifyNat.
From stdpp Require Import base gmap numbers list.
From S2P Require Import Prelude.

(** ** Programs *)

(** [UExit]: the exit call, which does not return; [USpin]: the panic handler, which
    spins for ever, or a poll whose fuel has run out. *)
Inductive uprog (A : Type) : Type :=
| UDone (a : A)
| UExit
| USpin
| UEcall (num : N) (args : list N) (k : list N → uprog A)
| ULoad (va : N) (k : N → uprog A)
| UStore (va b : N) (k : uprog A)
| ULoadWord (va : N) (k : N → uprog A)
| UStoreWord (va w : N) (k : uprog A).
Arguments UDone {A} _.
Arguments UExit {A}.
Arguments USpin {A}.
Arguments UEcall {A} _ _ _.
Arguments ULoad {A} _ _.
Arguments UStore {A} _ _ _.
Arguments ULoadWord {A} _ _.
Arguments UStoreWord {A} _ _ _.

Fixpoint ubind {A B} (f : A → uprog B) (p : uprog A) : uprog B :=
  match p with
  | UDone a => f a
  | UExit => UExit
  | USpin => USpin
  | UEcall num args k => UEcall num args (λ r, ubind f (k r))
  | ULoad va k => ULoad va (λ b, ubind f (k b))
  | UStore va b k => UStore va b (ubind f k)
  | ULoadWord va k => ULoadWord va (λ w, ubind f (k w))
  | UStoreWord va w k => UStoreWord va w (ubind f k)
  end.
#[export] Instance uprog_ret : MRet uprog := @UDone.
#[export] Instance uprog_bind : MBind uprog := @ubind.

(** [read_volatile], [write_volatile] on bytes and words; an index out of range. *)
Definition uload (va : N) : uprog N := ULoad va UDone.
Definition ustore (va b : N) : uprog () := UStore va b (UDone tt).
Definition uload_word (va : N) : uprog N := ULoadWord va UDone.
Definition ustore_word (va w : N) : uprog () := UStoreWord va w (UDone tt).
Definition uindex {A} (l : list A) (i : N) : uprog A :=
  match vget l i with Some x => UDone x | None => USpin end.

Fixpoint ufor {A} (f : A → uprog ()) (l : list A) : uprog () :=
  match l with
  | [] => mret tt
  | x :: l => f x;; ufor f l
  end.

(** *** Execution *)

(** What a program runs on: the answer of a system call ([a0] .. [a5]), and memory,
    where [None] is a fault; reading a device register may change the
    device. *)
Record Machine (W : Type) := mkMachine {
  m_ecall : N → list N → M W (list N);
  m_load : N → W → option (N * W);
  m_store : N → N → W → option W;
  m_load_word : N → W → option N;
  m_store_word : N → N → W → option W
}.
Arguments mkMachine {W} _ _ _ _ _.
Arguments m_ecall {W} _ _ _.
Arguments m_load {W} _ _ _.
Arguments m_store {W} _ _ _ _.
Arguments m_load_word {W} _ _ _.
Arguments m_store_word {W} _ _ _ _.

Inductive uend (A : Type) := Returned (a : A) | Exited | Spinning | Faulted.
Arguments Returned {A} _.
Arguments Exited {A}.
Arguments Spinning {A}.
Arguments Faulted {A}.

Fixpoint run {W A} (m : Machine W) (p : uprog A) (w : W) : outcome (uend A * W) :=
  match p with
  | UDone a => Ret (Returned a, w)
  | UExit => Ret (Exited, w)
  | USpin => Ret (Spinning, w)
  | UEcall num args k =>
      match m_ecall m num args w with
      | Ret (r, w') => run m (k r) w'
      | Panic => Panic
      | Timeout => Timeout
      end
  | ULoad va k => match m_load m va w with Some (b, w') => run m (k b) w' | None => Ret (Faulted, w) end
  | UStore va b k => match m_store m va b w with Some w' => run m k w' | None => Ret (Faulted, w) end
  | ULoadWord va k =>
      match m_load_word m va w with Some b => run m (k b) w | None => Ret (Faulted, w) end
  | UStoreWord va b k =>
      match m_store_word m va b w with Some w' => run m k w' | None => Ret (Faulted, w) end
  end.

(** ** Constants *)
Definition SYS_EXIT : N := 1.
Definition SYS_IPC_SEND : N := 3.
Definition SYS_IPC_RECV : N := 4.
Definition SYS_SHM_MAP : N := 5.
Definition SYS_CAP_DUP : N := 7.
Definition SYS_SERVICE_REGISTER : N := 10.
Definition SYS_SERVICE_CONNECT : N := 11.
Definition SYS_MAP_DEVICE : N := 12.
Definition SYS_MEM_GRANT : N := 13.
Definition SYS_MEM_MAP : N := 14.

Definition SERVER_ACCEPT_SLOT : N := 0.
Definition SERVER_SHM_SLOT : N := 1.
Definition CLIENT_IPC_SLOT : N := 2.
Definition CLIENT_SHM_SLOT : N := 3.
Definition CLIENT_PAGE_SLOT : N := 3.
Definition SERVER_POOL_START : N := 1.
Definition SERVER_POOL_END : N := 4.
Definition UART_MMIO_VA : N := 0x60000000.
Definition UART_SERVICE_ID : N := 1.
Definition MEMORY_SERVICE_ID : N := 2.
Definition SHM_VA : N := 0x50000000.
Definition SHM_LEN : N := 4096.
Definition MEM_VA : N := 0x70000000.
Definition RAMFS_SERVICE_ID : N := 3.
Definition RAMFS_VA : N := 0x74000000.
Definition RAMFS_FILE_PAGE_START : N := 3.
Definition NAME_MAX : N := 24.
Definition MAX_FILES : N := 4.

Definition OP_WRITE : N := 0x01.
Definition OP_READ : N := 0x02.
Definition OP_PING : N := 0x03.
Definition OP_ALLOC : N := 0x04.
Definition OP_FREE : N := 0x05.
Definition OP_FS_OPEN : N := 0x06.
Definition OP_FS_READ : N := 0x07.
Definition OP_FS_WRITE : N := 0x08.
Definition OP_FS_CLOSE : N := 0x09.
Definition OP_FS_UNLINK : N := 0x0A.
Definition OP_REPLY_FLAG : N := 0x80.
Definition PROTO_ERR : N := USIZE_MAX.
Definition ERR_ENOMEM : N := USIZE_MAX - 3.
Definition USER_ERR_EINVAL : N := USIZE_MAX.
Definition USER_ERR_EBADF : N := USIZE_MAX - 4.
Definition USER_ERR_EEXIST : N := USIZE_MAX - 6.

(** [op | OP_REPLY_FLAG]. *)
Definition reply_op (op : N) : N := N.lor op OP_REPLY_FLAG.

(** ** System calls *)

(** Register [i] of an answer, [a0] first. *)
Definition reg (r : list N) (i : N) : N := default 0 (vget r i).

Definition syscall (num a0 a1 a2 a3 a4 a5 : N) : uprog N :=
  UEcall num [a0; a1; a2; a3; a4; a5] (λ r, UDone (reg r 0)).
Definition sys_exit {A} : uprog A := UExit.
Definition sys_ipc_send (slot : N) (msg : list N) : uprog N :=
  syscall SYS_IPC_SEND slot (reg msg 0) (reg msg 1) (reg msg 2) (reg msg 3) (reg msg 4).
Definition sys_ipc_recv (slot : N) : uprog (list N) :=
  UEcall SYS_IPC_RECV [slot] (λ r, UDone [reg r 0; reg r 1; reg r 2; reg r 3; reg r 4; reg r 5]).
Definition sys_shm_map (a_slot b_slot len : N) : uprog N :=
  syscall SYS_SHM_MAP a_slot b_slot len 0 0 0.
Definition sys_cap_dup (from to : N) : uprog N := syscall SYS_CAP_DUP from to 0 0 0 0.
Definition sys_service_register (id : N) : uprog N := syscall SYS_SERVICE_REGISTER id 0 0 0 0 0.
Definition sys_service_connect (id client_slot server_slot : N) : uprog N :=
  syscall SYS_SERVICE_CONNECT id client_slot server_slot 0 0 0.
Definition sys_map_device (dev_id va : N) : uprog N := syscall SYS_MAP_DEVICE dev_id va 0 0 0 0.
Definition sys_mem_grant (src_slot peer_slot dst_slot : N) : uprog N :=
  syscall SYS_MEM_GRANT src_slot peer_slot dst_slot 0 0 0.
Definition sys_mem_map (slot va : N) : uprog N := syscall SYS_MEM_MAP slot va 0 0 0 0.

(** ** File names in message words *)

(** [for (j, b) in .. { *w |= b << (j * 8) }]. *)
Fixpoint pack (j : N) (bs : list N) (w : N) : N :=
  match bs with
  | [] => w
  | b :: bs => pack (j + 1) bs (N.lor w (N.shiftl b (j * 8)))
  end.

Definition name_to_words (name : list N) : list N * N :=
  let n := N.min (vlen name) NAME_MAX in
  ((λ i, let base := i * 8 in
         if base <? n then
           let hi := N.min (base + 8) n in
           pack 0 (take (N.to_nat (hi - base)) (drop (N.to_nat base) name)) 0
         else 0) <$> [0; 1; 2], n).

Definition name_from_words (words : list N) : list N :=
  words ≫= λ w, (λ j, N.land (N.shiftr w (j * 8)) 0xff) <$> nrange 0 8.

(** ** The console client *)

Definition uart_init : uprog N :=
  rc ← sys_service_connect UART_SERVICE_ID CLIENT_IPC_SLOT SERVER_ACCEPT_SLOT;
  if negb (rc =? 0) then mret rc
  else
    rc ← sys_cap_dup CLIENT_IPC_SLOT CLIENT_SHM_SLOT;
    if negb (rc =? 0) then mret rc
    else sys_shm_map CLIENT_SHM_SLOT SERVER_SHM_SLOT SHM_LEN.

(** [x as isize]. *)
Definition as_isize (x : N) : Z :=
  if x <? 0x8000000000000000 then Z.of_N x else (Z.of_N x - Z.of_N USIZE_MOD)%Z.

Definition uart_write (bytes : list N) : uprog Z :=
  let n := N.min (vlen bytes) SHM_LEN in
  ufor (λ i, b ← uindex bytes i; ustore (SHM_VA + i) b) (nrange 0 (N.to_nat n));;
  rc ← sys_ipc_send CLIENT_IPC_SLOT [OP_WRITE; n; 0; 0; 0];
  if negb (rc =? 0) then mret (-1)%Z
  else
    r ← sys_ipc_recv CLIENT_IPC_SLOT;
    if negb (reg r 0 =? 0) then mret (as_isize (reg r 0))
    else
      let status := as_isize (reg r 2) in
      if bool_decide (status ≠ 0%Z) then mret status
      else mret (as_isize (reg r 3)).

(** Collect [SHM_VA[0..n]]. *)
Fixpoint uload_all (vas : list N) : uprog (list N) :=
  match vas with
  | [] => mret []
  | va :: vas => b ← uload va; bs ← uload_all vas; mret (b :: bs)
  end.

(** [buf] is overwritten from its start; the result is the count and the buffer. *)
Definition uart_read (buf : list N) : uprog (Z * list N) :=
  let max := N.min (vlen buf) SHM_LEN in
  rc ← sys_ipc_send CLIENT_IPC_SLOT [OP_READ; max; 0; 0; 0];
  if negb (rc =? 0) then mret ((-1)%Z, buf)
  else
    r ← sys_ipc_recv CLIENT_IPC_SLOT;
    if negb (reg r 0 =? 0) then mret (as_isize (reg r 0), buf)
    else
      let status := as_isize (reg r 2) in
      if bool_decide (status ≠ 0%Z) then mret (status, buf)
      else
        let n := N.min (reg r 3) (vlen buf) in
        bs ← uload_all ((λ i, SHM_VA + i) <$> nrange 0 (N.to_nat n));
        mret (as_isize n, bs ++ drop (N.to_nat n) buf).
