(* ===== verification/Servers.v ===== *)
(** * The user servers and their clients: user/src/bin

    The memory server, the file server and the console server, each as one turn of its
    service loop ([serve], from the state the loop carries to the next), its
    operations, and its entry with the loop cut after [n] turns; then the client programs. *)

From Stdlib Require Import ZifyN ZifyNat.
From stdpp Require Import base gmap numbers list.
From S2P Require Import Prelude User.

(** [n] turns of a service loop. *)
Fixpoint turns {S} (body : S → uprog S) (n : nat) (s : S) : uprog S :=
  match n with
  | O => mret s
  | S n => s ← body s; turns body n s
  end.

(** ** The memory server *)
Module MemServer.

Fixpoint alloc_scan (pool : list bool) (client_dst : N) (slots : list N) : uprog (result () N * list bool) :=
  match slots with
  | [] => mret (Err ERR_ENOMEM, pool)
  | i :: slots =>
      full ← uindex pool (i - SERVER_POOL_START);
      if full : bool then
        rc ← sys_mem_grant i SERVER_ACCEPT_SLOT client_dst;
        if negb (rc =? 0) then mret (Err rc, pool)
        else mret (Ok tt, vset pool (i - SERVER_POOL_START) false)
      else alloc_scan pool client_dst slots
  end.

(** [SERVER_POOL_START..=SERVER_POOL_END]. *)
Definition pool_slots : list N := nrange SERVER_POOL_START (N.to_nat (SERVER_POOL_END - SERVER_POOL_START + 1)).

Definition alloc_page (pool : list bool) (client_dst : N) : uprog (result () N * list bool) :=
  alloc_scan pool client_dst pool_slots.

Fixpoint free_scan (pool : list bool) (slots : list N) : uprog (option N * list bool) :=
  match slots with
  | [] => mret (None, pool)
  | i :: slots =>
      full ← uindex pool (i - SERVER_POOL_START);
      if negb full then mret (Some i, vset pool (i - SERVER_POOL_START) true)
      else free_scan pool slots
  end.

Definition free_slot (pool : list bool) : uprog (option N * list bool) := free_scan pool pool_slots.

(** The request [op, arg1, ..] against the pool: the reply and the pool. *)
Definition handle (pool : list bool) (op arg1 : N) : uprog (list N * list bool) :=
  if op =? OP_ALLOC then
    r ← alloc_page pool arg1;
    match r.1 with
    | Ok _ => mret ([reply_op op; 0; 0; 0; 0], r.2)
    | Err e => mret ([reply_op op; e; 0; 0; 0], r.2)
    end
  else if op =? OP_FREE then
    r ← free_slot pool;
    match r.1 with
    | Some recv_slot => mret ([reply_op op; 0; recv_slot; 0; 0], r.2)
    | None => mret ([reply_op op; ERR_ENOMEM; 0; 0; 0], r.2)
    end
  else mret ([reply_op op; PROTO_ERR; 0; 0; 0], pool).

Definition serve (pool : list bool) : uprog (list bool) :=
  r ← sys_ipc_recv SERVER_ACCEPT_SLOT;
  if negb (reg r 0 =? 0) then mret pool
  else
    rp ← handle pool (reg r 1) (reg r 2);
    sys_ipc_send SERVER_ACCEPT_SLOT rp.1;;
    mret rp.2.

Definition start (n : nat) : uprog (list bool) :=
  rc ← sys_service_register MEMORY_SERVICE_ID;
  if negb (rc =? 0) then sys_exit
  else turns serve n (replicate 4 true).

End MemServer.

(** ** The file server *)
Module Ramfs.

Inductive FileState := Free | Open | Closed.
#[export] Instance file_state_eq : EqDecision FileState.
Proof. solve_decision. Defined.

Record FileEntry := mkEntry { fe_state : FileState; fe_name : list N; fe_name_len : N; fe_size : N }.

Definition free_entry : FileEntry := mkEntry Free (replicate (N.to_nat NAME_MAX) 0) 0 0.
Definition set_state (s : FileState) (e : FileEntry) : FileEntry :=
  mkEntry s (fe_name e) (fe_name_len e) (fe_size e).
Definition set_size (n : N) (e : FileEntry) : FileEntry :=
  mkEntry (fe_state e) (fe_name e) (fe_name_len e) n.

Definition files : list N := nrange 0 (N.to_nat MAX_FILES).

Definition alloc_file_page (fd : N) : uprog (result () N) :=
  let page_slot := RAMFS_FILE_PAGE_START + fd in
  rc ← sys_ipc_send CLIENT_IPC_SLOT [OP_ALLOC; page_slot; 0; 0; 0];
  if negb (rc =? 0) then mret (Err ERR_ENOMEM)
  else
    r ← sys_ipc_recv CLIENT_IPC_SLOT;
    if negb (reg r 0 =? 0) || negb (reg r 1 =? reply_op OP_ALLOC) || negb (reg r 2 =? 0)
    then mret (Err ERR_ENOMEM)
    else
      rc ← sys_mem_map page_slot (RAMFS_VA + fd * 4096);
      if negb (rc =? 0) then mret (Err ERR_ENOMEM) else mret (Ok tt).

(** [table[fd].name_len == name_len && table[fd].name[..name_len] == name[..name_len]]. *)
Definition same_name (e : FileEntry) (name : list N) (name_len : N) : bool :=
  (fe_name_len e =? name_len) &&
  bool_decide (take (N.to_nat name_len) (fe_name e) = take (N.to_nat name_len) name).

(** The second loop of [fs_open]: the first free entry becomes the file. *)
Fixpoint open_new (table : list FileEntry) (name : list N) (name_len : N) (fds : list N)
    : uprog (list N * list FileEntry) :=
  match fds with
  | [] => mret ([reply_op OP_FS_OPEN; ERR_ENOMEM; 0; 0; 0], table)
  | fd :: fds =>
      e ← uindex table fd;
      if bool_decide (fe_state e = Free) then
        r ← alloc_file_page fd;
        match r with
        | Ok _ => mret ([reply_op OP_FS_OPEN; 0; fd; 0; 0], vset table fd (mkEntry Open name name_len 0))
        | Err err => mret ([reply_op OP_FS_OPEN; err; 0; 0; 0], table)
        end
      else open_new table name name_len fds
  end.

(** The first loop: a file of that name. *)
Fixpoint open_scan (table : list FileEntry) (name : list N) (name_len : N) (fds : list N)
    : uprog (list N * list FileEntry) :=
  match fds with
  | [] => open_new table name name_len files
  | fd :: fds =>
      e ← uindex table fd;
      if same_name e name name_len then
        match fe_state e with
        | Open => mret ([reply_op OP_FS_OPEN; USER_ERR_EEXIST; 0; 0; 0], table)
        | Closed => mret ([reply_op OP_FS_OPEN; 0; fd; 0; 0], vset table fd (set_state Open e))
        | Free => mret ([reply_op OP_FS_OPEN; PROTO_ERR; 0; 0; 0], table)
        end
      else open_scan table name name_len fds
  end.

Definition fs_open (table : list FileEntry) (name_len w0 w1 w2 : N) : uprog (list N * list FileEntry) :=
  if (name_len =? 0) || (NAME_MAX <? name_len) then
    mret ([reply_op OP_FS_OPEN; USER_ERR_EINVAL; 0; 0; 0], table)
  else open_scan table (name_from_words [w0; w1; w2]) name_len files.

(** [table.get_mut(fd)] with the given test on the state. *)
Definition entry_with (table : list FileEntry) (fd : N) (ok : FileState → bool) : option FileEntry :=
  match vget table fd with
  | Some e => if ok (fe_state e) then Some e else None
  | None => None
  end.
Definition is_open (s : FileState) : bool := bool_decide (s = Open).
Definition is_used (s : FileState) : bool := bool_decide (s ≠ Free).

(** [for i in 0..n { write(dst + i, read(src + i)) }]. *)
Definition copy_bytes (src dst n : N) : uprog () :=
  ufor (λ i, b ← uload (src + i); ustore (dst + i) b) (nrange 0 (N.to_nat n)).

Definition fs_read (table : list FileEntry) (fd offset len : N) : uprog (list N * list FileEntry) :=
  match entry_with table fd is_open with
  | None => mret ([reply_op OP_FS_READ; USER_ERR_EBADF; 0; 0; 0], table)
  | Some entry =>
      if fe_size entry <=? offset then mret ([reply_op OP_FS_READ; 0; 0; 0; 0], table)
      else
        let n := N.min len (fe_size entry - offset) in
        let page_va := RAMFS_VA + fd * 4096 in
        copy_bytes (page_va + offset) SHM_VA n;;
        mret ([reply_op OP_FS_READ; 0; n; 0; 0], table)
  end.

(** [offset.checked_add(len)] with the guard [offset < 4096 && e <= 4096]. *)
Definition write_end (offset len : N) : option N :=
  match checked_add offset len with
  | Some e => if (offset <? 4096) && (e <=? 4096) then Some e else None
  | None => None
  end.

Definition fs_write (table : list FileEntry) (fd offset len : N) : uprog (list N * list FileEntry) :=
  match entry_with table fd is_open with
  | None => mret ([reply_op OP_FS_WRITE; USER_ERR_EBADF; 0; 0; 0], table)
  | Some entry =>
      match write_end offset len with
      | None => mret ([reply_op OP_FS_WRITE; USER_ERR_EINVAL; 0; 0; 0], table)
      | Some end_ =>
          let page_va := RAMFS_VA + fd * 4096 in
          copy_bytes SHM_VA (page_va + offset) len;;
          mret ([reply_op OP_FS_WRITE; 0; len; 0; 0],
                vset table fd (set_size (N.max (fe_size entry) end_) entry))
      end
  end.

Definition fs_close (table : list FileEntry) (fd : N) : uprog (list N * list FileEntry) :=
  match entry_with table fd is_open with
  | None => mret ([reply_op OP_FS_CLOSE; USER_ERR_EBADF; 0; 0; 0], table)
  | Some entry => mret ([reply_op OP_FS_CLOSE; 0; 0; 0; 0], vset table fd (set_state Closed entry))
  end.

Definition fs_unlink (table : list FileEntry) (fd : N) : uprog (list N * list FileEntry) :=
  match entry_with table fd is_used with
  | None => mret ([reply_op OP_FS_UNLINK; USER_ERR_EBADF; 0; 0; 0], table)
  | Some _ =>
      let page_slot := RAMFS_FILE_PAGE_START + fd in
      rc ← sys_ipc_send CLIENT_IPC_SLOT [OP_FREE; page_slot; 0; 0; 0];
      if negb (rc =? 0) then mret ([reply_op OP_FS_UNLINK; ERR_ENOMEM; 0; 0; 0], table)
      else
        r ← sys_ipc_recv CLIENT_IPC_SLOT;
        if negb (reg r 0 =? 0) || negb (reg r 1 =? reply_op OP_FREE) || negb (reg r 2 =? 0)
        then mret ([reply_op OP_FS_UNLINK; ERR_ENOMEM; 0; 0; 0], table)
        else
          let recv_slot := reg r 3 in
          rc ← sys_mem_grant page_slot CLIENT_IPC_SLOT recv_slot;
          if negb (rc =? 0) then mret ([reply_op OP_FS_UNLINK; ERR_ENOMEM; 0; 0; 0], table)
          else mret ([reply_op OP_FS_UNLINK; 0; 0; 0; 0], vset table fd free_entry)
  end.

(** The [match op] of the loop, on the words of the message. *)
Definition dispatch (table : list FileEntry) (op a1 a2 a3 a4 : N) : uprog (list N * list FileEntry) :=
  if op =? OP_FS_OPEN then fs_open table a1 a2 a3 a4
  else if op =? OP_FS_READ then fs_read table a1 a2 a3
  else if op =? OP_FS_WRITE then fs_write table a1 a2 a3
  else if op =? OP_FS_CLOSE then fs_close table a1
  else if op =? OP_FS_UNLINK then fs_unlink table a1
  else mret ([reply_op op; PROTO_ERR; 0; 0; 0], table).

Definition serve (table : list FileEntry) : uprog (list FileEntry) :=
  r ← sys_ipc_recv SERVER_ACCEPT_SLOT;
  if negb (reg r 0 =? 0) then mret table
  else
    rp ← dispatch table (reg r 1) (reg r 2) (reg r 3) (reg r 4) (reg r 5);
    sys_ipc_send SERVER_ACCEPT_SLOT rp.1;;
    mret rp.2.

Definition start (n : nat) : uprog (list FileEntry) :=
  rc ← sys_service_register RAMFS_SERVICE_ID;
  if negb (rc =? 0) then sys_exit
  else
    rc ← sys_service_connect MEMORY_SERVICE_ID CLIENT_IPC_SLOT SERVER_ACCEPT_SLOT;
    if negb (rc =? 0) then sys_exit
    else turns serve n (replicate (N.to_nat MAX_FILES) free_entry).

End Ramfs.

(** ** The console server *)
Module UartServer.

Definition RBR_THR : N := 0x0.
Definition LSR : N := 0x5.
Definition LSR_THRE : N := 0x20.
Definition LSR_DR : N := 0x01.

(** The poll of the transmitter, cut after [fuel] reads of the status. *)
Fixpoint uart_tx_raw (fuel : nat) (b : N) : uprog () :=
  match fuel with
  | O => USpin
  | S fuel =>
      lsr ← uload (UART_MMIO_VA + LSR);
      if negb (N.land lsr LSR_THRE =? 0) then ustore (UART_MMIO_VA + RBR_THR) b
      else uart_tx_raw fuel b
  end.

Definition uart_tx (fuel : nat) (b : N) : uprog () :=
  (if b =? 10 then uart_tx_raw fuel 13 else mret tt);; uart_tx_raw fuel b.

Definition uart_rx_ready : uprog bool :=
  lsr ← uload (UART_MMIO_VA + LSR);
  mret (negb (N.land lsr LSR_DR =? 0)).
Definition uart_rx : uprog N := uload (UART_MMIO_VA + RBR_THR).

(** [while n < max && uart_rx_ready() { .. }]: [room] is [max - n]. *)
Fixpoint read_loop (n : N) (room : nat) : uprog N :=
  match room with
  | O => mret n
  | S room =>
      ready ← uart_rx_ready;
      if ready : bool then
        b ← uart_rx;
        ustore (SHM_VA + n) b;;
        read_loop (n + 1) room
      else mret n
  end.

Definition handle (fuel : nat) (op arg1 : N) : uprog (N * N) :=
  if op =? OP_WRITE then
    let n := N.min arg1 SHM_LEN in
    ufor (λ i, b ← uload (SHM_VA + i); uart_tx fuel b) (nrange 0 (N.to_nat n));;
    mret (0, n)
  else if op =? OP_READ then
    let max := N.min arg1 SHM_LEN in
    n ← read_loop 0 (N.to_nat max);
    mret (0, n)
  else if op =? OP_PING then mret (0, 0)
  else mret (PROTO_ERR, 0).

Definition serve (fuel : nat) (_ : ()) : uprog () :=
  r ← sys_ipc_recv SERVER_ACCEPT_SLOT;
  if negb (reg r 0 =? 0) then mret tt
  else
    sl ← handle fuel (reg r 1) (reg r 2);
    sys_ipc_send SERVER_ACCEPT_SLOT [reply_op (reg r 1); sl.1; sl.2; 0; 0];;
    mret tt.

Definition start (fuel n : nat) : uprog () :=
  rc ← sys_map_device 0 UART_MMIO_VA;
  if negb (rc =? 0) then sys_exit
  else
    rc ← sys_service_register UART_SERVICE_ID;
    if negb (rc =? 0) then sys_exit
    else turns (serve fuel) n tt.

End UartServer.

(** ** The client programs *)
Module Clients.

Definition MARKER_VA : N := 0x40002000.
Definition DONE_MARK : N := 0xC0DE0000.
Definition MAGIC : N := 0xFEEDFACE.

(** A check that exits when it fails. *)
Definition must (ok : bool) : uprog () := if ok then mret tt else sys_exit.

(** mem_client.rs. *)
Definition mem_client (argc : N) : uprog () :=
  rc ← sys_service_connect MEMORY_SERVICE_ID CLIENT_IPC_SLOT SERVER_ACCEPT_SLOT;
  must (rc =? 0);;
  rc ← sys_ipc_send CLIENT_IPC_SLOT [OP_ALLOC; CLIENT_PAGE_SLOT; 0; 0; 0];
  must (rc =? 0);;
  r ← sys_ipc_recv CLIENT_IPC_SLOT;
  must ((reg r 0 =? 0) && (reg r 1 =? reply_op OP_ALLOC) && (reg r 2 =? 0));;
  rc ← sys_mem_map CLIENT_PAGE_SLOT MEM_VA;
  must (rc =? 0);;
  ustore_word MEM_VA MAGIC;;
  readback ← uload_word MEM_VA;
  must (readback =? MAGIC);;
  rc ← sys_ipc_send CLIENT_IPC_SLOT [OP_FREE; CLIENT_PAGE_SLOT; 0; 0; 0];
  must (rc =? 0);;
  r ← sys_ipc_recv CLIENT_IPC_SLOT;
  must ((reg r 0 =? 0) && (reg r 1 =? reply_op OP_FREE) && (reg r 2 =? 0));;
  rc ← sys_mem_grant CLIENT_PAGE_SLOT CLIENT_IPC_SLOT (reg r 3);
  must (rc =? 0);;
  ustore_word MARKER_VA (N.lor DONE_MARK argc);;
  sys_exit.

(** ramfs_client.rs. *)
Definition fs_request (op : N) (args : list N) (ok : list N → bool) : uprog (result () ()) :=
  rc ← sys_ipc_send CLIENT_IPC_SLOT [op; reg args 0; reg args 1; reg args 2; reg args 3];
  if negb (rc =? 0) then mret (Err tt)
  else
    r ← sys_ipc_recv CLIENT_IPC_SLOT;
    if negb (reg r 0 =? 0) || negb (reg r 1 =? reply_op op) then mret (Err tt)
    else if ok [reg r 1; reg r 2; reg r 3; reg r 4; reg r 5] then mret (Ok tt) else mret (Err tt).

Definition fs_result (op : N) (args : list N) : uprog (list N) :=
  rc ← sys_ipc_send CLIENT_IPC_SLOT [op; reg args 0; reg args 1; reg args 2; reg args 3];
  if negb (rc =? 0) then sys_exit
  else
    r ← sys_ipc_recv CLIENT_IPC_SLOT;
    if negb (reg r 0 =? 0) || negb (reg r 1 =? reply_op op) then sys_exit
    else mret [reg r 1; reg r 2; reg r 3; reg r 4; reg r 5].

Definition want (r : result () ()) : uprog () :=
  match r with Ok _ => mret tt | Err _ => sys_exit end.

(** "hello ramfs" and "test.txt". *)
Definition PAYLOAD : list N := [104; 101; 108; 108; 111; 32; 114; 97; 109; 102; 115].
Definition FILE_NAME : list N := [116; 101; 115; 116; 46; 116; 120; 116].

Definition ramfs_client (argc : N) : uprog () :=
  rc ← sys_service_connect RAMFS_SERVICE_ID CLIENT_IPC_SLOT SERVER_ACCEPT_SLOT;
  must (rc =? 0);;
  rc ← sys_cap_dup CLIENT_IPC_SLOT CLIENT_SHM_SLOT;
  must (rc =? 0);;
  rc ← sys_shm_map CLIENT_SHM_SLOT SERVER_SHM_SLOT SHM_LEN;
  must (rc =? 0);;
  let w := (name_to_words FILE_NAME).1 in
  let name_len := (name_to_words FILE_NAME).2 in
  let open_args := [name_len; reg w 0; reg w 1; reg w 2] in
  open_reply ← fs_result OP_FS_OPEN open_args;
  must (reg open_reply 1 =? 0);;
  let fd := reg open_reply 2 in
  r ← fs_request OP_FS_READ [fd; 0; 16; 0] (λ r, (reg r 1 =? 0) && (reg r 2 =? 0)); want r;;
  r ← fs_request OP_FS_OPEN open_args (λ r, reg r 1 =? USER_ERR_EEXIST); want r;;
  r ← fs_request OP_FS_READ [99; 0; 1; 0] (λ r, reg r 1 =? USER_ERR_EBADF); want r;;
  r ← fs_request OP_FS_WRITE [fd; 4095; 2; 0] (λ r, reg r 1 =? USER_ERR_EINVAL); want r;;
  ufor (λ i, b ← uindex PAYLOAD i; ustore (SHM_VA + i) b) (nrange 0 (length PAYLOAD));;
  r ← fs_request OP_FS_WRITE [fd; 0; vlen PAYLOAD; 0] (λ r, (reg r 1 =? 0) && (reg r 2 =? vlen PAYLOAD)); want r;;
  r ← fs_request OP_FS_READ [fd; 0; vlen PAYLOAD; 0] (λ r, (reg r 1 =? 0) && (reg r 2 =? vlen PAYLOAD)); want r;;
  ufor (λ i, b ← uindex PAYLOAD i; got ← uload (SHM_VA + i); must (got =? b)) (nrange 0 (length PAYLOAD));;
  r ← fs_request OP_FS_CLOSE [fd; 0; 0; 0] (λ r, reg r 1 =? 0); want r;;
  r ← fs_request OP_FS_UNLINK [fd; 0; 0; 0] (λ r, reg r 1 =? 0); want r;;
  ustore_word MARKER_VA (N.lor DONE_MARK argc);;
  sys_exit.

(** hello.rs; the digits of a [usize] are at most 20, and the walk over the first
    argument is cut after [fuel] bytes. *)
Fixpoint digits (fuel : nat) (n : N) (buf : list N) : list N :=
  match fuel with
  | O => buf
  | S fuel => if n =? 0 then buf else digits fuel (n / 10) ((48 + n mod 10) :: buf)
  end.

Definition write_dec (n : N) : uprog () :=
  if n =? 0 then uart_write [48];; mret tt
  else uart_write (digits 20 n []);; mret tt.

Fixpoint write_cstr (fuel : nat) (p : N) : uprog () :=
  match fuel with
  | O => USpin
  | S fuel => b ← uload p; if b =? 0 then mret tt else uart_write [b];; write_cstr fuel (p + 1)
  end.

(** "hello, ignium!\n", "argc=" and "argv[0]=". *)
Definition HELLO : list N := [104; 101; 108; 108; 111; 44; 32; 105; 103; 110; 105; 117; 109; 33; 10].
Definition ARGC : list N := [97; 114; 103; 99; 61].
Definition ARGV0 : list N := [97; 114; 103; 118; 91; 48; 93; 61].

Definition hello (fuel : nat) (argc argv : N) : uprog () :=
  rc ← uart_init;
  (if rc =? 0 then
     uart_write HELLO;;
     uart_write ARGC;;
     write_dec argc;;
     uart_write [10];;
     if negb (argv =? 0) then
       s0 ← uload_word argv;
       if negb (s0 =? 0) then
         uart_write ARGV0;;
         write_cstr fuel s0;;
         uart_write [10];;
         mret tt
       else mret tt
     else mret tt
   else mret tt);;
  ustore_word MARKER_VA (N.lor DONE_MARK argc);;
  sys_exit.

End Clients.
