(* ===== verification/UserSys.v ===== *)
(** * User programs on the kernel

    The machine a user program runs on: system calls are the kernel's functions of
    Objects.v on the caller's capabilities, loads and stores go through the caller's page
    table into physical memory, and messages travel between processes that hold links.
    A process that waits for a server lets the server take one turn of its loop, so a
    client, the file server and the memory server run together. *)

From Stdlib Require Import ZifyN ZifyNat.
From stdpp Require Import base gmap numbers functions list.
From S2P Require Import Prelude Mem Mmu Pte MmuTree Objects Elf User Servers.

(** ** Memory as a user program sees it *)

(** The translation of the hardware: a valid user leaf with the permission asked. *)
Definition user_pa (root va : N) (write : bool) (s : PMem) : option N :=
  if USER_VA_LIMIT <=? va then None
  else match walk root va s with
  | Some (l, e) =>
      if pte_user e && negb (N.land e (if write then PTE_W else PTE_R) =? 0)
      then Some (pte_addr e + va mod (4096 * 512 ^ l)) else None
  | None => None
  end.

(** ** The state: the kernel, the messages under way, and what the servers keep *)
Record Net := mkNet {
  n_k : Kernel;
  n_wire : list (N * N * list N);
  n_pool : list bool;
  n_table : list Ramfs.FileEntry
}.
Definition set_k (k : Kernel) (w : Net) : Net := mkNet k (n_wire w) (n_pool w) (n_table w).
Definition set_wire (q : list (N * N * list N)) (w : Net) : Net := mkNet (n_k w) q (n_pool w) (n_table w).
Definition set_pool (p : list bool) (w : Net) : Net := mkNet (n_k w) (n_wire w) p (n_table w).
Definition set_table (t : list Ramfs.FileEntry) (w : Net) : Net := mkNet (n_k w) (n_wire w) (n_pool w) t.

(** ** System calls *)
Definition answer (r : result () N) : N := match r with Ok _ => 0 | Err e => e end.
Definition answer_cap (r : result () CapError) : N := match r with Ok _ => 0 | Err e => cap_errno e end.
Definition answer_id (r : result N N) : N := match r with Ok id => id | Err e => e end.

(** The calls on kernel objects by process [pid]. *)
Definition object_call (uart_base pid num : N) (a : list N) : M Kernel N :=
  if num =? SYS_SHM_MAP then r ← mmap_share pid (reg a 0) (reg a 1) (reg a 2); mret (answer_id r)
  else if num =? SYS_CAP_DUP then r ← cap_duplicate pid (reg a 0) (reg a 1); mret (answer_cap r)
  else if num =? SYS_SERVICE_REGISTER then r ← register_service pid (reg a 0); mret (answer r)
  else if num =? SYS_SERVICE_CONNECT then
    r ← service_connect pid (reg a 0) (reg a 1) (reg a 2); mret (answer r)
  else if num =? SYS_MAP_DEVICE then r ← device_map uart_base pid (reg a 0) (reg a 1); mret (answer r)
  else if num =? SYS_MEM_GRANT then r ← mem_grant pid (reg a 0) (reg a 1) (reg a 2); mret (answer r)
  else if num =? SYS_MEM_MAP then r ← mem_map pid (reg a 0) (reg a 1); mret (answer r)
  else mret SYS_ERR_ENOSYS.

Definition onkernel {A} (m : M Kernel A) : M Net A := lift n_k set_k m.

(** The first message from [src] to [dst] ([None]: from anyone). *)
Fixpoint take_msg (src : option N) (dst : N) (q : list (N * N * list N))
    : option (list N * list (N * N * list N)) :=
  match q with
  | [] => None
  | (s, d, m) :: q =>
      if (d =? dst) && (match src with Some src => s =? src | None => true end) then Some (m, q)
      else match take_msg src dst q with
           | Some (m', q') => Some (m', (s, d, m) :: q')
           | None => None
           end
  end.

(** A world is that state, with whatever devices are behind physical addresses: [None]
    from [mmio_load] or [mmio_store] means ordinary memory. *)
Class World (T : Type) := {
  net : T → Net;
  put_net : Net → T → T;
  mmio_load : N → T → option (N * T);
  mmio_store : N → N → T → option T
}.
#[export] Instance world_net : World Net :=
  {| net w := w; put_net w _ := w; mmio_load _ _ := None; mmio_store _ _ _ := None |}.

(** ** Machines *)
Section machine.
Context {T : Type} `{World T} (uart_base : N) (peer : N → M T ()) (pid : N).

Definition onnet {A} (m : M Net A) : M T A := lift net put_net m.

Definition send (slot : N) (msg : list N) : M Net (list N) :=
  w ← get;
  match cap_target pid slot (n_k w) with
  | Ok (CProc dst) => modify (set_wire (n_wire w ++ [(pid, dst, msg)]));; mret [0]
  | Ok _ => mret [cap_errno WrongType]
  | Err e => mret [cap_errno e]
  end.

(** Whom a receive on a slot waits for. *)
Definition source (slot : N) (w : Net) : result (option N) N :=
  match cap_target pid slot (n_k w) with
  | Ok (CProc src) => Ok (Some src)
  | Err NotFound => Ok None
  | Ok _ => Err (cap_errno WrongType)
  | Err e => Err (cap_errno e)
  end.

Definition pick (src : option N) : M Net (list N) :=
  w ← get;
  match take_msg src pid (n_wire w) with
  | Some (m, q) => modify (set_wire q);; mret (0 :: m)
  | None => λ _, Timeout
  end.

(** Waiting for a message from [src] lets [src] take a turn first; when there is still
    none the program stays blocked. *)
Definition receive (src : option N) : M T (list N) :=
  (match src with Some src => peer src | None => mret tt end);;
  onnet (pick src).

Definition user_call (num : N) (a : list N) : M T (list N) :=
  if num =? SYS_IPC_SEND then onnet (send (reg a 0) (drop 1 a))
  else if num =? SYS_IPC_RECV then
    w ← get;
    match source (reg a 0) (net w) with
    | Ok src => receive src
    | Err e => mret [e]
    end
  else onnet (v ← onkernel (object_call uart_base pid num a); mret [v]).

Definition proc_pa (va : N) (write : bool) (w : Net) : option N :=
  root ← pid_root pid (n_k w); user_pa root va write (k_mem (n_k w)).
Definition upd_ram (f : gmap N N → gmap N N) (w : Net) : Net :=
  set_k (set_mem (set_ram (f (ram (k_mem (n_k w)))) (k_mem (n_k w))) (n_k w)) w.

Definition pa_load (pa : N) (t : T) : N * T :=
  match mmio_load pa t with Some r => r | None => (read_byte pa (ram (k_mem (n_k (net t)))), t) end.
Definition pa_store (pa b : N) (t : T) : T :=
  match mmio_store pa b t with Some t' => t' | None => put_net (upd_ram (write_byte pa b) (net t)) t end.

Definition user_machine : Machine T :=
  mkMachine user_call
    (λ va t, (λ pa, pa_load pa t) <$> proc_pa va false (net t))
    (λ va b t, (λ pa, pa_store pa b t) <$> proc_pa va true (net t))
    (λ va t, (λ pa, read_word pa (ram (k_mem (n_k (net t))))) <$> proc_pa va false (net t))
    (λ va v t, (λ pa, put_net (upd_ram (write_word pa v) (net t)) t) <$> proc_pa va true (net t)).

End machine.

(** A turn of a server: its state is stored when the turn ends, and a server that exits,
    spins or faults takes no more turns. *)
Definition turn {T St} (m : Machine T) (body : St → uprog St) (get_ : T → St) (set_ : St → T → T)
    : M T () := λ w,
  match run m (body (get_ w)) w with
  | Ret (Returned t, w') => Ret (tt, set_ t w')
  | Ret (_, w') => Ret (tt, w')
  | Panic => Panic
  | Timeout => Timeout
  end.

Section system.
Context (uart_base R S : N).

Definition nobody (_ : N) : M Net () := mret tt.
Definition mem_turn : M Net () := turn (user_machine uart_base nobody S) MemServer.serve n_pool set_pool.
Definition mem_peer (p : N) : M Net () := if p =? S then mem_turn else mret tt.
Definition ramfs_machine : Machine Net := user_machine uart_base mem_peer R.
Definition ramfs_turn : M Net () := turn ramfs_machine Ramfs.serve n_table set_table.
Definition ramfs_peer (p : N) : M Net () := if p =? R then ramfs_turn else mret tt.
Definition client_machine (C : N) : Machine Net := user_machine uart_base ramfs_peer C.

End system.
