(* ===== verification/UserNames.v ===== *)
(** * File names in message words: the coding is lossless *)

From Stdlib Require Import ZifyN ZifyNat.
From stdpp Require Import base gmap numbers list.
From S2P Require Import Prelude User.

(** Byte [i] of a word. *)
Definition byte (i w : N) : N := N.land (N.shiftr w (i * 8)) 0xff.

Lemma land_ff x : N.land x 0xff = x mod 256.
Proof. change 0xff with (N.ones 8). by rewrite N.land_ones. Qed.

Lemma byte_lt i w : byte i w < 256.
Proof. unfold byte. rewrite land_ff. by apply N.mod_lt. Qed.

Lemma byte_lor i a b : byte i (N.lor a b) = N.lor (byte i a) (byte i b).
Proof. unfold byte. by rewrite N.shiftr_lor, N.land_lor_distr_l. Qed.

Lemma byte_shiftl i j b : b < 256 → byte i (N.shiftl b (j * 8)) = if decide (i = j) then b else 0.
Proof.
  intros Hb. unfold byte. rewrite land_ff. case_decide as E; [subst i|].
  - rewrite N.shiftr_shiftl_l, N.sub_diag by done. cbn [N.shiftl]. rewrite N.shiftl_0_r. by apply N.mod_small.
  - destruct (decide (i < j)).
    + rewrite N.shiftr_shiftl_l by lia. rewrite N.shiftl_mul_pow2. replace (j * 8 - i * 8) with (8 + (j - i - 1) * 8) by lia.
      rewrite N.pow_add_r. change (2 ^ 8) with 256.
      replace (b * (256 * 2 ^ ((j - i - 1) * 8))) with (b * 2 ^ ((j - i - 1) * 8) * 256) by lia. by apply N.Div0.mod_mul.
    + rewrite N.shiftr_shiftl_r by lia. rewrite N.shiftr_div_pow2, N.div_small; [done|].
      eapply N.lt_le_trans; [exact Hb|]. change 256 with (2 ^ 8). apply N.pow_le_mono_r; lia.
Qed.

Lemma byte_0 i : byte i 0 = 0.
Proof. unfold byte. by rewrite N.shiftr_0_l. Qed.

(** The bytes of packed bytes. *)
Lemma byte_pack bs j w i :
  Forall (λ b, b < 256) bs →
  byte i (pack j bs w) = N.lor (byte i w) (if decide (j ≤ i) then default 0 (vget bs (i - j)) else 0).
Proof.
  revert j w. induction bs as [|b bs IH]; intros j w Hb; cbn [pack].
  { rewrite vget_lookup. cbn. case_decide; by rewrite N.lor_0_r. }
  apply Forall_cons in Hb as [Hb Hbs]. rewrite (IH _ _ Hbs), byte_lor, byte_shiftl by done. rewrite <-N.lor_assoc. f_equal.
  rewrite !vget_lookup. destruct (N.lt_trichotomy i j) as [Hlt|[->|Hlt]].
  - by rewrite !decide_False by lia.
  - rewrite N.sub_diag, (decide_True (P := j = j)), (decide_False (P := j + 1 ≤ j)), decide_True by lia. apply N.lor_0_r.
  - rewrite (decide_False (P := i = j)), !decide_True by lia. rewrite N.lor_0_l.
    replace (N.to_nat (i - j)) with (S (N.to_nat (i - (j + 1)))) by lia. done.
Qed.

(** Words with the same bytes are equal. *)
Lemma byte_inj x y : (∀ i, byte i x = byte i y) → x = y.
Proof.
  intros E. apply N.bits_inj. intros k. specialize (E (k / 8)).
  assert (Hx : ∀ z, N.testbit z k = N.testbit (byte (k / 8) z) (k mod 8)).
  { intros z. unfold byte. rewrite N.land_spec, N.shiftr_spec'. replace (k mod 8 + k / 8 * 8) with k by (pose proof (N.div_mod' k 8); lia).
    change 0xff with (N.ones 8). rewrite N.ones_spec_low by (by apply N.mod_lt). by rewrite andb_true_r. }
  by rewrite !Hx, E.
Qed.

Lemma byte_high i w : w < 2 ^ 64 → 8 ≤ i → byte i w = 0.
Proof.
  intros Hw Hi. unfold byte. rewrite land_ff, N.shiftr_div_pow2, N.div_small; [done|].
  eapply N.lt_le_trans; [exact Hw|]. apply N.pow_le_mono_r; lia.
Qed.

(** One word of a name. *)
Definition word_bytes (w : N) : list N := (λ j, byte j w) <$> nrange 0 8.
Definition name_byte (name : list N) (i : N) : N := default 0 (vget name i).

Lemma name_from_words_3 w0 w1 w2 : name_from_words [w0; w1; w2] = word_bytes w0 ++ word_bytes w1 ++ word_bytes w2.
Proof. done. Qed.

Lemma vget_take_drop {A} (l : list A) (a n i : N) :
  vget (take (N.to_nat n) (drop (N.to_nat a) l)) i = if i <? n then vget l (a + i) else None.
Proof.
  rewrite !vget_lookup. destruct (i <? n) eqn:E; bool_to_prop.
  - rewrite lookup_take_lt by lia. rewrite lookup_drop. f_equal. lia.
  - apply lookup_take_ge. lia.
Qed.

Lemma vget_beyond {A} (l : list A) i : vlen l ≤ i → vget l i = None.
Proof. intros Hl. unfold vget. by rewrite (proj2 (N.ltb_ge _ _) Hl). Qed.

(** Word [k] of an encoded name holds the bytes [8 k .. 8 k + 8] of the first 24. *)
Lemma name_word_bytes name k :
  Forall (λ b, b < 256) name → k < 3 →
  let n := N.min (vlen name) NAME_MAX in
  word_bytes (if k * 8 <? n then pack 0 (take (N.to_nat (N.min (k * 8 + 8) n - k * 8)) (drop (N.to_nat (k * 8)) name)) 0 else 0) =
  (λ j, name_byte name (k * 8 + j)) <$> nrange 0 8.
Proof.
  intros Hb Hk n. apply list_fmap_ext. intros i j Hj%list_elem_of_lookup_2%elem_of_nrange. unfold name_byte.
  subst n. destruct (_ <? _) eqn:E; bool_to_prop.
  - rewrite byte_pack by (by apply Forall_take, Forall_drop). rewrite byte_0, N.lor_0_l, decide_True, N.sub_0_r by lia.
    rewrite vget_take_drop. destruct (j <? _) eqn:Ej; bool_to_prop; [done|].
    rewrite vget_beyond; [done|]. unfold NAME_MAX in *. lia.
  - rewrite byte_0, vget_beyond; [done|]. unfold NAME_MAX in *. lia.
Qed.

Lemma decode_encode name :
  Forall (λ b, b < 256) name →
  name_from_words (name_to_words name).1 = name_byte name <$> nrange 0 24.
Proof.
  intros Hb. unfold name_to_words. cbn [fst fmap list_fmap]. rewrite name_from_words_3.
  rewrite !(name_word_bytes name) by (done || lia). done.
Qed.

(** The coding of file names in three message words loses nothing: decoding the
    encoding of a name gives its first 24 bytes, the length the encoder reports, followed
    by zeros, and every triple of words is the encoding of the 24 bytes it decodes to. *)
Theorem name_roundtrip (name : list N) (w0 w1 w2 : N) :
  Forall (λ b, b < 256) name → w0 < 2 ^ 64 → w1 < 2 ^ 64 → w2 < 2 ^ 64 →
  let r := name_to_words name in
  r.2 = N.min (vlen name) NAME_MAX ∧
  name_from_words r.1 = take (N.to_nat NAME_MAX) name ++ replicate (N.to_nat (NAME_MAX - r.2)) 0 ∧
  name_to_words (name_from_words [w0; w1; w2]) = ([w0; w1; w2], NAME_MAX).
Proof.
  intros Hb H0 H1 H2 r. split; [done|]. split.
  - subst r. rewrite decode_encode by done. cbn [snd name_to_words]. apply list_eq. intros i.
    rewrite list_lookup_fmap. destruct (decide (i < 24)%nat) as [Hi|Hi].
    + assert (Hn : nrange 0 24 !! i = Some (N.of_nat i)).
      { clear - Hi. do 24 (destruct i as [|i]; [done|]). lia. }
      rewrite Hn. cbn [fmap option_fmap option_map]. unfold name_byte. rewrite vget_lookup, Nat2N.id.
      destruct (name !! i) as [b|] eqn:E; cbn [default from_option].
      * rewrite lookup_app_l; [rewrite lookup_take_lt; [done|]|]; [unfold NAME_MAX; lia|].
        apply lookup_lt_Some in E. rewrite length_take. unfold NAME_MAX. lia.
      * apply lookup_ge_None in E. rewrite lookup_app_r by (rewrite length_take; lia).
        rewrite length_take. symmetry. apply lookup_replicate_2. unfold NAME_MAX, vlen in *. lia.
    + rewrite (lookup_ge_None_2 (nrange 0 24)) by (rewrite length_nrange; lia). symmetry. apply lookup_ge_None_2.
      rewrite length_app, length_take, length_replicate. unfold NAME_MAX, vlen. lia.
  - unfold name_to_words. replace (N.min (vlen (name_from_words [w0; w1; w2])) NAME_MAX) with NAME_MAX by done.
    f_equal. cbn [fmap list_fmap]. change (0 * 8 <? NAME_MAX) with true. change (1 * 8 <? NAME_MAX) with true.
    change (2 * 8 <? NAME_MAX) with true. cbv iota.
    assert (Hw : ∀ w, w < 2 ^ 64 → pack 0 (word_bytes w) 0 = w).
    { intros w Hw. apply byte_inj. intros i. assert (HF : Forall (λ b, b < 256) (word_bytes w)).
      { apply Forall_fmap, Forall_forall. intros j _. apply byte_lt. }
      rewrite byte_pack, byte_0, N.lor_0_l, decide_True, N.sub_0_r by (done || lia). rewrite vget_lookup.
      destruct (decide (i < 8)) as [Hi|Hi].
      - assert (i = 0 ∨ i = 1 ∨ i = 2 ∨ i = 3 ∨ i = 4 ∨ i = 5 ∨ i = 6 ∨ i = 7) as Hc by lia.
        repeat destruct Hc as [Hc|Hc]; subst i; done.
      - rewrite lookup_ge_None_2 by (cbn; lia). cbn. symmetry. by apply byte_high; [|lia]. }
    change ([pack 0 (word_bytes w0) 0; pack 0 (word_bytes w1) 0; pack 0 (word_bytes w2) 0] = [w0; w1; w2]).
    by rewrite !Hw.
Qed.

(** The name of the file the test client opens. *)
Lemma name_roundtrip_witness :
  name_from_words (name_to_words [116; 101; 115; 116]).1 = [116; 101; 115; 116] ++ replicate 20 0 ∧
  name_to_words (name_from_words [1; 2; 3]) = ([1; 2; 3], NAME_MAX).
Proof.
  destruct (name_roundtrip [116; 101; 115; 116] 1 2 3) as (_ & H1 & H2);
    [repeat constructor|reflexivity|reflexivity|reflexivity|]. split; [exact H1|exact H2].
Defined.
