(* ===== verification/UserMem.v ===== *)
(** * Programs and memory: lemmas for the user servers

    Sequencing of [run], the translation of a mapped user page, and copying bytes between
    two mapped pages. *)

From Stdlib Require Import ZifyN ZifyNat.
From stdpp Require Import base gmap numbers functions list.
From S2P Require Import Prelude Mem PageAlloc Mmu Pte MmuTree MmuSpec Objects Elf ElfMem User Servers UserSys.

(** ** Ranges of indices *)
Lemma lookup_nrange m a j : nrange a m !! j = if (j <? m)%nat then Some (a + N.of_nat j) else None.
Proof.
  revert a j. induction m as [|m IH]; intros a [|j]; cbn [nrange lookup list_lookup]; try done; [cbn; f_equal; lia|]. rewrite IH.
  change (Datatypes.S j <? Datatypes.S m)%nat with (j <? m)%nat. case_match; [f_equal; lia|done].
Qed.

Lemma vget_nrange {A} (f : N → A) n i : vget (f <$> nrange 0 (N.to_nat n)) i = if i <? n then Some (f i) else None.
Proof.
  rewrite vget_lookup, list_lookup_fmap, lookup_nrange. destruct (i <? n) eqn:E1; destruct (N.to_nat i <? N.to_nat n)%nat eqn:E2;
    bool_to_prop; try lia; [|done]. cbn. do 2 f_equal. lia.
Qed.

(** ** Sequencing *)
Section run.
Context {W : Type} (m : Machine W).

Lemma run_bind {A B} (p : uprog A) (f : A → uprog B) w a w' :
  run m p w = Ret (Returned a, w') → run m (p ≫= f) w = run m (f a) w'.
Proof.
  unfold mbind, uprog_bind. revert w. induction p as [b| | |num args k IH|va k IH|va b k IH|va k IH|va v k IH];
    intros w; cbn [ubind run]; try (by intros [= -> ->]); try done.
  - destruct (m_ecall m num args w) as [[r w1]| |]; [apply IH|done..].
  - destruct (m_load m va w) as [[? ?]|]; [apply IH|done].
  - destruct (m_store m va b w); [apply IH|done].
  - destruct (m_load_word m va w); [apply IH|done].
  - destruct (m_store_word m va v w); [apply IH|done].
Qed.

Lemma run_syscall num a0 a1 a2 a3 a4 a5 w r w' :
  m_ecall m num [a0; a1; a2; a3; a4; a5] w = Ret (r, w') →
  run m (syscall num a0 a1 a2 a3 a4 a5) w = Ret (Returned (reg r 0), w').
Proof. intros E. unfold syscall. cbn [run]. by rewrite E. Qed.

Lemma run_load va w b w' : m_load m va w = Some (b, w') → run m (uload va) w = Ret (Returned b, w').
Proof. intros E. unfold uload. cbn [run]. by rewrite E. Qed.

Lemma run_store va b w w' : m_store m va b w = Some w' → run m (ustore va b) w = Ret (Returned tt, w').
Proof. intros E. unfold ustore. cbn [run]. by rewrite E. Qed.

Lemma run_index {A} (l : list A) i x w : vget l i = Some x → run m (uindex l i) w = Ret (Returned x, w).
Proof. intros E. unfold uindex. by rewrite E. Qed.
End run.

(** ** A mapped user page *)

(** Flags of the pages the kernel maps for users: valid, readable, writable, user. *)
Definition UFLAGS : N := N.lor MAP_FLAGS PTE_U.

Lemma user_limit : USER_VA_LIMIT = 274877906944.
Proof. by vm_compute. Qed.

Lemma user_pa_mapped root base pa write s off :
  walk root base s = Some (0, pte pa UFLAGS) → base mod 4096 = 0 → base + 4096 ≤ USER_VA_LIMIT →
  pa mod 4096 = 0 → pa < PHYS_LIMIT → off < 4096 → user_pa root (base + off) write s = Some (pa + off).
Proof.
  intros Hw Hb Hl Ha Hp Ho. unfold user_pa. rewrite (proj2 (N.leb_gt _ _)) by lia.
  rewrite (walk_same_slot root (base + off) base).
  2:{ rewrite user_limit in Hl. apply same_slot_page; [change (2 ^ 39) with 549755813888; lia..|].
      clear - Hb Ho. dlia. }
  rewrite Hw, pte_user_pte, pte_flags, pte_addr_pte; [|done|by vm_compute|done|done|by vm_compute|by destruct write|done|by vm_compute].
  assert (Hf : pte_user UFLAGS && negb (N.land UFLAGS (if write then PTE_W else PTE_R) =? 0) = true) by (by destruct write).
  rewrite Hf. f_equal. change (4096 * 512 ^ 0) with 4096. clear - Hb Ho. dlia.
Qed.

(** ** Writing into a page that is not a table *)
Section memory.
Context `{PageAllocator G}.

Definition no_table (s : PMem) (root a : N) : Prop := ∀ q, path_ok q → tbl s root q ≠ Some a.

Lemma poke_space g s s' root a :
  pt_wf g s root → pokes g s s' a → no_table s root a →
  pt_wf g s' root ∧ (∀ q, path_ok q → tbl s' root q = tbl s root q) ∧ (∀ va, walk root va s' = walk root va s).
Proof.
  intros W [I' A K] Hn.
  assert (KT : ∀ p x, path_ok p → tbl s root p = Some x → keeps s s' x).
  { intros p x Hp Ht. apply K; [by apply (pt_live _ _ _ W p)|]. intros ->. by apply (Hn p). }
  split_and!; [by eapply (pt_wf_ext g g s s')|by eapply tbl_ext|intros va; by eapply walk_ext].
Qed.

Lemma read_byte_lt a r : read_byte a r < 256.
Proof.
  unfold read_byte. change 0xFF with (N.ones 8). rewrite N.land_ones. change (2 ^ 8) with 256.
  apply N.mod_lt. done.
Qed.

(** A page readable and writable at [base], as it stays while [dst] is written. *)
Definition window (root base pa : N) (s : PMem) : Prop :=
  walk root base s = Some (0, pte pa UFLAGS) ∧ base mod 4096 = 0 ∧ base + 4096 ≤ USER_VA_LIMIT.

Context (uart R : N) (peer : N → M Net ()).
Notation mach := (user_machine uart peer R).
Implicit Types (g : G) (w : Net).

Definition with_mem (s : PMem) (w : Net) : Net := set_k (set_mem s (n_k w)) w.

Lemma window_pa g s root base pa write off :
  pt_wf g s root → window root base pa s → live g pa → off < 4096 →
  user_pa root (base + off) write s = Some (pa + off).
Proof.
  intros W (Hw & Hb & Hl) L Ho. destruct (live_phys g s pa (pt_pinv _ _ _ W) L (pt_phys _ _ _ W)).
  by apply user_pa_mapped.
Qed.

(** One byte. *)
Lemma store_byte g w root base pa off b :
  pid_root R (n_k w) = Some root → pt_wf g (k_mem (n_k w)) root → window root base pa (k_mem (n_k w)) →
  live g pa → off < 4096 →
  let s := k_mem (n_k w) in
  m_store mach (base + off) b w = Some (with_mem (set_ram (write_byte (pa + off) b (ram s)) s) w).
Proof.
  intros Hr W Hv L Ho. cbn. unfold proc_pa. rewrite Hr. cbn [mbind option_bind].
  by rewrite (window_pa g _ _ _ pa).
Qed.

Lemma load_byte g w root base pa off :
  pid_root R (n_k w) = Some root → pt_wf g (k_mem (n_k w)) root → window root base pa (k_mem (n_k w)) →
  live g pa → off < 4096 → m_load mach (base + off) w = Some (read_byte (pa + off) (ram (k_mem (n_k w))), w).
Proof.
  intros Hr W Hv L Ho. cbn. unfold proc_pa. rewrite Hr. cbn [mbind option_bind].
  by rewrite (window_pa g _ _ _ pa).
Qed.

(** [copy_bytes] from offset [o1] of one page to offset [o2] of another. *)
Lemma copy_run g w root b1 p1 o1 b2 p2 o2 (n : nat) (a : N) :
  pid_root R (n_k w) = Some root → pt_wf g (k_mem (n_k w)) root →
  window root b1 p1 (k_mem (n_k w)) → window root b2 p2 (k_mem (n_k w)) →
  live g p1 → live g p2 → p1 ≠ p2 → no_table (k_mem (n_k w)) root p2 →
  o1 + a + N.of_nat n ≤ 4096 → o2 + a + N.of_nat n ≤ 4096 →
  let s := k_mem (n_k w) in
  ∃ s', run mach (ufor (λ i, b ← uload (b1 + o1 + i); ustore (b2 + o2 + i) b) (nrange a n)) w =
      Ret (Returned tt, with_mem s' w) ∧ pokes g s s' p2 ∧
    ∀ off, off < 4096 → read_byte (p2 + off) (ram s') =
      if decide (o2 + a ≤ off < o2 + a + N.of_nat n) then read_byte (p1 + o1 + (off - o2)) (ram s)
      else read_byte (p2 + off) (ram s).
Proof.
  revert w a. induction n as [|n IH]; intros w a Hr W V1 V2 L1 L2 Hne Hnt H1 H2 s.
  { exists s. cbn [nrange ufor]. split; [by destruct w as [[]]|]. split; [apply pokes_refl, W|].
    intros off Ho. rewrite decide_False; [done|lia]. }
  cbn [nrange ufor]. set (b := read_byte (p1 + (o1 + a)) (ram s)).
  set (s1 := set_ram (write_byte (p2 + (o2 + a)) b (ram s)) s).
  assert (E : run mach (b ← uload (b1 + o1 + a); ustore (b2 + o2 + a) b) w = Ret (Returned tt, with_mem s1 w)).
  { replace (b1 + o1 + a) with (b1 + (o1 + a)) by lia. replace (b2 + o2 + a) with (b2 + (o2 + a)) by lia.
    rewrite (run_bind _ _ _ _ b w); [|apply run_load; by apply (load_byte g w root); [..|lia]].
    apply run_store. apply (store_byte g w root); [done..|lia]. }
  rewrite (run_bind _ _ _ _ _ _ E).
  assert (P1 : pokes g s s1 p2) by (apply pokes_byte; [apply W|done|lia]).
  destruct (poke_space g s s1 root p2 W P1 Hnt) as (W1 & T1 & Wk1).
  destruct (IH (with_mem s1 w) (a + 1)) as (s' & E' & P' & Hb); [done|done|..|done|done|done| |lia|lia|].
  - destruct V1 as [? ?]. split; [|done]. by cbn; rewrite Wk1.
  - destruct V2 as [? ?]. split; [|done]. by cbn; rewrite Wk1.
  - intros q Hq. cbn. rewrite T1 by done. by apply Hnt.
  - exists s'. split; [exact E'|]. split; [by eapply pokes_trans|]. cbn [k_mem n_k with_mem set_k set_mem] in Hb.
    destruct (live_page s g p1 (pt_pinv _ _ _ W) L1) as [A1 _]. destruct (live_page s g p2 (pt_pinv _ _ _ W) L2) as [A2 _].
    intros off Ho. rewrite Hb by done. subst s1. cbn [ram set_ram]. rewrite !read_write_byte by apply read_byte_lt.
    repeat case_decide; try lia; try done.
    + exfalso. unfold PAGE_SIZE in *. clear - A1 A2 H0 H3 H1 H2 Hne. dlia.
    + subst b. f_equal. lia.
Qed.
End memory.
