(* ===== verification/RamfsSpec.v ===== *)
(** * The file store the file server promises

    Four slots; each is empty, holds a file, or is stuck: its page could not be mapped and
    stays in the slot.  [fs_spec] answers a request on this store, with two choices left
    to the system: whether the kernel is out of memory for page tables when a new file is
    mapped, and the bytes between the old end of a file and a write beyond it. *)

From Stdlib Require Import ZifyN ZifyNat.
From stdpp Require Import base gmap numbers functions list.
From S2P Require Import Prelude User Servers.

Record AFile := mkAFile { af_name : list N; af_open : bool; af_data : list N }.
Inductive ASlot := Empty | Stuck | File (f : AFile).
Notation store := (N → ASlot).
(** The window shared with the client, by offset. *)
Notation bytes := (N → N).

Record Choice := mkChoice { c_oom : bool; c_gap : bytes }.

(** The first slot of [files] that satisfies a test. *)
Definition first_slot (P : ASlot → bool) (st : store) : option N :=
  head (filter (λ fd, P (st fd)) Ramfs.files).

Definition named (name : list N) (sl : ASlot) : bool :=
  match sl with File f => bool_decide (af_name f = name) | _ => false end.
Definition no_file (sl : ASlot) : bool := match sl with File _ => false | _ => true end.
Definition open_file (st : store) (fd : N) : option AFile :=
  if fd <? MAX_FILES then match st fd with File f => if af_open f then Some f else None | _ => None end
  else None.

Definition fs_reply (op status result : N) : list N := [reply_op op; status; result; 0; 0].

Definition spec_open (c : Choice) (st : store) (name_len w0 w1 w2 : N) : list N * store :=
  if (name_len =? 0) || (NAME_MAX <? name_len) then (fs_reply OP_FS_OPEN USER_ERR_EINVAL 0, st)
  else
    let name := take (N.to_nat name_len) (name_from_words [w0; w1; w2]) in
    match first_slot (named name) st with
    | Some fd =>
        match st fd with
        | File f => if af_open f then (fs_reply OP_FS_OPEN USER_ERR_EEXIST 0, st)
                    else (fs_reply OP_FS_OPEN 0 fd, <[fd := File (mkAFile (af_name f) true (af_data f))]> st)
        | _ => (fs_reply OP_FS_OPEN PROTO_ERR 0, st)
        end
    | None =>
        match first_slot no_file st with
        | None => (fs_reply OP_FS_OPEN ERR_ENOMEM 0, st)
        | Some fd =>
            match st fd with
            | Empty => if c_oom c then (fs_reply OP_FS_OPEN ERR_ENOMEM 0, <[fd := Stuck]> st)
                       else (fs_reply OP_FS_OPEN 0 fd, <[fd := File (mkAFile name true [])]> st)
            | _ => (fs_reply OP_FS_OPEN ERR_ENOMEM 0, st)
            end
        end
    end.

Definition spec_read (st : store) (shm : bytes) (fd offset len : N) : list N * bytes :=
  match open_file st fd with
  | None => (fs_reply OP_FS_READ USER_ERR_EBADF 0, shm)
  | Some f =>
      let n := N.min len (vlen (af_data f) - offset) in
      (fs_reply OP_FS_READ 0 n, λ i, if i <? n then default 0 (vget (af_data f) (offset + i)) else shm i)
  end.

(** The contents after [len] bytes of [shm] are written at [offset]. *)
Definition written (gap shm : bytes) (data : list N) (offset len : N) : list N :=
  (λ i, if (offset <=? i) && (i <? offset + len) then shm (i - offset)
        else default (gap i) (vget data i)) <$> nrange 0 (N.to_nat (N.max (vlen data) (offset + len))).

Definition spec_write (c : Choice) (st : store) (shm : bytes) (fd offset len : N) : list N * store :=
  match open_file st fd with
  | None => (fs_reply OP_FS_WRITE USER_ERR_EBADF 0, st)
  | Some f =>
      if (offset <? 4096) && (offset + len <=? 4096) then
        (fs_reply OP_FS_WRITE 0 len,
         <[fd := File (mkAFile (af_name f) true (written (c_gap c) shm (af_data f) offset len))]> st)
      else (fs_reply OP_FS_WRITE USER_ERR_EINVAL 0, st)
  end.

Definition spec_close (st : store) (fd : N) : list N * store :=
  match open_file st fd with
  | None => (fs_reply OP_FS_CLOSE USER_ERR_EBADF 0, st)
  | Some f => (fs_reply OP_FS_CLOSE 0 0, <[fd := File (mkAFile (af_name f) false (af_data f))]> st)
  end.

Definition spec_unlink (st : store) (fd : N) : list N * store :=
  if fd <? MAX_FILES then
    match st fd with
    | File _ => (fs_reply OP_FS_UNLINK 0 0, <[fd := Empty]> st)
    | _ => (fs_reply OP_FS_UNLINK USER_ERR_EBADF 0, st)
    end
  else (fs_reply OP_FS_UNLINK USER_ERR_EBADF 0, st).

(** One request: the reply, the store and the window afterwards. *)
Definition fs_spec (c : Choice) (st : store) (shm : bytes) (msg : list N) : list N * store * bytes :=
  let op := reg msg 0 in
  let a1 := reg msg 1 in let a2 := reg msg 2 in let a3 := reg msg 3 in let a4 := reg msg 4 in
  if op =? OP_FS_OPEN then (spec_open c st a1 a2 a3 a4, shm)
  else if op =? OP_FS_READ then let r := spec_read st shm a1 a2 a3 in (r.1, st, r.2)
  else if op =? OP_FS_WRITE then (spec_write c st shm a1 a2 a3, shm)
  else if op =? OP_FS_CLOSE then (spec_close st a1, shm)
  else if op =? OP_FS_UNLINK then (spec_unlink st a1, shm)
  else (fs_reply op PROTO_ERR 0, st, shm).
