(* ===== verification/RamfsInv.v ===== *)
(** * The invariant of the file server, the memory server and the kernel together

    Where the pages are, what the capabilities, the page registry and the page table say
    about them, and how the kernel calls of the two servers move them. *)

From Stdlib Require Import ZifyN ZifyNat.
From stdpp Require Import base gmap numbers functions list.
From S2P Require Import Prelude Mem PageAlloc Mmu Pte MmuTree MmuSpec Objects ObjInv ObjMem Elf ElfMem.
From S2P Require Import User Servers UserSys UserMem RamfsSpec.

(** ** Where a page is

    Keys 1 to 4 are the slots of the memory server's pool, key [8 + fd] the slot of file
    [fd]; a key holds the page's id and its address. *)
Notation places := (gmap N (N * N)).
Definition fkey (fd : N) : N := 8 + fd.
Definition pool_key (i : N) : Prop := 1 ≤ i ≤ 4.
Definition file_va (fd : N) : N := RAMFS_VA + fd * 4096.
Definition file_slot (fd : N) : N := RAMFS_FILE_PAGE_START + fd.

Record placed (m : places) : Prop := mkPlaced {
  pl_size : size m = 4%nat;
  pl_keys k x : m !! k = Some x → pool_key k ∨ ∃ fd, fd < MAX_FILES ∧ k = fkey fd;
  pl_inj a b x y : m !! a = Some x → m !! b = Some y → x.1 = y.1 ∨ x.2 = y.2 → a = b
}.

Definition move (src dst : N) (x : N * N) (m : places) : places := <[dst := x]> (delete src m).

Lemma lookup_move src dst x m k :
  src ≠ dst → move src dst x m !! k = if decide (k = dst) then Some x else if decide (k = src) then None else m !! k.
Proof.
  intros Hne. unfold move. case_decide; [subst; by rewrite lookup_insert_eq|].
  rewrite lookup_insert_ne by done. case_decide; [subst; by rewrite lookup_delete_eq|by rewrite lookup_delete_ne].
Qed.

Lemma placed_move src dst x m :
  placed m → m !! src = Some x → m !! dst = None →
  pool_key dst ∨ (∃ fd, fd < MAX_FILES ∧ dst = fkey fd) → placed (move src dst x m).
Proof.
  intros [Hs Hk Hi] Hsrc Hdst Hd. assert (Hne : src ≠ dst) by (by intros ->; congruence). split.
  - unfold move. rewrite map_size_insert_None by (by rewrite lookup_delete_ne).
    rewrite map_size_delete, Hsrc, Hs. done.
  - intros k y. rewrite lookup_move by done. case_decide; [by subst|]. case_decide; [done|]. apply Hk.
  - intros a b y z. rewrite !lookup_move by done. repeat case_decide; subst; try done; try naive_solver;
      intros; simplify_eq; exfalso; naive_solver.
Qed.

(** With a file slot without a page there is a page in the pool, and with a page in a file
    slot there is room in the pool. *)
Lemma pool_has_page m fd : placed m → fd < MAX_FILES → m !! fkey fd = None → ∃ i, pool_key i ∧ is_Some (m !! i).
Proof.
  intros [Hs Hk _] Hfd Hn.
  destruct (decide (is_Some (m !! 1))); [exists 1; by split|].
  destruct (decide (is_Some (m !! 2))); [exists 2; by split|].
  destruct (decide (is_Some (m !! 3))); [exists 3; by split|].
  destruct (decide (is_Some (m !! 4))); [exists 4; by split|]. exfalso.
  assert (Hd : dom m ⊆ list_to_set (filter (λ k, k ≠ fkey fd) [8; 9; 10; 11])).
  { intros k [x Hx]%elem_of_dom. apply elem_of_list_to_set, list_elem_of_filter. split; [by intros ->; congruence|].
    destruct (Hk k x Hx) as [Hp|(fd' & Hf & ->)].
    - assert (k = 1 ∨ k = 2 ∨ k = 3 ∨ k = 4) as [E|[E|[E|E]]] by (unfold pool_key in Hp; lia); subst; naive_solver.
    - unfold fkey, MAX_FILES in *. assert (fd' = 0 ∨ fd' = 1 ∨ fd' = 2 ∨ fd' = 3) as [E|[E|[E|E]]] by lia; subst; cbn; set_solver. }
  apply subseteq_size in Hd. rewrite size_dom, Hs in Hd.
  unfold fkey, MAX_FILES in *. assert (fd = 0 ∨ fd = 1 ∨ fd = 2 ∨ fd = 3) as [E|[E|[E|E]]] by lia; subst; vm_compute in Hd; lia.
Qed.

Lemma pool_has_room m fd : placed m → fd < MAX_FILES → is_Some (m !! fkey fd) → ∃ i, pool_key i ∧ m !! i = None.
Proof.
  intros [Hs Hk _] Hfd Hn.
  destruct (m !! 1) eqn:E1; [|exists 1; by split]. destruct (m !! 2) eqn:E2; [|exists 2; by split].
  destruct (m !! 3) eqn:E3; [|exists 3; by split]. destruct (m !! 4) eqn:E4; [|exists 4; by split]. exfalso.
  assert (Hd : ({[1; 2; 3; 4; fkey fd]} : gset N) ⊆ dom m).
  { intros k Hin. apply elem_of_dom. set_solver. }
  apply subseteq_size in Hd. rewrite size_dom, Hs in Hd.
  unfold fkey, MAX_FILES in *. assert (fd = 0 ∨ fd = 1 ∨ fd = 2 ∨ fd = 3) as [E|[E|[E|E]]] by lia; subst; vm_compute in Hd; lia.
Qed.

(** ** The invariant *)
Section inv.
Context `{PageAllocator G} (R S C root shm : N).

(** Memory: the tables of the file server, the window and the files. *)
Definition file_view (m : places) (s : PMem) (fd : N) (sl : ASlot) : Prop :=
  match sl with
  | File f => ∃ x, m !! fkey fd = Some x ∧ walk root (file_va fd) s = Some (0, pte x.2 UFLAGS) ∧
      vlen (af_data f) ≤ 4096 ∧ ∀ i b, vget (af_data f) i = Some b → read_byte (x.2 + i) (ram s) = b
  | _ => walk root (file_va fd) s = None
  end.

Definition owned (m : places) (a : N) : Prop := a = shm ∨ ∃ k x, m !! k = Some x ∧ a = x.2.

Record meminv (g : G) (m : places) (st : store) (bs : bytes) (s : PMem) : Prop := mkMemInv {
  mi_pt : pt_wf g s root;
  mi_shm : walk root SHM_VA s = Some (0, pte shm UFLAGS);
  mi_bytes i : i < 4096 → read_byte (shm + i) (ram s) = bs i;
  mi_live a : owned m a → live g a;
  mi_table a : owned m a → no_table s root a;
  mi_other k x : m !! k = Some x → x.2 ≠ shm;
  mi_file fd : fd < MAX_FILES → file_view m s fd (st fd)
}.

(** Capabilities and the registry. *)
Definition map_of (sl : ASlot) (fd : N) : option N := match sl with File _ => Some (file_va fd) | _ => None end.

Record tabinv (m : places) (st : store) (k : Kernel) : Prop := mkTabInv {
  ti_full : caps_full k;
  ti_root : pid_root R k = Some root;
  ti_server : is_Some (find_proc (k_procs k) S);
  ti_client : cap_at k R SERVER_ACCEPT_SLOT = Some (CProc C);
  ti_link : cap_at k R CLIENT_IPC_SLOT = Some (CProc S);
  ti_back : cap_at k S SERVER_ACCEPT_SLOT = Some (CProc R);
  ti_pool i : pool_key i → cap_at k S i = (λ x, CPage x.1) <$> m !! i;
  ti_pool_page i x : pool_key i → m !! i = Some x → find_page (k_pages k) x.1 = Some (mkPageRec x.1 x.2 S None);
  ti_file fd : fd < MAX_FILES → cap_at k R (file_slot fd) = (λ x, CPage x.1) <$> m !! fkey fd;
  ti_file_page fd x : fd < MAX_FILES → m !! fkey fd = Some x →
    find_page (k_pages k) x.1 = Some (mkPageRec x.1 x.2 R (map_of (st fd) fd));
  ti_empty fd : fd < MAX_FILES → m !! fkey fd = None ↔ st fd = Empty
}.

Record kinv (g : G) (m : places) (st : store) (bs : bytes) (k : Kernel) : Prop := mkKInv {
  ki_placed : placed m;
  ki_mem : meminv g m st bs (k_mem k);
  ki_tab : tabinv m st k
}.

(** *** Memory *)

Lemma file_va_facts fd : fd < MAX_FILES → file_va fd mod 4096 = 0 ∧ file_va fd + 4096 ≤ USER_VA_LIMIT.
Proof. unfold file_va, RAMFS_VA, MAX_FILES. rewrite user_limit. intros. split; [clear; dlia|lia]. Qed.

Lemma file_va_apart fd fd' : fd < MAX_FILES → fd' < MAX_FILES → same_slot (file_va fd) (file_va fd') → fd = fd'.
Proof.
  intros H1 H2. destruct (file_va_facts fd H1) as [A1 L1], (file_va_facts fd' H2) as [A2 L2].
  intros Hs%same_slot_aligned; [|done|done|lia|lia]. unfold file_va in Hs. lia.
Qed.

Lemma shm_va_apart fd : fd < MAX_FILES → ¬ same_slot SHM_VA (file_va fd).
Proof.
  intros H1 Hs. destruct (file_va_facts fd H1) as [A1 L1].
  apply same_slot_aligned in Hs; [|by vm_compute|done|by vm_compute|lia]. unfold file_va, SHM_VA, RAMFS_VA in Hs. lia.
Qed.

(** An operation on the tables: the new walk of every page is known, other pages of ours
    keep their bytes. *)
Lemma meminv_step g g' m m' st st' bs s s' :
  meminv g m st bs s → pt_step g g' s s' root → (∀ a, owned m' a → owned m a) →
  walk root SHM_VA s' = walk root SHM_VA s →
  (∀ fd, fd < MAX_FILES → file_view m' s' fd (st' fd) ∨
    (st' fd = st fd ∧ m' !! fkey fd = m !! fkey fd ∧ walk root (file_va fd) s' = walk root (file_va fd) s)) →
  (∀ k x, m' !! k = Some x → x.2 ≠ shm) → meminv g' m' st' bs s'.
Proof.
  intros [Wf Hs Hbs Hl Ht Ho Hf] P Hsub Hws Hfd Hne. split; [apply P|by rewrite Hws|..|done|].
  - assert (Ho' : owned m shm) by (by left). intros i Hi. rewrite <-Hbs by done.
    apply keeps_byte; [|done|apply (ps_keeps _ _ _ _ _ P); [by apply Hl|by apply Ht]].
    apply (live_page s g); [apply Wf|by apply Hl].
  - intros a Ha. by apply (ps_live _ _ _ _ _ P), Hl, Hsub.
  - intros a Ha q Hq. eapply not_new_table; [exact P|by apply Hl, Hsub|by apply Ht, Hsub|done].
  - intros fd Hlt. destruct (Hfd fd Hlt) as [?|(E1 & E2 & E3)]; [done|]. rewrite E1. specialize (Hf fd Hlt).
    unfold file_view in *. destruct (st fd) as [| |f]; [by rewrite E3..|].
    destruct Hf as (x & Hx & Hw & Hv & Hb). exists x. rewrite E2, E3. split_and!; [done..|].
    intros i b Hi. rewrite <-(Hb i b Hi). assert (Hox : owned m x.2) by (right; eauto).
    apply keeps_byte; [|apply vget_Some_lt in Hi; lia|apply (ps_keeps _ _ _ _ _ P); [by apply Hl|by apply Ht]].
    apply (live_page s g); [apply Wf|by apply Hl].
Qed.

(** Writing into a page of ours: the files in other pages are as they were. *)
Lemma meminv_poke g m st st' bs bs' s s' a :
  placed m → meminv g m st bs s → owned m a → pokes g s s' a →
  (∀ fd, fd < MAX_FILES → st' fd = st fd ∨ file_view m s' fd (st' fd)) →
  (∀ fd x f, fd < MAX_FILES → m !! fkey fd = Some x → st fd = File f → x.2 = a → file_view m s' fd (st' fd)) →
  (a ≠ shm ∧ bs' = bs ∨ ∀ i, i < 4096 → read_byte (shm + i) (ram s') = bs' i) → meminv g m st' bs' s'.
Proof.
  intros Hpl [Wf Hs Hbs Hl Ht Ho Hf] Ha P Hst Hself Hb'.
  destruct (poke_space g s s' root a Wf P (Ht a Ha)) as (W' & T & Wk). split; [done|by rewrite Wk| |done| |done|].
  - destruct Hb' as [[Hne ->]|?]; [|done]. assert (Ho' : owned m shm) by (by left). intros i Hi. rewrite <-Hbs by done.
    apply keeps_byte; [|done|apply P; [by apply Hl|done]]. apply (live_page s g); [apply Wf|by apply Hl].
  - intros x Hx q Hq. rewrite T by done. by apply Ht.
  - intros fd Hlt. destruct (Hst fd Hlt) as [E|?]; [|done]. specialize (Hf fd Hlt). pose proof (Hself fd) as Hsf.
    rewrite E in *. unfold file_view in *. destruct (st fd) as [| |f]; [by rewrite Wk..|].
    destruct Hf as (x & Hx & Hw & Hv & Hb). destruct (decide (x.2 = a)) as [Ea|Ea]; [by apply (Hsf x f)|].
    exists x. rewrite Wk. split_and!; [done..|]. intros i b Hi. rewrite <-(Hb i b Hi).
    assert (Hox : owned m x.2) by (right; eauto).
    apply keeps_byte; [|apply vget_Some_lt in Hi; lia|apply P; [by apply Hl|done]].
    apply (live_page s g); [apply Wf|by apply Hl].
Qed.

Lemma shm_window g m st bs s : meminv g m st bs s → window root SHM_VA shm s.
Proof. intros I. split; [apply I|]. split; [done|by vm_compute]. Qed.

Lemma file_window g m st bs s fd f : meminv g m st bs s → fd < MAX_FILES → st fd = File f →
  ∃ x, m !! fkey fd = Some x ∧ window root (file_va fd) x.2 s ∧ vlen (af_data f) ≤ 4096 ∧
    ∀ i b, vget (af_data f) i = Some b → read_byte (x.2 + i) (ram s) = b.
Proof.
  intros I Hlt E. pose proof (mi_file _ _ _ _ _ I fd Hlt) as Hf. rewrite E in Hf. destruct Hf as (x & Hx & Hw & Hv & Hb).
  exists x. split_and!; [done|split; [done|by apply file_va_facts]|done..].
Qed.

(** Only the four slots matter. *)
Lemma kinv_ext g m st st' bs k : (∀ fd, fd < MAX_FILES → st' fd = st fd) → kinv g m st bs k → kinv g m st' bs k.
Proof.
  intros E [Hpl [W Hs Hb Hl Ht Ho Hf] [F Hr Hse Hc Hlk Hbk Hp Hpp Hfc Hfp He]]. split; [done|split|split]; try done.
  - intros fd Hfd. rewrite E by done. by apply Hf.
  - intros fd x Hfd. rewrite E by done. by apply Hfp.
  - intros fd Hfd. rewrite E by done. by apply He.
Qed.
End inv.
