(* ===== verification/RamfsCalls.v ===== *)
(** * The kernel calls of the servers keep the invariant *)

From Stdlib Require Import ZifyN ZifyNat.
From stdpp Require Import base gmap numbers functions list.
From S2P Require Import Prelude Mem PageAlloc Mmu Pte MmuTree MmuSpec Objects ObjInv ObjMem Elf ElfMem.
From S2P Require Import User Servers UserSys UserMem RamfsSpec RamfsInv.

(** Keys and slots as numbers. *)
Ltac keys := unfold pool_key, fkey, file_slot, RAMFS_FILE_PAGE_START, SERVER_ACCEPT_SLOT, CLIENT_IPC_SLOT,
  MAX_FILES, MAX_CAPS in *.

Section calls.
Context `{PageAllocator G} (R S C root shm : N) (HRS : R ≠ S).
Notation kinv := (kinv R S C root shm).
Notation tabinv := (tabinv R S C root).
Notation meminv := (meminv root shm).
Implicit Types (g : G) (m : places) (st : store) (k : Kernel).

Lemma owned_move src dst x m a : m !! src = Some x → src ≠ dst → owned shm (move src dst x m) a → owned shm m a.
Proof.
  intros Hx Hne [E|(key & y & Hy & ->)]; [by left|]. rewrite lookup_move in Hy by done. right.
  repeat case_decide; simplify_eq; eauto.
Qed.

Lemma other_move src dst x m : m !! src = Some x → src ≠ dst →
  (∀ key y, m !! key = Some y → y.2 ≠ shm) → ∀ key y, move src dst x m !! key = Some y → y.2 ≠ shm.
Proof.
  intros Hx Hne Ho key y Hy. rewrite lookup_move in Hy by done. repeat case_decide; simplify_eq; eauto.
Qed.

(** The tables after a page has moved: the pool gives it to file [fd], or takes it back. *)
Lemma tabinv_move g k k' m st src dst key1 key2 x fd peer caller r sl :
  placed m → tabinv m st k → granted g k k' caller src dst x.1 peer r → pr_paddr r = x.2 →
  m !! key1 = Some x → m !! key2 = None → fd < MAX_FILES →
  ((caller = S ∧ peer = R ∧ pool_key src ∧ key1 = src ∧ dst = file_slot fd ∧ key2 = fkey fd ∧ sl = Stuck) ∨
   (caller = R ∧ peer = S ∧ pool_key dst ∧ key2 = dst ∧ src = file_slot fd ∧ key1 = fkey fd ∧ sl = Empty)) →
  tabinv (move key1 key2 x m) (<[fd := sl]> st) k'.
Proof.
  intros Hpl [F Hr Hs Hc Hl Hb Hp Hpp Hf Hfp He] [F' A P Rt _] Hpa Hx Hn Hlt Hdir.
  assert (Hne : key1 ≠ key2) by (intros ->; congruence).
  assert (Hkk : ∀ key y, move key1 key2 x m !! key = Some y → key ≠ key2 → m !! key = Some y ∧ y.1 ≠ x.1).
  { intros key y Hy Hk2. rewrite lookup_move, decide_False in Hy by done. case_decide as Hk1; [done|].
    split; [done|]. intros E. apply Hk1. eapply (pl_inj _ Hpl); eauto. }
  split; [done|by rewrite Rt|..].
  - destruct Hs as [p Hp']. specialize (Rt S). unfold pid_root in Rt. rewrite Hp' in Rt. cbn in Rt.
    destruct (find_proc (k_procs k') S); [eauto|done].
  - rewrite A, !decide_False; [done|keys; naive_solver lia..].
  - rewrite A, !decide_False; [done|keys; naive_solver lia..].
  - rewrite A, !decide_False; [done|keys; naive_solver lia..].
  - intros j Hj. rewrite A, lookup_move by done.
    destruct Hdir as [(-> & -> & H1 & -> & -> & -> & _)|(-> & -> & H1 & -> & -> & -> & _)].
    + rewrite (decide_False (P := j = fkey fd)) by (keys; lia). rewrite (decide_False (P := (S, j) = (R, _))) by naive_solver.
      destruct (decide (j = src)); [by subst; rewrite decide_True|]. rewrite decide_False by naive_solver. by apply Hp.
    + rewrite (decide_False (P := (S, j) = (R, _))) by naive_solver. rewrite (decide_False (P := j = fkey fd)) by (keys; lia).
      destruct (decide (j = dst)); [by subst; rewrite decide_True|]. rewrite decide_False by naive_solver. by apply Hp.
  - intros j y Hj Hy. rewrite P. destruct (decide (j = key2)) as [->|Hj2].
    + rewrite lookup_move, decide_True in Hy by done. simplify_eq. rewrite decide_True by done. rewrite Hpa.
      destruct Hdir as [(-> & -> & _ & _ & _ & Hk & _)|(-> & -> & _)]; [exfalso; keys; lia|done].
    + destruct (Hkk j y Hy Hj2) as [Hy' Hid]. rewrite decide_False by done. by apply (Hpp j).
  - intros fd' Hlt'. rewrite A, lookup_move by done.
    destruct Hdir as [(-> & -> & H1 & -> & -> & -> & _)|(-> & -> & H1 & -> & -> & -> & _)].
    + rewrite (decide_False (P := (R, _) = (S, _))) by naive_solver. rewrite (decide_False (P := fkey fd' = src)) by (keys; lia).
      destruct (decide (fd' = fd)); [subst; by rewrite !decide_True|]. rewrite !decide_False by (keys; naive_solver lia). by apply Hf.
    + rewrite (decide_False (P := (R, _) = (S, _))) by naive_solver. rewrite (decide_False (P := fkey fd' = dst)) by (keys; lia).
      destruct (decide (fd' = fd)); [subst; by rewrite !decide_True|]. rewrite !decide_False by (keys; naive_solver lia). by apply Hf.
  - intros fd' y Hlt' Hy. rewrite P. destruct (decide (fkey fd' = key2)) as [E|Hj2].
    + rewrite lookup_move, decide_True in Hy by done. simplify_eq. rewrite decide_True by done. rewrite Hpa.
      destruct Hdir as [(-> & -> & _ & _ & _ & Hk & ->)|(-> & -> & Hd & Hk & _)]; [|exfalso; keys; lia].
      assert (fd' = fd) as -> by (keys; lia). by rewrite fn_lookup_insert.
    + destruct (Hkk (fkey fd') y Hy Hj2) as [Hy' Hid]. rewrite decide_False by done.
      destruct (decide (fd = fd')) as [<-|]; [|rewrite fn_lookup_insert_ne by done; by apply Hfp].
      exfalso. destruct Hdir as [(_ & _ & _ & _ & _ & -> & _)|(_ & _ & _ & _ & _ & -> & _)]; [done|]. simplify_eq.
  - intros fd' Hlt'. rewrite lookup_move by done.
    destruct (decide (fd = fd')) as [<-|Hfd]; [rewrite fn_lookup_insert|rewrite fn_lookup_insert_ne by done].
    + destruct Hdir as [(_ & _ & _ & _ & _ & -> & ->)|(_ & _ & Hd & -> & _ & -> & ->)]; [by rewrite decide_True|].
      rewrite decide_False by (keys; lia). by rewrite decide_True.
    + rewrite !decide_False; [by apply He|..];
        destruct Hdir as [(_ & _ & Hd & -> & _ & -> & _)|(_ & _ & Hd & -> & _ & -> & _)]; keys; lia.
Qed.

(** The memory server gives the page in pool slot [i] to the empty slot of file [fd]. *)
Lemma grant_out g m st bs k i x fd :
  kinv g m st bs k → pool_key i → m !! i = Some x → fd < MAX_FILES → st fd = Empty →
  ∃ k', mem_grant S i SERVER_ACCEPT_SLOT (file_slot fd) k = Ret (Ok tt, k') ∧
    kinv g (move i (fkey fd) x m) (<[fd := Stuck]> st) bs k' ∧ k_mem k' = k_mem k.
Proof.
  intros [Hpl Hm Ht] Hi Hx Hlt Hst. pose proof (proj2 (ti_empty _ _ _ _ _ _ _ Ht fd Hlt) Hst) as Hn.
  assert (Hne : i ≠ fkey fd) by (keys; lia).
  destruct (mem_grant_run g k S i SERVER_ACCEPT_SLOT (file_slot fd) x.1 R (mkPageRec x.1 x.2 S None)) as (k' & E & Hg).
  - apply Ht.
  - keys; lia.
  - done.
  - keys; lia.
  - by rewrite (ti_pool _ _ _ _ _ _ _ Ht), Hx.
  - apply Ht.
  - pose proof (ti_root _ _ _ _ _ _ _ Ht) as Hr. unfold pid_root in Hr. destruct (find_proc (k_procs k) R); [eauto|done].
  - by rewrite (ti_file _ _ _ _ _ _ _ Ht fd Hlt), Hn.
  - by apply (ti_pool_page _ _ _ _ _ _ _ Ht i).
  - by intros v rt Hv.
  - exists k'. split; [done|]. pose proof (gr_mem _ _ _ _ _ _ _ _ _ Hg) as Hu. unfold unmapped in Hu. cbn in Hu.
    split; [|done]. split; [apply placed_move; [done..|right; eauto]| |].
    + rewrite Hu. pose proof (mi_pt _ _ _ _ _ _ _ Hm) as W. apply (meminv_step _ _ g g m _ st _ bs (k_mem k)); [done|by apply pt_step_refl|..|done| |].
      * intros a. by apply owned_move.
      * intros fd' Hlt'. destruct (decide (fd = fd')) as [<-|Hf]; [left|right].
        -- rewrite fn_lookup_insert. pose proof (mi_file _ _ _ _ _ _ _ Hm fd Hlt) as Hv. by rewrite Hst in Hv.
        -- rewrite fn_lookup_insert_ne by done. rewrite lookup_move, !decide_False by (keys; lia). done.
      * eapply other_move; [done..|apply Hm].
    + eapply (tabinv_move g k k' m st i (file_slot fd) i (fkey fd)); eauto. left. split_and!; done.
Qed.

(** A slot that holds a page takes no other. *)
Lemma grant_busy g m st bs k i x fd :
  kinv g m st bs k → pool_key i → m !! i = Some x → fd < MAX_FILES → st fd ≠ Empty →
  mem_grant S i SERVER_ACCEPT_SLOT (file_slot fd) k = Ret (Err SYS_ERR_EEXIST, k).
Proof.
  intros [Hpl Hm Ht] Hi Hx Hlt Hst. unfold mem_grant. rewrite bind_get.
  assert (E1 : cap_target S i k = Ok (CPage x.1)).
  { apply cap_target_ok. split; [keys; lia|]. by rewrite (ti_pool _ _ _ _ _ _ _ Ht), Hx. }
  assert (E2 : cap_target S SERVER_ACCEPT_SLOT k = Ok (CProc R)) by (apply cap_target_ok; split; [done|apply Ht]).
  rewrite E1, E2, (ti_root _ _ _ _ _ _ _ Ht), (proj2 (N.leb_gt _ _)) by (keys; lia).
  destruct (m !! fkey fd) as [y|] eqn:Hy; [|by destruct Hst; apply (ti_empty _ _ _ _ _ _ _ Ht fd Hlt)].
  assert (E3 : cap_target R (file_slot fd) k = Ok (CPage y.1)); [|by rewrite E3].
  apply cap_target_ok. split; [keys; lia|]. by rewrite (ti_file _ _ _ _ _ _ _ Ht fd Hlt), Hy.
Qed.

(** The file server gives the page of [fd] back to the empty pool slot [i]. *)
Lemma grant_back g m st bs k i x fd :
  kinv g m st bs k → pool_key i → m !! i = None → fd < MAX_FILES → m !! fkey fd = Some x →
  ∃ k', mem_grant R (file_slot fd) CLIENT_IPC_SLOT i k = Ret (Ok tt, k') ∧
    kinv g (move (fkey fd) i x m) (<[fd := Empty]> st) bs k'.
Proof.
  intros [Hpl Hm Ht] Hi Hn Hlt Hx. assert (Hne : fkey fd ≠ i) by (keys; lia).
  pose proof (mi_pt _ _ _ _ _ _ _ Hm) as W. pose proof (ti_root _ _ _ _ _ _ _ Ht) as Hroot.
  pose proof (mi_file _ _ _ _ _ _ _ Hm fd Hlt) as Hview.
  destruct (mem_grant_run g k R (file_slot fd) CLIENT_IPC_SLOT i x.1 S (mkPageRec x.1 x.2 R (map_of (st fd) fd))) as (k' & E & Hg).
  - apply Ht.
  - keys; lia.
  - done.
  - keys; lia.
  - by rewrite (ti_file _ _ _ _ _ _ _ Ht fd Hlt), Hx.
  - apply Ht.
  - apply Ht.
  - by rewrite (ti_pool _ _ _ _ _ _ _ Ht i Hi), Hn.
  - by apply (ti_file_page _ _ _ _ _ _ _ Ht).
  - intros v rt Hv Hrt. cbn in Hv, Hrt. rewrite Hroot in Hrt. injection Hrt as <-. split; [done|].
    destruct (st fd) as [| |f]; [done..|]. injection Hv as <-. destruct Hview as (y & _ & Hw & _). eauto.
  - exists k'. split; [done|]. pose proof (gr_mem _ _ _ _ _ _ _ _ _ Hg) as Hu. unfold unmapped in Hu. cbn [pr_owner pr_map_va] in Hu.
    assert (Hmem : pt_step g g (k_mem k) (k_mem k') root ∧ walk root (file_va fd) (k_mem k') = None ∧
      ∀ vb, ¬ same_slot vb (file_va fd) → walk root vb (k_mem k') = walk root vb (k_mem k)).
    { rewrite Hroot in Hu. destruct (st fd) as [| |f]; cbn [map_of] in Hu;
        [rewrite Hu; split_and!; [by apply pt_step_refl|done..]..|].
      destruct Hu as (H1 & H2 & H3). split_and!; [done| |done]. apply eq_None_not_Some. intros Hsm.
      apply is_mapped_walk in Hsm. congruence. }
    destruct Hmem as (P & Hw & Hother).
    split; [apply placed_move; [done..|by left]| |].
    + apply (meminv_step _ _ g g m _ st _ bs (k_mem k)); [done|done|..].
      * intros a. by apply owned_move.
      * apply Hother. by apply shm_va_apart.
      * intros fd' Hlt'. destruct (decide (fd = fd')) as [<-|Hf]; [left|right].
        -- by rewrite fn_lookup_insert.
        -- rewrite fn_lookup_insert_ne by done. rewrite lookup_move, !decide_False by (keys; lia). split_and!; [done..|].
           apply Hother. intros Hs%file_va_apart; [|done..]. done.
      * eapply other_move; [done..|apply Hm].
    + eapply (tabinv_move g k k' m st (file_slot fd) i (fkey fd) i); eauto. right. split_and!; done.
Qed.

(** Mapping the page of a stuck slot: the slot becomes an empty file, or stays stuck when
    the last-level table is missing and cannot be made. *)
Lemma map_page g m st bs k fd :
  kinv g m st bs k → fd < MAX_FILES → st fd = Stuck →
  (∃ g' k', mem_map R (file_slot fd) (file_va fd) k = Ret (Err SYS_ERR_EINVAL, k') ∧ kinv g' m st bs k' ∧
    tbl (k_mem k) root (PL0 (ix2 (file_va fd)) (ix1 (file_va fd))) = None) ∨
  ∃ g' k', mem_map R (file_slot fd) (file_va fd) k = Ret (Ok tt, k') ∧
    ∀ name, kinv g' m (<[fd := File (mkAFile name true [])]> st) bs k'.
Proof.
  intros [Hpl Hm Ht] Hlt Hst. destruct (file_va_facts fd Hlt) as [Ha Hl].
  destruct (m !! fkey fd) as [x|] eqn:Hx.
  2:{ apply (ti_empty _ _ _ _ _ _ _ Ht fd Hlt) in Hx. congruence. }
  pose proof (ti_file_page _ _ _ _ _ _ _ Ht fd x Hlt Hx) as Hp. rewrite Hst in Hp. cbn [map_of] in Hp.
  pose proof (mi_file _ _ _ _ _ _ _ Hm fd Hlt) as Hview. rewrite Hst in Hview. cbn [file_view] in Hview.
  assert (Hox : owned shm m x.2) by (right; eauto).
  destruct (mem_map_run g k R (file_slot fd) (file_va fd) x.1 root (mkPageRec x.1 x.2 R None)) as
    [(s' & g' & E & P & Hw & Hno)|(s' & t & g' & E & P & Hpg & Hlim & Hnone & Hw)].
  - keys; lia.
  - done.
  - lia.
  - by rewrite (ti_file _ _ _ _ _ _ _ Ht fd Hlt), Hx.
  - done.
  - apply Ht.
  - apply Hm.
  - done.
  - left. exists g', (set_mem s' k). split; [done|]. split; [split; [done| |by destruct Ht]|].
    + apply (meminv_step _ _ g g' m _ st _ bs (k_mem k)); [done|done|done|by rewrite Hw| |apply Hm].
      intros fd' Hlt'. right. split_and!; [done..|apply Hw].
    + apply Hno; [by apply Hm|done].
  - right. exists g', (set_pages t (set_mem s' k)). split; [done|]. intros name. split; [done| |].
    + apply (meminv_step _ _ g g' m _ st _ bs (k_mem k)); [done|done|done|..|apply Hm].
      * rewrite Hw, decide_False; [done|]. by apply shm_va_apart.
      * intros fd' Hlt'. destruct (decide (fd = fd')) as [<-|Hf]; [left|right].
        -- rewrite fn_lookup_insert. exists x. split; [done|]. split; [by rewrite Hw, decide_True|].
           split; [done|]. intros i b Hi. apply vget_Some_lt in Hi. change (i < 0) in Hi. lia.
        -- rewrite fn_lookup_insert_ne by done. split_and!; [done..|]. rewrite Hw, decide_False; [done|].
           intros Hs%file_va_apart; [|done..]. done.
    + assert (Hid : ∀ key y, m !! key = Some y → key ≠ fkey fd → y.1 ≠ x.1).
      { intros key y Hy Hk Ey. apply Hk. eapply (pl_inj _ Hpl); eauto. }
      destruct Ht as [F Hr Hs Hc Hlk Hb Hpo Hpp Hf Hfp He]. split; try done.
      * intros i y Hi Hy. cbn [k_pages set_pages]. rewrite Hpg, decide_False by (apply (Hid i y); [done|keys; lia]). by apply (Hpp i).
      * intros fd' y Hlt' Hy. cbn [k_pages set_pages]. rewrite Hpg. destruct (decide (fd = fd')) as [<-|Hfd].
        -- simplify_eq. rewrite fn_lookup_insert, decide_True by done. done.
        -- rewrite fn_lookup_insert_ne by done. rewrite decide_False by (apply (Hid (fkey fd') y); [done|keys; lia]). by apply Hfp.
      * intros fd' Hlt'. destruct (decide (fd = fd')) as [<-|Hfd]; [|rewrite fn_lookup_insert_ne by done; by apply He].
        rewrite fn_lookup_insert, Hx. done.
Qed.
End calls.
