(* ===== verification/RamfsOps.v ===== *)
(** * The operations of the memory server and the file server

    Each operation, run on the kernel and against the other server, keeps the invariant and
    answers what [fs_spec] says. *)

From Stdlib Require Import ZifyN ZifyNat.
From stdpp Require Import base gmap numbers functions list.
From S2P Require Import Prelude Mem PageAlloc Mmu Pte MmuTree MmuSpec Objects ObjInv ObjMem Elf ElfMem.
From S2P Require Import User Servers UserSys UserMem RamfsSpec RamfsInv RamfsCalls.

(** ** System calls through the machine *)
Section ecalls.
Context (uart pid : N) (peer : N → M Net ()).
Notation mach := (user_machine uart peer pid).

Lemma run_mem_grant w src ps dst r k' :
  mem_grant pid src ps dst (n_k w) = Ret (r, k') →
  run mach (sys_mem_grant src ps dst) w = Ret (Returned (answer r), set_k k' w).
Proof.
  intros E. apply (run_syscall mach _ _ _ _ _ _ _ _ [answer r]).
  change (onnet (v ← onkernel (r ← mem_grant pid src ps dst; mret (answer r)); mret [v]) w = Ret ([answer r], set_k k' w)).
  unfold onnet, mbind, M_bind, onkernel, lift. cbn [net world_net]. by rewrite E.
Qed.

Lemma run_mem_map w slot va r k' :
  mem_map pid slot va (n_k w) = Ret (r, k') →
  run mach (sys_mem_map slot va) w = Ret (Returned (answer r), set_k k' w).
Proof.
  intros E. apply (run_syscall mach _ _ _ _ _ _ _ _ [answer r]).
  change (onnet (v ← onkernel (r ← mem_map pid slot va; mret (answer r)); mret [v]) w = Ret ([answer r], set_k k' w)).
  unfold onnet, mbind, M_bind, onkernel, lift. cbn [net world_net]. by rewrite E.
Qed.

Lemma run_send w slot dst msg :
  slot < MAX_CAPS → cap_at (n_k w) pid slot = Some (CProc dst) → length msg = 5%nat →
  run mach (sys_ipc_send slot msg) w = Ret (Returned 0, set_wire (n_wire w ++ [(pid, dst, msg)]) w).
Proof.
  intros Hs Hc Hm. destruct msg as [|m0 [|m1 [|m2 [|m3 [|m4 [|]]]]]]; try done.
  apply (run_syscall mach _ _ _ _ _ _ _ _ [0]).
  change (onnet (send pid slot [m0; m1; m2; m3; m4]) w = Ret ([0], set_wire (n_wire w ++ [(pid, dst, [m0; m1; m2; m3; m4])]) w)).
  unfold onnet, lift, send. rewrite bind_get. cbn [net world_net]. by rewrite (proj2 (cap_target_ok _ _ _ _) (conj Hs Hc)).
Qed.

Lemma run_recv w slot src w1 msg q :
  slot < MAX_CAPS → cap_at (n_k w) pid slot = Some (CProc src) → peer src w = Ret (tt, w1) →
  take_msg (Some src) pid (n_wire w1) = Some (msg, q) → length msg = 5%nat →
  run mach (sys_ipc_recv slot) w = Ret (Returned (0 :: msg), set_wire q w1).
Proof.
  intros Hs Hc Hp Ht Hm. destruct msg as [|m0 [|m1 [|m2 [|m3 [|m4 [|]]]]]]; try done.
  unfold sys_ipc_recv. cbn [run].
  assert (E : m_ecall mach SYS_IPC_RECV [slot] w = Ret ([0; m0; m1; m2; m3; m4], set_wire q w1)); [|by rewrite E].
  change ((w ← get; match source pid slot w with Ok src => receive peer pid src | Err e => mret [e] end) w =
    Ret ([0; m0; m1; m2; m3; m4], set_wire q w1)).
  rewrite bind_get. unfold source. rewrite (proj2 (cap_target_ok _ _ _ _) (conj Hs Hc)). unfold receive.
  rewrite (bind_ret _ _ _ _ _ Hp). unfold onnet, lift, pick. rewrite bind_get. cbn [net world_net]. by rewrite Ht, bind_modify.
Qed.
End ecalls.

(** ** The pool *)
Definition pool_of (m : places) : list bool := (λ i, bool_decide (is_Some (m !! i))) <$> [1; 2; 3; 4].

Lemma pool_cases i : pool_key i → i = 1 ∨ i = 2 ∨ i = 3 ∨ i = 4.
Proof. unfold pool_key. lia. Qed.

Lemma vget_pool m i : pool_key i → vget (pool_of m) (i - SERVER_POOL_START) = Some (bool_decide (is_Some (m !! i))).
Proof. intros Hi%pool_cases. destruct Hi as [E|[E|[E|E]]]; by subst. Qed.

Lemma vset_pool m m' i b :
  pool_key i → bool_decide (is_Some (m' !! i)) = b → (∀ j, pool_key j → j ≠ i → m' !! j = m !! j) →
  vset (pool_of m) (i - SERVER_POOL_START) b = pool_of m'.
Proof.
  intros Hi <- Ho. destruct (pool_cases i Hi) as [E|[E|[E|E]]]; subst; unfold pool_of; cbn;
    rewrite ?(Ho 1), ?(Ho 2), ?(Ho 3), ?(Ho 4) by (done || (unfold pool_key; lia)); done.
Qed.

Lemma elem_of_pool i : i ∈ MemServer.pool_slots ↔ pool_key i.
Proof.
  change MemServer.pool_slots with [1; 2; 3; 4]. rewrite !elem_of_cons, elem_of_nil. unfold pool_key. lia.
Qed.

Definition first_key (P : option (N * N) → Prop) `{∀ o, Decision (P o)} (m : places) (slots : list N) : option N :=
  head (filter (λ i, P (m !! i)) slots).

Lemma first_key_some P `{∀ o, Decision (P o)} m i :
  pool_key i → P (m !! i) → ∃ j, first_key P m MemServer.pool_slots = Some j ∧ pool_key j ∧ P (m !! j).
Proof.
  intros Hi Hp. unfold first_key. assert (Hin : i ∈ filter (λ i, P (m !! i)) MemServer.pool_slots).
  { apply list_elem_of_filter. split; [done|]. by apply elem_of_pool. }
  destruct (filter _ _) as [|j l] eqn:E; [by apply elem_of_nil in Hin|]. exists j. split; [done|].
  assert (Hj : j ∈ filter (λ i, P (m !! i)) MemServer.pool_slots) by (rewrite E; by left).
  apply list_elem_of_filter in Hj as [Hp' Hj%elem_of_pool]. by split.
Qed.

Section servers.
Context `{PageAllocator G} (uart R S C root shm : N) (HRS : R ≠ S).
Notation MS := (user_machine uart nobody S).
Notation MR := (ramfs_machine uart R S).
Notation kinv := (kinv R S C root shm).

(** Scanning the pool. *)
Lemma alloc_scan_run m dst slots w :
  Forall pool_key slots →
  run MS (MemServer.alloc_scan (pool_of m) dst slots) w =
  match first_key is_Some m slots with
  | None => Ret (Returned (Err ERR_ENOMEM, pool_of m), w)
  | Some i => run MS (rc ← sys_mem_grant i SERVER_ACCEPT_SLOT dst;
      if negb (rc =? 0) then mret (Err rc, pool_of m)
      else mret (Ok tt, vset (pool_of m) (i - SERVER_POOL_START) false)) w
  end.
Proof.
  induction slots as [|i slots IH]; intros Hk; [done|]. apply Forall_cons in Hk as [Hi Hk].
  cbn [MemServer.alloc_scan]. rewrite (run_bind _ _ _ _ _ _ (run_index _ _ _ _ _ (vget_pool m i Hi))).
  unfold first_key. rewrite filter_cons. case_bool_decide as Hb.
  - by rewrite decide_True.
  - rewrite decide_False by done. by apply IH.
Qed.

Lemma free_scan_run m slots w :
  Forall pool_key slots →
  run MS (MemServer.free_scan (pool_of m) slots) w =
  match first_key (λ o, o = None) m slots with
  | None => Ret (Returned (None, pool_of m), w)
  | Some i => Ret (Returned (Some i, vset (pool_of m) (i - SERVER_POOL_START) true), w)
  end.
Proof.
  induction slots as [|i slots IH]; intros Hk; [done|]. apply Forall_cons in Hk as [Hi Hk].
  cbn [MemServer.free_scan]. rewrite (run_bind _ _ _ _ _ _ (run_index _ _ _ _ _ (vget_pool m i Hi))).
  unfold first_key. rewrite filter_cons. case_bool_decide as Hb; cbn [negb].
  - rewrite decide_False by (intros E; by rewrite E in Hb; destruct Hb). by apply IH.
  - rewrite decide_True; [done|]. by apply eq_None_not_Some.
Qed.

Lemma pool_slots_keys : Forall pool_key MemServer.pool_slots.
Proof. apply Forall_forall. intros i. apply elem_of_pool. Qed.

(** A request to the memory server and its reply. *)
Lemma mem_exchange w op arg rp pool' w1 :
  n_wire w = [] → cap_at (n_k w) R CLIENT_IPC_SLOT = Some (CProc S) →
  cap_at (n_k w) S SERVER_ACCEPT_SLOT = Some (CProc R) →
  run MS (MemServer.handle (n_pool w) op arg) w = Ret (Returned (rp, pool'), w1) →
  n_wire w1 = [] → cap_at (n_k w1) S SERVER_ACCEPT_SLOT = Some (CProc R) → length rp = 5%nat →
  ∃ w', run MR (sys_ipc_send CLIENT_IPC_SLOT [op; arg; 0; 0; 0]) w = Ret (Returned 0, w') ∧
    run MR (sys_ipc_recv CLIENT_IPC_SLOT) w' = Ret (Returned (0 :: rp), set_pool pool' w1).
Proof.
  intros Hw Hc1 Hc2 Hh Hw1 Hc3 Hl. exists (set_wire [(R, S, [op; arg; 0; 0; 0])] w).
  split; [unfold ramfs_machine; by rewrite (run_send _ _ _ w _ S), Hw|].
  set (w' := set_wire _ w).
  assert (E1 : run MS (sys_ipc_recv SERVER_ACCEPT_SLOT) w' = Ret (Returned [0; op; arg; 0; 0; 0], w)).
  { rewrite (run_recv uart S nobody w' _ R w' [op; arg; 0; 0; 0] []); [|done..|cbn; by rewrite !N.eqb_refl|done].
    destruct w. cbn in *. by subst. }
  assert (E2 : run MS (MemServer.serve (n_pool w')) w' = Ret (Returned pool', set_wire [(S, R, rp)] w1)).
  { unfold MemServer.serve. rewrite (run_bind _ _ _ _ _ _ E1). cbn [negb].
    change (negb (reg [0; op; arg; 0; 0; 0] 0 =? 0)) with false. cbv iota.
    change (reg [0; op; arg; 0; 0; 0] 1) with op. change (reg [0; op; arg; 0; 0; 0] 2) with arg.
    rewrite (run_bind _ _ _ _ _ _ Hh). cbn [fst snd].
    erewrite run_bind; [|apply (run_send uart S nobody w1 _ R); [done..|exact Hl]]. by rewrite Hw1. }
  assert (E3 : mem_peer uart S S w' = Ret (tt, set_pool pool' (set_wire [(S, R, rp)] w1))).
  { unfold mem_peer. rewrite N.eqb_refl. unfold mem_turn, turn. by rewrite E2. }
  unfold ramfs_machine. rewrite (run_recv uart R (mem_peer uart S) w' _ S (set_pool pool' (set_wire [(S, R, rp)] w1)) rp []); [|done|done|exact E3|cbn; by rewrite !N.eqb_refl|done].
  destruct w1. cbn in *. by subst.
Qed.

(** ** Pages for files *)

(** The kernel and the pool, with no message under way. *)
Record sysinv (g : G) (m : places) (st : store) (bs : bytes) (w : Net) : Prop := mkSysInv {
  si_k : kinv g m st bs (n_k w);
  si_pool : n_pool w = pool_of m;
  si_wire : n_wire w = []
}.

(** The last-level table that maps the files is there. *)
Definition ready (w : Net) (fd : N) : Prop :=
  tbl (k_mem (n_k w)) root (PL0 (ix2 (file_va fd)) (ix1 (file_va fd))) ≠ None.

(** [OP_ALLOC] for an empty slot moves a page there. *)
Lemma alloc_empty g m st bs w fd :
  sysinv g m st bs w → fd < MAX_FILES → st fd = Empty →
  ∃ m' k', run MS (MemServer.handle (n_pool w) OP_ALLOC (file_slot fd)) w =
      Ret (Returned ([reply_op OP_ALLOC; 0; 0; 0; 0], pool_of m'), set_k k' w) ∧
    kinv g m' (<[fd := Stuck]> st) bs k' ∧ k_mem k' = k_mem (n_k w).
Proof.
  intros [K Hp _] Hlt Hst.
  assert (Hn : m !! fkey fd = None) by (by apply (ti_empty _ _ _ _ _ _ _ (ki_tab _ _ _ _ _ _ _ _ _ _ K) fd Hlt)).
  destruct (pool_has_page m fd (ki_placed _ _ _ _ _ _ _ _ _ _ K) Hlt Hn) as (j & Hj & Hjx).
  destruct (first_key_some is_Some m j Hj Hjx) as (i & Hf & Hi & x & Hx).
  destruct (grant_out R S C root shm HRS g m st bs (n_k w) i x fd K Hi Hx Hlt Hst) as (k' & E & K' & Hmem).
  exists (move i (fkey fd) x m), k'. split; [|done].
  assert (Es : run MS (MemServer.alloc_page (n_pool w) (file_slot fd)) w =
    Ret (Returned (Ok tt, pool_of (move i (fkey fd) x m)), set_k k' w)).
  { unfold MemServer.alloc_page. rewrite Hp, alloc_scan_run by apply pool_slots_keys. rewrite Hf.
    rewrite (run_bind _ _ _ _ _ _ (run_mem_grant _ _ _ _ _ _ _ _ _ E)). cbn [answer].
    change (negb (0 =? 0)) with false. cbv iota. unfold mret, uprog_ret. cbn [run].
    assert (Hne : i ≠ fkey fd) by (keys; lia).
    rewrite (vset_pool m (move i (fkey fd) x m)); [done|done|..].
    - by rewrite lookup_move, decide_False, decide_True.
    - intros j' Hj' Hne'. rewrite lookup_move, !decide_False by (keys; lia). done. }
  unfold MemServer.handle. change (OP_ALLOC =? OP_ALLOC) with true. cbv iota.
  by rewrite (run_bind _ _ _ _ _ _ Es).
Qed.

(** [OP_ALLOC] for a slot that holds a page fails and changes nothing. *)
Lemma alloc_busy g m st bs w fd :
  sysinv g m st bs w → fd < MAX_FILES → st fd ≠ Empty →
  ∃ e, run MS (MemServer.handle (n_pool w) OP_ALLOC (file_slot fd)) w =
      Ret (Returned ([reply_op OP_ALLOC; e; 0; 0; 0], n_pool w), w) ∧ e ≠ 0.
Proof.
  intros [K Hp _] Hlt Hst.
  assert (∃ e, run MS (MemServer.alloc_page (n_pool w) (file_slot fd)) w = Ret (Returned (Err e, n_pool w), w) ∧ e ≠ 0)
    as (e & Es & He).
  { unfold MemServer.alloc_page. rewrite Hp, alloc_scan_run by apply pool_slots_keys.
    destruct (first_key is_Some m MemServer.pool_slots) as [i|] eqn:Hf; [|by eexists].
    assert (Hi : i ∈ filter (λ i, is_Some (m !! i)) MemServer.pool_slots).
    { unfold first_key in Hf. destruct (filter _ _); [done|]. injection Hf as ->. by left. }
    apply list_elem_of_filter in Hi as [[x Hx] Hi%elem_of_pool].
    pose proof (grant_busy R S C root shm HRS g m st bs (n_k w) i x fd K Hi Hx Hlt Hst) as E.
    exists SYS_ERR_EEXIST. split; [|done]. rewrite (run_bind _ _ _ _ _ _ (run_mem_grant _ _ _ _ _ _ _ _ _ E)).
    cbn [answer]. change (negb (SYS_ERR_EEXIST =? 0)) with true. cbv iota. by destruct w. }
  exists e. split; [|done]. unfold MemServer.handle. change (OP_ALLOC =? OP_ALLOC) with true. cbv iota.
  by rewrite (run_bind _ _ _ _ _ _ Es).
Qed.

(** [OP_FREE] with a page out of the pool names an empty slot. *)
Lemma free_named g m st bs w fd x :
  sysinv g m st bs w → fd < MAX_FILES → m !! fkey fd = Some x →
  ∃ i, pool_key i ∧ m !! i = None ∧
    run MS (MemServer.handle (n_pool w) OP_FREE (file_slot fd)) w =
      Ret (Returned ([reply_op OP_FREE; 0; i; 0; 0], pool_of (move (fkey fd) i x m)), w).
Proof.
  intros [K Hp _] Hlt Hx.
  destruct (pool_has_room m fd (ki_placed _ _ _ _ _ _ _ _ _ _ K) Hlt ltac:(by eexists)) as (j & Hj & Hjn).
  destruct (first_key_some (λ o, o = None) m j Hj Hjn) as (i & Hf & Hi & Hn). exists i. split; [done|]. split; [done|].
  assert (Hne : fkey fd ≠ i) by (keys; lia).
  assert (Es : run MS (MemServer.free_slot (n_pool w)) w = Ret (Returned (Some i, pool_of (move (fkey fd) i x m)), w)).
  { unfold MemServer.free_slot. rewrite Hp, free_scan_run by apply pool_slots_keys. rewrite Hf.
    rewrite (vset_pool m (move (fkey fd) i x m)); [done|done|..].
    - by rewrite lookup_move, decide_True.
    - intros j' Hj' Hne'. rewrite lookup_move, !decide_False by (keys; lia). done. }
  unfold MemServer.handle. change (OP_FREE =? OP_ALLOC) with false. change (OP_FREE =? OP_FREE) with true. cbv iota.
  by rewrite (run_bind _ _ _ _ _ _ Es).
Qed.

Lemma sysinv_ext g m st st' bs w : (∀ fd, fd < MAX_FILES → st' fd = st fd) → sysinv g m st bs w → sysinv g m st' bs w.
Proof. intros E [K Hp Hw]. split; [by eapply kinv_ext|done|done]. Qed.

Lemma insert_insert st fd a b fd' : (<[fd := a]> (<[fd := b]> st) : store) fd' = (<[fd := a]> st : store) fd'.
Proof. destruct (decide (fd = fd')) as [->|]; [by rewrite !fn_lookup_insert|by rewrite !fn_lookup_insert_ne]. Qed.

Lemma links g m st bs k : kinv g m st bs k →
  cap_at k R CLIENT_IPC_SLOT = Some (CProc S) ∧ cap_at k S SERVER_ACCEPT_SLOT = Some (CProc R).
Proof. intros [_ _ Ht]. split; apply Ht. Qed.

(** [alloc_file_page] on an empty slot. *)
Lemma alloc_file_empty g m st bs w fd :
  sysinv g m st bs w → fd < MAX_FILES → st fd = Empty →
  (∃ g' m' w', run MR (Ramfs.alloc_file_page fd) w = Ret (Returned (Err ERR_ENOMEM), w') ∧
    sysinv g' m' (<[fd := Stuck]> st) bs w' ∧ n_table w' = n_table w ∧ ¬ ready w fd) ∨
  ∃ g' m' w', run MR (Ramfs.alloc_file_page fd) w = Ret (Returned (Ok tt), w') ∧ n_table w' = n_table w ∧
    ∀ name, sysinv g' m' (<[fd := File (mkAFile name true [])]> st) bs w'.
Proof.
  intros I Hlt Hst. destruct (alloc_empty g m st bs w fd I Hlt Hst) as (m' & k' & Eh & K' & Hmem).
  destruct I as [K Hp Hw]. destruct (links _ _ _ _ _ K) as [C1 C2]. destruct (links _ _ _ _ _ K') as [_ C3].
  destruct (mem_exchange w _ _ _ _ _ Hw C1 C2 Eh Hw C3 eq_refl) as (w' & E1 & E2).
  unfold Ramfs.alloc_file_page. rewrite (run_bind _ _ _ _ _ _ E1). change (negb (0 =? 0)) with false. cbv iota.
  rewrite (run_bind _ _ _ _ _ _ E2).
  match goal with |- context [run _ (if ?b then _ else _) _] => change b with false end. cbv iota.
  set (w1 := set_pool (pool_of m') (set_k k' w)).
  destruct (map_page R S C root shm HRS g m' (<[fd := Stuck]> st) bs k' fd K' Hlt) as
    [(g' & k2 & E & K2 & Hno)|(g' & k2 & E & K2)]; [by rewrite fn_lookup_insert| |].
  - left. exists g', m', (set_k k2 w1).
    rewrite (run_bind _ _ _ _ _ _ (run_mem_map uart R (mem_peer uart S) w1 (file_slot fd) (file_va fd) _ _ E)). cbn [answer].
    change (negb (SYS_ERR_EINVAL =? 0)) with true. cbv iota. split; [done|]. split; [by split|]. split; [done|].
    intros Hr. apply Hr. by rewrite <-Hmem.
  - right. exists g', m', (set_k k2 w1).
    rewrite (run_bind _ _ _ _ _ _ (run_mem_map uart R (mem_peer uart S) w1 (file_slot fd) (file_va fd) _ _ E)). cbn [answer].
    change (negb (0 =? 0)) with false. cbv iota. split; [done|]. split; [done|]. intros name.
    eapply sysinv_ext; [|split; [apply (K2 name)|done..]]. intros fd' _. symmetry. apply insert_insert.
Qed.

(** [alloc_file_page] on a stuck slot. *)
Lemma alloc_file_stuck g m st bs w fd :
  sysinv g m st bs w → fd < MAX_FILES → st fd = Stuck →
  run MR (Ramfs.alloc_file_page fd) w = Ret (Returned (Err ERR_ENOMEM), w).
Proof.
  intros I Hlt Hst. destruct (alloc_busy g m st bs w fd I Hlt) as (e & Eh & He); [by rewrite Hst|].
  destruct I as [K Hp Hw]. destruct (links _ _ _ _ _ K) as [C1 C2].
  destruct (mem_exchange w _ _ _ _ _ Hw C1 C2 Eh Hw C2 eq_refl) as (w' & E1 & E2).
  unfold Ramfs.alloc_file_page. rewrite (run_bind _ _ _ _ _ _ E1). change (negb (0 =? 0)) with false. cbv iota.
  rewrite (run_bind _ _ _ _ _ _ E2).
  match goal with |- context [run _ (if ?b || ?c then _ else _) _] => change b with false; change c with (negb (e =? 0)) end.
  rewrite (proj2 (N.eqb_neq _ _) He). cbn [negb orb]. by destruct w.
Qed.
End servers.
