(* ===== verification/RamfsTable.v ===== *)
(** * The file table against the file store: each request is answered as specified *)

From Stdlib Require Import ZifyN ZifyNat.
From stdpp Require Import base gmap numbers functions list.
From S2P Require Import Prelude Mem PageAlloc Mmu Pte MmuTree MmuSpec Objects ObjInv ObjMem Elf ElfMem.
From S2P Require Import User Servers UserSys UserMem RamfsSpec RamfsInv RamfsCalls RamfsOps.
Import Ramfs.

(** ** The table *)
Definition entry_ok (sl : ASlot) (e : FileEntry) : Prop :=
  match sl with
  | File f => fe_state e = (if af_open f then Open else Closed) ∧ fe_name_len e = vlen (af_name f) ∧
      take (length (af_name f)) (fe_name e) = af_name f ∧ fe_size e = vlen (af_data f)
  | _ => e = free_entry
  end.
Definition table_ok (st : store) (table : list FileEntry) : Prop :=
  vlen table = MAX_FILES ∧ ∀ fd e, vget table fd = Some e → entry_ok (st fd) e.

Lemma table_get st table fd : table_ok st table → fd < MAX_FILES → ∃ e, vget table fd = Some e ∧ entry_ok (st fd) e.
Proof.
  intros [Hl Ht] Hlt. destruct (vget_lt_Some table fd) as [e He]; [by rewrite Hl|]. eauto.
Qed.

Lemma table_set st table fd sl e : table_ok st table → entry_ok sl e → table_ok (<[fd := sl]> st) (vset table fd e).
Proof.
  intros [Hl Ht] He. split; [by rewrite vlen_vset|]. intros fd' e'. rewrite vget_vset. case_decide as Hd.
  - destruct Hd as [<- _]. intros [= <-]. by rewrite fn_lookup_insert.
  - intros Hg. destruct (decide (fd = fd')) as [<-|]; [|rewrite fn_lookup_insert_ne by done; by apply Ht].
    exfalso. apply Hd. split; [done|]. by apply vget_Some_lt in Hg.
Qed.

(** The entry a handler finds under a file number. *)
Lemma entry_open st table fd :
  table_ok st table →
  match open_file st fd with
  | Some f => ∃ e, entry_with table fd is_open = Some e ∧ vget table fd = Some e ∧ fd < MAX_FILES ∧ st fd = File f ∧
      af_open f = true ∧ entry_ok (File f) e
  | None => entry_with table fd is_open = None
  end.
Proof.
  intros Ht. unfold open_file, entry_with. destruct (fd <? MAX_FILES) eqn:E; bool_to_prop.
  - destruct (table_get st table fd Ht E) as (e & -> & He). unfold is_open. destruct (st fd) as [| |f] eqn:Est.
    + by rewrite He.
    + by rewrite He.
    + destruct (af_open f) eqn:Ho; destruct He as (Hs & He); rewrite Ho in Hs; rewrite Hs; [|done].
      exists e. split_and!; try done. split; [by rewrite Ho|done].
  - destruct (vget table fd) eqn:Eg; [|done]. apply vget_Some_lt in Eg. destruct Ht as [Hl _]. lia.
Qed.

Lemma entry_used st table fd :
  table_ok st table →
  match (if fd <? MAX_FILES then st fd else Empty) with
  | File f => ∃ e, entry_with table fd is_used = Some e ∧ fd < MAX_FILES ∧ st fd = File f
  | _ => entry_with table fd is_used = None
  end.
Proof.
  intros Ht. unfold entry_with. destruct (fd <? MAX_FILES) eqn:E; bool_to_prop.
  - destruct (table_get st table fd Ht E) as (e & -> & He). unfold is_used. destruct (st fd) as [| |f] eqn:Est.
    + by rewrite He.
    + by rewrite He.
    + exists e. destruct He as (Hs & _). rewrite Hs. by destruct (af_open f).
  - destruct (vget table fd) eqn:Eg; [|done]. apply vget_Some_lt in Eg. destruct Ht as [Hl _]. lia.
Qed.

(** Comparing names. *)
Lemma same_name_named sl e name n :
  entry_ok sl e → 1 ≤ n → n ≤ vlen name → same_name e name n = named (take (N.to_nat n) name) sl.
Proof.
  intros He H1 Hn. unfold same_name, named. destruct sl as [| |f].
  - rewrite He. cbn [fe_name_len free_entry]. by rewrite (proj2 (N.eqb_neq 0 n)) by lia.
  - rewrite He. cbn [fe_name_len free_entry]. by rewrite (proj2 (N.eqb_neq 0 n)) by lia.
  - destruct He as (_ & Hl & Hnm & _). rewrite Hl. destruct (vlen (af_name f) =? n) eqn:E; bool_to_prop; cbn [andb].
    + assert (length (af_name f) = N.to_nat n) as El by (unfold vlen in E; lia). rewrite <-El, Hnm. done.
    + symmetry. apply bool_decide_eq_false. intros Hf. apply E. rewrite Hf. unfold vlen in *. rewrite length_take. lia.
Qed.

Lemma vlen_name_from w0 w1 w2 : vlen (name_from_words [w0; w1; w2]) = NAME_MAX.
Proof. done. Qed.

Lemma elem_of_files fd : fd ∈ files ↔ fd < MAX_FILES.
Proof. unfold files. rewrite elem_of_nrange. unfold MAX_FILES. lia. Qed.

Lemma first_slot_some P st fd : first_slot P st = Some fd → fd < MAX_FILES ∧ P (st fd) = true.
Proof.
  unfold first_slot. intros Hh. assert (Hin : fd ∈ filter (λ fd, P (st fd)) files).
  { destruct (filter _ _); [done|]. injection Hh as ->. by left. }
  apply list_elem_of_filter in Hin as [Hp Hf%elem_of_files]. split; [done|]. by destruct (P (st fd)).
Qed.

Section handlers.
Context `{PageAllocator G} (uart R S C root shm : N) (HRS : R ≠ S).
Notation MR := (ramfs_machine uart R S).
Notation sysinv := (sysinv R S C root shm).
Notation kinv := (kinv R S C root shm).
Notation ready := (ready root).

(** [body] answers a request as [spec] says, and is short of memory only when the table
    that maps the files is missing. *)
Definition serves (body : uprog (list N * list FileEntry)) (w : Net) (spec : Choice → list N * store * bytes) : Prop :=
  ∃ c (g' : G) m' w' table', run MR body w = Ret (Returned ((spec c).1.1, table'), w') ∧
    sysinv g' m' (spec c).1.2 (spec c).2 w' ∧ table_ok (spec c).1.2 table' ∧
    (c_oom c = true → ∃ fd, fd < MAX_FILES ∧ ¬ ready w fd).

Definition quiet : Choice := mkChoice false (λ _, 0).

Context (g : G) (m : places) (st : store) (bs : bytes) (w : Net) (table : list FileEntry).
Context (I : sysinv g m st bs w) (HT : table_ok st table).

(** A reply without effect. *)
Lemma serves_same r : serves (mret (r, table)) w (λ _, (r, st, bs)).
Proof. exists quiet, g, m, w, table. split_and!; done. Qed.

(** *** Opening *)
Lemma open_new_run name n fds :
  Forall (λ fd, fd < MAX_FILES) fds →
  run MR (open_new table name n fds) w =
  match head (filter (λ fd, no_file (st fd)) fds) with
  | None => Ret (Returned (fs_reply OP_FS_OPEN ERR_ENOMEM 0, table), w)
  | Some fd => run MR (r ← alloc_file_page fd;
      match r with
      | Ok _ => mret (fs_reply OP_FS_OPEN 0 fd, vset table fd (mkEntry Open name n 0))
      | Err err => mret (fs_reply OP_FS_OPEN err 0, table)
      end) w
  end.
Proof.
  induction fds as [|fd fds IH]; intros Hf; [done|]. apply Forall_cons in Hf as [Hlt Hf].
  destruct (table_get st table fd HT Hlt) as (e & Hg & He). cbn [open_new].
  rewrite (run_bind _ _ _ _ _ _ (run_index _ _ _ _ _ Hg)), filter_cons.
  destruct (st fd) as [| |f]; cbn [no_file entry_ok] in *; [rewrite He; done..|].
  destruct He as (Hs & _). rewrite Hs. destruct (af_open f); by apply IH.
Qed.

Lemma open_scan_run name n fds :
  1 ≤ n → n ≤ vlen name → Forall (λ fd, fd < MAX_FILES) fds →
  run MR (open_scan table name n fds) w =
  match head (filter (λ fd, named (take (N.to_nat n) name) (st fd)) fds) with
  | None => run MR (open_new table name n files) w
  | Some fd =>
      match vget table fd with
      | Some e => match fe_state e with
        | Open => Ret (Returned (fs_reply OP_FS_OPEN USER_ERR_EEXIST 0, table), w)
        | Closed => Ret (Returned (fs_reply OP_FS_OPEN 0 fd, vset table fd (set_state Open e)), w)
        | Free => Ret (Returned (fs_reply OP_FS_OPEN PROTO_ERR 0, table), w)
        end
      | None => Panic
      end
  end.
Proof.
  intros H1 Hn. induction fds as [|fd fds IH]; intros Hf; [done|]. apply Forall_cons in Hf as [Hlt Hf].
  destruct (table_get st table fd HT Hlt) as (e & Hg & He). cbn [open_scan].
  rewrite (run_bind _ _ _ _ _ _ (run_index _ _ _ _ _ Hg)), filter_cons, (same_name_named _ _ _ _ He H1 Hn).
  destruct (named (take (N.to_nat n) name) (st fd)); [|by apply IH].
  rewrite decide_True by done. cbn [head]. rewrite Hg. by destruct (fe_state e).
Qed.

(** Changing a file's name or mode leaves the kernel alone. *)
Lemma sysinv_meta fd f f' :
  st fd = File f → af_data f' = af_data f → sysinv g m (<[fd := File f']> st) bs w.
Proof.
  intros Hst Hd. destruct I as [[Hpl [Wf Hs Hb Hl Ht Ho Hf] [F Hr Hse Hc Hlk Hbk Hp Hpp Hfc Hfp He]] Hpo Hw].
  split; [|done|done]. split; [done|split|split]; try done.
  - intros fd' Hlt. destruct (decide (fd = fd')) as [<-|]; [|rewrite fn_lookup_insert_ne by done; by apply Hf].
    rewrite fn_lookup_insert. specialize (Hf fd Hlt). rewrite Hst in Hf. unfold file_view in *. by rewrite Hd.
  - intros fd' x Hlt Hx. destruct (decide (fd = fd')) as [<-|]; [|rewrite fn_lookup_insert_ne by done; by apply Hfp].
    rewrite fn_lookup_insert. specialize (Hfp fd x Hlt Hx). by rewrite Hst in Hfp.
  - intros fd' Hlt. destruct (decide (fd = fd')) as [<-|]; [|rewrite fn_lookup_insert_ne by done; by apply He].
    rewrite fn_lookup_insert, (He fd Hlt), Hst. done.
Qed.

Lemma fs_open_serves n w0 w1 w2 : serves (fs_open table n w0 w1 w2) w (λ c, (spec_open c st n w0 w1 w2, bs)).
Proof.
  unfold fs_open, spec_open. destruct ((n =? 0) || (NAME_MAX <? n)) eqn:E; [apply serves_same|]. bool_to_prop.
  set (name := name_from_words [w0; w1; w2]).
  assert (HF : Forall (λ fd, fd < MAX_FILES) files) by (apply Forall_forall; intros fd; apply elem_of_files).
  assert (Hv : vlen name = NAME_MAX) by apply vlen_name_from.
  assert (R1 := open_scan_run name n files ltac:(lia) ltac:(lia) HF).
  fold (first_slot (named (take (N.to_nat n) name)) st) in R1. unfold serves.
  destruct (first_slot (named (take (N.to_nat n) name)) st) as [fd|] eqn:E1.
  - destruct (first_slot_some _ _ _ E1) as [Hlt Hnm]. destruct (table_get st table fd HT Hlt) as (e & Hg & He).
    rewrite Hg in R1. destruct (st fd) as [| |f] eqn:Est; [done..|].
    destruct He as (Hs & Hln & Hnn & Hsz). rewrite Hs in R1. destruct (af_open f) eqn:Ho.
    + exists quiet, g, m, w, table. split_and!; done.
    + exists quiet, g, m, w, (vset table fd (set_state Open e)). split; [done|]. split; [by apply (sysinv_meta fd f)|].
      split; [|done]. apply table_set; [done|]. by split_and!.
  - rewrite open_new_run in R1 by done. fold (first_slot no_file st) in R1.
    destruct (first_slot no_file st) as [fd|] eqn:E2; [|exists quiet, g, m, w, table; split_and!; done].
    destruct (first_slot_some _ _ _ E2) as [Hlt Hnf]. destruct (st fd) as [| |f] eqn:Est; [| |done].
    + destruct (alloc_file_empty uart R S C root shm HRS g m st bs w fd I Hlt Est) as
        [(g' & m' & w' & Er & I' & Ht & Hno)|(g' & m' & w' & Er & Ht & I')]; rewrite (run_bind _ _ _ _ _ _ Er) in R1.
      * exists (mkChoice true (λ _, 0)), g', m', w', table. split; [done|]. split; [done|]. split; [|by eauto].
        destruct HT as [Hl HT']. split; [done|]. intros fd' e He. destruct (decide (fd = fd')) as [<-|].
        -- cbn. rewrite fn_lookup_insert. specialize (HT' fd e He). by rewrite Est in HT'.
        -- cbn. rewrite fn_lookup_insert_ne by done. by apply HT'.
      * exists quiet, g', m', w', (vset table fd (mkEntry Open name n 0)). split; [done|]. split; [apply I'|].
        split; [|done]. apply table_set; [done|]. cbn [entry_ok af_open af_name af_data fe_state fe_name_len fe_name fe_size].
        assert (Hlen : length (take (N.to_nat n) name) = N.to_nat n).
        { rewrite length_take. unfold vlen in Hv. lia. }
        split_and!; [done|unfold vlen; lia|by rewrite Hlen|done].
    + rewrite (run_bind _ _ _ _ _ _ (alloc_file_stuck uart R S C root shm HRS g m st bs w fd I Hlt Est)) in R1.
      exists quiet, g, m, w, table. split_and!; done.
Qed.

(** *** Reading and writing *)

(** Memory changes in one page of ours. *)
Lemma sysinv_poke st' bs' s' a :
  owned shm m a → pokes g (k_mem (n_k w)) s' a →
  (∀ fd, fd < MAX_FILES → map_of (st' fd) fd = map_of (st fd) fd ∧ (st' fd = Empty ↔ st fd = Empty)) →
  (∀ fd, fd < MAX_FILES → st' fd = st fd ∨ file_view root m s' fd (st' fd)) →
  (∀ fd x f, fd < MAX_FILES → m !! fkey fd = Some x → st fd = File f → x.2 = a → file_view root m s' fd (st' fd)) →
  (a ≠ shm ∧ bs' = bs ∨ ∀ i, i < 4096 → read_byte (shm + i) (ram s') = bs' i) → sysinv g m st' bs' (with_mem s' w).
Proof.
  intros Ha P Hsl H1 H2 H3. destruct I as [[Hpl Hm Ht] Hp Hw]. split; [split; [done| |]|done|done].
  - by apply (meminv_poke root shm g m st st' bs bs' (k_mem (n_k w)) s' a).
  - destruct Ht as [F Hr Hse Hc Hlk Hbk Hpo Hpp Hfc Hfp He]. split; try done.
    + intros fd x Hlt Hx. rewrite (proj1 (Hsl fd Hlt)). by apply Hfp.
    + intros fd Hlt. rewrite (proj2 (Hsl fd Hlt)). by apply He.
Qed.

Lemma fs_read_serves fd offset len : serves (fs_read table fd offset len) w
  (λ c, ((spec_read st bs fd offset len).1, st, (spec_read st bs fd offset len).2)).
Proof.
  unfold fs_read, spec_read. pose proof (entry_open st table fd HT) as He. destruct (open_file st fd) as [f|].
  2:{ rewrite He. apply serves_same. }
  destruct He as (e & -> & Hg & Hlt & Hst & Ho & _ & _ & _ & Hsz). cbn [fst snd]. rewrite Hsz.
  destruct I as [[Hpl Hm Ht] Hp Hw].
  destruct (vlen (af_data f) <=? offset) eqn:Eof; bool_to_prop.
  - exists quiet, g, m, w, table. replace (N.min len (vlen (af_data f) - offset)) with 0 by lia.
    split; [done|]. split; [|by split]. destruct Hm as [? ? Hb ? ? ? ?]. split; [split; [done|split; try done|done]|done..].
    intros i Hi. cbn [snd]. rewrite (proj2 (N.ltb_ge i 0)) by lia. by apply Hb.
  - set (n := N.min len (vlen (af_data f) - offset)).
    destruct (file_window root shm g m st bs _ fd f Hm Hlt Hst) as (x & Hx & Hv & Hd & Hb).
    assert (Hox : owned shm m x.2) by (right; eauto). assert (Hos : owned shm m shm) by (by left).
    destruct (copy_run uart R (mem_peer uart S) g w root (file_va fd) x.2 offset SHM_VA shm 0 (N.to_nat n) 0)
      as (s' & E & P & Hby); [apply Ht|apply Hm|done|by eapply shm_window|by apply Hm|by apply Hm|by eapply mi_other|by apply Hm|lia|lia|].
    exists quiet, g, m, (with_mem s' w), table.
    split; [by rewrite (run_bind _ _ _ _ _ _ E)|]. split; [|by split].
    apply (sysinv_poke st _ s' shm); [done|done|done|by left| |right].
    + intros fd' y f' Hlt' Hy Hst' Ey. by destruct (mi_other _ _ _ _ _ _ _ Hm _ _ Hy).
    + intros i Hi. rewrite Hby by done. cbn [snd]. destruct (i <? n) eqn:Ei; bool_to_prop.
      * rewrite decide_True by lia. replace (x.2 + offset + (i - 0)) with (x.2 + (offset + i)) by lia.
        destruct (vget_lt_Some (af_data f) (offset + i)) as [b Hbi]; [subst n; lia|]. rewrite Hbi. by apply Hb.
      * rewrite decide_False by lia. by apply Hm.
Qed.

Lemma write_end_spec offset len :
  write_end offset len = if (offset <? 4096) && (offset + len <=? 4096) then Some (offset + len) else None.
Proof.
  unfold write_end. destruct (checked_add offset len) as [e|] eqn:E.
  - apply checked_add_Some in E as [-> _]. done.
  - apply checked_add_None in E. unfold USIZE_MAX in E.
    rewrite (proj2 (N.leb_gt (offset + len) 4096)) by lia. by rewrite andb_false_r.
Qed.

Lemma fs_write_serves fd offset len :
  serves (fs_write table fd offset len) w (λ c, (spec_write c st bs fd offset len, bs)).
Proof.
  unfold fs_write, spec_write. pose proof (entry_open st table fd HT) as He. destruct (open_file st fd) as [f|].
  2:{ rewrite He. apply serves_same. }
  destruct He as (e & -> & Hg & Hlt & Hst & Ho & Hs & Hln & Hnn & Hsz). rewrite write_end_spec.
  destruct ((offset <? 4096) && (offset + len <=? 4096)) eqn:Eb; [|apply serves_same]. bool_to_prop.
  destruct I as [[Hpl Hm Ht] Hp Hw].
  destruct (file_window root shm g m st bs _ fd f Hm Hlt Hst) as (x & Hx & Hv & Hd & Hb).
  assert (Hox : owned shm m x.2) by (right; eauto). assert (Hos : owned shm m shm) by (by left).
  assert (Hne : x.2 ≠ shm) by (by eapply mi_other).
  destruct (copy_run uart R (mem_peer uart S) g w root SHM_VA shm 0 (file_va fd) x.2 offset (N.to_nat len) 0)
    as (s' & E & P & Hby); [apply Ht|apply Hm|by eapply shm_window|done|by apply Hm|by apply Hm|done|by apply Hm|lia|lia|].
  set (gap := λ i, read_byte (x.2 + i) (ram (k_mem (n_k w)))).
  set (data := written gap bs (af_data f) offset len).
  assert (Hvl : vlen data = N.max (vlen (af_data f)) (offset + len)).
  { unfold data, written, vlen. rewrite length_fmap, length_nrange. lia. }
  exists (mkChoice false gap), g, m, (with_mem s' w), (vset table fd (set_size (N.max (fe_size e) (offset + len)) e)).
  split; [by rewrite (run_bind _ _ _ _ _ _ E)|]. split; [|split; [|done]].
  - assert (Hview : file_view root m s' fd (File (mkAFile (af_name f) true data))).
    { exists x. split; [done|]. pose proof (poke_space g _ s' root x.2 (mi_pt _ _ _ _ _ _ _ Hm) P) as (_ & _ & Wk); [by apply Hm|].
      rewrite Wk. split; [apply Hv|]. cbn [af_data]. split; [lia|]. intros i b Hi. assert (i < vlen data) by (by apply vget_Some_lt in Hi).
      unfold data, written in Hi. rewrite vget_nrange, (proj2 (N.ltb_lt _ _)) in Hi by lia. injection Hi as <-.
      rewrite Hby by lia. destruct ((offset <=? i) && (i <? offset + len)) eqn:Ei.
      + bool_to_prop. rewrite decide_True by lia. replace (shm + 0 + (i - offset)) with (shm + (i - offset)) by lia.
        apply Hm. lia.
      + rewrite decide_False by (apply andb_false_iff in Ei as [Ei|Ei]; bool_to_prop; lia). destruct (vget (af_data f) i) as [b|] eqn:Eb; [by apply Hb|done]. }
    cbn [fst snd c_gap]. fold data. apply (sysinv_poke _ bs s' x.2); [done|done|..|by left].
    + intros fd' Hlt'. destruct (decide (fd = fd')) as [<-|]; [rewrite fn_lookup_insert, Hst; done|].
      by rewrite fn_lookup_insert_ne.
    + intros fd' Hlt'. destruct (decide (fd = fd')) as [<-|]; [right; by rewrite fn_lookup_insert|left].
      by rewrite fn_lookup_insert_ne.
    + intros fd' y f' Hlt' Hy Hst' Ey. assert (fkey fd' = fkey fd) as Ek by (eapply (pl_inj _ Hpl); eauto).
      assert (fd' = fd) as -> by (unfold fkey in Ek; lia). by rewrite fn_lookup_insert.
  - apply table_set; [done|]. cbn [entry_ok af_open af_name af_data]. rewrite Ho in Hs. split_and!; try done.
    cbn [set_size fe_size c_gap]. fold data. by rewrite Hvl, Hsz.
Qed.

(** *** Closing and unlinking *)
Lemma fs_close_serves fd : serves (fs_close table fd) w (λ c, (spec_close st fd, bs)).
Proof.
  unfold fs_close, spec_close. pose proof (entry_open st table fd HT) as He. destruct (open_file st fd) as [f|].
  2:{ rewrite He. apply serves_same. }
  destruct He as (e & -> & Hg & Hlt & Hst & Ho & Hs & Hln & Hnn & Hsz).
  exists quiet, g, m, w, (vset table fd (set_state Closed e)). split; [done|].
  split; [by apply (sysinv_meta fd f)|]. split; [|done]. apply table_set; [done|]. by split_and!.
Qed.

Lemma fs_unlink_serves fd : serves (fs_unlink table fd) w (λ c, (spec_unlink st fd, bs)).
Proof.
  unfold fs_unlink, spec_unlink. pose proof (entry_used st table fd HT) as He.
  destruct (fd <? MAX_FILES) eqn:Elt.
  2:{ rewrite He. apply serves_same. }
  destruct (st fd) as [| |f] eqn:Est; [rewrite He; apply serves_same..|].
  destruct He as (e & -> & Hlt & _). pose proof I as [K Hp Hw]. destruct (links _ _ _ _ _ _ _ _ _ _ K) as [C1 C2].
  destruct (file_window root shm g m st bs _ fd f (ki_mem _ _ _ _ _ _ _ _ _ _ K) Hlt Est) as (x & Hx & _).
  destruct (free_named uart R S C root shm HRS g m st bs w fd x I Hlt Hx) as (i & Hi & Hn & Eh).
  destruct (mem_exchange uart R S w _ _ _ _ _ Hw C1 C2 Eh Hw C2 eq_refl) as (w1 & E1 & E2).
  destruct (grant_back R S C root shm HRS g m st bs (n_k w) i x fd K Hi Hn Hlt Hx) as (k' & Eg & K').
  set (m' := move (fkey fd) i x m) in *. set (w2 := set_pool (pool_of m') w).
  exists quiet, g, m', (set_k k' w2), (vset table fd free_entry). split; [|split; [by split|split; [by apply table_set|done]]].
  rewrite (run_bind _ _ _ _ _ _ E1). change (negb (0 =? 0)) with false. cbv iota. rewrite (run_bind _ _ _ _ _ _ E2).
  match goal with |- context [run _ (if ?b then _ else _) _] => change b with false end. cbv iota.
  change (reg [0; reply_op OP_FREE; 0; i; 0; 0] 3) with i.
  rewrite (run_bind _ _ _ _ _ _ (run_mem_grant uart R (mem_peer uart S) w2 (file_slot fd) CLIENT_IPC_SLOT i _ _ Eg)). done.
Qed.

(** *** Dispatch *)
Lemma dispatch_serves op a1 a2 a3 a4 :
  serves (dispatch table op a1 a2 a3 a4) w (λ c, fs_spec c st bs [op; a1; a2; a3; a4]).
Proof.
  unfold dispatch, fs_spec. cbn [reg vget vlen].
  change (reg [op; a1; a2; a3; a4] 0) with op. change (reg [op; a1; a2; a3; a4] 1) with a1.
  change (reg [op; a1; a2; a3; a4] 2) with a2. change (reg [op; a1; a2; a3; a4] 3) with a3.
  change (reg [op; a1; a2; a3; a4] 4) with a4.
  destruct (op =? OP_FS_OPEN); [apply fs_open_serves|]. destruct (op =? OP_FS_READ); [apply fs_read_serves|].
  destruct (op =? OP_FS_WRITE); [apply fs_write_serves|]. destruct (op =? OP_FS_CLOSE); [apply fs_close_serves|].
  destruct (op =? OP_FS_UNLINK); [apply fs_unlink_serves|]. apply serves_same.
Qed.
End handlers.
