(* ===== verification/RamfsProps.v ===== *)
(** * Properties of the user servers

    The file server, with the memory server and the kernel below it, implements the file
    store of RamfsSpec.v; the coding of names in message words is lossless; closed runs of
    whole programs. *)

From Stdlib Require Import ZifyN ZifyNat.
From stdpp Require Import base gmap numbers functions list.
From S2P Require Import Prelude Mem MemInv PageAlloc Mmu Pte MmuTree MmuSpec MmuProps Objects ObjInv ObjProps ObjMem Elf ElfMem.
From S2P Require Import User Servers UserSys UserMem RamfsSpec RamfsInv RamfsCalls RamfsOps RamfsTable.
Import Ramfs.

(** ** A client

    The client stores its payload at the start of the window, sends a request, lets the
    file server take a turn and receives the reply. *)
Definition ask (uart R S C shm : N) (payload msg : list N) : M Net (list N) :=
  onkernel (onmem (put_bytes shm payload));;
  w ← get;
  modify (set_wire (n_wire w ++ [(C, R, msg)]));;
  ramfs_turn uart R S;;
  w ← get;
  match take_msg (Some R) C (n_wire w) with
  | Some (r, q) => modify (set_wire q);; mret r
  | None => timeout
  end.

(** The window as the client sees it. *)
Definition window_of (shm : N) (w : Net) : list N :=
  (λ i, read_byte (shm + i) (ram (k_mem (n_k w)))) <$> nrange 0 (N.to_nat SHM_LEN).

Fixpoint asks (uart R S C shm : N) (evs : list (list N * list N)) : M Net (list (list N * list N)) :=
  match evs with
  | [] => mret []
  | (payload, msg) :: evs =>
      r ← ask uart R S C shm payload msg;
      w ← get;
      rest ← asks uart R S C shm evs;
      mret ((r, window_of shm w) :: rest)
  end.

(** The same requests on the store. *)
Definition filled_with (payload : list N) (bs : bytes) : bytes := λ i, default (bs i) (vget payload i).

Fixpoint fs_exec (cs : list Choice) (st : store) (bs : bytes) (evs : list (list N * list N)) : list (list N * list N) :=
  match cs, evs with
  | c :: cs, (payload, msg) :: evs =>
      let r := fs_spec c st (filled_with payload bs) msg in
      (r.1.1, r.2 <$> nrange 0 (N.to_nat SHM_LEN)) :: fs_exec cs r.1.2 r.2 evs
  | _, _ => []
  end.

Definition event_ok (ev : list N * list N) : Prop :=
  vlen ev.1 ≤ SHM_LEN ∧ Forall (λ b, b < 256) ev.1 ∧ length ev.2 = 5%nat.

Section client.
Context `{PageAllocator G} (uart R S C root shm : N) (HRS : R ≠ S) (HCS : C ≠ S).
Notation sysinv := (sysinv R S C root shm).
Notation MR := (ramfs_machine uart R S).

Lemma fill_run g m st bs w payload :
  sysinv g m st bs w → vlen payload ≤ SHM_LEN → Forall (λ b, b < 256) payload →
  ∃ w', onkernel (onmem (put_bytes shm payload)) w = Ret (tt, w') ∧ sysinv g m st (filled_with payload bs) w' ∧
    n_table w' = n_table w ∧ ∀ fd, ready root w' fd ↔ ready root w fd.
Proof.
  intros I Hl Hb. pose proof I as [[Hpl Hm Ht] Hp Hw]. assert (Hos : owned shm m shm) by (by left).
  destruct (put_bytes_run g shm payload 0 (k_mem (n_k w))) as (s' & E & P & Hr);
    [apply Hm|by apply Hm|unfold SHM_LEN in Hl; lia|done|]. rewrite N.add_0_r in E.
  exists (with_mem s' w). split; [|split; [|split]].
  - unfold onkernel, onmem, lift. by rewrite E.
  - apply (sysinv_poke R S C root shm g m st bs w I st _ s' shm); [done|done|done|by left| |right].
    + intros fd' y f' Hlt' Hy Hst' Ey. by destruct (mi_other _ _ _ _ _ _ _ Hm _ _ Hy).
    + intros i Hi. rewrite Hr. unfold filled_with. case_decide as Hd.
      * rewrite vget_lookup. replace (N.to_nat (i - 0)) with (N.to_nat i) by lia.
        destruct (payload !! N.to_nat i) eqn:El; [done|]. apply lookup_ge_None in El. unfold vlen in Hd. lia.
      * rewrite vget_lookup. rewrite lookup_ge_None_2 by (unfold vlen in Hd; lia). by apply Hm.
  - done.
  - intros fd. destruct (poke_space g _ s' root shm (mi_pt _ _ _ _ _ _ _ Hm) P) as (_ & T & _); [by apply Hm|].
    unfold ready. cbn [n_k with_mem set_k k_mem set_mem]. rewrite T; [done|]. split; auto with pages.
Qed.

Lemma ask_run g m st bs w payload msg :
  sysinv g m st bs w → table_ok st (n_table w) → event_ok (payload, msg) →
  ∃ c (g' : G) m' w', let r := fs_spec c st (filled_with payload bs) msg in
    ask uart R S C shm payload msg w = Ret (r.1.1, w') ∧ sysinv g' m' r.1.2 r.2 w' ∧ table_ok r.1.2 (n_table w') ∧
    (c_oom c = true → ∃ fd, fd < MAX_FILES ∧ ¬ ready root w fd).
Proof.
  intros I HT (Hl & Hb & Hm). cbn [fst snd] in *.
  destruct (fill_run g m st bs w payload I Hl Hb) as (w1 & E1 & I1 & T1 & Hrd).
  destruct msg as [|op [|a1 [|a2 [|a3 [|a4 [|]]]]]]; try done. set (msg := [op; a1; a2; a3; a4]).
  destruct (dispatch_serves uart R S C root shm HRS g m st (filled_with payload bs) w1 (n_table w1) I1 ltac:(by rewrite T1) op a1 a2 a3 a4)
    as (c & g' & m' & w2 & table' & E2 & I2 & HT2 & Hoom). fold msg in E2, I2, HT2. set (r := fs_spec c st (filled_with payload bs) msg) in *.
  exists c, g', m', (set_table table' w2). cbv zeta. fold r.
  split; [|split; [by destruct I2|split; [done|intros Hc; destruct (Hoom Hc) as (fd & ? & Hn); exists fd; by rewrite <-Hrd]]].
  pose proof I1 as [K1 _ Hw1]. pose proof I2 as [K2 _ Hw2]. set (w1' := set_wire [(C, R, msg)] w1).
  assert (E3 : run MR (sys_ipc_recv SERVER_ACCEPT_SLOT) w1' = Ret (Returned (0 :: msg), w1)).
  { unfold ramfs_machine. rewrite (run_recv uart R (mem_peer uart S) w1' _ C w1' msg []); [|done|apply K1|..|cbn; by rewrite !N.eqb_refl|done].
    - destruct w1. cbn in *. by subst.
    - unfold mem_peer. by rewrite (proj2 (N.eqb_neq _ _) HCS). }
  assert (Hlen : length r.1.1 = 5%nat).
  { subst r. unfold fs_spec, spec_open, spec_read, spec_write, spec_close, spec_unlink. repeat case_match; done. }
  assert (E4 : run MR (serve (n_table w1')) w1' = Ret (Returned table', set_wire [(R, C, r.1.1)] w2)).
  { unfold serve. rewrite (run_bind _ _ _ _ _ _ E3). change (negb (reg (0 :: msg) 0 =? 0)) with false. cbv iota.
    change (n_table w1') with (n_table w1).
    change (reg (0 :: msg) 1) with op. change (reg (0 :: msg) 2) with a1. change (reg (0 :: msg) 3) with a2.
    change (reg (0 :: msg) 4) with a3. change (reg (0 :: msg) 5) with a4.
    rewrite (run_bind _ _ _ _ _ _ E2). cbn [fst snd].
    rewrite (run_bind _ _ _ _ _ _ (run_send uart R (mem_peer uart S) w2 SERVER_ACCEPT_SLOT C r.1.1 ltac:(done) ltac:(apply K2) Hlen)).
    by rewrite Hw2. }
  unfold ask. rewrite (bind_ret _ _ _ _ _ E1), bind_get, bind_modify, Hw1. cbn [app].
  assert (E5 : ramfs_turn uart R S w1' = Ret (tt, set_table table' (set_wire [(R, C, r.1.1)] w2))).
  { unfold ramfs_turn, turn. by rewrite E4. }
  rewrite (bind_ret _ _ _ _ _ E5), bind_get. cbn [n_wire set_table set_wire take_msg]. rewrite !N.eqb_refl. cbn [andb].
  rewrite bind_modify. destruct w2. cbn in *. by subst.
Qed.
End client.

(** C18: One request to the file server.  From any state in which the servers' invariant
    holds, for any payload in the shared window and any five-word message, the file
    server, its exchange with the memory server and every kernel call return; the reply,
    the files and the window are exactly those of the abstract file store, the invariant
    holds again, and an open fails for want of memory only while the page table that maps
    the files does not exist yet. *)
Theorem ramfs_request_correct `{PageAllocator G} (uart R S C root shm : N) (g : G) (m : places) (st : store) (bs : bytes)
    (w : Net) (payload msg : list N) :
  R ≠ S → C ≠ S → sysinv R S C root shm g m st bs w → table_ok st (n_table w) → event_ok (payload, msg) →
  ∃ c (g' : G) m' w', let r := fs_spec c st (filled_with payload bs) msg in
    ask uart R S C shm payload msg w = Ret (r.1.1, w') ∧
    sysinv R S C root shm g' m' r.1.2 r.2 w' ∧ table_ok r.1.2 (n_table w') ∧
    (c_oom c = true → ∃ fd, fd < MAX_FILES ∧ ¬ ready root w fd).
Proof. intros HRS HCS. by apply ask_run. Qed.

(** C17: The file server refines the abstract file store: any sequence of requests with
    their payloads returns, and its replies and the contents of the shared window after
    each request are those of the store, run with some choice of the bytes a write leaves
    uncovered and of the moments the kernel has no memory. *)
Theorem ramfs_refines `{PageAllocator G} (uart R S C root shm : N) (g : G) (m : places) (st : store) (bs : bytes)
    (w : Net) (evs : list (list N * list N)) :
  R ≠ S → C ≠ S → sysinv R S C root shm g m st bs w → table_ok st (n_table w) → Forall event_ok evs →
  ∃ cs w', length cs = length evs ∧ asks uart R S C shm evs w = Ret (fs_exec cs st bs evs, w').
Proof.
  intros HRS HCS. revert g m st bs w. induction evs as [|[payload msg] evs IH]; intros g m st bs w I HT He.
  { exists [], w. done. }
  apply Forall_cons in He as [He Hes].
  destruct (ask_run uart R S C root shm HRS HCS g m st bs w payload msg I HT He) as (c & g' & m' & w1 & E & I1 & HT1 & _).
  destruct (IH g' m' _ _ w1 I1 HT1 Hes) as (cs & w' & Hl & E'). exists (c :: cs), w'. split; [cbn; by rewrite Hl|].
  cbn [asks fs_exec]. rewrite (bind_ret _ _ _ _ _ E), bind_get, (bind_ret _ _ _ _ _ E').
  unfold mret, M_ret. do 4 f_equal. unfold window_of. apply list_fmap_ext. intros i x Hx.
  apply (mi_bytes _ _ _ _ _ _ _ (ki_mem _ _ _ _ _ _ _ _ _ _ (si_k _ _ _ _ _ _ _ _ _ _ I1))).
  apply list_elem_of_lookup_2, elem_of_nrange in Hx. unfold SHM_LEN in Hx. lia.
Qed.

(** ** A booted instance *)

(** Pages taken one after the other. *)
Fixpoint take_pages (n : nat) : M PMem (option (list N)) :=
  match n with
  | O => mret (Some [])
  | S n =>
      a ← alloc_pages 0;
      match a with
      | None => mret None
      | Some a => l ← take_pages n; mret (cons a <$> l)
      end
  end.

Lemma take_pages_run `{PageAllocator G} n (g : G) s root :
  pt_wf g s root →
  ∃ r s', take_pages n s = Ret (r, s') ∧
    match r with
    | None => True
    | Some l => ∃ g', pt_grow g g' s s' root ∧ NoDup l ∧ (∀ a, a ∈ l → live g' a ∧ ¬ live g a ∧ no_table s' root a)
    end.
Proof.
  revert g s. induction n as [|n IH]; intros g s W; cbn [take_pages].
  { eexists _, s. split; [done|]. exists g. split; [by apply pt_grow_refl|]. split; [constructor|by intros a ?%not_elem_of_nil]. }
  destruct (alloc_law s g (pt_pinv _ _ _ W)) as [E|(a & s1 & g1 & E & I1 & Hn & Hl & A & K)]; rewrite (bind_ret _ _ _ _ _ E).
  { by eexists _, s. }
  destruct (new_page_grow g g1 s s1 root a W I1 Hn Hl A K) as [Gr Hnt].
  destruct (IH g1 s1) as (r & s' & E' & Hr); [apply Gr|]. rewrite (bind_ret _ _ _ _ _ E'). eexists _, s'. split; [done|].
  destruct r as [l|]; [|done]. destruct Hr as (g' & Gr' & Hd & Ha). exists g'. split; [by eapply pt_grow_trans|].
  assert (Hl1 : live g1 a) by (apply Hl; by right). split.
  - apply NoDup_cons. split; [|done]. intros Hin. by destruct (Ha a Hin) as (_ & ? & _).
  - intros b [->|Hb]%elem_of_cons.
    + split; [by apply (ps_live _ _ _ _ _ (pg_step _ _ _ _ _ Gr'))|]. split; [done|].
      intros q Hq. eapply not_new_table; [apply Gr'|done|exact Hnt|done].
    + destruct (Ha b Hb) as (H1 & H2 & H3). split_and!; [done| |done]. intros Hlb. apply H2, Hl. by left.
Qed.

(** The servers on a memory with the four pages of the pool, process 0 the memory server,
    1 the file server and 2 its client. *)
Definition booted_net (s : PMem) (root p1 p2 p3 p4 : N) : Net :=
  mkNet
    (mkKernel s
      (mkProcTable
        [mkProcess 0 0 [Some (CProc 1); Some (CPage 0); Some (CPage 1); Some (CPage 2); Some (CPage 3); None; None; None];
         mkProcess 1 root [Some (CProc 2); Some (CShm 0); Some (CProc 0); None; None; None; None; None];
         mkProcess 2 0 (replicate 8 None)] [])
      (mkShmTable [] [])
      (mkPageTable [mkPageRec 0 p1 0 None; mkPageRec 1 p2 0 None; mkPageRec 2 p3 0 None; mkPageRec 3 p4 0 None] [])
      (replicate 8 None) (replicate 8 None) true)
    [] (replicate 4 true) (replicate 4 free_entry).

Definition booted_places (p1 p2 p3 p4 : N) : places := list_to_map [(1, (0, p1)); (2, (1, p2)); (3, (2, p3)); (4, (3, p4))].

Lemma booted_sysinv `{PageAllocator G} (g : G) s root shm p1 p2 p3 p4 :
  pt_wf g s root → walk root SHM_VA s = Some (0, pte shm UFLAGS) → (∀ fd, fd < MAX_FILES → walk root (file_va fd) s = None) →
  NoDup [shm; p1; p2; p3; p4] → (∀ a, a ∈ [shm; p1; p2; p3; p4] → live g a ∧ no_table s root a) →
  sysinv 1 0 2 root shm g (booted_places p1 p2 p3 p4) (λ _, Empty) (λ i, read_byte (shm + i) (ram s))
    (booted_net s root p1 p2 p3 p4).
Proof.
  intros W Hw Hf Hd Ha.
  assert (Hm : ∀ k x, booted_places p1 p2 p3 p4 !! k = Some x →
    (k = 1 ∧ x = (0, p1)) ∨ (k = 2 ∧ x = (1, p2)) ∨ (k = 3 ∧ x = (2, p3)) ∨ (k = 4 ∧ x = (3, p4))).
  { intros k x Hx. unfold booted_places in Hx. apply elem_of_list_to_map_2 in Hx.
    rewrite !elem_of_cons, elem_of_nil in Hx. naive_solver. }
  rewrite !NoDup_cons, !not_elem_of_cons in Hd.
  split; [split|done|done].
  - split; [done| |].
    + intros k x Hx%Hm. left. unfold pool_key. naive_solver lia.
    + intros a b x y Hx%Hm Hy%Hm. naive_solver.
  - split; [done|done|done|..].
    + intros a [->|(k & x & Hx%Hm & ->)]; [apply Ha; by left|]. apply Ha. rewrite !elem_of_cons. naive_solver.
    + intros a [->|(k & x & Hx%Hm & ->)]; [apply Ha; by left|]. apply Ha. rewrite !elem_of_cons. naive_solver.
    + intros k x Hx%Hm. naive_solver.
    + intros fd Hlt. by apply Hf.
  - split; try done.
    + intros pid p Hp. apply find_proc_vget in Hp. rewrite vget_lookup in Hp. apply list_elem_of_lookup_2 in Hp.
      cbn in Hp. rewrite !elem_of_cons, elem_of_nil in Hp. naive_solver.
    + intros i Hi%pool_cases. destruct Hi as [E|[E|[E|E]]]; by subst.
    + intros i x _ Hx%Hm. destruct Hx as [[-> ->]|[[-> ->]|[[-> ->]|[-> ->]]]]; done.
    + intros fd Hlt. unfold MAX_FILES in Hlt. assert (fd = 0 ∨ fd = 1 ∨ fd = 2 ∨ fd = 3) as [E|[E|[E|E]]] by lia; by subst.
    + intros fd x Hlt Hx%Hm. unfold fkey in Hx. naive_solver lia.
    + intros fd Hlt. split; [done|]. intros _. destruct (_ !! _) as [x|] eqn:Hx; [|done]. apply Hm in Hx. unfold fkey in Hx. naive_solver lia.
Qed.

Lemma served : ∃ s (g : N * blocks) root shm p1 p2 p3 p4,
  sysinv 1 0 2 root shm g (booted_places p1 p2 p3 p4) (λ _, Empty) (λ i, read_byte (shm + i) (ram s))
    (booted_net s root p1 p2 p3 p4).
Proof.
  destruct booted_root as (s & g & root & B & W & Hw & _).
  destruct (take_pages_run 5 g s root W) as (r & s1 & E1 & Hr).
  assert (T : test_ret boot_root (λ o s, match o with
      | Some root => test_ret (take_pages 5 s) (λ l s, match l with
          | Some [shm; _; _; _; _] => test_ret (map_user_page root SHM_VA shm MAP_FLAGS s)
              (λ r _, match r with Ok _ => true | Err _ => false end)
          | _ => false end)
      | None => false end) = true) by (vm_compute; reflexivity).
  rewrite B in T. cbn [test_ret] in T. rewrite E1 in T. cbn [test_ret] in T.
  destruct r as [[|shm [|p1 [|p2 [|p3 [|p4 [|]]]]]]|]; try discriminate T.
  destruct Hr as (g1 & [P1 _ L1] & Hd & Ha). pose proof (ps_wf _ _ _ _ _ P1) as W1.
  destruct (map_user_page_spec g1 s1 root SHM_VA shm MAP_FLAGS W1) as
    [(s2 & g2 & E2 & _)|(s2 & g2 & E2 & _ & Hpa & Hrg & _ & P2 & L2)]; [rewrite E2 in T; discriminate T|].
  exists s2, g2, root, shm, p1, p2, p3, p4. apply booted_sysinv; [apply P2|..|exact Hd|].
  - assert (Hss : same_slot SHM_VA SHM_VA) by (split; [reflexivity|split; reflexivity]).
    assert (Hlim : shm < PHYS_LIMIT).
    { pose proof (pt_phys _ _ _ W1). unfold page_in_range in Hrg. bool_to_prop. lia. }
    rewrite (L2 SHM_VA), (decide_True _ _ Hss). unfold walk_of.
    rewrite (pte_valid_pte shm _ Hlim) by (vm_compute; reflexivity). reflexivity.
  - intros fd Hlt. assert (Hns : ¬ same_slot (file_va fd) SHM_VA).
    { intros (H0 & H1 & H2). apply (shm_va_apart fd Hlt). split; [exact (eq_sym H0)|]. split; [exact (eq_sym H1)|exact (eq_sym H2)]. }
    pose proof (L2 (file_va fd)) as Ef. cbv beta in Ef. rewrite (decide_False _ _ Hns) in Ef.
    rewrite Ef. rewrite (L1 (file_va fd)). exact (Hw (file_va fd)).
  - intros a Hin. destruct (Ha a Hin) as (Hla & _ & Hnt). split; [by apply (ps_live _ _ _ _ _ P2)|].
    intros q Hq. by eapply not_new_table.
Qed.

Lemma booted_table s root p1 p2 p3 p4 : table_ok (λ _, Empty) (n_table (booted_net s root p1 p2 p3 p4)).
Proof.
  split; [done|]. intros fd e. rewrite vget_lookup. intros He%list_elem_of_lookup_2. cbn in He.
  rewrite !elem_of_cons, elem_of_nil in He. naive_solver.
Qed.

(** Open a file named "ab", write two bytes to it, read them back. *)
Definition demo_requests : list (list N * list N) :=
  [([], [OP_FS_OPEN; 2; 0x6261; 0; 0]); ([104; 105], [OP_FS_WRITE; 0; 0; 2; 0]); ([0; 0], [OP_FS_READ; 0; 0; 16; 0])].

Lemma demo_requests_ok : Forall event_ok demo_requests.
Proof. repeat constructor; by vm_compute. Qed.

Lemma ramfs_refines_witness :
  ∃ w root shm st bs cs w', length cs = 3%nat ∧
    asks 0x10000000 1 0 2 shm demo_requests w = Ret (fs_exec cs st bs demo_requests, w') ∧ pid_root 1 (n_k w) = Some root.
Proof.
  destruct served as (s & g & root & shm & p1 & p2 & p3 & p4 & I).
  destruct (ramfs_refines 0x10000000 1 0 2 root shm g (booted_places p1 p2 p3 p4) (λ _, Empty) _
    (booted_net s root p1 p2 p3 p4) demo_requests ltac:(discriminate) ltac:(discriminate) I (booted_table _ _ _ _ _ _) demo_requests_ok)
    as (cs & w' & Hl & E).
  exists (booted_net s root p1 p2 p3 p4), root, shm, (λ _, Empty), (λ i, read_byte (shm + i) (ram s)), cs, w'.
  split; [exact Hl|]. split; [exact E|reflexivity].
Defined.

Lemma ramfs_request_correct_witness :
  ∃ w shm c w', ask 0x10000000 1 0 2 shm [1] [OP_FS_CLOSE; 7; 0; 0; 0] w =
    Ret ((fs_spec c (λ _, Empty) (filled_with [1] (λ _, 0)) [OP_FS_CLOSE; 7; 0; 0; 0]).1.1, w').
Proof.
  destruct served as (s & g & root & shm & p1 & p2 & p3 & p4 & I).
  assert (He : event_ok ([1], [OP_FS_CLOSE; 7; 0; 0; 0])) by (repeat constructor; by vm_compute).
  destruct (ramfs_request_correct 0x10000000 1 0 2 root shm g (booted_places p1 p2 p3 p4) (λ _, Empty) _
    (booted_net s root p1 p2 p3 p4) [1] [OP_FS_CLOSE; 7; 0; 0; 0] ltac:(discriminate) ltac:(discriminate) I
    (booted_table _ _ _ _ _ _) He) as (c & g' & m' & w' & E & _).
  exists (booted_net s root p1 p2 p3 p4), shm, c, w'. exact E.
Defined.
