(* ===== verification/RamfsRuns.v ===== *)
(** * Closed runs of the user programs

    The machine of the closed instances is started as the boot orchestration does it: the
    memory server (process 0) gets four pages, the file server is process 1, a client
    process 2, and every program is the one of Servers.v. *)

From Stdlib Require Import ZifyN ZifyNat.
From stdpp Require Import base gmap numbers functions list.
From S2P Require Import Prelude Mem Mmu MmuProps Objects ObjProps Elf User Servers UserSys.
Import Ramfs.

Definition UART_BASE : N := 0x10000000.

Definition give_page (pid slot : N) : M Kernel () :=
  r ← pages_alloc pid;
  match r with Ok id => grant_typed_cap pid slot (CPage id);; mret tt | Err _ => panic end.

(** The processes, the pool and the page the client reports success in. *)
Definition boot_processes : M Kernel () :=
  proc_create qemu_layout;; proc_create qemu_layout;; proc_create qemu_layout;;
  for_each (give_page 0) MemServer.pool_slots;;
  root ← proc_root 2;
  p ← onmem (alloc_pages_zeroed 0);
  match p with
  | Some pa => onmem (map_user_page root Clients.MARKER_VA pa MAP_FLAGS);; mret tt
  | None => panic
  end.

(** A program run to the end of its part that returns. *)
Definition started {T} (m : Machine Net) (p : uprog T) (set_ : T → Net → Net) : M Net () := λ w,
  match run m p w with Ret (Returned t, w') => Ret (tt, set_ t w') | _ => Panic end.

Definition boot_servers : M Net () :=
  onkernel boot_processes;;
  started (user_machine UART_BASE nobody 0) (MemServer.start 0) set_pool;;
  started (ramfs_machine UART_BASE 1 0) (Ramfs.start 0) set_table.

(** A program of process 2 on the booted system. *)
Definition run_client {A} (p : uprog A) : outcome (uend A * Net) :=
  match boot_servers (mkNet kernel64 [] [] []) with
  | Ret (_, w) => run (client_machine UART_BASE 1 0 2) p w
  | Panic => Panic
  | Timeout => Timeout
  end.

Definition word_at (pid va : N) (w : Net) : option N :=
  (λ pa, read_word pa (ram (k_mem (n_k w)))) <$> proc_pa pid va false w.

(** The test client of the file server, run with the file server, the memory server and
    the kernel, passes all its checks: it opens, reads the empty file, is refused a second
    open, a bad number and an overlong write, writes, reads back, closes and unlinks, then
    stores the completion mark and exits; afterwards all pages are back in the pool, the
    table is free and no message is under way. *)
Theorem ramfs_client_completes :
  ∃ w, run_client (Clients.ramfs_client 3) = Ret (Exited, w) ∧
    word_at 2 Clients.MARKER_VA w = Some (N.lor Clients.DONE_MARK 3) ∧
    n_pool w = replicate 4 true ∧ n_table w = replicate 4 Ramfs.free_entry ∧ n_wire w = [].
Proof.
  assert (T : match run_client (Clients.ramfs_client 3) with
    | Ret (Exited, w) => bool_decide (word_at 2 Clients.MARKER_VA w = Some (N.lor Clients.DONE_MARK 3)) &&
        bool_decide (n_pool w = replicate 4 true) &&
        match n_table w with
        | [e0; e1; e2; e3] => forallb (λ e, bool_decide (Ramfs.fe_state e = Ramfs.Free) &&
            bool_decide (Ramfs.fe_name e = replicate 24 0) && (Ramfs.fe_name_len e =? 0) && (Ramfs.fe_size e =? 0)) [e0; e1; e2; e3]
        | _ => false end &&
        match n_wire w with [] => true | _ => false end
    | _ => false end = true) by (vm_compute; reflexivity).
  destruct (run_client (Clients.ramfs_client 3)) as [[[| | |] w]| |]; try discriminate T. exists w. split; [reflexivity|].
  apply andb_true_iff in T as [[[T1 T2]%andb_true_iff T3]%andb_true_iff T4]. apply bool_decide_eq_true in T1, T2.
  split; [exact T1|]. split; [exact T2|]. split; [|by destruct (n_wire w)].
  destruct (n_table w) as [|e0 [|e1 [|e2 [|e3 [|]]]]]; try discriminate T3. rewrite forallb_forall in T3.
  assert (He : ∀ e, In e [e0; e1; e2; e3] → e = Ramfs.free_entry).
  { intros e Hin. specialize (T3 e Hin). apply andb_true_iff in T3 as [[[Ta Tb]%andb_true_iff Tc]%andb_true_iff Td].
    apply bool_decide_eq_true in Ta, Tb. apply N.eqb_eq in Tc, Td. destruct e. cbn in *. by subst. }
  rewrite (He e0), (He e1), (He e2), (He e3) by (cbn; tauto). reflexivity.
Qed.

(** The memory client on the same system: the memory server is the peer it waits for. *)
Definition run_mem_client {A} (p : uprog A) : outcome (uend A * Net) :=
  match boot_servers (mkNet kernel64 [] [] []) with
  | Ret (_, w) => run (user_machine UART_BASE (mem_peer UART_BASE 0) 2) p w
  | Panic => Panic
  | Timeout => Timeout
  end.

(** The memory client gets a page, writes and reads it, returns it and reports success. *)
Example mem_client_completes :
  match run_mem_client (Clients.mem_client 1) with
  | Ret (Exited, w) => word_at 2 Clients.MARKER_VA w = Some (N.lor Clients.DONE_MARK 1) ∧ n_pool w = replicate 4 true
  | _ => False
  end.
Proof. vm_compute. split; reflexivity. Qed.

(** ** Where the servers depart from what one expects *)

Definition connect_ramfs : uprog () :=
  sys_service_connect RAMFS_SERVICE_ID CLIENT_IPC_SLOT SERVER_ACCEPT_SLOT;;
  sys_cap_dup CLIENT_IPC_SLOT CLIENT_SHM_SLOT;;
  sys_shm_map CLIENT_SHM_SLOT SERVER_SHM_SLOT SHM_LEN;;
  mret tt.

(** The deleted file "a" held the bytes 104, 105; the new file "b" is given one byte at
    offset 2 and then read from its start. *)
Definition stale_client : uprog (list N) :=
  connect_ramfs;;
  Clients.fs_result OP_FS_OPEN [1; 97; 0; 0];;
  ustore SHM_VA 104;; ustore (SHM_VA + 1) 105;;
  Clients.fs_result OP_FS_WRITE [0; 0; 2; 0];;
  Clients.fs_result OP_FS_UNLINK [0; 0; 0; 0];;
  Clients.fs_result OP_FS_OPEN [1; 98; 0; 0];;
  ustore SHM_VA 1;; ustore (SHM_VA + 1) 2;;
  Clients.fs_result OP_FS_WRITE [0; 2; 1; 0];;
  Clients.fs_result OP_FS_READ [0; 0; 3; 0];;
  uload_all [SHM_VA; SHM_VA + 1; SHM_VA + 2].

(** A write beyond the end of a new file exposes the bytes of a deleted one. *)
Example stale_bytes_exposed :
  match run_client stale_client with Ret (Returned bs, _) => bs = [104; 105; 1] | _ => False end.
Proof. vm_compute. reflexivity. Qed.

(** Process 0 offers the console, process 2 the file service; process 3 shares a page with
    process 2, then process 1 initialises its console. *)
Definition second_client : M Net (uend N) :=
  onkernel (for_each (λ _ : N, proc_create qemu_layout;; mret tt) [0; 1; 2; 3]);;
  started (user_machine UART_BASE nobody 0) (sys_service_register UART_SERVICE_ID) (λ _ w, w);;
  started (user_machine UART_BASE nobody 2) (sys_service_register RAMFS_SERVICE_ID) (λ _ w, w);;
  started (user_machine UART_BASE nobody 3) connect_ramfs (λ _ w, w);;
  run (user_machine UART_BASE nobody 1) uart_init.

(** [uart_init] is to answer 0 when the console is ready and an error otherwise, and its
    callers print only after 0; it answers the number of the shared page, so that with
    another shared page in the system a console that is ready is taken for a failure. *)
Example uart_init_answers_page_number :
  match second_client (mkNet kernel64 [] [] []) with
  | Ret (Returned rc, w) => rc = 1 ∧ proc_pa 1 SHM_VA true w = proc_pa 0 SHM_VA true w ∧ is_Some (proc_pa 1 SHM_VA true w)
  | _ => False
  end.
Proof. vm_compute. split; [reflexivity|]. split; [reflexivity|eexists; reflexivity]. Qed.

(** ** A page that cannot be mapped *)

(** Take all pages from the allocator. *)
Fixpoint drain (fuel : nat) : M PMem (list N) :=
  match fuel with
  | O => mret []
  | Datatypes.S fuel =>
      a ← alloc_pages 0;
      match a with
      | Some a => l ← drain fuel; mret (a :: l)
      | None => mret []
      end
  end.

(** Open a first file with no free page left, give the memory back, open again: the
    replies and the pool. *)
Definition stuck_run : M Net (uend (list N) * uend (list N)) :=
  boot_servers;;
  started (client_machine UART_BASE 1 0 2) connect_ramfs (λ _ w, w);;
  l ← onkernel (onmem (drain 64));
  r1 ← (run (client_machine UART_BASE 1 0 2) (Clients.fs_result OP_FS_OPEN [1; 97; 0; 0]) : M Net (uend (list N)));
  onkernel (onmem (for_each (λ a, free_pages a;; mret tt) l));;
  r2 ← (run (client_machine UART_BASE 1 0 2) (Clients.fs_result OP_FS_OPEN [1; 97; 0; 0]) : M Net (uend (list N)));
  mret (r1, r2).

(** When the kernel has no page for the table that maps a new file, the page already granted
    stays in the file's slot: the slot counts as free, every later open picks it and fails
    with [ERR_ENOMEM], although there is memory again and the other three slots are unused. *)
Example stuck_slot_blocks_open :
  match stuck_run (mkNet kernel64 [] [] []) with
  | Ret ((Returned r1, Returned r2), w) =>
      reg r1 1 = ERR_ENOMEM ∧ reg r2 1 = ERR_ENOMEM ∧ free_page_count (k_mem (n_k w)) = Some 38 ∧
      n_pool w = [false; true; true; true] ∧ n_table w = replicate 4 free_entry
  | _ => False
  end.
Proof. vm_compute. split_and!; reflexivity. Qed.
