(* ===== verification/Sync.v ===== *)
(** * Locks: kernel/src/sync.rs

    [SpinLock], [Mutex] and [Condvar] as machines whose steps are the atomic accesses of
    the code: a [swap], [load] or [store] of a lock word, an operation on a queue under its
    spin lock, [sched::wake] and [sched::block_current].  A thread's program point says
    where in the code it is; [step] makes the next access of one thread, and a run is any
    sequence of steps of any threads. *)

From Stdlib Require Import ZifyN ZifyNat.
From stdpp Require Import base gmap numbers functions list.
From S2P Require Import Prelude.

(** ** The spin lock *)
Module Spin.

(** Where a hart is; [saved] is the interrupt flag [irq_save] returned. *)
Inductive Pc :=
| Out                      (* not using the lock *)
| Swap (saved : bool)      (* [lock]: about to swap *)
| Spin (saved : bool)      (* [lock]: about to load, after a failed swap *)
| TrySwap (saved : bool)   (* [try_lock]: about to swap *)
| TryFail (saved : bool)   (* [try_lock]: about to restore and answer [None] *)
| Held (saved : bool)      (* has the guard *)
| Leave (saved : bool).    (* [drop]: lock word stored, about to restore *)

Record St := mkSt { locked : bool; sie : N → bool; pc : N → Pc }.

Definition goto (h : N) (p : Pc) (s : St) : St := mkSt (locked s) (sie s) (<[h := p]> (pc s)).
Definition set_locked (b : bool) (s : St) : St := mkSt b (sie s) (pc s).
Definition set_sie (h : N) (b : bool) (s : St) : St := mkSt (locked s) (<[h := b]> (sie s)) (pc s).

(** The calls a hart outside the lock can make. *)
Inductive Call := CLock | CTryLock.

(** [SpinLock::lock] after [irq_save]: swap, and wait with loads while it is taken. *)
Definition lock_step (h : N) (s : St) : option St :=
  match pc s h with
  | Swap saved =>
      if locked s then Some (goto h (Spin saved) s) else Some (goto h (Held saved) (set_locked true s))
  | Spin saved => if locked s then Some s else Some (goto h (Swap saved) s)
  | _ => None
  end.

(** [SpinLock::try_lock] after [irq_save]. *)
Definition try_lock_step (h : N) (s : St) : option St :=
  match pc s h with
  | TrySwap saved =>
      if locked s then Some (goto h (TryFail saved) s) else Some (goto h (Held saved) (set_locked true s))
  | TryFail saved => Some (goto h Out (if saved then set_sie h true s else s))
  | _ => None
  end.

(** [SpinLockGuard::drop]: the store, then [irq_restore]. *)
Definition drop_step (h : N) (s : St) : option St :=
  match pc s h with
  | Held saved => Some (goto h (Leave saved) (set_locked false s))
  | Leave saved => Some (goto h Out (if saved then set_sie h true s else s))
  | _ => None
  end.

(** The next access of hart [h]; [None] when it is outside and makes no call. *)
Definition step (h : N) (c : option Call) (s : St) : option St :=
  match pc s h with
  | Out =>
      match c with
      | Some CLock => Some (goto h (Swap (sie s h)) (set_sie h false s))
      | Some CTryLock => Some (goto h (TrySwap (sie s h)) (set_sie h false s))
      | None => None
      end
  | Swap _ | Spin _ => lock_step h s
  | TrySwap _ | TryFail _ => try_lock_step h s
  | Held _ | Leave _ => drop_step h s
  end.

Definition init (sie0 : N → bool) : St := mkSt false sie0 (λ _, Out).

End Spin.

(** ** The blocking mutex and a condition variable used with it *)
Module Mutex.

(** What follows the release of the mutex: [unlock] returns, [wait] blocks.

    The step that enters a call is its [irq_save]; the step that leaves the part between
    [irq_save] and [irq_restore] includes the latter, except in [notify_all], which
    restores the interrupts before the guard of its queue is dropped. *)
Inductive After := Unlock | Wait.

Inductive Pc :=
| Out
| Lock1                          (* [lock]: about to swap the first time *)
| Push                           (* about to queue itself *)
| Lock2                          (* about to swap the second time *)
| Undo                           (* second swap won: about to [pop_back] *)
| Block                          (* about to [block_current] *)
| Asleep                         (* in [block_current] *)
| Held                           (* has the guard *)
| CvPush                         (* [wait]: about to queue itself *)
| Store (a : After)              (* about to clear the lock word *)
| PopM (a : After)               (* about to pop a mutex waiter *)
| WakeM (w : N) (a : After)      (* about to wake it, the queue's lock held *)
| CvBlock                        (* [wait]: about to [block_current] *)
| CvAsleep                       (* [wait]: in [block_current] *)
| PopC (all held : bool)         (* [notify_*]: about to pop a waiter; [held]: owns the mutex *)
| WakeC (w : N) (all held : bool)
| DropC (held : bool).           (* [notify_all]: interrupts restored, about to drop the queue's guard *)

Record St := mkSt {
  locked : bool;
  waiters : list N;                (* [Mutex::waiters] *)
  mlock : option N;                (* the thread that holds its spin lock *)
  cwaiters : list N;               (* [Condvar::waiters] *)
  clock : option N;
  pc : N → Pc;
  asleep : N → bool;               (* the scheduler's state [Blocked] *)
  woken : N → bool                 (* the scheduler's [woken] flag *)
}.

Definition goto (t : N) (p : Pc) (s : St) : St :=
  mkSt (locked s) (waiters s) (mlock s) (cwaiters s) (clock s) (<[t := p]> (pc s)) (asleep s) (woken s).
Definition set_locked (b : bool) (s : St) : St :=
  mkSt b (waiters s) (mlock s) (cwaiters s) (clock s) (pc s) (asleep s) (woken s).
Definition set_waiters (q : list N) (s : St) : St :=
  mkSt (locked s) q (mlock s) (cwaiters s) (clock s) (pc s) (asleep s) (woken s).
Definition set_mlock (o : option N) (s : St) : St :=
  mkSt (locked s) (waiters s) o (cwaiters s) (clock s) (pc s) (asleep s) (woken s).
Definition set_cwaiters (q : list N) (s : St) : St :=
  mkSt (locked s) (waiters s) (mlock s) q (clock s) (pc s) (asleep s) (woken s).
Definition set_clock (o : option N) (s : St) : St :=
  mkSt (locked s) (waiters s) (mlock s) (cwaiters s) o (pc s) (asleep s) (woken s).
Definition set_asleep (t : N) (b : bool) (s : St) : St :=
  mkSt (locked s) (waiters s) (mlock s) (cwaiters s) (clock s) (pc s) (<[t := b]> (asleep s)) (woken s).
Definition set_woken (t : N) (b : bool) (s : St) : St :=
  mkSt (locked s) (waiters s) (mlock s) (cwaiters s) (clock s) (pc s) (asleep s) (<[t := b]> (woken s)).

(** [sched::wake]: the flag is set, and a blocked thread becomes ready. *)
Definition wake (w : N) (s : St) : St := set_asleep w false (set_woken w true s).
(** [sched::block_current] up to the switch: a pending wake-up is consumed and the call
    returns ([p]), otherwise the thread sleeps ([q]). *)
Definition block_current (t : N) (p q : Pc) (s : St) : St :=
  if woken s t then goto t p (set_woken t false s) else goto t q (set_asleep t true s).
(** Its end, once the thread runs again. *)
Definition resume (t : N) (p : Pc) (s : St) : option St :=
  if asleep s t then None else Some (goto t p (set_woken t false s)).

(** [q.pop_back()]. *)
Definition pop_back (q : list N) : list N := take (length q - 1) q.

Definition after_release (a : After) : Pc := match a with Unlock => Out | Wait => CvBlock end.
Definition after_notify (held : bool) : Pc := if held then Held else Out.

(** The calls of a thread: outside, [lock] or a notification; with the guard, dropping it,
    [wait] or a notification. *)
Inductive Call := CLock | CUnlock | CWait | CNotify (all : bool).

(** A spin lock that another thread holds makes the access wait. *)
Definition free (o : option N) : bool := match o with None => true | Some _ => false end.

(** [Mutex::lock], from its first swap. *)
Definition lock_step (t : N) (s : St) : option St :=
  match pc s t with
  | Lock1 => if locked s then Some (goto t Push s) else Some (goto t Held (set_locked true s))
  | Push => if free (mlock s) then Some (goto t Lock2 (set_waiters (waiters s ++ [t]) s)) else None
  | Lock2 => if locked s then Some (goto t Block s) else Some (goto t Undo (set_locked true s))
  | Undo => if free (mlock s) then Some (goto t Held (set_waiters (pop_back (waiters s)) s)) else None
  | Block => Some (block_current t Lock1 Asleep s)
  | Asleep => resume t Lock1 s
  | _ => None
  end.

(** [Mutex::unlock], and the same accesses in [Condvar::wait]. *)
Definition unlock_step (t : N) (s : St) : option St :=
  match pc s t with
  | Store a => Some (goto t (PopM a) (set_locked false s))
  | PopM a =>
      if free (mlock s) then
        match waiters s with
        | w :: q => Some (goto t (WakeM w a) (set_mlock (Some t) (set_waiters q s)))
        | [] => Some (goto t (after_release a) s)
        end
      else None
  | WakeM w a => Some (goto t (after_release a) (set_mlock None (wake w s)))
  | _ => None
  end.

(** [Condvar::wait] before and after the release; it ends in [Mutex::lock]. *)
Definition wait_step (t : N) (s : St) : option St :=
  match pc s t with
  | CvPush => if free (clock s) then Some (goto t (Store Wait) (set_cwaiters (cwaiters s ++ [t]) s)) else None
  | CvBlock => Some (block_current t Lock1 CvAsleep s)
  | CvAsleep => resume t Lock1 s
  | _ => None
  end.

(** [Condvar::notify_one] and [Condvar::notify_all]. *)
Definition notify_step (t : N) (s : St) : option St :=
  match pc s t with
  | PopC all held =>
      if free (clock s) || bool_decide (clock s = Some t) then
        match cwaiters s with
        | w :: q => Some (goto t (WakeC w all held) (set_clock (Some t) (set_cwaiters q s)))
        | [] => if all then Some (goto t (DropC held) (set_clock (Some t) s)) else Some (goto t (after_notify held) s)
        end
      else None
  | WakeC w all held =>
      if all then Some (goto t (PopC true held) (wake w s))
      else Some (goto t (after_notify held) (set_clock None (wake w s)))
  | DropC held => Some (goto t (after_notify held) (set_clock None s))
  | _ => None
  end.

Definition step (t : N) (c : option Call) (s : St) : option St :=
  match pc s t with
  | Out =>
      match c with
      | Some CLock => Some (goto t Lock1 s)
      | Some (CNotify all) => Some (goto t (PopC all false) s)
      | _ => None
      end
  | Held =>
      match c with
      | Some CUnlock => Some (goto t (Store Unlock) s)
      | Some CWait => Some (goto t CvPush s)
      | Some (CNotify all) => Some (goto t (PopC all true) s)
      | _ => None
      end
  | Lock1 | Push | Lock2 | Undo | Block | Asleep => lock_step t s
  | Store _ | PopM _ | WakeM _ _ => unlock_step t s
  | CvPush | CvBlock | CvAsleep => wait_step t s
  | PopC _ _ | WakeC _ _ _ | DropC _ => notify_step t s
  end.

Definition init : St := mkSt false [] None [] None (λ _, Out) (λ _, false) (λ _, false).

(** A run: the steps of the listed threads, with their calls. *)
Fixpoint exec (l : list (N * option Call)) (s : St) : option St :=
  match l with
  | [] => Some s
  | (t, c) :: l => match step t c s with Some s' => exec l s' | None => None end
  end.

End Mutex.
