(* ===== verification/SyncProps.v ===== *)
(** * Properties of the locks *)

From Stdlib Require Import ZifyN ZifyNat.
From stdpp Require Import base gmap numbers functions list.
From S2P Require Import Prelude Sync.

(** Case analysis on whether an updated function is read at the updated place. *)
Ltac fn_cases :=
  repeat match goal with
  | |- context [(<[?a := _]> _) ?b] =>
      destruct (decide (a = b)) as [->|]; [rewrite !fn_lookup_insert|rewrite !(fn_lookup_insert_ne _ a b) by done]
  | H : context [(<[?a := _]> _) ?b] |- _ =>
      destruct (decide (a = b)) as [->|]; [rewrite !fn_lookup_insert in H|rewrite !(fn_lookup_insert_ne _ a b) in H by done]
  end.

(** ** The spin lock *)
Section spin.
Import Spin.

Inductive spin_reach (sie0 : N → bool) : St → Prop :=
| spin_start : spin_reach sie0 (init sie0)
| spin_step h c s s' : spin_reach sie0 s → step h c s = Some s' → spin_reach sie0 s'.

Definition holds (p : Pc) : bool := match p with Held _ => true | _ => false end.
Definition outside (p : Pc) : bool := match p with Out => true | _ => false end.
(** The interrupt flag the hart had, or has, outside the lock. *)
Definition own_flag (s : St) (h : N) : bool :=
  match pc s h with
  | Out => sie s h
  | Swap b | Spin b | TrySwap b | TryFail b | Held b | Leave b => b
  end.

Record spin_inv (sie0 : N → bool) (s : St) : Prop := mkSpinInv {
  sp_one h h' : holds (pc s h) = true → holds (pc s h') = true → h = h';
  sp_locked : locked s = true ↔ ∃ h, holds (pc s h) = true;
  sp_off h : outside (pc s h) = false → sie s h = false;
  sp_flag h : own_flag s h = sie0 h
}.

(** A hart moves between points that do not hold the lock; only its own flag changes. *)
Lemma spin_move sie0 s h p f :
  spin_inv sie0 s → holds (pc s h) = false → holds p = false → (∀ x, x ≠ h → f x = sie s x) →
  (outside p = false → f h = false) → own_flag (mkSt (locked s) f (<[h := p]> (pc s))) h = sie0 h →
  spin_inv sie0 (mkSt (locked s) f (<[h := p]> (pc s))).
Proof.
  intros [H1 H2 H3 H4] Hh Hp Hx Hb Hf. split; cbn [locked sie pc].
  - intros x y. fn_cases; try congruence. apply H1.
  - rewrite H2. split; intros [x Hy]; exists x; revert Hy; fn_cases; congruence.
  - intros x. fn_cases; [done|]. rewrite Hx by done. apply H3.
  - intros x. destruct (decide (h = x)) as [<-|]; [done|]. specialize (H4 x). unfold own_flag in *. cbn [sie pc].
    rewrite !fn_lookup_insert_ne by done. by rewrite Hx.
Qed.

Lemma spin_take sie0 s h b :
  spin_inv sie0 s → locked s = false → outside (pc s h) = false → own_flag s h = b →
  spin_inv sie0 (goto h (Held b) (set_locked true s)).
Proof.
  intros I Hl Ho <-. pose proof (sp_off _ _ I h Ho) as Hs. destruct I as [H1 H2 H3 H4].
  assert (Hn : ∀ x, holds (pc s x) = false).
  { intros x. destruct (holds (pc s x)) eqn:E; [|done]. assert (locked s = true) by (apply H2; eauto). congruence. }
  split; cbn [locked sie pc goto set_locked].
  - intros x y. fn_cases; try done; by rewrite Hn.
  - split; [|done]. intros _. exists h. by rewrite fn_lookup_insert.
  - intros x. fn_cases; [done|apply H3].
  - intros x. unfold own_flag at 1. cbn [sie pc goto set_locked]. fn_cases; [apply H4|]. apply (H4 x).
Qed.

Lemma spin_drop sie0 s h b :
  spin_inv sie0 s → pc s h = Held b → spin_inv sie0 (goto h (Leave b) (set_locked false s)).
Proof.
  intros I E. pose proof (sp_off _ _ I h) as Hs. rewrite E in Hs. destruct I as [H1 H2 H3 H4].
  split; cbn [locked sie pc goto set_locked].
  - intros x y. fn_cases; try done. apply H1.
  - split; [done|]. intros [x Hx]. exfalso. revert Hx. fn_cases; [done|]. intros Hx.
    assert (Hh : holds (pc s h) = true) by (by rewrite E). pose proof (H1 _ _ Hh Hx). congruence.
  - intros x. fn_cases; [by apply Hs|apply H3].
  - intros x. specialize (H4 x). unfold own_flag in *. cbn [sie pc goto set_locked]. fn_cases; [by rewrite E in H4|done].
Qed.

Lemma restore_eta s h (b : bool) :
  goto h Out (if b then set_sie h true s else s) =
  mkSt (locked s) (if b then <[h := true]> (sie s) else sie s) (<[h := Out]> (pc s)).
Proof. by destruct b. Qed.

Lemma spin_reach_inv sie0 s : spin_reach sie0 s → spin_inv sie0 s.
Proof.
  induction 1 as [|h c s s' _ I E].
  { split; cbn; try done. split; [done|by intros [? ?]]. }
  pose proof (sp_flag _ _ I h) as Hfl. pose proof (sp_off _ _ I h) as Hoff. unfold own_flag in Hfl.
  unfold step, lock_step, try_lock_step, drop_step in E. destruct (pc s h) as [|b|b|b|b|b|b] eqn:Ep.
  - destruct c as [[]|]; [| |done]; injection E as <-; (apply (spin_move sie0 s h); [done|by rewrite Ep|done|
      intros x Hx; by apply fn_lookup_insert_ne|intros _; by apply fn_lookup_insert|
      unfold own_flag; cbn [pc]; by rewrite fn_lookup_insert]).
  - destruct (locked s) eqn:El; injection E as <-.
    + apply (spin_move sie0 s h); [done|by rewrite Ep|done|done|by intros _; apply Hoff|]. unfold own_flag. cbn [pc]. by rewrite fn_lookup_insert.
    + apply spin_take; rewrite ?Ep; try done. unfold own_flag. by rewrite Ep.
  - destruct (locked s) eqn:El; injection E as <-; [done|].
    apply (spin_move sie0 s h); [done|by rewrite Ep|done|done|by intros _; apply Hoff|]. unfold own_flag. cbn [pc]. by rewrite fn_lookup_insert.
  - destruct (locked s) eqn:El; injection E as <-.
    + apply (spin_move sie0 s h); [done|by rewrite Ep|done|done|by intros _; apply Hoff|]. unfold own_flag. cbn [pc]. by rewrite fn_lookup_insert.
    + apply spin_take; rewrite ?Ep; try done. unfold own_flag. by rewrite Ep.
  - injection E as <-. rewrite restore_eta. apply (spin_move sie0 s h); [done|by rewrite Ep|done| |done|].
    + intros x Hx. destruct b; [by apply fn_lookup_insert_ne|done].
    + unfold own_flag. cbn [pc sie]. rewrite fn_lookup_insert. destruct b; [by rewrite fn_lookup_insert|]. by rewrite <-Hfl, Hoff.
  - injection E as <-. by apply spin_drop.
  - injection E as <-. rewrite restore_eta. apply (spin_move sie0 s h); [done|by rewrite Ep|done| |done|].
    + intros x Hx. destruct b; [by apply fn_lookup_insert_ne|done].
    + unfold own_flag. cbn [pc sie]. rewrite fn_lookup_insert. destruct b; [by rewrite fn_lookup_insert|]. by rewrite <-Hfl, Hoff.
Qed.

(** C23: The spin lock, for any number of harts and any interleaving of their [lock],
    [try_lock] and guard drops: at most one hart has the guard, the lock word is set
    exactly while one has it, interrupts are off on a hart from before it tries until after
    it has released or given up, and outside the lock every hart has its interrupt flag as
    it was. *)
Theorem spin_lock_exclusive (sie0 : N → bool) (s : St) :
  spin_reach sie0 s →
  (∀ h h' b b', pc s h = Held b → pc s h' = Held b' → h = h') ∧
  (locked s = true ↔ ∃ h b, pc s h = Held b) ∧
  (∀ h, pc s h ≠ Out → sie s h = false) ∧
  (∀ h, pc s h = Out → sie s h = sie0 h).
Proof.
  intros [H1 H2 H3 H4]%spin_reach_inv. split_and!.
  - intros h h' b b' E E'. apply H1; by rewrite ?E, ?E'.
  - rewrite H2. split; [intros [h Hh]; exists h; destruct (pc s h); try done; by eexists|intros (h & b & E); exists h; by rewrite E].
  - intros h Hn. apply H3. by destruct (pc s h).
  - intros h E. specialize (H4 h). unfold own_flag in H4. by rewrite E in H4.
Qed.

(** Hart 0 holds the lock, hart 1 has failed to take it. *)
Lemma spin_lock_exclusive_witness :
  ∃ s, spin_reach (λ _, true) s ∧ pc s 0 = Held true ∧ pc s 1 = Spin true ∧ sie s 0 = false ∧ sie s 2 = true.
Proof.
  destruct (step 0 (Some CLock) (init (λ _, true))) as [s1|] eqn:E1; [|discriminate E1].
  destruct (step 0 None s1) as [s2|] eqn:E2; [|injection E1 as <-; discriminate E2].
  destruct (step 1 (Some CLock) s2) as [s3|] eqn:E3; [|injection E1 as <-; injection E2 as <-; discriminate E3].
  destruct (step 1 None s3) as [s4|] eqn:E4; [|injection E1 as <-; injection E2 as <-; injection E3 as <-; discriminate E4].
  assert (Hr : spin_reach (λ _, true) s4).
  { apply (spin_step _ 1 None s3); [|exact E4]. apply (spin_step _ 1 (Some CLock) s2); [|exact E3].
    apply (spin_step _ 0 None s1); [|exact E2]. apply (spin_step _ 0 (Some CLock) (init (λ _, true))); [constructor|exact E1]. }
  injection E1 as <-. injection E2 as <-. injection E3 as <-. injection E4 as <-.
  eexists. split; [exact Hr|]. destruct (spin_lock_exclusive _ _ Hr) as (_ & _ & Hoff & Hout).
  split; [reflexivity|]. split; [reflexivity|]. split; [apply Hoff; discriminate|]. apply Hout. reflexivity.
Defined.
End spin.

(** ** The mutex: mutual exclusion *)
Section mutex.
Import Mutex.

Inductive mx_reach : St → Prop :=
| mx_start : mx_reach init
| mx_step t c s s' : mx_reach s → step t c s = Some s' → mx_reach s'.

(** The points at which a thread owns the mutex. *)
Definition owns (p : Pc) : bool :=
  match p with
  | Held | Undo | CvPush | Store _ | PopC _ true | WakeC _ _ true | DropC true => true
  | _ => false
  end.

Record excl (s : St) : Prop := mkExcl {
  ex_one t u : owns (pc s t) = true → owns (pc s u) = true → t = u;
  ex_locked : locked s = true ↔ ∃ t, owns (pc s t) = true
}.

(** A thread moves on; what it owns it keeps, and nothing it gains. *)
Lemma excl_move s s' t p :
  excl s → locked s' = locked s → pc s' = <[t := p]> (pc s) → owns p = owns (pc s t) → excl s'.
Proof.
  intros [H1 H2] El Ep Ho. split; rewrite ?El, ?Ep.
  - intros x y. fn_cases; rewrite ?Ho; auto.
  - rewrite H2. split; intros [x Hx]; exists x; revert Hx; fn_cases; by rewrite ?Ho.
Qed.

Lemma excl_take s s' t p :
  excl s → locked s = false → locked s' = true → pc s' = <[t := p]> (pc s) → owns p = true → excl s'.
Proof.
  intros [H1 H2] Hl El Ep Ho. assert (Hn : ∀ x, owns (pc s x) = false).
  { intros x. destruct (owns (pc s x)) eqn:E; [|done]. assert (locked s = true) by (apply H2; eauto). congruence. }
  split; rewrite ?El, ?Ep.
  - intros x y. fn_cases; rewrite ?Hn; done.
  - split; [|done]. intros _. exists t. by rewrite fn_lookup_insert.
Qed.

Lemma excl_drop s s' t p :
  excl s → owns (pc s t) = true → locked s' = false → pc s' = <[t := p]> (pc s) → owns p = false → excl s'.
Proof.
  intros [H1 H2] Ht El Ep Ho. split; rewrite ?El, ?Ep.
  - intros x y. fn_cases; rewrite ?Ho; try done. apply H1.
  - split; [done|]. intros [x Hx]. revert Hx. fn_cases; [by rewrite Ho|]. intros Hx. by rewrite (H1 _ _ Ht Hx) in *.
Qed.

Lemma excl_step t c s s' : excl s → step t c s = Some s' → excl s'.
Proof.
  intros X E. unfold step, lock_step, unlock_step, wait_step, notify_step, block_current, resume in E. destruct (pc s t) eqn:Ep; repeat case_match; simplify_eq;
    first [ by eapply (excl_move s); [done|reflexivity|reflexivity|rewrite Ep]
          | by eapply (excl_move s); [done|reflexivity|reflexivity|rewrite Ep; destruct a]
          | by eapply (excl_move s); [done|reflexivity|reflexivity|rewrite Ep; destruct held]
          | by eapply (excl_take s); [done|done|reflexivity|reflexivity|]
          | by eapply (excl_drop s); [done|rewrite Ep|reflexivity|reflexivity|] ].
Qed.

Lemma excl_reach s : mx_reach s → excl s.
Proof.
  induction 1 as [|t c s s' _ IH E]; [|by eapply excl_step]. split; cbn; [done|]. split; [done|by intros [? ?]].
Qed.

(** C22: The mutex excludes, for any number of threads on any number of harts and any
    interleaving of [lock], unlocking, [Condvar::wait] and notifications at the grain of
    single atomic accesses: two threads never own it together, and the lock word is set
    exactly while some thread owns it. *)
Theorem mutex_exclusive (s : St) :
  mx_reach s →
  (∀ t u, owns (pc s t) = true → owns (pc s u) = true → t = u) ∧
  (locked s = true ↔ ∃ t, owns (pc s t) = true).
Proof. by intros [H1 H2]%excl_reach. Qed.

Lemma exec_reach l s s' : mx_reach s → exec l s = Some s' → mx_reach s'.
Proof.
  revert s. induction l as [|[t c] l IH]; intros s Hs E; [by injection E as <-|]. cbn [exec] in E.
  destruct (step t c s) as [s1|] eqn:E1; [|done]. apply (IH s1); [by eapply mx_step|done].
Qed.

(** Thread 0 owns the mutex, thread 1 sleeps in its queue. *)
Definition one_waits : list (N * option Call) :=
  [(0, Some CLock); (0, None); (1, Some CLock); (1, None); (1, None); (1, None); (1, None)].

Lemma mutex_exclusive_witness :
  ∃ s, exec one_waits init = Some s ∧ waiters s = [1] ∧ asleep s 1 = true ∧
    ∀ t, owns (pc s t) = true → t = 0.
Proof.
  destruct (exec one_waits init) as [s|] eqn:E; [|discriminate E]. exists s. split; [reflexivity|].
  pose proof (exec_reach one_waits init s mx_start E) as Hr. destruct (mutex_exclusive s Hr) as [H1 _].
  injection E as <-. split; [reflexivity|]. split; [reflexivity|]. intros t Ht. apply H1; [exact Ht|reflexivity].
Defined.

(** ** A lost wake-up *)

(** Thread [t] sleeps and nothing will wake it. *)
Record forgotten (s : St) (t : N) : Prop := mkForgotten {
  fg_pc : pc s t = Asleep;
  fg_sleep : asleep s t = true;
  fg_queue : t ∉ waiters s;
  fg_cqueue : t ∉ cwaiters s;
  fg_wake u w a : pc s u = WakeM w a → w ≠ t;
  fg_notify u w all held : pc s u = WakeC w all held → w ≠ t
}.

Lemma forgotten_update s s' t u p :
  forgotten s t → u ≠ t → pc s' = <[u := p]> (pc s) → asleep s' t = asleep s t →
  t ∉ waiters s' → t ∉ cwaiters s' →
  (∀ w a, p = WakeM w a → w ≠ t) → (∀ w all held, p = WakeC w all held → w ≠ t) → forgotten s' t.
Proof.
  intros [H1 H2 H3 H4 H5 H6] Hne Ep Ea Hw Hc HM HC. split; rewrite ?Ep, ?Ea; try done.
  - by rewrite fn_lookup_insert_ne.
  - intros x w a. fn_cases; [apply HM|apply H5].
  - intros x w all held. fn_cases; [apply HC|apply H6].
Qed.

Lemma elem_of_pop_back t q : t ∈ pop_back q → t ∈ q.
Proof.
  unfold pop_back. intros Hin. rewrite <-(take_drop (length q - 1) q). apply elem_of_app. by left.
Qed.

Lemma forgotten_step s s' t u c : forgotten s t → step u c s = Some s' → forgotten s' t.
Proof.
  intros F E. assert (Hne : u ≠ t).
  { intros ->. unfold step, lock_step, unlock_step, wait_step, notify_step, resume in E. rewrite (fg_pc _ _ F), (fg_sleep _ _ F) in E. done. }
  pose proof (fg_queue _ _ F) as Hq. pose proof (fg_cqueue _ _ F) as Hc.
  pose proof (fg_wake _ _ F u) as HW. pose proof (fg_notify _ _ F u) as HN.
  assert (Hpb : t ∉ pop_back (waiters s)) by (by intros ?%elem_of_pop_back).
  assert (HA : ∀ a, (∀ w a', after_release a = WakeM w a' → w ≠ t) ∧ (∀ w all held, after_release a = WakeC w all held → w ≠ t)).
  { intros []; split; discriminate. }
  assert (HB : ∀ b, (∀ w a', after_notify b = WakeM w a' → w ≠ t) ∧ (∀ w all held, after_notify b = WakeC w all held → w ≠ t)).
  { intros []; split; discriminate. }
  unfold step, lock_step, unlock_step, wait_step, notify_step, block_current, resume, wake in E. destruct (pc s u) eqn:Ep; repeat case_match; simplify_eq;
    (eapply (forgotten_update s _ t u); [done|done|reflexivity|..];
      cbn [asleep waiters cwaiters goto set_locked set_waiters set_mlock set_cwaiters set_clock set_asleep set_woken];
      first [ exact (fg_queue _ _ F) | exact (fg_cqueue _ _ F) | exact (proj1 (HA _)) | exact (proj2 (HA _))
            | exact (proj1 (HB _)) | exact (proj2 (HB _)) | discriminate | reflexivity | exact Hpb
            | by rewrite fn_lookup_insert_ne by done
            | rewrite fn_lookup_insert_ne; [reflexivity|first [by eapply HW|by eapply HN]]
            | apply not_elem_of_app; split; [done|by rewrite list_elem_of_singleton]
            | by apply not_elem_of_cons in Hq as [? ?] | by apply not_elem_of_cons in Hc as [? ?]
            | intros ? ? [= -> ->]; by apply not_elem_of_cons in Hq as [? ?]
            | intros ? ? ? [= -> -> ->]; by apply not_elem_of_cons in Hc as [? ?] ]).
Qed.

(** Any number of further steps. *)
Definition later : St → St → Prop := rtc (λ s s', ∃ t c, step t c s = Some s').

Lemma forgotten_later s s' t : forgotten s t → later s s' → forgotten s' t.
Proof. intros F L. induction L as [|s s1 s' (u & c & E) _ IH]; [done|]. by apply IH, (forgotten_step s s1 t u c). Qed.

(** Threads 1 and 2 queue behind thread 0; thread 1 wins the second swap and takes the last
    entry off the queue, which is thread 2's. *)
Definition lost_run : list (N * option Call) :=
  [(0, Some CLock); (0, None);
   (1, Some CLock); (1, None); (1, None);
   (2, Some CLock); (2, None); (2, None); (2, None); (2, None);
   (0, Some CUnlock); (0, None);
   (1, None); (1, None);
   (0, None); (0, None);
   (1, Some CUnlock); (1, None); (1, None)].

(** A run moves only the threads it lists. *)
Lemma exec_pc l s s' t : exec l s = Some s' → t ∉ l.*1 → pc s' t = pc s t.
Proof.
  revert s. induction l as [|[u c] l IH]; intros s E Hn; [by injection E as <-|]. cbn [exec] in E.
  apply not_elem_of_cons in Hn as [Hu Hn]. destruct (step u c s) as [s1|] eqn:E1; [|done].
  rewrite (IH s1) by done. unfold step, lock_step, unlock_step, wait_step, notify_step, block_current, resume in E1.
  repeat case_match; simplify_eq; by apply fn_lookup_insert_ne.
Qed.

Lemma lost_end s : exec lost_run init = Some s →
  (locked s, waiters s, cwaiters s) = (false, [], []) ∧ asleep s 2 = true ∧ pc s 2 = Asleep ∧ ∀ t, t ≠ 2 → pc s t = Out.
Proof.
  intros E.
  assert (Hf : (λ s, (locked s, waiters s, cwaiters s, (asleep s 2, pc s 0, pc s 1, pc s 2))) <$> exec lost_run init =
    Some (false, [], [], (true, Out, Out, Asleep))) by (by vm_compute).
  rewrite E in Hf. injection Hf as -> -> -> -> H0 H1 ->. do 3 (split; [done|]). intros t Ht.
  destruct (decide (t ∈ lost_run.*1)) as [Hin|Hn]; [|by rewrite (exec_pc _ _ _ _ E Hn)].
  assert (Hc : t = 0 ∨ t = 1) by (clear -Hin Ht; cbn in Hin; set_solver). by destruct Hc as [-> | ->].
Qed.

(** On several harts [Mutex::lock] can lose a waiter.  There is a run of three threads
    after which the mutex is free, the two others are done with it, and the third sleeps in
    [lock] for ever: whatever any thread does afterwards, it is never woken.  (The branch
    after the second swap removes the last entry of the queue, which need not be its own;
    its comment calls the branch unreachable.) *)
Theorem mutex_lost_wakeup :
  ∃ s, mx_reach s ∧ locked s = false ∧ (∀ t, t ≠ 2 → pc s t = Out) ∧
    ∀ s', later s s' → pc s' 2 = Asleep ∧ asleep s' 2 = true.
Proof.
  destruct (exec lost_run init) as [s|] eqn:E; [|by vm_compute in E].
  destruct (lost_end s E) as ([= Hl Hw Hc] & Ha & Hp & Ho). exists s. split; [exact (exec_reach _ _ _ mx_start E)|].
  split; [exact Hl|]. split; [exact Ho|]. intros s' L.
  assert (Hn : ∀ u p, pc s u = p → p = Asleep ∨ p = Out) by (intros u p <-; destruct (decide (u = 2)) as [->|?]; auto).
  apply forgotten_later with (t := 2) in L as [H1 H2]; [done|]. split; rewrite ?Hw, ?Hc; [done|done|apply not_elem_of_nil..| |].
  - intros u w a [?|?]%Hn; discriminate.
  - intros u w all held [?|?]%Hn; discriminate.
Qed.
End mutex.
