(* ===== verification/SyncHart.v ===== *)
(** * The mutex on one hart

    On a single hart a thread that has disabled interrupts runs on until it enables them
    again.  Under this discipline the branch of [Mutex::lock] that [mutex_lost_wakeup]
    exploits is never taken, spin locks are always free when they are needed, and a waiter
    is never lost, as long as [notify_all] is not called; [notify_all] can stop the hart. *)

From Stdlib Require Import ZifyN ZifyNat.
From stdpp Require Import base gmap numbers functions list.
From S2P Require Import Prelude Sync SyncProps.
Import Mutex.

Section hart.
Local Open Scope N_scope.

(** The points between [irq_save] and [irq_restore]. *)
Definition irq_off (p : Pc) : bool :=
  match p with Out | Held | Block | Asleep | CvBlock | CvAsleep | DropC _ => false | _ => true end.

(** A step of the hart: another thread runs only while nobody has interrupts off. *)
Definition hart_step (t : N) (c : option Call) (s s' : St) : Prop :=
  (∀ u, u ≠ t → irq_off (pc s u) = false) ∧ step t c s = Some s'.

(** Where the wake-up of a waiting thread is: in a queue, in the hands of the thread that
    popped it, or given. *)
Inductive Ticket := NoT | InW | InC | FlyM | FlyC | Woke.
#[local] Instance ticket_dec : EqDecision Ticket.
Proof. solve_decision. Defined.

(** The tickets a thread can have at a point, asleep or not. *)
Definition allowed (p : Pc) (asl : bool) (k : Ticket) : bool :=
  match p, asl, k with
  | (Out | Lock1 | Push | Held | CvPush | Store Unlock | PopM Unlock | WakeM _ Unlock | PopC false _ | WakeC _ false _), false, NoT => true
  | Lock2, false, InW => true
  | (Store Wait | PopM Wait | WakeM _ Wait), false, InC => true
  | Block, false, (InW | FlyM | Woke) => true
  | Asleep, true, (InW | FlyM) => true
  | Asleep, false, Woke => true
  | CvBlock, false, (InC | FlyC | Woke) => true
  | CvAsleep, true, (InC | FlyC) => true
  | CvAsleep, false, Woke => true
  | _, _, _ => false
  end.

(** The threads a point is about to wake. *)
Definition wakes_m (p : Pc) : option N := match p with WakeM w _ => Some w | _ => None end.
Definition wakes_c (p : Pc) : option N := match p with WakeC w _ _ => Some w | _ => None end.
(** The points the failed first swap leads to. *)
Definition contends (p : Pc) : bool := match p with Push | Lock2 => true | _ => false end.
(** A thread that will try the lock, or pass it on, without being woken again. *)
Definition near (p : Pc) (k : Ticket) : bool :=
  match p, k with
  | (Lock1 | PopM _ | WakeM _ _), _ => true
  | (Block | Asleep), Woke => true
  | _, _ => false
  end.

Record hinv (s : St) (k : N → Ticket) : Prop := mkHinv {
  hi_one t u : irq_off (pc s t) = true → irq_off (pc s u) = true → t = u;
  hi_w t : t ∈ waiters s ↔ k t = InW;
  hi_c t : t ∈ cwaiters s ↔ k t = InC;
  hi_k t : woken s t = true ↔ k t = Woke;
  hi_nw : NoDup (waiters s);
  hi_nc : NoDup (cwaiters s);
  hi_loc t : allowed (pc s t) (asleep s t) (k t) = true;
  hi_fm w : k w = FlyM ↔ ∃ t, wakes_m (pc s t) = Some w;
  hi_fc w : k w = FlyC ↔ ∃ t, wakes_c (pc s t) = Some w;
  hi_m t : mlock s = Some t ↔ is_Some (wakes_m (pc s t));
  hi_cl t : clock s = Some t ↔ is_Some (wakes_c (pc s t));
  hi_lk t : contends (pc s t) = true → locked s = true;
  hi_near w : locked s = false → k w = InW → ∃ u, near (pc s u) (k u) = true
}.

Lemma hinv_init : hinv init (λ _, NoT).
Proof.
  split; cbn; try done; try (by intros ?; rewrite ?elem_of_nil); try apply NoDup_nil_2.
  all: intros w; split; [done|by intros [? ?]].
Qed.

(** The running thread is not about to be woken. *)
Lemma hinv_not_fly s k t :
  hinv s k → (∀ u, u ≠ t → irq_off (pc s u) = false) → k t ≠ FlyM ∧ k t ≠ FlyC.
Proof.
  intros I Hoff. pose proof (hi_loc _ _ I t) as Hl. split; intros Hk.
  - destruct (proj1 (hi_fm _ _ I t) Hk) as [u Hu]. destruct (decide (u = t)) as [->|Hne].
    + rewrite Hk in Hl. destruct (pc s t) as [| | | | | | | | |[]|[]|? []| | |[] ?|? [] ?|?], (asleep s t); done.
    + apply Hoff in Hne. by destruct (pc s u).
  - destruct (proj1 (hi_fc _ _ I t) Hk) as [u Hu]. destruct (decide (u = t)) as [->|Hne].
    + rewrite Hk in Hl. destruct (pc s t) as [| | | | | | | | |[]|[]|? []| | |[] ?|? [] ?|?], (asleep s t); done.
    + apply Hoff in Hne. by destruct (pc s u).
Qed.

(** No other thread is at a point of a kind that has interrupts off. *)
Lemma alone s t (Q : Pc → Prop) u :
  (∀ u, u ≠ t → irq_off (pc s u) = false) → (∀ p, Q p → irq_off p = true) → Q (pc s u) → u = t.
Proof. intros Hoff HQ Hu. destruct (decide (u = t)) as [|Hne]; [done|]. pose proof (HQ _ Hu) as H. by rewrite Hoff in H. Qed.

(** A step that concerns only the running thread: its point, its ticket, its queue entry. *)
Lemma hinv_own s s' k t p x :
  hinv s k → (∀ u, u ≠ t → irq_off (pc s u) = false) →
  pc s' = <[t := p]> (pc s) → x = k t ∨ x ≠ FlyM ∧ x ≠ FlyC →
  (∀ u, u ≠ t → asleep s' u = asleep s u ∧ woken s' u = woken s u ∧
    (u ∈ waiters s' ↔ u ∈ waiters s) ∧ (u ∈ cwaiters s' ↔ u ∈ cwaiters s)) →
  (t ∈ waiters s' ↔ x = InW) → (t ∈ cwaiters s' ↔ x = InC) → (woken s' t = true ↔ x = Woke) →
  NoDup (waiters s') → NoDup (cwaiters s') →
  mlock s' = mlock s → clock s' = clock s →
  wakes_m (pc s t) = None → wakes_c (pc s t) = None → wakes_m p = None → wakes_c p = None →
  allowed p (asleep s' t) x = true → (contends p = true → locked s' = true) →
  (locked s' = false → ∀ w, <[t := x]> k w = InW → near p x = true ∨
     (locked s = false ∧ near (pc s t) (k t) = false ∧ k w = InW)) →
  hinv s' (<[t := x]> k).
Proof.
  intros I Hoff Ep Hx Hu HW HC HK NW NC Em Ec P1 P2 P3 P4 Ha Hl Hn.
  destruct (hinv_not_fly s k t I Hoff) as [NF1 NF2].
  assert (Hx' : x ≠ FlyM ∧ x ≠ FlyC) by (destruct Hx as [->|?]; done).
  split; rewrite ?Ep, ?Em, ?Ec.
  - intros a b. fn_cases; try done; intros H1 H2; first [by rewrite (Hoff a) in H1 by done|by rewrite (Hoff b) in H2 by done].
  - intros u. fn_cases; [done|]. rewrite <-(hi_w _ _ I u). by apply Hu.
  - intros u. fn_cases; [done|]. rewrite <-(hi_c _ _ I u). by apply Hu.
  - intros u. fn_cases; [done|]. rewrite <-(hi_k _ _ I u). by destruct (Hu u ltac:(done)) as (_ & -> & _).
  - done.
  - done.
  - intros u. fn_cases; [done|]. destruct (Hu u ltac:(done)) as (-> & _). apply (hi_loc _ _ I).
  - intros w. transitivity (k w = FlyM); [fn_cases; naive_solver|]. rewrite (hi_fm _ _ I). split; intros [u H1]; exists u; revert H1; fn_cases; congruence.
  - intros w. transitivity (k w = FlyC); [fn_cases; naive_solver|]. rewrite (hi_fc _ _ I). split; intros [u H1]; exists u; revert H1; fn_cases; congruence.
  - intros u. rewrite (hi_m _ _ I). fn_cases; [|done]. by rewrite P1, P3.
  - intros u. rewrite (hi_cl _ _ I). fn_cases; [|done]. by rewrite P2, P4.
  - intros u. fn_cases; [done|]. intros H1. exfalso. assert (u = t); [|done].
    by apply (alone s t (λ p, contends p = true)); [|intros []|].
  - intros w H1 H2. destruct (Hn H1 w H2) as [H3|(H3 & H4 & H5)].
    + exists t. by rewrite !fn_lookup_insert.
    + destruct (hi_near _ _ I w H3 H5) as [u H6]. exists u. fn_cases; congruence.
Qed.

(** Case analysis on a program point and what qualifies it. *)
Ltac pc_cases p := destruct p as [| | | | | | | | |[]|[]|? []| | |[] ?|? [] ?|?].

(** No wake-up is in flight while a thread that is not delivering one has interrupts off. *)
Lemma hinv_idle s k t :
  hinv s k → (∀ u, u ≠ t → irq_off (pc s u) = false) → wakes_m (pc s t) = None → wakes_c (pc s t) = None →
  mlock s = None ∧ clock s = None ∧ (∀ u, k u ≠ FlyM) ∧ (∀ u, k u ≠ FlyC).
Proof.
  intros I Hoff Pm Pc.
  assert (Am : ∀ u, wakes_m (pc s u) = None).
  { intros u. destruct (decide (u = t)) as [->|Hne]; [done|]. specialize (Hoff u Hne). by destruct (pc s u). }
  assert (Ac : ∀ u, wakes_c (pc s u) = None).
  { intros u. destruct (decide (u = t)) as [->|Hne]; [done|]. specialize (Hoff u Hne). by destruct (pc s u). }
  split_and!.
  - destruct (mlock s) as [u|] eqn:E; [|done]. apply (hi_m _ _ I) in E as [? E]. by rewrite Am in E.
  - destruct (clock s) as [u|] eqn:E; [|done]. apply (hi_cl _ _ I) in E as [? E]. by rewrite Ac in E.
  - intros u [v E]%(hi_fm _ _ I). by rewrite Am in E.
  - intros u [v E]%(hi_fc _ _ I). by rewrite Ac in E.
Qed.

Lemma hinv_pop_m s k t a w q :
  hinv s k → (∀ u, u ≠ t → irq_off (pc s u) = false) → pc s t = PopM a → waiters s = w :: q →
  hinv (goto t (WakeM w a) (set_mlock (Some t) (set_waiters q s))) (<[w := FlyM]> k).
Proof.
  intros I Hoff Ep Eq. destruct (hinv_idle s k t I Hoff) as (Em & Ec & NF1 & NF2); [by rewrite Ep..|].
  pose proof (hi_loc _ _ I) as L. pose proof (L t) as Lt. rewrite Ep in Lt.
  assert (Hkw : k w = InW) by (apply (hi_w _ _ I); rewrite Eq; by left).
  assert (Hwt : w ≠ t) by (intros ->; rewrite Hkw in Lt; destruct a, (asleep s t); done).
  pose proof (hi_nw _ _ I) as Nw. rewrite Eq in Nw. apply NoDup_cons in Nw as [Hw Hq].
  split; cbn.
  - intros x y. fn_cases; try done; intros H1 H2; first [by rewrite (Hoff x) in H1 by done|by rewrite (Hoff y) in H2 by done].
  - intros u. pose proof (hi_w _ _ I u) as H. rewrite Eq, elem_of_cons in H. fn_cases; [done|]. rewrite <-H. naive_solver.
  - intros u. rewrite (hi_c _ _ I u). fn_cases; [|done]. by rewrite Hkw.
  - intros u. rewrite (hi_k _ _ I u). fn_cases; [|done]. by rewrite Hkw.
  - done.
  - apply (hi_nc _ _ I).
  - intros u. specialize (L u). pose proof (Hoff u) as H. fn_cases.
    + done.
    + rewrite Ep in L. by destruct a.
    + rewrite Hkw in L. specialize (H ltac:(done)). revert L H. pc_cases (pc s u); by destruct (asleep s u).
    + done.
  - intros u. split.
    + intros H. exists t. rewrite fn_lookup_insert. revert H. fn_cases; [done|]. by intros ?%NF1.
    + intros [v H]. revert H. fn_cases; try done; try (by intros [= ?]); intros H; destruct (NF1 u); apply (hi_fm _ _ I); eauto.
  - intros u. split.
    + intros H. exfalso. revert H. fn_cases; [done|]. apply NF2.
    + intros [v H]. revert H. fn_cases; try done; try (by intros [= ?]); intros H; destruct (NF2 u); apply (hi_fc _ _ I); eauto.
  - intros u. fn_cases; [done|]. split; [congruence|]. rewrite <-(hi_m _ _ I), Em. done.
  - intros u. rewrite (hi_cl _ _ I). fn_cases; [|done]. by rewrite Ep.
  - intros u. fn_cases; [done|]. apply (hi_lk _ _ I).
  - intros _ _ _. exists t. by rewrite fn_lookup_insert.
Qed.

(** Popping a waiter of the condition variable. *)
Lemma hinv_pop_c s k t held w q :
  hinv s k → (∀ u, u ≠ t → irq_off (pc s u) = false) → pc s t = PopC false held → cwaiters s = w :: q →
  hinv (goto t (WakeC w false held) (set_clock (Some t) (set_cwaiters q s))) (<[w := FlyC]> k).
Proof.
  intros I Hoff Ep Eq. destruct (hinv_idle s k t I Hoff) as (Em & Ec & NF1 & NF2); [by rewrite Ep..|].
  pose proof (hi_loc _ _ I) as L. pose proof (L t) as Lt. rewrite Ep in Lt.
  assert (Hkw : k w = InC) by (apply (hi_c _ _ I); rewrite Eq; by left).
  assert (Hwt : w ≠ t) by (intros ->; rewrite Hkw in Lt; destruct (asleep s t); done).
  pose proof (hi_nc _ _ I) as Nw. rewrite Eq in Nw. apply NoDup_cons in Nw as [Hw Hq].
  split; cbn.
  - intros x y. fn_cases; try done; intros H1 H2; first [by rewrite (Hoff x) in H1 by done|by rewrite (Hoff y) in H2 by done].
  - intros u. rewrite (hi_w _ _ I u). fn_cases; [|done]. by rewrite Hkw.
  - intros u. pose proof (hi_c _ _ I u) as H. rewrite Eq, elem_of_cons in H. fn_cases; [done|]. rewrite <-H. naive_solver.
  - intros u. rewrite (hi_k _ _ I u). fn_cases; [|done]. by rewrite Hkw.
  - apply (hi_nw _ _ I).
  - done.
  - intros u. specialize (L u). pose proof (Hoff u) as H. fn_cases.
    + done.
    + by rewrite Ep in L.
    + rewrite Hkw in L. specialize (H ltac:(done)). revert L H. pc_cases (pc s u); by destruct (asleep s u).
    + done.
  - intros u. split.
    + intros H. exfalso. revert H. fn_cases; [done|]. apply NF1.
    + intros [v H]. revert H. fn_cases; try done; try (by intros [= ?]); intros H; destruct (NF1 u); apply (hi_fm _ _ I); eauto.
  - intros u. split.
    + intros H. exists t. rewrite fn_lookup_insert. revert H. fn_cases; [done|]. by intros ?%NF2.
    + intros [v H]. revert H. fn_cases; try done; try (by intros [= ?]); intros H; destruct (NF2 u); apply (hi_fc _ _ I); eauto.
  - intros u. rewrite (hi_m _ _ I). fn_cases; [|done]. by rewrite Ep.
  - intros u. fn_cases; [done|]. split; [congruence|]. rewrite <-(hi_cl _ _ I), Ec. done.
  - intros u. fn_cases; [done|]. apply (hi_lk _ _ I).
  - intros u H1 H2. assert (H3 : k u = InW) by (revert H2; by fn_cases). destruct (hi_near _ _ I u H1 H3) as [v Hv].
    exists v. fn_cases; try done; revert Hv; rewrite ?Ep, ?Hkw; try done; by destruct (pc s v).
Qed.

(** Waking the popped thread; both releases end the same way. *)
Lemma hinv_wake s s' k t w p :
  hinv s k → (∀ u, u ≠ t → irq_off (pc s u) = false) → wakes_m (pc s t) = Some w ∨ wakes_c (pc s t) = Some w →
  pc s' = <[t := p]> (pc s) → irq_off p = false → allowed p (asleep s t) (k t) = true →
  locked s' = locked s → waiters s' = waiters s → cwaiters s' = cwaiters s → mlock s' = None → clock s' = None →
  asleep s' = <[w := false]> (asleep s) → woken s' = <[w := true]> (woken s) →
  hinv s' (<[w := Woke]> k).
Proof.
  intros I Hoff Hw Ep Hp Ha El Eq Eqc Em Ec Ea Ek.
  assert (Am : ∀ u, u ≠ t → wakes_m (pc s u) = None ∧ wakes_c (pc s u) = None).
  { intros u Hne. specialize (Hoff u Hne). by destruct (pc s u). }
  assert (Ap : wakes_m p = None ∧ wakes_c p = None ∧ contends p = false) by by destruct p.
  assert (Hk : k w = FlyM ∨ k w = FlyC) by (destruct Hw as [Hw|Hw]; [left; apply (hi_fm _ _ I)|right; apply (hi_fc _ _ I)]; eauto).
  assert (Hne : w ≠ t).
  { intros ->. pose proof (hi_loc _ _ I t) as L. revert L Hw. destruct Hk as [-> | ->]; pc_cases (pc s t); destruct (asleep s t); by intros ? [?|?]. }
  assert (Fm : ∀ u, u ≠ w → k u ≠ FlyM).
  { intros u Hu [v E]%(hi_fm _ _ I). destruct (decide (v = t)) as [->|Hv]; [|by rewrite (proj1 (Am v Hv)) in E].
    destruct Hw as [Hw|Hw]; [congruence|]. by destruct (pc s t). }
  assert (Fc : ∀ u, u ≠ w → k u ≠ FlyC).
  { intros u Hu [v E]%(hi_fc _ _ I). destruct (decide (v = t)) as [->|Hv]; [|by rewrite (proj2 (Am v Hv)) in E].
    destruct Hw as [Hw|Hw]; [|congruence]. by destruct (pc s t). }
  split; rewrite ?Ep, ?El, ?Eq, ?Eqc, ?Em, ?Ec, ?Ea, ?Ek.
  - intros x y. fn_cases; rewrite ?Hp, ?(Hoff x), ?(Hoff y) by done; done.
  - intros u. rewrite (hi_w _ _ I u). fn_cases; [|done]. by destruct Hk as [-> | ->].
  - intros u. rewrite (hi_c _ _ I u). fn_cases; [|done]. by destruct Hk as [-> | ->].
  - intros u. fn_cases; [done|]. apply (hi_k _ _ I).
  - apply (hi_nw _ _ I).
  - apply (hi_nc _ _ I).
  - intros u. pose proof (hi_loc _ _ I u) as L. fn_cases; try done. pose proof (Hoff u ltac:(done)) as Ho.
    revert Ho L. destruct Hk as [-> | ->]; pc_cases (pc s u); by destruct (asleep s u).
  - intros u. split; [intros H; exfalso; revert H; fn_cases; [done|by apply Fm]|].
    intros [v H]. exfalso. revert H. fn_cases; [by rewrite (proj1 Ap)|by rewrite (proj1 (Am v ltac:(done)))].
  - intros u. split; [intros H; exfalso; revert H; fn_cases; [done|by apply Fc]|].
    intros [v H]. exfalso. revert H. fn_cases; [by rewrite (proj1 (proj2 Ap))|by rewrite (proj2 (Am v ltac:(done)))].
  - intros u. split; [done|]. intros [v H]. exfalso. revert H. fn_cases; [by rewrite (proj1 Ap)|by rewrite (proj1 (Am u ltac:(done)))].
  - intros u. split; [done|]. intros [v H]. exfalso. revert H. fn_cases; [by rewrite (proj1 (proj2 Ap))|by rewrite (proj2 (Am u ltac:(done)))].
  - intros u. fn_cases; [by rewrite (proj2 (proj2 Ap))|apply (hi_lk _ _ I)].
  - intros u H1 H2. assert (H3 : k u = InW) by (revert H2; by fn_cases).
    destruct (hi_near _ _ I u H1 H3) as [v Hv]. destruct Hw as [Hw|Hw].
    + exists w. rewrite fn_lookup_insert_ne, fn_lookup_insert by done. pose proof (hi_loc _ _ I w) as L. rewrite (proj2 (hi_fm _ _ I w)) in L by eauto.
      pose proof (Hoff w ltac:(done)) as Ho. revert Ho L. pc_cases (pc s w); by destruct (asleep s w).
    + exists v. revert Hv Hw. fn_cases; try done; first [by destruct (pc s v)|by destruct (pc s v), (k v)].
Qed.

(** A step that moves the running thread and at most writes the lock word. *)
Lemma hinv_move s t p b k :
  hinv s k → (∀ u, u ≠ t → irq_off (pc s u) = false) →
  wakes_m (pc s t) = None → wakes_c (pc s t) = None → wakes_m p = None → wakes_c p = None →
  allowed p (asleep s t) (k t) = true → (contends p = true → b = true) →
  (b = false → near p (k t) = true ∨ (locked s = false ∧ near (pc s t) (k t) = false) ∨ waiters s = []) →
  ∃ k', hinv (goto t p (set_locked b s)) k'.
Proof.
  intros I Hoff P1 P2 P3 P4 Ha Hc Hn. exists (<[t := k t]> k).
  apply (hinv_own s _ k t p (k t)); try done; try (by left);
    [apply (hi_w _ _ I)|apply (hi_c _ _ I)|apply (hi_k _ _ I)|apply (hi_nw _ _ I)|apply (hi_nc _ _ I)|].
  intros H1 w H2. assert (Hw : k w = InW) by (revert H2; by fn_cases).
  destruct (Hn H1) as [?|[[? ?]|E]]; [by left|by right|]. apply (hi_w _ _ I) in Hw. rewrite E in Hw. by apply elem_of_nil in Hw.
Qed.

(** The other end of a wake-up: the running thread goes on to the lock. *)
Lemma hinv_consume s k t :
  hinv s k → (∀ u, u ≠ t → irq_off (pc s u) = false) →
  (match pc s t with Block | Asleep | CvBlock | CvAsleep => true | _ => false end) = true → k t = Woke → asleep s t = false →
  ∃ k', hinv (goto t Lock1 (set_woken t false s)) k'.
Proof.
  intros I Hoff Hp Hk Ha. exists (<[t := NoT]> k). apply (hinv_own s _ k t Lock1 NoT); try done.
  - right. done.
  - intros u Hu. cbn. by rewrite fn_lookup_insert_ne.
  - by rewrite (hi_w _ _ I), Hk.
  - by rewrite (hi_c _ _ I), Hk.
  - cbn. by rewrite fn_lookup_insert.
  - apply (hi_nw _ _ I).
  - apply (hi_nc _ _ I).
  - by destruct (pc s t).
  - by destruct (pc s t).
  - cbn. by rewrite Ha.
  - intros _ w _. by left.
Qed.

(** [block_current]: the thread takes its wake-up or goes to sleep. *)
Lemma hinv_block s k t q :
  hinv s k → (∀ u, u ≠ t → irq_off (pc s u) = false) →
  pc s t = Block ∧ q = Asleep ∨ pc s t = CvBlock ∧ q = CvAsleep →
  ∃ k', hinv (block_current t Lock1 q s) k'.
Proof.
  intros I Hoff Hp. pose proof (hi_loc _ _ I t) as L. unfold block_current.
  destruct (hinv_not_fly s k t I Hoff) as [N1 N2].
  destruct (woken s t) eqn:Ew.
  - apply (hi_k _ _ I) in Ew. apply (hinv_consume s k t); try done; destruct Hp as [[E _]|[E _]]; rewrite E, ?Ew in *;
      by destruct (asleep s t).
  - assert (Hk : k t ≠ Woke) by (intros H; apply (hi_k _ _ I) in H; congruence).
    exists (<[t := k t]> k). apply (hinv_own s _ k t q (k t)); try done; try (by left).
    + intros u Hu. cbn. by rewrite fn_lookup_insert_ne.
    + apply (hi_w _ _ I).
    + apply (hi_c _ _ I).
    + apply (hi_k _ _ I).
    + apply (hi_nw _ _ I).
    + apply (hi_nc _ _ I).
    + by destruct Hp as [[E _]|[E _]]; rewrite E.
    + by destruct Hp as [[E _]|[E _]]; rewrite E.
    + by destruct Hp as [[_ ->]|[_ ->]].
    + by destruct Hp as [[_ ->]|[_ ->]].
    + cbn. rewrite fn_lookup_insert. destruct Hp as [[E ->]|[E ->]]; rewrite E in L; by destruct (asleep s t), (k t).
    + by destruct Hp as [[_ ->]|[_ ->]].
    + intros H1 w H2. assert (Hw : k w = InW) by (revert H2; by fn_cases). right. split_and!; [done| |done].
      by destruct Hp as [[E _]|[E _]]; rewrite E; destruct (k t).
Qed.

(** Queueing behind the mutex, and on the condition variable. *)
Lemma hinv_push_m s k t :
  hinv s k → (∀ u, u ≠ t → irq_off (pc s u) = false) → pc s t = Push →
  hinv (goto t Lock2 (set_waiters (waiters s ++ [t]) s)) (<[t := InW]> k).
Proof.
  intros I Hoff Ep. pose proof (hi_loc _ _ I t) as L. rewrite Ep in L.
  destruct (asleep s t) eqn:Ea; [done|]. destruct (k t) eqn:Ek; try done.
  apply (hinv_own s _ k t Lock2 InW); try done; try (by rewrite Ep); cbn.
  - by right.
  - intros u Hu. rewrite elem_of_app, list_elem_of_singleton. naive_solver.
  - rewrite elem_of_app, list_elem_of_singleton. naive_solver.
  - by rewrite (hi_c _ _ I), Ek.
  - by rewrite (hi_k _ _ I), Ek.
  - apply NoDup_app. split_and!; [apply (hi_nw _ _ I)| |apply NoDup_singleton].
    intros u Hu%(hi_w _ _ I) ->%list_elem_of_singleton. congruence.
  - apply (hi_nc _ _ I).
  - by rewrite Ea.
  - intros _. apply (hi_lk _ _ I t). by rewrite Ep.
  - intros Hl. assert (locked s = true) by (apply (hi_lk _ _ I t); by rewrite Ep). congruence.
Qed.

Lemma hinv_push_c s k t :
  hinv s k → (∀ u, u ≠ t → irq_off (pc s u) = false) → pc s t = CvPush →
  hinv (goto t (Store Wait) (set_cwaiters (cwaiters s ++ [t]) s)) (<[t := InC]> k).
Proof.
  intros I Hoff Ep. pose proof (hi_loc _ _ I t) as L. rewrite Ep in L.
  destruct (asleep s t) eqn:Ea; [done|]. destruct (k t) eqn:Ek; try done.
  apply (hinv_own s _ k t (Store Wait) InC); try done; try (by rewrite Ep); cbn.
  - by right.
  - intros u Hu. rewrite elem_of_app, list_elem_of_singleton. naive_solver.
  - by rewrite (hi_w _ _ I), Ek.
  - rewrite elem_of_app, list_elem_of_singleton. naive_solver.
  - by rewrite (hi_k _ _ I), Ek.
  - apply (hi_nw _ _ I).
  - apply NoDup_app. split_and!; [apply (hi_nc _ _ I)| |apply NoDup_singleton].
    intros u Hu%(hi_c _ _ I) ->%list_elem_of_singleton. congruence.
  - by rewrite Ea.
  - intros Hl w Hw. right. split_and!; [done|by rewrite Ep|]. revert Hw. by fn_cases.
Qed.

Lemma hinv_step s s' k t c :
  hinv s k → hart_step t c s s' → c ≠ Some (CNotify true) → ∃ k', hinv s' k'.
Proof.
  intros I [Hoff E] Hc. pose proof (hi_loc _ _ I t) as L. unfold step, lock_step, unlock_step, wait_step, notify_step in E.
  assert (Move : ∀ p b, s' = goto t p (set_locked b s) → wakes_m (pc s t) = None → wakes_c (pc s t) = None →
    wakes_m p = None → wakes_c p = None → allowed p (asleep s t) (k t) = true → (contends p = true → b = true) →
    (b = false → near p (k t) = true ∨ (locked s = false ∧ near (pc s t) (k t) = false) ∨ waiters s = []) →
    ∃ k', hinv s' k') by (intros p b ->; intros; by apply (hinv_move s t p b k)).
  destruct (pc s t) as [| | | | | | | | |a|a|w a| | |all held|w all held|held] eqn:Ep.
  - destruct c as [[| | |[]]|]; try done; injection E as <-.
    + by apply (Move Lock1 (locked s)); auto.
    + by apply (Move (PopC false false) (locked s)); auto.
  - destruct (locked s) eqn:El; injection E as <-.
    + by apply (Move Push true); [destruct s; cbn in El; by subst|..].
    + by apply (Move Held true).
  - destruct (hinv_idle s k t I Hoff) as (Em & _); [by rewrite Ep..|]. rewrite Em in E. injection E as <-.
    eexists. by apply hinv_push_m.
  - rewrite (hi_lk _ _ I t) in E by (by rewrite Ep). injection E as <-.
    assert (El : locked s = true) by (apply (hi_lk _ _ I t); by rewrite Ep).
    apply (Move Block true); try done; [destruct s; cbn in El; by subst|]. by destruct (asleep s t), (k t).
  - by destruct (asleep s t), (k t).
  - injection E as <-. apply (hinv_block s k t Asleep); [done..|by left].
  - unfold resume in E. destruct (asleep s t) eqn:Ea; [done|]. injection E as <-.
    apply (hinv_consume s k t); try done; [by rewrite Ep|by destruct (k t)].
  - destruct c as [[| | |[]]|]; try done; injection E as <-.
    + by apply (Move (Store Unlock) (locked s)); auto.
    + by apply (Move CvPush (locked s)); auto.
    + by apply (Move (PopC false true) (locked s)); auto.
  - destruct (hinv_idle s k t I Hoff) as (_ & Ec & _); [by rewrite Ep..|]. rewrite Ec in E. injection E as <-.
    eexists. by apply hinv_push_c.
  - injection E as <-. apply (Move (PopM a) false); try done. by left.
  - destruct (hinv_idle s k t I Hoff) as (Em & _); [by rewrite Ep..|]. rewrite Em in E. cbn in E.
    destruct (waiters s) as [|w q] eqn:Eq; injection E as <-.
    + apply (Move (after_release a) (locked s)); try done; try (by destruct a); [by destruct a, (asleep s t), (k t)|].
      by right; right.
    + eexists. by apply hinv_pop_m.
  - injection E as <-. eexists. assert (Hw : wakes_m (pc s t) = Some w) by (by rewrite Ep).
    apply (hinv_wake s _ k t w (after_release a)); try done; [by left|by destruct a|by destruct a, (asleep s t), (k t)|].
    cbn. destruct (clock s) as [u|] eqn:Eu; [|done]. apply (hi_cl _ _ I) in Eu as Hu. destruct (decide (u = t)) as [->|Hne].
    + rewrite Ep in Hu. by destruct Hu.
    + specialize (Hoff u Hne). destruct Hu. by destruct (pc s u).
  - injection E as <-. apply (hinv_block s k t CvAsleep); [done..|by right].
  - unfold resume in E. destruct (asleep s t) eqn:Ea; [done|]. injection E as <-.
    apply (hinv_consume s k t); try done; [by rewrite Ep|by destruct (k t)].
  - destruct all; [by destruct (asleep s t), (k t)|].
    destruct (hinv_idle s k t I Hoff) as (_ & Ec & _); [by rewrite Ep..|]. rewrite Ec in E. cbn in E.
    destruct (cwaiters s) as [|w q] eqn:Eq; injection E as <-.
    + apply (Move (after_notify held) (locked s)); try done; try (by destruct held); auto.
    + eexists. by apply hinv_pop_c.
  - destruct all; [by destruct (asleep s t), (k t)|]. injection E as <-. eexists.
    assert (Hw : wakes_c (pc s t) = Some w) by (by rewrite Ep).
    apply (hinv_wake s _ k t w (after_notify held)); try done; [by right|by destruct held|by destruct held|].
    cbn. destruct (mlock s) as [u|] eqn:Eu; [|done]. apply (hi_m _ _ I) in Eu as Hu. destruct (decide (u = t)) as [->|Hne].
    + rewrite Ep in Hu. by destruct Hu.
    + specialize (Hoff u Hne). destruct Hu. by destruct (pc s u).
  - by destruct (asleep s t), (k t).
Qed.

(** Reachable on one hart; [notify_all] is called only when [all] holds. *)
Inductive hart_reach (all : bool) : St → Prop :=
| hr_start : hart_reach all init
| hr_step t c s s' : hart_reach all s → hart_step t c s s' → (c = Some (CNotify true) → all = true) → hart_reach all s'.

Lemma hinv_reach s : hart_reach false s → ∃ k, hinv s k.
Proof.
  induction 1 as [|t c s s' _ [k IH] E Hc]; [eexists; apply hinv_init|]. eapply hinv_step; [done..|]. intros ->. by specialize (Hc eq_refl).
Qed.

(** Thread [u] is on its way to the lock, or about to hand it on. *)
Definition active (s : St) (u : N) : bool :=
  match pc s u with
  | Lock1 | PopM _ | WakeM _ _ => true
  | Block => woken s u
  | Asleep => negb (asleep s u)
  | _ => false
  end.

Lemma near_active s k u : hinv s k → near (pc s u) (k u) = true → active s u = true.
Proof.
  intros I Hn. pose proof (hi_loc _ _ I u) as L. pose proof (hi_k _ _ I u) as K. unfold active. revert Hn L.
  destruct (pc s u) eqn:Ep, (k u) eqn:Ek; try done; intros _ L; first [by apply K|by destruct (asleep s u)].
Qed.

Lemma off_steps s k t : hinv s k → irq_off (pc s t) = true → ∃ s', hart_step t None s s'.
Proof.
  intros I Ht.
  assert (Hoff : ∀ u, u ≠ t → irq_off (pc s u) = false).
  { intros u Hu. destruct (irq_off (pc s u)) eqn:E; [|done]. by destruct Hu; apply (hi_one _ _ I). }
  enough (is_Some (step t None s)) as [s' E] by (exists s'; done).
  pose proof (hinv_idle s k t I Hoff) as Hi. pose proof (hi_loc _ _ I t) as L. unfold step, lock_step, unlock_step, wait_step, notify_step.
  destruct (pc s t) as [| | | | | | | | |a|a|w a| | |all held|w all held|held]; try done;
    try (destruct (Hi eq_refl eq_refl) as (Em & Ec & _); rewrite ?Em, ?Ec); cbn; repeat case_match; eauto; by destruct all, (asleep s t), (k t).
Qed.

(** C19: On a single hart, where a thread that has disabled interrupts runs on until it
    restores them, and as long as [notify_all] is not called: the branch of [Mutex::lock]
    after a successful second swap is never reached, as its comment says; a thread with
    interrupts disabled never spins, its next access always succeeds; a thread asleep in
    [lock] is in the queue of the mutex or in the hands of the thread that popped it, and
    one asleep in [wait] likewise; and while the mutex is free and somebody sleeps in
    [lock], some thread is awake and on its way to the lock or about to wake a waiter. *)
Theorem mutex_single_hart (s : St) :
  hart_reach false s →
  (∀ t, pc s t ≠ Undo) ∧
  (∀ t, irq_off (pc s t) = true → ∃ s', hart_step t None s s') ∧
  (∀ t, asleep s t = true →
     pc s t = Asleep ∧ (t ∈ waiters s ∨ ∃ u a, pc s u = WakeM t a) ∨
     pc s t = CvAsleep ∧ (t ∈ cwaiters s ∨ ∃ u held, pc s u = WakeC t false held)) ∧
  (locked s = false → ∀ t, pc s t = Asleep → ∃ u, active s u = true).
Proof.
  intros [k I]%hinv_reach. pose proof (hi_loc _ _ I) as L. split_and!.
  - intros t E. specialize (L t). rewrite E in L. by destruct (asleep s t), (k t).
  - intros t. by apply (off_steps s k).
  - intros t Ha. specialize (L t). rewrite Ha in L.
    destruct (pc s t) as [| | | | | | | | |[]|[]|? []| | |[] ?|? [] ?|?] eqn:Ep; try done; [left|right]; (split; [done|]); destruct (k t) eqn:Ek; try done.
    + left. by apply (hi_w _ _ I).
    + right. apply (hi_fm _ _ I) in Ek as [u Hu]. exists u. destruct (pc s u) as [| | | | | | | | |a|a|v a| | |? ?|v ? ?|?]; try done. injection Hu as ->. by exists a.
    + left. by apply (hi_c _ _ I).
    + right. apply (hi_fc _ _ I) in Ek as [u Hu]. exists u. pose proof (hi_loc _ _ I u) as Lu.
      destruct (pc s u) as [| | | | | | | | |a|a|v a| | |? ?|v all held|?]; try done. injection Hu as ->.
      destruct all; [by destruct (asleep s u), (k u)|]. by exists held.
  - intros Hl t Ep. pose proof (L t) as Lt. rewrite Ep in Lt. destruct (k t) eqn:Ek.
    + by destruct (asleep s t).
    + destruct (hi_near _ _ I t Hl Ek) as [u Hu]. exists u. by eapply near_active.
    + by destruct (asleep s t).
    + apply (hi_fm _ _ I) in Ek as [u Hu]. exists u. unfold active. by destruct (pc s u).
    + by destruct (asleep s t).
    + exists t. unfold active. rewrite Ep. by destruct (asleep s t).
Qed.

(** Runs on one hart of the threads [ts]. *)
Fixpoint hart_exec (all : bool) (ts : list N) (l : list (N * option Call)) (s : St) : option St :=
  match l with
  | [] => Some s
  | (t, c) :: l =>
      if forallb (λ u, (u =? t) || negb (irq_off (pc s u))) ts &&
         (all || match c with Some (CNotify true) => false | _ => true end) && existsb (N.eqb t) ts
      then s' ← step t c s; hart_exec all ts l s' else None
  end.

Lemma hart_exec_reach all ts l s s' :
  hart_reach all s → (∀ u, u ∉ ts → pc s u = Out) → hart_exec all ts l s = Some s' → hart_reach all s' ∧ ∀ u, u ∉ ts → pc s' u = Out.
Proof.
  revert s. induction l as [|[t c] l IH]; intros s Hr Ho E; [by injection E as <-|]. cbn [hart_exec] in E.
  case_match eqn:Ec; [|done]. apply andb_prop in Ec as [[Hf Hc]%andb_prop Hin].
  destruct (step t c s) as [s1|] eqn:E1; [|done]. apply existsb_exists in Hin as (t' & Ht & ->%N.eqb_eq).
  apply list_elem_of_In in Ht. apply (IH s1); [|intros u Hu|done].
  - apply (hr_step all t' c s s1); [done| |by intros ->; destruct all]. split; [|done]. intros u Hu. destruct (decide (u ∈ ts)) as [Hin|Hn].
    + rewrite forallb_forall in Hf. specialize (Hf u). rewrite <-list_elem_of_In in Hf. specialize (Hf Hin).
      apply N.eqb_neq in Hu. rewrite Hu in Hf. by destruct (irq_off (pc s u)).
    + by rewrite Ho.
  - rewrite (exec_pc [(t', c)] s s1 u); [by apply Ho|by cbn; rewrite E1|]. cbn. set_solver.
Qed.

(** Thread 0 has just released the mutex while thread 1 sleeps in its queue. *)
Definition release_run : list (N * option Call) := one_waits ++ [(0, Some CUnlock); (0, None)].

Lemma mutex_single_hart_witness :
  ∃ s, hart_reach false s ∧ locked s = false ∧ pc s 1 = Asleep ∧ ∃ u, active s u = true.
Proof.
  assert (Hf : (λ s, (locked s, pc s 1)) <$> hart_exec false [0; 1] release_run init = Some (false, Asleep)) by (vm_compute; reflexivity).
  destruct (hart_exec false [0; 1] release_run init) as [s|] eqn:E; [|discriminate Hf]. exists s.
  destruct (hart_exec_reach false [0; 1] release_run init s) as [Hr _]; [apply hr_start|done|exact E|].
  destruct (mutex_single_hart s Hr) as (_ & _ & _ & H). injection Hf as Hl Hp.
  split; [exact Hr|]. split; [exact Hl|]. split; [exact Hp|]. exact (H Hl 1 Hp).
Defined.

(** Thread 0 is preempted in [notify_all] after it restored the interrupts; thread 1 calls
    [notify_one]. *)
Definition stop_run : list (N * option Call) :=
  [(0, Some (CNotify true)); (0, None); (1, Some (CNotify false))].

(** [notify_all] can stop the hart.  It restores the interrupts while the guard of the
    queue is still alive; a thread that runs at that moment and notifies or waits on the
    same condition variable spins for the queue's lock with interrupts disabled, and no
    thread of the hart can make a step ever again. *)
Theorem notify_all_stops_hart :
  ∃ s, hart_reach true s ∧ pc s 0 = DropC false ∧ pc s 1 = PopC false false ∧ ∀ t c s', ¬ hart_step t c s s'.
Proof.
  assert (Hf : (λ s, (clock s, pc s 0, pc s 1)) <$> hart_exec true [0; 1] stop_run init = Some (Some 0, DropC false, PopC false false)) by (vm_compute; reflexivity).
  destruct (hart_exec true [0; 1] stop_run init) as [s|] eqn:E; [|discriminate Hf]. exists s.
  destruct (hart_exec_reach true [0; 1] stop_run init s) as [Hr _]; [apply hr_start|done|exact E|].
  injection Hf as Hc H0 H1. split; [exact Hr|]. split; [exact H0|]. split; [exact H1|].
  intros t c s' [Hoff Hs]. destruct (decide (t = 1)) as [->|Hne].
  - unfold step, lock_step, unlock_step, wait_step, notify_step in Hs. by rewrite H1, Hc in Hs.
  - specialize (Hoff 1 (not_eq_sym Hne)). by rewrite H1 in Hoff.
Qed.

End hart.
