(* ===== verification/Console.v ===== *)
(** * The kernel's console: kernel/src/uart.rs, logger.rs and the stack scan of panic.rs

    The driver of the NS16550 serial port with its console lock, the levelled log above it,
    and what the panic handler computes about the stack.  The device is a parameter: a read
    or a write of one of its registers is a function of its state.  Fences order the
    accesses, which here happen in the order of the code anyway. *)

From Stdlib Require Import ZifyN ZifyNat.
From stdpp Require Import base gmap numbers list.
From S2P Require Import Prelude Fdt.

(** ** uart.rs *)
Module Uart.
Section uart.

(** The registers of the device. *)
Context {D : Type} (read_u8 : N → D → N * D) (write_u8 : N → N → D → D).

(** The statics of the driver, the lock's flag and the interrupt flag of this hart. *)
Record Con := mkCon {
  uart_reg_base : N;
  console_lock : bool;
  panic_output : bool;
  tx_dropped : N;
  sie : bool;
  dev : D
}.

Definition set_base (v : N) (s : Con) : Con :=
  mkCon v (console_lock s) (panic_output s) (tx_dropped s) (sie s) (dev s).
Definition set_lock (b : bool) (s : Con) : Con :=
  mkCon (uart_reg_base s) b (panic_output s) (tx_dropped s) (sie s) (dev s).
Definition set_panic (b : bool) (s : Con) : Con :=
  mkCon (uart_reg_base s) (console_lock s) b (tx_dropped s) (sie s) (dev s).
Definition set_dropped (v : N) (s : Con) : Con :=
  mkCon (uart_reg_base s) (console_lock s) (panic_output s) v (sie s) (dev s).
Definition set_sie (b : bool) (s : Con) : Con :=
  mkCon (uart_reg_base s) (console_lock s) (panic_output s) (tx_dropped s) b (dev s).
Definition set_dev (d : D) (s : Con) : Con :=
  mkCon (uart_reg_base s) (console_lock s) (panic_output s) (tx_dropped s) (sie s) d.

Definition con0 (d : D) : Con := mkCon USIZE_MAX false false 0 false d.

Definition set_panic_output : M Con () := modify (set_panic true).

Section board.
Context (b : Board).

Definition base : M Con N :=
  v ← gets uart_reg_base;
  mret (if negb (v =? USIZE_MAX) then v else uart_base b).

Definition uart_dll : M Con N := a ← base; add_ a 0x00.
Definition uart_dlm : M Con N := a ← base; add_ a 0x01.
Definition uart_ier : M Con N := a ← base; add_ a 0x01.
Definition uart_fcr : M Con N := a ← base; add_ a 0x02.
Definition uart_lcr : M Con N := a ← base; add_ a 0x03.
Definition uart_mcr : M Con N := a ← base; add_ a 0x04.
Definition uart_lsr : M Con N := a ← base; add_ a 0x05.

Definition rd8 (addr : N) : M Con N :=
  d ← gets dev; let r := read_u8 addr d in modify (set_dev r.2);; mret r.1.
Definition wr8 (addr v : N) : M Con () := d ← gets dev; modify (set_dev (write_u8 addr v d)).

Definition is_transmit_empty : M Con bool :=
  a ← uart_lsr; lsr ← rd8 a; mret (negb (N.land lsr 0x20 =? 0)).

Definition BAUD_RATE : N := 115200.

Definition uart_divisor : N :=
  let clk := uart_clock b in
  if clk =? 0 then 0x0C
  else N.min (N.max (clk / (16 * BAUD_RATE)) 1) 0xFFFF.

Definition init_hw : M Con () :=
  let dll := uart_divisor in
  a ← uart_lcr; wr8 a 0x80;;
  a ← uart_dll; wr8 a (N.land dll 0xFF);;
  a ← uart_dlm; wr8 a (N.shiftr dll 8);;
  a ← uart_lcr; wr8 a 0x03;;
  a ← uart_ier; wr8 a 0x00;;
  a ← uart_fcr; wr8 a 0x07;;
  a ← uart_mcr; wr8 a 0x03.

Definition init : M Con () := modify (set_base (uart_base b));; init_hw.
Definition reinit : M Con () := modify (set_base (uart_base b));; init_hw.

Definition dropped : M Con N := gets tx_dropped.

Definition TX_WAIT_LIMIT : N := 0x10000.

(** The wait: [room] is [TX_WAIT_LIMIT - spins]. *)
Fixpoint tx_wait (room : nat) : M Con bool :=
  e ← is_transmit_empty;
  if e : bool then mret true
  else match room with
       | O => mret false
       | S room => tx_wait room
       end.

Definition putc (c : N) : M Con () :=
  ok ← tx_wait (N.to_nat TX_WAIT_LIMIT);
  if ok : bool then a ← base; wr8 a c
  else modify (λ s, set_dropped ((tx_dropped s + 1) mod USIZE_MOD) s).

Definition write_bytes_raw (bytes : list N) : M Con () :=
  for_each (λ c, (if c =? 10 then putc 13 else mret tt);; putc c) bytes.

(** [CONSOLE_LOCK.try_lock()] and the drop of its guard ([None]: there is none). *)
Definition try_lock : M Con (option bool) :=
  saved ← gets sie;
  modify (set_sie false);;
  taken ← gets console_lock;
  if taken : bool then (if saved : bool then modify (set_sie true) else mret tt);; mret None
  else modify (set_lock true);; mret (Some saved).
Definition drop_guard (g : option bool) : M Con () :=
  match g with
  | None => mret tt
  | Some saved =>
      modify (set_lock false);; (if saved : bool then modify (set_sie true) else mret tt)
  end.

Definition write_bytes (bytes : list N) : M Con () :=
  p ← gets panic_output;
  if p : bool then write_bytes_raw bytes
  else
    g ← try_lock;
    write_bytes_raw bytes;;
    drop_guard g.

Definition write_str (s : list N) : M Con () := write_bytes s.

(** A lock held elsewhere is waited for without end in this view of one hart. *)
Definition locked_line (f : M Con ()) : M Con () :=
  p ← gets panic_output;
  if p : bool then f
  else
    saved ← gets sie;
    modify (set_sie false);;
    taken ← gets console_lock;
    if taken : bool then timeout
    else
      modify (set_lock true);;
      f;;
      drop_guard (Some saved).

(** [fmt::Write for Writer]: a formatted message arrives in pieces. *)
Definition write_fmt (pieces : list (list N)) : M Con () := for_each write_str pieces.

End board.
End uart.
Arguments Con D : clear implicits.
Arguments mkCon {D}.
End Uart.

(** ** logger.rs *)
Module Logger.

Inductive Level := Error | Warn | Info | Debug | Trace.

Definition discr (l : Level) : N :=
  match l with Error => 0 | Warn => 1 | Info => 2 | Debug => 3 | Trace => 4 end.

(** "ERROR", "WARN ", "INFO ", "DEBUG", "TRACE". *)
Definition tag (l : Level) : list N :=
  match l with
  | Error => [69; 82; 82; 79; 82]
  | Warn => [87; 65; 82; 78; 32]
  | Info => [73; 78; 70; 79; 32]
  | Debug => [68; 69; 66; 85; 71]
  | Trace => [84; 82; 65; 67; 69]
  end.

Record Log := mkLog { log_level : N; tick_ : N }.
Definition log0 : Log := mkLog (discr Info) 0.

Definition set_level (l : Level) : M Log () := modify (λ s, mkLog (discr l) (tick_ s)).
Definition level (s : Log) : Level :=
  match log_level s with 0 => Error | 1 => Warn | 2 => Info | 3 => Debug | _ => Trace end.
Definition tick (s : Log) : N := tick_ s.
Definition tick_up : M Log () := modify (λ s, mkLog (log_level s) ((tick_ s + 1) mod USIZE_MOD)).

(** Decimal digits of a [u64], and [{:06}]. *)
Fixpoint digits (fuel : nat) (n : N) (acc : list N) : list N :=
  match fuel with
  | O => acc
  | S fuel => if n <? 10 then (48 + n) :: acc else digits fuel (n / 10) ((48 + n mod 10) :: acc)
  end.
Definition dec (n : N) : list N := digits 20 n [].
Definition pad6 (n : N) : list N := replicate (6 - length (dec n)) 48 ++ dec n.

(** The pieces of [writeln!("[{:06}] [{}] {}", tick, tag, args)]. *)
Definition line (t : N) (lvl : Level) (args : list (list N)) : list (list N) :=
  [[91]; pad6 t; [93; 32; 91]; tag lvl; [93; 32]] ++ args ++ [[10]].

Section log.
Context {D : Type} (read_u8 : N → D → N * D) (write_u8 : N → N → D → D) (b : Board).

(** The log reads its statics and writes to the console. *)
Definition log (lvl : Level) (args : list (list N)) : M (Log * Uart.Con D) () :=
  l ← gets fst;
  if discr (level l) <? discr lvl then mret tt
  else lift snd (λ c s, (s.1, c)) (Uart.write_fmt read_u8 write_u8 b (line (tick l) lvl args)).

End log.
End Logger.

(** ** panic.rs: which stack, and how deep it was used *)
Module Panic.

(** The linker's symbols. *)
Record Stacks := mkStacks {
  stack_bottom : N; stack_top : N;
  trap_stack_base : N; trap_stack_top : N;
  idle_stack_base : N; idle_stack_top : N
}.

(** riscv64.rs. *)
Definition TRAP_STRIDE : N := 32 * 1024.
Definition TRAP_GUARD : N := 16 * 1024.

(** [while slot < top]; [n] bounds the number of slots. *)
Fixpoint scan_slots (n : nat) (sp top slot : N) : option (N * N) :=
  match n with
  | O => None
  | S n =>
      if slot <? top then
        if (slot + TRAP_GUARD <=? sp) && (sp <? slot + TRAP_STRIDE)
        then Some (slot + TRAP_GUARD, slot + TRAP_STRIDE)
        else scan_slots n sp top (slot + TRAP_STRIDE)
      else None
  end.

Definition slots (base top : N) : nat := N.to_nat (div_ceil (top - base) TRAP_STRIDE).

Definition current_stack_bounds (k : Stacks) (sp : N) : option (N * N) :=
  if (stack_bottom k <=? sp) && (sp <? stack_top k) then Some (stack_bottom k, stack_top k)
  else
    match scan_slots (slots (trap_stack_base k) (trap_stack_top k)) sp (trap_stack_top k) (trap_stack_base k) with
    | Some r => Some r
    | None => scan_slots (slots (idle_stack_base k) (idle_stack_top k)) sp (idle_stack_top k) (idle_stack_base k)
    end.

(** [while probe < top]: [n] is [top - probe]; [mem] reads a byte. *)
Fixpoint probe_up (mem : N → N) (n : nat) (top probe : N) : N :=
  match n with
  | O => 0
  | S n => if negb (mem probe =? 0) then top - probe else probe_up mem n top (probe + 1)
  end.

Definition stack_watermark (k : Stacks) (mem : N → N) (sp : N) : option N :=
  match current_stack_bounds k sp with
  | Some (bottom, top) => Some (probe_up mem (N.to_nat (top - bottom)) top bottom)
  | None => None
  end.

End Panic.
