(* ===== verification/ConsoleProps.v ===== *)
(** * Properties of the console

    The serial port as its documentation describes it is an interface, [SerialPort]; the
    driver programs it as the comments of uart.rs say and loses no byte without counting
    it, and the log prints exactly the lines its level admits.  [Port] is a concrete port
    that meets the interface. *)

From Stdlib Require Import ZifyN ZifyNat.
From stdpp Require Import base gmap numbers list.
From S2P Require Import Prelude Fdt Console.

(** ** The interface of the device *)

(** The registers of a 16550, [DLL] and [DLM] behind bit 7 of [LCR]. *)
Record Regs := mkRegs { r_dll : N; r_dlm : N; r_ier : N; r_fcr : N; r_lcr : N; r_mcr : N }.
Definition dlab (r : Regs) : bool := N.testbit (r_lcr r) 7.

Definition reg_write (k v : N) (r : Regs) : Regs :=
  match k with
  | 0 => if dlab r then mkRegs v (r_dlm r) (r_ier r) (r_fcr r) (r_lcr r) (r_mcr r) else r
  | 1 => if dlab r then mkRegs (r_dll r) v (r_ier r) (r_fcr r) (r_lcr r) (r_mcr r)
         else mkRegs (r_dll r) (r_dlm r) v (r_fcr r) (r_lcr r) (r_mcr r)
  | 2 => mkRegs (r_dll r) (r_dlm r) (r_ier r) v (r_lcr r) (r_mcr r)
  | 3 => mkRegs (r_dll r) (r_dlm r) (r_ier r) (r_fcr r) v (r_mcr r)
  | 4 => mkRegs (r_dll r) (r_dlm r) (r_ier r) (r_fcr r) (r_lcr r) v
  | _ => r
  end.

(** A port at address [ba]: its registers, what it has sent, what it has received and
    nobody has read, and how many reads of the line status still find the transmitter
    busy. *)
Class SerialPort {D : Type} (rd : N → D → N * D) (wr : N → N → D → D) (ba : N) := {
  sp_regs : D → Regs;
  sp_out : D → list N;
  sp_rx : D → list N;
  sp_busy : D → N;
  sp_write_regs d k v : k < 5 → sp_regs (wr (ba + k) v d) = reg_write k v (sp_regs d);
  sp_write_ctl d k v : k < 5 → (k = 0 → dlab (sp_regs d) = true) → sp_out (wr (ba + k) v d) = sp_out d;
  sp_write_thr d v : dlab (sp_regs d) = false → sp_busy d = 0 →
    sp_out (wr ba v d) = sp_out d ++ [v] ∧ sp_rx (wr ba v d) = sp_rx d;
  sp_read_lsr d :
    (N.land (rd (ba + 5) d).1 0x20 = 0 ↔ sp_busy d ≠ 0) ∧ sp_regs (rd (ba + 5) d).2 = sp_regs d ∧
    sp_out (rd (ba + 5) d).2 = sp_out d ∧ sp_busy (rd (ba + 5) d).2 = N.pred (sp_busy d);
  sp_read_dr d : (N.land (rd (ba + 5) d).1 0x01 = 0 ↔ sp_rx d = []) ∧ sp_rx (rd (ba + 5) d).2 = sp_rx d;
  sp_read_rbr d c q : dlab (sp_regs d) = false → sp_rx d = c :: q →
    (rd ba d).1 = c ∧ sp_rx (rd ba d).2 = q ∧ sp_out (rd ba d).2 = sp_out d ∧ sp_regs (rd ba d).2 = sp_regs d
}.

(** A port that stays busy for [p_stall] reads after each byte. *)
Record Port := mkPort { p_regs : Regs; p_out : list N; p_rx : list N; p_busy : N; p_stall : N }.
Definition port_read (ba a : N) (p : Port) : N * Port :=
  if a =? ba + 5 then
    ((if p_busy p =? 0 then 0x60 else 0) + (match p_rx p with [] => 0 | _ => 1 end),
     mkPort (p_regs p) (p_out p) (p_rx p) (N.pred (p_busy p)) (p_stall p))
  else if (a =? ba) && negb (dlab (p_regs p)) then
    (default 0 (head (p_rx p)), mkPort (p_regs p) (p_out p) (tail (p_rx p)) (p_busy p) (p_stall p))
  else (0, p).
Definition port_write (ba a v : N) (p : Port) : Port :=
  if a =? ba then
    if dlab (p_regs p) then mkPort (reg_write 0 v (p_regs p)) (p_out p) (p_rx p) (p_busy p) (p_stall p)
    else mkPort (p_regs p) (p_out p ++ [v]) (p_rx p) (p_stall p) (p_stall p)
  else if (ba <=? a) && (a <? ba + 5) then
    mkPort (reg_write (a - ba) v (p_regs p)) (p_out p) (p_rx p) (p_busy p) (p_stall p)
  else p.

#[export] Program Instance port_serial (ba : N) : SerialPort (port_read ba) (port_write ba) ba := {
  sp_regs := p_regs; sp_out := p_out; sp_rx := p_rx; sp_busy := p_busy }.
Next Obligation.
  intros ba d k v Hk. unfold port_write. destruct (ba + k =? ba) eqn:E.
  - apply N.eqb_eq in E. replace k with 0 by lia. unfold reg_write. by destruct (dlab (p_regs d)).
  - apply N.eqb_neq in E. rewrite (proj2 (N.leb_le _ _)), (proj2 (N.ltb_lt _ _)) by lia. cbn [andb p_regs]. f_equal. lia.
Qed.
Next Obligation.
  intros ba d k v Hk H0. unfold port_write. destruct (ba + k =? ba) eqn:E.
  - apply N.eqb_eq in E. rewrite H0 by lia. done.
  - by destruct ((ba <=? ba + k) && (ba + k <? ba + 5)).
Qed.
Next Obligation. intros ba d v Hd Hb. unfold port_write. by rewrite N.eqb_refl, Hd. Qed.
Next Obligation.
  intros ba d. unfold port_read. rewrite N.eqb_refl. destruct (p_busy d =? 0) eqn:E; cbn.
  - apply N.eqb_eq in E. rewrite E. by destruct (p_rx d).
  - apply N.eqb_neq in E. by destruct (p_rx d).
Qed.
Next Obligation. intros ba d. unfold port_read. rewrite N.eqb_refl. by destruct (p_rx d), (p_busy d =? 0). Qed.
Next Obligation.
  intros ba d c q Hd Hq. unfold port_read. rewrite (proj2 (N.eqb_neq _ _)) by lia. by rewrite N.eqb_refl, Hd, Hq.
Qed.

(** ** The driver *)

(** The bytes the console sends for [bs]. *)
Definition crlf (bs : list N) : list N := bs ≫= λ c, if c =? 10 then [13; 10] else [c].

Section uart.
Import Uart.
Context {D : Type} {rd : N → D → N * D} {wr : N → N → D → D} {ba : N} `{P : !SerialPort rd wr ba}.
Context (b : Board).
Notation Con := (Uart.Con D).

(** The driver talks to the port at [ba]. *)
Record at_base (s : Con) : Prop := mkAt {
  at_ba : (if negb (uart_reg_base s =? USIZE_MAX) then uart_reg_base s else uart_base b) = ba;
  at_max : ba + 5 ≤ USIZE_MAX
}.

Lemma at_set_dev s d : at_base s → at_base (set_dev d s).
Proof. intros [H1 H2]. by split. Qed.

Lemma at_reg s k : at_base s → k ≤ 5 → (a ← base b; add_ a k) s = Ret (ba + k, s).
Proof.
  intros [H1 H2] Hk. assert (Hb : base b s = Ret (ba, s)) by (unfold base; rewrite bind_gets; unfold mret, M_ret; by rewrite H1).
  erewrite bind_ret by (by apply Hb). unfold add_.
  destruct (checked_add ba k) as [c|] eqn:E; [by apply checked_add_Some in E as [-> _]|apply checked_add_None in E; lia].
Qed.

Lemma empty_run s :
  at_base s →
  is_transmit_empty rd b s = Ret (negb (N.land (rd (ba + 5) (dev s)).1 0x20 =? 0), set_dev (rd (ba + 5) (dev s)).2 s).
Proof. intros Hs. unfold is_transmit_empty, uart_lsr. erewrite bind_ret by (by apply at_reg). done. Qed.

(** The wait succeeds when the port is ready within [room] reads after the first. *)
Lemma tx_wait_run room s :
  at_base s →
  ∃ d, tx_wait rd b room s = Ret (sp_busy (dev s) <=? N.of_nat room, set_dev d s) ∧ sp_regs d = sp_regs (dev s) ∧
    sp_out d = sp_out (dev s) ∧ (sp_busy (dev s) ≤ N.of_nat room → sp_busy d = 0).
Proof.
  revert s. induction room as [|room IH]; intros s Hs; destruct (sp_read_lsr (dev s)) as (L1 & L2 & L3 & L4); cbn [tx_wait];
    erewrite bind_ret by (by apply empty_run); destruct (N.land (rd (ba + 5) (dev s)).1 32 =? 0) eqn:E; cbn [negb].
  - apply N.eqb_eq, L1 in E. eexists. split; [rewrite (proj2 (N.leb_gt _ _)) by lia; done|]. split_and!; [done..|lia].
  - apply N.eqb_neq in E. assert (Hb : sp_busy (dev s) = 0) by (destruct (decide (sp_busy (dev s) = 0)); [done|by apply L1 in n]).
    eexists. split; [rewrite Hb; done|]. split_and!; [done..|intros _; rewrite L4, Hb; done].
  - apply N.eqb_eq, L1 in E. destruct (IH (set_dev (rd (ba + 5) (dev s)).2 s)) as (d & E1 & E2 & E3 & E4); [by apply at_set_dev|].
    exists d. cbn [dev set_dev] in *. rewrite E1, E2, E3, L2, L3, L4. split; [|split_and!; [done..|intros H; apply E4; lia]].
    f_equal. f_equal. apply Bool.eq_iff_eq_true. rewrite !N.leb_le. lia.
  - apply N.eqb_neq in E. assert (Hb : sp_busy (dev s) = 0) by (destruct (decide (sp_busy (dev s) = 0)); [done|by apply L1 in n]).
    eexists. split; [rewrite Hb; done|]. split_and!; [done..|intros _; rewrite L4, Hb; done].
Qed.

(** Everything but the port and the counter is as before. *)
Record kept (s s' : Con) : Prop := mkKept {
  kp_base : uart_reg_base s' = uart_reg_base s;
  kp_lock : console_lock s' = console_lock s;
  kp_panic : panic_output s' = panic_output s;
  kp_sie : sie s' = sie s;
  kp_regs : sp_regs (dev s') = sp_regs (dev s)
}.
#[local] Instance kept_preorder : PreOrder kept.
Proof. split; [by split|]. intros s1 s2 s3 [] []. split; congruence. Qed.

Lemma at_kept s s' : kept s s' → at_base s → at_base s'.
Proof. intros [] [H1 H2]. split; [by rewrite kp_base0|done]. Qed.

(** [s'] is [s] after an attempt to send [bs]: some of the bytes were sent, in order, and
    the others counted. *)
Definition accounted (bs : list N) (s s' : Con) : Prop :=
  ∃ sent, sent `sublist_of` bs ∧ sp_out (dev s') = sp_out (dev s) ++ sent ∧
    tx_dropped s' = (tx_dropped s + (vlen bs - vlen sent)) mod USIZE_MOD ∧
    ((∀ d, sp_busy d ≤ TX_WAIT_LIMIT) → sent = bs).

Lemma accounted_nil s : tx_dropped s < USIZE_MOD → accounted [] s s.
Proof. intros H. exists []. rewrite app_nil_r. split_and!; [done..| |done]. rewrite N.add_0_r. by rewrite N.mod_small. Qed.

Lemma accounted_app bs1 bs2 s s1 s2 : accounted bs1 s s1 → accounted bs2 s1 s2 → accounted (bs1 ++ bs2) s s2.
Proof.
  intros (n1 & H1 & O1 & D1 & A1) (n2 & H2 & O2 & D2 & A2). exists (n1 ++ n2). split_and!.
  - by apply sublist_app.
  - by rewrite O2, O1, app_assoc.
  - rewrite D2, D1, N.Div0.add_mod_idemp_l. f_equal. unfold vlen. rewrite !length_app.
    apply sublist_length in H1, H2. lia.
  - intros H. by rewrite A1, A2.
Qed.

Lemma accounted_lt bs s s' : accounted bs s s' → tx_dropped s' < USIZE_MOD.
Proof. intros (n & _ & _ & -> & _). by apply N.mod_lt. Qed.

Lemma putc_run c s :
  at_base s → dlab (sp_regs (dev s)) = false → tx_dropped s < USIZE_MOD →
  ∃ s', putc rd wr b c s = Ret (tt, s') ∧ kept s s' ∧ accounted [c] s s'.
Proof.
  intros Hs Hd Ht. unfold putc. destruct (tx_wait_run (N.to_nat TX_WAIT_LIMIT) s Hs) as (d & E & Er & Eo & Eb).
  erewrite bind_ret by (apply E). rewrite N2Nat.id in *. destruct (sp_busy (dev s) <=? TX_WAIT_LIMIT) eqn:El.
  - apply N.leb_le in El. eexists. split.
    { erewrite bind_ret; [unfold wr8; by rewrite bind_gets|]. unfold base. rewrite bind_gets. cbn [uart_reg_base set_dev].
      unfold mret, M_ret. by rewrite (at_ba _ Hs). }
    split; [split; try done; cbn [dev set_dev]|].
    + pose proof (sp_write_regs d 0 c) as R. rewrite N.add_0_r in R. rewrite R by lia. unfold reg_write. by rewrite Er, Hd.
    + exists [c]. cbn [dev set_dev tx_dropped]. rewrite (proj1 (sp_write_thr _ _ ltac:(by rewrite Er) ltac:(by apply Eb))), Eo. split_and!; [done..| |done].
      rewrite N.sub_diag, N.add_0_r. by rewrite N.mod_small.
  - apply N.leb_gt in El. eexists. split; [done|]. split; [split; try done|]. exists []. cbn. rewrite app_nil_r. split_and!.
    + apply sublist_nil_l.
    + done.
    + done.
    + intros H. specialize (H (dev s)). lia.
Qed.

Lemma raw_run bs s :
  at_base s → dlab (sp_regs (dev s)) = false → tx_dropped s < USIZE_MOD →
  ∃ s', write_bytes_raw rd wr b bs s = Ret (tt, s') ∧ kept s s' ∧ accounted (crlf bs) s s'.
Proof.
  revert s. induction bs as [|c bs IH]; intros s Hs Hd Ht; [exists s; split_and!; [done..|by apply accounted_nil]|].
  unfold write_bytes_raw. cbn [for_each].
  assert (H1 : ∃ s1, ((if c =? 10 then putc rd wr b 13 else mret tt);; putc rd wr b c) s = Ret (tt, s1) ∧ kept s s1 ∧
    accounted (if c =? 10 then [13; 10] else [c]) s s1).
  { destruct (c =? 10) eqn:Ec; [apply N.eqb_eq in Ec as ->|].
    - destruct (putc_run 13 s Hs Hd Ht) as (s1 & E1 & K1 & A1). destruct (putc_run 10 s1) as (s2 & E2 & K2 & A2);
        [by eapply at_kept|by rewrite (kp_regs _ _ K1)|by eapply accounted_lt|].
      exists s2. erewrite bind_ret by (apply E1). split; [done|]. split; [by etransitivity|]. exact (accounted_app [13] [10] s s1 s2 A1 A2).
    - by apply putc_run. }
  destruct H1 as (s1 & E1 & K1 & A1). destruct (IH s1) as (s2 & E2 & K2 & A2);
    [by eapply at_kept|by rewrite (kp_regs _ _ K1)|by eapply accounted_lt|].
  exists s2. erewrite bind_ret by (apply E1). split; [done|]. split; [by etransitivity|]. by eapply accounted_app.
Qed.

Lemma write_bytes_run bs s :
  at_base s → dlab (sp_regs (dev s)) = false → tx_dropped s < USIZE_MOD →
  ∃ s', write_bytes rd wr b bs s = Ret (tt, s') ∧ kept s s' ∧ accounted (crlf bs) s s'.
Proof.
  intros Hs Hd Ht. unfold write_bytes. rewrite bind_gets. destruct (panic_output s) eqn:Ep; [by apply raw_run|].
  unfold try_lock, drop_guard. destruct s as [rb lk pn dr si d]. cbn in Ep, Hd, Ht. subst pn. destruct lk.
  - destruct (raw_run bs (mkCon rb true false dr si d)) as (s1 & E & K & A); [done..|]. exists s1. split; [|done].
    destruct si; (erewrite bind_ret; [|reflexivity]); by (erewrite bind_ret by (apply E)).
  - destruct (raw_run bs (mkCon rb true false dr false d)) as (s1 & E & [K1 K2 K3 K4 K5] & A); [by destruct Hs|done..|].
    assert (Ei : ∀ x, x = si → (if x then modify (Uart.set_sie true) else mret tt) (set_lock false s1) = Ret (tt, Uart.set_sie si (set_lock false s1))).
    { intros [] <-; [done|]. cbn in K4. destruct s1. cbn in K4. by subst. }
    exists (Uart.set_sie si (set_lock false s1)). split; [|split].
    + erewrite bind_ret; [|destruct si; reflexivity]. erewrite bind_ret by (apply E). exact (Ei si eq_refl).
    + by split.
    + exact A.
Qed.

Lemma write_fmt_run pieces s :
  at_base s → dlab (sp_regs (dev s)) = false → tx_dropped s < USIZE_MOD →
  ∃ s', write_fmt rd wr b pieces s = Ret (tt, s') ∧ kept s s' ∧ accounted (crlf (concat pieces)) s s'.
Proof.
  revert s. induction pieces as [|x pieces IH]; intros s Hs Hd Ht; [exists s; split_and!; [done..|by apply accounted_nil]|].
  unfold write_fmt. cbn [for_each concat]. destruct (write_bytes_run x s Hs Hd Ht) as (s1 & E1 & K1 & A1).
  destruct (IH s1) as (s2 & E2 & K2 & A2); [by eapply at_kept|by rewrite (kp_regs _ _ K1)|by eapply accounted_lt|].
  exists s2. unfold write_str at 1. erewrite bind_ret by (apply E1). split; [done|]. split; [by etransitivity|].
  unfold crlf. rewrite bind_app. by eapply accounted_app.
Qed.

(** The console loses no byte silently.  Whatever the lock, the panic flag and the
    interrupt flag are, writing a string returns, leaves them and the port's set-up as they
    were, and has handed the transmitter a subsequence of the string, every line feed
    preceded by a carriage return; the counter of dropped bytes has grown by exactly the
    number of bytes that are missing, and none is missing when the transmitter is always
    ready within the poll limit. *)
Theorem console_accounts (bs : list N) (s : Con) :
  at_base s → dlab (sp_regs (dev s)) = false → tx_dropped s < USIZE_MOD →
  ∃ s', write_str rd wr b bs s = Ret (tt, s') ∧ kept s s' ∧ accounted (crlf bs) s s'.
Proof. apply write_bytes_run. Qed.

(** ** Initialisation *)

Lemma reg_bind {B} k (f : N → M Con B) s :
  at_base s → k ≤ 5 → ((a ← base b; add_ a k) ≫= f) s = f (ba + k) s.
Proof. intros Hs Hk. by erewrite bind_ret by (by apply at_reg). Qed.

Lemma wr_bind {B} k v (f : () → M Con B) s :
  at_base s → k ≤ 5 →
  ((a ← base b; add_ a k) ≫= (λ a, wr8 wr a v ≫= f)) s = f tt (set_dev (wr (ba + k) v (dev s)) s).
Proof. intros Hs Hk. rewrite reg_bind by done. by erewrite bind_ret by (unfold wr8; by rewrite bind_gets). Qed.

Lemma divisor_bounds : 1 ≤ uart_divisor b ≤ 0xFFFF.
Proof. unfold uart_divisor. destruct (uart_clock b =? 0); lia. Qed.

(** [uart::init] programs the port as the comments say, from any earlier set-up: 8N1
    with the divisor latch closed again, no interrupts, FIFOs on and cleared, RTS and DTR
    set, and the latch holds the two halves of the divisor, which is the reference clock
    over sixteen times the baud rate whenever that fits sixteen bits.  Nothing is sent
    while the latch is open, and later output goes to the address the board names. *)
Theorem uart_init_correct (s : Con) :
  uart_base b = ba → ba + 5 ≤ USIZE_MAX →
  ∃ s' dll dlm, init wr b s = Ret (tt, s') ∧ at_base s' ∧
    sp_regs (dev s') = mkRegs dll dlm 0 0x07 0x03 0x03 ∧
    dll < 256 ∧ dlm < 256 ∧ dll + 256 * dlm = uart_divisor b ∧
    (16 * BAUD_RATE ≤ uart_clock b < 16 * BAUD_RATE * 0x10000 →
       16 * BAUD_RATE * uart_divisor b ≤ uart_clock b < 16 * BAUD_RATE * (uart_divisor b + 1)) ∧
    sp_out (dev s') = sp_out (dev s) ∧ console_lock s' = console_lock s ∧ sie s' = sie s ∧ tx_dropped s' = tx_dropped s.
Proof.
  intros Hb Hm. pose proof divisor_bounds as Hdiv.
  set (s0 := set_base ba s). assert (Hs : at_base s0) by (split; [cbn; destruct (N.eqb_spec ba USIZE_MAX); [lia|done]|done]).
  set (d1 := wr (ba + 3) 0x80 (dev s)). set (d2 := wr (ba + 0) (N.land (uart_divisor b) 0xFF) d1).
  set (d3 := wr (ba + 1) (N.shiftr (uart_divisor b) 8) d2). set (d4 := wr (ba + 3) 0x03 d3).
  set (d5 := wr (ba + 1) 0 d4). set (d6 := wr (ba + 2) 0x07 d5). set (d7 := wr (ba + 4) 0x03 d6).
  assert (R1 : r_lcr (sp_regs d1) = 0x80) by (unfold d1; by rewrite sp_write_regs by lia).
  assert (D1 : dlab (sp_regs d1) = true) by (unfold dlab; by rewrite R1).
  assert (R2 : r_lcr (sp_regs d2) = 0x80 ∧ r_dll (sp_regs d2) = N.land (uart_divisor b) 0xFF).
  { unfold d2. rewrite sp_write_regs by lia. unfold reg_write. by rewrite D1. }
  assert (R7 : sp_regs d7 = mkRegs (N.land (uart_divisor b) 0xFF) (N.shiftr (uart_divisor b) 8) 0 0x07 0x03 0x03).
  { unfold d7, d6, d5, d4, d3. rewrite !sp_write_regs by lia. clear -R2. destruct (sp_regs d2) as [dll dlm ier fcr lcr mcr]. cbn in R2.
    destruct R2 as [-> ->]. reflexivity. }
  exists (set_dev d7 s0), (N.land (uart_divisor b) 0xFF), (N.shiftr (uart_divisor b) 8).
  split_and!; try done.
  - unfold init. rewrite bind_modify, Hb. fold s0. unfold init_hw, uart_lcr, uart_dll, uart_dlm, uart_ier, uart_fcr, uart_mcr.
    do 6 (rewrite wr_bind by (done || by repeat apply at_set_dev); cbv beta). rewrite reg_bind by (done || by repeat apply at_set_dev).
    unfold wr8. by rewrite bind_gets.
  - by apply at_set_dev.
  - change 0xFF with (N.ones 8). rewrite N.land_ones. by apply N.mod_lt.
  - rewrite N.shiftr_div_pow2. apply N.Div0.div_lt_upper_bound. lia.
  - change 0xFF with (N.ones 8). rewrite N.land_ones, N.shiftr_div_pow2. pose proof (N.div_mod (uart_divisor b) (2 ^ 8) ltac:(done)). lia.
  - unfold uart_divisor. intros [H1 H2]. destruct (uart_clock b =? 0) eqn:E; [apply N.eqb_eq in E; rewrite E in H1; unfold BAUD_RATE in H1; lia|].
    unfold BAUD_RATE in *. clear - H1 H2. dlia.
  - cbn [dev set_dev]. unfold d7, d6, d5, d4, d3. rewrite !sp_write_ctl by (lia || done). unfold d2. rewrite sp_write_ctl by (lia || done).
    unfold d1. by rewrite sp_write_ctl by (lia || done).
Qed.

End uart.

(** Three bytes through a port that is busy for two reads after each. *)
Definition port0 : Port := mkPort (mkRegs 2 0 0 7 3 3) [] [] 0 2.
Definition con_port : Uart.Con Port := Uart.mkCon 0x10000000 false false 0 true port0.

Lemma console_accounts_witness :
  ∃ s', Uart.write_str (port_read 0x10000000) (port_write 0x10000000) board0 [104; 105; 10] con_port = Ret (tt, s') ∧
    kept (P := port_serial 0x10000000) con_port s' ∧ accounted (P := port_serial 0x10000000) [104; 105; 13; 10] con_port s'.
Proof. apply (console_accounts (P := port_serial 0x10000000) board0 [104; 105; 10] con_port); [by split|by vm_compute|by vm_compute]. Defined.

(** From a port in an arbitrary state, at the default address. *)
Definition port_junk : Port := mkPort (mkRegs 17 4 15 0 0x83 0) [] [] 5 0.

Lemma uart_init_correct_witness :
  ∃ s' dll dlm, Uart.init (port_write DEFAULT_UART_BASE) board0 (Uart.con0 port_junk) = Ret (tt, s') ∧
    p_regs (Uart.dev s') = mkRegs dll dlm 0 0x07 0x03 0x03 ∧ dll + 256 * dlm = Uart.uart_divisor board0.
Proof.
  destruct (uart_init_correct (rd := port_read DEFAULT_UART_BASE) (wr := port_write DEFAULT_UART_BASE) (ba := DEFAULT_UART_BASE)
    board0 (Uart.con0 port_junk)) as (s' & dll & dlm & H1 & _ & H2 & _ & _ & H3 & _); [reflexivity|by vm_compute|].
  exists s', dll, dlm. split; [exact H1|]. split; [exact H2|exact H3].
Defined.

(** ** The log *)
Section log.
Import Logger.
Context {D : Type} {rd : N → D → N * D} {wr : N → N → D → D} {ba : N} `{P : !SerialPort rd wr ba}.
Context (b : Board).

Lemma level_set l s : ∃ s', set_level l s = Ret (tt, s') ∧ level s' = l ∧ tick s' = tick s.
Proof. eexists. split; [done|]. by destruct l. Qed.

(** A message is printed, on one line behind the tick and the level, exactly when its level
    is admitted. *)
Lemma log_run lvl args l c :
  at_base (ba := ba) b c → dlab (sp_regs (Uart.dev c)) = false → Uart.tx_dropped c < USIZE_MOD →
  ∃ c', log rd wr b lvl args (l, c) = Ret (tt, (l, c')) ∧
    if discr lvl <=? discr (level l) then kept c c' ∧ accounted (crlf (concat (line (tick l) lvl args))) c c' else c' = c.
Proof.
  intros Hs Hd Ht. unfold log. rewrite bind_gets. cbn [fst]. rewrite N.leb_antisym. destruct (discr (level l) <? discr lvl); cbn [negb].
  - by exists c.
  - destruct (write_fmt_run b (line (tick l) lvl args) c Hs Hd Ht) as (c' & E & K & A). exists c'. split; [|done].
    unfold lift. cbn [snd]. by rewrite E.
Qed.

End log.

(** ** The stack scan of the panic handler *)
Section panic.
Import Panic.

Lemma scan_slots_Some n sp top slot r :
  scan_slots n sp top slot = Some r →
  ∃ i, r = (slot + i * TRAP_STRIDE + TRAP_GUARD, slot + i * TRAP_STRIDE + TRAP_STRIDE) ∧
    slot + i * TRAP_STRIDE < top ∧ r.1 ≤ sp < r.2.
Proof.
  revert slot. induction n as [|n IH]; intros slot E; [done|]. cbn [scan_slots] in E.
  destruct (N.ltb_spec slot top); [|done]. destruct ((slot + TRAP_GUARD <=? sp) && (sp <? slot + TRAP_STRIDE)) eqn:Ec.
  - apply andb_prop in Ec as [H1%N.leb_le H2%N.ltb_lt]. injection E as <-. exists 0. cbn [fst snd].
    rewrite N.mul_0_l, N.add_0_r. done.
  - destruct (IH _ E) as (i & -> & H1 & H2). exists (i + 1). cbn [fst snd] in *. split; [f_equal; lia|lia].
Qed.

Lemma scan_slots_None n sp top slot i :
  scan_slots n sp top slot = None → (top - slot ≤ N.of_nat n * TRAP_STRIDE) → slot + i * TRAP_STRIDE < top →
  ¬ (slot + i * TRAP_STRIDE + TRAP_GUARD ≤ sp < slot + i * TRAP_STRIDE + TRAP_STRIDE).
Proof.
  revert slot i. induction n as [|n IH]; intros slot i E Hn Hi; [lia|]. cbn [scan_slots] in E.
  destruct (N.ltb_spec slot top); [|lia]. destruct ((slot + TRAP_GUARD <=? sp) && (sp <? slot + TRAP_STRIDE)) eqn:Ec; [done|].
  destruct (decide (i = 0)) as [->|Hne].
  - apply andb_false_iff in Ec as [H1%N.leb_gt|H1%N.ltb_ge]; lia.
  - assert (Ei : slot + i * TRAP_STRIDE = slot + TRAP_STRIDE + (i - 1) * TRAP_STRIDE).
    { unfold TRAP_STRIDE. change (32 * 1024) with 32768. lia. }
    rewrite Ei in *. apply (IH _ _ E); lia.
Qed.

(** The areas the handler knows: the boot stack and the upper halves of the slots. *)
Definition known_stack (k : Stacks) (lo hi : N) : Prop :=
  (lo = stack_bottom k ∧ hi = stack_top k) ∨
  (∃ base top i, ((base, top) = (trap_stack_base k, trap_stack_top k) ∨ (base, top) = (idle_stack_base k, idle_stack_top k)) ∧
     base + i * TRAP_STRIDE < top ∧ lo = base + i * TRAP_STRIDE + TRAP_GUARD ∧ hi = base + i * TRAP_STRIDE + TRAP_STRIDE).

(** The bounds are those of a known stack around [sp], and there is none when the scan
    finds none. *)
Lemma current_stack_bounds_spec k sp :
  match current_stack_bounds k sp with
  | Some (lo, hi) => known_stack k lo hi ∧ lo ≤ sp < hi
  | None => ∀ lo hi, known_stack k lo hi → ¬ (lo ≤ sp < hi)
  end.
Proof.
  assert (Hn : ∀ base top, top - base ≤ N.of_nat (slots base top) * TRAP_STRIDE).
  { intros base top. unfold slots, div_ceil, TRAP_STRIDE. rewrite N2Nat.id. change (32 * 1024) with 32768. dlia. }
  unfold current_stack_bounds. destruct ((stack_bottom k <=? sp) && (sp <? stack_top k)) eqn:E0.
  { apply andb_prop in E0 as [H1%N.leb_le H2%N.ltb_lt]. split; [by left|done]. }
  destruct (scan_slots _ _ (trap_stack_top k) _) as [[lo hi]|] eqn:E1.
  { apply scan_slots_Some in E1 as (i & [= -> ->] & H1 & H2). split; [|done]. right. eexists _, _, i. split; [by left|]. done. }
  destruct (scan_slots _ _ (idle_stack_top k) _) as [[lo hi]|] eqn:E2.
  { apply scan_slots_Some in E2 as (i & [= -> ->] & H1 & H2). split; [|done]. right. eexists _, _, i. split; [by right|]. done. }
  intros lo hi [[-> ->]|(base & top & i & [[= -> ->]|[= -> ->]] & H1 & -> & ->)].
  - apply andb_false_iff in E0 as [H1%N.leb_gt|H1%N.ltb_ge]; lia.
  - by apply (scan_slots_None _ _ _ _ i E1).
  - by apply (scan_slots_None _ _ _ _ i E2).
Qed.

Lemma probe_up_spec mem n top probe :
  probe + N.of_nat n = top →
  let w := probe_up mem n top probe in
  w ≤ N.of_nat n ∧ (∀ a, probe ≤ a < top - w → mem a = 0) ∧ (w ≠ 0 → mem (top - w) ≠ 0).
Proof.
  revert probe. induction n as [|n IH]; intros probe Ht; cbn [probe_up]; [split_and!; [lia..|done]|].
  destruct (N.eqb_spec (mem probe) 0) as [E|E]; cbn [negb].
  - destruct (IH (probe + 1) ltac:(lia)) as (H1 & H2 & H3). split_and!; [lia| |done].
    intros a Ha. destruct (decide (a = probe)) as [->|?]; [done|]. apply H2. lia.
  - split_and!; [lia|intros a Ha; lia|]. intros _. by replace (top - (top - probe)) with probe by lia.
Qed.

(** The watermark is the distance from the top of the stack to its lowest byte in use. *)
Lemma stack_watermark_spec k mem sp w :
  stack_watermark k mem sp = Some w →
  ∃ lo hi, known_stack k lo hi ∧ lo ≤ sp < hi ∧ w ≤ hi - lo ∧ (∀ a, lo ≤ a < hi - w → mem a = 0) ∧ (w ≠ 0 → mem (hi - w) ≠ 0).
Proof.
  unfold stack_watermark. pose proof (current_stack_bounds_spec k sp) as B. destruct (current_stack_bounds k sp) as [[lo hi]|]; [|done].
  intros [= <-]. destruct B as [B1 B2]. exists lo, hi. destruct (probe_up_spec mem (N.to_nat (hi - lo)) hi lo) as (H1 & H2 & H3); [lia|].
  rewrite N2Nat.id in H1. done.
Qed.

End panic.
