(* ===== verification/UartProps.v ===== *)
(** * Properties of the console server

    The server is verified against an interface, [ServerPort]: a machine whose memory has
    the shared page and the registers of a serial port.  A process of the kernel model with
    both mapped is such a machine, and [hello] runs on it. *)

From Stdlib Require Import ZifyN ZifyNat.
From stdpp Require Import base gmap numbers functions list.
From S2P Require Import Prelude Mem PageAlloc Mmu Pte MmuTree MmuSpec Objects Elf ElfMem.
From S2P Require Import MmuProps ObjProps User Servers UserSys UserMem Console ConsoleProps.
Import UartServer.

(** ** The interface *)
Class ServerPort {W : Type} (m : Machine W) := {
  us_ok : W → Prop;
  us_out : W → list N;
  us_rx : W → list N;
  us_shm : W → list N;
  us_busy : W → N;
  us_len w : us_ok w → length (us_shm w) = N.to_nat SHM_LEN;
  us_lsr w : us_ok w → ∃ l w', m_load m (UART_MMIO_VA + LSR) w = Some (l, w') ∧ us_ok w' ∧
    (N.land l LSR_THRE = 0 ↔ us_busy w ≠ 0) ∧ (N.land l LSR_DR = 0 ↔ us_rx w = []) ∧
    us_out w' = us_out w ∧ us_rx w' = us_rx w ∧ us_shm w' = us_shm w ∧ us_busy w' = N.pred (us_busy w);
  us_thr w c : us_ok w → us_busy w = 0 → ∃ w', m_store m (UART_MMIO_VA + RBR_THR) c w = Some w' ∧ us_ok w' ∧
    us_out w' = us_out w ++ [c] ∧ us_rx w' = us_rx w ∧ us_shm w' = us_shm w;
  us_rbr w c q : us_ok w → us_rx w = c :: q → ∃ w', m_load m (UART_MMIO_VA + RBR_THR) w = Some (c, w') ∧ us_ok w' ∧
    us_rx w' = q ∧ us_out w' = us_out w ∧ us_shm w' = us_shm w;
  us_get w i c : us_ok w → vget (us_shm w) i = Some c → m_load m (SHM_VA + i) w = Some (c, w);
  us_set w i c : us_ok w → i < SHM_LEN → c < 256 → ∃ w', m_store m (SHM_VA + i) c w = Some w' ∧ us_ok w' ∧
    us_shm w' = vset (us_shm w) i c ∧ us_out w' = us_out w ∧ us_rx w' = us_rx w
}.

Section server.
Context {W : Type} (m : Machine W) `{P : !ServerPort m} (fuel : nat).

(** The poll ends when the port is ready before the fuel is used up. *)
Lemma tx_raw_run n w c :
  us_ok w → us_busy w < N.of_nat n →
  ∃ w', run m (uart_tx_raw n c) w = Ret (Returned tt, w') ∧ us_ok w' ∧
    us_out w' = us_out w ++ [c] ∧ us_rx w' = us_rx w ∧ us_shm w' = us_shm w.
Proof.
  revert w. induction n as [|n IH]; intros w Hok Hb; [lia|]. cbn [uart_tx_raw].
  destruct (us_lsr w Hok) as (l & w1 & E1 & O1 & B1 & _ & F1 & F2 & F3 & F4).
  rewrite (run_bind _ _ _ _ l w1) by (by apply run_load). destruct (N.land l LSR_THRE =? 0) eqn:E; cbn [negb].
  - apply N.eqb_eq, B1 in E. destruct (IH w1) as (w' & R & Ok1 & G1 & G2 & G3); [done|lia|].
    exists w'. split_and!; [done..| | |]; congruence.
  - apply N.eqb_neq in E. assert (us_busy w = 0) by (destruct (decide (us_busy w = 0)) as [|Hn]; [done|by apply B1 in Hn]).
    destruct (us_thr w1 c O1) as (w' & R & Ok1 & G1 & G2 & G3); [lia|].
    exists w'. split_and!; [by apply run_store|done|congruence..].
Qed.

(** Without a ready transmitter the server never returns from the poll. *)
Lemma tx_raw_spins n w c :
  us_ok w → N.of_nat n ≤ us_busy w → ∃ w', run m (uart_tx_raw n c) w = Ret (Spinning, w').
Proof.
  revert w. induction n as [|n IH]; intros w Hok Hb; [by exists w|]. cbn [uart_tx_raw].
  destruct (us_lsr w Hok) as (l & w1 & E1 & O1 & B1 & _ & F1 & F2 & F3 & F4).
  rewrite (run_bind _ _ _ _ l w1) by (by apply run_load). rewrite (proj2 (N.eqb_eq _ _)) by (apply B1; lia). cbn [negb].
  apply IH; [done|lia].
Qed.

Context (Hfuel : ∀ w, us_ok w → us_busy w < N.of_nat fuel).

Lemma tx_run w c :
  us_ok w →
  ∃ w', run m (uart_tx fuel c) w = Ret (Returned tt, w') ∧ us_ok w' ∧
    us_out w' = us_out w ++ crlf [c] ∧ us_rx w' = us_rx w ∧ us_shm w' = us_shm w.
Proof.
  intros Hok. unfold uart_tx, crlf. cbn [mbind list_bind]. rewrite app_nil_r. destruct (c =? 10) eqn:Ec.
  - apply N.eqb_eq in Ec as ->. destruct (tx_raw_run fuel w 13 Hok (Hfuel w Hok)) as (w1 & R1 & O1 & F1 & F2 & F3).
    destruct (tx_raw_run fuel w1 10 O1 (Hfuel w1 O1)) as (w2 & R2 & O2 & G1 & G2 & G3).
    exists w2. split_and!; [rewrite (run_bind _ _ _ _ tt w1) by done; done|done|by rewrite G1, F1, <-app_assoc|congruence..].
  - destruct (tx_raw_run fuel w c Hok (Hfuel w Hok)) as (w1 & R1 & O1 & F1 & F2 & F3).
    exists w1. split_and!; [rewrite (run_bind _ _ _ _ tt w) by done; done|done..].
Qed.

(** The loop of [OP_WRITE] from byte [a] on. *)
Lemma write_loop_run n a w :
  us_ok w → a + N.of_nat n ≤ SHM_LEN →
  ∃ w', run m (ufor (λ i, b ← uload (SHM_VA + i); uart_tx fuel b) (nrange a n)) w = Ret (Returned tt, w') ∧ us_ok w' ∧
    us_out w' = us_out w ++ crlf (take n (drop (N.to_nat a) (us_shm w))) ∧ us_rx w' = us_rx w ∧ us_shm w' = us_shm w.
Proof.
  revert a w. induction n as [|n IH]; intros a w Hok Ha; [exists w; cbn [take]; rewrite app_nil_r; done|].
  cbn [nrange ufor]. pose proof (us_len w Hok) as Hl. destruct (vget_lt_Some (us_shm w) a) as [c Hc]; [unfold vlen; lia|].
  destruct (tx_run w c Hok) as (w1 & R1 & O1 & F1 & F2 & F3). destruct (IH (a + 1) w1 O1) as (w2 & R2 & O2 & G1 & G2 & G3); [lia|].
  exists w2. split_and!; [|done| |congruence..].
  - rewrite (run_bind _ _ _ _ tt w1); [done|]. rewrite (run_bind _ _ _ _ c w); [done|]. apply run_load. by apply us_get.
  - rewrite vget_lookup in Hc. rewrite (drop_S _ _ _ Hc). cbn [take]. rewrite G1, F1, F3.
    replace (N.to_nat (a + 1)) with (S (N.to_nat a)) by lia. rewrite <-app_assoc. unfold crlf. by rewrite <-bind_app.
Qed.

Lemma ready_run w :
  us_ok w →
  ∃ w', run m uart_rx_ready w = Ret (Returned (bool_decide (us_rx w ≠ [])), w') ∧ us_ok w' ∧
    us_out w' = us_out w ∧ us_rx w' = us_rx w ∧ us_shm w' = us_shm w.
Proof.
  intros Hok. destruct (us_lsr w Hok) as (l & w1 & E1 & O1 & _ & B1 & F1 & F2 & F3 & _). exists w1. split_and!; [|done..].
  unfold uart_rx_ready. rewrite (run_bind _ _ _ _ l w1) by (by apply run_load). cbn. f_equal. f_equal. f_equal.
  apply Bool.eq_iff_eq_true. rewrite bool_decide_eq_true. destruct (N.eqb_spec (N.land l LSR_DR) 0) as [E|E]; cbn [negb]; [|naive_solver].
  apply B1 in E. naive_solver.
Qed.

(** The loop of [OP_READ] with [n] bytes in the page and room for [room] more. *)
Lemma read_loop_run room n w :
  us_ok w → n + N.of_nat room ≤ SHM_LEN → Forall (λ c, c < 256) (us_rx w) →
  ∃ w', run m (read_loop n room) w = Ret (Returned (n + N.of_nat (length (take room (us_rx w)))), w') ∧ us_ok w' ∧
    us_rx w' = drop room (us_rx w) ∧ us_out w' = us_out w ∧
    us_shm w' = take (N.to_nat n) (us_shm w) ++ take room (us_rx w) ++
      drop (N.to_nat n + length (take room (us_rx w))) (us_shm w).
Proof.
  revert n w. induction room as [|room IH]; intros n w Hok Hn Hc.
  { exists w. rewrite take_0. cbn [length app]. rewrite N.add_0_r, Nat.add_0_r, take_drop. done. }
  cbn [read_loop]. destruct (ready_run w Hok) as (w1 & R1 & O1 & F1 & F2 & F3). rewrite (run_bind _ _ _ _ _ w1) by done.
  destruct (us_rx w) as [|c q] eqn:Eq.
  - exists w1. rewrite firstn_nil. cbn [length app]. rewrite N.add_0_r, Nat.add_0_r, take_drop. split_and!; done.
  - rewrite bool_decide_true by done. destruct (us_rbr w1 c q O1 F2) as (w2 & R2 & O2 & G1 & G2 & G3).
    apply Forall_cons in Hc as [Hc Hq]. destruct (us_set w2 n c O2) as (w3 & R3 & O3 & K1 & K2 & K3); [lia|done|].
    pose proof (us_len w Hok) as Hl.
    destruct (IH (n + 1) w3 O3) as (w' & R & Ok1 & L1 & L2 & L3); [lia|by rewrite K3, G1|].
    rewrite K3, G1 in *. exists w'. split_and!; [|done|done|congruence|].
    + rewrite (run_bind _ _ _ _ c w2) by (by apply run_load). rewrite (run_bind _ _ _ _ tt w3) by (by apply run_store).
      rewrite R. cbn [take length]. do 3 f_equal. lia.
    + rewrite L3, K1, G3, F3. unfold vset. cbn [take length]. replace (N.to_nat (n + 1)) with (S (N.to_nat n)) by lia.
      rewrite (proj2 (N.ltb_lt _ _)) by (unfold vlen; lia).
      rewrite (take_S_r _ _ c) by (apply list_lookup_insert_eq; lia). rewrite take_insert_ge by lia.
      rewrite <-app_assoc. cbn [app]. do 2 f_equal. f_equal. rewrite drop_insert_lt by lia. f_equal. lia.
Qed.

End server.

(** ** The request handler *)

(** What an exchange does to the port and the shared page. *)
Definition uart_effect {W} {m : Machine W} `{!ServerPort m} (op arg : N) (w w' : W) (status n : N) : Prop :=
  if op =? OP_WRITE then
    status = 0 ∧ n = N.min arg SHM_LEN ∧ us_out w' = us_out w ++ crlf (take (N.to_nat n) (us_shm w)) ∧
    us_rx w' = us_rx w ∧ us_shm w' = us_shm w
  else if op =? OP_READ then
    status = 0 ∧ n = N.min (N.min arg SHM_LEN) (vlen (us_rx w)) ∧ us_out w' = us_out w ∧
    us_rx w' = drop (N.to_nat n) (us_rx w) ∧
    us_shm w' = take (N.to_nat n) (us_rx w) ++ drop (N.to_nat n) (us_shm w)
  else status = (if op =? OP_PING then 0 else PROTO_ERR) ∧ n = 0 ∧ w' = w.

Section handler.
Context {W : Type} (m : Machine W) `{P : !ServerPort m} (fuel : nat).

Lemma handle_run op arg w :
  us_ok w → (∀ w, us_ok w → us_busy w < N.of_nat fuel) → Forall (λ c, c < 256) (us_rx w) →
  ∃ w' status n, run m (handle fuel op arg) w = Ret (Returned (status, n), w') ∧ us_ok w' ∧ uart_effect op arg w w' status n.
Proof.
  intros Hok Hf Hc. unfold handle, uart_effect. destruct (op =? OP_WRITE).
  { destruct (write_loop_run m fuel Hf (N.to_nat (N.min arg SHM_LEN)) 0 w) as (w' & R & Ok1 & F1 & F2 & F3); [done|lia|].
    exists w', 0, (N.min arg SHM_LEN). split_and!; [|done..]. by rewrite (run_bind _ _ _ _ tt w'). }
  destruct (op =? OP_READ).
  { destruct (read_loop_run m (N.to_nat (N.min arg SHM_LEN)) 0 w) as (w' & R & Ok1 & F1 & F2 & F3); [done|lia|done|].
    assert (El : length (take (N.to_nat (N.min arg SHM_LEN)) (us_rx w)) = N.to_nat (N.min (N.min arg SHM_LEN) (vlen (us_rx w))))
      by (rewrite length_take; unfold vlen; lia).
    exists w', 0, (N.min (N.min arg SHM_LEN) (vlen (us_rx w))). split_and!; try done.
    - rewrite (run_bind _ _ _ _ _ w') by done. cbn. do 3 f_equal. rewrite El. f_equal. lia.
    - rewrite F1. unfold vlen. destruct (decide (length (us_rx w) ≤ N.to_nat (N.min arg SHM_LEN))%nat).
      + by rewrite !drop_ge by lia.
      + f_equal. lia.
    - rewrite F3, El. change (N.to_nat 0) with O. rewrite take_0. cbn [app Nat.add]. f_equal. unfold vlen.
      destruct (decide (length (us_rx w) ≤ N.to_nat (N.min arg SHM_LEN))%nat).
      + by rewrite !take_ge by lia.
      + f_equal. lia. }
  destruct (op =? OP_PING); by eexists w, _, 0.
Qed.

(** C27: The console server serves every request.  Provided the transmitter gets ready
    within the poll, [OP_WRITE] sends the bytes of the shared page in order, every line
    feed behind a carriage return, and answers their number; [OP_READ] moves the bytes
    waiting at the receiver, as many as fit, to the start of the page and leaves the rest
    of both alone; [OP_PING] and unknown requests touch nothing.  A length larger than the
    page is cut to the page. *)
Theorem uart_server_correct (op arg : N) (w : W) :
  us_ok w → (∀ w, us_ok w → us_busy w < N.of_nat fuel) → Forall (λ c, c < 256) (us_rx w) →
  ∃ w' status n, run m (handle fuel op arg) w = Ret (Returned (status, n), w') ∧ us_ok w' ∧ uart_effect op arg w w' status n.
Proof. apply handle_run. Qed.

End handler.

(** ** A process with the page and the port mapped *)
Section world.
Context {D : Type} (rd : N → D → N * D) (wr : N → N → D → D) (ba : N) `{P : !SerialPort rd wr ba}.

(** The kernel model with the port behind the addresses [ba .. ba + 7]. *)
Definition at_port (pa : N) : bool := (ba <=? pa) && (pa <? ba + 8).
#[export] Instance serial_world : World (Net * D) := {|
  net := fst; put_net w t := (w, t.2);
  mmio_load pa t := if at_port pa then let r := rd pa t.2 in Some (r.1, (t.1, r.2)) else None;
  mmio_store pa b t := if at_port pa then Some (t.1, wr pa b t.2) else None |}.

Context `{PageAllocator G} (g : G) (uart pid root shm : N) (peer : N → M (Net * D) ()).
Context (Hba : ba mod 4096 = 0) (Hphys : ba < PHYS_LIMIT) (Hshm : shm + 4096 ≤ ba ∨ ba + 8 ≤ shm).
Notation mach := (user_machine uart peer pid).

Record mapped (t : Net * D) : Prop := mkMapped {
  mp_root : pid_root pid (n_k t.1) = Some root;
  mp_wf : pt_wf g (k_mem (n_k t.1)) root;
  mp_shm : window root SHM_VA shm (k_mem (n_k t.1));
  mp_dev : window root UART_MMIO_VA ba (k_mem (n_k t.1));
  mp_live : live g shm;
  mp_tbl : no_table (k_mem (n_k t.1)) root shm;
  mp_dlab : dlab (sp_regs t.2) = false
}.

Definition page_bytes (w : Net) : list N :=
  (λ i, read_byte (shm + i) (ram (k_mem (n_k w)))) <$> nrange 0 (N.to_nat SHM_LEN).

Lemma dev_pa t k write : mapped t → k < 8 → proc_pa pid (UART_MMIO_VA + k) write t.1 = Some (ba + k) ∧ at_port (ba + k) = true.
Proof.
  intros M Hk. split.
  - unfold proc_pa. rewrite (mp_root _ M). cbn [mbind option_bind]. destruct (mp_dev _ M) as (H1 & H2 & H3).
    apply user_pa_mapped; try done. lia.
  - unfold at_port. apply andb_true_intro. split; [apply N.leb_le|apply N.ltb_lt]; lia.
Qed.

Lemma shm_pa t i write : mapped t → i < SHM_LEN → proc_pa pid (SHM_VA + i) write t.1 = Some (shm + i) ∧ at_port (shm + i) = false.
Proof.
  intros M Hi. change SHM_LEN with 4096 in Hi. split.
  - unfold proc_pa. rewrite (mp_root _ M). cbn [mbind option_bind].
    by apply (window_pa g _ _ _ shm); [apply M|apply M|apply M|].
  - unfold at_port. apply andb_false_iff. rewrite N.leb_gt, N.ltb_ge. lia.
Qed.

Lemma mach_load va pa t :
  proc_pa pid va false t.1 = Some pa →
  m_load mach va t = Some (if at_port pa then ((rd pa t.2).1, (t.1, (rd pa t.2).2))
                           else (read_byte pa (ram (k_mem (n_k t.1))), t)).
Proof.
  intros E. change (m_load mach va t) with ((λ pa, pa_load pa t) <$> proc_pa pid va false t.1). rewrite E.
  cbn [fmap option_fmap option_map]. unfold pa_load. cbn [mmio_load serial_world]. by destruct (at_port pa).
Qed.

Lemma mach_store va pa c t :
  proc_pa pid va true t.1 = Some pa →
  m_store mach va c t = Some (if at_port pa then (t.1, wr pa c t.2) else (upd_ram (write_byte pa c) t.1, t.2)).
Proof.
  intros E. change (m_store mach va c t) with ((λ pa, pa_store pa c t) <$> proc_pa pid va true t.1). rewrite E.
  cbn [fmap option_fmap option_map]. unfold pa_store. cbn [mmio_store serial_world]. by destruct (at_port pa).
Qed.

(** A step of the port alone. *)
Lemma mapped_dev t d : mapped t → sp_regs d = sp_regs t.2 → mapped (t.1, d).
Proof. intros [] E. split; try done. cbn [snd]. by rewrite E. Qed.

(** A byte stored in the shared page. *)
Lemma mapped_byte t i c :
  mapped t → i < SHM_LEN → c < 256 →
  let t' := (upd_ram (write_byte (shm + i) c) t.1, t.2) in mapped t' ∧ page_bytes t'.1 = vset (page_bytes t.1) i c.
Proof.
  intros M Hi Hc t'. pose proof M as [Hr W [Hs1 Hs2] [Hd1 Hd2] Hl Ht Hb].
  assert (K : pokes g (k_mem (n_k t.1)) (k_mem (n_k t'.1)) shm) by (apply pokes_byte; [apply W|done|done]).
  destruct (poke_space g _ _ root shm W K Ht) as (W' & T' & Wk). split.
  - split; [done|done|..|done| |done].
    + by split; [rewrite Wk|].
    + by split; [rewrite Wk|].
    + intros q Hq. rewrite T' by done. by apply Ht.
  - assert (Hv : ∀ u, vlen (page_bytes u) = SHM_LEN) by (intros u; unfold vlen, page_bytes; rewrite length_fmap, length_nrange; lia).
    apply list_eq. intros j. rewrite <-(Nat2N.id j), <-!vget_lookup. rewrite vget_vset, Hv.
    unfold page_bytes. rewrite !vget_nrange. destruct (N.of_nat j <? SHM_LEN) eqn:Ej; bool_to_prop.
    + subst t'. cbn [fst]. change (ram (k_mem (n_k (upd_ram ?f t.1)))) with (f (ram (k_mem (n_k t.1)))).
      rewrite read_write_byte by done. repeat case_decide; try done; lia.
    + rewrite decide_False; [done|lia].
Qed.

#[export, refine] Instance mapped_port : ServerPort mach := {|
  us_ok := mapped; us_out t := sp_out t.2; us_rx t := sp_rx t.2; us_busy t := sp_busy t.2; us_shm t := page_bytes t.1 |}.
Proof.
  - intros t M. unfold page_bytes. by rewrite length_fmap, length_nrange.
  - intros t M. destruct (dev_pa t LSR false M) as [E1 E2]; [done|]. rewrite (mach_load _ _ _ E1), E2.
    destruct (sp_read_lsr t.2) as (L1 & L2 & L3 & L4). destruct (sp_read_dr t.2) as (L5 & L6).
    eexists _, _. split; [done|]. change LSR with 5. cbn [fst snd].
    exact (conj (mapped_dev _ _ M L2) (conj L1 (conj L5 (conj L3 (conj L6 (conj eq_refl L4)))))).
  - intros t c M Hb. destruct (dev_pa t RBR_THR true M) as [E1 E2]; [done|]. rewrite (mach_store _ _ _ _ E1), E2.
    change RBR_THR with 0. rewrite N.add_0_r. destruct (sp_write_thr t.2 c (mp_dlab _ M) Hb) as [L1 L2].
    pose proof (sp_write_regs t.2 0 c ltac:(done)) as R. rewrite N.add_0_r in R. unfold reg_write in R. rewrite (mp_dlab _ M) in R.
    exact (ex_intro _ _ (conj eq_refl (conj (mapped_dev _ _ M R) (conj L1 (conj L2 eq_refl))))).
  - intros t c q M Hq. destruct (dev_pa t RBR_THR false M) as [E1 E2]; [done|]. rewrite (mach_load _ _ _ E1), E2.
    change RBR_THR with 0. rewrite N.add_0_r. destruct (sp_read_rbr t.2 c q (mp_dlab _ M) Hq) as (-> & L2 & L3 & L4).
    exact (ex_intro _ _ (conj eq_refl (conj (mapped_dev _ _ M L4) (conj L2 (conj L3 eq_refl))))).
  - intros t i c M Hc. pose proof (vget_Some_lt _ _ _ Hc) as Hi. unfold vlen, page_bytes in Hi. rewrite length_fmap, length_nrange in Hi.
    destruct (shm_pa t i false M) as [E1 E2]; [lia|]. rewrite (mach_load _ _ _ E1), E2. f_equal. f_equal.
    unfold page_bytes in Hc. rewrite vget_nrange, (proj2 (N.ltb_lt _ _)) in Hc by lia. by injection Hc as ->.
  - intros t i c M Hi Hc. destruct (shm_pa t i true M) as [E1 E2]; [done|]. rewrite (mach_store _ _ _ _ E1), E2.
    destruct (mapped_byte t i c M Hi Hc) as [M' B']. eexists. split; [done|]. done.
Defined.

End world.

(** ** Closed instances *)

(** A machine with nothing but the page and the port. *)
Definition bench_load (va : N) (w : list N * Port) : option (N * (list N * Port)) :=
  if (SHM_VA <=? va) && (va <? SHM_VA + SHM_LEN) then Some (default 0 (vget w.1 (va - SHM_VA)), w)
  else if (UART_MMIO_VA <=? va) && (va <? UART_MMIO_VA + 8) then
    let r := port_read UART_MMIO_VA va w.2 in Some (r.1, (w.1, r.2))
  else None.
Definition bench_store (va c : N) (w : list N * Port) : option (list N * Port) :=
  if (SHM_VA <=? va) && (va <? SHM_VA + SHM_LEN) then Some (vset w.1 (va - SHM_VA) c, w.2)
  else if (UART_MMIO_VA <=? va) && (va <? UART_MMIO_VA + 8) then Some (w.1, port_write UART_MMIO_VA va c w.2)
  else None.
Definition bench : Machine (list N * Port) :=
  mkMachine (λ _ _, timeout) bench_load bench_store (λ _ _, None) (λ _ _ _, None).

Definition bench_ok (w : list N * Port) : Prop :=
  length w.1 = N.to_nat SHM_LEN ∧ dlab (p_regs w.2) = false ∧ p_busy w.2 ≤ 2 ∧ p_stall w.2 ≤ 2.

Lemma bench_shm i : i < SHM_LEN → (SHM_VA <=? SHM_VA + i) && (SHM_VA + i <? SHM_VA + SHM_LEN) = true.
Proof. intros Hi. apply andb_true_intro. split; [apply N.leb_le|apply N.ltb_lt]; lia. Qed.

#[export, refine] Instance bench_port : ServerPort bench := {|
  us_ok := bench_ok; us_out w := p_out w.2; us_rx w := p_rx w.2; us_busy w := p_busy w.2; us_shm w := w.1 |}.
Proof.
  - by intros w [? _].
  - intros [sh d] (H1 & H2 & H3 & H4). destruct (sp_read_lsr (ba := UART_MMIO_VA) d) as (L1 & L2 & L3 & L4).
    destruct (sp_read_dr (ba := UART_MMIO_VA) d) as (L5 & L6).
    eexists _, (sh, (port_read UART_MMIO_VA (UART_MMIO_VA + 5) d).2). split; [reflexivity|]. cbn [snd fst] in *.
    split; [|done]. split_and!; [done|exact (eq_trans (f_equal dlab L2) H2)| |done].
    pose proof (L4 : p_busy _ = N.pred (p_busy d)) as L. cbn [snd]. rewrite L. lia.
  - intros [sh d] c (H1 & H2 & H3 & H4) Hb. cbn [snd fst] in *. exists (sh, port_write UART_MMIO_VA UART_MMIO_VA c d).
    split; [reflexivity|]. unfold port_write. rewrite N.eqb_refl, H2. by split_and!.
  - intros [sh d] c q (H1 & H2 & H3 & H4) Hq. cbn [snd fst] in *. destruct d as [rg out rx b st]. cbn in *. subst rx.
    eexists (sh, mkPort rg out q b st). split; [unfold bench_load, port_read; cbn; by rewrite H2|done].
  - intros [sh d] i c (H1 & _) Hc. pose proof (vget_Some_lt _ _ _ Hc) as Hi. cbn [fst] in *. unfold vlen in Hi. cbn [m_load bench].
    unfold bench_load. rewrite bench_shm by lia. cbn [fst]. replace (SHM_VA + i - SHM_VA) with i by lia. by rewrite Hc.
  - intros [sh d] i c (H1 & H2 & H3 & H4) Hi Hc. cbn [fst snd] in *. exists (vset sh i c, d). cbn [m_store bench]. unfold bench_store.
    rewrite bench_shm by done. cbn [fst snd]. replace (SHM_VA + i - SHM_VA) with i by lia. split; [done|]. split_and!; try done.
    split; [|done]. cbn [fst]. pose proof (vlen_vset sh i c) as L. unfold vlen in L. lia.
Defined.

(** A page that starts with "hi\n", and a port that stalls two polls after each byte. *)
Definition bench0 : list N * Port :=
  ([104; 105; 10] ++ replicate 4093 0, mkPort (mkRegs 2 0 0 7 3 3) [] [] 0 2).

Lemma uart_server_correct_witness :
  ∃ w', run bench (handle 3 OP_WRITE 3) bench0 = Ret (Returned (0, 3), w') ∧ p_out w'.2 = [104; 105; 13; 10].
Proof.
  destruct (uart_server_correct bench 3 OP_WRITE 3 bench0) as (w' & st & n & R & _ & E).
  - split_and!; [by vm_compute|reflexivity|by vm_compute..].
  - intros w (_ & _ & Hb & _). cbn. lia.
  - apply Forall_nil_2.
  - exists w'. change (uart_effect OP_WRITE 3 bench0 w' st n) with
      (st = 0 ∧ n = 3 ∧ p_out w'.2 = [] ++ crlf (take (N.to_nat n) bench0.1) ∧ p_rx w'.2 = [] ∧ w'.1 = bench0.1) in E.
    destruct E as (-> & -> & E & _). split; [exact R|]. rewrite E. reflexivity.
Defined.

(** *** [hello] on the kernel: process 0 is the console server, process 1 the program *)
Definition UART_BASE : N := 0x10000000.
Notation SNet := (Net * Port)%type.
#[local] Instance snet_world : World SNet := serial_world (port_read UART_BASE) (port_write UART_BASE) UART_BASE.

Definition console_machine : Machine SNet := user_machine UART_BASE (λ _, mret tt) 0.
Definition console_peer (p : N) : M SNet () :=
  if p =? 0 then turn console_machine (UartServer.serve 3) (λ _, tt) (λ _ t, t) else mret tt.
Definition program_machine : Machine SNet := user_machine UART_BASE console_peer 1.

Definition start_console : M SNet () := λ w,
  match run console_machine (UartServer.start 3 0) w with Ret (Returned _, w') => Ret (tt, w') | _ => Panic end.
Definition boot_console : M SNet () :=
  onnet (onkernel (
    proc_create MmuProps.qemu_layout;; proc_create MmuProps.qemu_layout;;
    root ← proc_root 1;
    p ← onmem (alloc_pages_zeroed 0);
    match p with
    | Some pa => onmem (map_user_page root Clients.MARKER_VA pa MAP_FLAGS);; mret tt
    | None => panic
    end));;
  start_console.

Definition console0 : SNet := (mkNet ObjProps.kernel64 [] [] [], mkPort (mkRegs 2 0 0 7 3 3) [] [] 0 2).
Definition run_program : M SNet (uend ()) := λ w, run program_machine (Clients.hello 64 42 0) w.
Definition run_hello : M SNet (uend ()) := boot_console;; run_program.

(** The program connects, shares a page with the server, sends its text in four requests,
    and exits after it has stored the completion mark; the serial port has received
    "hello, ignium!" and "argc=42", each with its line end. *)
Example hello_prints :
  match run_hello console0 with
  | Ret (Exited, w) =>
      p_out w.2 = crlf (Clients.HELLO ++ Clients.ARGC ++ [52; 50; 10]) ∧ n_wire w.1 = []
  | _ => False
  end.
Proof. vm_compute. split; reflexivity. Qed.
