(* ===== verification/HeapBeside.v ===== *)
(** * The pages beside the kernel heap

    Page tables and other single pages come from the same allocator as the memory of the
    kernel heap.  Seen from a client of single pages, the allocator together with a heap on
    top of it is again a page allocator ([heap_pages]): its live pages are the ones the heap
    does not own, and its invariant says that the heap is intact and its objects hold what
    they held. *)

From Stdlib Require Import ZifyN ZifyNat.
From stdpp Require Import base gmap numbers functions list.
From S2P Require Import Prelude Mem Dyadic MemInv MemSpec MemProps PageAlloc Heap HeapInv HeapSteps HeapOps.

(** Address [a] belongs to a live object. *)
Definition in_live (g : HG) (a : N) : Prop := ∃ x o, hg_live g !! x = Some o ∧ in_obj x o a.

Lemma in_live_kept h g a : in_live g a → kept h g a.
Proof. intros H. by left. Qed.

Lemma set_hp_mem_same h : set_hp_mem (hp_mem h) h = h.
Proof. by destruct h. Qed.
Lemma with_bl_same g : with_bl (hg_bl g) g = g.
Proof. by destruct g. Qed.

(** No object reaches into a block of others. *)
Lemma others_not_live h g i p a : HInv h g → others h g i p → in_range h i p a → ¬ in_live g a.
Proof.
  intros I [Ha Hun] Hr (x & o & Hx & Hin). apply Hun. pose proof (hi_live _ _ I _ _ Hx) as Hok. destruct o as [c|j q n].
  - destruct Hok as (Hc & j & Hj & Hs).
    destruct (blocks_apart h g i p j 0 a I Ha (hi_alloc _ _ I c j Hc Hj) Hr (slot_in_page h c j x a Hc Hs Hin)) as [-> _].
    left. by rewrite (proj2 (hi_class _ _ I j c)).
  - destruct Hok as (Hj & _ & _ & _ & H1 & H2 & _).
    destruct (blocks_apart h g i p j q a I Ha Hj Hr) as [-> _]; [unfold in_range, in_obj in *; simpl in *; lia|]. right. eauto.
Qed.

Lemma word_in_page h i w : w < 512 → in_range h i 0 (ad h i + w * 8).
Proof. intros Hw. apply page_range. unfold PAGE_SIZE. lia. Qed.

Lemma others_kept h g i w : others h g i 0 → w < 512 → kept h g (ad h i + w * 8).
Proof. intros [Ha Hun] Hw. right. exists i, O. split; [done|]. split; [done|]. by apply word_in_page. Qed.

Section beside.
Context (h : KernelHeap) (g : HG).
Notation hp s := (set_hp_mem s h).

(** The heap of [g] on the memory [s], whose blocks are [bl]; the objects hold what they
    hold in [h]. *)
Record beside_inv (s : PMem) (bl : blocks) : Prop := mkBeside {
  be_inv : HInv (hp s) (with_bl bl g);
  be_objects a : in_live g a → rdw (hp s) a = rdw h a
}.
Definition beside_live (bl : blocks) (a : N) : Prop :=
  ∃ i, a = ad h i ∧ others h (with_bl bl g) i 0.

Lemma beside_start : HInv h g → beside_inv (hp_mem h) (hg_bl g).
Proof. intros I. split; rewrite set_hp_mem_same; [by rewrite with_bl_same|done]. Qed.

Lemma beside_page s bl a :
  beside_inv s bl → beside_live bl a → a mod PAGE_SIZE = 0 ∧ page_in_range a s = true.
Proof.
  intros [I _] (i & -> & Ho). split; [exact (ad_aligned _ _ i I)|].
  pose proof (area_allocated _ _ i 0 I (proj1 Ho)) as H. change (bsize 0) with 1 in H.
  pose proof (hi_base _ _ I) as Hb. pose proof (hi_bytes _ _ I) as Hn. cbn [hp_base hp_bytes hp_mem set_hp_mem] in *.
  unfold page_in_range. apply andb_true_iff. rewrite N.leb_le, N.ltb_lt. unfold ad in *. cbn [hp_base set_hp_mem] in H.
  unfold PAGE_SIZE in *. lia.
Qed.

Lemma beside_alloc s bl : beside_inv s bl →
  alloc_pages 0 s = Ret (None, s) ∨
  ∃ a s' bl', alloc_pages 0 s = Ret (Some a, s') ∧ beside_inv s' bl' ∧ ¬ beside_live bl a ∧
    (∀ x, beside_live bl' x ↔ beside_live bl x ∨ x = a) ∧ same_area s s' ∧ (∀ x, beside_live bl x → keeps s s' x).
Proof.
  intros [I O]. destruct (heap_take (hp s) (with_bl bl g) 0 I) as [[E _]|(i & m' & bl' & E & T)]; [unfold MAX_ORDER; lia| |];
    unfold onm, lift in E; cbn [hp_mem set_hp_mem] in E;
    (destruct (alloc_pages 0 s) as [[r s0]| |] eqn:E0; [|discriminate E..]).
  - left. injection E as -> E. by subst s0.
  - right. injection E as -> E. subst s0. destruct T as [[T1 T2 T3 T4] T5 T6 T7 _ Tn Tb Ta].
    exists (ad h i), m', bl'. split; [done|]. split; [split; [exact T1|]|split; [|split; [|split; [done|]]]].
    + intros a Ha. rewrite <-O by done. apply T3. by apply in_live_kept.
    + intros (j & Ej & [Hj _]). rewrite <-(N.add_0_r (ad h i)), <-(N.add_0_r (ad h j)) in Ej.
      apply ad_inj in Ej as [<- _]; [|done..]. by apply (Tn 0%nat).
    + intros x. unfold beside_live, others. cbn [hg_bl with_bl]. setoid_rewrite Tb. cbn [hg_bl with_bl]. split.
      * intros (j & -> & [Hj|[-> _]] & Hun); [left; eauto|by right].
      * intros [(j & -> & Hj & Hun)| ->]; [exists j; split; [done|]; split; [by left|done]|exists i].
        split; [done|]. split; [by right|]. exact T6.
    + intros x (j & -> & Hj) w Hw. apply (T3 (ad h j + w * 8)). by apply (others_kept (hp s) (with_bl bl g) j w).
Qed.

Lemma beside_free s bl a : beside_inv s bl → beside_live bl a →
  ∃ s' bl', free_pages a s = Ret (Ok tt, s') ∧ beside_inv s' bl' ∧
    (∀ x, beside_live bl' x ↔ beside_live bl x ∧ x ≠ a) ∧ same_area s s' ∧ (∀ x, beside_live bl' x → keeps s s' x).
Proof.
  intros [I O] (i & -> & [Ha Hun]).
  destruct (heap_release (hp s) (with_bl bl g) i 0 I Ha Hun) as (m' & bl' & E & I' & Tb & _ & Ta & K).
  unfold onm, lift in E. cbn [hp_mem set_hp_mem] in E. change (ad (hp s) i) with (ad h i) in E.
  destruct (free_pages (ad h i) s) as [[r s0]| |] eqn:E0; [|discriminate E..].
  injection E as -> E. subst s0. exists m', bl'. split; [done|]. split; [split; [exact I'|]|split; [|split; [done|]]].
  - intros b Hb. rewrite <-O by done. apply K; [by apply in_live_kept|]. intros Hr.
    by apply (others_not_live (hp s) (with_bl bl g) i 0 b I).
  - intros x. unfold beside_live, others. cbn [hg_bl with_bl]. setoid_rewrite Tb. cbn [hg_bl with_bl]. split.
    + intros (j & -> & [Hj Hne] & Hu). split; [eauto|]. rewrite <-(N.add_0_r (ad h j)), <-(N.add_0_r (ad h i)).
      by intros [-> _]%ad_inj.
    + intros [(j & -> & Hj & Hu) Hne]. exists j. split; [done|]. split; [split; [done|congruence]|done].
  - intros x (j & -> & [Hj Hu]) w Hw. apply Tb in Hj as [Hj Hne]. apply (K (ad h j + w * 8)).
    + apply (others_kept (hp s) (with_bl bl g) j w); [|done]. by split.
    + intros Hr. apply Hne. by apply (blocks_apart (hp s) (with_bl bl g) j 0 i 0 (ad h j + w * 8) I Hj Ha (word_in_page h j w Hw)).
Qed.

Lemma beside_write s bl a w v : beside_inv s bl → beside_live bl a → w < 512 →
  beside_inv (set_ram (write_word (a + w * 8) v (ram s)) s) bl.
Proof.
  intros [I O] (i & -> & Ho) Hw. split.
  - apply (kept_write (hp s) (with_bl bl g)); [done|]. by apply (others_kept (hp s) (with_bl bl g) i w).
  - intros b Hb. rewrite <-O by done. apply (rdw_ne (ad h i + w * 8) v (hp s)). intros <-.
    by apply (others_not_live (hp s) (with_bl bl g) i 0 (ad h i + w * 8) I Ho (word_in_page h i w Hw)).
Qed.
End beside.

#[export] Instance heap_pages (h : KernelHeap) (g : HG) : PageAllocator blocks | 10 := {|
  pinv := beside_inv h g; live := beside_live h g;
  live_page := beside_page h g; alloc_law := beside_alloc h g; free_law := beside_free h g; write_law := beside_write h g
|}.
