(* ===== verification/KernelMem.v ===== *)
(** * The kernel's own memory: mmu::init, kernel stacks and the boot order

    [kernel_main] of kernel/src/main.rs sets up the page allocator, the kernel's root table
    and the kernel heap one on the other; later every kernel thread gets a stack from the
    heap whose guard page is taken out of the kernel's table (sched.rs).  The heap, the
    tables and the allocator share one memory, the one inside the heap's state. *)

From Stdlib Require Import ZifyN ZifyNat.
From stdpp Require Import base gmap numbers list.
From S2P Require Import Prelude Mem Mmu Heap Sched Fdt.

(** The heap on its memory, [KERNEL_ROOT] and this hart's [satp]. *)
Record KMem := mkKMem { km_heap : KernelHeap; km_root : N; km_satp : N }.

Definition set_km_heap (h : KernelHeap) (k : KMem) : KMem := mkKMem h (km_root k) (km_satp k).
Definition set_km_root (r : N) (k : KMem) : KMem := mkKMem (km_heap k) r (km_satp k).
Definition set_km_satp (v : N) (k : KMem) : KMem := mkKMem (km_heap k) (km_root k) v.

Notation MK := (M KMem).
Definition onheap {A} (m : MH A) : MK A := lift km_heap set_km_heap m.
Definition onpages {A} (m : M PMem A) : MK A := onheap (onm m).

(** ** mmu.rs *)

(** [enable], and [satp] which reads the register back. *)
Definition enable (root_paddr : N) : MK () := modify (set_km_satp (satp_value root_paddr)).
Definition satp : MK N := gets km_satp.
Definition kernel_root : MK N := gets km_root.

(** [mmu::init]. *)
Definition mmu_init (ly : Layout) : MK () :=
  o ← onpages (alloc_pages 0);
  root ← expect o;
  modify (set_km_root root);;
  onpages (zero_page root);;
  onpages (map_kernel_region ly root);;
  enable root.

(** ** Kernel stacks (sched.rs) *)

(** The [Layout] of a stack with its guard page. *)
Definition STACK_BYTES : N := THREAD_STACK_SIZE + STACK_GUARD_SIZE.

Definition alloc_free_stack : MK N :=
  ptr ← onheap (heap_alloc STACK_BYTES PAGE_SIZE);
  root ← kernel_root;
  onpages (expect_ok (unmap_kernel_4k root ptr));;
  mret ptr.

(** [Drop for KernelStack]. *)
Definition drop_stack (ptr : N) : MK () :=
  root ← kernel_root;
  onpages (expect_ok (remap_kernel_4k root ptr));;
  onheap (heap_dealloc ptr STACK_BYTES).

(** [KernelStack::sp]. *)
Definition sp (ptr : N) : N := N.ldiff (ptr + THREAD_STACK_SIZE + STACK_GUARD_SIZE) 0xF.

(** ** The boot order (main.rs) *)

(** The linker's symbols. *)
Record Linker := mkLinker {
  lk_kernel_start : N; lk_text_start : N; lk_rodata_start : N; lk_data_start : N; lk_kernel_end : N;
  lk_stack_guard : N; lk_trap_base : N; lk_trap_top : N; lk_idle_base : N; lk_idle_top : N;
  lk_alloc_start : N
}.

(** What [map_kernel_region] reads: the symbols and the board's accessors. *)
Definition layout (lk : Linker) (b : Board) (re : N) : Layout :=
  mkLayout (ram_start b) re (lk_kernel_start lk) (lk_text_start lk) (lk_rodata_start lk)
    (lk_data_start lk) (lk_kernel_end lk) (lk_stack_guard lk) (lk_trap_base lk) (lk_trap_top lk)
    (lk_idle_base lk) (lk_idle_top lk) (uart_base b).

(** The memory that [sched::init] takes: what its collections reserve, sizes and logarithms
    of alignments, and a stack for the idle thread of every hart. *)
Fixpoint idle_stacks (n : nat) : MK (list N) :=
  match n with
  | O => mret []
  | S n => p ← alloc_free_stack; ps ← idle_stacks n; mret (p :: ps)
  end.
Definition reserve_one (r : N * N) : MK () := onheap (heap_alloc r.1 (2 ^ r.2));; mret tt.
Definition sched_init (reserve : list (N * N)) : MK (list N) :=
  for_each reserve_one reserve;;
  idle_stacks (N.to_nat MAX_HARTS).

(** [kernel_main], the steps that build the kernel's memory; the answer is the idle stacks.
    The self tests between them are left out. *)
Definition kernel_main (lk : Linker) (b : Board) (p : BoardParams) (reserve : list (N * N)) : MK (list N) :=
  onpages (mem_init b (lk_alloc_start lk) p);;
  re ← ram_end b;
  mmu_init (layout lk b re);;
  onheap heap_init;;
  sched_init reserve.

(** The statics before boot. *)
Definition kmem0 : KMem := mkKMem (heap0 (mkPMem allocator0 ∅)) 0 0.
