(* ===== verification/KernelMemInv.v ===== *)
(** * The kernel's memory: its invariant and the steps that keep it

    [KInv] ties the kernel's root table to the heap: every address translates as the kernel
    view says, except the guard pages of the live stacks, which translate nowhere.  Heap
    calls keep it because the tables are pages beside the heap, table updates because they
    are steps of a client of [heap_pages]. *)

From Stdlib Require Import ZifyN ZifyNat.
From stdpp Require Import base gmap numbers functions list.
From S2P Require Import Prelude Mem Dyadic MemInv MemSpec PageAlloc Mmu Pte MmuTree MmuSpec MmuKernel.
From S2P Require Import Heap HeapInv HeapSteps HeapOps HeapProps HeapBeside Sched Fdt KernelMem.

(** ** Walks and tables *)

Lemma same_super_sym va vb : same_super va vb → same_super vb va.
Proof. intros [E1 E2]. by split. Qed.

Lemma same_slot_super va vb : same_slot va vb → same_super va vb.
Proof. by intros (? & ? & _). Qed.

(** A walk that ends in a last-level table, and the table. *)
Definition split_at (s : PMem) (root va : N) : Prop := is_Some (tbl s root (PL0 (ix2 va) (ix1 va))).

Lemma split_at_super s root va vb : same_super va vb → split_at s root va → split_at s root vb.
Proof. unfold split_at. by intros [<- <-]. Qed.

Lemma walk_split_at s root va e : walk root va s = Some (0, e) → split_at s root va.
Proof.
  unfold split_at. rewrite walk_tbl. cbn [tbl]. destruct (entry_table (pte_at s root (ix2 va))) as [t1|]; simpl.
  - destruct (entry_table _) as [t0|]; [by eexists|]. unfold walk_of. case_match; congruence.
  - unfold walk_of. case_match; congruence.
Qed.

Lemma split_at_walk s root va l e : split_at s root va → walk root va s = Some (l, e) → l = 0.
Proof.
  intros [t Ht]. rewrite walk_tbl. cbn [tbl] in *. destruct (entry_table (pte_at s root (ix2 va))) as [t1|]; simpl in *; [|done].
  rewrite Ht. unfold walk_of. case_match; congruence.
Qed.

Lemma translate_walk root va s r : translate root va s = Some r → ∃ l e, walk root va s = Some (l, e).
Proof. unfold translate, resolve. destruct (walk root va s) as [[l e]|]; [eauto|done]. Qed.

(** The entries of a last-level table are found without allocation. *)
Lemma found_tables s root va t :
  tbl s root (PL0 (ix2 va) (ix1 va)) = Some t →
  ∃ t1, ensure_table root (ix2 va) s = Ret (Ok t1, s) ∧ ensure_table t1 (ix1 va) s = Ret (Ok t, s) ∧
    pte_valid (pte_at s t1 (ix1 va)) = true ∧ pte_leaf (pte_at s t1 (ix1 va)) = false.
Proof.
  cbn [tbl]. intros H. apply bind_Some in H as (t1 & H1 & H0). unfold entry_table in *.
  destruct (pte_valid (pte_at s root (ix2 va))) eqn:V1; [|done]. destruct (pte_leaf (pte_at s root (ix2 va))) eqn:L1; [done|].
  injection H1 as <-. exists (pte_addr (pte_at s root (ix2 va))).
  destruct (pte_valid (pte_at s _ (ix1 va))) eqn:V0; [|done]. destruct (pte_leaf (pte_at s _ (ix1 va))) eqn:L0; [done|].
  injection H0 as <-. split; [by apply ensure_table_found|]. by split; [apply ensure_table_found|].
Qed.

Lemma try_err_inv {A B E} (m : M PMem (result A E)) (k : A → M PMem (result B E)) s e s' :
  try_ m k s = Ret (Err e, s') → m s = Ret (Err e, s') ∨ ∃ a s1, m s = Ret (Ok a, s1) ∧ k a s1 = Ret (Err e, s').
Proof.
  intros H. apply bind_ret_inv in H as ([a|e'] & s1 & E1 & H); [right; eauto|left]. by injection H as -> ->.
Qed.

(** Where the walk ends at or below the middle level, only memory can be missing. *)
Lemma split_superpage_err s root va l e s' :
  walk root va s = Some (l, e) → l ≤ 1 → split_superpage root va s = Ret (Err tt, s') →
  ∃ s1, alloc_pages 0 s = Ret (None, s1).
Proof.
  intros W Hl. unfold split_superpage. rewrite walk_tbl in W. cbn [tbl] in W.
  destruct (entry_table (pte_at s root (ix2 va))) as [t1|] eqn:E2.
  2:{ unfold walk_of in W. case_match; [|done]. injection W as <- _. lia. }
  unfold entry_table in E2. destruct (pte_valid (pte_at s root (ix2 va))) eqn:V2; [|done].
  destruct (pte_leaf (pte_at s root (ix2 va))) eqn:L2; [done|]. injection E2 as <-.
  rewrite (try_ok _ _ _ _ _ (ensure_table_found _ _ _ _ eq_refl V2 L2)). unfold pte_read. rewrite bind_gets.
  unfold entry_table in W. destruct (pte_valid (pte_at s _ (ix1 va))) eqn:V1; cbn [negb andb] in *.
  2:{ unfold walk_of in W. by rewrite V1 in W. }
  destruct (pte_leaf (pte_at s _ (ix1 va))) eqn:L1; cbn [negb]; [|done].
  intros H. apply try_err_inv in H as [H|(n & s1 & _ & H)].
  - unfold ok_or in H. apply bind_ret_inv in H as (o & s1 & Ea & H). destruct o as [n|]; [done|]. eauto.
  - apply bind_ret_inv in H as ([] & s2 & _ & H). apply bind_ret_inv in H as ([] & s3 & _ & H).
    apply bind_ret_inv in H as ([] & s4 & _ & H). done.
Qed.

(** ** The invariant *)

Notation kmem k := (hp_mem (km_heap k)).

(** The page of [va] is a guard page of one of the stacks [gs]. *)
Definition guarded (gs : list N) (va : N) : Prop := Exists (λ p, va / 4096 = p / 4096) gs.
#[global] Instance guarded_dec gs va : Decision (guarded gs va).
Proof. unfold guarded. apply _. Defined.

Lemma guarded_elem gs va : guarded gs va ↔ ∃ p, p ∈ gs ∧ va / 4096 = p / 4096.
Proof. unfold guarded. by rewrite Exists_exists. Qed.

Lemma guarded_cons_decide {A} p gs va (x y : A) :
  va / 4096 ≠ p / 4096 → (if decide (guarded gs va) then x else y) = if decide (guarded (p :: gs) va) then x else y.
Proof.
  intros Hne. destruct (decide (guarded gs va)) as [Hg|Hg], (decide (guarded (p :: gs) va)) as [Hc|Hc]; try done.
  - destruct Hc. by right.
  - apply Exists_cons in Hc as [?|?]; done.
Qed.

(** The translation the kernel view describes. *)
Definition kernel_maps (ly : Layout) (va : N) : option (N * N) := resolve va (kernel_view ly va).

(** A superpage entry as the kernel builds them. *)
Definition level_ok (l e : N) : Prop := l ≤ 1 ∧ (l = 1 → e < 2 ^ 54 ∧ pte_addr e + SUPER_PAGE ≤ PHYS_LIMIT).

(** A live stack with its guard page at the low end. *)
Definition stack_at (g : HG) (p : N) : Prop := p mod 4096 = 0 ∧ ∃ i, hg_live g !! p = Some (Large i 3 STACK_BYTES).

Definition in_area (h : KernelHeap) (a : N) : Prop := hp_base h ≤ a < hp_base h + hp_bytes h.

Record KInv (ly : Layout) (k : KMem) (g : HG) (gs : list N) : Prop := mkKInv {
  ki_pt : pt_wf (H := heap_pages (km_heap k) g) (hg_bl g) (kmem k) (km_root k);
  ki_satp : km_satp k = satp_value (km_root k);
  ki_view va : va < 2 ^ 39 →
    translate (km_root k) va (kmem k) = if decide (guarded gs va) then None else kernel_maps ly va;
  ki_level va l e : va < 2 ^ 39 → walk (km_root k) va (kmem k) = Some (l, e) → level_ok l e;
  ki_stack p : p ∈ gs → stack_at g p ∧ ∃ e, walk (km_root k) (p + 4096) (kmem k) = Some (0, e);
  ki_nodup : NoDup gs;
  ki_base : hp_base (km_heap k) mod SUPER_PAGE = 0;
  ki_lim : hp_base (km_heap k) + hp_bytes (km_heap k) ≤ 2 ^ 39;
  ki_area va : in_area (km_heap k) va → kernel_view ly va = walk_of 1 (pte (va / SUPER_PAGE * SUPER_PAGE) PTE_LEAF_RW)
}.

Lemma ki_heap ly k g gs : KInv ly k g gs → HInv (km_heap k) g.
Proof.
  intros K. destruct (pt_pinv _ _ _ (ki_pt _ _ _ _ K)) as [I _]. by rewrite set_hp_mem_same, with_bl_same in I.
Qed.

(** An entry that maps an address to itself. *)
Lemma resolve_identity va l pa f :
  kernel_flags f → va < 2 ^ 39 → pa mod 4096 = 0 → pa + va mod 2 ^ (12 + 9 * l) = va →
  resolve va (walk_of l (pte pa f)) = Some (va, f).
Proof.
  intros (Hf & V & L & _) Hva Ha Hid. assert (pa < PHYS_LIMIT) as Hp.
  { unfold PHYS_LIMIT. apply (N.le_lt_trans _ va); [lia|]. eapply N.lt_trans; [exact Hva|done]. }
  unfold walk_of. rewrite pte_valid_pte, V by done. unfold resolve. cbn [mbind option_bind].
  by rewrite pte_leaf_pte, L, pte_addr_pte, Hid, pte_flags, land_1023 by done.
Qed.

(** The managed memory is mapped to itself, readable and writable. *)
Lemma area_maps ly k g gs va : KInv ly k g gs → in_area (km_heap k) va → va < 2 ^ 39 ∧ kernel_maps ly va = Some (va, PTE_LEAF_RW).
Proof.
  intros K Ha. assert (va < 2 ^ 39) as Hva by (pose proof (ki_lim _ _ _ _ K); unfold in_area in Ha; lia).
  split; [done|]. unfold kernel_maps. rewrite (ki_area _ _ _ _ K va Ha). apply resolve_identity; [auto with pages|done|..].
  - unfold SUPER_PAGE. clear. dlia.
  - change (2 ^ (12 + 9 * 1)) with SUPER_PAGE. rewrite N.mul_comm. symmetry. by apply N.div_mod.
Qed.

(** ** Where a stack lies *)

Record stack_place (h : KernelHeap) (p : N) : Prop := {
  sp_in u : u < STACK_BYTES → in_area h (p + u);
  sp_super u : u < STACK_BYTES → (p + u) / SUPER_PAGE = p / SUPER_PAGE
}.

Lemma stack_place_of h g p : HInv h g → hp_base h mod SUPER_PAGE = 0 → stack_at g p → stack_place h p.
Proof.
  intros I Hb [Hp [i Hl]]. destruct (hi_live _ _ I _ _ Hl) as (Ha & _ & _ & _ & H1 & H2 & _).
  pose proof (area_allocated h g i 3 I Ha) as Har. destruct (hi_inv _ _ I) as [_ [fl W]].
  destruct (t_block _ _ _ (w_tiling _ _ _ _ W) _ _ _ Ha) as (_ & Hal & _).
  unfold aligned in Hal. change (bsize 3) with 8 in *. unfold in_area, ad in *. change PAGE_SIZE with 4096 in *.
  change STACK_BYTES with 20480 in *. unfold SUPER_PAGE in *. change (2 * 1024 * 1024) with 2097152 in *.
  split; intros u Hu; change STACK_BYTES with 20480 in Hu; [unfold in_area; lia|]. unfold SUPER_PAGE. change (2 * 1024 * 1024) with 2097152.
  clear - Hb Hal H1 H2 Hp Hu. dlia.
Qed.

Lemma stacks_apart h g p q u v :
  HInv h g → stack_at g p → stack_at g q → u < STACK_BYTES → v < STACK_BYTES → p + u = q + v → p = q.
Proof.
  intros I [_ [i Hp]] [_ [j Hq]] Hu Hv E. apply (live_apart h g p q _ _ (p + u) I Hp Hq); unfold in_obj; simpl; lia.
Qed.

Lemma stack_page p q : p mod 4096 = 0 → q mod 4096 = 0 → p / 4096 = q / 4096 → p = q.
Proof. clear. intros. dlia. Qed.

(** The page above a guard page is no guard page of another stack. *)
Lemma stack_above h g p q : HInv h g → stack_at g p → stack_at g q → (p + 4096) / 4096 ≠ q / 4096.
Proof.
  intros I Hp Hq E. assert (p + 4096 = q + 0) as E'.
  { destruct Hp as [Hp _], Hq as [Hq _]. clear - Hp Hq E. dlia. }
  assert (p = q) as -> by (by apply (stacks_apart h g p q 4096 0 I Hp Hq)). lia.
Qed.

(** ** Steps beside the heap *)
Section step.
Context (ly : Layout).

(** A table step of a client of [heap_pages] leads to the pages beside the heap again. *)
Lemma pt_rebase h g bl s root :
  pt_wf (H := heap_pages h g) bl s root → pt_wf (H := heap_pages (set_hp_mem s h) (with_bl bl g)) bl s root.
Proof.
  intros [[I O] L J P]. split; [|exact L|exact J|exact P].
  exact (beside_start (set_hp_mem s h) (with_bl bl g) I).
Qed.

(** The kernel's tables after a step that does not write them. *)
Lemma tables_kept `{PageAllocator G} (b : G) s s' root :
  pt_wf b s root → (∀ p a, path_ok p → tbl s root p = Some a → keeps s s' a) →
  (∀ p, path_ok p → tbl s' root p = tbl s root p) ∧ ∀ va, walk root va s' = walk root va s.
Proof.
  intros W K. split; [by apply (tbl_ext b)|]. intros va. by apply (walk_ext b).
Qed.

(** A call of the heap. *)
Lemma KInv_heap k g gs h' g' :
  KInv ly k g gs → HInv h' g' → hp_base h' = hp_base (km_heap k) ∧ hp_bytes h' = hp_bytes (km_heap k) →
  (∀ q i, path_ok q → tbl (kmem k) (km_root k) q = Some (ad (km_heap k) i) → others (km_heap k) g i 0 →
     others h' g' i 0 ∧ ∀ w, w < 512 → rdw h' (ad (km_heap k) i + w * 8) = rdw (km_heap k) (ad (km_heap k) i + w * 8)) →
  (∀ p, p ∈ gs → hg_live g' !! p = hg_live g !! p) →
  KInv ly (set_km_heap h' k) g' gs.
Proof.
  intros K I' [Eb En] Ho Hg. pose proof (ki_heap _ _ _ _ K) as I. destruct K as [W k2 k3 k4 k5 k6 k7 k8 k9].
  destruct (tables_kept (hg_bl g) (kmem k) (hp_mem h') (km_root k) W) as [T Wk].
  { intros q x Hq Hx w Hw. destruct (pt_live _ _ _ W q x Hq Hx) as (i & -> & Hi). rewrite with_bl_same in Hi.
    by apply (Ho q i Hq Hx Hi). }
  assert (∀ va, translate (km_root k) va (hp_mem h') = translate (km_root k) va (kmem k)) as Tr by (intros va; unfold translate; by rewrite Wk).
  split; cbn [km_heap km_root km_satp set_km_heap]; try done.
  - split.
    + by apply beside_start.
    + intros p a Hp Ha. rewrite T in Ha by done. destruct (pt_live _ _ _ W p a Hp Ha) as (i & -> & Hi).
      rewrite with_bl_same in Hi. exists i. rewrite with_bl_same. split; [unfold ad; by rewrite Eb|by apply (Ho p i)].
    + intros p q a Hp Hq. rewrite !T by done. by apply (pt_inj _ _ _ W).
    + pose proof (pt_phys _ _ _ W) as P. rewrite <-(hi_base _ _ I), <-(hi_bytes _ _ I) in P.
      by rewrite <-(hi_base _ _ I'), <-(hi_bytes _ _ I'), Eb, En.
  - intros va Hva. rewrite Tr. by apply k3.
  - intros va l e Hva. rewrite Wk. by apply k4.
  - intros p Hp. rewrite Wk. destruct (k5 p Hp) as [[Hm [i Hl]] ?]. split; [|done]. split; [done|]. exists i. by rewrite Hg.
  - by rewrite Eb.
  - by rewrite Eb, En.
  - intros va Ha. apply k9. unfold in_area in *. by rewrite <-Eb, <-En.
Qed.

(** A step in the tables of the kernel's root that leads to the guard pages [gs']. *)
Lemma KInv_table k g gs s' bl' gs' :
  KInv ly k g gs → pt_step (H := heap_pages (km_heap k) g) (hg_bl g) bl' (kmem k) s' (km_root k) →
  (∀ va, va < 2 ^ 39 → translate (km_root k) va s' = if decide (guarded gs' va) then None else kernel_maps ly va) →
  (∀ va l e, va < 2 ^ 39 → walk (km_root k) va s' = Some (l, e) → level_ok l e) →
  (∀ p, p ∈ gs' → stack_at g p ∧ ∃ e, walk (km_root k) (p + 4096) s' = Some (0, e)) → NoDup gs' →
  KInv ly (set_km_heap (set_hp_mem s' (km_heap k)) k) (with_bl bl' g) gs'.
Proof.
  intros [W k2 k3 k4 k5 k6 k7 k8 k9] P H3 H4 H5 H6. split; cbn [km_heap km_root km_satp set_km_heap hp_mem set_hp_mem]; try done.
  apply (pt_rebase _ _ bl'). apply P.
Qed.

(** ** Guard pages *)

Lemma split_level0 s root va r : split_at s root va → translate root va s = Some r → ∃ e, walk root va s = Some (0, e).
Proof. intros Hs (l & e & E)%translate_walk. pose proof (split_at_walk _ _ _ _ _ Hs E) as ->. eauto. Qed.

Section stack.
Context (k : KMem) (g : HG) (gs : list N) (K : KInv ly k g gs).
Notation s := (kmem k).
Notation root := (km_root k).

(** The addresses of a stack, below 2^39 and in one superpage. *)
Lemma stack_facts p u :
  stack_at g p → u < STACK_BYTES → in_area (km_heap k) (p + u) ∧ p + u < 2 ^ 39 ∧ same_super (p + u) p ∧
    kernel_maps ly (p + u) = Some (p + u, PTE_LEAF_RW).
Proof.
  intros Hp Hu. destruct (stack_place_of _ _ _ (ki_heap _ _ _ _ K) (ki_base _ _ _ _ K) Hp) as [Ha Hs].
  destruct (area_maps _ _ _ _ _ K (Ha u Hu)) as [Hlt Hm]. split; [by apply Ha|]. split; [done|]. split; [|done].
  apply same_super_page; [done|lia|]. by apply Hs.
Qed.

Lemma stack_start p : stack_at g p → p < 2 ^ 39 ∧ in_area (km_heap k) p ∧ kernel_maps ly p = Some (p, PTE_LEAF_RW).
Proof. intros Hp. destruct (stack_facts p 0 Hp) as (H1 & H2 & _ & H3); [done|]. rewrite N.add_0_r in *. done. Qed.

Lemma not_guarded_start p : stack_at g p → p ∉ gs → ¬ guarded gs p.
Proof.
  intros [Hp _] Hn (q & Hq & E)%guarded_elem. destruct (ki_stack _ _ _ _ K q Hq) as [[Hqm _] _].
  apply Hn. by rewrite (stack_page p q Hp Hqm E).
Qed.

Lemma not_guarded_above p : stack_at g p → ¬ guarded gs (p + 4096).
Proof.
  intros Hp (q & Hq & E)%guarded_elem. destruct (ki_stack _ _ _ _ K q Hq) as [Hqs _].
  by apply (stack_above _ _ p q (ki_heap _ _ _ _ K) Hp Hqs).
Qed.

(** The guard page of a new stack leaves the kernel's table, unless memory is missing for
    the split of its superpage. *)
Lemma unmap_guard_run p :
  stack_at g p → p ∉ gs →
  (∃ s1 s2, alloc_pages 0 s = Ret (None, s1) ∧ unmap_kernel_4k root p s = Ret (Err tt, s2)) ∨
  ∃ s' bl', unmap_kernel_4k root p s = Ret (Ok tt, s') ∧
    pt_step (H := heap_pages (km_heap k) g) (hg_bl g) bl' s s' root ∧
    KInv ly (set_km_heap (set_hp_mem s' (km_heap k)) k) (with_bl bl' g) (p :: gs).
Proof.
  intros Hp Hn. pose proof (ki_heap _ _ _ _ K) as I. pose proof (ki_pt _ _ _ _ K) as W.
  destruct (stack_start p Hp) as (Hlt & _ & Hm). pose proof (ki_view _ _ _ _ K p Hlt) as V.
  rewrite Hm in V. destruct (decide (guarded gs p)) as [Hg|_]; [destruct (not_guarded_start p Hp Hn Hg)|]. destruct (translate_walk _ _ _ _ V) as (l & e & E).
  unfold unmap_kernel_4k.
  destruct (split_superpage_spec _ s root p W) as [(s1 & b1 & E1 & _)|(s1 & b1 & E1 & P1 & Hs & Tr & Wk)].
  { intros e1 He1. by apply (ki_level _ _ _ _ K p 1 e1 Hlt He1). }
  { left. destruct (split_superpage_err s root p l e s1 E) as [s0 E0]; [by apply (ki_level _ _ _ _ K p l e)|done|].
    exists s0, s1. split; [done|]. by apply try_err. }
  right. rewrite (try_ok _ _ _ _ _ E1).
  destruct (unmap_4k_spec _ s1 root p (ps_wf _ _ _ _ _ P1)) as [(_ & _ & Hc)|(s2 & E2 & P2 & Wu)]; [destruct Hs; congruence|].
  exists s2, b1. split; [done|]. pose proof (pt_step_trans _ _ _ _ _ _ _ P1 P2) as P. split; [exact P|].
  assert (∀ va, split_at s1 root va ∨ walk root va s1 = walk root va s) as Hcase.
  { intros va. destruct (decide (same_super va p)) as [Hv|Hv]; [left|right; by apply Wk].
    apply (split_at_super _ _ p va); [by apply same_super_sym|done]. }
  apply (KInv_table k g gs s2 b1 (p :: gs) K P).
  - intros va Hva. unfold translate. rewrite Wu. destruct (decide (same_slot va p)) as [Hv|Hv].
    + rewrite decide_True; [done|]. apply guarded_elem. exists p. split; [by left|]. by apply same_slot_page.
    + change (translate root va s1 = if decide (guarded (p :: gs) va) then None else kernel_maps ly va). rewrite Tr, (ki_view _ _ _ _ K va Hva).
      apply guarded_cons_decide. intros E'. apply Hv. by apply same_slot_page.
  - intros va l1 e1 Hva. rewrite Wu. case_decide as Hv; [done|]. intros He.
    destruct (Hcase va) as [Hc|Hc]; [|rewrite Hc in He; by apply (ki_level _ _ _ _ K va)].
    rewrite (split_at_walk _ _ _ _ _ Hc He). split; [lia|done].
  - intros q Hq. assert (stack_at g q) as Hqs by (apply elem_of_cons in Hq as [->|Hq]; [done|by apply (ki_stack _ _ _ _ K)]).
    split; [done|]. destruct (stack_facts q 4096 Hqs ltac:(done)) as (_ & Hq39 & Hqp & Hqm).
    rewrite Wu, decide_False; [|intros Hsl; apply same_slot_page in Hsl; [by apply (stack_above _ _ q p I Hqs Hp)|done..]].
    assert (split_at s1 root (q + 4096) → ∃ e, walk root (q + 4096) s1 = Some (0, e)) as Hgo.
    { intros Hc. apply (split_level0 _ _ _ (q + 4096, PTE_LEAF_RW) Hc). rewrite Tr, (ki_view _ _ _ _ K) by done.
      rewrite decide_False; [done|]. by apply not_guarded_above. }
    apply elem_of_cons in Hq as [->|Hq]; [apply Hgo; by apply (split_at_super _ _ p); [apply same_super_sym|]|].
    destruct (Hcase (q + 4096)) as [Hc|Hc]; [by apply Hgo|]. rewrite Hc. by apply (ki_stack _ _ _ _ K).
  - constructor; [done|apply K].
Qed.

(** A stack's guard page can always be mapped again. *)
Lemma stack_split p : p ∈ gs → split_at s root p.
Proof.
  intros Hp. destruct (ki_stack _ _ _ _ K p Hp) as [Hs [e He]]. apply walk_split_at in He.
  apply (split_at_super _ _ (p + 4096)); [|done]. by apply (stack_facts p 4096 Hs).
Qed.

Lemma remap_run p t :
  tbl s root (PL0 (ix2 p) (ix1 p)) = Some t →
  remap_kernel_4k root p s = Ret (Ok tt, set_ram (write_word (t + ix0 p * 8) (pte p PTE_LEAF_RW) (ram s)) s).
Proof.
  intros Ht. destruct (found_tables _ _ _ _ Ht) as (t1 & E1 & E0 & V & L).
  assert (split_superpage root p s = Ret (Ok tt, s)) as E.
  { unfold split_superpage. rewrite (try_ok _ _ _ _ _ E1). unfold pte_read. rewrite bind_gets. by rewrite V, L. }
  unfold remap_kernel_4k, map_kernel_4k.
  assert (map_4k root p p PTE_LEAF_RW s = Ret (Ok tt, set_ram (write_word (t + ix0 p * 8) (pte p PTE_LEAF_RW) (ram s)) s)) as Em.
  { unfold map_4k. rewrite (try_ok _ _ _ _ _ E1), (try_ok _ _ _ _ _ E0). unfold pte_write. by rewrite bind_modify. }
  assert ((split_superpage root p;;? map_4k root p p PTE_LEAF_RW) s = map_4k root p p PTE_LEAF_RW s) as Es by (by rewrite (try_ok _ _ _ _ _ E)).
  rewrite Em in Es. by rewrite (try_ok _ _ _ _ _ Es).
Qed.

Definition without (p : N) (l : list N) : list N := filter (λ q, q ≠ p) l.

Lemma guarded_without {A} p va (x y : A) : p ∈ gs →
  (if decide (guarded (without p gs) va) then x else y) =
  if decide (va / 4096 = p / 4096) then y else if decide (guarded gs va) then x else y.
Proof.
  intros Hp. assert (∀ q, q ∈ gs → q mod 4096 = 0) as Hm by (intros q Hq; by apply (ki_stack _ _ _ _ K)).
  assert (guarded (without p gs) va ↔ va / 4096 ≠ p / 4096 ∧ guarded gs va) as Hiff.
  { rewrite !guarded_elem. unfold without. split.
    - intros (q & [Hne Hq]%list_elem_of_filter & ->). split; [|by exists q].
      intros E. apply Hne. by apply stack_page; [apply Hm..|].
    - intros [Hne (q & Hq & E)]. exists q. split; [|done]. apply list_elem_of_filter. split; [|done]. by intros ->. }
  destruct (decide (guarded (without p gs) va)) as [H1|H1]; rewrite Hiff in H1; repeat case_decide; tauto.
Qed.

Lemma remap_guard_run p :
  p ∈ gs →
  ∃ s', remap_kernel_4k root p s = Ret (Ok tt, s') ∧
    pt_step (H := heap_pages (km_heap k) g) (hg_bl g) (hg_bl g) s s' root ∧
    KInv ly (set_km_heap (set_hp_mem s' (km_heap k)) k) (with_bl (hg_bl g) g) (without p gs).
Proof.
  intros Hp. pose proof (ki_heap _ _ _ _ K) as I. pose proof (ki_pt _ _ _ _ K) as W.
  destruct (ki_stack _ _ _ _ K p Hp) as [Hs _]. destruct (stack_start p Hs) as (Hlt & _ & Hm). destruct (stack_split p Hp) as [t Ht].
  set (s' := set_ram (write_word (t + ix0 p * 8) (pte p PTE_LEAF_RW) (ram s)) s). exists s'. split; [by apply remap_run|].
  destruct (slot_effect (hg_bl g) (hg_bl g) s s root p t (pte p PTE_LEAF_RW) (pt_grow_refl _ _ _ W) Ht) as [P Wk].
  split; [exact P|]. fold s' in P, Wk.
  assert (∀ va, va < 2 ^ 39 → same_slot va p → va / 4096 = p / 4096) as Hsl by (intros va Hva; by apply same_slot_page).
  apply (KInv_table k g gs s' (hg_bl g) (without p gs) K P).
  - intros va Hva. rewrite guarded_without by done. unfold translate. rewrite Wk. destruct (decide (same_slot va p)) as [Hv|Hv].
    + rewrite decide_True by (by apply Hsl). assert (in_area (km_heap k) va) as Ha.
      { destruct Hs as [Hpm ?]. replace va with (p + va mod 4096) by (pose proof (Hsl va Hva Hv); clear -Hpm H0; dlia).
        apply stack_facts; [by split|]. eapply N.lt_trans; [by apply N.mod_lt|done]. }
      rewrite (proj2 (area_maps _ _ _ _ _ K Ha)). apply resolve_identity; [auto with pages|done|apply Hs|].
      pose proof (Hsl va Hva Hv) as E. destruct Hs as [Hpm _]. change (2 ^ (12 + 9 * 0)) with 4096. clear - E Hpm. dlia.
    + rewrite decide_False; [by apply (ki_view _ _ _ _ K)|]. intros E. apply Hv. by apply same_slot_page.
  - intros va l e Hva. rewrite Wk. case_decide; [|by apply (ki_level _ _ _ _ K)].
    unfold walk_of. case_match; [|done]. intros [= <- _]. split; [lia|done].
  - intros q [Hne Hq]%list_elem_of_filter. destruct (ki_stack _ _ _ _ K q Hq) as [Hqs He]. split; [done|].
    rewrite Wk, decide_False; [done|]. intros E. destruct (stack_facts q 4096 Hqs ltac:(done)) as (_ & Hq39 & _).
    apply (stack_above _ _ q p I Hqs Hs). by apply Hsl.
  - apply NoDup_filter, K.
Qed.
End stack.
End step.
