(* ===== verification/KernelMemOps.v ===== *)
(** * The operations on the kernel's memory

    Heap calls, stacks, single pages and stores: each keeps [KInv] and leaves alone what it
    does not own ([kstep]). *)

From Stdlib Require Import ZifyN ZifyNat.
From stdpp Require Import base gmap numbers functions list.
From S2P Require Import Prelude Mem Dyadic MemInv MemSpec PageAlloc Mmu Pte MmuTree MmuSpec MmuKernel.
From S2P Require Import Heap HeapInv HeapSteps HeapOps HeapProps HeapBeside Sched Fdt KernelMem KernelMemInv.

(** Page [i] is in the hands of a client of the page allocator: neither the heap's nor a
    table of the kernel. *)
Definition standing (k : KMem) (g : HG) (i : N) : Prop :=
  others (km_heap k) g i 0 ∧ ∀ q, path_ok q → tbl (kmem k) (km_root k) q ≠ Some (ad (km_heap k) i).

(** What a step leaves alone: pages of clients and live objects outside [lost]. *)
Record kstep (k : KMem) (g : HG) (k' : KMem) (g' : HG) (lost : N → Prop) : Prop := mkKStep {
  kt_root : km_root k' = km_root k;
  kt_area : hp_base (km_heap k') = hp_base (km_heap k) ∧ hp_bytes (km_heap k') = hp_bytes (km_heap k);
  kt_pages i w : standing k g i → ¬ lost (ad (km_heap k) i) → w < 512 →
    standing k' g' i ∧ rdw (km_heap k') (ad (km_heap k) i + w * 8) = rdw (km_heap k) (ad (km_heap k) i + w * 8);
  kt_objects a : in_live g a → ¬ lost a → in_live g' a ∧ rdw (km_heap k') a = rdw (km_heap k) a
}.

Lemma kstep_trans k1 g1 k2 g2 k3 g3 lost : kstep k1 g1 k2 g2 lost → kstep k2 g2 k3 g3 lost → kstep k1 g1 k3 g3 lost.
Proof.
  intros [A1 [A2 A2'] A3 A4] [B1 [B2 B2'] B3 B4].
  assert (∀ i, ad (km_heap k2) i = ad (km_heap k1) i) as Ea by (intros i; unfold ad; by rewrite A2).
  split; [congruence|split; congruence|..].
  - intros i w Hs Hl Hw. destruct (A3 i w Hs Hl Hw) as [Hs2 E2]. destruct (B3 i w Hs2) as [Hs3 E3]; [by rewrite Ea|done|].
    split; [done|]. rewrite Ea in E3. congruence.
  - intros a Ha Hl. destruct (A4 a Ha Hl) as [Ha2 E2]. destruct (B4 a Ha2 Hl) as [Ha3 E3]. split; [done|congruence].
Qed.

Lemma kstep_weaken k g k' g' (lost lost' : N → Prop) :
  kstep k g k' g' lost → (∀ a, lost a → lost' a) → kstep k g k' g' lost'.
Proof. intros [A1 A2 A3 A4] Hl. split; eauto. Qed.

Section ops.
Context (ly : Layout).

Lemma ad_same h h' i : hp_base h' = hp_base h → ad h' i = ad h i.
Proof. intros E. unfold ad. by rewrite E. Qed.

Lemma km_page_inj h i j : ad h i = ad h j → i = j.
Proof. rewrite <-(N.add_0_r (ad h i)), <-(N.add_0_r (ad h j)). by intros [-> _]%ad_inj. Qed.

(** The tables after a call of the heap. *)
Lemma heap_tables k g gs h' :
  KInv ly k g gs → (∀ i w, others (km_heap k) g i 0 → w < 512 → rdw h' (ad (km_heap k) i + w * 8) = rdw (km_heap k) (ad (km_heap k) i + w * 8)) →
  ∀ q, path_ok q → tbl (hp_mem h') (km_root k) q = tbl (kmem k) (km_root k) q.
Proof.
  intros K Hw. apply (tables_kept (H := heap_pages (km_heap k) g) (hg_bl g)); [apply K|].
  intros q x Hq Hx w Hlt. destruct (pt_live _ _ _ (ki_pt _ _ _ _ K) q x Hq Hx) as (i & -> & Hi).
  rewrite with_bl_same in Hi. by apply Hw.
Qed.

(** A call of the heap that keeps the blocks of others and what [kept] names, the object at
    [x] apart. *)
Lemma heap_step k g gs h' g' (lost : N → Prop) :
  KInv ly k g gs → HInv h' g' → hp_base h' = hp_base (km_heap k) ∧ hp_bytes h' = hp_bytes (km_heap k) →
  (∀ i p, others (km_heap k) g i p → others h' g' i p) →
  (∀ a, lost a → in_live g a) →
  (∀ a, kept (km_heap k) g a → ¬ lost a → rdw h' a = rdw (km_heap k) a) →
  (∀ p, p ∈ gs → hg_live g' !! p = hg_live g !! p) →
  (∀ a, in_live g a → ¬ lost a → in_live g' a) →
  KInv ly (set_km_heap h' k) g' gs ∧ kstep k g (set_km_heap h' k) g' lost.
Proof.
  intros K I' [Eb En] Ho Hl Hk Hg Hlv. pose proof (ki_heap _ _ _ _ K) as I.
  assert (∀ i w, others (km_heap k) g i 0 → w < 512 → rdw h' (ad (km_heap k) i + w * 8) = rdw (km_heap k) (ad (km_heap k) i + w * 8)) as Hw.
  { intros i w Hi Hlt. apply Hk; [by apply others_kept|]. intros Hlo%Hl.
    by apply (others_not_live (km_heap k) g i 0 _ I Hi (word_in_page _ i w Hlt)). }
  split.
  - apply (KInv_heap ly k g gs h' g' K I'); [done| |done]. intros q i _ _ Hi. split; [by apply Ho|]. intros w. by apply Hw.
  - split; cbn [km_heap km_root set_km_heap]; [done|done|..].
    + intros i w [Hi Ht] _ Hlt. split; [|by apply Hw]. split; [by apply Ho|]. intros q Hq.
      cbn [km_heap km_root set_km_heap]. rewrite (heap_tables k g gs h' K Hw q Hq), (ad_same _ _ _ Eb). by apply Ht.
    + intros a Ha Hn. split; [by apply Hlv|]. apply Hk; [by apply in_live_kept|done].
Qed.

Lemma born_step k g gs h' g' x o :
  KInv ly k g gs → born (km_heap k) g h' g' x o →
  KInv ly (set_km_heap h' k) g' gs ∧ kstep k g (set_km_heap h' k) g' (λ _, False).
Proof.
  intros K [[B1 B2 B3 B4] Bl Bn _ _]. apply (heap_step k g gs); try done.
  - intros a Ha _. by apply B3.
  - intros p Hp. rewrite Bl, lookup_insert_ne; [done|]. intros <-. destruct (ki_stack _ _ _ _ K x Hp) as [[_ [i Hx]] _]. congruence.
  - intros a (y & q & Hy & Ha) _. exists y, q. split; [|done]. rewrite Bl, lookup_insert_ne; [done|]. intros <-. congruence.
Qed.

Lemma gone_step k g gs h' g' x o :
  KInv ly k g gs → hg_live g !! x = Some o → x ∉ gs → gone (km_heap k) g h' g' x o →
  KInv ly (set_km_heap h' k) g' gs ∧ kstep k g (set_km_heap h' k) g' (in_obj x o).
Proof.
  intros K Hx Hn [G1 G2 Gl Gk Go]. apply (heap_step k g gs); try done.
  - intros a Ha. by exists x, o.
  - intros a Ha Hna. by apply Gk.
  - intros p Hp. rewrite Gl, lookup_delete_ne; [done|]. by intros <-.
  - intros a (y & q & Hy & Ha) Hna. exists y, q. split; [|done]. rewrite Gl, lookup_delete_ne; [done|].
    intros <-. rewrite Hx in Hy. injection Hy as <-. done.
Qed.
(** A step in the kernel's tables. *)
Lemma table_step k g gs s' bl' gs' :
  KInv ly k g gs → KInv ly (set_km_heap (set_hp_mem s' (km_heap k)) k) (with_bl bl' g) gs' →
  pt_step (H := heap_pages (km_heap k) g) (hg_bl g) bl' (kmem k) s' (km_root k) →
  kstep k g (set_km_heap (set_hp_mem s' (km_heap k)) k) (with_bl bl' g) (λ _, False).
Proof.
  intros K _ P. split; cbn [km_heap km_root set_km_heap]; [done|done|..].
  - intros i w [Hi Ht] _ Hw. assert (live (PageAllocator := heap_pages (km_heap k) g) (hg_bl g) (ad (km_heap k) i)) as Hl
      by (exists i; by rewrite with_bl_same). split; [split|].
    + destruct (ps_live _ _ _ _ _ P _ Hl) as (j & Ej & Hj). by apply km_page_inj in Ej as <-.
    + intros q Hq E. destruct (ps_new _ _ _ _ _ P q _ Hq E) as [(q' & Hq' & E')|Hn]; [by apply (Ht q')|done].
    + apply (ps_keeps _ _ _ _ _ P (ad (km_heap k) i) Hl Ht w Hw).
  - intros a Ha _. split; [done|]. destruct (pt_pinv _ _ _ (ps_wf _ _ _ _ _ P)) as [_ O]. by apply O.
Qed.

(** ** Stacks *)

Lemma onheap_ret {A} (m : MH A) k a h' : m (km_heap k) = Ret (a, h') → onheap m k = Ret (a, set_km_heap h' k).
Proof. intros E. unfold onheap, lift. by rewrite E. Qed.
Lemma onheap_panic {A} (m : MH A) k : m (km_heap k) = Panic → onheap m k = Panic.
Proof. intros E. unfold onheap, lift. by rewrite E. Qed.
Lemma onm_ret {A} (m : M PMem A) h a s' : m (hp_mem h) = Ret (a, s') → onm m h = Ret (a, set_hp_mem s' h).
Proof. intros E. unfold onm, lift. by rewrite E. Qed.
Lemma onpages_ret {A} (m : M PMem A) k a s' :
  m (kmem k) = Ret (a, s') → onpages m k = Ret (a, set_km_heap (set_hp_mem s' (km_heap k)) k).
Proof. intros E. by apply onheap_ret, onm_ret. Qed.
Lemma onpages_panic {A} (m : M PMem A) k : m (kmem k) = Panic → onpages m k = Panic.
Proof. intros E. apply onheap_panic. unfold onm, lift. by rewrite E. Qed.

Lemma expect_ok_err {A E} (m : M PMem (result A E)) s e s' : m s = Ret (Err e, s') → expect_ok m s = Panic.
Proof. intros H. unfold expect_ok. by rewrite (bind_ret _ _ _ _ _ H). Qed.

Lemma stack_alloc_eq h : heap_alloc STACK_BYTES PAGE_SIZE h = page_alloc STACK_BYTES (2 ^ 12) h.
Proof. reflexivity. Qed.

(** What a new stack is: an object of its own with its address aligned to a page. *)
Record new_stack (k : KMem) (g : HG) (k' : KMem) (g' : HG) (p : N) : Prop := {
  ns_step : kstep k g k' g' (λ _, False);
  ns_live : ∃ i, hg_live g' = <[p := Large i 3 STACK_BYTES]> (hg_live g);
  ns_new : hg_live g !! p = None;
  ns_aligned : p mod 4096 = 0;
  ns_apart a : kept (km_heap k) g a → ¬ (p ≤ a < p + STACK_BYTES)
}.

Lemma stack_alloc_run k g gs :
  KInv ly k g gs →
  (alloc_free_stack k = Panic ∧
    (no_block g STACK_BYTES (2 ^ 12) ∨
     ∃ p h' s1, heap_alloc STACK_BYTES PAGE_SIZE (km_heap k) = Ret (p, h') ∧ alloc_pages 0 (hp_mem h') = Ret (None, s1))) ∨
  ∃ p k' g', alloc_free_stack k = Ret (p, k') ∧ KInv ly k' g' (p :: gs) ∧ new_stack k g k' g' p.
Proof.
  intros K. pose proof (ki_heap _ _ _ _ K) as I. unfold alloc_free_stack.
  destruct (page_alloc_run (km_heap k) g STACK_BYTES 12 I) as [[E Hn]|(p & i & h' & g' & E & Hp & B)]; [done|..];
    rewrite <-stack_alloc_eq in E.
  { left. split; [|by left]. unfold mbind, M_bind. by rewrite (onheap_panic _ _ E). }
  change (large_order STACK_BYTES (2 ^ 12)) with 3%nat in B. change (2 ^ 12) with 4096 in Hp.
  rewrite (bind_ret _ _ _ _ _ (onheap_ret _ _ _ _ E)). unfold kernel_root. rewrite bind_gets.
  destruct (born_step k g gs h' g' p _ K B) as [K1 S1]. set (k1 := set_km_heap h' k) in *.
  assert (stack_at g' p) as Hs.
  { split; [done|]. exists i. rewrite (bn_live _ _ _ _ _ _ B). apply lookup_insert_eq. }
  assert (p ∉ gs) as Hng.
  { intros Hin. destruct (ki_stack _ _ _ _ K p Hin) as [[_ [j Hj]] _]. pose proof (bn_new _ _ _ _ _ _ B). congruence. }
  destruct (unmap_guard_run ly k1 g' gs K1 p Hs Hng) as [(s1 & s2 & Ea & Eu)|(s' & bl' & Eu & P & K2)].
  { left. split; [|right; by exists p, h', s1]. unfold mbind, M_bind.
    by rewrite (onpages_panic _ _ (expect_ok_err _ _ _ _ Eu)). }
  right. exists p, (set_km_heap (set_hp_mem s' (km_heap k1)) k1), (with_bl bl' g').
  rewrite (bind_ret _ _ _ _ _ (onpages_ret _ _ _ _ (expect_ok_ok _ _ _ _ Eu))). split; [done|]. split; [done|].
  split; [|exists i; apply B|apply B|done|].
  - eapply kstep_trans; [exact S1|]. by apply (table_step k1 g' gs s' bl' (p :: gs) K1 K2).
  - intros a Ha. exact (bn_apart _ _ _ _ _ _ B a Ha).
Qed.

(** A stack goes back: its page is mapped again, then its memory is free. *)
Lemma drop_stack_run k g gs p :
  KInv ly k g gs → p ∈ gs →
  ∃ k' g', drop_stack p k = Ret (tt, k') ∧ KInv ly k' g' (without p gs) ∧
    kstep k g k' g' (λ a, p ≤ a < p + STACK_BYTES) ∧ hg_live g' = delete p (hg_live g).
Proof.
  intros K Hp. destruct (remap_guard_run ly k g gs K p Hp) as (s' & E & P & K1).
  destruct (ki_stack _ _ _ _ K p Hp) as [[_ [i Hl]] _].
  set (k1 := set_km_heap (set_hp_mem s' (km_heap k)) k) in *. set (g1 := with_bl (hg_bl g) g) in *.
  destruct (heap_dealloc_run (km_heap k1) g1 p _ STACK_BYTES (ki_heap _ _ _ _ K1) Hl) as (h' & g' & E' & Gn); [done|].
  destruct (gone_step k1 g1 (without p gs) h' g' p _ K1 Hl) as [K2 S2]; [|done|].
  { unfold without. by intros [? _]%list_elem_of_filter. }
  exists (set_km_heap h' k1), g'. unfold drop_stack, kernel_root. rewrite bind_gets.
  rewrite (bind_ret _ _ _ _ _ (onpages_ret _ _ _ _ (expect_ok_ok _ _ _ _ E))). split; [by apply onheap_ret|]. split; [done|].
  split; [|exact (gn_live _ _ _ _ _ _ Gn)]. eapply kstep_trans; [|exact S2].
  by eapply kstep_weaken; [exact (table_step k g gs s' (hg_bl g) (without p gs) K K1 P)|].
Qed.

(** ** Single pages *)

(** A call of the page allocator beside the heap. *)
Lemma page_call k g gs s' bl' :
  KInv ly k g gs → beside_inv (km_heap k) g s' bl' →
  (∀ q a, path_ok q → tbl (kmem k) (km_root k) q = Some a → beside_live (km_heap k) g bl' a ∧ keeps (kmem k) s' a) →
  KInv ly (set_km_heap (set_hp_mem s' (km_heap k)) k) (with_bl bl' g) gs ∧
  ∀ q, path_ok q → tbl s' (km_root k) q = tbl (kmem k) (km_root k) q.
Proof.
  intros K [I' O] Ht. split.
  - apply (KInv_heap ly k g gs (set_hp_mem s' (km_heap k)) (with_bl bl' g) K I'); [done| |done].
    intros q i Hq Et _. destruct (Ht q _ Hq Et) as [(j & Ej & Hj) Hk]. apply km_page_inj in Ej as <-. split; [exact Hj|].
    intros w Hw. exact (Hk w Hw).
  - apply (tables_kept (H := heap_pages (km_heap k) g) (hg_bl g)); [apply K|]. intros q a Hq Et. by apply (Ht q).
Qed.

Lemma live_start k g gs a : KInv ly k g gs →
  beside_live (km_heap k) g (hg_bl g) a ↔ ∃ i, a = ad (km_heap k) i ∧ others (km_heap k) g i 0.
Proof. intros _. unfold beside_live. by rewrite with_bl_same. Qed.

Lemma page_alloc_step k g gs :
  KInv ly k g gs →
  onpages (alloc_pages 0) k = Ret (None, k) ∨
  ∃ i k' g', onpages (alloc_pages 0) k = Ret (Some (ad (km_heap k) i), k') ∧ KInv ly k' g' gs ∧
    kstep k g k' g' (λ _, False) ∧ standing k' g' i ∧ ¬ others (km_heap k) g i 0 ∧ hg_live g' = hg_live g.
Proof.
  intros K. pose proof (beside_start _ _ (ki_heap _ _ _ _ K)) as B0.
  destruct (beside_alloc (km_heap k) g (kmem k) (hg_bl g) B0) as [E|(a & s' & bl' & E & B & Hn & Hl & A & Kp)].
  { left. rewrite (onpages_ret _ _ _ _ E), set_hp_mem_same. by destruct k. }
  right. destruct (proj2 (Hl a)) as (i & -> & Hi); [by right|]. rewrite (live_start k g gs _ K) in Hn.
  assert (∀ q a, path_ok q → tbl (kmem k) (km_root k) q = Some a → beside_live (km_heap k) g (hg_bl g) a) as Htl
    by (intros q a Hq; apply (pt_live _ _ _ (ki_pt _ _ _ _ K) q a Hq)).
  destruct (page_call k g gs s' bl' K B) as [K' T'].
  { intros q a Hq Ea. pose proof (Htl q a Hq Ea) as La. split; [apply Hl; by left|by apply Kp]. }
  exists i, (set_km_heap (set_hp_mem s' (km_heap k)) k), (with_bl bl' g). split; [by apply onpages_ret|]. split; [done|].
  split; [|split; [split; [exact Hi|]|split; [|done]]].
  - split; cbn [km_heap km_root set_km_heap]; [done|done|..].
    + intros j w [Hj Ht] _ Hw. assert (beside_live (km_heap k) g (hg_bl g) (ad (km_heap k) j)) as Lj by (rewrite (live_start k g gs _ K); eauto).
      split; [split|exact (Kp _ Lj w Hw)].
      * destruct (proj2 (Hl (ad (km_heap k) j)) (or_introl Lj)) as (j' & Ej & Hj'). by apply km_page_inj in Ej as <-.
      * intros q Hq. cbn [km_heap km_root set_km_heap hp_mem set_hp_mem]. rewrite T' by done. by apply Ht.
    + intros b Hb _. split; [done|]. by apply B.
  - intros q Hq. cbn [km_heap km_root set_km_heap hp_mem set_hp_mem]. rewrite T' by done. intros Et.
    apply Htl in Et; [|done]. rewrite (live_start k g gs _ K) in Et. by apply Hn.
  - intros Ho. apply Hn. eauto.
Qed.

Lemma page_free_step k g gs i :
  KInv ly k g gs → standing k g i →
  ∃ k' g', onpages (expect_ok (free_pages (ad (km_heap k) i))) k = Ret (tt, k') ∧ KInv ly k' g' gs ∧
    kstep k g k' g' (λ a, a = ad (km_heap k) i) ∧ hg_live g' = hg_live g.
Proof.
  intros K [Hi Ht]. pose proof (beside_start _ _ (ki_heap _ _ _ _ K)) as B0.
  assert (beside_live (km_heap k) g (hg_bl g) (ad (km_heap k) i)) as Li by (rewrite (live_start k g gs _ K); eauto).
  destruct (beside_free (km_heap k) g (kmem k) (hg_bl g) _ B0 Li) as (s' & bl' & E & B & Hl & A & Kp).
  destruct (page_call k g gs s' bl' K B) as [K' T'].
  { intros q a Hq Ea. assert (beside_live (km_heap k) g bl' a) as La; [|split; [done|by apply Kp]].
    apply Hl. split; [by apply (pt_live _ _ _ (ki_pt _ _ _ _ K) q a Hq)|]. intros ->. by apply (Ht q). }
  exists (set_km_heap (set_hp_mem s' (km_heap k)) k), (with_bl bl' g).
  split; [by apply onpages_ret, expect_ok_ok|]. split; [done|]. split; [|done].
  split; cbn [km_heap km_root set_km_heap]; [done|done|..].
  - intros j w [Hj Htj] Hne Hw. assert (beside_live (km_heap k) g bl' (ad (km_heap k) j)) as Lj.
    { apply Hl. split; [rewrite (live_start k g gs _ K); eauto|done]. }
    split; [split|exact (Kp _ Lj w Hw)].
    + destruct Lj as (j' & Ej & Hj'). by apply km_page_inj in Ej as <-.
    + intros q Hq. cbn [km_heap km_root set_km_heap hp_mem set_hp_mem]. rewrite T' by done. by apply Htj.
  - intros b Hb _. split; [done|]. by apply B.
Qed.
End ops.
