(* ===== verification/KernelBoot.v ===== *)
(** * The boot order establishes the invariant of the kernel's memory

    [kernel_main] of kernel/src/main.rs from the parameters of the board: the page
    allocator, the kernel's root table on it, the heap, the stacks of the idle threads. *)

From Stdlib Require Import ZifyN ZifyNat.
From stdpp Require Import base gmap numbers functions list.
From S2P Require Import Prelude Mem Dyadic MemInv MemSpec MemInit PageAlloc Mmu Pte MmuTree MmuSpec MmuKernel MmuProps.
From S2P Require Import Heap HeapInv HeapSteps HeapOps HeapProps HeapBeside Sched Fdt FdtProps KernelMem KernelMemInv KernelMemOps.

(** ** The layout *)

(** The symbols as linker.ld places them: the image at its address, its sections and the
    stack areas in order and aligned, [_alloc_start] behind them. *)
Record linker_ok (lk : Linker) : Prop := mkLinkerOk {
  lk_base : lk_kernel_start lk = KERNEL_LINK_BASE;
  lk_image : lk_kernel_start lk ≤ lk_text_start lk ≤ lk_rodata_start lk ∧
    lk_rodata_start lk ≤ lk_data_start lk ≤ lk_kernel_end lk;
  lk_guard : lk_stack_guard lk mod 4096 = 0 ∧ lk_stack_guard lk < lk_alloc_start lk;
  lk_trap : lk_trap_base lk mod Mmu.TRAP_STRIDE = 0 ∧ lk_trap_top lk mod Mmu.TRAP_STRIDE = 0 ∧ lk_trap_top lk ≤ lk_alloc_start lk;
  lk_idle : lk_idle_base lk mod Mmu.TRAP_STRIDE = 0 ∧ lk_idle_top lk mod Mmu.TRAP_STRIDE = 0 ∧ lk_idle_top lk ≤ lk_alloc_start lk;
  lk_alloc : lk_kernel_end lk ≤ lk_alloc_start lk ∧ lk_alloc_start lk ≤ SV39_MAX_PHYS
}.

(** A serial port that can be mapped to itself. *)
Definition uart_ok (b : Board) : Prop := uart_base b mod 4096 = 0 ∧ uart_base b < 2 ^ 39.

Section boot.
Context (lk : Linker) (b : Board).
Context (Hlk : linker_ok lk) (Hb : board_ok (lk_kernel_end lk) b) (Hu : uart_ok b).
Notation re := (ram_start b + ram_size b).
Notation abase := (alloc_base (lk_alloc_start lk)).
Notation ly := (layout lk b re).

Lemma super_end_le a e : e ≤ a → a mod SUPER_PAGE = 0 → next_multiple_of e SUPER_PAGE ≤ a.
Proof.
  unfold next_multiple_of, div_ceil, SUPER_PAGE. change (2 * 1024 * 1024) with 2097152. clear. intros. dlia.
Qed.

Lemma max_block_super a : a mod max_block = 0 → a mod SUPER_PAGE = 0.
Proof. change max_block with 16777216. unfold SUPER_PAGE. change (2 * 1024 * 1024) with 2097152. clear. intros. dlia. Qed.

Lemma boot_layout_ok : layout_ok ly.
Proof.
  destruct Hlk as [L1 L2 [L3 L3'] [L4 [L4' L4'']] [L5 [L5' L5'']] [L6 L6']], Hb as [B1 B2 B3 [B4 B4'] _ _ _], Hu.
  assert (SV39_MAX_PHYS = 2 ^ 39) as E by reflexivity. rewrite E in *.
  split; unfold layout; cbn [ly_ram_end ly_kernel_start ly_text_start ly_rodata_start ly_data_start ly_kernel_end ly_stack_guard
    ly_trap_base ly_trap_top ly_idle_base ly_idle_top ly_uart_base].
  - apply B2.
  - by rewrite L1.
  - done.
  - apply super_end_le; [exact (N.lt_le_incl _ _ (proj1 B2))|done].
  - eapply N.lt_le_trans; [exact L3'|done].
  - split; [done|]. split; [done|]. by etransitivity.
  - split; [done|]. split; [done|]. by etransitivity.
  - done.
Qed.

(** Behind the stack areas the view is superpages. *)
Lemma not_in_guards base top va w :
  base mod Mmu.TRAP_STRIDE = 0 → top mod Mmu.TRAP_STRIDE = 0 → top ≤ va →
  unmap_upd (guards base top) va w = w.
Proof.
  intros H1 H2 H3. unfold unmap_upd. rewrite decide_False; [done|].
  intros (p & E & Hp)%list_elem_of_fmap. pose proof (guards_lt base top top H1 H2 ltac:(done)) as F.
  rewrite Forall_forall in F. specialize (F p Hp). unfold Mmu.TRAP_STRIDE in H2. change (32 * 1024) with 32768 in H2.
  clear - E F H2 H3. dlia.
Qed.

Lemma boot_area va : abase ≤ va < re → kernel_view ly va = walk_of 1 (pte (va / SUPER_PAGE * SUPER_PAGE) PTE_LEAF_RW).
Proof.
  intros Hva. destruct Hlk as [L1 L2 [L3 L3'] [L4 [L4' L4'']] [L5 [L5' L5'']] [L6 L6']], Hb as [B1 B2 B3 [B4 B4'] [B5 B5'] _ _], Hu as [U1 U2].
  destruct (alloc_base_ok (lk_alloc_start lk) L6') as (A1 & A2 & A3 & _). apply max_block_super in A2.
  unfold kernel_view, layout. cbn [ly_ram_end ly_kernel_start ly_text_start ly_rodata_start ly_data_start ly_kernel_end ly_stack_guard
    ly_trap_base ly_trap_top ly_idle_base ly_idle_top ly_uart_base ly_ram_start].
  rewrite decide_False.
  2:{ intros E. apply B5'. change PAGE_SIZE with 4096 in A3.
      assert (uart_base b ≤ va ∧ abase ≤ uart_base b) as [Y1 Y2] by (clear - E U1 A3 Hva; dlia).
      split; [|eapply N.le_lt_trans; [done|apply Hva]]. etransitivity; [exact (proj2 B1)|]. rewrite <-L1.
      destruct L2 as [[X1 X2] [X3 X4]]. 
      exact (N.le_trans _ _ _ X1 (N.le_trans _ _ _ X2 (N.le_trans _ _ _ X3 (N.le_trans _ _ _ X4 (N.le_trans _ _ _ L6 (N.le_trans _ _ _ A1 Y2)))))). }
  assert (lk_alloc_start lk ≤ va) as Hav by (etransitivity; [exact A1|apply Hva]).
  rewrite (not_in_guards _ _ va _ L5 L5') by (etransitivity; [exact L5''|exact Hav]).
  rewrite (not_in_guards _ _ va _ L4 L4') by (etransitivity; [exact L4''|exact Hav]).
  rewrite decide_False.
  2:{ change PAGE_SIZE with 4096 in A3. pose proof (N.lt_le_trans _ _ _ L3' A1) as Hlt. clear - L3 Hlt A3 Hva. intros E. dlia. }
  unfold supers_upd. rewrite decide_True; [done|]. split; [|apply Hva].
  etransitivity; [|apply Hva]. apply super_end_le; [|exact A2]. etransitivity; [exact L6|exact A1].
Qed.
End boot.

(** ** The kernel's table *)

(** The entries of the kernel view are of the two lower levels. *)
Definition view_level (w : option (N * N)) : Prop := ∀ l e, w = Some (l, e) → level_ok l e.

Lemma level_entry l pa f : l ≤ 1 → pa < 2 ^ 39 → pa mod 4096 = 0 → f < 1024 → view_level (walk_of l (pte pa f)).
Proof.
  intros Hl Hpa Hm Hf l1 e1. unfold walk_of. case_match; [|done]. intros [= <- <-]. split; [done|]. intros _.
  assert (pa < PHYS_LIMIT) as Hp by (eapply N.lt_trans; [exact Hpa|done]). split.
  - rewrite pte_value by done. change (2 ^ 39) with 549755813888 in Hpa. change (2 ^ 54) with 18014398509481984. clear - Hpa Hf. dlia.
  - rewrite pte_addr_pte by done. change (2 ^ 39) with 549755813888 in Hpa. unfold PHYS_LIMIT, SUPER_PAGE.
    change (2 ^ 56) with 72057594037927936. clear - Hpa. lia.
Qed.

Lemma kernel_view_level ly va : layout_ok ly → va < 2 ^ 39 → view_level (kernel_view ly va).
Proof.
  intros L Hva.
  assert (∀ a e f w, f < 1024 → view_level w → view_level (region_upd a e f va w)) as Hr.
  { intros a e f w Hf Hw. unfold region_upd. case_decide; [|done]. apply level_entry; [lia| |apply N.Div0.mod_mul|done].
    eapply N.le_lt_trans; [|exact Hva]. rewrite N.mul_comm. by apply N.Div0.mul_div_le. }
  assert (∀ a e f w, f < 1024 → view_level w → view_level (supers_upd a e f va w)) as Hs.
  { intros a e f w Hf Hw. unfold supers_upd. case_decide; [|done]. apply level_entry; [lia| | |done].
    - eapply N.le_lt_trans; [|exact Hva]. rewrite N.mul_comm. by apply N.Div0.mul_div_le.
    - change Mmu.SUPER_PAGE with 2097152. clear. dlia. }
  assert (∀ l w, view_level w → view_level (unmap_upd l va w)) as Hun by (intros l w Hw; unfold unmap_upd; by case_decide).
  unfold kernel_view. case_decide; [apply level_entry; [lia|apply L|apply L|done]|]. do 2 apply Hun.
  case_decide; [done|]. apply Hs; [done|]. do 5 (apply Hr; [done|]). by apply Hs.
Qed.

Lemma mmu_init_run ly k bl :
  Inv (kmem k) bl → b_base (buddy (kmem k)) + b_real_count (buddy (kmem k)) * PAGE_SIZE ≤ PHYS_LIMIT → layout_ok ly →
  mmu_init ly k = Panic ∨
  ∃ root s' bl', mmu_init ly k = Ret (tt, mkKMem (set_hp_mem s' (km_heap k)) root (satp_value root)) ∧
    same_area (kmem k) s' ∧ pt_wf (b_base (buddy s'), bl') s' root ∧
    ∀ va, va < 2 ^ 39 → walk root va s' = kernel_view ly va.
Proof.
  intros I Hp L. unfold mmu_init. set (s := kmem k) in *.
  assert (pinv s (b_base (buddy s), bl)) as Hi by done.
  destruct (alloc_zero_law s _ Hi) as [E|(root & s1 & s2 & g' & E1 & E2 & F)].
  { left. rewrite (bind_ret _ _ _ _ _ (onpages_ret _ k _ _ E)). done. }
  rewrite (bind_ret _ _ _ _ _ (onpages_ret _ k _ _ E1)), (bind_expect_some _ root), bind_modify by done.
  set (k1 := set_km_root root (set_km_heap (set_hp_mem s1 (km_heap k)) k)).
  rewrite (bind_ret _ _ _ _ _ (onpages_ret _ k1 _ _ E2)). set (k2 := set_km_heap _ k1).
  destruct (fresh_root_wf _ _ _ _ _ F Hp) as (W & Hw & _).
  destruct (maps_kernel_region g' s2 root ly W L Hw) as [E|(s' & [b' bl'] & E & P & V)].
  { left. unfold mbind, M_bind. by rewrite (onpages_panic _ k2 E). }
  right. exists root, s', bl'. rewrite (bind_ret _ _ _ _ _ (onpages_ret _ k2 _ _ E)). unfold enable, modify. split; [done|].
  pose proof (ps_wf _ _ _ _ _ P) as W'. assert (b' = b_base (buddy s')) as -> by (destruct (pt_pinv _ _ _ W') as [_ Eb]; by rewrite Eb).
  split; [|by split]. eapply same_area_trans; [apply F|apply P].
Qed.

(** ** The heap on it *)

Lemma KInv_start ly s root bl h :
  layout_ok ly → pt_wf (b_base (buddy s), bl) s root → (∀ va, va < 2 ^ 39 → walk root va s = kernel_view ly va) →
  HInv h (ghost0 bl) → hp_mem h = s → b_base (buddy s) mod SUPER_PAGE = 0 →
  b_base (buddy s) + b_real_count (buddy s) * PAGE_SIZE ≤ 2 ^ 39 →
  (∀ va, b_base (buddy s) ≤ va < b_base (buddy s) + b_real_count (buddy s) * PAGE_SIZE →
     kernel_view ly va = walk_of 1 (pte (va / SUPER_PAGE * SUPER_PAGE) PTE_LEAF_RW)) →
  KInv ly (mkKMem h root (satp_value root)) (ghost0 bl) [].
Proof.
  intros L W V I Em Hb Hl Ha. pose proof (hi_base _ _ I) as Eb. pose proof (hi_bytes _ _ I) as En. rewrite Em in Eb, En.
  split; cbn [km_heap km_root km_satp]; rewrite ?Em, ?Eb, ?En; try done.
  - split; [|intros p a Hp Hq|by apply (pt_inj _ _ _ W)|by apply (pt_phys _ _ _ W)].
    + pose proof (beside_start h (ghost0 bl) I) as B. by rewrite Em in B.
    + destruct (pt_live _ _ _ W p a Hp Hq) as (i & -> & Hi). exists i. simpl. unfold ad. rewrite Eb. split; [done|]. split; [done|].
      intros [Hc|(x & q & n & Hx)]; [|by simpl in Hx; rewrite lookup_empty in Hx].
      destruct (class_at h i) as [c|] eqn:E; [|done]. apply (hi_class _ _ I) in E as [_ E]. by apply not_elem_of_nil in E.
  - intros va Hva. unfold translate. by rewrite V.
  - intros va l e Hva. rewrite V by done. by apply kernel_view_level.
  - intros p Hp. by apply not_elem_of_nil in Hp.
  - constructor.
  - intros va Hva. unfold in_area in Hva. rewrite Eb, En in Hva. by apply Ha.
Qed.

(** ** The idle stacks *)

Lemma reserve_one_run ly r k g :
  KInv ly k g [] →
  reserve_one r k = Panic ∨
  ∃ k' g', reserve_one r k = Ret (tt, k') ∧ KInv ly k' g' [] ∧ km_root k' = km_root k ∧
    hp_base (km_heap k') = hp_base (km_heap k) ∧ hp_bytes (km_heap k') = hp_bytes (km_heap k).
Proof.
  destruct r as [size al]. intros K. unfold reserve_one. cbn [fst snd]. destruct (decide (size = 0)) as [->|Hs].
  { right. exists k, g. split; [|done]. unfold mbind, M_bind, onheap, lift. cbn. by destruct k. }
  destruct (heap_alloc_run (km_heap k) g size al (ki_heap _ _ _ _ K)) as [(p & o & h' & g' & E & B & _ & _)|[E _]]; [lia|..].
  - right. destruct (born_step ly k g [] h' g' p o K B) as [K' [S1 [S2 S3] _ _]].
    exists (set_km_heap h' k), g'. by rewrite (bind_ret _ _ _ _ _ (onheap_ret _ _ _ _ E)).
  - left. unfold mbind, M_bind. by rewrite (onheap_panic _ _ E).
Qed.

Lemma reserve_run ly rs k g :
  KInv ly k g [] →
  for_each reserve_one rs k = Panic ∨
  ∃ k' g', for_each reserve_one rs k = Ret (tt, k') ∧ KInv ly k' g' [] ∧ km_root k' = km_root k ∧
    hp_base (km_heap k') = hp_base (km_heap k) ∧ hp_bytes (km_heap k') = hp_bytes (km_heap k).
Proof.
  revert k g. induction rs as [|r rs IH]; intros k g K; [right; by exists k, g|]. cbn [for_each].
  destruct (reserve_one_run ly r k g K) as [E|(k1 & g1 & E & K1 & <- & <- & <-)].
  { left. unfold mbind, M_bind. by rewrite E. }
  rewrite (bind_ret _ _ _ _ _ E). by apply (IH k1 g1).
Qed.

(** [ps] are stacks the new state has in addition. *)
Lemma idle_stacks_run ly n k g gs :
  KInv ly k g gs →
  idle_stacks n k = Panic ∨
  ∃ ps k' g' , idle_stacks n k = Ret (ps, k') ∧ KInv ly k' g' (rev ps ++ gs) ∧ length ps = n ∧
    km_root k' = km_root k ∧ hp_base (km_heap k') = hp_base (km_heap k) ∧ hp_bytes (km_heap k') = hp_bytes (km_heap k).
Proof.
  revert k g gs. induction n as [|n IH]; intros k g gs K; cbn [idle_stacks]; [right; by exists [], k, g|].
  destruct (stack_alloc_run ly k g gs K) as [[E _]|(p & k1 & g1 & E & K1 & [[S1 [S2 S3] _ _] _ _ _ _])].
  { left. unfold mbind, M_bind. by rewrite E. }
  rewrite (bind_ret _ _ _ _ _ E). destruct (IH k1 g1 (p :: gs) K1) as [E2|(ps & k2 & g2 & E2 & K2 & Hl & H1 & H2 & H3)].
  { left. unfold mbind, M_bind. by rewrite E2. }
  right. rewrite (bind_ret _ _ _ _ _ E2). exists (p :: ps), k2, g2. split; [done|].
  split; [simpl; by rewrite <-app_assoc|]. split; [simpl; by rewrite Hl|]. split; [congruence|split; congruence].
Qed.

(** ** [kernel_main] *)

(** What the boot leaves: the invariant of the kernel's memory with the idle stacks, on the
    memory from the allocator's base to the end of RAM. *)
Definition booted (lk : Linker) (b : Board) (idle : list N) (k : KMem) (g : HG) : Prop :=
  let re := ram_start b + ram_size b in
  KInv (layout lk b re) k g (rev idle) ∧ length idle = N.to_nat MAX_HARTS ∧
  hp_base (km_heap k) = alloc_base (lk_alloc_start lk) ∧ hp_base (km_heap k) + hp_bytes (km_heap k) = re.

Lemma sched_init_run ly rs k g :
  KInv ly k g [] →
  sched_init rs k = Panic ∨
  ∃ idle k' g', sched_init rs k = Ret (idle, k') ∧ KInv ly k' g' (rev idle) ∧ length idle = N.to_nat MAX_HARTS ∧
    hp_base (km_heap k') = hp_base (km_heap k) ∧ hp_bytes (km_heap k') = hp_bytes (km_heap k).
Proof.
  intros K. unfold sched_init. destruct (reserve_run ly rs k g K) as [E|(k1 & g1 & E & K1 & _ & H2 & H3)].
  { left. unfold mbind, M_bind. by rewrite E. }
  rewrite (bind_ret _ _ _ _ _ E). destruct (idle_stacks_run ly (N.to_nat MAX_HARTS) k1 g1 [] K1) as [|(ps & k2 & g2 & E2 & K2 & Hl & _ & A2 & A3)]; [by left|].
  right. exists ps, k2, g2. rewrite app_nil_r in K2. split; [done|]. split; [done|]. split; [done|]. split; congruence.
Qed.

Section main.
Context (lk : Linker) (b : Board) (p : BoardParams).
Context (Hlk : linker_ok lk) (Hb : board_ok (lk_kernel_end lk) b) (Hu : uart_ok b).
Notation re := (ram_start b + ram_size b).
Notation abase := (alloc_base (lk_alloc_start lk)).

Lemma linker_bounds : KERNEL_LINK_BASE ≤ lk_alloc_start lk ≤ SV39_MAX_PHYS.
Proof.
  destruct Hlk as [L1 [[X1 X2] [X3 X4]] _ _ _ [L6 L6']]. split; [|done]. rewrite <-L1.
  exact (N.le_trans _ _ _ X1 (N.le_trans _ _ _ X2 (N.le_trans _ _ _ X3 (N.le_trans _ _ _ X4 L6)))).
Qed.

Lemma kernel_main_run rs :
  abase < re →
  kernel_main lk b p rs kmem0 = Panic ∨
  ∃ idle k g, kernel_main lk b p rs kmem0 = Ret (idle, k) ∧ booted lk b idle k g.
Proof.
  intros Hlt. pose proof linker_bounds as La. destruct (mem_init_eq _ _ b p (kmem kmem0) Hb La) as (Hre & _).
  destruct (mem_init_run _ _ b p (kmem kmem0) Hb La eq_refl Hlt) as (s1 & bl1 & E1 & I1 & _ & Hm & Hb1 & Hr1 & _).
  assert (re ≤ 2 ^ 39) as Hlim by (etransitivity; [apply (bo_end _ _ Hb)|done]).
  unfold kernel_main. rewrite (bind_ret _ _ _ _ _ (onpages_ret _ kmem0 _ _ E1)). set (k1 := set_km_heap _ _).
  unfold ram_end, add_. rewrite (bind_expect_some _ re).
  2:{ apply checked_add_Some. split; [done|]. clear -Hre. unfold USIZE_MAX in *. lia. }
  pose proof (boot_layout_ok lk b Hlk Hb Hu) as Ly.
  destruct (mmu_init_run (layout lk b re) k1 bl1 I1) as [E2|(root & s2 & bl2 & E2 & S2 & W & V)].
  { change (kmem k1) with s1. rewrite Hb1, Hr1. etransitivity; [exact Hlim|done]. }
  { exact Ly. }
  { left. unfold mbind, M_bind. by rewrite E2. }
  rewrite (bind_ret _ _ _ _ _ E2). change (set_hp_mem s2 (km_heap k1)) with (heap0 s2).
  destruct S2 as [Sb Sr]. change (kmem k1) with s1 in Sb, Sr.
  assert (b_base (buddy s2) = abase) as Hb2 by congruence.
  assert (b_base (buddy s2) + b_real_count (buddy s2) * PAGE_SIZE = re) as Hr2 by (rewrite Sb, Sr, Hb1; exact Hr1).
  assert (Inv s2 bl2) as I2 by (apply (pt_pinv _ _ _ W)).
  destruct (heap_init_run s2 bl2 I2) as (h & E3 & I3 & Em).
  { rewrite Hb2. apply (N.lt_le_trans _ (lk_alloc_start lk)); [eapply N.lt_le_trans; [|apply La]; done|apply (alloc_base_ok _ (proj2 La))]. }
  { rewrite Hr2. clear -Hre. lia. }
  rewrite (bind_ret _ _ _ _ _ (onheap_ret _ (mkKMem (heap0 s2) root (satp_value root)) _ _ E3)).
  set (k3 := set_km_heap h _).
  pose proof (hi_base _ _ I3) as Hhb. pose proof (hi_bytes _ _ I3) as Hhn. rewrite Em in Hhb, Hhn.
  assert (KInv (layout lk b re) k3 (ghost0 bl2) []) as K3.
  { apply (KInv_start (layout lk b re) s2 root bl2 h Ly W V I3 Em).
    - rewrite Hb2. by apply max_block_super.
    - by rewrite Hr2.
    - intros va. rewrite Hr2, Hb2. by apply boot_area. }
  destruct (sched_init_run _ rs k3 _ K3) as [|(idle & k & g & E4 & K4 & Hl & A1 & A2)]; [by left|right].
  exists idle, k, g. split; [exact E4|]. split; [exact K4|]. split; [exact Hl|].
  change (km_heap k3) with h in A1, A2. rewrite A1, A2, Hhb, Hhn. by split.
Qed.

Lemma kernel_main_no_memory rs : re ≤ abase → kernel_main lk b p rs kmem0 = Panic.
Proof.
  intros Hle. pose proof linker_bounds as La. destruct (mem_init_eq _ _ b p (kmem kmem0) Hb La) as (_ & _ & _ & E).
  unfold kernel_main, mbind, M_bind. rewrite (onpages_panic _ kmem0); [done|]. rewrite E, (proj2 (N.leb_le _ _)); [done|exact Hle].
Qed.
End main.


(** 2 MiB of managed memory on a board with 18 MiB, and two collections reserved. *)
Definition small_linker : Linker :=
  mkLinker 0x80200000 0x80200000 0x80210000 0x80218000 0x80240000 0x80240000 0x80248000 0x80250000 0x80250000 0x80258000 0x80260000.
Definition small_board : Board := mkBoard 0x80000000 0x1200000 0x10000000 3686400 10000000 1.
Definition small_reserve : list (N * N) := [(4096, 3); (64, 3)].

Lemma small_boot_ok :
  linker_ok small_linker ∧ board_ok (lk_kernel_end small_linker) small_board ∧ uart_ok small_board ∧
  alloc_base (lk_alloc_start small_linker) = 0x81000000 ∧ ram_start small_board + ram_size small_board = 0x81200000.
Proof. split; [|split; [|split; [|by vm_compute]]]; [split..|]; vm_compute; intuition discriminate. Qed.

Lemma small_boot_returns : kernel_main small_linker small_board virt_params small_reserve kmem0 ≠ Panic.
Proof.
  assert (test_ret (kernel_main small_linker small_board virt_params small_reserve kmem0) (λ _ _, true) = true) as T by (vm_compute; reflexivity).
  intros E. rewrite E in T. clear E. discriminate T.
Qed.


(** A serial port above the Sv39 window passes the checks of the board, but has no address
    that translates to it; its mapping takes the place of the kernel page 2^39 below. *)
Definition far_uart : N := 2 ^ 39 + 0x80200000.
Definition far_uart_params : BoardParams :=
  mkParams 0x80000000 0x1200000 10000000 far_uart 3686400 [] 1 [].

Example uart_beyond_sv39 :
  match init_from_fdt KERNEL_LINK_BASE (lk_kernel_end small_linker) far_uart_params board0 with
  | Ret (_, b) =>
      test_ret (kernel_main small_linker b far_uart_params small_reserve kmem0) (λ _ k,
        bool_decide (uart_base b = far_uart) &&
        bool_decide (translate (km_root k) 0x80200123 (kmem k) = Some (far_uart + 0x123, PTE_LEAF_RW)) &&
        bool_decide (translate (km_root k) 0x80201123 (kmem k) = Some (0x80201123, PTE_LEAF_RX))) = true
  | _ => False
  end.
Proof. vm_compute. reflexivity. Qed.
