(* ===== verification/KernelMemProps.v ===== *)
(** * What holds of the kernel's memory

    The kernel's heap, its stacks, the pages it hands out and its own page table share one
    memory and one allocator.  [kernel_memory_safe] is about every sequence of their calls
    from boot on, with the kernel's loads and stores going through its page table. *)

From Stdlib Require Import ZifyN ZifyNat.
From stdpp Require Import base gmap numbers functions list.
From S2P Require Import Prelude Mem Dyadic MemInv MemSpec MemInit PageAlloc Mmu Pte MmuTree MmuSpec MmuKernel MmuProps.
From S2P Require Import Heap HeapInv HeapSteps HeapOps HeapProps HeapBeside Sched Fdt FdtProps KernelMem KernelMemInv KernelMemOps KernelBoot.

(** ** The clients *)

(** What a client may own: an object of the heap, a stack, a page. *)
Inductive kind := KObj (n : N) | KStack | KPage.
#[global] Instance kind_eq_dec : EqDecision kind.
Proof. solve_decision. Defined.
Definition extent (kd : kind) : N := match kd with KObj n => n | KStack => STACK_BYTES | KPage => PAGE_SIZE end.
(** The part below the usable bytes: the guard page of a stack. *)
Definition guard_bytes (kd : kind) : N := match kd with KStack => STACK_GUARD_SIZE | _ => 0 end.

(** A load or store of the kernel: the hardware walks the kernel's table, and an access it
    does not grant is an exception, which halts. *)
Definition kernel_pa (write : bool) (va : N) (k : KMem) : option N :=
  '(pa, f) ← translate (km_root k) va (kmem k);
  if negb (N.land f (if write then PTE_W else PTE_R) =? 0) then Some pa else None.
Definition kload (va : N) : MK N := λ k,
  match kernel_pa false va k with Some pa => Ret (rdw (km_heap k) pa, k) | None => Panic end.
Definition kstore (va v : N) : MK () := λ k,
  match kernel_pa true va k with Some pa => Ret (tt, set_km_heap (hwrite pa v (km_heap k)) k) | None => Panic end.

(** The calls: memory from the heap, a stack, a page; giving any of them back; a store into
    one of the words owned. *)
Inductive kcall := CAlloc (size k : N) | CStack | CPage | CFree (p : N) | CStore (p i v : N).

(** What the clients own, and the words they have stored. *)
Record client := mkClient { c_own : gmap N kind; c_mem : gmap N N }.

Definition own (p : N) (kd : kind) (c : client) : client := mkClient (<[p := kd]> (c_own c)) (c_mem c).
Definition disown (p : N) (kd : kind) (c : client) : client :=
  mkClient (delete p (c_own c)) (filter (λ kv, ¬ (p ≤ kv.1 < p + extent kd)) (c_mem c)).

Definition give_back (p : N) (kd : kind) : MK () :=
  match kd with
  | KObj n => onheap (heap_dealloc p n)
  | KStack => drop_stack p
  | KPage => onpages (expect_ok (free_pages p))
  end.

(** An allocation that stops the kernel ends the run: no client is left. *)
Definition kalloc (m : MK (option N)) (f : N → client) (k : KMem) : outcome (option client * KMem) :=
  match m k with
  | Ret (Some p, k') => Ret (Some (f p), k')
  | Ret (None, k') => Ret (None, k')
  | Panic => Ret (None, k)
  | Timeout => Timeout
  end.

Definition some {A} (m : MK A) : MK (option A) := a ← m; mret (Some a).

Definition kstep_call (x : kcall) (c : client) (k : KMem) : outcome (option client * KMem) :=
  match x with
  | CAlloc size al => kalloc (some (onheap (heap_alloc size (2 ^ al)))) (λ p, if size =? 0 then c else own p (KObj size) c) k
  | CStack => kalloc (some alloc_free_stack) (λ p, own p KStack c) k
  | CPage => kalloc (onpages (alloc_pages 0)) (λ p, own p KPage c) k
  | CFree p =>
      match c_own c !! p with
      | Some kd => (give_back p kd;; mret (Some (disown p kd c))) k
      | None => Ret (Some c, k)
      end
  | CStore p i v =>
      match c_own c !! p with
      | Some kd =>
          if (guard_bytes kd <=? i) && (i mod 8 =? 0) && (i + 8 <=? extent kd)
          then (kstore (p + i) v;; mret (Some (mkClient (c_own c) (<[p + i := v]> (c_mem c))))) k
          else Ret (Some c, k)
      | None => Ret (Some c, k)
      end
  end.

Fixpoint run_kernel (xs : list kcall) (c : client) (k : KMem) : outcome (client * KMem) :=
  match xs with
  | [] => Ret (c, k)
  | x :: xs =>
      match kstep_call x c k with
      | Ret (Some c', k') => run_kernel xs c' k'
      | Ret (None, k') => Ret (c, k)
      | Panic => Panic
      | Timeout => Timeout
      end
  end.

(** ** Their invariant *)
Section clients.
Context (ly : Layout).

Record client_ok (c : client) (k : KMem) (g : HG) (gs : list N) : Prop := mkClientOk {
  ck_inv : KInv ly k g gs;
  ck_stack p : c_own c !! p = Some KStack ↔ p ∈ gs;
  ck_obj p n : c_own c !! p = Some (KObj n) → 0 < n ∧ ∃ o, hg_live g !! p = Some o ∧ n ≤ obj_size o;
  ck_page p : c_own c !! p = Some KPage → ∃ i, p = ad (km_heap k) i ∧ standing k g i;
  ck_mem a v : c_mem c !! a = Some v → rdw (km_heap k) a = v ∧
    ∃ p kd i, c_own c !! p = Some kd ∧ a = p + i ∧ guard_bytes kd ≤ i ∧ i mod 8 = 0 ∧ i + 8 ≤ extent kd
}.

(** Where an owned byte lies. *)
Lemma own_place c k g gs p kd u :
  client_ok c k g gs → c_own c !! p = Some kd → u < extent kd →
  (∃ o, hg_live g !! p = Some o ∧ in_obj p o (p + u)) ∨
  (kd = KPage ∧ ∃ i, p = ad (km_heap k) i ∧ standing k g i ∧ in_range (km_heap k) i 0 (p + u)).
Proof.
  intros C Hp Hu. destruct kd as [n| |]; simpl in Hu.
  - left. destruct (ck_obj _ _ _ _ C p n Hp) as (_ & o & Ho & Hn). exists o. split; [done|]. unfold in_obj. lia.
  - left. apply (ck_stack _ _ _ _ C) in Hp. destruct (ki_stack _ _ _ _ (ck_inv _ _ _ _ C) p Hp) as [[_ [i Hl]] _].
    exists (Large i 3 STACK_BYTES). split; [done|]. unfold in_obj. simpl. lia.
  - right. split; [done|]. destruct (ck_page _ _ _ _ C p Hp) as (i & -> & Hs). exists i. split; [done|]. split; [done|].
    by apply page_range.
Qed.

(** Owned regions do not overlap. *)
Lemma own_apart c k g gs p q kd kd' u v :
  client_ok c k g gs → c_own c !! p = Some kd → c_own c !! q = Some kd' → u < extent kd → v < extent kd' →
  p + u = q + v → p = q.
Proof.
  intros C Hp Hq Hu Hv E. pose proof (ki_heap _ _ _ _ (ck_inv _ _ _ _ C)) as I.
  destruct (own_place c k g gs p kd u C Hp Hu) as [(o & Ho & Hin)|(-> & i & -> & Hs & Hr)];
    destruct (own_place c k g gs q kd' v C Hq Hv) as [(o' & Ho' & Hin')|(-> & j & -> & Hs' & Hr')].
  - apply (live_apart (km_heap k) g p q o o' (p + u) I Ho Ho' Hin). by rewrite E.
  - exfalso. apply (others_not_live (km_heap k) g j 0 _ I (proj1 Hs') Hr'). exists p, o. by rewrite <-E.
  - exfalso. apply (others_not_live (km_heap k) g i 0 _ I (proj1 Hs) Hr). exists q, o'. by rewrite E.
  - f_equal. destruct Hs as [[Hi _] _], Hs' as [[Hj _] _]. rewrite E in Hr.
    by apply (blocks_apart (km_heap k) g i 0 j 0 _ I Hi Hj Hr Hr').
Qed.

Lemma own_area c k g gs p kd u :
  client_ok c k g gs → c_own c !! p = Some kd → u < extent kd → in_area (km_heap k) (p + u).
Proof.
  intros C Hp Hu. pose proof (ki_heap _ _ _ _ (ck_inv _ _ _ _ C)) as I. unfold in_area.
  destruct (own_place c k g gs p kd u C Hp Hu) as [(o & Ho & Hin)|(-> & i & -> & Hs & Hr)].
  - pose proof (obj_in_area _ _ _ _ I Ho). unfold in_obj in Hin. lia.
  - pose proof (area_allocated _ _ i 0 I (proj1 (proj1 Hs))) as Ha. unfold in_range in Hr. unfold ad in *. lia.
Qed.

(** The usable bytes are no guard page, so the kernel can access them. *)
Lemma own_translate c k g gs p kd u :
  client_ok c k g gs → c_own c !! p = Some kd → guard_bytes kd ≤ u < extent kd →
  translate (km_root k) (p + u) (kmem k) = Some (p + u, PTE_LEAF_RW).
Proof.
  intros C Hp [Hl Hu]. pose proof (ck_inv _ _ _ _ C) as K.
  destruct (area_maps _ _ _ _ _ K (own_area c k g gs p kd u C Hp Hu)) as [Hlt Hm].
  rewrite (ki_view _ _ _ _ K _ Hlt), Hm, decide_False; [done|]. intros (q & Hq & E)%guarded_elem.
  pose proof (proj2 (ck_stack _ _ _ _ C q) Hq) as Hoq. destruct (ki_stack _ _ _ _ K q Hq) as [[Hqm _] _].
  assert (p + u = q + (p + u) mod 4096) as Eq by (clear -E Hqm; dlia).
  assert ((p + u) mod 4096 < 4096) as Hv by (by apply N.mod_lt).
  assert (p = q) as <-.
  { apply (own_apart c k g gs p q kd KStack u ((p + u) mod 4096) C Hp Hoq Hu); [|done].
    eapply N.lt_trans; [exact Hv|done]. }
  rewrite Hp in Hoq. injection Hoq as ->. change (guard_bytes KStack) with 4096 in Hl. lia.
Qed.

Lemma kernel_pa_own c k g gs p kd u w :
  client_ok c k g gs → c_own c !! p = Some kd → guard_bytes kd ≤ u < extent kd → kernel_pa w (p + u) k = Some (p + u).
Proof. intros C Hp Hu. unfold kernel_pa. rewrite (own_translate c k g gs p kd u C Hp Hu). by destruct w. Qed.

(** A guard page is never accessible. *)
Lemma kernel_pa_guard c k g gs p u w :
  client_ok c k g gs → c_own c !! p = Some KStack → u < STACK_GUARD_SIZE → kernel_pa w (p + u) k = None.
Proof.
  intros C Hp Hu. pose proof (ck_inv _ _ _ _ C) as K. change STACK_GUARD_SIZE with 4096 in Hu.
  assert (u < extent KStack) as Hu' by (eapply N.lt_trans; [exact Hu|done]).
  destruct (area_maps _ _ _ _ _ K (own_area c k g gs p KStack u C Hp Hu')) as [Hlt _].
  unfold kernel_pa. rewrite (ki_view _ _ _ _ K _ Hlt), decide_True; [done|]. apply guarded_elem. exists p.
  apply (ck_stack _ _ _ _ C) in Hp. split; [done|]. destruct (ki_stack _ _ _ _ K p Hp) as [[Hm _] _]. clear -Hm Hu. dlia.
Qed.

(** ** Every call keeps it *)

(** A word of a client in a step that loses something else. *)
Definition word_of (c : client) (a : N) : Prop :=
  ∃ p kd i, c_own c !! p = Some kd ∧ a = p + i ∧ guard_bytes kd ≤ i ∧ i mod 8 = 0 ∧ i + 8 ≤ extent kd.

Lemma word_kept c k g gs k' g' lost p kd i :
  client_ok c k g gs → kstep k g k' g' lost → c_own c !! p = Some kd → i mod 8 = 0 → i + 8 ≤ extent kd →
  ¬ lost (p + i) → (kd = KPage → ¬ lost p) → rdw (km_heap k') (p + i) = rdw (km_heap k) (p + i).
Proof.
  intros C S Hp Hm Hi Hl Hlp. destruct (own_place c k g gs p kd i C Hp ltac:(lia)) as [(o & Ho & Hin)|(-> & j & -> & Hs & _)].
  - apply (kt_objects _ _ _ _ _ S); [by exists p, o|done].
  - change (extent KPage) with 4096 in Hi. assert (i = i / 8 * 8) as -> by (clear -Hm; dlia).
    apply (kt_pages _ _ _ _ _ S); [done|by apply Hlp|clear -Hi; dlia].
Qed.

(** Something new is owned. *)
Lemma client_grow c k g gs k' g' gs' p kd :
  client_ok c k g gs → KInv ly k' g' gs' → kstep k g k' g' (λ _, False) → c_own c !! p = None →
  (∀ q, q ∈ gs' ↔ q ∈ gs ∨ (q = p ∧ kd = KStack)) →
  (∀ q o, hg_live g !! q = Some o → hg_live g' !! q = Some o) →
  match kd with
  | KObj n => 0 < n ∧ ∃ o, hg_live g' !! p = Some o ∧ n ≤ obj_size o
  | KStack => True
  | KPage => ∃ i, p = ad (km_heap k') i ∧ standing k' g' i
  end → client_ok (own p kd c) k' g' gs'.
Proof.
  intros C K' S Hn Hgs Hlv Hkd.
  assert (∀ q kq, c_own (own p kd c) !! q = Some kq ↔ (q = p ∧ kq = kd) ∨ c_own c !! q = Some kq) as Ho.
  { intros q kq. simpl. rewrite lookup_insert_Some. split; [naive_solver|]. intros [[-> ->]|Hq]; [by left|right].
    split; [|done]. congruence. }
  split; [done|..].
  - intros q. rewrite Ho, Hgs, (ck_stack _ _ _ _ C). naive_solver.
  - intros q n [[-> <-]|Hq]%Ho; [done|]. destruct (ck_obj _ _ _ _ C q n Hq) as (H0 & o & Hl & Hsz). eauto.
  - intros q [[-> <-]|Hq]%Ho; [done|]. destruct (ck_page _ _ _ _ C q Hq) as (i & -> & Hs). exists i.
    split; [unfold ad; by rewrite (proj1 (kt_area _ _ _ _ _ S))|]. apply (kt_pages _ _ _ _ _ S i 0 Hs); [tauto|done].
  - intros a v Ha. destruct (ck_mem _ _ _ _ C a v Ha) as (Hv & q & kq & i & Hq & -> & H1 & H2 & H3). split.
    + rewrite <-Hv. apply (word_kept c k g gs k' g' _ q kq i C S Hq H2 H3); tauto.
    + exists q, kq, i. split; [apply Ho; by right|done].
Qed.

(** Something is given back. *)
Lemma client_shrink c k g gs k' g' gs' lost p kd :
  client_ok c k g gs → KInv ly k' g' gs' → kstep k g k' g' lost → c_own c !! p = Some kd →
  (∀ q, q ∈ gs' ↔ q ∈ gs ∧ q ≠ p) →
  (∀ q, q ≠ p → hg_live g' !! q = hg_live g !! q) →
  (∀ q kq u, c_own c !! q = Some kq → q ≠ p → u < extent kq → ¬ lost (q + u)) →
  client_ok (disown p kd c) k' g' gs'.
Proof.
  intros C K' S Hp Hgs Hlv' Hlost.
  assert (∀ q kq, c_own (disown p kd c) !! q = Some kq ↔ q ≠ p ∧ c_own c !! q = Some kq) as Ho.
  { intros q kq. simpl. rewrite lookup_delete_Some. naive_solver. }
  split; [done|..].
  - intros q. rewrite Ho, Hgs, (ck_stack _ _ _ _ C). naive_solver.
  - intros q n [Hne Hq]%Ho. rewrite Hlv' by done. by apply (ck_obj _ _ _ _ C).
  - intros q [Hne Hq]%Ho. destruct (ck_page _ _ _ _ C q Hq) as (i & -> & Hs). exists i.
    split; [unfold ad; by rewrite (proj1 (kt_area _ _ _ _ _ S))|]. apply (kt_pages _ _ _ _ _ S i 0 Hs); [|done].
    pose proof (Hlost _ KPage 0 Hq Hne ltac:(done)) as Hn. by rewrite N.add_0_r in Hn.
  - intros a v [Ha Hna]%map_lookup_filter_Some. simpl in Hna.
    destruct (ck_mem _ _ _ _ C a v Ha) as (Hv & q & kq & i & Hq & -> & H1 & H2 & H3).
    assert (q ≠ p) as Hne by (intros ->; rewrite Hp in Hq; injection Hq as <-; lia). split.
    + rewrite <-Hv. apply (word_kept c k g gs k' g' lost q kq i C S Hq H2 H3).
      * apply (Hlost q kq i Hq Hne). lia.
      * intros ->. pose proof (Hlost _ KPage 0 Hq Hne ltac:(done)) as Hn. by rewrite N.add_0_r in Hn.
    + exists q, kq, i. split; [by apply Ho|done].
Qed.
(** ** The calls one by one *)

Lemma extent_pos c k g gs p kd : client_ok c k g gs → c_own c !! p = Some kd → 0 < extent kd.
Proof. intros C Hp. destruct kd as [n| |]; [by apply (ck_obj _ _ _ _ C p n Hp)|done..]. Qed.

(** The address of a new object is not owned yet. *)
Lemma fresh_object c k g gs p n :
  client_ok c k g gs → 0 < n → hg_live g !! p = None → (∀ a, kept (km_heap k) g a → ¬ (p ≤ a < p + n)) → c_own c !! p = None.
Proof.
  intros C Hn Hl Ha. destruct (c_own c !! p) as [kd|] eqn:E; [|done]. exfalso.
  destruct (own_place c k g gs p kd 0 C E (extent_pos c k g gs p kd C E)) as [(o & Ho & _)|(_ & i & -> & Hs & _)]; [congruence|].
  apply (Ha (ad (km_heap k) i)); [|lia]. rewrite <-(N.add_0_r (ad (km_heap k) i)). by apply (others_kept _ _ i 0 (proj1 Hs)).
Qed.

Definition call_ok (k : KMem) (r : outcome (option client * KMem)) : Prop :=
  ∃ oc k', r = Ret (oc, k') ∧
    match oc with
    | Some c' => km_root k' = km_root k ∧ hp_base (km_heap k') = hp_base (km_heap k) ∧
        hp_bytes (km_heap k') = hp_bytes (km_heap k) ∧ ∃ g' gs', client_ok c' k' g' gs'
    | None => True
    end.

Lemma call_done c' k g k' g' gs' lost r :
  r = Ret (Some c', k') → kstep k g k' g' lost → client_ok c' k' g' gs' → call_ok k r.
Proof. intros E [A1 [A2 A3] _ _] C. exists (Some c'), k'. split; [done|]. eauto 10. Qed.

Lemma call_nothing c k g gs r : r = Ret (Some c, k) → client_ok c k g gs → call_ok k r.
Proof. intros E C. exists (Some c), k. eauto 10. Qed.

Lemma call_stopped k k' r : r = Ret (None, k') → call_ok k r.
Proof. intros E. by exists None, k'. Qed.

Lemma alloc_call c k g gs size al : client_ok c k g gs → call_ok k (kstep_call (CAlloc size al) c k).
Proof.
  intros C. pose proof (ck_inv _ _ _ _ C) as K. cbn [kstep_call]. unfold kalloc, some.
  destruct (N.eqb_spec size 0) as [->|Hs].
  { apply (call_nothing c k g gs); [|done]. unfold mbind, M_bind, onheap, lift. cbn. by destruct k. }
  destruct (heap_alloc_run (km_heap k) g size al (ki_heap _ _ _ _ K)) as [(p & o & h' & g' & E & B & Hle & _)|[E _]]; [lia|..].
  2:{ apply (call_stopped k k). unfold mbind, M_bind. by rewrite (onheap_panic _ _ E). }
  destruct (born_step ly k g gs h' g' p o K B) as [K' S].
  eapply (call_done _ k g _ g' gs); [by rewrite (bind_ret _ _ _ _ _ (onheap_ret _ _ _ _ E))|exact S|].
  apply (client_grow c k g gs _ g' gs); try done.
  - apply (fresh_object c k g gs p (obj_size o) C); [lia|apply B|]. intros a Ha. exact (bn_apart _ _ _ _ _ _ B a Ha).
  - intros q. naive_solver.
  - intros q o' Hq. rewrite (bn_live _ _ _ _ _ _ B), lookup_insert_ne; [done|]. intros <-. pose proof (bn_new _ _ _ _ _ _ B). congruence.
  - split; [lia|]. exists o. split; [|done]. rewrite (bn_live _ _ _ _ _ _ B). apply lookup_insert_eq.
Qed.

Lemma stack_call c k g gs : client_ok c k g gs → call_ok k (kstep_call CStack c k).
Proof.
  intros C. pose proof (ck_inv _ _ _ _ C) as K. cbn [kstep_call]. unfold kalloc, some.
  destruct (stack_alloc_run ly k g gs K) as [[E _]|(p & k' & g' & E & K' & [S [i Hl] Hn _ Ha])].
  { apply (call_stopped k k). unfold mbind, M_bind. by rewrite E. }
  eapply (call_done _ k g _ g' (p :: gs)); [by rewrite (bind_ret _ _ _ _ _ E)|exact S|].
  apply (client_grow c k g gs k' g' (p :: gs) p KStack C K' S).
  - by apply (fresh_object c k g gs p STACK_BYTES C).
  - intros q. rewrite elem_of_cons. naive_solver.
  - intros q o' Hq. rewrite Hl, lookup_insert_ne; [done|]. intros <-. congruence.
  - done.
Qed.

Lemma page_call_ok c k g gs : client_ok c k g gs → call_ok k (kstep_call CPage c k).
Proof.
  intros C. pose proof (ck_inv _ _ _ _ C) as K. cbn [kstep_call]. unfold kalloc.
  destruct (page_alloc_step ly k g gs K) as [E|(i & k' & g' & E & K' & S & Hs & Hn & Hl)].
  { apply (call_stopped k k). by rewrite E. }
  eapply (call_done _ k g _ g' gs); [by rewrite E|exact S|].
  assert (ad (km_heap k') i = ad (km_heap k) i) as Ead by (apply ad_same, S).
  apply (client_grow c k g gs k' g' gs _ KPage C K' S).
  - destruct (c_own c !! ad (km_heap k) i) as [kd|] eqn:Ho; [|done]. exfalso.
    destruct (own_place c k g gs _ kd 0 C Ho (extent_pos c k g gs _ kd C Ho)) as [(o & Hlo & Hin)|(_ & j & Ej & Hj & _)].
    + apply (others_not_live (km_heap k') g' i 0 (ad (km_heap k) i + 0) (ki_heap _ _ _ _ K') (proj1 Hs)).
      * rewrite <-Ead. by apply page_range.
      * exists (ad (km_heap k) i), o. by rewrite Hl.
    + apply km_page_inj in Ej as <-. by apply Hn, Hj.
  - intros q. naive_solver.
  - intros q o. by rewrite Hl.
  - exists i. by split.
Qed.

Lemma free_object c k g gs p n :
  client_ok c k g gs → c_own c !! p = Some (KObj n) → call_ok k (kstep_call (CFree p) c k).
Proof.
  intros C Hp. pose proof (ck_inv _ _ _ _ C) as K. pose proof (ki_heap _ _ _ _ K) as I. cbn [kstep_call]. rewrite Hp.
  destruct (ck_obj _ _ _ _ C p n Hp) as (Hn & o & Ho & Hle).
  assert (p ∉ gs) as Hgs by (intros Hin; apply (ck_stack _ _ _ _ C) in Hin; congruence).
  destruct (heap_dealloc_run (km_heap k) g p o n I Ho Hn) as (h' & g' & E & G).
  destruct (gone_step ly k g gs h' g' p o K Ho Hgs G) as [K' S].
  eapply (call_done _ k g _ g' gs); [cbn [give_back]; by rewrite (bind_ret _ _ _ _ _ (onheap_ret _ _ _ _ E))|exact S|].
  apply (client_shrink c k g gs _ g' gs _ p (KObj n) C K' S Hp).
  - intros q. split; [|tauto]. intros Hq. split; [done|]. by intros ->.
  - intros q Hq. by rewrite (gn_live _ _ _ _ _ _ G), lookup_delete_ne.
  - intros q kq u Hq Hne Hu Hin. destruct (own_place c k g gs q kq u C Hq Hu) as [(o' & Ho' & Hin')|(_ & j & _ & Hj & Hr)].
    + apply Hne. symmetry. by apply (live_apart (km_heap k) g p q o o' (q + u) I Ho Ho').
    + apply (others_not_live (km_heap k) g j 0 _ I (proj1 Hj) Hr). by exists p, o.
Qed.

Lemma free_stack c k g gs p :
  client_ok c k g gs → c_own c !! p = Some KStack → call_ok k (kstep_call (CFree p) c k).
Proof.
  intros C Hp. pose proof (ck_inv _ _ _ _ C) as K. cbn [kstep_call]. rewrite Hp.
  pose proof (proj1 (ck_stack _ _ _ _ C p) Hp) as Hgs.
  destruct (drop_stack_run ly k g gs p K Hgs) as (k' & g' & E & K' & S & Hl).
  eapply (call_done _ k g _ g' _); [cbn [give_back]; by rewrite (bind_ret _ _ _ _ _ E)|exact S|].
  apply (client_shrink c k g gs k' g' (without p gs) _ p KStack C K' S Hp).
  - intros q. unfold without. rewrite list_elem_of_filter. tauto.
  - intros q Hq. by rewrite Hl, lookup_delete_ne.
  - intros q kq u Hq Hne Hu Hin. apply Hne. symmetry.
    apply (own_apart c k g gs p q KStack kq (q + u - p) u C Hp Hq); [cbn [extent]; lia|done|lia].
Qed.

Lemma free_page_call c k g gs p :
  client_ok c k g gs → c_own c !! p = Some KPage → call_ok k (kstep_call (CFree p) c k).
Proof.
  intros C Hp. pose proof (ck_inv _ _ _ _ C) as K. cbn [kstep_call]. rewrite Hp.
  destruct (ck_page _ _ _ _ C p Hp) as (i & -> & Hs).
  destruct (page_free_step ly k g gs i K Hs) as (k' & g' & E & K' & S & Hl).
  eapply (call_done _ k g _ g' gs); [cbn [give_back]; by rewrite (bind_ret _ _ _ _ _ E)|exact S|].
  apply (client_shrink c k g gs k' g' gs _ _ KPage C K' S Hp).
  - intros q. split; [|tauto]. intros Hq. split; [done|]. intros ->. apply (ck_stack _ _ _ _ C) in Hq. congruence.
  - intros q _. by rewrite Hl.
  - intros q kq u Hq Hne Hu Hin. apply Hne. symmetry.
    apply (own_apart c k g gs _ q KPage kq 0 u C Hp Hq); [done|done|]. by rewrite N.add_0_r.
Qed.
(** A store into an owned word. *)
Lemma store_call c k g gs p kd i v :
  client_ok c k g gs → c_own c !! p = Some kd → guard_bytes kd ≤ i → i mod 8 = 0 → i + 8 ≤ extent kd →
  kstore (p + i) v k = Ret (tt, set_km_heap (hwrite (p + i) v (km_heap k)) k) ∧
  client_ok (mkClient (c_own c) (<[p + i := v]> (c_mem c))) (set_km_heap (hwrite (p + i) v (km_heap k)) k) g gs.
Proof.
  intros C Hp H1 H2 H3. pose proof (ck_inv _ _ _ _ C) as K. pose proof (ki_heap _ _ _ _ K) as I.
  unfold kstore. rewrite (kernel_pa_own c k g gs p kd i true C Hp) by lia. split; [done|].
  set (h' := hwrite (p + i) v (km_heap k)).
  pose proof (own_place c k g gs p kd i C Hp ltac:(lia)) as Hpl.
  assert (kept (km_heap k) g (p + i)) as Hk.
  { destruct Hpl as [(o & Ho & Hin)|(_ & j & _ & [[Hj Hu] _] & Hr)]; [left; by exists p, o|right; by exists j, O]. }
  pose proof (kept_write _ _ _ v I Hk) as I'. fold h' in I'.
  assert (∀ q j w, path_ok q → tbl (kmem k) (km_root k) q = Some (ad (km_heap k) j) → others (km_heap k) g j 0 → w < 512 →
    ad (km_heap k) j + w * 8 ≠ p + i) as Htb.
  { intros q j w Hq Ht Hj Hw E. destruct Hpl as [(o & Ho & Hin)|(_ & j' & _ & Hs & Hr)].
    - apply (others_not_live (km_heap k) g j 0 _ I Hj (word_in_page _ j w Hw)). exists p, o. by rewrite E.
    - rewrite <-E in Hr. destruct (blocks_apart (km_heap k) g j 0 j' 0 _ I (proj1 Hj) (proj1 (proj1 Hs)) (word_in_page _ j w Hw) Hr) as [<- _].
      by apply (proj2 Hs q). }
  assert (KInv ly (set_km_heap h' k) g gs) as K'.
  { apply (KInv_heap ly k g gs h' g K I'); [done| |done]. intros q j Hq Ht Hj. split; [done|]. intros w Hw.
    apply rdw_ne. intros E. by apply (Htb q j w Hq Ht Hj Hw). }
  assert (∀ q, path_ok q → tbl (hp_mem h') (km_root k) q = tbl (kmem k) (km_root k) q) as T.
  { apply (tables_kept (H := heap_pages (km_heap k) g) (hg_bl g)); [apply K|]. intros q a Hq Ht w Hw.
    destruct (pt_live _ _ _ (ki_pt _ _ _ _ K) q a Hq Ht) as (j & -> & Hj). rewrite with_bl_same in Hj.
    apply (rdw_ne (p + i) v (km_heap k)). intros E. by apply (Htb q j w Hq Ht Hj Hw). }
  assert (∀ j, standing k g j → standing (set_km_heap h' k) g j) as Hst.
  { intros j [Hj Ht]. split; [done|]. intros q Hq. cbn [km_heap km_root set_km_heap]. rewrite T by done. by apply Ht. }
  split; [done|apply C|apply C| |].
  - intros q Hq. destruct (ck_page _ _ _ _ C q Hq) as (j & -> & Hs). exists j. split; [done|]. by apply Hst.
  - cbn [c_mem]. intros a w [[<- <-]|[Hne Hw]]%lookup_insert_Some.
    + split; [apply rdw_eq|]. by exists p, kd, i.
    + destruct (ck_mem _ _ _ _ C a w Hw) as (Hv & Ho). split; [|done]. rewrite <-Hv. by apply rdw_ne.
Qed.

Lemma call_run c k g gs x : client_ok c k g gs → call_ok k (kstep_call x c k).
Proof.
  intros C. destruct x as [size al| | |p|p i v].
  - by eapply alloc_call.
  - by eapply stack_call.
  - by eapply page_call_ok.
  - destruct (c_own c !! p) as [[n| |]|] eqn:Hp; [by eapply free_object|by eapply free_stack|by eapply free_page_call|].
    apply (call_nothing c k g gs); [|done]. cbn [kstep_call]. by rewrite Hp.
  - cbn [kstep_call]. destruct (c_own c !! p) as [kd|] eqn:Hp; [|by apply (call_nothing c k g gs)].
    destruct ((guard_bytes kd <=? i) && (i mod 8 =? 0) && (i + 8 <=? extent kd)) eqn:E; [|by apply (call_nothing c k g gs)].
    apply andb_prop in E as [[H1%N.leb_le H2%N.eqb_eq]%andb_prop H3%N.leb_le].
    destruct (store_call c k g gs p kd i v C Hp H1 H2 H3) as [E' C'].
    eexists _, _. split; [by rewrite (bind_ret _ _ _ _ _ E')|].
    split; [done|]. split; [done|]. split; [done|]. by exists g, gs.
Qed.

Lemma run_kernel_ok xs c k g gs :
  client_ok c k g gs →
  ∃ c' k' g' gs', run_kernel xs c k = Ret (c', k') ∧ client_ok c' k' g' gs' ∧ km_root k' = km_root k ∧
    hp_base (km_heap k') = hp_base (km_heap k) ∧ hp_bytes (km_heap k') = hp_bytes (km_heap k).
Proof.
  revert c k g gs. induction xs as [|x xs IH]; intros c k g gs C; cbn [run_kernel]; [eauto 10|].
  destruct (call_run c k g gs x C) as ([c'|] & k' & E & H); rewrite E; [|eauto 10].
  destruct H as (<- & <- & <- & g' & gs' & C'). by apply (IH c' k' g' gs').
Qed.

(** The idle stacks belong to the first client. *)
Definition boot_client (idle : list N) : client := mkClient (list_to_map ((λ p, (p, KStack)) <$> idle)) ∅.

Lemma boot_client_own idle p kd : NoDup idle → c_own (boot_client idle) !! p = Some kd ↔ p ∈ idle ∧ kd = KStack.
Proof.
  intros Hn. simpl. rewrite <-elem_of_list_to_map.
  2:{ rewrite <-list_fmap_compose. change (fst ∘ (λ q : N, (q, KStack))) with (@id N). by rewrite list_fmap_id. }
  rewrite list_elem_of_fmap. split; [intros (q & [= -> ->] & Hq); by split|]. intros [Hp ->]. by exists p.
Qed.

Lemma boot_client_ok idle k g : KInv ly k g (rev idle) → client_ok (boot_client idle) k g (rev idle).
Proof.
  intros K. assert (NoDup idle) as Hn by (rewrite (Permutation_rev idle); apply K).
  split; [done|..].
  - intros p. rewrite boot_client_own by done. rewrite <-(Permutation_rev idle). tauto.
  - by intros p n [_ ?]%boot_client_own.
  - by intros p [_ ?]%boot_client_own.
  - unfold boot_client. cbn [c_mem]. intros a v Ha. by apply lookup_empty_Some in Ha.
Qed.
End clients.


(** A thread's stack, an object and a page; stores into two of them; the stack goes back. *)
Definition small_calls : list kcall :=
  [CStack; CAlloc 100 3; CPage; CStore 0x81031000 4096 7; CStore 0x81012000 8 9].


(** The run of the witness, evaluated: the guard page of the new stack is gone until the
    stack is given back, and both words are there. *)
Example small_run_evaluates :
  test_ret (kernel_main small_linker small_board virt_params small_reserve kmem0) (λ idle k,
    test_ret (run_kernel small_calls (boot_client idle) k) (λ c k1,
      test_ret (run_kernel [CFree 0x81031000] c k1) (λ c2 k2,
        bool_decide (size (c_own c) = 7%nat ∧ size (c_own c2) = 6%nat) &&
        bool_decide (c_mem c = <[0x81032000 := 7]> {[0x81012008 := 9]} ∧ c_mem c2 = {[0x81012008 := 9]}) &&
        bool_decide (kernel_pa true 0x81031ff8 k1 = None ∧ kernel_pa true 0x81031ff8 k2 = Some 0x81031ff8) &&
        test_ret (kload 0x81032000 k1) (λ v _, v =? 7) && test_ret (kload 0x81012008 k2) (λ v _, v =? 9))))
  = true.
Proof. vm_compute. reflexivity. Qed.

(** ** One stack *)

Lemma without_new p gs : p ∉ gs → without p (p :: gs) = gs.
Proof.
  unfold without. intros Hn. rewrite filter_cons_False by tauto. induction gs as [|q gs IH]; [done|].
  apply not_elem_of_cons in Hn as [Hne Hn]. by rewrite filter_cons_True, IH.
Qed.

(** A page is a guard page of [p :: gs] when it is [p]'s or one of [gs]. *)
Lemma guarded_cons_view {A} p gs va (x : option A) :
  (if decide (guarded (p :: gs) va) then None else x) =
  if decide (va / 4096 = p / 4096) then None else if decide (guarded gs va) then None else x.
Proof.
  destruct (decide (va / 4096 = p / 4096)) as [Hp|Hp]; [by rewrite decide_True by (by left)|].
  by rewrite <-(guarded_cons_decide p gs va).
Qed.

Lemma sp_aligned p : p mod 4096 = 0 → sp p = p + 20480 ∧ sp p mod 16 = 0.
Proof.
  intros Hp. assert ((p + 20480) mod 16 = 0) as H16 by (clear -Hp; dlia). unfold sp.
  change THREAD_STACK_SIZE with 16384. change STACK_GUARD_SIZE with 4096. rewrite <-N.add_assoc. change (16384 + 4096) with 20480.
  change 0xF with (N.ones 4). rewrite N.ldiff_ones_r, N.shiftr_div_pow2, N.shiftl_mul_pow2. change (2 ^ 4) with 16.
  assert ((p + 20480) / 16 * 16 = p + 20480) as -> by (clear -H16; dlia). by split.
Qed.

Lemma small_stack_returns :
  test_ret (kernel_main small_linker small_board virt_params small_reserve kmem0)
    (λ _ k, test_ret (alloc_free_stack k) (λ _ _, true)) = true.
Proof. vm_compute. reflexivity. Qed.

(** C14: The life of a kernel stack.  [alloc_free_stack] fails only when the heap has no block
    for it or no page is left to split the superpage of its guard page.  Otherwise the stack
    is new memory apart from every object and page in use, none of whose words change, its stack pointer is 16-byte aligned at the upper end, and of all
    addresses only those of the page at its lower end change their translation: they have
    none.  Dropping it then cannot fail: every address of the lower half translates as
    before the stack was made, and the heap has the objects it had. *)
Theorem kernel_stack_correct (ly : Layout) (k : KMem) (g : HG) (gs : list N) :
  KInv ly k g gs →
  (alloc_free_stack k = Panic ∧
    (no_block g STACK_BYTES (2 ^ 12) ∨
     ∃ p h' s1, heap_alloc STACK_BYTES PAGE_SIZE (km_heap k) = Ret (p, h') ∧ alloc_pages 0 (hp_mem h') = Ret (None, s1))) ∨
  ∃ p k1 g1, alloc_free_stack k = Ret (p, k1) ∧ KInv ly k1 g1 (p :: gs) ∧
    p mod PAGE_SIZE = 0 ∧ sp p = p + STACK_BYTES ∧ sp p mod 16 = 0 ∧
    (∀ a, kept (km_heap k) g a → ¬ (p ≤ a < p + STACK_BYTES)) ∧
    (∀ a, in_live g a → rdw (km_heap k1) a = rdw (km_heap k) a) ∧
    (∀ i w, standing k g i → w < 512 →
       rdw (km_heap k1) (ad (km_heap k) i + w * 8) = rdw (km_heap k) (ad (km_heap k) i + w * 8)) ∧
    (∀ va, va < 2 ^ 39 → translate (km_root k1) va (kmem k1) =
       if decide (va / 4096 = p / 4096) then None else translate (km_root k) va (kmem k)) ∧
    ∃ k2 g2, drop_stack p k1 = Ret (tt, k2) ∧ KInv ly k2 g2 gs ∧ hg_live g2 = hg_live g ∧
      ∀ va, va < 2 ^ 39 → translate (km_root k2) va (kmem k2) = translate (km_root k) va (kmem k).
Proof.
  intros K. destruct (stack_alloc_run ly k g gs K) as [|(p & k1 & g1 & E & K1 & [S [i Hl] Hn Ha Hap])]; [by left|right].
  assert (p ∉ gs) as Hp by (intros Hin; destruct (ki_stack _ _ _ _ K p Hin) as [[_ [j Hj]] _]; congruence).
  destruct (drop_stack_run ly k1 g1 (p :: gs) p K1) as (k2 & g2 & E2 & K2 & _ & Hl2); [by left|].
  rewrite (without_new p gs Hp) in K2. destruct (sp_aligned p Ha) as [Hs1 Hs2].
  exists p, k1, g1. split; [exact E|]. split; [exact K1|]. split; [exact Ha|]. split; [exact Hs1|]. split; [exact Hs2|].
  split; [exact Hap|]. split; [intros a Hin; apply (kt_objects _ _ _ _ _ S a Hin); tauto|].
  split; [intros j w Hj Hw; apply (kt_pages _ _ _ _ _ S j w Hj); tauto|].
  split.
  - intros va Hva. rewrite (ki_view _ _ _ _ K1 va Hva), (ki_view _ _ _ _ K va Hva). apply guarded_cons_view.
  - exists k2, g2. split; [exact E2|]. split; [exact K2|]. split.
    + rewrite Hl2, Hl. by apply delete_insert_id.
    + intros va Hva. by rewrite (ki_view _ _ _ _ K2 va Hva), (ki_view _ _ _ _ K va Hva).
Qed.

Lemma kernel_stack_correct_witness :
  ∃ idle k g p k1, KInv (layout small_linker small_board 0x81200000) k g (rev idle) ∧
    alloc_free_stack k = Ret (p, k1) ∧ sp p = p + STACK_BYTES ∧
    ∃ k2 g2, drop_stack p k1 = Ret (tt, k2) ∧ hg_live g2 = hg_live g.
Proof.
  destruct small_boot_ok as (H1 & H2 & H3 & Ea & Er).
  destruct (kernel_main_run small_linker small_board virt_params H1 H2 H3 small_reserve) as [E|(idle & k & g & E & K & _)];
    [by rewrite Ea, Er|destruct (small_boot_returns E)|].
  rewrite Er in K. pose proof small_stack_returns as T. rewrite E in T. cbn [test_ret] in T.
  destruct (kernel_stack_correct _ k g (rev idle) K) as [[E1 _]|(p & k1 & g1 & E1 & _ & _ & Hs & _ & _ & _ & _ & _ & k2 & g2 & E2 & _ & Hl & _)].
  - rewrite E1 in T. discriminate T.
  - exists idle, k, g, p, k1. split; [exact K|]. split; [exact E1|]. split; [exact Hs|]. exists k2, g2. split; [exact E2|exact Hl].
Defined.
