(* ===== verification/SmpBoot.v ===== *)
(** * The start of the harts: entry.S, wake_secondaries and secondary_main

    One hart wins the arbitration of [_start] and boots the kernel; the others park until it
    has published its page table.  A step is what one hart does between two accesses of
    [BOOT_LOCK], [BOOT_SATP], [BOOT_RELEASE] and the counters of main.rs; any hart may make
    the next step, and the firmware may let a stopped hart enter at any time. *)

From Stdlib Require Import ZifyN ZifyNat.
From stdpp Require Import base gmap numbers functions list.
From S2P Require Import Prelude Mmu Sched Syscall.

(** Where a hart is. *)
Inductive Phase :=
| Stopped                (* waiting in the firmware *)
| Entry                  (* [_start], before the swap of [BOOT_LOCK] *)
| Main                   (* [kernel_main] up to [wake_secondaries] *)
| PubSatp                (* about to store [BOOT_SATP] *)
| PubRelease             (* about to store [BOOT_RELEASE] *)
| Starting (i : N)       (* the loop of [hsm_hart_start], at hart [i] *)
| Waiting (spins : N)    (* the loop on [harts_online] *)
| Running                (* behind [wake_secondaries] *)
| Halted                 (* after a panic *)
| Park                   (* [park_poll] *)
| Load                   (* [boot_done], about to load [BOOT_SATP] *)
| Secondary              (* [secondary_main] up to [mark_online] *)
| Marking                (* [mark_online] between its two accesses *)
| Idle.                  (* behind [mark_online] *)
#[global] Instance phase_eq_dec : EqDecision Phase.
Proof. solve_decision. Defined.

(** A hart with the registers the protocol sets. *)
Record Hart := mkHart { h_phase : Phase; h_satp : N; h_sscratch : N; h_sp : N }.
Definition set_h_phase (p : Phase) (x : Hart) : Hart := mkHart p (h_satp x) (h_sscratch x) (h_sp x).

(** The harts and the statics of main.rs. *)
Record Smp := mkSmp {
  harts : N → Hart; boot_lock : N; boot_satp : N; boot_release : N; harts_online : N; harts_online_mask : N
}.
Definition set_hart (h : N) (x : Hart) (s : Smp) : Smp :=
  mkSmp (<[h := x]> (harts s)) (boot_lock s) (boot_satp s) (boot_release s) (harts_online s) (harts_online_mask s).
Definition set_boot_lock (v : N) (s : Smp) : Smp :=
  mkSmp (harts s) v (boot_satp s) (boot_release s) (harts_online s) (harts_online_mask s).
Definition set_boot_satp (v : N) (s : Smp) : Smp :=
  mkSmp (harts s) (boot_lock s) v (boot_release s) (harts_online s) (harts_online_mask s).
Definition set_boot_release (v : N) (s : Smp) : Smp :=
  mkSmp (harts s) (boot_lock s) (boot_satp s) v (harts_online s) (harts_online_mask s).
Definition set_harts_online (v : N) (s : Smp) : Smp :=
  mkSmp (harts s) (boot_lock s) (boot_satp s) (boot_release s) v (harts_online_mask s).
Definition set_online_mask (v : N) (s : Smp) : Smp :=
  mkSmp (harts s) (boot_lock s) (boot_satp s) (boot_release s) (harts_online s) v.

Definition goto (h : N) (p : Phase) (s : Smp) : Smp := set_hart h (set_h_phase p (harts s h)) s.

(** What the code reads from elsewhere: the linker's symbols, [board::cpu_count] and the
    value [mmu::init] gives [satp]. *)
Record SmpEnv := mkSmpEnv { se_trap_base : N; se_idle_base : N; se_stack_top : N; se_cpus : N; se_satp : N }.
Section env.
Context (e : SmpEnv).

(** [_start]: Bare mode, no trap stack; then the swap of [BOOT_LOCK], and the winner clears
    the BSS, where the counters are. *)
Definition entered : Hart := mkHart Entry 0 0 0.
Definition start_step (h : N) (s : Smp) : Smp :=
  let won := boot_lock s =? 0 in
  let s := set_boot_lock 1 s in
  if won then set_hart h (mkHart Main 0 0 (se_stack_top e)) (set_online_mask 0 (set_harts_online 0 s))
  else goto h Park s.

Definition expected : N := N.min (se_cpus e) MAX_HARTS.

(** [kernel_main]: [init_traps], the table [enable_timer] indexes by [hartid()], and
    [mmu::init].  [ok] is false when one of the steps in between panics. *)
Definition main_step (h : N) (ok : bool) (s : Smp) : Smp :=
  let top := hart_trap_top (se_trap_base e) h in
  if usize_ok top && (hartid (se_trap_base e) top <? MAX_HARTS) && ok then
    set_hart h (mkHart (if expected <=? 1 then Running else PubSatp) (se_satp e) top (h_sp (harts s h))) s
  else goto h Halted s.

(** [wake_secondaries]; [started] is the answer of the firmware to [hsm_hart_start]. *)
Definition SPIN_LIMIT : N := 50000000.
Definition wake_step (h : N) (started : bool) (s : Smp) : option Smp :=
  match h_phase (harts s h) with
  | PubSatp => Some (goto h PubRelease (set_boot_satp (h_satp (harts s h)) s))
  | PubRelease => Some (goto h (Starting 0) (set_boot_release 1 s))
  | Starting i =>
      if expected <=? i then Some (goto h (Waiting 0) s)
      else
        let s' := goto h (Starting (i + 1)) s in
        if i =? h then Some s'
        else Some (if started && bool_decide (h_phase (harts s i) = Stopped) then set_hart i entered s' else s')
  | Waiting n =>
      if harts_online s + 1 <? expected
      then Some (goto h (if SPIN_LIMIT <? n + 1 then Halted else Waiting (n + 1)) s)
      else Some (goto h Running s)
  | _ => None
  end.

(** [park], [boot_done] and [secondary_main]. *)
Definition slot_top (base h : N) : N := N.shiftl (h + 1) 15 + base.
Definition park_step (h : N) (s : Smp) : option Smp :=
  match h_phase (harts s h) with
  | Park => Some (if boot_release s =? 0 then s else if MAX_HARTS <=? h then s else goto h Load s)
  | Load => Some (set_hart h (mkHart Secondary (boot_satp s) (slot_top (se_trap_base e) h) (slot_top (se_idle_base e) h)) s)
  | _ => None
  end.
Definition secondary_step (h : N) (s : Smp) : option Smp :=
  let x := harts s h in
  match h_phase x with
  | Secondary =>
      Some (set_harts_online (wrapping_add (harts_online s) 1)
        (set_hart h (mkHart Marking (h_satp x) (hart_trap_top (se_trap_base e) h) (h_sp x)) s))
  | Marking =>
      Some (goto h Idle (set_online_mask
        (N.lor (harts_online_mask s) (N.shiftl 1 (hartid (se_trap_base e) (h_sscratch x)))) s))
  | _ => None
  end.

(** One step of hart [h]; [None] where it has none. *)
Definition smp_step (h : N) (choice : bool) (s : Smp) : option Smp :=
  match h_phase (harts s h) with
  | Entry => Some (start_step h s)
  | Main => Some (main_step h choice s)
  | PubSatp | PubRelease | Starting _ | Waiting _ => wake_step h choice s
  | Park | Load => park_step h s
  | Secondary | Marking => secondary_step h s
  | Stopped | Running | Halted | Idle => None
  end.

(** The firmware lets a stopped hart enter. *)
Definition firmware_step (h : N) (s : Smp) : option Smp :=
  if decide (h_phase (harts s h) = Stopped) then Some (set_hart h entered s) else None.

(** The image as loaded: the statics of the BSS hold anything. *)
Definition smp0 (online mask : N) : Smp := mkSmp (λ _, mkHart Stopped 0 0 0) 0 0 0 online mask.

Inductive smp_reach : Smp → Prop :=
| reach_init o m : smp_reach (smp0 o m)
| reach_firmware h s s' : smp_reach s → firmware_step h s = Some s' → smp_reach s'
| reach_step h c s s' : smp_reach s → smp_step h c s = Some s' → smp_reach s'.

(** A run: which hart, or the firmware at it. *)
Inductive Move := Fw (h : N) | Step (h : N) (choice : bool).
Fixpoint smp_run (ms : list Move) (s : Smp) : option Smp :=
  match ms with
  | [] => Some s
  | Fw h :: ms => firmware_step h s ≫= smp_run ms
  | Step h c :: ms => smp_step h c s ≫= smp_run ms
  end.
End env.
