(* ===== verification/SmpProps.v ===== *)
(** * What holds of the start of the harts

    [SInv] is an invariant of the protocol of SmpBoot.v; the properties are about every
    interleaving of the harts, with a firmware that starts them when it likes or never. *)

From Stdlib Require Import ZifyN ZifyNat.
From stdpp Require Import base gmap numbers functions list.
From S2P Require Import Prelude Mmu Sched Syscall SyscallProps SmpBoot.

Definition phase (s : Smp) (h : N) : Phase := h_phase (harts s h).

(** Before the arbitration; after winning it; counted by [mark_online]. *)
Definition early (p : Phase) : bool := match p with Stopped | Entry => true | _ => false end.
Definition booting (p : Phase) : bool :=
  match p with Main | PubSatp | PubRelease | Starting _ | Waiting _ | Running | Halted => true | _ => false end.
Definition marked (p : Phase) : bool := match p with Marking | Idle => true | _ => false end.
Definition in_kernel (p : Phase) : bool := match p with Secondary | Marking | Idle => true | _ => false end.

Definition marked_count (f : N → Hart) : N :=
  foldr (λ h n, N.b2n (marked (h_phase (f h))) + n) 0 (nrange 0 (N.to_nat MAX_HARTS)).

Lemma marked_insert f h x :
  h < MAX_HARTS →
  marked_count (<[h := x]> f) + N.b2n (marked (h_phase (f h))) = marked_count f + N.b2n (marked (h_phase x)).
Proof.
  intros Hh. change MAX_HARTS with 4 in Hh. unfold marked_count. change (nrange 0 (N.to_nat MAX_HARTS)) with [0; 1; 2; 3]. cbn [foldr].
  assert (h = 0 ∨ h = 1 ∨ h = 2 ∨ h = 3) as Hc by (clear -Hh; lia).
  destruct Hc as [-> | [-> | [-> | ->] ] ]; rewrite fn_lookup_insert; repeat rewrite fn_lookup_insert_ne by done; lia.
Qed.

Lemma marked_count_ext f g : (∀ h, marked (h_phase (f h)) = marked (h_phase (g h))) → marked_count f = marked_count g.
Proof. intros E. unfold marked_count. induction (nrange _ _) as [|h l IH]; [done|]. cbn [foldr]. by rewrite E, IH. Qed.

Lemma marked_same f h x : marked (h_phase (f h)) = marked (h_phase x) → marked_count (<[h := x]> f) = marked_count f.
Proof.
  intros E. apply marked_count_ext. intros i. destruct (decide (i = h)) as [->|Hne]; [by rewrite fn_lookup_insert|by rewrite fn_lookup_insert_ne].
Qed.

Lemma marked_bound f : marked_count f ≤ MAX_HARTS.
Proof.
  unfold marked_count. change (nrange 0 (N.to_nat MAX_HARTS)) with [0; 1; 2; 3]. cbn [foldr]. change MAX_HARTS with 4.
  assert (∀ b, N.b2n b ≤ 1) as Hb by (intros []; done).
  pose proof (λ i, Hb (marked (h_phase (f i)))) as Hf. pose proof (Hf 0). pose proof (Hf 1). pose proof (Hf 2). pose proof (Hf 3). lia.
Qed.

Section inv.
Context (e : SmpEnv).

(** The registers of the boot hart and of a secondary one. *)
Definition boot_regs (h : N) (x : Hart) : Prop :=
  h < MAX_HARTS ∧ h_satp x = se_satp e ∧ h_sscratch x = hart_trap_top (se_trap_base e) h ∧ h_sp x = se_stack_top e.
Definition secondary_regs (h : N) (x : Hart) : Prop :=
  h < MAX_HARTS ∧ h_satp x = se_satp e ∧ h_sscratch x = hart_trap_top (se_trap_base e) h ∧
  h_sp x = hart_trap_top (se_idle_base e) h.

Definition hart_ok (s : Smp) (h : N) : Prop :=
  let x := harts s h in
  match h_phase x with
  | Stopped | Entry | Park | Halted => True
  | Main => h_sp x = se_stack_top e
  | PubSatp => boot_regs h x
  | PubRelease => boot_regs h x ∧ boot_satp s = se_satp e
  | Starting _ | Waiting _ => boot_regs h x ∧ boot_release s = 1
  | Running => boot_regs h x ∧ (1 < expected e → boot_release s = 1 ∧ expected e ≤ harts_online s + 1)
  | Load => h < MAX_HARTS ∧ boot_release s = 1
  | Secondary | Marking | Idle => secondary_regs h x ∧ boot_release s = 1
  end.

Record SInv (s : Smp) : Prop := mkSInv {
  si_before : boot_lock s = 0 → boot_release s = 0 ∧ ∀ h, early (phase s h) = true;
  si_unique h i : booting (phase s h) = true → booting (phase s i) = true → h = i;
  si_release : boot_release s = 0 ∨ boot_release s = 1 ∧ boot_satp s = se_satp e;
  si_hart h : hart_ok s h;
  si_count : boot_lock s ≠ 0 → harts_online s = marked_count (harts s) ∧
    ∀ h, N.testbit (harts_online_mask s) h = bool_decide (phase s h = Idle)
}.

Lemma slot_top_eq base h : slot_top base h = hart_trap_top base h.
Proof.
  unfold slot_top, hart_trap_top. rewrite N.shiftl_mul_pow2. change (2 ^ 15) with TRAP_STRIDE. apply N.add_comm.
Qed.

Lemma hartid_top h : usize_ok (hart_trap_top (se_trap_base e) h) = true → hartid (se_trap_base e) (hart_trap_top (se_trap_base e) h) = h.
Proof.
  intros Hu%N.leb_le. apply hartid_slot; unfold hart_trap_top in *; [done|]. unfold TRAP_STRIDE. clear. lia.
Qed.

Lemma phase_insert s h x i : phase (set_hart h x s) i = if decide (i = h) then h_phase x else phase s i.
Proof. unfold phase. simpl. case_decide as E; [subst; by rewrite fn_lookup_insert|by rewrite fn_lookup_insert_ne]. Qed.

(** The other harts, when the statics only advance. *)
Record advances (s s' : Smp) : Prop := {
  ad_release : boot_release s = 1 → boot_release s' = 1;
  ad_satp : boot_satp s = se_satp e → boot_satp s' = se_satp e;
  ad_online : harts_online s ≤ harts_online s'
}.

Lemma hart_ok_other s s' i : advances s s' → harts s' i = harts s i → hart_ok s i → hart_ok s' i.
Proof.
  intros [A1 A2 A3] E. unfold hart_ok. rewrite E. destruct (h_phase (harts s i)); try tauto.
  intros [Hr H]. split; [done|]. intros Hx. destruct (H Hx) as [H1 H2]. split; [by apply A1|]. clear -H2 A3. lia.
Qed.

(** A step of one hart behind the arbitration. *)
Lemma SInv_step s s' h x :
  SInv s → boot_lock s ≠ 0 → boot_lock s' ≠ 0 → harts s' = <[h := x]> (harts s) → advances s s' →
  (booting (h_phase x) = true → booting (phase s h) = true) →
  (boot_release s' = 0 ∨ boot_release s' = 1 ∧ boot_satp s' = se_satp e) →
  hart_ok s' h →
  harts_online s' = marked_count (harts s') →
  (∀ i, N.testbit (harts_online_mask s') i = bool_decide (phase s' i = Idle)) → SInv s'.
Proof.
  intros I Hl El Eh A Hb Hr Hok Hc Hm.
  assert (∀ i, i ≠ h → harts s' i = harts s i) as Ho by (intros i Hi; by rewrite Eh, fn_lookup_insert_ne).
  assert (∀ i, booting (phase s' i) = true → booting (phase s i) = true) as Hbs.
  { intros i. destruct (decide (i = h)) as [->|Hi]; [|unfold phase; by rewrite Ho]. unfold phase at 1. by rewrite Eh, fn_lookup_insert. }
  split; [done| |done| |done].
  - intros i j Hi%Hbs Hj%Hbs. by apply (si_unique _ I).
  - intros i. destruct (decide (i = h)) as [->|Hi]; [done|]. eapply hart_ok_other; [exact A|by apply Ho|by apply I].
Qed.

(** A hart moves on and the statics stay. *)
Lemma SInv_move s h x :
  SInv s → boot_lock s ≠ 0 → marked (h_phase x) = marked (phase s h) → (h_phase x = Idle ↔ phase s h = Idle) →
  (booting (h_phase x) = true → booting (phase s h) = true) → hart_ok (set_hart h x s) h → SInv (set_hart h x s).
Proof.
  intros I Hl Hm Hi Hb Hok. destruct (si_count _ I Hl) as [Hc Hk].
  apply (SInv_step s _ h x); try done; [apply I|..].
  - change (harts_online (set_hart h x s)) with (harts_online s). rewrite Hc. symmetry. by apply marked_same.
  - intros i. change (harts_online_mask (set_hart h x s)) with (harts_online_mask s). rewrite Hk, phase_insert.
    case_decide as E; [subst i|done]. by apply bool_decide_ext.
Qed.

Lemma SInv_goto s h p :
  SInv s → boot_lock s ≠ 0 → marked p = marked (phase s h) → (p = Idle ↔ phase s h = Idle) →
  (booting p = true → booting (phase s h) = true) → hart_ok (goto h p s) h → SInv (goto h p s).
Proof. intros. by apply SInv_move. Qed.

(** Stores of the boot hart. *)
Lemma SInv_satp s : SInv s → SInv (set_boot_satp (se_satp e) s).
Proof.
  intros [I1 I2 I3 I4 I5]. split; try done; [by destruct I3 as [|[? _]]; [left|right]|].
  intros h. by apply (hart_ok_other s); [split|..].
Qed.
Lemma SInv_release s : SInv s → boot_lock s ≠ 0 → boot_satp s = se_satp e → SInv (set_boot_release 1 s).
Proof.
  intros [I1 I2 I3 I4 I5] Hl Hs. split; try done; [by right|]. intros h. by apply (hart_ok_other s); [split|..].
Qed.

(** A stopped hart enters. *)
Lemma SInv_enter s h : SInv s → phase s h = Stopped → SInv (set_hart h entered s).
Proof.
  intros I Hp. destruct (decide (boot_lock s = 0)) as [Hl|Hl].
  - destruct (si_before _ I Hl) as [Hr He].
    assert (∀ i, early (phase (set_hart h entered s) i) = true) as He' by (intros i; rewrite phase_insert; by case_decide).
    assert (∀ i, booting (phase (set_hart h entered s) i) = false) as Hnb by (intros i; specialize (He' i); by destruct (phase _ i)).
    split; [done|intros i j; by rewrite Hnb|by left| |done].
    intros i. specialize (He' i). unfold hart_ok, phase in *. by destruct (h_phase (harts (set_hart h entered s) i)).
  - apply SInv_move; rewrite ?Hp; try done. unfold hart_ok. simpl. by rewrite fn_lookup_insert.
Qed.

Lemma behind s h : SInv s → early (phase s h) = false → boot_lock s ≠ 0.
Proof. intros I He Hl. destruct (si_before _ I Hl) as [_ Hh]. rewrite Hh in He. done. Qed.

(** The arbitration. *)
Lemma SInv_start s h : SInv s → phase s h = Entry → SInv (start_step e h s).
Proof.
  intros I Hp. unfold start_step. destruct (boot_lock s =? 0) eqn:E.
  - apply N.eqb_eq in E. destruct (si_before _ I E) as [Hr He]. set (s' := set_hart h _ _).
    assert (∀ i, i ≠ h → early (phase s' i) = true) as Ho.
    { intros i Hi. unfold s'. rewrite phase_insert, decide_False by done. apply He. }
    assert (phase s' h = Main) as Hh by (unfold s'; by rewrite phase_insert, decide_True).
    assert (∀ i, booting (phase s' i) = true → i = h) as Hb.
    { intros i Hi. destruct (decide (i = h)) as [|Hne]; [done|]. specialize (Ho i Hne). by destruct (phase s' i). }
    split; [done|intros i j Hi%Hb Hj%Hb; congruence|by left| |].
    + intros i. unfold hart_ok. destruct (decide (i = h)) as [->|Hi].
      * unfold s'. simpl. by rewrite fn_lookup_insert.
      * specialize (Ho i Hi). unfold phase in Ho. by destruct (h_phase (harts s' i)).
    + intros _. assert (∀ i, marked (phase s' i) = false ∧ phase s' i ≠ Idle) as Hn.
      { intros i. destruct (decide (i = h)) as [->|Hi]; [by rewrite Hh|]. specialize (Ho i Hi). by destruct (phase s' i). }
      split.
      * change (harts_online s') with 0. unfold marked_count. induction (nrange _ _) as [|i l IH]; [done|].
        cbn [foldr]. change (h_phase (harts s' i)) with (phase s' i). by rewrite (proj1 (Hn i)), <-IH.
      * intros i. change (harts_online_mask s') with 0. rewrite N.bits_0. symmetry. by apply bool_decide_eq_false_2, Hn.
  - apply N.eqb_neq in E. assert (SInv (set_boot_lock 1 s)) as I1.
    { destruct I as [I1 I2 I3 I4 I5]. split; [done|done|done| |by intros _; apply I5]. intros i. by apply (hart_ok_other s); [split|..]. }
    apply SInv_goto; try done; change (phase (set_boot_lock 1 s) h) with (phase s h); rewrite ?Hp; try done.
    unfold hart_ok. simpl. by rewrite fn_lookup_insert.
Qed.

(** [kernel_main] before the others are woken. *)
Lemma SInv_main s h ok : SInv s → phase s h = Main → SInv (main_step e h ok s).
Proof.
  intros I Hp. assert (boot_lock s ≠ 0) as Hl by (apply (behind s h I); by rewrite Hp).
  unfold main_step. destruct (usize_ok _ && _ && ok) eqn:E.
  - apply andb_prop in E as [[Hu Hh]%andb_prop _]. rewrite (hartid_top h Hu) in Hh. apply N.ltb_lt in Hh.
    pose proof (si_hart _ I h) as Hk. unfold hart_ok in Hk. unfold phase in Hp. rewrite Hp in Hk.
    apply SInv_move; unfold phase; rewrite ?Hp; try done; [by destruct (expected e <=? 1)..|].
    unfold hart_ok. cbn [harts set_hart]. rewrite fn_lookup_insert. cbn [h_phase].
    destruct (expected e <=? 1) eqn:Ex; (split; [done|]); [|done].
    apply N.leb_le in Ex. intros Hx. clear -Ex Hx. lia.
  - apply SInv_goto; rewrite ?Hp; try done. unfold hart_ok, goto. cbn [harts set_hart]. by rewrite fn_lookup_insert.
Qed.

Lemma goto_hart s h p : harts (goto h p s) h = set_h_phase p (harts s h).
Proof. unfold goto. simpl. by rewrite fn_lookup_insert. Qed.

(** [wake_secondaries]. *)
Lemma SInv_wake s s' h c : SInv s → booting (phase s h) = true → wake_step e h c s = Some s' → SInv s'.
Proof.
  intros I Hb. assert (boot_lock s ≠ 0) as Hl by (apply (behind s h I); by destruct (phase s h)).
  pose proof (si_hart _ I h) as Hk. unfold hart_ok in Hk. unfold wake_step. change (h_phase (harts s h)) with (phase s h) in *.
  destruct (phase s h) as [| | | | |i|n| | | | | | |] eqn:Hp; try done.
  - intros [= <-]. destruct Hk as (H1 & -> & H2). pose proof (SInv_satp s I) as I1.
    apply SInv_goto; change (phase (set_boot_satp (se_satp e) s) h) with (phase s h); rewrite ?Hp; try done.
    unfold hart_ok. rewrite goto_hart. cbn [h_phase set_h_phase]. split; [|done]. pose proof (si_hart _ I h) as Hk.
    unfold hart_ok in Hk. change (h_phase (harts s h)) with (phase s h) in Hk. rewrite Hp in Hk. exact Hk.
  - intros [= <-]. destruct Hk as [Hr Hs]. pose proof (SInv_release s I Hl Hs) as I1.
    apply SInv_goto; change (phase (set_boot_release 1 s) h) with (phase s h); rewrite ?Hp; try done.
    unfold hart_ok. rewrite goto_hart. by split.
  - assert (∀ p, booting p = true → marked p = false → hart_ok (goto h p s) h → SInv (goto h p s)) as Hgo.
    { intros p Hbp Hmp Hok. apply SInv_goto; rewrite ?Hp; try done. by destruct p. }
    assert (SInv (goto h (Starting (i + 1)) s)) as Hnext.
    { apply Hgo; try done. unfold hart_ok. by rewrite goto_hart. }
    destruct (expected e <=? i); [intros [= <-]; apply Hgo; try done; unfold hart_ok; by rewrite goto_hart|].
    destruct (i =? h) eqn:Ei; [by intros [= <-]|]. apply N.eqb_neq in Ei. intros [= <-].
    destruct (c && bool_decide (h_phase (harts s i) = Stopped)) eqn:Ec; [|done].
    apply andb_prop in Ec as [_ Hst%bool_decide_eq_true]. apply SInv_enter; [done|].
    unfold goto. by rewrite phase_insert, decide_False.
  - destruct (harts_online s + 1 <? expected e) eqn:Ex; intros [= <-].
    + apply SInv_goto; rewrite ?Hp; try done; [by destruct (SPIN_LIMIT <? n + 1)..|].
      unfold hart_ok. rewrite goto_hart. cbn [h_phase set_h_phase]. by destruct (SPIN_LIMIT <? n + 1).
    + apply SInv_goto; rewrite ?Hp; try done. unfold hart_ok. rewrite goto_hart. cbn [h_phase set_h_phase].
      destruct Hk as [Hr Hs]. split; [done|]. intros _. split; [done|]. by apply N.ltb_ge.
Qed.

(** [park] and [boot_done]. *)
Lemma SInv_park s s' h : SInv s → park_step e h s = Some s' → SInv s'.
Proof.
  intros I. unfold park_step. change (h_phase (harts s h)) with (phase s h).
  destruct (phase s h) eqn:Hp; try done.
  - assert (boot_lock s ≠ 0) as Hl by (apply (behind s h I); by rewrite Hp).
    destruct (boot_release s =? 0) eqn:Er; [by intros [= <-]|]. destruct (MAX_HARTS <=? h) eqn:Eh; [by intros [= <-]|].
    intros [= <-]. apply SInv_goto; rewrite ?Hp; try done. unfold hart_ok. rewrite goto_hart. cbn [h_phase set_h_phase].
    apply N.leb_gt in Eh. apply N.eqb_neq in Er. split; [done|]. by destruct (si_release _ I) as [|[? _]].
  - intros [= <-]. assert (boot_lock s ≠ 0) as Hl by (apply (behind s h I); by rewrite Hp).
    pose proof (si_hart _ I h) as Hk. unfold hart_ok in Hk. change (h_phase (harts s h)) with (phase s h) in Hk. rewrite Hp in Hk.
    destruct Hk as [Hh Hr]. apply SInv_move; rewrite ?Hp; try done.
    unfold hart_ok. cbn [harts set_hart]. rewrite fn_lookup_insert. cbn [h_phase]. unfold secondary_regs. cbn [h_satp h_sscratch h_sp].
    rewrite !slot_top_eq. destruct (si_release _ I) as [H0|[_ Hs]]; [rewrite Hr in H0; discriminate H0|done].
Qed.

Context (Htrap : se_trap_base e + MAX_HARTS * TRAP_STRIDE ≤ USIZE_MAX).

Lemma hartid_below h : h < MAX_HARTS → hartid (se_trap_base e) (hart_trap_top (se_trap_base e) h) = h.
Proof.
  intros Hh. apply hartid_top. unfold usize_ok. apply N.leb_le. etransitivity; [|exact Htrap].
  unfold hart_trap_top. apply N.add_le_mono_l, N.mul_le_mono_r. clear -Hh. lia.
Qed.

(** [secondary_main]. *)
Lemma SInv_secondary s s' h : SInv s → secondary_step e h s = Some s' → SInv s'.
Proof.
  intros I. unfold secondary_step. change (h_phase (harts s h)) with (phase s h).
  pose proof (si_hart _ I h) as Hk. unfold hart_ok in Hk. change (h_phase (harts s h)) with (phase s h) in Hk.
  destruct (phase s h) eqn:Hp; try done; destruct Hk as [(H1 & H2 & H3 & H4) Hr]; intros [= <-];
    (assert (boot_lock s ≠ 0) as Hl by (apply (behind s h I); by rewrite Hp)); destruct (si_count _ I Hl) as [Hc Hm].
  - set (x := mkHart Marking _ _ _).
    pose proof (marked_insert (harts s) h x H1) as Hx. change (h_phase (harts s h)) with (phase s h) in Hx. rewrite Hp in Hx.
    cbn [N.b2n marked h_phase x] in Hx. rewrite N.add_0_r in Hx.
    pose proof (marked_bound (harts s)) as Hb. change MAX_HARTS with 4 in Hb.
    assert (wrapping_add (harts_online s) 1 = harts_online s + 1) as Hw.
    { apply wrapping_add_le. rewrite Hc. unfold USIZE_MAX. clear -Hb. lia. }
    apply (SInv_step s _ h x); try done.
    + split; [done|done|]. cbn [harts_online set_harts_online]. rewrite Hw. clear. lia.
    + apply I.
    + unfold hart_ok. cbn [harts set_hart set_harts_online]. rewrite fn_lookup_insert. cbn [h_phase x]. done.
    + cbn [harts_online set_harts_online harts set_hart]. by rewrite Hw, Hc, Hx.
    + intros i. change (harts_online_mask _) with (harts_online_mask s). rewrite Hm.
      change (phase (set_harts_online (wrapping_add (harts_online s) 1) (set_hart h x s)) i) with (phase (set_hart h x s) i).
      rewrite phase_insert. case_decide as E; [subst i; by rewrite Hp|done].
  - rewrite H3, hartid_below by done. set (v := N.lor _ _).
    apply (SInv_step s _ h (set_h_phase Idle (harts s h))); try done; [apply I|..].
    + unfold hart_ok. rewrite goto_hart. cbn [h_phase set_h_phase]. done.
    + change (harts_online _) with (harts_online s). rewrite Hc. symmetry. apply marked_same.
      change (h_phase (harts s h)) with (phase s h). by rewrite Hp.
    + intros i. change (harts_online_mask _) with v. unfold v. rewrite N.lor_spec, Hm.
      unfold goto. rewrite phase_insert. cbn [h_phase set_h_phase]. rewrite N.shiftl_1_l, N.pow2_bits_eqb.
      change (phase (set_online_mask v s) i) with (phase s i).
      case_decide as E; [subst i; by rewrite N.eqb_refl, orb_true_r|].
      rewrite (proj2 (N.eqb_neq h i)) by congruence. by rewrite orb_false_r.
Qed.

Lemma SInv_smp_step s s' h c : SInv s → smp_step e h c s = Some s' → SInv s'.
Proof.
  intros I. unfold smp_step. change (h_phase (harts s h)) with (phase s h). destruct (phase s h) eqn:Hp; try done.
  - intros [= <-]. by apply SInv_start.
  - intros [= <-]. by apply SInv_main.
  - apply SInv_wake; [done|by rewrite Hp].
  - apply SInv_wake; [done|by rewrite Hp].
  - apply SInv_wake; [done|by rewrite Hp].
  - apply SInv_wake; [done|by rewrite Hp].
  - by apply SInv_park.
  - by apply SInv_park.
  - by apply SInv_secondary.
  - by apply SInv_secondary.
Qed.

Lemma SInv_reach s : smp_reach e s → SInv s.
Proof.
  induction 1 as [o m|h s s' _ IH E|h c s s' _ IH E].
  - split; try done. by left.
  - unfold firmware_step in E. case_decide as Hp; [|done]. injection E as <-. by apply SInv_enter.
  - by apply (SInv_smp_step s s' h c).
Qed.
End inv.

(** ** The properties *)


Lemma run_reach e ms s s' : smp_reach e s → smp_run e ms s = Some s' → smp_reach e s'.
Proof.
  revert s. induction ms as [|[h|h c] ms IH]; intros s H; simpl; [by intros [= <-]|..].
  - intros (s1 & E1 & E2)%bind_Some. apply (IH s1); [|done]. by apply (reach_firmware e h s).
  - intros (s1 & E1 & E2)%bind_Some. apply (IH s1); [|done]. by apply (reach_step e h c s).
Qed.

(** A board with four harts, the last one first. *)
Definition four_harts : SmpEnv := mkSmpEnv 0x80250000 0x80270000 0x80250000 4 (satp_value 0x81000000).
Definition wakes (h : N) : list Move := replicate 5 (Step h true).
Definition four_boot : list Move :=
  Fw 3 :: replicate 9 (Step 3 true) ++ wakes 0 ++ wakes 2 ++ replicate 7 (Step 3 true) ++ wakes 1 ++ [Step 3 true].

(** Evaluate a test of the end of a run. *)
Definition test_run (e : SmpEnv) (ms : list Move) (t : Smp → bool) : bool :=
  match smp_run e ms (smp0 77 99) with Some s => t s | None => false end.

Lemma test_run_some e ms t : test_run e ms t = true → ∃ s, smp_run e ms (smp0 77 99) = Some s ∧ smp_reach e s ∧ t s = true.
Proof.
  unfold test_run. destruct (smp_run e ms (smp0 77 99)) as [s|] eqn:E; [|done]. intros H. exists s. split; [done|].
  split; [|done]. by apply (run_reach e ms (smp0 77 99)); [constructor|].
Qed.

Lemma four_boot_runs : test_run four_harts four_boot (λ s,
  bool_decide ((phase s <$> [0; 1; 2; 3]) = [Idle; Idle; Idle; Running]) && (harts_online s =? 3) && (harts_online_mask s =? 7)) = true.
Proof. vm_compute. reflexivity. Qed.


(** ** Progress *)

(** The steps a hart has left until it is counted and marked. *)
Definition left (p : Phase) : nat :=
  match p with Entry => 5 | Park => 4 | Load => 3 | Secondary => 2 | Marking => 1 | _ => 0 end.
Definition waking (p : Phase) : bool :=
  match p with Entry | Park | Load | Secondary | Marking | Idle => true | _ => false end.
Definition moves (h : N) (m : Move) : Prop := match m with Step i _ => i = h | Fw _ => False end.
#[export] Instance moves_dec h m : Decision (moves h m).
Proof. destruct m; simpl; apply _. Defined.
Definition steps_of (h : N) (ms : list Move) : nat := length (filter (moves h) ms).

Section progress.
Context (e : SmpEnv).

(** The page table is published. *)
Definition published (s : Smp) : Prop := boot_lock s ≠ 0 ∧ boot_release s = 1.

Lemma phase_goto s h p i : phase (goto h p s) i = if decide (i = h) then p else phase s i.
Proof. unfold goto. by rewrite phase_insert. Qed.

(** A step of another hart, or of the firmware. *)
Lemma other_step s s' h i c :
  published s → waking (phase s h) = true → i ≠ h → smp_step e i c s = Some s' → published s' ∧ phase s' h = phase s h.
Proof.
  intros [Hl Hr] Hw Hne. unfold smp_step. destruct (h_phase (harts s i)) eqn:Hp; try done.
  - intros [= <-]. unfold start_step. rewrite (proj2 (N.eqb_neq _ _) Hl). split; [done|]. by rewrite phase_goto, decide_False.
  - intros [= <-]. unfold main_step. destruct (usize_ok _ && _ && c); (split; [done|]).
    + by rewrite phase_insert, decide_False.
    + by rewrite phase_goto, decide_False.
  - unfold wake_step. rewrite Hp. intros [= <-]. split; [done|]. by rewrite phase_goto, decide_False.
  - unfold wake_step. rewrite Hp. intros [= <-]. split; [done|]. by rewrite phase_goto, decide_False.
  - unfold wake_step. rewrite Hp. destruct (expected e <=? i0); [intros [= <-]; split; [done|]; by rewrite phase_goto, decide_False|].
    destruct (i0 =? i); [intros [= <-]; split; [done|]; by rewrite phase_goto, decide_False|].
    intros [= <-]. destruct (c && bool_decide (h_phase (harts s i0) = Stopped)) eqn:Ec; (split; [done|]).
    + apply andb_prop in Ec as [_ Hs%bool_decide_eq_true]. rewrite phase_insert, decide_False; [by rewrite phase_goto, decide_False|].
      intros <-. unfold phase in Hw. by rewrite Hs in Hw.
    + by rewrite phase_goto, decide_False.
  - unfold wake_step. rewrite Hp. destruct (harts_online s + 1 <? expected e); intros [= <-]; (split; [done|]); by rewrite phase_goto, decide_False.
  - unfold park_step. rewrite Hp. intros [= <-]. destruct (boot_release s =? 0); [done|]. destruct (MAX_HARTS <=? i); [done|].
    split; [done|]. by rewrite phase_goto, decide_False.
  - unfold park_step. rewrite Hp. intros [= <-]. split; [done|]. by rewrite phase_insert, decide_False.
  - unfold secondary_step. rewrite Hp. intros [= <-]. split; [done|].
    change (phase (set_harts_online ?v ?x) h) with (phase x h). by rewrite phase_insert, decide_False.
  - unfold secondary_step. rewrite Hp. intros [= <-]. split; [done|]. by rewrite phase_goto, decide_False.
Qed.

(** A step of its own. *)
Lemma own_step s h c :
  published s → waking (phase s h) = true → h < MAX_HARTS → phase s h ≠ Idle →
  ∃ s', smp_step e h c s = Some s' ∧ published s' ∧ waking (phase s' h) = true ∧ left (phase s h) = S (left (phase s' h)).
Proof.
  intros [Hl Hr] Hw Hh Hi. unfold smp_step. change (h_phase (harts s h)) with (phase s h).
  assert (∀ x t, (harts t = harts s) → phase (set_hart h x t) h = h_phase x) as Hx.
  { intros x t E. rewrite phase_insert, decide_True; done. }
  destruct (phase s h) eqn:Hp; try done; unfold start_step, park_step, secondary_step; change (h_phase (harts s h)) with (phase s h); rewrite ?Hp.
  - eexists. split; [done|]. rewrite (proj2 (N.eqb_neq _ _) Hl). split; [done|]. by rewrite phase_goto, decide_True.
  - eexists. split; [done|]. rewrite Hr, (proj2 (N.leb_gt _ _) Hh). cbn [N.eqb]. split; [done|]. by rewrite phase_goto, decide_True.
  - eexists. split; [done|]. split; [done|]. by rewrite phase_insert, decide_True.
  - eexists. split; [done|]. split; [done|]. change (phase (set_harts_online ?v ?x) h) with (phase x h). by rewrite phase_insert, decide_True.
  - eexists. split; [done|]. split; [done|]. by rewrite phase_goto, decide_True.
Qed.

Lemma run_left ms s s' h :
  published s → waking (phase s h) = true → h < MAX_HARTS → smp_run e ms s = Some s' →
  published s' ∧ waking (phase s' h) = true ∧ (left (phase s' h) + steps_of h ms = left (phase s h))%nat.
Proof.
  revert s. induction ms as [|[i|i c] ms IH]; intros s Hs Hw Hh; simpl.
  - intros [= <-]. split; [done|]. split; [done|]. cbn. lia.
  - intros (s1 & E1 & E2)%bind_Some. unfold firmware_step in E1. case_decide as Hp; [|done]. injection E1 as <-.
    assert (phase (set_hart i entered s) h = phase s h) as E.
    { rewrite phase_insert, decide_False; [done|]. intros <-. unfold phase in Hw. by rewrite Hp in Hw. }
    destruct (IH (set_hart i entered s) Hs) as (H1 & H2 & H3); [by rewrite E|done|done|].
    split; [done|]. split; [done|]. rewrite E in H3. unfold steps_of in *. rewrite filter_cons_False by tauto. done.
  - intros (s1 & E1 & E2)%bind_Some. destruct (decide (i = h)) as [->|Hne].
    + assert (phase s h ≠ Idle) as Hi by (intros Hi; unfold smp_step in E1; change (h_phase (harts s h)) with (phase s h) in E1; by rewrite Hi in E1).
      destruct (own_step s h c Hs Hw Hh Hi) as (s2 & E & H1 & H2 & H3). rewrite E1 in E. injection E as <-.
      destruct (IH s1 H1 H2 Hh E2) as (A1 & A2 & A3). split; [done|]. split; [done|].
      unfold steps_of in *. rewrite filter_cons_True by done. cbn [length]. lia.
    + destruct (other_step s s1 h i c Hs Hw Hne E1) as [H1 H2].
      destruct (IH s1 H1) as (A1 & A2 & A3); [by rewrite H2|done|done|]. split; [done|]. split; [done|].
      unfold steps_of in *. rewrite filter_cons_False by done. congruence.
Qed.

(** When every hart the boot hart expects is marked, its wait ends. *)
Lemma marked_enough f b n :
  n ≤ MAX_HARTS → (∀ h, h < n → h ≠ b → marked (h_phase (f h)) = true) → n ≤ marked_count f + 1.
Proof.
  change MAX_HARTS with 4. intros Hn H. unfold marked_count. change (nrange 0 (N.to_nat MAX_HARTS)) with [0; 1; 2; 3]. cbn [foldr].
  assert (∀ i, i < n → i ≠ b → N.b2n (marked (h_phase (f i))) = 1) as Hb by (intros i Hi Hne; by rewrite (H i Hi Hne)).
  pose proof (Hb 0). pose proof (Hb 1). pose proof (Hb 2). pose proof (Hb 3). clear H Hb. lia.
Qed.
End progress.


Lemma half_boot_runs : test_run four_harts (Fw 3 :: replicate 9 (Step 3 true)) (λ s,
  (boot_release s =? 1) && bool_decide (phase s 1 = Entry)) = true.
Proof. vm_compute. reflexivity. Qed.


(** The limit on the hart numbers is tested where the losers of the arbitration park, not
    for the winner: hart 4 wins and stops at the timer table that [enable_timer] indexes by
    [hartid()]; hart 0 polls for ever. *)
Example boot_hart_beyond_limit :
  test_run four_harts [Fw 4; Fw 0; Step 4 true; Step 0 true; Step 4 true; Step 0 true] (λ s,
    bool_decide (phase s 4 = Halted ∧ phase s 0 = Park) && (boot_release s =? 0) &&
    bool_decide (smp_step four_harts 4 true s ≫= (λ _, Some tt) = None) &&
    match smp_step four_harts 0 true s with Some s' => bool_decide (phase s' 0 = Park) | None => false end) = true.
Proof. vm_compute. reflexivity. Qed.
