(* ===== verification/TrapAsm.v ===== *)
(** * The trap entry, the trap return and the switches: arch/riscv64.S

    The routines as lists of instructions, in the order of the file, and a machine that
    executes them: 31 registers, the control registers the code names, a memory of words,
    and what the hardware does at a trap and at [sret]; then the functions of
    arch/riscv64.rs that read and write control registers. *)

From Stdlib Require Import ZifyN ZifyNat.
From stdpp Require Import base numbers functions list.
From S2P Require Import Prelude Mmu Sched Syscall.

(** ** The machine *)

(** Registers by number. *)
Definition x_ra : N := 1.
Definition x_sp : N := 2.
Definition x_gp : N := 3.
Definition x_tp : N := 4.
Definition x_t0 : N := 5.
Definition x_t1 : N := 6.
Definition x_t2 : N := 7.
Definition x_s0 : N := 8.
Definition x_s1 : N := 9.
Definition x_a0 : N := 10.
Definition x_a1 : N := 11.
Definition x_a2 : N := 12.
Definition x_a3 : N := 13.
Definition x_t6 : N := 31.

Inductive Csr := Sstatus | Sepc | Scause | Stval | Sscratch | Satp | Sie | Sip | Stvec.
#[global] Instance csr_eq_dec : EqDecision Csr.
Proof. solve_decision. Defined.

(** The addresses [la] loads. *)
Inductive Sym := GlobalPointer | TrapStackBase.

Record Mach := mkMach { regs : N → N; mem : N → N; csrs : Csr → N }.
Definition set_reg (r v : N) (m : Mach) : Mach :=
  if r =? 0 then m else mkMach (<[r := v]> (regs m)) (mem m) (csrs m).
Definition store (a v : N) (m : Mach) : Mach := mkMach (regs m) (<[a := v]> (mem m)) (csrs m).
Definition set_csr (c : Csr) (v : N) (m : Mach) : Mach := mkMach (regs m) (mem m) (<[c := v]> (csrs m)).
Definition reg (m : Mach) (r : N) : N := if r =? 0 then 0 else regs m r.

(** An immediate as the 64-bit word it extends to. *)
Definition imm (z : Z) : N := Z.to_N (z mod 0x10000000000000000).

Inductive Instr :=
| Sd (rs2 off rs1 : N) | Ld (rd off rs1 : N)
| Addi (rd rs1 : N) (z : Z) | Andi (rd rs1 : N) (z : Z) | Li (rd : N) (z : Z) | La (rd : N) (s : Sym)
| Add (rd rs1 rs2 : N) | Sub (rd rs1 rs2 : N) | And (rd rs1 rs2 : N)
| Csrrw (rd : N) (c : Csr) (rs1 : N) | Csrr (rd : N) (c : Csr) | Csrw (c : Csr) (rs1 : N) | Csrci (c : Csr) (u : N)
| Bne (rs1 rs2 label : N) | Bltu (rs1 rs2 label : N) | Beqz (rs1 label : N)
| Label (label : N) | Wfi | Loop
| Call | Sret | Ret.

(** How a routine ends: at the call of [trap_handler] with the code behind it, in a loop
    for ever, at [sret] or at [ret]. *)
Inductive Exit := Called (m : Mach) (k : list Instr) | Halts (m : Mach) | Srets (m : Mach) | Rets (m : Mach) | Runs.

(** The code behind a label. *)
Fixpoint after (l : N) (c : list Instr) : list Instr :=
  match c with
  | [] => []
  | Label i :: c => if i =? l then c else after l c
  | _ :: c => after l c
  end.

Section exec.
Context (sym : Sym → N).

(** An instruction that is not a jump. *)
Definition exec1 (i : Instr) (m : Mach) : Mach :=
  match i with
  | Sd rs2 off rs1 => store (wrapping_add (reg m rs1) off) (reg m rs2) m
  | Ld rd off rs1 => set_reg rd (mem m (wrapping_add (reg m rs1) off)) m
  | Addi rd rs1 z => set_reg rd (wrapping_add (reg m rs1) (imm z)) m
  | Andi rd rs1 z => set_reg rd (N.land (reg m rs1) (imm z)) m
  | Li rd z => set_reg rd (imm z) m
  | La rd s => set_reg rd (sym s) m
  | Add rd rs1 rs2 => set_reg rd (wrapping_add (reg m rs1) (reg m rs2)) m
  | Sub rd rs1 rs2 => set_reg rd (wrapping_sub (reg m rs1) (reg m rs2)) m
  | And rd rs1 rs2 => set_reg rd (N.land (reg m rs1) (reg m rs2)) m
  | Csrrw rd c rs1 => set_reg rd (csrs m c) (set_csr c (reg m rs1) m)
  | Csrr rd c => set_reg rd (csrs m c) m
  | Csrw c rs1 => set_csr c (reg m rs1) m
  | Csrci c u => set_csr c (N.ldiff (csrs m c) u) m
  | _ => m
  end.

(** Every jump leads forward; [n] bounds the instructions, and the length of the code is
    enough. *)
Fixpoint exec (n : nat) (c : list Instr) (m : Mach) : Exit :=
  match n, c with
  | S n, i :: k =>
      match i with
      | Bne a b l => exec n (if negb (reg m a =? reg m b) then after l k else k) m
      | Bltu a b l => exec n (if reg m a <? reg m b then after l k else k) m
      | Beqz a l => exec n (if reg m a =? 0 then after l k else k) m
      | Loop => Halts m
      | Call => Called m k
      | Sret => Srets m
      | Ret => Rets m
      | _ => exec n k (exec1 i m)
      end
  | _, _ => Runs
  end.
Definition run (c : list Instr) (m : Mach) : Exit := exec (length c) c m.
End exec.

(** ** The hardware *)

(** [sstatus]: SIE, SPIE and SPP. *)
Definition B_SIE : N := 1.
Definition B_SPIE : N := 5.
Definition B_SPP : N := 8.
Definition put_bit (b : N) (v : bool) (x : N) : N := if v then N.setbit x b else N.clearbit x b.

(** A trap at [pc], from supervisor mode if [priv]. *)
Definition hw_trap (priv : bool) (pc cause tval : N) (m : Mach) : Mach :=
  let st := csrs m Sstatus in
  set_csr Sstatus (put_bit B_SPP priv (put_bit B_SIE false (put_bit B_SPIE (N.testbit st B_SIE) st)))
    (set_csr Stval tval (set_csr Scause cause (set_csr Sepc pc m))).

(** [sret]: the new privilege and program counter. *)
Definition hw_sret (m : Mach) : bool * N * Mach :=
  let st := csrs m Sstatus in
  (N.testbit st B_SPP, csrs m Sepc,
   set_csr Sstatus (put_bit B_SPP false (put_bit B_SPIE true (put_bit B_SIE (N.testbit st B_SPIE) st))) m).

(** ** The routines *)

Definition TRAP_FRAME_SIZE : N := 288.
Definition TRAP_SLOT : N := 32768.
Definition TRAP_FIRST_OFF : N := TRAP_SLOT - TRAP_FRAME_SIZE.

(** Runs of [sd] and [ld] at offsets from one register. *)
Definition saves (b : N) (l : list (N * N)) : list Instr := (λ '(r, o), Sd r o b) <$> l.
Definition loads (b : N) (l : list (N * N)) : list Instr := (λ '(r, o), Ld r o b) <$> l.

(** Register [x(n+1)] is word [n] of a trap frame. *)
Definition frame_slot (r : N) : N * N := (r, (r - 1) * 8).

(** [trap_vector] up to the check for a nested trap. *)
Definition save_frame : list Instr :=
  [ Csrrw x_t6 Sscratch x_t6;
    Addi x_t6 x_t6 (-288);
    Sd x_t0 (4 * 8) x_t6;
    Csrr x_t0 Sscratch;
    Sd x_t0 (30 * 8) x_t6;
    Sd x_gp (2 * 8) x_t6;
    La x_gp GlobalPointer ] ++
  saves x_t6 (frame_slot <$> [x_ra; x_sp; x_tp] ++ nrange x_t1 25).

(** Whether the frame is the first one of its slot. *)
Definition nested_check (a b c : N) : list Instr :=
  [ La b TrapStackBase; Sub b a b; Li c 0x7FFF; And b b c; Li c (Z.of_N TRAP_FIRST_OFF) ].

(** The control registers, the arguments and the stack of [trap_handler]. *)
Definition call_handler : list Instr :=
  [ Csrw Sscratch x_t6;
    Csrr x_t0 Sstatus; Sd x_t0 (32 * 8) x_t6;
    Csrr x_t0 Sepc; Sd x_t0 (33 * 8) x_t6;
    Csrr x_t0 Scause; Sd x_t0 (34 * 8) x_t6;
    Csrr x_t0 Stval; Sd x_t0 (35 * 8) x_t6;
    Csrr x_a0 Scause; Csrr x_a1 Sepc; Csrr x_a2 Stval; Addi x_a3 x_t6 0;
    Addi x_t0 x_t6 288; Li x_t1 (Z.of_N TRAP_SLOT / 2); Sub x_t0 x_t0 x_t1;
    Li x_t1 (-8192); Add x_t1 x_t1 x_t6;
    Bltu x_t1 x_t0 2;
    Addi x_sp x_t1 0;
    Call ].

(** [sstatus] without SIE, [sepc], the registers, and [t6] last. *)
Definition load_frame : list Instr :=
  [ Ld x_t0 (32 * 8) x_t6; Andi x_t0 x_t0 (-3); Csrw Sstatus x_t0; Ld x_t0 (33 * 8) x_t6; Csrw Sepc x_t0 ] ++
  loads x_t6 (frame_slot <$> nrange x_ra 30) ++
  [ Ld x_t6 (30 * 8) x_t6; Sret ].

Definition halt_loops : list Instr :=
  [ Label 1; Loop; Label 2; Csrci Sstatus 2; Wfi; Loop; Label 4; Csrci Sstatus 2; Wfi; Loop ].

(** Behind the call. *)
Definition trap_return : list Instr :=
  [ Beqz x_a0 1; Addi x_t6 x_a0 0; Csrr x_t0 Sscratch; Addi x_t0 x_t0 288; Csrw Sscratch x_t0 ] ++ load_frame ++ halt_loops.

Definition trap_vector : list Instr :=
  save_frame ++ nested_check x_t6 x_t0 x_t1 ++ [Bne x_t0 x_t1 4] ++ call_handler ++ trap_return.

(** A [Context]: the registers that live across a call. *)
Definition context_slots : list (N * N) :=
  imap (λ i r, (r, N.of_nat i * 8)) ([x_ra; x_sp; x_s0; x_s1] ++ nrange 18 10).

Definition context_switch : list Instr := saves x_a0 context_slots ++ loads x_a1 context_slots ++ [Ret].

Definition frame_restore : list Instr :=
  saves x_a1 context_slots ++
  [ Addi x_t6 x_a0 0; Csrci Sstatus 2; Csrr x_t0 Sscratch ] ++
  nested_check x_t0 x_t1 x_t2 ++
  [ Bne x_t1 x_t2 3; Addi x_t0 x_t0 288; Label 3; Csrw Sscratch x_t0 ] ++
  load_frame.

(** ** Control registers (arch/riscv64.rs) *)

(** The interrupt enable of [sstatus]. *)
Definition irq_disable (m : Mach) : Mach := set_csr Sstatus (N.ldiff (csrs m Sstatus) 2) m.
Definition irq_enable (m : Mach) : Mach := set_csr Sstatus (N.lor (csrs m Sstatus) 2) m.
Definition irq_save (m : Mach) : bool * Mach := (negb (N.land (csrs m Sstatus) 2 =? 0), irq_disable m).
Definition irq_restore (on : bool) (m : Mach) : Mach := if on then irq_enable m else m.

(** All sources off, the pending software interrupt, and SUM, MXR and FS of [sstatus]; of
    [sip] only that bit can be written in supervisor mode. *)
Definition sanitize_csr (m : Mach) : Mach :=
  let m := set_csr Sie 0 m in
  let m := set_csr Sip (N.ldiff (csrs m Sip) 2) m in
  set_csr Sstatus (N.ldiff (csrs m Sstatus) 0xC6000) m.

(** The sources [enable_timer] turns on. *)
Definition enable_sources (m : Mach) : Mach :=
  let m := set_csr Sie (N.lor (csrs m Sie) 0x20) m in
  set_csr Sie (N.lor (csrs m Sie) 2) m.

Definition init_traps (base vector h : N) (m : Mach) : Mach :=
  set_csr Stvec vector (set_csr Sscratch (hart_trap_top base h) m).
Definition set_sscratch_trap_top (base : N) (m : Mach) : Mach :=
  set_csr Sscratch (hart_trap_top base (hartid base (csrs m Sscratch))) m.
