(* ===== verification/TrapAsmProps.v ===== *)
(** * What holds of the trap entry, the trap return and the switches

    A frame holds exactly the interrupted registers, the return restores exactly what the
    frame holds, and the two switches save and restore what the calling convention asks. *)

From Stdlib Require Import ZifyN ZifyNat.
From stdpp Require Import base numbers functions list.
From S2P Require Import Prelude Mmu Sched Syscall SyscallProps TrapAsm.

(** ** Executing straight code *)

Definition simple (i : Instr) : bool :=
  match i with Bne _ _ _ | Bltu _ _ _ | Beqz _ _ | Loop | Call | Sret | Ret => false | _ => true end.

Section exec.
Context (sym : Sym → N).

Definition exec_all (l : list Instr) (m : Mach) : Mach := foldl (λ m i, exec1 sym i m) m l.

Lemma exec_simple n l k m :
  forallb simple l = true → exec sym (length l + n) (l ++ k) m = exec sym n k (exec_all l m).
Proof.
  revert m. induction l as [|i l IH]; intros m H; [done|]. cbn in H. apply andb_prop in H as [H1 H2].
  cbn [length plus app]. change (exec_all (i :: l) m) with (exec_all l (exec1 sym i m)). rewrite <-IH by done.
  by destruct i.
Qed.

Lemma exec_all_app l1 l2 m : exec_all (l1 ++ l2) m = exec_all l2 (exec_all l1 m).
Proof. apply foldl_app. Qed.

Lemma exec_all_cons i l m : exec_all (i :: l) m = exec_all l (exec1 sym i m).
Proof. done. Qed.

(** ** Runs of stores and loads *)

Lemma reg_set m r v q : reg (set_reg r v m) q = if decide (q = r ∧ r ≠ 0) then v else reg m q.
Proof.
  unfold reg, set_reg. destruct (N.eqb_spec r 0) as [->|Hr].
  - rewrite decide_False by tauto. done.
  - destruct (N.eqb_spec q 0) as [->|Hq]; [rewrite decide_False by (intros [? ?]; congruence); done|]. simpl.
    destruct (decide (q = r)) as [->|Hne]; [rewrite decide_True by done; by rewrite fn_lookup_insert|].
    rewrite decide_False by tauto. by rewrite fn_lookup_insert_ne.
Qed.

(** Stores at offsets from register [b]. *)
Lemma saves_run b l m :
  (∀ r o, (r, o) ∈ l → reg m b + o ≤ USIZE_MAX) → NoDup l.*2 →
  let m' := exec_all (saves b l) m in
  regs m' = regs m ∧ csrs m' = csrs m ∧
  (∀ r o, (r, o) ∈ l → mem m' (reg m b + o) = reg m r) ∧
  (∀ a, (∀ r o, (r, o) ∈ l → a ≠ reg m b + o) → mem m' a = mem m a).
Proof.
  revert m. induction l as [|[r o] l IH]; intros m Ho Hn; cbn zeta.
  { split; [done|]. split; [done|]. split; [|done]. by intros r o ?%not_elem_of_nil. }
  cbn in Hn. apply NoDup_cons in Hn as [Hno Hn].
  change (saves b ((r, o) :: l)) with (Sd r o b :: saves b l). rewrite exec_all_cons.
  assert (wrapping_add (reg m b) o = reg m b + o) as Hw by (apply wrapping_add_le, (Ho r); by left).
  cbn [exec1]. rewrite Hw. set (m1 := store (reg m b + o) (reg m r) m).
  destruct (IH m1) as (H1 & H2 & H3 & H4); [intros r' o' Hin; apply (Ho r'); by right|done|].
  change (reg m1 b) with (reg m b) in *. split; [done|]. split; [done|]. split.
  - intros r' o' [[= -> ->]|Hin]%elem_of_cons; [|by rewrite (H3 r' o' Hin)].
    rewrite H4; [cbn; by rewrite fn_lookup_insert|]. intros r2 o2 Hin E.
    assert (o = o2) as -> by (clear -E; lia). apply Hno, list_elem_of_fmap. by exists (r2, o2).
  - intros a Ha. rewrite H4 by (intros r2 o2 Hin; apply (Ha r2); by right). cbn.
    rewrite fn_lookup_insert_ne; [done|]. intros <-. by apply (Ha r o); [left|].
Qed.

(** Loads at offsets from a register that is not among the loaded ones. *)
Lemma loads_run b l m :
  (∀ r o, (r, o) ∈ l → reg m b + o ≤ USIZE_MAX ∧ r ≠ b ∧ r ≠ 0) → NoDup l.*1 →
  let m' := exec_all (loads b l) m in
  mem m' = mem m ∧ csrs m' = csrs m ∧
  (∀ r o, (r, o) ∈ l → reg m' r = mem m (reg m b + o)) ∧
  (∀ r, r ∉ l.*1 → reg m' r = reg m r).
Proof.
  revert m. induction l as [|[r o] l IH]; intros m Ho Hn; cbn zeta.
  { split; [done|]. split; [done|]. split; [|done]. by intros r o ?%not_elem_of_nil. }
  cbn in Hn. apply NoDup_cons in Hn as [Hno Hn].
  change (loads b ((r, o) :: l)) with (Ld r o b :: loads b l). rewrite exec_all_cons.
  destruct (Ho r o) as (Hle & Hb & H0); [by left|]. cbn [exec1]. rewrite wrapping_add_le by done.
  set (m1 := set_reg r (mem m (reg m b + o)) m).
  assert (mem m1 = mem m ∧ csrs m1 = csrs m) as [Em Ec] by (unfold m1, set_reg; by destruct (r =? 0)).
  assert (reg m1 b = reg m b) as Erb by (unfold m1; rewrite reg_set, decide_False; [done|intros [? ?]; congruence]).
  destruct (IH m1) as (H1 & H2 & H3 & H4); [intros r' o' Hin; rewrite Erb; apply Ho; by right|done|].
  rewrite Erb, Em in *. split; [congruence|]. split; [congruence|]. split.
  - intros r' o' [[= -> ->]|Hin]%elem_of_cons; [|by apply H3]. rewrite H4 by done. unfold m1. by rewrite reg_set, decide_True.
  - intros r' Hr. cbn in Hr. apply not_elem_of_cons in Hr as [Hne Hr]. rewrite H4 by done. unfold m1.
    rewrite reg_set, decide_False; [done|]. intros [? ?]; congruence.
Qed.

Lemma reg_set_eq m r v : r ≠ 0 → reg (set_reg r v m) r = v.
Proof. intros. by rewrite reg_set, decide_True. Qed.
Lemma reg_set_ne m r v q : q ≠ r → reg (set_reg r v m) q = reg m q.
Proof. intros. rewrite reg_set, decide_False; [done|]. by intros [? _]. Qed.
Lemma reg_store a v m q : reg (store a v m) q = reg m q.
Proof. done. Qed.
Lemma reg_set_csr c v m q : reg (set_csr c v m) q = reg m q.
Proof. done. Qed.
Lemma mem_set_reg r v m : mem (set_reg r v m) = mem m.
Proof. unfold set_reg. by destruct (r =? 0). Qed.
Lemma csrs_set_reg r v m : csrs (set_reg r v m) = csrs m.
Proof. unfold set_reg. by destruct (r =? 0). Qed.
Lemma mem_set_csr c v m : mem (set_csr c v m) = mem m.
Proof. done. Qed.
Lemma csrs_store a v m : csrs (store a v m) = csrs m.
Proof. done. Qed.
Lemma csr_set_eq c v m : csrs (set_csr c v m) c = v.
Proof. simpl. by rewrite fn_lookup_insert. Qed.
Lemma csr_set_ne c d v m : c ≠ d → csrs (set_csr d v m) c = csrs m c.
Proof. intros. simpl. by rewrite fn_lookup_insert_ne. Qed.
Lemma reg_same m m' : regs m' = regs m → ∀ r, reg m' r = reg m r.
Proof. intros E r. unfold reg. by rewrite E. Qed.
Lemma mem_store a v m : mem (store a v m) = <[a := v]> (mem m).
Proof. done. Qed.
Lemma mem_store_eq a v m : mem (store a v m) a = v.
Proof. simpl. by rewrite fn_lookup_insert. Qed.
Lemma mem_store_ne a b v m : a ≠ b → mem (store b v m) a = mem m a.
Proof. intros. simpl. by rewrite fn_lookup_insert_ne. Qed.
End exec.

#[local] Opaque set_reg store set_csr reg.

(** Evaluate registers, control registers and memory after known steps. *)
Ltac apart := first [ assumption | discriminate ].
Ltac asm := repeat first
  [ rewrite reg_set_eq by apart | rewrite reg_set_ne by apart | rewrite reg_store | rewrite reg_set_csr
  | rewrite mem_set_reg | rewrite csrs_set_reg | rewrite mem_set_csr | rewrite csrs_store
  | rewrite csr_set_eq | rewrite csr_set_ne by apart | rewrite mem_store_eq ].

(** Immediates. *)
Lemma add_neg a n : n ≤ a → a ≤ USIZE_MAX → 0 < n → wrapping_add a (imm (- Z.of_N n)) = a - n.
Proof.
  intros H1 H2 H3. unfold wrapping_add, imm, USIZE_MAX, USIZE_MOD in *.
  assert (Z.to_N (- Z.of_N n mod 0x10000000000000000) = 0x10000000000000000 - n) as ->.
  { rewrite Z.mod_opp_l_nz; rewrite ?Z.mod_small; lia. }
  assert (a + (0x10000000000000000 - n) = (a - n) + 1 * 0x10000000000000000) as -> by (clear -H1 H2; lia).
  rewrite N.Div0.mod_add. apply N.mod_small. clear -H2. lia.
Qed.

Lemma imm_pos z : (0 ≤ z < 0x10000000000000000)%Z → imm z = Z.to_N z.
Proof. intros H. unfold imm. by rewrite Z.mod_small. Qed.

(** ** The frame *)
Section trap.
Context (sym : Sym → N).

Definition F (m : Mach) : N := csrs m Sscratch - TRAP_FRAME_SIZE.

Lemma saved_regs r : 1 ≤ r ≤ 31 → r ∈ [x_ra; x_sp; x_tp] ++ nrange x_t1 25 ∨ r = x_gp ∨ r = x_t0 ∨ r = x_t6.
Proof.
  intros Hr. destruct (decide (r = 3 ∨ r = 5 ∨ r = 31)) as [|Hn]; [tauto|left].
  rewrite elem_of_app, elem_of_nrange. destruct (decide (r ≤ 4)) as [Hs|Hs]; [left|right; unfold x_t1; lia].
  rewrite !elem_of_cons. unfold x_ra, x_sp, x_tp. clear -Hr Hn Hs. lia.
Qed.

Lemma unsaved_regs r : r ∈ [x_ra; x_sp; x_tp] ++ nrange x_t1 25 → 1 ≤ r ≤ 31 ∧ r ≠ x_gp ∧ r ≠ x_t0 ∧ r ≠ x_t6.
Proof.
  rewrite elem_of_app, elem_of_nrange, !elem_of_cons, elem_of_nil. unfold x_ra, x_sp, x_tp, x_t1, x_gp, x_t0, x_t6. lia.
Qed.

Lemma frame_slots_nodup (l : list N) : NoDup l → (∀ r, r ∈ l → 1 ≤ r) → NoDup (frame_slot <$> l).*2 ∧ NoDup (frame_slot <$> l).*1.
Proof.
  intros Hn Hl. rewrite <-!list_fmap_compose. split.
  - apply NoDup_fmap_2_strong; [|done]. intros x y Hx Hy E. cbn in E. pose proof (Hl x Hx). pose proof (Hl y Hy). lia.
  - apply NoDup_fmap_2_strong; [|done]. by intros x y _ _ E.
Qed.

Lemma elem_of_frame_slots (l : list N) r o : (r, o) ∈ frame_slot <$> l ↔ r ∈ l ∧ o = (r - 1) * 8.
Proof.
  rewrite list_elem_of_fmap. unfold frame_slot. split; [intros (x & [= -> ->] & ?); done|]. intros [? ->]. by exists r.
Qed.

Lemma save_frame_run m :
  TRAP_FRAME_SIZE ≤ csrs m Sscratch → csrs m Sscratch ≤ USIZE_MAX →
  let m' := exec_all sym save_frame m in
  (∀ r, 1 ≤ r ≤ 31 → mem m' (F m + (r - 1) * 8) = reg m r) ∧
  (∀ a, a < F m ∨ F m + 248 ≤ a → mem m' a = mem m a) ∧
  reg m' x_t6 = F m ∧ reg m' x_gp = sym GlobalPointer ∧
  (∀ r, r ≠ x_t6 → r ≠ x_gp → r ≠ x_t0 → reg m' r = reg m r) ∧
  csrs m' Sscratch = reg m x_t6 ∧ (∀ c, c ≠ Sscratch → csrs m' c = csrs m c).
Proof.
  intros H1 H2. cbn zeta. unfold save_frame. rewrite exec_all_app.
  set (pre := [_; _; _; _; _; _; _]). set (m0 := exec_all sym pre m).
  set (l := [x_ra; x_sp; x_tp] ++ nrange x_t1 25).
  assert (wrapping_add (csrs m Sscratch) (imm (-288)) = F m) as EF by (by apply (add_neg _ 288)).
  assert (F m + 288 = csrs m Sscratch) as HF by (unfold F, TRAP_FRAME_SIZE in *; lia).
  assert (∀ k, k ≤ 288 → wrapping_add (F m) k = F m + k) as Hw by (intros k Hk; apply wrapping_add_le; lia).
  assert (m0 = set_reg x_gp (sym GlobalPointer) (store (F m + 16) (reg m x_gp) (store (F m + 240) (reg m x_t6)
    (set_reg x_t0 (reg m x_t6) (store (F m + 32) (reg m x_t0) (set_reg x_t6 (F m) (set_reg x_t6 (csrs m Sscratch)
      (set_csr Sscratch (reg m x_t6) m)))))))) as E0.
  { unfold m0, pre, exec_all. cbn [foldl exec1]. asm. rewrite EF. asm. by rewrite !Hw by done. }
  assert (reg m0 x_t6 = F m) as R6 by (rewrite E0; by asm).
  assert (∀ r, r ≠ x_t6 → r ≠ x_gp → r ≠ x_t0 → reg m0 r = reg m r) as Rr by (intros r ???; rewrite E0; by asm).
  destruct (saves_run sym x_t6 (frame_slot <$> l) m0) as (S1 & S2 & S3 & S4).
  { intros r o [Hr ->]%elem_of_frame_slots. apply unsaved_regs in Hr as [Hr _]. rewrite R6. clear -Hr HF H2. lia. }
  { apply (frame_slots_nodup l); [|intros r Hr; by apply unsaved_regs in Hr as [[? _] _] ].
    apply (bool_decide_unpack _). by vm_compute. }
  set (m' := exec_all sym (saves x_t6 (frame_slot <$> l)) m0) in *.
  assert (∀ r, reg m' r = reg m0 r) as Rm by (by apply reg_same).
  split; [|split; [|split; [|split; [|split; [|split]]]]].
  - intros r Hr. rewrite R6 in S3, S4. destruct (saved_regs r Hr) as [Hin|Hout].
    + rewrite (S3 r ((r - 1) * 8)) by (by apply elem_of_frame_slots). apply unsaved_regs in Hin as (_ & ? & ? & ?). by apply Rr.
    + rewrite S4.
      2:{ intros r2 o [Hr2 ->]%elem_of_frame_slots E. apply unsaved_regs in Hr2. clear -E Hr2 Hout Hr. unfold x_gp, x_t0, x_t6 in *. lia. }
      rewrite E0. destruct Hout as [-> | [-> | ->] ]; asm; [done|..].
      * do 2 (asm; rewrite mem_store_ne by (unfold x_t0; clear; lia)). by asm.
      * rewrite mem_store_ne by (unfold x_t6; clear; lia). by asm.
  - intros a Ha. rewrite R6 in S4. rewrite S4.
    2:{ intros r2 o [Hr2 ->]%elem_of_frame_slots E. apply unsaved_regs in Hr2. clear -E Hr2 Ha. lia. }
    rewrite E0. do 3 (asm; rewrite mem_store_ne by (clear -Ha; lia)). by asm.
  - by rewrite Rm.
  - rewrite Rm, E0. by asm.
  - intros r ???. rewrite Rm. by apply Rr.
  - rewrite S2, E0. by asm.
  - intros c Hc. rewrite S2, E0. by asm.
Qed.

(** ** Running on *)

Lemma run_simple l k m : forallb simple l = true → run sym (l ++ k) m = run sym k (exec_all sym l m).
Proof. intros H. unfold run. rewrite length_app. by apply exec_simple. Qed.

Lemma run_cons i k m : simple i = true → run sym (i :: k) m = run sym k (exec1 sym i m).
Proof. intros H. apply (run_simple [i] k m). cbn. by rewrite H. Qed.

Lemma run_bne_eq a b l k m : reg m a = reg m b → run sym (Bne a b l :: k) m = run sym k m.
Proof. intros E. unfold run. cbn [length exec]. by rewrite E, N.eqb_refl. Qed.

Lemma run_bltu_no a b l k m : reg m b ≤ reg m a → run sym (Bltu a b l :: k) m = run sym k m.
Proof. intros E. unfold run. cbn [length exec]. by rewrite (proj2 (N.ltb_ge _ _) E). Qed.

(** The offset of a frame in its slot. *)
Lemma nested_check_run a b c m :
  a ≠ b → a ≠ c → b ≠ c → b ≠ 0 → c ≠ 0 →
  let m' := exec_all sym (nested_check a b c) m in
  reg m' b = wrapping_sub (reg m a) (sym TrapStackBase) mod TRAP_SLOT ∧ reg m' c = TRAP_FIRST_OFF ∧
  mem m' = mem m ∧ csrs m' = csrs m ∧ ∀ r, r ≠ b → r ≠ c → reg m' r = reg m r.
Proof.
  intros H1 H2 H3 H4 H5. cbn zeta. unfold nested_check, exec_all. cbn [foldl exec1]. asm.
  change (imm 0x7FFF) with (N.ones 15). rewrite N.land_ones. change (2 ^ 15) with TRAP_SLOT.
  split; [done|]. split; [done|]. split; [done|]. split; [done|]. intros r ??. by asm.
Qed.

(** The machine is outside a trap on hart [h]: [sscratch] holds the top of its slot. *)
Definition outside (m : Mach) (h : N) : Prop :=
  csrs m Sscratch = sym TrapStackBase + (h + 1) * TRAP_SLOT ∧ csrs m Sscratch ≤ USIZE_MAX.

Lemma outside_frame m h :
  outside m h → F m + TRAP_FRAME_SIZE = csrs m Sscratch ∧ wrapping_sub (F m) (sym TrapStackBase) mod TRAP_SLOT = TRAP_FIRST_OFF.
Proof.
  intros [E Hm]. unfold F. unfold TRAP_FIRST_OFF, TRAP_FRAME_SIZE, TRAP_SLOT in *. rewrite E in *. split; [clear; lia|].
  replace (sym TrapStackBase + (h + 1) * 32768 - 288) with (sym TrapStackBase + h * 32768 + 32480) by (clear; lia).
  rewrite wrapping_sub_le by (clear -Hm; lia).
  replace (sym TrapStackBase + h * 32768 + 32480 - sym TrapStackBase) with (32480 + h * 32768) by (clear; lia).
  by rewrite N.Div0.mod_add.
Qed.

(** What [trap_handler] finds. *)
Record framed (m m' : Mach) : Prop := mkFramed {
  fr_regs r : 1 ≤ r ≤ 31 → mem m' (F m + (r - 1) * 8) = reg m r;
  fr_sstatus : mem m' (F m + FRAME_SSTATUS * 8) = csrs m Sstatus;
  fr_sepc : mem m' (F m + FRAME_SEPC * 8) = csrs m Sepc;
  fr_scause : mem m' (F m + 34 * 8) = csrs m Scause;
  fr_stval : mem m' (F m + 35 * 8) = csrs m Stval;
  fr_args : reg m' x_a0 = csrs m Scause ∧ reg m' x_a1 = csrs m Sepc ∧ reg m' x_a2 = csrs m Stval ∧ reg m' x_a3 = F m;
  fr_sp : reg m' x_sp = F m - 8192;
  fr_gp : reg m' x_gp = sym GlobalPointer;
  fr_sscratch : csrs m' Sscratch = F m;
  fr_csrs c : c ≠ Sscratch → csrs m' c = csrs m c;
  fr_else a : a < F m ∨ F m + TRAP_FRAME_SIZE ≤ a → mem m' a = mem m a
}.

(** The control registers into the frame, the arguments, the stack. *)
Lemma call_handler_run k m f :
  reg m x_t6 = f → 16384 ≤ f → f + TRAP_FRAME_SIZE ≤ USIZE_MAX →
  ∃ m', run sym (call_handler ++ k) m = Called m' k ∧
    mem m' = <[f + 280 := csrs m Stval]> (<[f + 272 := csrs m Scause]> (<[f + 264 := csrs m Sepc]>
      (<[f + 256 := csrs m Sstatus]> (mem m)))) ∧
    csrs m' = <[Sscratch := f]> (csrs m) ∧
    reg m' x_a0 = csrs m Scause ∧ reg m' x_a1 = csrs m Sepc ∧ reg m' x_a2 = csrs m Stval ∧ reg m' x_a3 = f ∧
    reg m' x_sp = f - 8192 ∧ reg m' x_gp = reg m x_gp.
Proof.
  intros E Hlow Hm. unfold TRAP_FRAME_SIZE in Hm.
  assert (∀ d, d ≤ 288 → wrapping_add f d = f + d) as Hw by (intros d Hd; apply wrapping_add_le; clear -Hd Hm; lia).
  unfold call_handler. cbn [app].
  do 18 (rewrite run_cons by reflexivity; cbn [exec1]; asm; rewrite ?E).
  change (imm 0) with 0. change (imm 288) with 288. change (imm (Z.of_N TRAP_SLOT / 2)) with 16384.
  rewrite !Hw by done. change (imm (-8192)) with (imm (- Z.of_N 8192)). unfold wrapping_add at 1. rewrite (N.add_comm _ f).
  fold (wrapping_add f (imm (- Z.of_N 8192))).
  rewrite add_neg, wrapping_sub_le, N.add_0_r by (clear -Hlow Hm; lia).
  rewrite run_bltu_no by (asm; clear -Hlow; lia). rewrite run_cons by reflexivity. cbn [exec1]. asm.
  change (imm 0) with 0. rewrite (wrapping_add_le _ 0), N.add_0_r by (clear -Hm; lia).
  eexists. split; [reflexivity|].
  split; [repeat (rewrite mem_set_reg || rewrite mem_store || rewrite mem_set_csr); done|].
  split; [asm; done|]. split; [by asm|]. split; [by asm|]. split; [by asm|]. split; [by asm|]. split; by asm.
Qed.

Lemma trap_entry_run m h : outside m h → ∃ m', run sym trap_vector m = Called m' trap_return ∧ framed m m'.
Proof.
  intros O. destruct (outside_frame m h O) as [HF Hoff]. destruct O as [ET Hm].
  assert (16384 ≤ F m) as Hlow by (unfold TRAP_SLOT, TRAP_FRAME_SIZE in *; clear -ET HF; lia).
  destruct (save_frame_run m) as (S1 & S2 & S3 & S4 & S5 & S6 & S7); [rewrite <-HF; clear; lia|done|].
  unfold trap_vector. rewrite run_simple by done. set (m1 := exec_all sym save_frame m) in *. clearbody m1.
  rewrite run_simple by done. destruct (nested_check_run x_t6 x_t0 x_t1 m1) as (N1 & N2 & N3 & N4 & N5); [done..|].
  set (m2 := exec_all sym (nested_check x_t6 x_t0 x_t1) m1) in *. clearbody m2. rewrite S3, Hoff in N1.
  change ([Bne x_t0 x_t1 4] ++ call_handler ++ trap_return) with (Bne x_t0 x_t1 4 :: call_handler ++ trap_return).
  rewrite run_bne_eq by congruence.
  destruct (call_handler_run trap_return m2 (F m)) as (m' & E & Em & Ec & A0 & A1 & A2 & A3 & Asp & Agp);
    [by rewrite N5|done|by rewrite HF|].
  assert (∀ c, c ≠ Sscratch → csrs m2 c = csrs m c) as Rc by (intros c Hc; by rewrite N4, S7).
  rewrite !Rc in * by done.
  assert (∀ a, a < F m + 256 ∨ F m + 288 ≤ a → mem m' a = mem m1 a) as Mo.
  { intros a Ha. rewrite Em, !fn_lookup_insert_ne by (clear -Ha; lia). by rewrite N3. }
  exists m'. split; [done|]. split; rewrite ?Ec; try done.
  - intros r Hr. rewrite Mo by (clear -Hr; lia). by apply S1.
  - rewrite Em. change (FRAME_SSTATUS * 8) with 256. do 3 (rewrite fn_lookup_insert_ne by (clear; lia)). by rewrite fn_lookup_insert.
  - rewrite Em. change (FRAME_SEPC * 8) with 264. do 2 (rewrite fn_lookup_insert_ne by (clear; lia)). by rewrite fn_lookup_insert.
  - rewrite Em. change (34 * 8) with 272. rewrite fn_lookup_insert_ne by (clear; lia). by rewrite fn_lookup_insert.
  - rewrite Em. change (35 * 8) with 280. by rewrite fn_lookup_insert.
  - rewrite Agp, N5 by done. exact S4.
  - intros c Hc. rewrite fn_lookup_insert_ne by done. by apply Rc.
  - intros a Ha. unfold TRAP_FRAME_SIZE in Ha. rewrite Mo by (clear -Ha; lia). apply S2. clear -Ha. lia.
Qed.

(** ** The return *)

(** Loading a frame; [sret] is next. *)
Lemma load_frame_run k m f :
  reg m x_t6 = f → f + TRAP_FRAME_SIZE ≤ USIZE_MAX →
  ∃ m', run sym (load_frame ++ k) m = Srets m' ∧
    (∀ r, 1 ≤ r ≤ 31 → reg m' r = mem m (f + (r - 1) * 8)) ∧ mem m' = mem m ∧
    csrs m' = <[Sepc := mem m (f + FRAME_SEPC * 8)]> (<[Sstatus := N.land (mem m (f + FRAME_SSTATUS * 8)) (imm (-3))]> (csrs m)).
Proof.
  intros E Hm. unfold TRAP_FRAME_SIZE in Hm.
  assert (∀ d, d ≤ 288 → wrapping_add f d = f + d) as Hw by (intros d Hd; apply wrapping_add_le; clear -Hd Hm; lia).
  unfold load_frame. rewrite <-!app_assoc. set (c := [_; _; _; _; _]).
  assert (exec_all sym c m = set_csr Sepc (mem m (f + 264)) (set_reg x_t0 (mem m (f + 264)) (set_csr Sstatus (N.land (mem m (f + 256)) (imm (-3)))
    (set_reg x_t0 (N.land (mem m (f + 256)) (imm (-3))) (set_reg x_t0 (mem m (f + 256)) m))))) as E0.
  { unfold c, exec_all. cbn [foldl exec1]. asm. rewrite E, !Hw by done. done. }
  rewrite run_simple by done. rewrite E0. set (m0 := set_csr Sepc _ _).
  assert (reg m0 x_t6 = f) as R6 by (unfold m0; by asm). assert (mem m0 = mem m) as M0 by (unfold m0; by asm).
  rewrite run_simple by done.
  destruct (loads_run sym x_t6 (frame_slot <$> nrange x_ra 30) m0) as (L1 & L2 & L3 & L4).
  { intros r o [Hr%elem_of_nrange ->]%elem_of_frame_slots. rewrite R6. unfold x_ra, x_t6 in *. clear -Hr Hm. lia. }
  { apply (frame_slots_nodup (nrange x_ra 30)); [apply (bool_decide_unpack _); by vm_compute|].
    intros r Hr%elem_of_nrange. unfold x_ra in Hr. lia. }
  set (m1 := exec_all sym (loads x_t6 (frame_slot <$> nrange x_ra 30)) m0) in *. clearbody m1.
  assert (reg m1 x_t6 = f) as R1.
  { rewrite L4; [done|]. intros ((q, o) & Eq & [Hr%elem_of_nrange _]%elem_of_frame_slots)%list_elem_of_fmap. cbn in Eq. subst q. unfold x_t6, x_ra in Hr. lia. }
  cbn [app]. rewrite run_cons by reflexivity. cbn [exec1]. rewrite R1, Hw by done.
  eexists. split; [reflexivity|]. split; [|split].
  - intros r Hr. rewrite reg_set. destruct (decide (r = x_t6 ∧ x_t6 ≠ 0)) as [[-> _]|Hn]; [by rewrite L1, M0|].
    rewrite (L3 r ((r - 1) * 8)), R6, M0; [done|]. apply elem_of_frame_slots. split; [|done]. apply elem_of_nrange.
    unfold x_ra, x_t6 in *. clear -Hr Hn. lia.
  - by rewrite mem_set_reg, L1, M0.
  - rewrite csrs_set_reg, L2. unfold m0. by asm.
Qed.

Lemma after_length l k : (length (after l k) ≤ length k)%nat.
Proof.
  induction k as [|i k IH]; [done|]. cbn. destruct i; try (etransitivity; [exact IH|]; cbn; lia).
  case_match; [cbn; lia|]. etransitivity; [exact IH|]. cbn; lia.
Qed.

Lemma exec_fuel n1 n2 c m : (length c ≤ n1)%nat → (length c ≤ n2)%nat → exec sym n1 c m = exec sym n2 c m.
Proof.
  revert n2 c m. induction n1 as [|n1 IH]; intros n2 c m H1 H2.
  { destruct c; [|cbn in H1; lia]. by destruct n2. }
  destruct n2 as [|n2]; [destruct c; [done|cbn in H2; lia]|]. destruct c as [|i c]; [done|].
  apply le_S_n in H1, H2.
  assert (∀ l, length (after l c) ≤ n1 ∧ length (after l c) ≤ n2)%nat as Ha by (intros l; split; (etransitivity; [apply after_length|done])).
  destruct i; cbn [exec]; try reflexivity; try (by apply IH); apply IH; case_match; try done; apply Ha.
Qed.

Lemma run_beqz a l k m : reg m a = 0 → run sym (Beqz a l :: k) m = run sym (after l k) m.
Proof. intros E. unfold run. cbn [length exec]. rewrite E. apply exec_fuel; [apply after_length|done]. Qed.
Lemma run_bne a b l k m : reg m a ≠ reg m b → run sym (Bne a b l :: k) m = run sym (after l k) m.
Proof.
  intros E. unfold run. cbn [length exec]. rewrite (proj2 (N.eqb_neq _ _) E). apply exec_fuel; [apply after_length|done].
Qed.

(** The registers come from the frame that [trap_handler] names. *)
Lemma trap_return_run m f :
  reg m x_a0 = f → f ≠ 0 → f + TRAP_FRAME_SIZE ≤ USIZE_MAX → csrs m Sscratch + TRAP_FRAME_SIZE ≤ USIZE_MAX →
  ∃ m', run sym trap_return m = Srets m' ∧
    (∀ r, 1 ≤ r ≤ 31 → reg m' r = mem m (f + (r - 1) * 8)) ∧ mem m' = mem m ∧
    csrs m' Sscratch = csrs m Sscratch + TRAP_FRAME_SIZE ∧ csrs m' Sepc = mem m (f + FRAME_SEPC * 8) ∧
    csrs m' Sstatus = N.land (mem m (f + FRAME_SSTATUS * 8)) (imm (-3)) ∧ csrs m' Satp = csrs m Satp.
Proof.
  intros E H0 Hm Hs. unfold trap_return. cbn [app].
  assert (∀ k, run sym (Beqz x_a0 1 :: k) m = run sym k m) as ->.
  { intros k. unfold run. cbn [length exec]. by rewrite E, (proj2 (N.eqb_neq f 0) H0). }
  do 4 (rewrite run_cons by reflexivity; cbn [exec1]; asm).
  change (imm 0) with 0. change (imm 288) with TRAP_FRAME_SIZE. rewrite E, (wrapping_add_le f 0), N.add_0_r, (wrapping_add_le _ _ Hs)
    by (clear -Hm; lia).
  set (m0 := set_csr Sscratch _ _).
  destruct (load_frame_run halt_loops m0 f) as (m' & E1 & R & M & C); [unfold m0; by asm|done|].
  assert (mem m0 = mem m) as M0 by (unfold m0; by asm). rewrite M0 in *.
  exists m'. split; [done|]. split; [done|]. split; [done|]. rewrite C. unfold m0.
  split; [|split; [|split] ].
  - do 2 (rewrite fn_lookup_insert_ne by done). by asm.
  - by rewrite fn_lookup_insert.
  - rewrite fn_lookup_insert_ne by done. by rewrite fn_lookup_insert.
  - do 2 (rewrite fn_lookup_insert_ne by done). by asm.
Qed.

Lemma halt_code_1 k m : after 1 k = after 1 trap_return → run sym (after 1 k) m = Halts m.
Proof.
  intros ->. assert (after 1 trap_return = Loop :: skipn 2 halt_loops) as -> by (vm_compute; reflexivity). done.
Qed.
Lemma trap_return_halts m : reg m x_a0 = 0 → run sym trap_return m = Halts m.
Proof. intros E. unfold trap_return. cbn [app]. rewrite run_beqz by done. by apply halt_code_1. Qed.

(** A trap while the handler is active. *)
Lemma nested_run m h :
  csrs m Sscratch + TRAP_FRAME_SIZE = sym TrapStackBase + (h + 1) * TRAP_SLOT → csrs m Sscratch ≤ USIZE_MAX →
  ∃ m', run sym trap_vector m = Halts m' ∧ (∀ a, a < F m ∨ csrs m Sscratch ≤ a → mem m' a = mem m a) ∧
    N.testbit (csrs m' Sstatus) 1 = false.
Proof.
  intros ET Hm. assert (576 ≤ csrs m Sscratch) as Hlow by (unfold TRAP_SLOT, TRAP_FRAME_SIZE in *; clear -ET; lia).
  assert (F m + 288 = csrs m Sscratch) as HF by (unfold F, TRAP_FRAME_SIZE; clear -Hlow; lia).
  destruct (save_frame_run m) as (S1 & S2 & S3 & S4 & S5 & S6 & S7); [unfold TRAP_FRAME_SIZE; clear -Hlow; lia|done|].
  unfold trap_vector. rewrite run_simple by done. set (m1 := exec_all sym save_frame m) in *. clearbody m1.
  rewrite run_simple by done. destruct (nested_check_run x_t6 x_t0 x_t1 m1) as (N1 & N2 & N3 & N4 & N5); [done..|].
  set (m2 := exec_all sym (nested_check x_t6 x_t0 x_t1) m1) in *. clearbody m2. rewrite S3 in N1.
  assert (reg m2 x_t0 ≠ reg m2 x_t1) as Hne.
  { rewrite N1, N2. assert (F m = sym TrapStackBase + h * TRAP_SLOT + 32192) as -> by (unfold TRAP_SLOT, TRAP_FRAME_SIZE in *; clear -ET HF; lia).
    unfold TRAP_SLOT, TRAP_FRAME_SIZE in *. rewrite wrapping_sub_le by (clear -ET Hm; lia).
    replace (sym TrapStackBase + h * 32768 + 32192 - sym TrapStackBase) with (32192 + h * 32768) by (clear; lia).
    rewrite N.Div0.mod_add. done. }
  change ([Bne x_t0 x_t1 4] ++ call_handler ++ trap_return) with (Bne x_t0 x_t1 4 :: call_handler ++ trap_return).
  rewrite run_bne by done.
  assert (after 4 (call_handler ++ trap_return) = [Csrci Sstatus 2; Wfi; Loop]) as -> by (vm_compute; reflexivity).
  do 2 (rewrite run_cons by reflexivity; cbn [exec1]). eexists. split; [reflexivity|]. split.
  - intros a Ha. asm. rewrite N3. apply S2. clear -Ha HF. lia.
  - rewrite csr_set_eq, N.ldiff_spec. apply andb_false_r.
Qed.

(** ** The switches *)

Lemma context_slots_nodup : NoDup context_slots.*2 ∧ NoDup context_slots.*1.
Proof. split; apply (bool_decide_unpack _); by vm_compute. Qed.

(** The registers a call preserves: [ra], [sp], [s0] to [s11], in the order of [Context]. *)
Definition preserved : list N := [1; 2; 8; 9; 18; 19; 20; 21; 22; 23; 24; 25; 26; 27].

Lemma preserved_slots : context_slots.*1 = preserved.
Proof. reflexivity. Qed.
Lemma preserved_slot i r : preserved !! i = Some r → (r, N.of_nat i * 8) ∈ context_slots.
Proof.
  intros H. change context_slots with (imap (λ i r, (r, N.of_nat i * 8)) preserved).
  apply list_elem_of_lookup. exists i. by rewrite list_lookup_imap, H.
Qed.

Lemma slot_bounds r o : (r, o) ∈ context_slots → o + 8 ≤ 112 ∧ r ≠ 0 ∧ r ≠ x_a0 ∧ r ≠ x_a1 ∧ r ≠ x_t6.
Proof.
  assert (Forall (λ ro : N * N, ro.2 + 8 ≤ 112 ∧ ro.1 ≠ 0 ∧ ro.1 ≠ x_a0 ∧ ro.1 ≠ x_a1 ∧ ro.1 ≠ x_t6) context_slots) as H
    by (apply (bool_decide_unpack _); by vm_compute).
  rewrite Forall_forall in H. by intros ?%H.
Qed.

(** Two [Context]s that do not overlap. *)
Definition disjoint_ctx (a b : N) : Prop := a + 112 ≤ b ∨ b + 112 ≤ a.

Lemma context_switch_run m :
  reg m x_a0 + 112 ≤ USIZE_MAX → reg m x_a1 + 112 ≤ USIZE_MAX → disjoint_ctx (reg m x_a0) (reg m x_a1) →
  ∃ m', run sym context_switch m = Rets m' ∧
    (∀ r o, (r, o) ∈ context_slots → mem m' (reg m x_a0 + o) = reg m r ∧ reg m' r = mem m (reg m x_a1 + o)) ∧
    (∀ r, r ∉ preserved → reg m' r = reg m r) ∧
    (∀ a, ¬ (reg m x_a0 ≤ a < reg m x_a0 + 112) → mem m' a = mem m a) ∧ csrs m' = csrs m.
Proof.
  intros H0 H1 Hd. unfold context_switch. rewrite run_simple by done.
  destruct (saves_run sym x_a0 context_slots m) as (S1 & S2 & S3 & S4);
    [intros r o Hr; apply slot_bounds in Hr; clear -Hr H0; lia|apply context_slots_nodup|].
  set (m1 := exec_all sym (saves x_a0 context_slots) m) in *. clearbody m1. pose proof (reg_same _ _ S1) as R1.
  rewrite run_simple by done.
  destruct (loads_run sym x_a1 context_slots m1) as (L1 & L2 & L3 & L4);
    [intros r o Hr; apply slot_bounds in Hr; rewrite R1; split; [clear -Hr H1; lia|tauto]|apply context_slots_nodup|].
  set (m2 := exec_all sym (loads x_a1 context_slots) m1) in *. clearbody m2. rewrite R1 in *.
  exists m2. split; [done|]. split; [|split; [|split] ].
  - intros r o Hr. split; [rewrite L1; by apply S3|]. rewrite (L3 r o Hr). apply S4. intros r2 o2 Hr2 E.
    apply slot_bounds in Hr as [Ho _], Hr2 as [Ho2 _]. unfold disjoint_ctx in Hd. clear -E Ho Ho2 Hd. lia.
  - intros r Hr. rewrite <-preserved_slots in Hr. by rewrite (L4 r Hr).
  - intros a Ha. rewrite L1. apply S4. intros r2 o2 Hr2 ->. apply slot_bounds in Hr2 as [Ho2 _]. apply Ha. clear -Ho2. lia.
  - by rewrite L2.
Qed.

(** The slot top, whether [sscratch] holds it or the frame below it. *)
Definition in_slot (m : Mach) (h : N) : Prop :=
  let top := sym TrapStackBase + (h + 1) * TRAP_SLOT in
  top ≤ USIZE_MAX ∧ (csrs m Sscratch = top ∨ csrs m Sscratch + TRAP_FRAME_SIZE = top).

Lemma slot_offset m h : in_slot m h →
  let top := sym TrapStackBase + (h + 1) * TRAP_SLOT in
  (csrs m Sscratch = top ∧ wrapping_sub (csrs m Sscratch) (sym TrapStackBase) mod TRAP_SLOT ≠ TRAP_FIRST_OFF) ∨
  (csrs m Sscratch + TRAP_FRAME_SIZE = top ∧ wrapping_sub (csrs m Sscratch) (sym TrapStackBase) mod TRAP_SLOT = TRAP_FIRST_OFF).
Proof.
  intros [Hm [E|E] ]; cbn zeta; [left|right]; (split; [done|]); unfold TRAP_FIRST_OFF, TRAP_SLOT, TRAP_FRAME_SIZE in *.
  - rewrite wrapping_sub_le by (rewrite E; clear -Hm; lia). rewrite E, N.add_comm, N.add_sub, N.Div0.mod_mul. done.
  - rewrite wrapping_sub_le by (clear -E Hm; lia).
    replace (csrs m Sscratch - sym TrapStackBase) with (32480 + h * 32768) by (clear -E; lia). by rewrite N.Div0.mod_add.
Qed.

Lemma frame_restore_run m h :
  in_slot m h → let f := reg m x_a0 in let old := reg m x_a1 in
  f + TRAP_FRAME_SIZE ≤ USIZE_MAX → old + 112 ≤ USIZE_MAX → f + TRAP_FRAME_SIZE ≤ old ∨ old + 112 ≤ f →
  ∃ m', run sym frame_restore m = Srets m' ∧
    (∀ r o, (r, o) ∈ context_slots → mem m' (old + o) = reg m r) ∧
    (∀ a, ¬ (old ≤ a < old + 112) → mem m' a = mem m a) ∧
    (∀ r, 1 ≤ r ≤ 31 → reg m' r = mem m (f + (r - 1) * 8)) ∧
    csrs m' Sscratch = sym TrapStackBase + (h + 1) * TRAP_SLOT ∧
    csrs m' Sepc = mem m (f + FRAME_SEPC * 8) ∧ csrs m' Sstatus = N.land (mem m (f + FRAME_SSTATUS * 8)) (imm (-3)).
Proof.
  intros Hs f old Hf Ho Hd. unfold frame_restore. rewrite run_simple by done.
  destruct (saves_run sym x_a1 context_slots m) as (S1 & S2 & S3 & S4);
    [intros r o Hr; apply slot_bounds in Hr; fold old; clear -Hr Ho; lia|apply context_slots_nodup|].
  set (m1 := exec_all sym (saves x_a1 context_slots) m) in *. clearbody m1. pose proof (reg_same _ _ S1) as R1. fold old in S3, S4.
  cbn [app]. do 3 (rewrite run_cons by reflexivity; cbn [exec1]; asm). change (imm 0) with 0. rewrite S2, R1.
  change (reg m x_a0) with f. rewrite (wrapping_add_le f 0), N.add_0_r by (unfold TRAP_FRAME_SIZE in Hf; clear -Hf; lia).
  set (m2 := set_reg x_t0 _ _).
  assert (reg m2 x_t6 = f ∧ reg m2 x_t0 = csrs m Sscratch ∧ mem m2 = mem m1) as (A1 & A2 & A3).
  { unfold m2. asm. done. }
  clearbody m2. rewrite run_simple by done.
  destruct (nested_check_run x_t0 x_t1 x_t2 m2) as (N1 & N2 & N3 & N4 & N5); [done..|].
  set (m3 := exec_all sym (nested_check x_t0 x_t1 x_t2) m2) in *. clearbody m3. rewrite A2 in N1.
  assert (∃ m4, run sym (Bne x_t1 x_t2 3 :: Addi x_t0 x_t0 288 :: Label 3 :: Csrw Sscratch x_t0 :: load_frame) m3 = run sym load_frame m4 ∧
    mem m4 = mem m1 ∧ reg m4 x_t6 = f ∧ csrs m4 Sscratch = sym TrapStackBase + (h + 1) * TRAP_SLOT) as (m4 & -> & M4 & R4 & C4).
  { destruct (slot_offset m h Hs) as [ [E Hoff]|[E Hoff] ].
    - rewrite run_bne by congruence.
      assert (after 3 (Addi x_t0 x_t0 288 :: Label 3 :: Csrw Sscratch x_t0 :: load_frame) = Csrw Sscratch x_t0 :: load_frame) as -> by done.
      rewrite run_cons by reflexivity. cbn [exec1]. rewrite N5, A2 by done. eexists. split; [reflexivity|]. asm.
      rewrite N5 by done. by rewrite N3, A3.
    - rewrite run_bne_eq by congruence. do 3 (rewrite run_cons by reflexivity; cbn [exec1]; asm).
      change (imm 288) with TRAP_FRAME_SIZE. rewrite N5, A2 by done. destruct Hs as [Hm _].
      rewrite wrapping_add_le, E by (rewrite E; exact Hm). eexists. split; [reflexivity|]. asm.
      rewrite N5 by done. by rewrite N3, A3. }
  destruct (load_frame_run [] m4 f R4 Hf) as (m' & E & R & M & C). rewrite app_nil_r in E. rewrite M4 in *.
  assert (∀ d, d < 288 → mem m1 (f + d) = mem m (f + d)) as Mf.
  { intros d Hd'. apply S4. intros r o Hr E'. apply slot_bounds in Hr as [Hro _]. unfold TRAP_FRAME_SIZE in Hd. clear -Hd Hd' Hro E'. lia. }
  exists m'. split; [done|]. rewrite M. split; [intros r o Hr; by apply S3|]. split; [|split; [|split; [|split] ] ].
  - intros a Ha. apply S4. intros r o Hr ->. apply slot_bounds in Hr as [Hro _]. apply Ha. clear -Hro. lia.
  - intros r Hr. rewrite (R r Hr). apply Mf. clear -Hr. lia.
  - rewrite C. by do 2 (rewrite fn_lookup_insert_ne by done).
  - rewrite C, fn_lookup_insert. by apply Mf.
  - rewrite C, fn_lookup_insert_ne, fn_lookup_insert by done. by rewrite Mf.
Qed.
End trap.

(** ** Status bits *)

Lemma testbit_put b v x c : N.testbit (put_bit b v x) c = if c =? b then v else N.testbit x c.
Proof.
  unfold put_bit. destruct v; [rewrite N.setbit_eqb|rewrite N.clearbit_eqb]; rewrite (N.eqb_sym b c); destruct (c =? b); simpl;
    rewrite ?andb_true_r, ?andb_false_r; done.
Qed.

Lemma testbit_clear_sie x c : x < 2 ^ 64 → N.testbit (N.land x (imm (-3))) c = if c =? B_SIE then false else N.testbit x c.
Proof.
  intros Hx. change (imm (-3)) with (N.ldiff (N.ones 64) (2 ^ B_SIE)). rewrite N.land_spec, N.ldiff_spec, N.pow2_bits_eqb, (N.eqb_sym B_SIE).
  destruct (N.eqb_spec c B_SIE) as [->|Hne]; [apply andb_false_r|]. rewrite andb_true_r.
  destruct (decide (c < 64)) as [Hc|Hc]; [by rewrite N.ones_spec_low, andb_true_r|].
  rewrite N.ones_spec_high, andb_false_r by lia. symmetry. destruct (decide (x = 0)) as [->|H0]; [apply N.bits_0|].
  apply N.bits_above_log2. apply (N.lt_le_trans _ 64); [|lia]. by apply N.log2_lt_pow2; [lia|].
Qed.

Lemma put_bit_bound b v x : b < 64 → x < 2 ^ 64 → put_bit b v x < 2 ^ 64.
Proof.
  intros Hb Hx. destruct (decide (put_bit b v x = 0)) as [->|H0]; [done|]. apply N.log2_lt_pow2; [lia|].
  destruct (decide (N.log2 (put_bit b v x) < 64)) as [|Hn]; [done|exfalso].
  pose proof (N.bit_log2 _ H0) as Hl. rewrite testbit_put in Hl. destruct (N.eqb_spec (N.log2 (put_bit b v x)) b) as [E|E]; [lia|].
  destruct (decide (x = 0)) as [->|Hx0]; [by rewrite N.bits_0 in Hl|]. rewrite N.bits_above_log2 in Hl; [done|].
  apply N.log2_lt_pow2 in Hx; lia.
Qed.

(** The trap, the return of the trap and [sret] on [sstatus]. *)
Lemma sstatus_roundtrip st priv :
  st < 2 ^ 64 →
  let st1 := put_bit B_SPP priv (put_bit B_SIE false (put_bit B_SPIE (N.testbit st B_SIE) st)) in
  let st2 := N.land st1 (imm (-3)) in
  N.testbit st2 B_SPP = priv ∧
  put_bit B_SPP false (put_bit B_SPIE true (put_bit B_SIE (N.testbit st2 B_SPIE) st2)) = put_bit B_SPP false (put_bit B_SPIE true st).
Proof.
  intros Hst st1 st2. assert (st1 < 2 ^ 64) as H1 by (by repeat apply put_bit_bound).
  assert (∀ c, N.testbit st2 c = if c =? B_SIE then false else if c =? B_SPP then priv else if c =? B_SPIE then N.testbit st B_SIE else N.testbit st c) as Hb.
  { intros c. unfold st2. rewrite testbit_clear_sie by done. unfold st1. rewrite !testbit_put.
    destruct (N.eqb_spec c B_SIE); [done|]. by destruct (c =? B_SPP). }
  split; [by rewrite Hb|]. apply N.bits_inj. intros c. rewrite !testbit_put, !Hb.
  destruct (c =? B_SPP); [done|]. destruct (c =? B_SPIE); [done|]. destruct (N.eqb_spec c B_SIE) as [->|]; done.
Qed.

Lemma hw_trap_csrs priv pc cause tval m c :
  csrs (hw_trap priv pc cause tval m) c = match c with
  | Sstatus => put_bit B_SPP priv (put_bit B_SIE false (put_bit B_SPIE (N.testbit (csrs m Sstatus) B_SIE) (csrs m Sstatus)))
  | Sepc => pc | Scause => cause | Stval => tval | _ => csrs m c
  end.
Proof. unfold hw_trap. destruct c; by asm. Qed.

Lemma hw_trap_regs priv pc cause tval m : (∀ r, reg (hw_trap priv pc cause tval m) r = reg m r) ∧ mem (hw_trap priv pc cause tval m) = mem m.
Proof. unfold hw_trap. split; [intros r; by asm|by asm]. Qed.

Lemma hw_sret_eq m st1 priv pc st :
  csrs m Sstatus = N.land st1 (imm (-3)) → csrs m Sepc = pc → st < 2 ^ 64 →
  st1 = put_bit B_SPP priv (put_bit B_SIE false (put_bit B_SPIE (N.testbit st B_SIE) st)) →
  hw_sret m = (priv, pc, set_csr Sstatus (put_bit B_SPP false (put_bit B_SPIE true st)) m).
Proof.
  intros E1 E2 Hst ->. destruct (sstatus_roundtrip st priv Hst) as [H1 H2]. unfold hw_sret. cbv zeta. by rewrite E1, E2, H1, H2.
Qed.

(** ** The properties *)

(** C6: A trap and its return.  On a hart outside a trap, [trap_vector] calls the handler
    with the cause, the program counter, the value and the address of a frame in the hart's
    own slot, from which [hartid] finds the hart; the frame holds all 31 registers and the
    program counter as they were interrupted, and nothing else in memory has changed.
    Whenever the handler returns 0, the hart halts.  When it returns the frame unchanged, the
    interrupted code goes on in its privilege with every register, its interrupt enable and
    [sscratch] as they were; when it returns any other frame, the registers are those of
    that frame.  A trap while the handler is active halts the hart, and only the memory of
    one frame below the handler's own is written. *)
Theorem trap_roundtrip (sym : Sym → N) (h : N) (priv : bool) (pc cause tval : N) (m : Mach) :
  outside sym m h → csrs m Sstatus < 2 ^ 64 →
  let f := F m in
  ∃ m1, run sym trap_vector (hw_trap priv pc cause tval m) = Called m1 trap_return ∧
    (reg m1 x_a0 = cause ∧ reg m1 x_a1 = pc ∧ reg m1 x_a2 = tval ∧ reg m1 x_a3 = f ∧ reg m1 x_sp = f - 8192) ∧
    csrs m1 Sscratch = f ∧ hartid (sym TrapStackBase) f = h ∧
    (∀ r, 1 ≤ r ≤ 31 → mem m1 (f + (r - 1) * 8) = reg m r) ∧ mem m1 (f + FRAME_SEPC * 8) = pc ∧
    (∀ a, a < f ∨ f + TRAP_FRAME_SIZE ≤ a → mem m1 a = mem m a) ∧
    ∀ m2, csrs m2 Sscratch = f →
      (reg m2 x_a0 = 0 → run sym trap_return m2 = Halts m2) ∧
      (reg m2 x_a0 = f → (∀ i, i < FRAME_WORDS → mem m2 (f + i * 8) = mem m1 (f + i * 8)) →
        ∃ m3 m4, run sym trap_return m2 = Srets m3 ∧ hw_sret m3 = (priv, pc, m4) ∧
          (∀ r, 1 ≤ r ≤ 31 → reg m4 r = reg m r) ∧ outside sym m4 h ∧
          csrs m4 Sstatus = put_bit B_SPP false (put_bit B_SPIE true (csrs m Sstatus)) ∧ mem m4 = mem m2) ∧
      (∀ f', reg m2 x_a0 = f' → f' ≠ 0 → f' + TRAP_FRAME_SIZE ≤ USIZE_MAX →
        ∃ m3, run sym trap_return m2 = Srets m3 ∧ (∀ r, 1 ≤ r ≤ 31 → reg m3 r = mem m2 (f' + (r - 1) * 8)) ∧
          csrs m3 Sepc = mem m2 (f' + FRAME_SEPC * 8) ∧ outside sym m3 h) ∧
      (∀ priv' pc' cause' tval', ∃ m3, run sym trap_vector (hw_trap priv' pc' cause' tval' m2) = Halts m3 ∧
        ∀ a, a < f - TRAP_FRAME_SIZE ∨ f ≤ a → mem m3 a = mem m2 a).
Proof.
  intros O Hst f. set (m0 := hw_trap priv pc cause tval m).
  destruct (hw_trap_regs priv pc cause tval m) as [HR HM]. fold m0 in HR, HM.
  assert (∀ c, csrs m0 c = match c with
    | Sstatus => put_bit B_SPP priv (put_bit B_SIE false (put_bit B_SPIE (N.testbit (csrs m Sstatus) B_SIE) (csrs m Sstatus)))
    | Sepc => pc | Scause => cause | Stval => tval | _ => csrs m c end) as HC by apply hw_trap_csrs.
  clearbody m0. assert (F m0 = f) as EF by (unfold F, f; by rewrite HC).
  assert (outside sym m0 h) as O0 by (unfold outside; by rewrite (HC Sscratch)).
  destruct (outside_frame sym m h O) as [HF _]. fold f in HF. destruct O as [ET Hm].
  destruct (trap_entry_run sym m0 h O0) as (m1 & E1 & [R1 R2 R3 R4 R5 R6 R7 R8 R9 R10 R11]). rewrite EF in *.
  rewrite (HC Scause), (HC Sepc), (HC Stval) in R6. rewrite (HC Sepc) in R3. rewrite (HC Sstatus) in R2.
  exists m1. split; [exact E1|]. split; [tauto|]. split; [done|]. split.
  { apply hartid_slot; unfold TRAP_STRIDE, TRAP_FRAME_SIZE, TRAP_SLOT in *; clear -ET Hm HF; lia. }
  split; [intros r Hr; by rewrite (R1 r Hr), HR|]. split; [done|]. split; [intros a Ha; by rewrite (R11 a Ha), HM|].
  intros m2 Es. assert (f + TRAP_FRAME_SIZE ≤ USIZE_MAX) as Hf by (by rewrite HF).
  assert (csrs m2 Sscratch + TRAP_FRAME_SIZE ≤ USIZE_MAX) as Hs by (by rewrite Es).
  assert (f ≠ 0) as Hf0 by (unfold TRAP_FRAME_SIZE, TRAP_SLOT in *; clear -ET HF; lia).
  split; [apply trap_return_halts|]. split; [|split].
  - intros Ea Hmem. destruct (trap_return_run sym m2 f Ea Hf0 Hf Hs) as (m3 & E3 & Q1 & Q2 & Q3 & Q4 & Q5 & _).
    rewrite Hmem in Q4, Q5 by done. rewrite R3 in Q4. rewrite R2 in Q5.
    eexists m3, _. split; [exact E3|]. split; [by eapply hw_sret_eq|]. asm. split; [|split; [|done] ].
    + intros r Hr. asm. rewrite (Q1 r Hr), Hmem, (R1 r Hr) by (change FRAME_WORDS with 36; clear -Hr; lia). apply HR.
    + unfold outside. asm. rewrite Q3, Es, HF. by split.
  - intros f' Ea H0 Hf'. destruct (trap_return_run sym m2 f' Ea H0 Hf' Hs) as (m3 & E3 & Q1 & _ & Q3 & Q4 & _).
    exists m3. split; [exact E3|]. split; [exact Q1|]. split; [exact Q4|]. unfold outside. rewrite Q3, Es, HF. by split.
  - intros priv' pc' cause' tval'. destruct (hw_trap_regs priv' pc' cause' tval' m2) as [_ HM2].
    set (m2' := hw_trap priv' pc' cause' tval' m2) in *.
    assert (csrs m2' Sscratch = f) as Es' by (unfold m2'; by rewrite hw_trap_csrs). clearbody m2'.
    destruct (nested_run sym m2' h) as (m3 & E3 & Hk & _).
    { rewrite Es', HF. exact ET. } { rewrite Es'. clear -HF Hm. lia. }
    exists m3. split; [exact E3|]. intros a Ha. rewrite Hk, HM2; [done|]. unfold F. by rewrite Es'.
Qed.

(** Hart 1 in user mode, with a register file and a memory to tell apart. *)
Definition trap_sym (s : Sym) : N := match s with GlobalPointer => 0x80220800 | TrapStackBase => 0x80250000 end.
Definition user_mach : Mach :=
  mkMach (λ r, 1000 + r) (λ a, a) (λ c, match c with Sscratch => 0x80260000 | Sstatus => 2 | _ => 0 end).

Lemma trap_roundtrip_witness :
  outside trap_sym user_mach 1 ∧
  ∃ m1, run trap_sym trap_vector (hw_trap false 0x10000 8 0 user_mach) = Called m1 trap_return ∧
    reg m1 x_a3 = 0x8025fee0 ∧ mem m1 (0x8025fee0 + 9 * 8) = 1010 ∧
    ∃ m3 m4, run trap_sym trap_return (set_reg x_a0 0x8025fee0 m1) = Srets m3 ∧ hw_sret m3 = (false, 0x10000, m4) ∧ reg m4 x_t6 = 1031.
Proof.
  assert (outside trap_sym user_mach 1) as O by (split; vm_compute; done). split; [exact O|].
  destruct (trap_roundtrip trap_sym 1 false 0x10000 8 0 user_mach O) as (m1 & E & (_ & _ & _ & A3 & _) & Es & _ & Hr & _ & _ & H); [done|].
  exists m1. split; [exact E|]. split; [exact A3|]. split; [exact (Hr 10 ltac:(done))|].
  destruct (H (set_reg x_a0 0x8025fee0 m1)) as (_ & Hret & _); [by rewrite csrs_set_reg|].
  destruct Hret as (m3 & m4 & E3 & E4 & Hr4 & _); [by rewrite reg_set_eq|intros i _; by rewrite mem_set_reg|].
  exists m3, m4. split; [exact E3|]. split; [exact E4|]. exact (Hr4 31 ltac:(done)).
Defined.

(** C9: Switching away and back.  [context_switch] and [frame_restore] keep in the old
    context the registers that live across a call and write nothing else; the first goes on
    with those of the new context and the others as they are, the second with all registers,
    the program counter and the status of a frame and with [sscratch] at the top of the
    hart's slot, from wherever in a trap it was called.  Whoever switches to the old context
    later, with its words as they were left, returns with the registers of the first call. *)
Theorem switch_roundtrip (sym : Sym → N) (h : N) (m : Mach) :
  let f := reg m x_a0 in let a := reg m x_a0 in let b := reg m x_a1 in
  (a + 112 ≤ USIZE_MAX → b + 112 ≤ USIZE_MAX → disjoint_ctx a b →
   ∃ m1, run sym context_switch m = Rets m1 ∧
     (∀ i r, preserved !! i = Some r → reg m1 r = mem m (b + N.of_nat i * 8)) ∧ (∀ r, r ∉ preserved → reg m1 r = reg m r) ∧
     (∀ x, ¬ (a ≤ x < a + 112) → mem m1 x = mem m x) ∧ csrs m1 = csrs m ∧
     ∀ m2, (∀ x, a ≤ x < a + 112 → mem m2 x = mem m1 x) → reg m2 x_a1 = a →
       reg m2 x_a0 + 112 ≤ USIZE_MAX → disjoint_ctx (reg m2 x_a0) a →
       ∃ m3, run sym context_switch m2 = Rets m3 ∧ ∀ r, r ∈ preserved → reg m3 r = reg m r) ∧
  (in_slot sym m h → f + TRAP_FRAME_SIZE ≤ USIZE_MAX → b + 112 ≤ USIZE_MAX → f + TRAP_FRAME_SIZE ≤ b ∨ b + 112 ≤ f →
   ∃ m1, run sym frame_restore m = Srets m1 ∧
     (∀ r, 1 ≤ r ≤ 31 → reg m1 r = mem m (f + (r - 1) * 8)) ∧ csrs m1 Sepc = mem m (f + FRAME_SEPC * 8) ∧
     outside sym m1 h ∧ (∀ x, ¬ (b ≤ x < b + 112) → mem m1 x = mem m x) ∧
     ∀ m2, (∀ x, b ≤ x < b + 112 → mem m2 x = mem m1 x) → reg m2 x_a1 = b →
       reg m2 x_a0 + 112 ≤ USIZE_MAX → disjoint_ctx (reg m2 x_a0) b →
       ∃ m3, run sym context_switch m2 = Rets m3 ∧ ∀ r, r ∈ preserved → reg m3 r = reg m r).
Proof.
  intros f a b.
  assert (∀ m1 m2 c, (∀ r o, (r, o) ∈ context_slots → mem m1 (c + o) = reg m r) →
    (∀ x, c ≤ x < c + 112 → mem m2 x = mem m1 x) → reg m2 x_a1 = c → c + 112 ≤ USIZE_MAX →
    reg m2 x_a0 + 112 ≤ USIZE_MAX → disjoint_ctx (reg m2 x_a0) c →
    ∃ m3, run sym context_switch m2 = Rets m3 ∧ ∀ r, r ∈ preserved → reg m3 r = reg m r) as Hback.
  { intros m1 m2 c Hs Hk E1 Hc H0 Hd. destruct (context_switch_run sym m2 H0) as (m3 & E & R & _); [by rewrite E1..|].
    exists m3. split; [exact E|]. rewrite <-preserved_slots. intros r ((q, o) & -> & Hr)%list_elem_of_fmap. cbn [fst].
    rewrite (proj2 (R q o Hr)), E1, Hk; [by apply Hs|]. apply slot_bounds in Hr as [Ho _]. clear -Ho. lia. }
  split.
  - intros Ha Hb Hd. destruct (context_switch_run sym m Ha Hb Hd) as (m1 & E & R & Ro & Mo & C).
    exists m1. split; [exact E|]. split; [intros i r Hr; by apply (R r), preserved_slot|]. split; [exact Ro|]. split; [exact Mo|]. split; [exact C|].
    intros m2 Hk E1 H0 Hd2. apply (Hback m1 m2 a); try done. intros r o Hr. by apply R.
  - intros Hs Hf Hb Hd. destruct (frame_restore_run sym m h Hs Hf Hb Hd) as (m1 & E & S & Mo & R & Cs & Cp & _).
    exists m1. split; [exact E|]. split; [exact R|]. split; [exact Cp|]. split; [split; [exact Cs|rewrite Cs; apply Hs]|].
    split; [exact Mo|]. intros m2 Hk E1 H0 Hd2. by apply (Hback m1 m2 b).
Qed.

(** Two contexts in memory. *)
Definition switching_mach : Mach :=
  mkMach (λ r, if r =? x_a0 then 0x81000000 else if r =? x_a1 then 0x81000100 else 1000 + r) (λ a, a)
    (λ c, match c with Sscratch => 0x80260000 | _ => 0 end).

Lemma switch_roundtrip_witness :
  ∃ m1, run trap_sym context_switch switching_mach = Rets m1 ∧ reg m1 x_sp = 0x81000108 ∧
    ∃ m3, run trap_sym context_switch (set_reg x_a1 0x81000000 (set_reg x_a0 0x81000100 m1)) = Rets m3 ∧ reg m3 x_sp = 1002.
Proof.
  destruct (switch_roundtrip trap_sym 1 switching_mach) as [H _].
  destruct H as (m1 & E & R & _ & _ & _ & Hb); [by vm_compute|by vm_compute|left; by vm_compute|].
  exists m1. split; [exact E|]. split; [exact (R 1%nat x_sp eq_refl)|].
  destruct (Hb (set_reg x_a1 0x81000000 (set_reg x_a0 0x81000100 m1))) as (m3 & E3 & R3).
  - intros x _. by rewrite !mem_set_reg.
  - by rewrite reg_set_eq.
  - rewrite reg_set_ne, reg_set_eq by done. by vm_compute.
  - rewrite reg_set_ne, reg_set_eq by done. right. by vm_compute.
  - exists m3. split; [exact E3|]. refine (R3 x_sp _). apply (bool_decide_unpack _). by vm_compute.
Defined.

(** ** The control registers *)

Lemma testbit_ldiff_2 x c : N.testbit (N.ldiff x 2) c = if c =? B_SIE then false else N.testbit x c.
Proof.
  rewrite N.ldiff_spec. change 2 with (2 ^ B_SIE). rewrite N.pow2_bits_eqb, (N.eqb_sym B_SIE).
  destruct (c =? B_SIE); [apply andb_false_r|apply andb_true_r].
Qed.

(** A critical section: interrupts are off inside, whatever it nests, and the status is the
    old one behind it. *)
Theorem irq_nesting (m : Mach) (body : Mach → Mach) :
  (∀ x, csrs (body x) Sstatus = csrs x Sstatus) →
  let '(on, m1) := irq_save m in
  N.testbit (csrs m1 Sstatus) B_SIE = false ∧ (irq_save m1).1 = false ∧
  csrs (irq_restore on (body m1)) Sstatus = csrs m Sstatus.
Proof.
  intros Hb. unfold irq_save, irq_disable, irq_restore, irq_enable. cbn [fst]. rewrite !csr_set_eq.
  assert (∀ x, N.land x 2 = if N.testbit x B_SIE then 2 else 0) as Hl.
  { intros x. change 2 with (2 ^ B_SIE). apply N.bits_inj. intros c. rewrite N.land_spec, N.pow2_bits_eqb.
    destruct (N.eqb_spec B_SIE c) as [<-|Hne]; destruct (N.testbit x B_SIE); rewrite ?andb_true_r, ?andb_false_r;
      rewrite ?N.pow2_bits_true, ?N.pow2_bits_false, ?N.bits_0 by done; done. }
  rewrite !Hl, testbit_ldiff_2. split; [done|]. split; [done|].
  destruct (N.testbit (csrs m Sstatus) B_SIE) eqn:E; cbn [N.eqb negb]; rewrite ?csr_set_eq, Hb, csr_set_eq; apply N.bits_inj; intros c.
  - rewrite N.lor_spec, testbit_ldiff_2. change 2 with (2 ^ B_SIE). rewrite N.pow2_bits_eqb, (N.eqb_sym B_SIE).
    destruct (N.eqb_spec c B_SIE) as [->|]; [by rewrite E|apply orb_false_r].
  - rewrite testbit_ldiff_2. destruct (N.eqb_spec c B_SIE) as [->|]; [by rewrite E|done].
Qed.

Lemma irq_nesting_witness :
  csrs (irq_restore (irq_save user_mach).1 (irq_save user_mach).2) Sstatus = 2.
Proof. pose proof (irq_nesting user_mach id (λ _, eq_refl)) as H. cbn in H. apply H. Defined.

(** The boot leaves a hart outside a trap, and [set_sscratch_trap_top] does from anywhere in
    its slot: [trap_roundtrip] applies to the next trap. *)
Theorem slot_established (sym : Sym → N) (vector h : N) (m : Mach) :
  sym TrapStackBase + (h + 1) * TRAP_SLOT ≤ USIZE_MAX →
  outside sym (init_traps (sym TrapStackBase) vector h m) h ∧
  (in_slot sym m h → outside sym (set_sscratch_trap_top (sym TrapStackBase) m) h).
Proof.
  intros Hm. change TRAP_SLOT with TRAP_STRIDE in *. split.
  - unfold outside, init_traps. asm. by split.
  - intros [_ Hs]. unfold outside, set_sscratch_trap_top. asm. rewrite (hartid_slot _ h); [by split|done|].
    change TRAP_SLOT with TRAP_STRIDE in Hs. unfold TRAP_FRAME_SIZE, TRAP_STRIDE in *. clear -Hs. lia.
Qed.

Lemma slot_established_witness : outside trap_sym (init_traps 0x80250000 0x80200100 3 user_mach) 3.
Proof. apply (slot_established trap_sym). by vm_compute. Defined.

(** [sanitize_csr] and the sources of [enable_timer]. *)
Theorem csrs_at_boot (m : Mach) :
  let m' := enable_sources (sanitize_csr m) in
  csrs m' Sie = 0x22 ∧ N.testbit (csrs m' Sip) 1 = false ∧
  (∀ c, N.testbit (csrs m' Sstatus) c = if bool_decide (c ∈ [13; 14; 18; 19]) then false else N.testbit (csrs m Sstatus) c) ∧
  (∀ r, reg m' r = reg m r) ∧ mem m' = mem m.
Proof.
  cbv zeta. unfold enable_sources, sanitize_csr. asm. split; [done|]. split; [rewrite N.ldiff_spec; apply andb_false_r|].
  split; [|split; [|done] ]; [|by intros r; asm]. intros c. rewrite N.ldiff_spec.
  assert (N.testbit 0xC6000 c = bool_decide (c ∈ [13; 14; 18; 19])) as ->.
  { change 0xC6000 with (N.lor (2 ^ 13) (N.lor (2 ^ 14) (N.lor (2 ^ 18) (2 ^ 19)))). rewrite !N.lor_spec, !N.pow2_bits_eqb.
    apply eq_true_iff_eq. rewrite bool_decide_eq_true, !orb_true_iff, !N.eqb_eq, !elem_of_cons, elem_of_nil. lia. }
  destruct (bool_decide _); [apply andb_false_r|apply andb_true_r].
Qed.
